(* ===== verification/_CoqProject ===== *)
-Q . S2P
Prelude.v
Tokens.v
Amount.v
Common.v
Context.v
ContextSpec.v
OrderedMaps.v
TreeMaps.v
ContextBisim.v
ContextTrace.v
Vault.v
VaultSpec.v
DataRun.v
VaultRun.v
ExampleState.v
Numbered.v
Formulator.v
FormulatorTx.v
FormulatorReward.v
FormulatorSpec.v
FormulatorUnstake.v
FormulatorRevoke.v
FormulatorBounds.v
FormulatorExamples.v
VaultLocked.v
Payment.v
PaymentSpec.v
Gateway.v
KeptData.v
GatewaySpec.v
PaymentExamples.v
VaultExamples.v
Queue.v
LinkedQueue.v
ExpireQueue.v
Search.v
SortedQueue.v
Rank.v
RankSpec.v
LevelRoot.v
Block.v
Store.v
StoreSpec.v
Pile.v
PileSpec.v
Chain.v
TxPool.v
ChainSpec.v
ChainAgree.v
ChainConnect.v
VaultTame.v
Pof.v
PofSpec.v
RequestTimer.v
Observer.v
ObserverHandle.v
ObserverChoice.v
ObserverSpec.v
ObserverQuiet.v
ObserverRefines.v
ObserverSafety.v
ObserverOnChain.v
ObserverExamples.v
FormulatorNode.v
FormulatorHandle.v
FormulatorEvents.v
FormulatorGrows.v
VaultSteady.v
FormulatorChain.v
FormulatorLost.v
FormulatorFuel.v
P2PNode.v
P2PSpec.v
ChainExamples.v
PofExamples.v
FormulatorNodeExamples.v
P2PExamples.v
