(* ===== verification/Prelude.v ===== *)
(** * FLETA testnet: a verification development

    FLETA is a block chain written in Go.  Formulators create blocks in turns
    given by a rank table, observers sign them, and every node runs the
    transactions of a block on a layered in-memory state and writes the result
    to its store.  This library models the node: the state of a block, the
    chain store with the files below it, the execution, creation and
    connection of blocks, the consensus rules that the chain calls, the
    processes vault, admin, formulator, payment and gateway, the transaction
    pool with its queues, and the three kinds of nodes: the observer, the
    formulator and the node that follows the chain.

    ** How the parts interact

    - A [Context] (core/types) is the state while a block runs: a stack of
      layers over a loader.  The processes (process/vault, process/admin,
      ...) read and write account and process data through it.
    - A [Chain] (core/chain) runs the hooks of the processes and the
      transactions of a block on a context, compares the hash of the context
      with the header and gives block and context to the [Store]; the store
      writes the context to a key-value database and the block to a pile
      (core/pile).  The store is the loader of the next context.
    - The consensus (pof) is called by the chain to check the signatures of a
      block and to update the rank table, which it keeps as process data.
    - The transaction pool (core/txpool), over the keyed queues of
      common/queue, holds the transactions that wait for a block; a block
      creator (core/chain/block_creator.go) takes them one at a time.
    - An observer (pof/observer_node*.go) agrees with the other observers on
      the formulator whose turn it is, checks the block that this formulator
      generates, votes for it and connects it.  A formulator
      (pof/formulator_node*.go) generates blocks when an observer asks, and
      connects them with the signatures of the observers.  A node
      (service/p2p/node.go) asks its peers for blocks and connects them.  All
      of them call the chain; formulators and nodes have a transaction pool,
      an expire queue and a queue of blocks; all have a request timer.

    ** Files

    - Prelude: this file.  Machine integers, outcomes (value, error, panic),
      little- and big-endian words, digits, ordered iteration over a map, the
      tactics and hint databases of the library.
    - Tokens: the values that encoders write, as a codec with its laws.
      Amount: common/amount.  Common: common (addresses, majority of
      signatures), common/binutil, common/hash, core/types/util.go.
    - Context: core/types/context.go, context_data.go, context_cache.go,
      loader.go.  ContextSpec: the views of a context and what each operation
      does to them.  ContextBisim: [tame] programs, the interface that the
      chain asks of processes and transactions.  ContextTrace: deletion marks
      and the round snapshot, body, commit or revert.  OrderedMaps: the
      encoding of the maps of core/types/map_*.go.  TreeMaps: their methods
      over the tree of the library GoLLRB, which is a parameter with its laws.
    - Vault: process/vault and process/admin.  VaultSpec: the ledger as
      specification.  VaultLocked: locked balances.  VaultTame: the vault
      meets the interface of the chain.  VaultExamples: witnesses.
    - DataRun, VaultRun: runs of programs on account and process data and on
      balances, the shared reasoning of the other processes.  Numbered: the
      numbered tables of process data.  ExampleState: a state for witnesses.
    - Formulator, FormulatorTx, FormulatorReward: process/formulator, its
      methods, transactions and rewards.  FormulatorSpec, FormulatorUnstake,
      FormulatorRevoke, FormulatorBounds, FormulatorExamples: its theorems.
    - Payment, PaymentSpec, Gateway, GatewaySpec, PaymentExamples:
      process/payment and process/gateway.  KeptData: data that later
      transactions and blocks leave in place.
    - Queue, LinkedQueue, ExpireQueue, Search, SortedQueue: common/queue;
      LinkedQueue also declares the interface [KeyedQueue].  TxPool:
      core/txpool over that interface.
    - Rank, RankSpec: pof/rank.go and rank_table.go.  Pof, PofSpec,
      PofExamples: pof/consensus.go and consensus_method.go.
    - LevelRoot: core/chain/util.go.  Block: core/types/block.go and its
      interfaces.  Store, StoreSpec: core/chain/store.go over the interface
      [PileI].  Pile, PileSpec: core/pile, and its instance of [PileI].
    - Chain: chain.go and block_creator.go.  ChainSpec, ChainAgree,
      ChainConnect: its theorems.  ChainExamples: a chain with the vault.
    - RequestTimer: service/p2p/requesttimer.go.  Observer (state, rounds,
      sends) and ObserverHandle (the handlers of messages and the loop): the
      observer node over the interface [ObserverChain].  ObserverSpec: the
      protocol as a transition system and its invariant; ObserverQuiet and
      ObserverRefines: the handlers refine it; ObserverSafety: the theorems;
      ObserverChoice: the choice of an ack; ObserverOnChain: core/chain with
      pof implements the interface; ObserverExamples: three observers.
    - FormulatorNode (state, sends, requests), FormulatorHandle (transactions,
      blocks, updateByGenItem) and FormulatorEvents (genBlock, the handlers
      of messages, the steps): the formulator node.  FormulatorGrows: what
      every step keeps; VaultSteady: a chain with the vault meets its
      hypothesis; FormulatorChain, FormulatorLost, FormulatorFuel: the
      theorems; FormulatorNodeExamples: a run.
    - P2PNode, P2PSpec, P2PExamples: service/p2p/node.go and node_send.go.

    ** How Go is modelled

    A fallible operation returns [Ok], [Err] with the error of the source, or
    [Panic]; operations on a context, a database, a file or a heap are
    programs of a state monad over that outcome, which keep the state that was
    reached when they fail.  A machine integer is a [Z], with [u8], [u16],
    [u32], [u64] or [i64] where the code converts or can wrap around.  Maps
    are [gmap]; where the code iterates over an ordered map the keys are
    sorted first, where it iterates over a Go map the order is universally
    quantified.  Pointers matter in the linked queue, which has a heap, in the
    files of a pile, which have a cursor, and for the contexts of a
    formulator, which its goroutines share: they are in a heap, too.  A
    context made from another one reads it as it was then.

    A node is a step function on its state: an event is a message, a round of
    one of its loops, a timer or a goroutine that was started with [go] and
    runs now.  What a step finds outside (the clock, random numbers, the order
    of Go's maps) is an argument, and what it sends is a list in the state.
    The goroutine that generates blocks is resumed after every block, where
    the code gives up its locks.

    Outside code is a parameter with the laws that are used of it: hashes,
    base58, key recovery, the codec (msgpack), the ordered tree, gzip, the
    database.  A theorem
    with such a law has a witness with a concrete instance.

    ** What the theorems show

    - State of a block: the reads of accounts, names, data and unspent
      outputs return the view whatever the cache holds ([reads_transparent]),
      while [HasUTXO] looks at the cache (Example HasUTXO_depends_on_cache);
      writes change one key ([data_writes_refine]); [Revert] undoes all
      since the snapshot but the cache ([snapshot_isolation]); what [Commit]
      does, with the case where it loses a value ([Commit_views]).
    - Chain: the block of a creator is accepted by every validator
      ([creator_block_accepted]); a block is connected wholly or not at all
      ([ConnectBlock_extends], [ConnectBlock_refused]); a transaction is not
      repeated in a later block ([no_replay_across_blocks]), though it can be
      within one ([time_slot_replay]); the parallel checks equal the
      sequential ones ([check_all_sequential]).
    - Store and files: what is stored is read back, also across a restart
      ([StoreBlock_views], [restart_slots]); a crash at any byte of an append
      leaves a file that loads ([pile_crash_safe]); the pile implements a list
      of blocks ([pile_db_refines]).
    - Observers: every run of an observer is a run of the protocol
      ([observer_refines]), whose invariant holds ([observer_invariant]); it
      votes once per height ([one_vote_per_height]), so that when all observers
      run this program two accepted blocks of a height have the same header
      and the same signature of the generator ([no_fork]).
    - Formulators: the blocks of one generation extend the chain, whatever
      happens between them ([generation_extends_chain]), with a bounded
      number of transactions ([generated_block_size]); the loops that connect
      and prepare blocks end ([update_terminates]); after a block that can not
      be connected its height is not asked for in any later event, up to a
      round that finds the height in the queue and connects it
      ([dropped_block_not_requested]).
    - Nodes: a round of requests asks for no block twice
      ([requests_disjoint]); one bad block ends the program
      ([unconnectable_block_panics]) and two failing messages end the
      receivers ([two_failures_silence]).
    - Consensus: two accepted blocks share an observer ([majority_quorum],
      [accepted_blocks_share_observer]); the rank table holds exactly the
      formulators ([OnSaveData_members]) and every candidate gets its turn
      ([every_candidate_leads], [timeout_top]).
    - Vault: the exact effect of transactions on the ledger, conservation of
      coins, payment of locked balances ([Transfer_executes],
      [Transfer_conserves], [AfterExecuteTransactions_pays]).
    - Other processes: stakes and unstaking as tables ([staking_refines],
      [Unstaking_executes]), revocation ([revokeFormulator_result]), rewards
      within the total ([pay_rewards_bounded]); a payment request is paid
      once ([request_paid_once]); tokens come in once per foreign transaction,
      also across later transactions and blocks that leave the mark of the
      deposit alone ([TokenIn_once]).
    - Maps: every ordered map is read back from what it writes
      ([ordered_maps_roundtrip]), and its methods over the tree are those of
      a finite map that is walked in key order ([tree_maps_refine]).
    - Queues and pool: refinement of plain lists, the invariant of the pool
      and its behaviour on every call.
    - Codecs: blocks, transfers, amounts and saved consensus states are read
      back as they were written, or exactly when they are not.

    ** Bounds and fuel

    Loops over a counter or a list are structural.  [sort.Search] and the
    shifting loops run on fuel given by the length of the slice, and their
    specifications prove that it suffices; numerals are converted with a fuel
    of the bit length ([to_digits_spec]); a walk over the linked queue takes
    the size of the heap.  The replay of blocks takes the height
    ([replay_terminates]).  The loops of updateByGenItem take the number of
    generated blocks, which is enough ([update_terminates]).  The limits of
    the source are the fuel of its own bounded loops: 100 blocks for an
    observer, 11 blocks for a formulator or a node, 500 transactions for a
    worker, ten heights for a round of requests.  The loop that fills a block
    ends when a timer fires: its fuel is part of what a step finds outside,
    and the theorems hold for all values.  The chunk size of the pile is the
    constant of the source, 2592000; examples with other sizes do not exist.

    ** Not modelled

    The meshes and peers of the network with their packets, HTTP services and
    explorers, executables, the database drivers and the vendored code
    (buntdb, secp256k1, sha3, toml): I/O and third-party code.  Locks: a
    handler of a node is one step, which is coarser than the code where a
    handler takes more than one lock; the other handlers run under one lock
    of their object.  [Init] functions that only register types, logging, and
    JSON or other printing forms.  Floating point: the quotient that spreads
    transactions over the blocks of a turn is an argument. *)

From stdpp Require Export base numbers list gmap strings fin_maps sorting.

#[global] Open Scope Z_scope.
#[global] Set Default Goal Selector "!".

Declare Scope fleta_scope.
Delimit Scope fleta_scope with fleta.
#[global] Open Scope fleta_scope.

(** [lia] with division and modulo by constants. *)
Ltac zdiv_lia := Z.to_euclidean_division_equations; lia.

(** ** Machine integers

    A Go integer of width [w] is a [Z]; every operation that can leave the
    range is followed by the conversion the Go code performs. *)

Definition u8 (z : Z) : Z := z `mod` 2 ^ 8.
Definition u16 (z : Z) : Z := z `mod` 2 ^ 16.
Definition u32 (z : Z) : Z := z `mod` 2 ^ 32.
Definition u64 (z : Z) : Z := z `mod` 2 ^ 64.

(** Go's [int64(x)] of a 64-bit pattern: two's complement. *)
Definition i64 (z : Z) : Z :=
  let r := z `mod` 2 ^ 64 in if r <? 2 ^ 63 then r else r - 2 ^ 64.

Definition is_u8 (z : Z) : Prop := 0 ≤ z < 2 ^ 8.
Definition is_u16 (z : Z) : Prop := 0 ≤ z < 2 ^ 16.
Definition is_u32 (z : Z) : Prop := 0 ≤ z < 2 ^ 32.
Definition is_u64 (z : Z) : Prop := 0 ≤ z < 2 ^ 64.

Lemma u32_range z : is_u32 (u32 z).
Proof. unfold is_u32, u32. apply Z.mod_pos_bound. lia. Qed.

Lemma u64_range z : is_u64 (u64 z).
Proof. unfold is_u64, u64. apply Z.mod_pos_bound. lia. Qed.

Lemma u32_small z : is_u32 z → u32 z = z.
Proof. apply Z.mod_small. Qed.

Lemma u8_small z : is_u8 z → u8 z = z.
Proof. apply Z.mod_small. Qed.

Lemma u16_small z : is_u16 z → u16 z = z.
Proof. apply Z.mod_small. Qed.

Lemma u64_small z : is_u64 z → u64 z = z.
Proof. apply Z.mod_small. Qed.

Lemma i64_small z : 0 ≤ z < 2 ^ 63 → i64 z = z.
Proof.
  intros H. unfold i64. rewrite Z.mod_small by lia.
  destruct (Z.ltb_spec z (2 ^ 63)); lia.
Qed.

Lemma i64_high z : 2 ^ 63 ≤ z < 2 ^ 64 → i64 z = z - 2 ^ 64.
Proof.
  intros H. unfold i64. rewrite Z.mod_small by lia.
  destruct (Z.ltb_spec z (2 ^ 63)); lia.
Qed.

(** ** Bytes

    A byte is a [Z] in [0, 256); a Go [[]byte] or [string] is a list of
    them.  [nil] and the empty slice are both [[]]: the code only ever tests
    their length. *)

Abbreviation byte := Z (only parsing).
Abbreviation bytes := (list Z) (only parsing).

Definition is_byte (b : Z) : Prop := 0 ≤ b < 256.

(** The bytes of a string literal. *)
Definition str (s : string) : bytes :=
  (λ c, Z.of_nat (Ascii.nat_of_ascii c)) <$> String.list_ascii_of_string s.

Fixpoint le_bytes (n : nat) (z : Z) : bytes :=
  match n with
  | O => []
  | S n => z `mod` 256 :: le_bytes n (z `div` 256)
  end.

Fixpoint le_val (bs : bytes) : Z :=
  match bs with
  | [] => 0
  | b :: bs => b + 256 * le_val bs
  end.

Definition be_bytes (n : nat) (z : Z) : bytes := rev (le_bytes n z).
Definition be_val (bs : bytes) : Z := le_val (rev bs).

Lemma length_le_bytes n z : length (le_bytes n z) = n.
Proof. revert z. induction n as [|n IH]; intros z; simpl; [done|]. by rewrite IH. Qed.

Lemma length_be_bytes n z : length (be_bytes n z) = n.
Proof. unfold be_bytes. by rewrite length_rev, length_le_bytes. Qed.

Lemma le_bytes_range n z : Forall is_byte (le_bytes n z).
Proof.
  revert z. induction n as [|n IH]; intros z; simpl; constructor; auto.
  unfold is_byte. apply Z.mod_pos_bound. lia.
Qed.

Lemma le_val_bytes n z : le_val (le_bytes n z) = z `mod` 2 ^ (8 * Z.of_nat n).
Proof.
  revert z. induction n as [|n IH]; intros z.
  - simpl. by rewrite Z.mod_1_r.
  - cbn [le_bytes le_val]. rewrite IH.
    replace (2 ^ (8 * Z.of_nat (S n))) with (256 * 2 ^ (8 * Z.of_nat n)).
    + rewrite Z.rem_mul_r by lia. lia.
    + replace (8 * Z.of_nat (S n)) with (8 + 8 * Z.of_nat n) by lia.
      rewrite Z.pow_add_r by lia. lia.
Qed.

Lemma be_val_bytes n z : be_val (be_bytes n z) = z `mod` 2 ^ (8 * Z.of_nat n).
Proof. unfold be_val, be_bytes. by rewrite rev_involutive, le_val_bytes. Qed.

Lemma le_bytes_inj n x y :
  0 ≤ x < 2 ^ (8 * Z.of_nat n) → 0 ≤ y < 2 ^ (8 * Z.of_nat n) →
  le_bytes n x = le_bytes n y → x = y.
Proof.
  intros Hx Hy H. apply (f_equal le_val) in H. rewrite !le_val_bytes in H.
  by rewrite !Z.mod_small in H by lia.
Qed.

Lemma be_bytes_inj n x y :
  0 ≤ x < 2 ^ (8 * Z.of_nat n) → 0 ≤ y < 2 ^ (8 * Z.of_nat n) →
  be_bytes n x = be_bytes n y → x = y.
Proof.
  intros Hx Hy H. apply (f_equal be_val) in H. rewrite !be_val_bytes in H.
  by rewrite !Z.mod_small in H by lia.
Qed.

Lemma le_val_range bs : Forall is_byte bs → 0 ≤ le_val bs < 2 ^ (8 * Z.of_nat (length bs)).
Proof.
  induction 1 as [|b bs Hb _ IH]; [simpl; lia|].
  cbn [le_val length]. unfold is_byte in Hb.
  replace (8 * Z.of_nat (S (length bs))) with (8 + 8 * Z.of_nat (length bs)) by lia.
  rewrite Z.pow_add_r by lia. lia.
Qed.

Lemma le_bytes_val bs : Forall is_byte bs → le_bytes (length bs) (le_val bs) = bs.
Proof.
  induction 1 as [|b bs Hb _ IH]; [done|]. unfold is_byte in Hb.
  cbn [le_val length le_bytes]. f_equal.
  - rewrite Z.mul_comm, Z.mod_add by lia. by rewrite Z.mod_small by lia.
  - rewrite Z.mul_comm, Z.div_add by lia. by rewrite Z.div_small, Z.add_0_l by lia.
Qed.

(** ** Errors

    The error values of the packages the development models, one
    constructor per Go [Err...] variable.  [ErrExternal] stands for an error
    that comes out of code outside the repository. *)
Inductive error :=
  (* common *)
  | ErrInsufficientSignature | ErrInvalidSignature | ErrDuplicatedSignature | ErrInvalidPublicHash
  (* common/amount *)
  | ErrInvalidAmountFormat
  (* common/queue *)
  | ErrFullQueue
  (* core/types *)
  | ErrNotExistAccount | ErrDeletedAccount | ErrExistAccount | ErrExistAccountName
  | ErrInvalidAddressHeight | ErrNotAllowedEmptyAddressAccount
  | ErrNotAllowedAddressAccountName | ErrInvalidAccountName | ErrInvalidAccountType
  | ErrInvalidSignerCount | ErrInvalidAccountSigner | ErrDustAmount
  | ErrUsedUTXO | ErrNotExistUTXO | ErrExistUTXO
  | ErrUsedTimeSlot | ErrInvalidTransactionTimeSlot | ErrInvalidTransactionIDFormat
  | ErrNotExistProcess | ErrInvalidTransactionCount
  (* core/chain *)
  | ErrInvalidChainID | ErrInvalidVersion | ErrInvalidHeight | ErrInvalidPrevHash
  | ErrInvalidTimestamp | ErrInvalidGenerator | ErrInvalidContextHash
  | ErrInvalidLevelRootHash | ErrExceedHashCount | ErrInvalidHashCount
  | ErrDirtyContext | ErrChainClosed | ErrCannotDeleteGeneratorAccount
  | ErrStoreClosed | ErrAlreadyGenesised | ErrInvalidTxInKey | ErrInvalidGenesisHash
  | ErrFoundForkedBlock | ErrChainInvalidAccountName
  (* core/backend *)
  | ErrNotExistKey
  (* core/pile; its ErrInvalidHeight is another value than the chain's *)
  | ErrInvalidChunkBeginHeight | ErrInvalidChunkEndHeight | ErrInvalidAppendHeight
  | ErrPileInvalidHeight | ErrInvalidFileSize | ErrInvalidDataIndex | ErrMissingPile
  | ErrAlreadyInitialized | ErrExeedMaximumDataArrayLength | ErrHeightCrashed
  (* core/txpool *)
  | ErrExistTransaction | ErrEmptyQueue | ErrTransactionPoolOverflowed
  (* pof *)
  | ErrInsufficientCandidateCount | ErrExceedCandidateCount | ErrInvalidPhase
  | ErrExistAddress | ErrInvalidTopAddress | ErrInvalidTopSignature
  | ErrInvalidSignatureCount | ErrInvalidObserverKey | ErrInvalidMaxBlocksPerFormulator
  | ErrFoundForkedBlockGen | ErrInvalidVote | ErrInvalidRoundState | ErrInvalidRequest
  | ErrAlreadyVoted | ErrNotExistObserverPeer
  (* service/p2p *)
  | ErrUnknownMessage | ErrInvalidUTXO | ErrTooManyTrasactionInMessage
  (* process/admin *)
  | ErrUnauthorizedTransaction
  (* process/vault *)
  | ErrMinusInput | ErrMinusBalance | ErrMinusCollectedFee
  | ErrInvalidMultiKeyHashCount | ErrInvalidRequiredKeyHashCount
  | ErrInvalidPolicy | ErrInsufficientFee | ErrInsufficientBalance | ErrInvalidTagSize | ErrInvalidDefaultFee
  | ErrPolicyShouldBeSetupInApplication
  (* process/formulator; its ErrMinusBalance is another value than the vault's *)
  | ErrInvalidStakingAddress | ErrInvalidStakingAmount | ErrAlphaCreationLimited
  | ErrFormulatorMinusBalance | ErrMinustUnstakingAmount
  | ErrRewardPolicyShouldBeSetupInApplication | ErrAlphaPolicyShouldBeSetupInApplication
  | ErrSigmaPolicyShouldBeSetupInApplication | ErrOmegaPolicyShouldBeSetupInApplication
  | ErrHyperPolicyShouldBeSetupInApplication
  | ErrInvalidFormulatorAddress | ErrInvalidFormulatorCount | ErrInsufficientFormulatorBlocks
  | ErrInsufficientFormulatorRewardCount | ErrCriticalStakingAmount | ErrInsufficientStakingAmount
  | ErrInvalidRewardPolicy | ErrInvalidHyperPolicy | ErrInvalidValidatorPolicy | ErrNotHyperFormulator
  | ErrNotRevoked | ErrNotExistRevokedFormulator | ErrInvalidHeritor | ErrNotExistUnstakingAmount
  | ErrRevokedFormulator | ErrInvalidTransmuteCount | ErrInvalidTransmuteAmount
  | ErrInvalidTransmuteHeight | ErrNotExistTransmutePolicy | ErrNoOverAmount
  | ErrSigmaCreationNotAllowed | ErrOmegaCreationNotAllowed
  (* process/payment *)
  | ErrInvalidRequestPayment | ErrInvalidPaymentAmount | ErrInvalidTopicName
  | ErrNotExistRequestPayment | ErrExceedContentSize | ErrExistTopic | ErrNotExistTopic
  | ErrExistSubscribe | ErrNotExistSubscribe | ErrInvalidBillingAmount
  (* process/gateway; the errors about policies are other values than the vault's *)
  | ErrInvalidERC20AddressFormat | ErrGatewayInvalidPolicy | ErrInvalidAddressCount
  | ErrProcessedERC20TXID | ErrProcessedOutTXID | ErrGatewayPolicyShouldBeSetup
  (* errors of code outside the repository *)
  | ErrExternal (code : Z).

#[export] Instance error_eq_dec : EqDecision error.
Proof. solve_decision. Defined.

(** ** Outcomes and the state monad

    A Go call returns a value, returns an error or panics.  A call on shared
    state also leaves a state behind, on every one of the three: what a
    function wrote before it failed stays written. *)
Inductive res (A : Type) :=
  | Ok (a : A)
  | Err (e : error)
  | Panic.
Arguments Ok {A} a.
Arguments Err {A} e.
Arguments Panic {A}.

#[export] Instance res_eq_dec {A} `{EqDecision A} : EqDecision (res A).
Proof. solve_decision. Defined.

#[export] Instance res_ret : MRet res := @Ok.
#[export] Instance res_bind : MBind res := λ A B f r,
  match r with Ok a => f a | Err e => Err e | Panic => Panic end.

Definition of_option {A} (o : option A) : res A :=
  match o with Some a => Ok a | None => Panic end.

Definition M (S A : Type) : Type := S → res A * S.

#[export] Instance M_ret S : MRet (M S) := λ A a s, (Ok a, s).
#[export] Instance M_bind S : MBind (M S) := λ A B f m s,
  match m s with
  | (Ok a, s') => f a s'
  | (Err e, s') => (Err e, s')
  | (Panic, s') => (Panic, s')
  end.

Definition fail {S A} (e : error) : M S A := λ s, (Err e, s).
Definition panic {S A} : M S A := λ s, (Panic, s).
Definition get {S} : M S S := λ s, (Ok s, s).
Definition put {S} (s : S) : M S unit := λ _, (Ok tt, s).
Definition modify {S} (f : S → S) : M S unit := λ s, (Ok tt, f s).
Definition gets {S A} (f : S → A) : M S A := λ s, (Ok (f s), s).
Definition lift {S A} (r : res A) : M S A := λ s, (r, s).

(** Go's [if v, err := f(); err != nil { ... }]: the error as a value. *)
Definition try {S A} (m : M S A) : M S (A + error) := λ s,
  match m s with
  | (Ok a, s') => (Ok (inl a), s')
  | (Err e, s') => (Ok (inr e), s')
  | (Panic, s') => (Panic, s')
  end.

(** [if b { return err }]. *)
Definition guard_err {S} (b : bool) (e : error) : M S unit :=
  if b then fail e else mret tt.

(** A [for] loop over a list with early return on error. *)
Fixpoint for_each {S A} (f : A → M S unit) (l : list A) : M S unit :=
  match l with
  | [] => mret tt
  | a :: l => f a ;; for_each f l
  end.

Fixpoint fold_m {S A B} (f : B → A → M S B) (b : B) (l : list A) : M S B :=
  match l with
  | [] => mret b
  | a :: l => b' ← f b a; fold_m f b' l
  end.

Lemma bind_Ok {S A B} (m : M S A) (f : A → M S B) s a s' :
  m s = (Ok a, s') → (m ≫= f) s = f a s'.
Proof. intros H. unfold mbind, M_bind. by rewrite H. Qed.

Lemma bind_Err {S A B} (m : M S A) (f : A → M S B) s e s' :
  m s = (Err e, s') → (m ≫= f) s = (Err e, s').
Proof. intros H. unfold mbind, M_bind. by rewrite H. Qed.

Lemma bind_inv_Ok {S A B} (m : M S A) (f : A → M S B) s b s' :
  (m ≫= f) s = (Ok b, s') → ∃ a s1, m s = (Ok a, s1) ∧ f a s1 = (Ok b, s').
Proof.
  unfold mbind, M_bind. destruct (m s) as [[a|e|] s1]; intros H; simplify_eq; eauto.
Qed.

Lemma bind_assoc {S A B C} (m : M S A) (f : A → M S B) (g : B → M S C) s :
  ((m ≫= f) ≫= g) s = (m ≫= λ a, f a ≫= g) s.
Proof. unfold mbind, M_bind. by destruct (m s) as [[a|e|] s1]. Qed.

Lemma guard_err_Ok {S} b e (s s' : S) u :
  guard_err b e s = (Ok u, s') → b = false ∧ s' = s.
Proof. destruct b; intros [= <-]; auto. Qed.

(** A computation that leaves the state as it found it, whatever it returns. *)
Definition pure_on {S A} (m : M S A) : Prop := ∀ s, (m s).2 = s.

(** [keeps P m]: every outcome of [m] leaves a state that satisfies [P] when
    it started in one. *)
Definition keeps {S A} (P : S → Prop) (m : M S A) : Prop := ∀ s, P s → P (m s).2.

Lemma keeps_ret {S A} (P : S → Prop) (a : A) : keeps P (mret a : M S A).
Proof. by intros s. Qed.

Lemma keeps_bind {S A B} (P : S → Prop) (m : M S A) (f : A → M S B) :
  keeps P m → (∀ a, keeps P (f a)) → keeps P (m ≫= f).
Proof.
  intros Hm Hf s Hs. unfold mbind, M_bind. specialize (Hm s Hs).
  destruct (m s) as [[a|e|] s1]; simpl in *; auto. by apply Hf.
Qed.

Lemma keeps_guard {S} (P : S → Prop) b e : keeps P (guard_err b e : M S unit).
Proof. by destruct b; intros s. Qed.

Lemma keeps_fail {S A} (P : S → Prop) e : keeps P (fail e : M S A).
Proof. by intros s. Qed.

Lemma keeps_lift {S A} (P : S → Prop) (r : res A) : keeps P (lift r : M S A).
Proof. by intros s. Qed.

Lemma keeps_panic {S A} (P : S → Prop) : keeps P (panic : M S A).
Proof. by intros s. Qed.

Lemma keeps_gets {S A} (P : S → Prop) (f : S → A) : keeps P (gets f).
Proof. by intros s. Qed.

Lemma keeps_try {S A} (P : S → Prop) (m : M S A) : keeps P m → keeps P (try m).
Proof.
  intros Hm s Hs. specialize (Hm s Hs). unfold try.
  by destruct (m s) as [[a|e|] s1].
Qed.

Lemma keeps_for_each {S A} (P : S → Prop) (f : A → M S unit) l :
  (∀ a, keeps P (f a)) → keeps P (for_each f l).
Proof.
  intros Hf. induction l as [|a l IH]; simpl; [apply keeps_ret|].
  by apply keeps_bind.
Qed.

Create HintDb keeps.
#[export] Hint Resolve keeps_ret keeps_bind keeps_guard keeps_fail keeps_lift keeps_panic
  keeps_gets keeps_try keeps_for_each : keeps.

(** ** Lists

    [List.rev] and stdpp's [reverse] agree; the lookup lemmas are stated for
    the latter. *)
Lemma rev_reverse {A} (l : list A) : rev l = reverse l.
Proof. apply rev_alt. Qed.

Lemma rev_lookup {A} (l : list A) i :
  (i < length l)%nat → rev l !! i = l !! (length l - S i)%nat.
Proof. rewrite rev_reverse. apply reverse_lookup. Qed.

Lemma rev_replicate {A} n (x : A) : rev (replicate n x) = replicate n x.
Proof. rewrite rev_reverse. apply reverse_replicate. Qed.

(** Runs of one element at the ends of a list, as [strings.TrimRight] and
    [bytes.TrimRight] cut them. *)
Fixpoint trim_left (c : Z) (l : list Z) : list Z :=
  match l with
  | x :: l' => if x =? c then trim_left c l' else l
  | [] => []
  end.
Definition trim_right (c : Z) (l : list Z) : list Z := rev (trim_left c (rev l)).
Definition run (c : Z) (l : list Z) : nat := (length l - length (trim_left c l))%nat.

Lemma filter_all {A} (P : A → Prop) `{∀ x, Decision (P x)} (l : list A) : Forall P l → filter P l = l.
Proof. induction 1 as [|x l Hx _ IH]; [done|]. by rewrite filter_cons_True, IH. Qed.
Lemma filter_none {A} (P : A → Prop) `{∀ x, Decision (P x)} (l : list A) : Forall (λ x, ¬ P x) l → filter P l = [].
Proof. induction 1 as [|x l Hx _ IH]; [done|]. by rewrite filter_cons_False. Qed.

Lemma snoc_view {A} (l : list A) : l = [] ∨ ∃ l' x, l = l' ++ [x].
Proof. induction l as [|x l' _] using rev_ind; [by left|right; by eexists _, _]. Qed.

Section Runs.
Context (c : Z).

Lemma trim_left_le l : (length (trim_left c l) ≤ length l)%nat.
Proof. induction l as [|x l IH]; simpl; [done|]. case_match; simpl; lia. Qed.

Lemma run_cons x l : run c (x :: l) = if x =? c then S (run c l) else 0%nat.
Proof.
  unfold run. simpl. pose proof (trim_left_le l). destruct (x =? c); simpl; lia.
Qed.

Lemma run_le l : (run c l ≤ length l)%nat.
Proof. unfold run. lia. Qed.

Lemma trim_left_drop l : trim_left c l = drop (run c l) l.
Proof. induction l as [|x l IH]; [done|]. rewrite run_cons. simpl. by destruct (x =? c). Qed.

Lemma run_take l : take (run c l) l = replicate (run c l) c.
Proof.
  induction l as [|x l IH]; [done|]. rewrite run_cons.
  destruct (Z.eqb_spec x c) as [->|]; simpl; [by rewrite IH|done].
Qed.

(** The first element other than [c] is at index [run c l]. *)
Lemma run_lookup l k x :
  (k ≤ run c l)%nat → l !! k = Some x → x = c ↔ (k < run c l)%nat.
Proof.
  revert k. induction l as [|y l IH]; intros k Hk Hx; [done|].
  rewrite run_cons in *. destruct (Z.eqb_spec y c) as [->|Hne].
  - destruct k as [|k]; simplify_eq/=; [split; [lia|done]|].
    rewrite (IH k) by (done || lia). lia.
  - assert (k = 0%nat) as -> by lia. simplify_eq/=. split; [done|lia].
Qed.

Lemma run_app a b :
  run c (a ++ b) = if (run c a <? length a)%nat then run c a else (length a + run c b)%nat.
Proof.
  induction a as [|x a IH]; [done|]. cbn [app length]. rewrite !run_cons.
  destruct (x =? c); [|done]. rewrite IH.
  destruct (Nat.ltb_spec (run c a) (length a)), (Nat.ltb_spec (S (run c a)) (S (length a))); lia.
Qed.

Lemma run_replicate n : run c (replicate n c) = n.
Proof.
  induction n as [|n IH]; [done|]. simpl replicate. rewrite run_cons, Z.eqb_refl. by rewrite IH.
Qed.

Lemma trim_right_take l : trim_right c l = take (length l - run c (rev l)) l.
Proof. unfold trim_right. by rewrite trim_left_drop, skipn_rev, rev_involutive. Qed.

Lemma trim_right_app l : l = trim_right c l ++ replicate (run c (rev l)) c.
Proof.
  unfold trim_right. rewrite trim_left_drop.
  rewrite <- (rev_involutive (replicate _ _)), <- rev_app_distr.
  replace (rev (replicate (run c (rev l)) c)) with (take (run c (rev l)) (rev l)).
  - by rewrite take_drop, rev_involutive.
  - by rewrite run_take, rev_replicate.
Qed.

Lemma trim_right_replicate l n : trim_right c (l ++ replicate n c) = trim_right c l.
Proof.
  unfold trim_right. rewrite rev_app_distr, rev_replicate. f_equal.
  induction n as [|n IH]; simpl; [done|]. by rewrite Z.eqb_refl.
Qed.
End Runs.

(** ** Positional digits

    [math/big] prints a number in base 10 and exports it in base 256: both
    are the digits of the number, most significant first, none for zero. *)
Fixpoint to_digits_aux (fuel : nat) (base n : Z) (acc : list Z) : list Z :=
  match fuel with
  | O => acc
  | S fuel =>
      if n =? 0 then acc
      else to_digits_aux fuel base (n `div` base) (n `mod` base :: acc)
  end.

Definition to_digits (base n : Z) : list Z :=
  to_digits_aux (S (Z.to_nat (Z.log2 n))) base n [].

Definition of_digits (base : Z) (ds : list Z) : Z :=
  foldl (λ acc d, acc * base + d) 0 ds.

Section Digits.
Context (base : Z) (Hbase : 2 ≤ base).

Lemma foldl_digits acc ds :
  foldl (λ acc d, acc * base + d) acc ds
  = acc * base ^ Z.of_nat (length ds) + of_digits base ds.
Proof.
  unfold of_digits. revert acc. induction ds as [|d ds IH]; intros acc; [simpl; lia|].
  cbn [foldl length]. rewrite IH, (IH (0 * base + d)), Nat2Z.inj_succ, Z.pow_succ_r by lia. lia.
Qed.

Lemma of_digits_cons d ds :
  of_digits base (d :: ds) = d * base ^ Z.of_nat (length ds) + of_digits base ds.
Proof. unfold of_digits at 1. simpl. by rewrite foldl_digits. Qed.

Lemma of_digits_app ds es :
  of_digits base (ds ++ es)
  = of_digits base ds * base ^ Z.of_nat (length es) + of_digits base es.
Proof. unfold of_digits at 1. by rewrite foldl_app, foldl_digits. Qed.

Lemma of_digits_replicate_0 k : of_digits base (replicate k 0) = 0.
Proof. induction k as [|k IH]; [done|]. simpl replicate. rewrite of_digits_cons, IH. lia. Qed.

Lemma of_digits_range ds :
  Forall (λ d, 0 ≤ d < base) ds → 0 ≤ of_digits base ds < base ^ Z.of_nat (length ds).
Proof.
  induction 1 as [|d ds Hd _ IH]; [unfold of_digits; simpl; lia|].
  rewrite of_digits_cons. simpl length. rewrite Nat2Z.inj_succ, Z.pow_succ_r by lia.
  assert (0 < base ^ Z.of_nat (length ds)) by (apply Z.pow_pos_nonneg; lia). nia.
Qed.

Lemma log2_div_lt n : 1 < n → n `div` base ≠ 0 → Z.log2 (n `div` base) < Z.log2 n.
Proof.
  intros Hn Hd. assert (0 ≤ n `div` base) by (apply Z.div_pos; lia).
  assert (n `div` base ≤ n `div` 2) by (apply Z.div_le_compat_l; lia).
  apply Z.le_lt_trans with (Z.log2 (n `div` 2)); [apply Z.log2_le_mono; lia|].
  change 2 with (2 ^ 1). rewrite <- Z.shiftr_div_pow2, Z.log2_shiftr by lia.
  assert (1 ≤ Z.log2 n) by (apply Z.log2_le_pow2; lia). lia.
Qed.

(** Every fuel above the bit length gives the same digits. *)
Lemma to_digits_aux_spec fuel n acc :
  0 ≤ n → (n = 0 ∨ Z.log2 n < Z.of_nat fuel) →
  ∃ ds, to_digits_aux fuel base n acc = ds ++ acc
        ∧ of_digits base ds = n
        ∧ Forall (λ d, 0 ≤ d < base) ds
        ∧ (∀ d ds', ds = d :: ds' → d ≠ 0).
Proof.
  revert n acc. induction fuel as [|fuel IH]; intros n acc Hn Hf.
  { assert (n = 0) as -> by (pose proof (Z.log2_nonneg n); lia).
    exists []. repeat split; try done. }
  simpl. destruct (Z.eqb_spec n 0) as [->|Hn0].
  { exists []. repeat split; try done. }
  destruct (IH (n `div` base) (n `mod` base :: acc)) as (ds & -> & Hv & HF & Hhd).
  { apply Z.div_pos; lia. }
  { destruct (decide (n `div` base = 0)) as [|Hd]; [by left|right].
    destruct (decide (n = 1)) as [->|]; [rewrite Z.div_1_l in Hd by lia; lia|].
    pose proof (log2_div_lt n ltac:(lia) Hd). lia. }
  exists (ds ++ [n `mod` base]).
  assert (Hm : 0 ≤ n `mod` base < base) by (apply Z.mod_pos_bound; lia).
  split_and!.
  - by rewrite <- app_assoc.
  - rewrite of_digits_app, Hv. unfold of_digits; simpl. rewrite Z.pow_1_r.
    pose proof (Z.div_mod n base ltac:(lia)). lia.
  - apply Forall_app. auto.
  - destruct ds as [|d ds]; intros d' ds' Heq; simplify_list_eq; [|by eapply Hhd].
    unfold of_digits in Hv. simpl in Hv. intros Hz.
    pose proof (Z.div_mod n base ltac:(lia)). lia.
Qed.

Lemma to_digits_spec n :
  0 ≤ n →
  of_digits base (to_digits base n) = n
  ∧ Forall (λ d, 0 ≤ d < base) (to_digits base n)
  ∧ (∀ d ds', to_digits base n = d :: ds' → d ≠ 0).
Proof.
  intros Hn. unfold to_digits.
  destruct (to_digits_aux_spec (S (Z.to_nat (Z.log2 n))) n []) as (ds & E & ?); [done| |].
  { right. pose proof (Z.log2_nonneg n). lia. }
  rewrite app_nil_r in E. by rewrite E.
Qed.

(** The digits of [n] are no more than [k] exactly when [n < base ^ k]. *)
Lemma to_digits_length_le n k :
  0 ≤ n → n < base ^ Z.of_nat k ↔ (length (to_digits base n) ≤ k)%nat.
Proof.
  intros Hn. destruct (to_digits_spec n Hn) as (Hv & HF & Hhd).
  destruct (to_digits base n) as [|d ds] eqn:E.
  { unfold of_digits in Hv; simpl in Hv. subst n. simpl.
    split; [lia|]. intros _. apply Z.pow_pos_nonneg; lia. }
  rewrite of_digits_cons in Hv. apply Forall_cons in HF as [Hd HF].
  specialize (Hhd _ _ eq_refl). pose proof (of_digits_range ds HF).
  assert (0 < base ^ Z.of_nat (length ds)) by (apply Z.pow_pos_nonneg; lia).
  simpl. split; intros Hk.
  - assert (base ^ Z.of_nat (length ds) < base ^ Z.of_nat k) as Hlt by nia.
    apply Z.pow_lt_mono_r_iff in Hlt; lia.
  - assert (base ^ Z.of_nat (S (length ds)) ≤ base ^ Z.of_nat k) by (apply Z.pow_le_mono_r; lia).
    rewrite Nat2Z.inj_succ, Z.pow_succ_r in * by lia. nia.
Qed.

Lemma to_digits_nil n : 0 ≤ n → to_digits base n = [] ↔ n = 0.
Proof.
  intros Hn. destruct (to_digits_spec n Hn) as (Hv & _). split; [|by intros ->].
  intros E. rewrite E in Hv. by unfold of_digits in Hv.
Qed.
End Digits.

(** ** Keys and ordered maps

    [bytes.Compare] and [strings.Compare]: lexicographic order on bytes. *)
Fixpoint bytes_compare (a b : bytes) : comparison :=
  match a, b with
  | [], [] => Eq
  | [], _ :: _ => Lt
  | _ :: _, [] => Gt
  | x :: a, y :: b =>
      match x ?= y with Eq => bytes_compare a b | c => c end
  end.

Definition bytes_lt (a b : bytes) : bool :=
  match bytes_compare a b with Lt => true | _ => false end.

Lemma bytes_compare_eq a b : bytes_compare a b = Eq ↔ a = b.
Proof.
  revert b. induction a as [|x a IH]; intros [|y b]; simpl; try done.
  destruct (Z.compare_spec x y) as [->|H|H].
  - rewrite IH. split; [by intros ->|by intros [=]].
  - split; [done|intros [=]; lia].
  - split; [done|intros [=]; lia].
Qed.

Lemma bytes_compare_antisym a b : bytes_compare b a = CompOpp (bytes_compare a b).
Proof.
  revert b. induction a as [|x a IH]; intros [|y b]; simpl; try done.
  rewrite (Z.compare_antisym x y). destruct (x ?= y); simpl; auto.
Qed.

Lemma bytes_lt_trans a b c : bytes_lt a b = true → bytes_lt b c = true → bytes_lt a c = true.
Proof.
  unfold bytes_lt. revert b c. induction a as [|x a IH]; intros [|y b] [|z c]; simpl; try done.
  destruct (Z.compare_spec x y), (Z.compare_spec y z), (Z.compare_spec x z);
    try done; try lia. apply IH.
Qed.

Lemma bytes_lt_irrefl a : bytes_lt a a = false.
Proof. unfold bytes_lt. by rewrite (proj2 (bytes_compare_eq a a)). Qed.

Lemma bytes_lt_total a b : bytes_lt a b = true ∨ a = b ∨ bytes_lt b a = true.
Proof.
  unfold bytes_lt. rewrite (bytes_compare_antisym a b).
  destruct (bytes_compare a b) eqn:E; simpl; auto. right; left. by apply bytes_compare_eq.
Qed.

(** The key order of the tree maps of core/types. *)
Class KeyOrder (K : Type) := key_lt : K → K → bool.
#[export] Instance bytes_order : KeyOrder (list Z) := bytes_lt.
#[export] Instance Z_order : KeyOrder Z := Z.ltb.

Definition entry_le {K V} `{KeyOrder K} (p q : K * V) : Prop := key_lt q.1 p.1 = false.
#[export] Instance entry_le_dec {K V} `{KeyOrder K} : RelDecision (@entry_le K V _).
Proof. intros p q. unfold entry_le. apply _. Defined.

(** [EachAll]: iteration in ascending key order. *)
Definition sorted_entries {K V} `{Countable K, KeyOrder K} (m : gmap K V) : list (K * V) :=
  merge_sort entry_le (map_to_list m).

Definition EachAll {K V S} `{Countable K, KeyOrder K}
    (f : K → V → S → S) (m : gmap K V) (s : S) : S :=
  foldl (λ s kv, f kv.1 kv.2 s) s (sorted_entries m).

Lemma sorted_entries_perm {K V} `{Countable K, KeyOrder K} (m : gmap K V) :
  sorted_entries m ≡ₚ map_to_list m.
Proof. apply merge_sort_Permutation. Qed.

Section EachAll.
Context {K V : Type} `{Countable K, KeyOrder K}.
Implicit Types m t : gmap K V.

Lemma sorted_entries_nodup m : NoDup (sorted_entries m).*1.
Proof. rewrite sorted_entries_perm. apply NoDup_fst_map_to_list. Qed.

Lemma elem_of_sorted_entries m k v : (k, v) ∈ sorted_entries m ↔ m !! k = Some v.
Proof. rewrite sorted_entries_perm. apply elem_of_map_to_list. Qed.

(** Putting every entry of [m] into [t]. *)
Lemma EachAll_put m t : EachAll (λ k v t, <[k := v]> t) m t = m ∪ t.
Proof.
  unfold EachAll. pose proof (sorted_entries_nodup m) as Hnd.
  assert (Hm : m = list_to_map (sorted_entries m)).
  { rewrite (list_to_map_proper (sorted_entries m) (map_to_list m)).
    - by rewrite list_to_map_to_list.
    - done.
    - apply sorted_entries_perm. }
  rewrite Hm at 2. revert t Hnd. generalize (sorted_entries m) as l. clear m Hm.
  induction l as [|[k v] l IH]; intros t Hnd; csimpl in *.
  { by rewrite map_empty_union. }
  apply NoDup_cons in Hnd as [Hk Hnd]. rewrite IH by done.
  assert (list_to_map l !! k = (None : option V)) by (by apply not_elem_of_list_to_map_1).
  apply map_eq. intros j. rewrite !lookup_union. destruct (decide (j = k)) as [->|Hne].
  - rewrite !lookup_insert_eq, H1. by destruct (t !! k).
  - by rewrite !lookup_insert_ne by done.
Qed.
End EachAll.

(** Deleting every key of [m] from [t]. *)
Lemma EachAll_delete {K V W} `{Countable K, KeyOrder K} (m : gmap K V) (t : gmap K W) k :
  EachAll (λ k _ t, delete k t) m t !! k = if m !! k then None else t !! k.
Proof.
  unfold EachAll.
  assert (Hin : is_Some (m !! k) ↔ k ∈ (sorted_entries m).*1).
  { rewrite list_elem_of_fmap. split.
    - intros [v Hv]. exists (k, v). split; [done|]. by apply elem_of_sorted_entries.
    - intros ([k' v] & -> & Hv). exists v. by apply elem_of_sorted_entries. }
  assert (G : ∀ l (t : gmap K W), foldl (λ s (kv : K * V), delete kv.1 s) t l !! k
                     = if decide (k ∈ l.*1) then None else t !! k).
  { clear. induction l as [|[j v] l IH]; intros t; csimpl; [done|].
    rewrite IH. destruct (decide (k ∈ l.*1)) as [Hl|Hl], (decide (k ∈ j :: l.*1)) as [Hk|Hk]; try done.
    - destruct Hk. by constructor.
    - apply elem_of_cons in Hk as [->|]; [apply lookup_delete_eq|done].
    - apply not_elem_of_cons in Hk as [? _]. by apply lookup_delete_ne. }
  rewrite G. destruct (decide _) as [Hk|Hk].
  - apply Hin in Hk as [v ->]. done.
  - destruct (m !! k) as [v|]; [|done]. exfalso. apply Hk, Hin. eauto.
Qed.
