(* ===== verification/Tokens.v ===== *)
(** * The codec as a sequence of values

    The encoding package (msgpack) is a parameter of the model.  Where the
    repository registers an encoder and a decoder of its own for a type, they
    are modelled as the values they hand to the codec and take from it. *)

From S2P Require Import Prelude.

(** The codec (msgpack through the encoding package) as a sequence of
    values; a reader that finds another kind of value returns an error. *)
Inductive ctoken :=
  | CtUint8 (n : Z)
  | CtUint16 (n : Z)
  | CtUint32 (n : Z)
  | CtUint64 (n : Z)
  | CtString (s : bytes)
  | CtArrayLen (n : nat)
  | CtBytes (bs : bytes)
  | CtBool (b : bool).

Class TokenCodec := {
  tk_bytes : list ctoken → bytes;
  tk_read : bytes → list ctoken;
}.

(** What the code relies on: values are read back in the order in which they
    were written. *)
Class TokenCodecLaws (C : TokenCodec) : Prop := tk_roundtrip : ∀ ts, tk_read (tk_bytes ts) = ts.

(** A value takes at least one byte. *)
Class TokenCodecSized (C : TokenCodec) : Prop := tk_bytes_cons : ∀ t ts, tk_bytes (t :: ts) ≠ [].

Definition read_error : error := ErrExternal 1.

(** Reads of one value. *)
Definition read_Uint8 (ts : list ctoken) : res (Z * list ctoken) :=
  match ts with CtUint8 n :: ts => Ok (n, ts) | _ => Err read_error end.
Definition read_Uint16 (ts : list ctoken) : res (Z * list ctoken) :=
  match ts with CtUint16 n :: ts => Ok (n, ts) | _ => Err read_error end.
Definition read_Uint64 (ts : list ctoken) : res (Z * list ctoken) :=
  match ts with CtUint64 n :: ts => Ok (n, ts) | _ => Err read_error end.
Definition read_String (ts : list ctoken) : res (bytes * list ctoken) :=
  match ts with CtString s :: ts => Ok (s, ts) | _ => Err read_error end.
Definition read_Uint32 (ts : list ctoken) : res (Z * list ctoken) :=
  match ts with CtUint32 n :: ts => Ok (n, ts) | _ => Err read_error end.
Definition read_ArrayLen (ts : list ctoken) : res (nat * list ctoken) :=
  match ts with CtArrayLen n :: ts => Ok (n, ts) | _ => Err read_error end.
Definition read_Bytes (ts : list ctoken) : res (bytes * list ctoken) :=
  match ts with CtBytes bs :: ts => Ok (bs, ts) | _ => Err read_error end.
Definition read_Bool (ts : list ctoken) : res (bool * list ctoken) :=
  match ts with CtBool b :: ts => Ok (b, ts) | _ => Err read_error end.

(** ** Structs

    [encoding.Marshal] and [encoding.Unmarshal] of a struct without a
    registered encoder (msgpack, by reflection) are parameters; the struct is
    passed by pointer, which can be [nil]. *)
Class Codec (T : Type) := {
  marshal : option T → res bytes;
  unmarshal : bytes → res (option T);
}.
Definition unmarshal_deref {T} `{Codec T} (bs : bytes) : res T := p ← unmarshal bs; of_option p.

(** What the code relies on: a struct is read back as it was written, and
    takes at least one byte. *)
Class CodecLaws (T : Type) `{Codec T} (ok : T → Prop) : Prop :=
  marshal_reads_back : ∀ x, ok x → ∃ bs, marshal (Some x) = Ok bs ∧ bs ≠ [] ∧ unmarshal bs = Ok (Some x).

(** ** A concrete codec: a tag, and the length of byte strings

    The witnesses that need a codec use this one. *)
Module ToyTokens.

Definition put_token (t : ctoken) : bytes :=
  match t with
  | CtUint32 n => [0; n]
  | CtArrayLen n => [1; Z.of_nat n]
  | CtBytes bs => 2 :: Z.of_nat (length bs) :: bs
  | CtBool b => [3; if b then 1 else 0]
  | CtUint8 n => [4; n]
  | CtUint16 n => [5; n]
  | CtUint64 n => [6; n]
  | CtString s => 7 :: Z.of_nat (length s) :: s
  end.
Fixpoint take_tokens (fuel : nat) (bs : bytes) : list ctoken :=
  match fuel, bs with
  | S fuel, 0 :: n :: bs => CtUint32 n :: take_tokens fuel bs
  | S fuel, 1 :: n :: bs => CtArrayLen (Z.to_nat n) :: take_tokens fuel bs
  | S fuel, 2 :: n :: bs => CtBytes (take (Z.to_nat n) bs) :: take_tokens fuel (drop (Z.to_nat n) bs)
  | S fuel, 3 :: n :: bs => CtBool (negb (n =? 0)) :: take_tokens fuel bs
  | S fuel, 4 :: n :: bs => CtUint8 n :: take_tokens fuel bs
  | S fuel, 5 :: n :: bs => CtUint16 n :: take_tokens fuel bs
  | S fuel, 6 :: n :: bs => CtUint64 n :: take_tokens fuel bs
  | S fuel, 7 :: n :: bs => CtString (take (Z.to_nat n) bs) :: take_tokens fuel (drop (Z.to_nat n) bs)
  | _, _ => []
  end.
Definition toy_tokens : TokenCodec := {|
  tk_bytes ts := ts ≫= put_token;
  tk_read bs := take_tokens (length bs) bs;
|}.

Lemma take_tokens_put ts fuel : (length (ts ≫= put_token) ≤ fuel)%nat → take_tokens fuel (ts ≫= put_token) = ts.
Proof.
  revert fuel. induction ts as [|t ts IH]; intros fuel Hf; [by destruct fuel|].
  rewrite bind_cons in *. rewrite length_app in Hf.
  destruct t as [n|n|n|n|bs|n|bs|b]; cbn [put_token app length] in *; (destruct fuel as [|fuel]; [lia|]);
    cbn [take_tokens]; rewrite ?Nat2Z.id, ?take_app_length, ?drop_app_length;
    try (destruct b); by rewrite IH by lia.
Qed.

Lemma toy_tokens_laws : TokenCodecLaws toy_tokens.
Proof. intros ts. by apply take_tokens_put. Qed.

Lemma toy_tokens_sized : TokenCodecSized toy_tokens.
Proof. intros t ts. by destruct t. Qed.

End ToyTokens.
