(* ===== verification/Amount.v ===== *)
(** * common/amount: fixed-point amounts of coins

    [Amount] wraps a [*big.Int] that counts the 10^-18 fractions of a coin;
    all its operations return a fresh value, so an amount is a [Z].  The file
    models the arithmetic, the byte form that the state stores
    ([Bytes]/[NewAmountFromBytes]) and the decimal form that the API prints
    and parses ([String]/[ParseAmount], with the loops of [formatFractional]
    and [padFractional] over their 18-byte scratch array). *)

From S2P Require Import Prelude.

Module Amount.

(** ** Definitions *)

Definition FractionalMax : Z := 1000000000000000000.
Definition FractionalCount : nat := 18.

Definition newAmount (value : Z) : Z := value.

Definition Add (am b : Z) : Z := am + b.
Definition Sub (am b : Z) : Z := am - b.
(** [big.Int.Div] is Euclidean division and panics on a zero divisor. *)
Definition Div (am b : Z) : res Z :=
  if b =? 0 then Panic else Ok (Z.sgn b * (am `div` Z.abs b)).
Definition DivC (am b : Z) : res Z := Div am b.
Definition Mul (am b : Z) : Z := am * b.
Definition MulC (am b : Z) : Z := am * b.
Definition IsZero (am : Z) : bool := am =? 0.
Definition Less (am b : Z) : bool := am <? b.
Definition Equal (am b : Z) : bool := am =? b.
Definition Clone (am : Z) : Z := am + 0.

(** The arguments are [uint64]s that the code converts with [int64(_)]. *)
Definition NewCoinAmount (i f : Z) : Z :=
  if i =? 0 then newAmount (i64 f)
  else if f =? 0 then MulC (newAmount (i64 i)) FractionalMax
  else Add (MulC (newAmount (i64 i)) FractionalMax) (newAmount (i64 f)).

Definition COIN : Z := NewCoinAmount 1 0.

(** [big.Int.Bytes]: the big-endian absolute value without leading zeros. *)
Definition Bytes (am : Z) : bytes := to_digits 256 (Z.abs am).
(** [big.Int.SetBytes]: a big-endian unsigned number. *)
Definition NewAmountFromBytes (bs : bytes) : Z := of_digits 256 bs.

Definition ch0 : byte := 48.
Definition ch9 : byte := 57.
Definition chDot : byte := 46.
Definition chMinus : byte := 45.
Definition chQuote : byte := 34.

(** [big.Int.String]. *)
Definition Int_String (n : Z) : bytes :=
  if n =? 0 then [ch0]
  else (if n <? 0 then [chMinus] else []) ++ ((λ d, ch0 + d) <$> to_digits 10 (Z.abs n)).

(** [strings.TrimRight(s, "0")]. *)
Definition TrimRight0 (l : bytes) : bytes := trim_right ch0 l.

(** [a[i] = x] on a fixed-size array: out of range it panics. *)
Definition set_at (a : bytes) (i : Z) (x : byte) : res bytes :=
  if (0 <=? i) && (i <? Z.of_nat (length a)) then Ok (<[Z.to_nat i := x]> a) else Panic.

Definition pads0 : bytes := replicate FractionalCount ch0.

(** One round of the loop of [formatFractional]: the scratch array, the end
    of the result and whether a nonzero digit was seen from the right. *)
Definition formatFractional_step (bs : bytes) (diff : Z)
    (st : bytes * Z * bool) (i : nat) : res (bytes * Z * bool) :=
  let '(pads, lastZero, hasNonZero) := st in
  b ← of_option (bs !! i);
  pads ← set_at pads (diff + Z.of_nat i) b;
  if hasNonZero then mret (pads, lastZero, hasNonZero)
  else
    c ← of_option (bs !! (length bs - i - 1)%nat);
    if negb (c =? ch0)
    then mret (pads, diff + Z.of_nat (length bs) - Z.of_nat i - 1 + 1, true)
    else mret (pads, lastZero, hasNonZero).

Definition formatFractional (s : bytes) : res bytes :=
  let diff := Z.of_nat FractionalCount - Z.of_nat (length s) in
  '(pads, lastZero, _) ←
    foldl (λ r i, st ← r; formatFractional_step s diff st i)
          (Ok (pads0, 0, false)) (seq 0 (length s));
  mret (take (Z.to_nat lastZero) pads).

Definition padFractional_step (bs : bytes)
    (st : bytes * nat * bool) (i : nat) : res (bytes * nat * bool) :=
  let '(pads, lastZero, hasNonZero) := st in
  b ← of_option (bs !! i);
  pads ← set_at pads (Z.of_nat i) b;
  if hasNonZero then mret (pads, lastZero, hasNonZero)
  else if negb (b =? ch0) then mret (pads, i, true)
  else mret (pads, lastZero, hasNonZero).

Definition padFractional (s : bytes) : res bytes :=
  '(pads, lastZero, _) ←
    foldl (λ r i, st ← r; padFractional_step s st i)
          (Ok (pads0, 0%nat, false)) (seq 0 (length s));
  mret (drop lastZero pads).

Definition String (am : Z) : res bytes :=
  if IsZero am then mret [ch0]
  else
    let s := Int_String am in
    if (length s <=? FractionalCount)%nat
    then f ← formatFractional s; mret ([ch0; chDot] ++ f)
    else
      let k := (length s - FractionalCount)%nat in
      let si := take k s in
      let sf := TrimRight0 (drop k s) in
      if (0 <? length sf)%nat then mret (si ++ [chDot] ++ sf) else mret si.

(** [strconv.ParseUint(s, 10, 64)]. *)
Definition is_digit (c : byte) : bool := (ch0 <=? c) && (c <=? ch9).
Definition ParseUint (s : bytes) : option Z :=
  if (length s =? 0)%nat then None
  else if forallb is_digit s then
    let v := of_digits 10 ((λ c, c - ch0) <$> s) in
    if v <? 2 ^ 64 then Some v else None
  else None.

(** [strings.SplitN(s, ".", 2)]. *)
Fixpoint splitDot (s : bytes) : bytes * option bytes :=
  match s with
  | [] => ([], None)
  | c :: s' =>
      if c =? chDot then ([], Some s')
      else let '(a, b) := splitDot s' in (c :: a, b)
  end.

Definition ParseAmount (s : bytes) : res Z :=
  match splitDot s with
  | (a, None) =>
      match ParseUint a with
      | None => Err ErrInvalidAmountFormat
      | Some pi => mret (NewCoinAmount pi 0)
      end
  | (a, Some b) =>
      match ParseUint a with
      | None => Err ErrInvalidAmountFormat
      | Some pi =>
          pb ← padFractional b;
          match ParseUint pb with
          | None => Err ErrInvalidAmountFormat
          | Some pf => mret (NewCoinAmount pi pf)
          end
      end
  end.

Definition MustParseAmount (s : bytes) : res Z :=
  match ParseAmount s with Ok v => Ok v | _ => Panic end.

Definition MarshalJSON (am : Z) : res bytes :=
  s ← String am; mret ([chQuote] ++ s ++ [chQuote]).

Definition UnmarshalJSON (bs : bytes) : res Z :=
  if (length bs <? 3)%nat then Err ErrInvalidAmountFormat
  else if negb (bool_decide (head bs = Some chQuote))
          || negb (bool_decide (last bs = Some chQuote))
  then Err ErrInvalidAmountFormat
  else ParseAmount (take (length bs - 2) (drop 1 bs)).

Example String_ex : String 10000001214540000000000 = Ok (str "10000.00121454").
Proof. vm_compute. reflexivity. Qed.
Example String_ex_small : String 120 = Ok (str "0.00000000000000012").
Proof. vm_compute. reflexivity. Qed.
Example ParseAmount_ex : ParseAmount (str "10000.00121454") = Ok 10000001214540000000000.
Proof. vm_compute. reflexivity. Qed.

(** ** The byte form *)

Lemma NewAmountFromBytes_Bytes am : NewAmountFromBytes (Bytes am) = Z.abs am.
Proof. apply (to_digits_spec 256); lia. Qed.

Lemma Bytes_nil am : Bytes am = [] ↔ am = 0.
Proof. unfold Bytes. rewrite to_digits_nil by lia. lia. Qed.

Lemma NewAmountFromBytes_nonneg bs : Forall is_byte bs → 0 ≤ NewAmountFromBytes bs.
Proof. intros H. apply (of_digits_range 256 ltac:(lia) bs). done. Qed.

(** ** The two scratch-array loops *)

Lemma insert_middle (l : bytes) (k : nat) (x y : byte) post :
  length l = k → <[k := x]> (l ++ y :: post) = l ++ x :: post.
Proof. intros <-. by rewrite insert_app_r_alt, Nat.sub_diag by lia. Qed.

Lemma set_at_middle (l : bytes) (i : Z) (x y : byte) post :
  i = Z.of_nat (length l) → set_at (l ++ y :: post) i x = Ok (l ++ x :: post).
Proof.
  intros ->. unfold set_at. rewrite length_app. simpl.
  rewrite (proj2 (Z.leb_le _ _)), (proj2 (Z.ltb_lt _ _)) by lia. simpl.
  by rewrite Nat2Z.id, insert_middle.
Qed.

Lemma replicate_S_eq {A} (x : A) n k : n = S k → replicate n x = x :: replicate k x.
Proof. by intros ->. Qed.

Section Loops.
Context (s : bytes) (Hlen : (length s ≤ FractionalCount)%nat).
Let diff := (FractionalCount - length s)%nat.

(** The scratch array after [k] rounds of each loop. *)
Definition format_pads (k : nat) : bytes :=
  (replicate diff ch0 ++ take k s) ++ replicate (length s - k) ch0.
Definition pad_pads (k : nat) : bytes := take k s ++ replicate (FractionalCount - k) ch0.

Lemma format_loop k :
  (k ≤ length s)%nat →
  foldl (λ r i, st ← r; formatFractional_step s (Z.of_nat FractionalCount - Z.of_nat (length s)) st i)
        (Ok (pads0, 0, false)) (seq 0 k)
  = Ok (format_pads k,
        (if (run ch0 (rev s) <? k)%nat then Z.of_nat (FractionalCount - run ch0 (rev s)) else 0),
        (run ch0 (rev s) <? k)%nat).
Proof.
  induction k as [|k IH]; intros Hk.
  { simpl. unfold format_pads, pads0, diff. rewrite take_0, app_nil_r, <- replicate_add.
    repeat f_equal. lia. }
  rewrite seq_S, foldl_app, IH by lia. cbn [foldl mbind res_bind].
  destruct (lookup_lt_is_Some_2 s k) as [b Hb]; [lia|].
  destruct (lookup_lt_is_Some_2 s (length s - k - 1)) as [c Hc]; [lia|].
  assert (Hr : rev s !! k = Some c).
  { rewrite rev_lookup, <- Hc by lia. f_equal. lia. }
  pose proof (run_le ch0 (rev s)) as Hz. rewrite length_rev in Hz.
  unfold formatFractional_step. cbn [Nat.add]. rewrite Hb. cbn [of_option mbind res_bind].
  unfold format_pads at 1. rewrite (replicate_S_eq ch0 (length s - k) (length s - S k)) by lia.
  rewrite set_at_middle by (rewrite length_app, length_replicate, length_take; unfold diff; lia).
  assert (Hp : (replicate diff ch0 ++ take k s) ++ b :: replicate (length s - S k) ch0
               = format_pads (S k)).
  { unfold format_pads. rewrite (take_S_r s k b Hb). by rewrite <- !app_assoc. }
  rewrite Hp. cbn [mbind res_bind].
  destruct (Nat.ltb_spec (run ch0 (rev s)) k) as [Hlt|Hge].
  { by rewrite (proj2 (Nat.ltb_lt _ _)) by lia. }
  rewrite Hc. cbn [of_option mbind res_bind].
  pose proof (run_lookup ch0 (rev s) k c Hge Hr) as Hiff.
  destruct (Z.eqb_spec c ch0) as [E|E]; simpl.
  - apply Hiff in E. by rewrite (proj2 (Nat.ltb_ge _ _)) by lia.
  - assert (run ch0 (rev s) = k) as -> by (destruct (decide (k < run ch0 (rev s))%nat); [tauto|lia]).
    rewrite (proj2 (Nat.ltb_lt _ _)) by lia. repeat f_equal. lia.
Qed.

Lemma pad_loop k :
  (k ≤ length s)%nat → (k ≤ FractionalCount)%nat →
  foldl (λ r i, st ← r; padFractional_step s st i)
        (Ok (pads0, 0%nat, false)) (seq 0 k)
  = Ok (pad_pads k, (if (run ch0 s <? k)%nat then run ch0 s else 0%nat), (run ch0 s <? k)%nat).
Proof using s.
  clear Hlen diff.
  induction k as [|k IH]; intros Hk Hk'; [done|].
  rewrite seq_S, foldl_app, IH by lia. cbn [foldl mbind res_bind].
  destruct (lookup_lt_is_Some_2 s k) as [b Hb]; [lia|].
  unfold padFractional_step. cbn [Nat.add]. rewrite Hb. cbn [of_option mbind res_bind].
  unfold pad_pads at 1.
  rewrite (replicate_S_eq ch0 (FractionalCount - k) (FractionalCount - S k)) by lia.
  rewrite set_at_middle by (rewrite length_take; lia).
  assert (Hp : take k s ++ b :: replicate (FractionalCount - S k) ch0 = pad_pads (S k)).
  { unfold pad_pads. rewrite (take_S_r s k b Hb). by rewrite <- app_assoc. }
  rewrite Hp. cbn [mbind res_bind].
  destruct (Nat.ltb_spec (run ch0 s) k) as [Hlt|Hge].
  { by rewrite (proj2 (Nat.ltb_lt _ _)) by lia. }
  pose proof (run_lookup ch0 s k b Hge Hb) as Hiff.
  destruct (Z.eqb_spec b ch0) as [E|E]; simpl.
  - apply Hiff in E. by rewrite (proj2 (Nat.ltb_ge _ _)) by lia.
  - assert (run ch0 s = k) as -> by (destruct (decide (k < run ch0 s)%nat); [tauto|lia]).
    by rewrite (proj2 (Nat.ltb_lt _ _)) by lia.
Qed.

(** [formatFractional] pads on the left to 18 digits and drops the zeros
    at the end. *)
Lemma formatFractional_spec :
  formatFractional s = Ok (TrimRight0 (replicate diff ch0 ++ s)).
Proof.
  unfold formatFractional. rewrite format_loop by done. cbn [mbind res_bind].
  unfold TrimRight0. rewrite trim_right_take. unfold format_pads.
  rewrite (take_ge s), Nat.sub_diag, app_nil_r by lia. simpl. unfold mret, res_ret. f_equal. f_equal.
  rewrite length_app, length_replicate, rev_app_distr.
  pose proof (run_le ch0 (rev s)) as Hz. rewrite length_rev in Hz. unfold diff.
  rewrite run_app, length_rev, rev_replicate, run_replicate.
  destruct (Nat.ltb_spec (run ch0 (rev s)) (length s)); lia.
Qed.

(** [padFractional] pads on the right to 18 digits and drops the zeros that
    [s] itself starts with. *)
Lemma padFractional_spec :
  padFractional s
  = Ok (drop (if (run ch0 s <? length s)%nat then run ch0 s else 0%nat)
          (s ++ replicate diff ch0)).
Proof.
  unfold padFractional. rewrite pad_loop by (done || lia). cbn [mbind res_bind].
  unfold pad_pads. by rewrite (take_ge s) by lia.
Qed.
End Loops.

(** Longer fractions run off the scratch array. *)
Lemma padFractional_panics s : (FractionalCount < length s)%nat → padFractional s = Panic.
Proof.
  intros H. unfold padFractional.
  replace (length s) with (FractionalCount + S (length s - S FractionalCount))%nat by lia.
  rewrite seq_app, foldl_app, pad_loop by lia. cbn [seq foldl mbind res_bind].
  assert (Hrest : ∀ l, foldl (λ r i, st ← r; padFractional_step s st i) Panic l = Panic)
    by (intros l; induction l; auto).
  destruct (lookup_lt_is_Some_2 s FractionalCount) as [b Hb]; [lia|].
  unfold padFractional_step at 2. rewrite Nat.add_0_l, Hb. cbn [of_option mbind res_bind].
  unfold set_at. unfold pad_pads. rewrite Nat.sub_diag, app_nil_r, length_take_le by lia.
  rewrite Z.ltb_irrefl, andb_false_r. cbn [mbind res_bind]. by rewrite Hrest.
Qed.

(** ** The decimal form *)

Definition dchars (ds : list Z) : bytes := (λ d, ch0 + d) <$> ds.
Abbreviation is_dec ds := (Forall (λ d, 0 ≤ d < 10) ds).

Lemma dchars_replicate n : dchars (replicate n 0) = replicate n ch0.
Proof. unfold dchars. by rewrite fmap_replicate. Qed.

Lemma ParseUint_dchars ds :
  ds ≠ [] → is_dec ds → of_digits 10 ds < 2 ^ 64 →
  ParseUint (dchars ds) = Some (of_digits 10 ds).
Proof.
  intros Hne Hds Hlt. unfold ParseUint, dchars.
  rewrite length_fmap. destruct (Nat.eqb_spec (length ds) 0) as [E|_].
  { by apply nil_length_inv in E. }
  assert (forallb is_digit ((λ d, ch0 + d) <$> ds) = true) as ->.
  { apply Is_true_true, forallb_True, Forall_fmap. eapply Forall_impl; [exact Hds|].
    intros d Hd. simpl in *. unfold is_digit, ch0, ch9. apply andb_True.
    rewrite !Is_true_true, !Z.leb_le. lia. }
  rewrite <- list_fmap_compose. replace ((λ c, c - ch0) ∘ (λ d, ch0 + d) <$> ds) with ds.
  - by rewrite (proj2 (Z.ltb_lt _ _)).
  - rewrite <- (list_fmap_id ds) at 1. apply list_fmap_ext. intros; simpl; lia.
Qed.

Lemma splitDot_none a : chDot ∉ a → splitDot a = (a, None).
Proof.
  induction a as [|c a IH]; intros H; [done|]. apply not_elem_of_cons in H as [Hc Ha].
  simpl. destruct (Z.eqb_spec c chDot); [congruence|]. by rewrite IH.
Qed.

Lemma splitDot_some a b : chDot ∉ a → splitDot (a ++ chDot :: b) = (a, Some b).
Proof.
  induction a as [|c a IH]; intros H; [done|]. apply not_elem_of_cons in H as [Hc Ha].
  simpl. destruct (Z.eqb_spec c chDot); [congruence|]. by rewrite IH.
Qed.

Lemma dot_not_in_dchars ds : is_dec ds → chDot ∉ dchars ds.
Proof.
  intros H Hin. apply list_elem_of_fmap in Hin as (d & E & Hd).
  rewrite Forall_forall in H. specialize (H d Hd). unfold ch0, chDot in E. lia.
Qed.

#[local] Instance ch0_add_inj : Inj (=) (=) (λ d, ch0 + d).
Proof. intros x y. lia. Qed.

(** Dropping trailing zeros, then padding again, keeps the value of an
    18-digit fraction. *)
Lemma pad_of_trim full :
  length full = FractionalCount → is_dec full →
  ∃ ds, padFractional (TrimRight0 (dchars full)) = Ok (dchars ds)
        ∧ ds ≠ [] ∧ is_dec ds ∧ of_digits 10 ds = of_digits 10 full.
Proof.
  intros Hlen Hdec. set (f := TrimRight0 (dchars full)).
  pose proof (trim_right_app ch0 (dchars full)) as Hz. change (trim_right ch0 _) with f in Hz.
  pose proof (f_equal length Hz) as Hl. unfold dchars in Hl at 1.
  rewrite length_fmap, length_app, length_replicate, Hlen in Hl.
  assert (Hf : (length f ≤ FractionalCount)%nat) by lia.
  rewrite padFractional_spec by done.
  replace (FractionalCount - length f)%nat with (run ch0 (rev (dchars full))) by lia.
  rewrite <- Hz. set (n := if (run ch0 f <? length f)%nat then run ch0 f else 0%nat).
  assert (Hn : (n < FractionalCount)%nat ∧ (n ≤ run ch0 f)%nat).
  { unfold n. destruct (Nat.ltb_spec (run ch0 f) (length f)); [lia|].
    split; [unfold FractionalCount|]; lia. }
  exists (drop n full). split_and!.
  - unfold dchars. by rewrite fmap_drop.
  - intros E. apply (f_equal length) in E. rewrite length_drop in E. simpl in E. lia.
  - by apply Forall_drop.
  - rewrite <- (take_drop n full) at 2. rewrite of_digits_app by lia.
    enough (take n full = replicate n 0) as -> by (rewrite of_digits_replicate_0; lia).
    assert (Ht : take n (dchars full) = replicate n ch0).
    { rewrite Hz, take_app_le by (pose proof (run_le ch0 f); lia).
      replace (take n f) with (take n (take (run ch0 f) f)).
      - by rewrite run_take, take_replicate, Nat.min_l by lia.
      - by rewrite take_take, Nat.min_l by lia. }
    rewrite <- dchars_replicate in Ht. unfold dchars in Ht. rewrite <- fmap_take in Ht.
    by apply (inj (fmap (λ d, ch0 + d))) in Ht.
Qed.

Lemma pow_10_18 : 10 ^ Z.of_nat FractionalCount = FractionalMax.
Proof. done. Qed.

Lemma NewCoinAmount_small i f :
  0 ≤ i < 2 ^ 63 → 0 ≤ f < 2 ^ 63 → NewCoinAmount i f = i * FractionalMax + f.
Proof.
  intros Hi Hf. unfold NewCoinAmount, newAmount, MulC, Add.
  rewrite !i64_small by lia.
  destruct (Z.eqb_spec i 0) as [->|]; [lia|]. destruct (Z.eqb_spec f 0); lia.
Qed.

Lemma String_small am :
  0 < am < FractionalMax →
  ∃ full, length full = FractionalCount ∧ is_dec full ∧ of_digits 10 full = am
          ∧ String am = Ok ([ch0; chDot] ++ TrimRight0 (dchars full)).
Proof.
  intros H. destruct (to_digits_spec 10 ltac:(lia) am ltac:(lia)) as (Hv & HF & _).
  pose proof (proj1 (to_digits_length_le 10 ltac:(lia) am FractionalCount ltac:(lia))) as Hl.
  rewrite pow_10_18 in Hl. specialize (Hl ltac:(lia)).
  set (ds := to_digits 10 am) in *.
  assert (Hs : Int_String am = dchars ds).
  { unfold Int_String. destruct (Z.eqb_spec am 0), (Z.ltb_spec am 0); try lia.
    by rewrite Z.abs_eq by lia. }
  exists (replicate (FractionalCount - length ds) 0 ++ ds). split_and!.
  - rewrite length_app, length_replicate. lia.
  - apply Forall_app; split; [|done]. apply Forall_replicate. lia.
  - rewrite of_digits_app, of_digits_replicate_0 by lia. lia.
  - unfold String, IsZero. rewrite (proj2 (Z.eqb_neq _ _)), Hs by lia. unfold dchars at 1 2.
    rewrite length_fmap, (proj2 (Nat.leb_le _ _)) by lia.
    rewrite formatFractional_spec by (rewrite length_fmap; lia). cbn [mbind res_bind].
    unfold mret, res_ret. do 3 f_equal. unfold dchars.
    by rewrite length_fmap, fmap_app, fmap_replicate.
Qed.

Lemma String_large am :
  FractionalMax ≤ am →
  ∃ qs rs, length rs = FractionalCount ∧ is_dec qs ∧ is_dec rs ∧ qs ≠ []
    ∧ am = of_digits 10 qs * FractionalMax + of_digits 10 rs
    ∧ String am = Ok (if (0 <? length (TrimRight0 (dchars rs)))%nat
                      then dchars qs ++ [chDot] ++ TrimRight0 (dchars rs) else dchars qs).
Proof.
  intros H. destruct (to_digits_spec 10 ltac:(lia) am) as (Hv & HF & _); [unfold FractionalMax in H; lia|].
  assert (Ham : 0 < am) by (unfold FractionalMax in H; lia).
  pose proof (proj2 (to_digits_length_le 10 ltac:(lia) am FractionalCount ltac:(lia))) as Hl.
  rewrite pow_10_18 in Hl. set (ds := to_digits 10 am) in *.
  assert (Hlen : (FractionalCount < length ds)%nat) by lia.
  set (k := (length ds - FractionalCount)%nat).
  assert (Hs : Int_String am = dchars ds).
  { unfold Int_String. destruct (Z.eqb_spec am 0), (Z.ltb_spec am 0); try lia.
    by rewrite Z.abs_eq by lia. }
  exists (take k ds), (drop k ds). split_and!.
  - rewrite length_drop. lia.
  - by apply Forall_take.
  - by apply Forall_drop.
  - intros E. apply (f_equal length) in E. rewrite length_take in E. simpl in E. lia.
  - rewrite <- Hv at 1. rewrite <- (take_drop k ds) at 1. rewrite of_digits_app by lia.
    by rewrite length_drop, <- pow_10_18; replace (length ds - k)%nat with FractionalCount by lia.
  - unfold String, IsZero. rewrite (proj2 (Z.eqb_neq _ _)), Hs by lia.
    unfold dchars. cbv zeta. rewrite length_fmap, (proj2 (Nat.leb_gt _ _)) by lia.
    fold k. rewrite !fmap_take, !fmap_drop. by destruct (0 <? _)%nat.
Qed.

(** ** Properties *)

(** C36: printing an amount and parsing the text gives the amount back, for
    every amount that is not negative and of less than 2^63 coins. *)
Theorem ParseAmount_String (am : Z) (H : 0 ≤ am < 2 ^ 63 * FractionalMax) :
  (s ← String am; ParseAmount s) = Ok am.
Proof.
  destruct (decide (am = 0)) as [->|Hnz]; [done|].
  destruct (decide (am < FractionalMax)) as [Hlt|Hge].
  - destruct (String_small am) as (full & Hlen & Hdec & Hv & ->); [lia|].
    cbn [mbind res_bind]. unfold ParseAmount. simpl splitDot.
    destruct (pad_of_trim full Hlen Hdec) as (ds & -> & Hne & Hds & Hval).
    cbn -[ParseUint]. pose proof (of_digits_range 10 ltac:(lia) full Hdec) as Hr.
    rewrite Hlen, pow_10_18 in Hr. unfold FractionalMax in *.
    rewrite ParseUint_dchars by (done || lia). cbn -[NewCoinAmount].
    unfold mret, res_ret. f_equal. rewrite NewCoinAmount_small; lia.
  - destruct (String_large am) as (qs & rs & Hlen & Hq & Hr & Hne & Hv & ->); [lia|].
    cbn [mbind res_bind]. unfold ParseAmount.
    pose proof (of_digits_range 10 ltac:(lia) rs Hr) as Hrr.
    pose proof (of_digits_range 10 ltac:(lia) qs Hq) as Hqr.
    rewrite Hlen, pow_10_18 in Hrr.
    assert (Hqs : of_digits 10 qs < 2 ^ 63) by (unfold FractionalMax in *; nia).
    destruct (Nat.ltb_spec 0 (length (TrimRight0 (dchars rs)))) as [Hpos|Hzero].
    + simpl app. rewrite splitDot_some by (by apply dot_not_in_dchars).
      rewrite ParseUint_dchars by (done || lia).
      destruct (pad_of_trim rs Hlen Hr) as (ds & -> & Hne' & Hds & Hval).
      cbn -[ParseUint]. unfold FractionalMax in *.
      rewrite ParseUint_dchars by (done || lia). cbn -[NewCoinAmount].
      unfold mret, res_ret. f_equal. rewrite NewCoinAmount_small; unfold FractionalMax; lia.
    + rewrite splitDot_none by (by apply dot_not_in_dchars).
      rewrite ParseUint_dchars by (done || lia).
      unfold mret, res_ret. f_equal. rewrite NewCoinAmount_small by lia.
      enough (of_digits 10 rs = 0) by lia.
      pose proof (trim_right_app ch0 (dchars rs)) as Hz. change (trim_right ch0) with TrimRight0 in Hz.
      rewrite (nil_length_inv (TrimRight0 (dchars rs))) in Hz by lia. simpl in Hz.
      rewrite <- dchars_replicate in Hz. apply (inj (fmap (λ d, ch0 + d))) in Hz.
      rewrite Hz. apply of_digits_replicate_0; lia.
Qed.

Lemma ParseAmount_String_witness :
  (s ← String 10000001214540000000000; ParseAmount s) = Ok 10000001214540000000000.
Proof. apply ParseAmount_String. unfold FractionalMax. lia. Defined.

(** the byte form that the state stores reads back as the amount it was
    written from, never starts with a zero byte, and is empty only for zero. *)
Theorem Bytes_roundtrip (am : Z) (H : 0 ≤ am) :
  NewAmountFromBytes (Bytes am) = am
  ∧ Forall is_byte (Bytes am)
  ∧ head (Bytes am) ≠ Some 0
  ∧ (Bytes am = [] ↔ am = 0).
Proof.
  destruct (to_digits_spec 256 ltac:(lia) (Z.abs am) ltac:(lia)) as (Hv & HF & Hhd).
  split_and!.
  - rewrite NewAmountFromBytes_Bytes. lia.
  - exact HF.
  - intros E. apply head_Some in E as [l E]. by eapply Hhd.
  - apply Bytes_nil.
Qed.

Lemma Bytes_roundtrip_witness : NewAmountFromBytes (Bytes 1000000000000000000) = 1000000000000000000.
Proof. apply (Bytes_roundtrip 1000000000000000000). lia. Defined.

Lemma forallb_zeros n : forallb is_digit (replicate n ch0) = true.
Proof. induction n; auto. Qed.

Lemma forallb_drop_zeros n l :
  take n l = replicate n ch0 → forallb is_digit (drop n l) = forallb is_digit l.
Proof.
  intros E. rewrite <- (take_drop n l) at 2. by rewrite E, forallb_app, forallb_zeros.
Qed.

Lemma is_dec_chars s : forallb is_digit s = true → s = dchars ((λ c, c - ch0) <$> s)
  ∧ is_dec ((λ c, c - ch0) <$> s).
Proof.
  intros H. split.
  - unfold dchars. rewrite <- list_fmap_compose. rewrite <- (list_fmap_id s) at 1.
    apply list_fmap_ext. intros; simpl; lia.
  - apply Is_true_true, forallb_True in H. apply Forall_fmap.
    eapply Forall_impl; [exact H|]. intros c Hc. unfold is_digit in Hc. simpl.
    rewrite Is_true_true, andb_true_iff, !Z.leb_le in Hc. unfold ch0, ch9 in *. lia.
Qed.

(** The fraction parser on every input of at most 18 characters. *)
Lemma ParseUint_padFractional b :
  (length b ≤ FractionalCount)%nat →
  ∃ pb, padFractional b = Ok pb
    ∧ ParseUint pb = if forallb is_digit b
                     then Some (of_digits 10 ((λ c, c - ch0) <$> b)
                                * 10 ^ Z.of_nat (FractionalCount - length b))
                     else None.
Proof.
  intros Hb. rewrite padFractional_spec by done. eexists; split; [done|].
  set (n := if (run ch0 b <? length b)%nat then run ch0 b else 0%nat).
  set (l := b ++ replicate (FractionalCount - length b) ch0).
  assert (Hl : length l = FractionalCount) by (unfold l; rewrite length_app, length_replicate; lia).
  assert (Hn : (n ≤ run ch0 b)%nat ∧ (n < FractionalCount)%nat).
  { unfold n. destruct (Nat.ltb_spec (run ch0 b) (length b)); [lia|].
    split; [lia|]. unfold FractionalCount. lia. }
  assert (Ht : take n l = replicate n ch0).
  { unfold l. pose proof (run_le ch0 b). rewrite take_app_le by lia.
    replace (take n b) with (take n (take (run ch0 b) b)) by (by rewrite take_take, Nat.min_l by lia).
    by rewrite run_take, take_replicate, Nat.min_l by lia. }
  assert (Hd : forallb is_digit (drop n l) = forallb is_digit b).
  { rewrite forallb_drop_zeros by done. unfold l. rewrite forallb_app.
    by rewrite forallb_zeros, andb_true_r. }
  destruct (forallb is_digit b) eqn:Eb.
  - destruct (is_dec_chars _ Hd) as [E Hdec]. rewrite E.
    assert (Hv : of_digits 10 ((λ c, c - ch0) <$> drop n l)
            = of_digits 10 ((λ c, c - ch0) <$> b) * 10 ^ Z.of_nat (FractionalCount - length b)).
    { transitivity (of_digits 10 ((λ c, c - ch0) <$> l)).
      - rewrite <- (take_drop n l) at 2. rewrite fmap_app, of_digits_app, Ht, fmap_replicate by lia.
        rewrite of_digits_replicate_0 by lia. lia.
      - unfold l. rewrite fmap_app, of_digits_app, length_fmap, fmap_replicate by lia.
        rewrite length_replicate, of_digits_replicate_0 by lia. lia. }
    rewrite ParseUint_dchars; [by rewrite Hv| |done|].
    + intros E'. apply (f_equal length) in E'. rewrite length_fmap, length_drop in E'. simpl in E'. lia.
    + pose proof (of_digits_range 10 ltac:(lia) _ Hdec) as Hr.
      rewrite length_fmap, length_drop, Hl in Hr.
      apply Z.lt_trans with (10 ^ 19); [|lia]. eapply Z.lt_le_trans; [apply Hr|].
      apply Z.pow_le_mono_r; unfold FractionalCount; lia.
  - unfold ParseUint. rewrite Hd. by destruct (_ =? _)%nat.
Qed.

(** what [ParseAmount] does with any text that has a decimal point.  The
    value is exact when the fraction is at most 18 digits; a longer fraction
    makes [padFractional] write past its 18-byte array and panic; anything
    that is not a digit is [ErrInvalidAmountFormat]. *)
Theorem ParseAmount_fraction (a b : bytes) (Hdot : chDot ∉ a) :
  ParseAmount (a ++ [chDot] ++ b)
  = match ParseUint a with
    | None => Err ErrInvalidAmountFormat
    | Some pi =>
        if (FractionalCount <? length b)%nat then Panic
        else if forallb is_digit b
        then Ok (NewCoinAmount pi (of_digits 10 ((λ c, c - ch0) <$> b)
                                   * 10 ^ Z.of_nat (FractionalCount - length b)))
        else Err ErrInvalidAmountFormat
    end.
Proof.
  unfold ParseAmount. simpl app. rewrite splitDot_some by done.
  destruct (ParseUint a) as [pi|]; [|done].
  destruct (Nat.ltb_spec FractionalCount (length b)) as [Hgt|Hle].
  - by rewrite padFractional_panics.
  - destruct (ParseUint_padFractional b Hle) as (pb & -> & E). cbn [mbind res_bind].
    rewrite E. by destruct (forallb is_digit b).
Qed.

Lemma ParseAmount_fraction_witness :
  ParseAmount (str "1" ++ [chDot] ++ str "0000000000000000001") = Panic.
Proof.
  rewrite ParseAmount_fraction; [vm_compute; reflexivity|].
  apply (bool_decide_unpack _). vm_compute. exact I.
Defined.

(** [ParseUint] accepts 64 bits and [NewCoinAmount] keeps 63 of them: a whole
    part of 2^63 coins or more parses to a negative amount. *)
Lemma ParseAmount_wraps (s : bytes) (n : Z) :
  chDot ∉ s → ParseUint s = Some n → 2 ^ 63 ≤ n → ∃ v, ParseAmount s = Ok v ∧ v < 0.
Proof.
  intros Hs E Hn. assert (n < 2 ^ 64).
  { unfold ParseUint in E. repeat case_match; simplify_eq. by apply Z.ltb_lt. }
  unfold ParseAmount. rewrite splitDot_none, E by done.
  eexists. split; [done|]. unfold NewCoinAmount, newAmount, MulC, FractionalMax.
  rewrite (i64_high n) by lia. destruct (Z.eqb_spec n 0); [lia|].
  rewrite Z.eqb_refl. lia.
Qed.

Example ParseAmount_wraps_ex :
  ParseAmount (str "9223372036854775808") = Ok (- 9223372036854775808 * FractionalMax).
Proof. vm_compute. reflexivity. Qed.
End Amount.
