(* ===== verification/Common.v ===== *)
(** * common, common/hash, common/binutil and core/types/util: identifiers

    Addresses with their text form, the packed identifiers of transactions
    and outputs, time slots, account names, hashing of hash lists and the
    majority check on observer signatures.

    Base58, SHA-256 and public-key recovery are code outside the repository
    (or cryptography the theorems do not look into): they are parameters. *)

From S2P Require Import Prelude.

(** Go's [copy(dst, src)]. *)
Definition copy (dst src : bytes) : bytes := take (length dst) src ++ drop (length src) dst.

Lemma length_copy dst src : length (copy dst src) = length dst.
Proof. unfold copy. rewrite length_app, length_take, length_drop. lia. Qed.

Lemma copy_same_length dst src : length src = length dst → copy dst src = src.
Proof. intros E. unfold copy. by rewrite <- E, take_ge, E, drop_ge, app_nil_r by lia. Qed.

(** ** common/binutil *)

(** The decoders index the last byte they need first, so a short slice
    panics. *)
Definition LittleEndian_Uint16 (b : bytes) : res Z :=
  if (length b <? 2)%nat then Panic else Ok (le_val (take 2 b)).
Definition LittleEndian_Uint32 (b : bytes) : res Z :=
  if (length b <? 4)%nat then Panic else Ok (le_val (take 4 b)).
Definition LittleEndian_Uint64 (b : bytes) : res Z :=
  if (length b <? 8)%nat then Panic else Ok (le_val (take 8 b)).
Definition LittleEndian_Uint16ToBytes (v : Z) : bytes := le_bytes 2 v.
Definition LittleEndian_Uint32ToBytes (v : Z) : bytes := le_bytes 4 v.
Definition LittleEndian_Uint64ToBytes (v : Z) : bytes := le_bytes 8 v.
Definition BigEndian_Uint16 (b : bytes) : res Z :=
  if (length b <? 2)%nat then Panic else Ok (be_val (take 2 b)).
Definition BigEndian_Uint32 (b : bytes) : res Z :=
  if (length b <? 4)%nat then Panic else Ok (be_val (take 4 b)).
Definition BigEndian_Uint64 (b : bytes) : res Z :=
  if (length b <? 8)%nat then Panic else Ok (be_val (take 8 b)).
Definition BigEndian_Uint16ToBytes (v : Z) : bytes := be_bytes 2 v.
Definition BigEndian_Uint32ToBytes (v : Z) : bytes := be_bytes 4 v.
Definition BigEndian_Uint64ToBytes (v : Z) : bytes := be_bytes 8 v.

Lemma LittleEndian_Uint32_roundtrip v :
  is_u32 v → LittleEndian_Uint32 (LittleEndian_Uint32ToBytes v) = Ok v.
Proof.
  intros H. unfold LittleEndian_Uint32, LittleEndian_Uint32ToBytes.
  rewrite length_le_bytes. simpl (_ <? _)%nat. cbv iota.
  rewrite take_ge by (by rewrite length_le_bytes).
  by rewrite le_val_bytes, Z.mod_small.
Qed.

(** ** common/address.go *)

Definition AddressSize : nat := 14.
Abbreviation Address := (list Z) (only parsing).
Definition is_address (a : Address) : Prop := length a = AddressSize ∧ Forall is_byte a.
Definition emptyAddr : Address := replicate AddressSize 0.

#[export] Instance is_byte_dec b : Decision (is_byte b).
Proof. unfold is_byte. apply _. Defined.
#[export] Instance is_address_dec a : Decision (is_address a).
Proof. unfold is_address. apply _. Defined.

Definition NewAddress (height index magic : Z) : Address :=
  be_bytes 4 height ++ be_bytes 2 index ++ be_bytes 8 magic.
Definition Height (addr : Address) : Z := be_val (take 4 addr).
Definition Index (addr : Address) : Z := be_val (take 2 (drop 4 addr)).
Definition Nonce (addr : Address) : Z := be_val (take 8 (drop 6 addr)).
Definition Checksum (addr : Address) : byte := foldl Z.lxor 0 addr.

(** The code XORs the six symbol bytes in pairs with the two base bytes. *)
Fixpoint xor_pairs (b0 b1 : byte) (l : bytes) : bytes :=
  match l with
  | x :: y :: l => Z.lxor x b0 :: Z.lxor y b1 :: xor_pairs b0 b1 l
  | l => l
  end.

(** Index of the first zero byte. *)
Fixpoint until_zero (l : bytes) : bytes :=
  match l with
  | x :: l => if x =? 0 then [] else x :: until_zero l
  | [] => []
  end.

(** [strings.SplitN(s, "_", 2)]. *)
Definition chUnderscore : byte := 95.
Fixpoint splitUnderscore (s : bytes) : bytes * option bytes :=
  match s with
  | [] => ([], None)
  | c :: s' =>
      if c =? chUnderscore then ([], Some s')
      else let '(a, b) := splitUnderscore s' in (c :: a, b)
  end.

(** [bytes.TrimRight(l, string([]byte{0}))]. *)
Definition trim_zeros (l : bytes) : bytes := trim_right 0 l.

(** The base58 package (github.com/mr-tron/base58) as an interface. *)
Class Base58 := {
  base58_encode : bytes → bytes;
  base58_decode : bytes → option bytes;
}.

(** What the code relies on: decoding inverts encoding, and the alphabet has
    no underscore. *)
Class Base58Laws (B : Base58) := {
  base58_roundtrip : ∀ bs, Forall is_byte bs → base58_decode (base58_encode bs) = Some bs;
  base58_alphabet : ∀ bs, Forall is_byte bs → chUnderscore ∉ base58_encode bs;
}.

Section AddressText.
Context `{Base58}.

Definition Address_String (addr : Address) : bytes :=
  let checksum := Checksum addr in
  let result := trim_zeros addr in
  let bs := if (length result <? 7)%nat then copy (replicate 6 0) result
            else copy (replicate 14 0) result in
  let bs := checksum :: bs in
  let base0 := nth 6 addr 0 in
  let base1 := nth 7 addr 0 in
  if (base0 =? 0) && (base1 =? 0) then base58_encode bs
  else
    let tbs := xor_pairs base0 base1 (drop 8 addr) in
    until_zero tbs ++ [chUnderscore] ++ base58_encode (take 9 bs).

(** Any failure is one of the three errors of the function; callers only
    test for it, so it is [None] here. *)
Definition ParseAddress (s : bytes) : option Address :=
  let '(symbol, s) :=
    match splitUnderscore s with (a, Some b) => (a, b) | (a, None) => ([], a) end in
  match base58_decode s with
  | None => None
  | Some bs =>
      let has_symbol := (0 <? length symbol)%nat in
      if negb (length bs =? (if has_symbol then 9 else 7))%nat then None
      else
        let cs := nth 0 bs 0 in
        let addr := copy emptyAddr (drop 1 bs) in
        let addr :=
          if has_symbol then
            let base0 := nth 7 bs 0 in
            let base1 := nth 8 bs 0 in
            let tbs := if (base0 =? 0) && (base1 =? 0) then replicate 6 0
                       else copy (replicate 6 0) symbol in
            take 6 addr ++ [base0; base1] ++ xor_pairs base0 base1 tbs
          else addr in
        if cs =? Checksum addr then Some addr else None
  end.
End AddressText.

(** ** common/hash *)

Definition Hash256Size : nat := 32.
Abbreviation Hash256 := (list Z) (only parsing).

(** [crypto/sha256] is a parameter; the code copies its sum into an array of
    32 bytes. *)
Class HashFn := sha256 : bytes → bytes.

Section Hashes.
Context `{HashFn}.

Definition Hash (data : bytes) : Hash256 := copy (replicate Hash256Size 0) (sha256 data).
Definition DoubleHash (data : bytes) : Hash256 := Hash (Hash data).

(** One round of the loop of [Hashes]: [copy(data, h[:])] writes at the
    start of [data] in every round. *)
Definition Hashes_step (n : nat) (st : bytes * nat) (ih : nat * Hash256) : bytes * nat :=
  let '(data, idx) := st in
  let '(i, h) := ih in
  let data := copy data h in
  let idx := (idx + Hash256Size)%nat in
  if (i <? n - 1)%nat then (<[idx := 104]> data, (idx + 1)%nat) else (data, idx).

Definition Hashes_data (hs : list Hash256) : bytes :=
  let n := length hs in
  (foldl (Hashes_step n) (replicate ((Hash256Size + 1) * n - 1) 0, 0%nat)
     (zip (seq 0 n) hs)).1.

Definition Hashes (hs : list Hash256) : Hash256 := Hash (Hashes_data hs).
End Hashes.

(** ** core/types/util.go *)

Definition MarshalID (height index n : Z) : Z :=
  Z.lor (Z.lor (u64 (Z.shiftl height 32)) (u64 (Z.shiftl index 16))) n.
Definition UnmarshalID (id : Z) : Z * Z * Z :=
  (u32 (Z.shiftr id 32), u16 (Z.shiftr id 16), u16 id).

Definition hexdigit (d : Z) : byte := if d <? 10 then 48 + d else 87 + d.
Definition hexval (c : byte) : option Z :=
  if (48 <=? c) && (c <=? 57) then Some (c - 48)
  else if (97 <=? c) && (c <=? 102) then Some (c - 87)
  else if (65 <=? c) && (c <=? 70) then Some (c - 55)
  else None.

(** [encoding/hex]. *)
Definition hex_encode (bs : bytes) : bytes :=
  flat_map (λ b, [hexdigit (b `div` 16); hexdigit (b `mod` 16)]) bs.
Fixpoint hex_decode (s : bytes) : option bytes :=
  match s with
  | [] => Some []
  | [_] => None
  | c :: d :: s =>
      match hexval c, hexval d, hex_decode s with
      | Some x, Some y, Some bs => Some (16 * x + y :: bs)
      | _, _, _ => None
      end
  end.

Definition TransactionID (height index : Z) : bytes :=
  hex_encode (be_bytes 4 height ++ be_bytes 2 index).

Definition ParseTransactionID (TXID : bytes) : res (Z * Z) :=
  if negb (length TXID =? 12)%nat then Err ErrInvalidTransactionIDFormat
  else match hex_decode TXID with
       | None => Err (ErrExternal 0)
       | Some bs =>
           Height ← BigEndian_Uint32 bs;
           Index ← BigEndian_Uint16 (drop 4 bs);
           mret (Height, Index)
       end.

(** [5*time.Second] is 5 * 10^9 nanoseconds. *)
Definition ToTimeSlot (timestamp : Z) : Z := u32 (timestamp `div` 5000000000).

Definition allowed_name_char (c : byte) : bool :=
  ((48 <=? c) && (c <=? 57)) || ((97 <=? c) && (c <=? 122)) || ((65 <=? c) && (c <=? 90))
  || (c =? 46) || (c =? 45) || (c =? 95) || (c =? 64).

Definition IsAllowedAccountName `{Base58} (Name : bytes) : bool :=
  if (length Name <? 8)%nat || (40 <? length Name)%nat then false
  else if bool_decide (is_Some (ParseAddress Name)) then false
  else forallb allowed_name_char Name.

(** ** common/util_verify.go *)

(** [RecoverPubkey] followed by [NewPublicHash]: the signer of a hash. *)
Abbreviation PublicHash := (list Z) (only parsing).
Abbreviation Signature := (list Z) (only parsing).
Class Recover := recover_signer : Hash256 → Signature → option PublicHash.

Section Majority.
Context `{Recover}.

Fixpoint collect_signers (signedHash : Hash256) (KeyMap : gset PublicHash)
    (sigMap : gset PublicHash) (sigs : list Signature) : res (gset PublicHash) :=
  match sigs with
  | [] => Ok sigMap
  | sig :: sigs =>
      match recover_signer signedHash sig with
      | None => Err (ErrExternal 1)
      | Some pubhash =>
          if bool_decide (pubhash ∈ KeyMap)
          then collect_signers signedHash KeyMap ({[pubhash]} ∪ sigMap) sigs
          else Err ErrInvalidSignature
      end
  end.

Definition ValidateSignaturesMajority (signedHash : Hash256) (sigs : list Signature)
    (KeyMap : gset PublicHash) : res unit :=
  if negb (length sigs =? size KeyMap / 2 + 1)%nat then Err ErrInsufficientSignature
  else
    sigMap ← collect_signers signedHash KeyMap ∅ sigs;
    if negb (size sigMap =? length sigs)%nat then Err ErrDuplicatedSignature else mret tt.
End Majority.

(** ** Lemmas and properties *)

Lemma lor_low_bits a b k :
  0 ≤ k → 0 ≤ b < 2 ^ k → Z.lor (a * 2 ^ k) b = a * 2 ^ k + b.
Proof.
  intros Hk Hb. assert (Hl : Z.land (a * 2 ^ k) b = 0).
  { apply Z.bits_inj'. intros n Hn. rewrite Z.land_spec, Z.bits_0.
    destruct (decide (n < k)) as [Hlt|Hge].
    - by rewrite Z.mul_pow2_bits_low.
    - rewrite <- (Z.mod_small b (2 ^ k)) by lia.
      rewrite Z.mod_pow2_bits_high by lia. apply andb_false_r. }
  by rewrite Z.add_nocarry_lxor, Z.lxor_lor by done.
Qed.

Lemma MarshalID_arith height index n :
  is_u32 height → is_u16 index → is_u16 n →
  MarshalID height index n = height * 2 ^ 32 + index * 2 ^ 16 + n.
Proof.
  unfold is_u32, is_u16, MarshalID. intros Hh Hi Hn.
  rewrite !Z.shiftl_mul_pow2 by lia. rewrite !u64_small by (unfold is_u64; lia).
  rewrite (lor_low_bits height (index * 2 ^ 16) 32) by lia.
  replace (height * 2 ^ 32 + index * 2 ^ 16) with ((height * 2 ^ 16 + index) * 2 ^ 16) by lia.
  by rewrite lor_low_bits by lia.
Qed.

(** packing a transaction output position into 64 bits and unpacking it
    are mutually inverse on the machine ranges. *)
Theorem MarshalID_roundtrip (height index n id : Z)
    (Hh : is_u32 height) (Hi : is_u16 index) (Hn : is_u16 n) (Hid : is_u64 id) :
  UnmarshalID (MarshalID height index n) = (height, index, n)
  ∧ is_u64 (MarshalID height index n)
  ∧ (let '(h, i, k) := UnmarshalID id in MarshalID h i k) = id.
Proof.
  split_and!.
  - rewrite MarshalID_arith by done. unfold UnmarshalID, u32, u16, is_u32, is_u16 in *.
    rewrite !Z.shiftr_div_pow2 by lia. repeat f_equal; zdiv_lia.
  - rewrite MarshalID_arith by done. unfold is_u64, is_u32, is_u16 in *. lia.
  - unfold UnmarshalID. rewrite MarshalID_arith.
    + unfold u32, u16, is_u64 in *. rewrite !Z.shiftr_div_pow2 by lia. zdiv_lia.
    + apply u32_range.
    + unfold is_u16, u16. apply Z.mod_pos_bound. lia.
    + unfold is_u16, u16. apply Z.mod_pos_bound. lia.
Qed.

Lemma MarshalID_roundtrip_witness : UnmarshalID (MarshalID 7 3 1) = (7, 3, 1).
Proof. apply (MarshalID_roundtrip 7 3 1 0); unfold is_u32, is_u16, is_u64; lia. Defined.

Lemma hexval_hexdigit d : 0 ≤ d < 16 → hexval (hexdigit d) = Some d.
Proof.
  intros H. unfold hexdigit, hexval. destruct (Z.ltb_spec d 10).
  - rewrite (proj2 (Z.leb_le _ _)), (proj2 (Z.leb_le _ _)) by lia. simpl. f_equal. lia.
  - destruct (Z.leb_spec 48 (87 + d)), (Z.leb_spec (87 + d) 57); try lia. simpl.
    rewrite !(proj2 (Z.leb_le _ _)) by lia. simpl. f_equal. lia.
Qed.

Lemma hex_roundtrip bs : Forall is_byte bs → hex_decode (hex_encode bs) = Some bs.
Proof.
  unfold is_byte. induction 1 as [|b bs Hb _ IH]; [done|].
  change (hex_encode (b :: bs))
    with (hexdigit (b `div` 16) :: hexdigit (b `mod` 16) :: hex_encode bs).
  cbn [hex_decode]. rewrite !hexval_hexdigit by zdiv_lia. rewrite IH. do 2 f_equal. zdiv_lia.
Qed.

Lemma length_hex_encode bs : length (hex_encode bs) = (2 * length bs)%nat.
Proof. induction bs as [|b bs IH]; [done|]. simpl in *. lia. Qed.

Lemma be_bytes_range n z : Forall is_byte (be_bytes n z).
Proof. unfold be_bytes. rewrite rev_reverse. apply Forall_reverse, le_bytes_range. Qed.

(** the textual transaction id names one height and one index: parsing
    it gives both back. *)
Theorem TransactionID_roundtrip (height index : Z) (Hh : is_u32 height) (Hi : is_u16 index) :
  ParseTransactionID (TransactionID height index) = Ok (height, index).
Proof.
  unfold ParseTransactionID, TransactionID.
  rewrite length_hex_encode, length_app, !length_be_bytes. simpl (negb _). cbv iota.
  rewrite hex_roundtrip by (apply Forall_app; split; apply be_bytes_range).
  unfold BigEndian_Uint32, BigEndian_Uint16.
  rewrite drop_app_length' by (by rewrite length_be_bytes).
  rewrite length_app, !length_be_bytes. cbn -[be_bytes be_val take].
  rewrite take_app_length' by (by rewrite length_be_bytes).
  rewrite (take_ge (be_bytes 2 index)) by (by rewrite length_be_bytes).
  rewrite !be_val_bytes. unfold is_u32, is_u16 in *. unfold mret, res_ret.
  by rewrite !Z.mod_small by lia.
Qed.

Lemma TransactionID_roundtrip_witness : ParseTransactionID (TransactionID 258 7) = Ok (258, 7).
Proof. apply TransactionID_roundtrip; unfold is_u32, is_u16; lia. Defined.

(** ** Addresses *)

Lemma NewAddress_is_address h i m : is_address (NewAddress h i m).
Proof.
  unfold NewAddress. split.
  - by rewrite !length_app, !length_be_bytes.
  - rewrite !Forall_app. auto using be_bytes_range.
Qed.

Lemma Height_NewAddress h i m : is_u32 h → Height (NewAddress h i m) = h.
Proof.
  intros Hh. unfold Height, NewAddress.
  rewrite take_app_length' by (by rewrite length_be_bytes).
  rewrite be_val_bytes. by apply Z.mod_small.
Qed.

Lemma NewAddress_inj h1 i1 m1 h2 i2 m2 :
  is_u32 h1 → is_u16 i1 → is_u32 h2 → is_u16 i2 →
  NewAddress h1 i1 m1 = NewAddress h2 i2 m2 → h1 = h2 ∧ i1 = i2.
Proof.
  unfold NewAddress. intros Hh1 Hi1 Hh2 Hi2 E.
  apply app_inj_1 in E as [E1 E]; [|by rewrite !length_be_bytes].
  apply app_inj_1 in E as [E2 _]; [|by rewrite !length_be_bytes].
  split; [apply (be_bytes_inj 4)|apply (be_bytes_inj 2)]; done.
Qed.

Lemma copy_zeros_trim l n : length l = n → copy (replicate n 0) (trim_zeros l) = l.
Proof.
  intros <-. pose proof (trim_right_app 0 l) as E.
  change (trim_right 0 l) with (trim_zeros l) in E.
  pose proof (f_equal length E) as El. rewrite length_app, length_replicate in El.
  unfold copy. rewrite length_replicate, take_ge, drop_replicate by lia.
  etrans; [|symmetry; exact E]. f_equal. f_equal. lia.
Qed.

Lemma splitUnderscore_none a : chUnderscore ∉ a → splitUnderscore a = (a, None).
Proof.
  induction a as [|c a IH]; intros H; [done|]. apply not_elem_of_cons in H as [Hc Ha].
  simpl. destruct (Z.eqb_spec c chUnderscore); [congruence|]. by rewrite IH.
Qed.

Lemma splitUnderscore_some a b :
  chUnderscore ∉ a → splitUnderscore (a ++ chUnderscore :: b) = (a, Some b).
Proof.
  induction a as [|c a IH]; intros H; [done|]. apply not_elem_of_cons in H as [Hc Ha].
  simpl. destruct (Z.eqb_spec c chUnderscore); [congruence|]. by rewrite IH.
Qed.

Lemma lxor_cancel x b : Z.lxor (Z.lxor x b) b = x.
Proof. by rewrite Z.lxor_assoc, Z.lxor_nilpotent, Z.lxor_0_r. Qed.

Lemma xor_pairs_involutive b0 b1 l :
  length l = 6%nat → xor_pairs b0 b1 (xor_pairs b0 b1 l) = l.
Proof.
  intros H. do 7 (destruct l as [|? l]; try done). simpl. by rewrite !lxor_cancel.
Qed.

Lemma lxor_byte x y : is_byte x → is_byte y → is_byte (Z.lxor x y).
Proof.
  unfold is_byte. intros Hx Hy.
  enough (Z.lxor x y = Z.lxor x y `mod` 2 ^ 8) as -> by (apply Z.mod_pos_bound; lia).
  apply Z.bits_inj'. intros n Hn. destruct (decide (n < 8)).
  - by rewrite Z.mod_pow2_bits_low by lia.
  - rewrite Z.mod_pow2_bits_high, Z.lxor_spec by lia.
    rewrite <- (Z.mod_small x (2 ^ 8)), <- (Z.mod_small y (2 ^ 8)) by lia.
    by rewrite !Z.mod_pow2_bits_high by lia.
Qed.

Lemma Checksum_range l : Forall is_byte l → is_byte (Checksum l).
Proof.
  unfold Checksum. enough (G : ∀ l acc, Forall is_byte l → is_byte acc →
    is_byte (foldl Z.lxor acc l)) by (intros; apply G; [done|unfold is_byte; lia]).
  clear l. intros l. induction l as [|x l IH]; intros acc Hl Ha; [done|].
  apply Forall_cons in Hl as [Hx Hl]. simpl. apply IH; [done|].
  by apply lxor_byte.
Qed.

(** The symbol of an address: its last six bytes without the base mask. *)
Definition address_symbol (addr : Address) : bytes :=
  xor_pairs (nth 6 addr 0) (nth 7 addr 0) (drop 8 addr).

(** An address that has a text form: either its eight nonce bytes are zero
    (no symbol), or it has a base and a symbol without zero bytes inside and
    without the separator. *)
Definition printable_address (addr : Address) : Prop :=
  drop 6 addr = replicate 8 0
  ∨ ((nth 6 addr 0 ≠ 0 ∨ nth 7 addr 0 ≠ 0)
     ∧ until_zero (address_symbol addr) ≠ []
     ∧ chUnderscore ∉ until_zero (address_symbol addr)
     ∧ address_symbol addr = copy (replicate 6 0) (until_zero (address_symbol addr))).

Lemma nth_replicate_0 i n : nth i (replicate n 0) 0 = 0.
Proof. revert i. induction n as [|n IH]; intros [|i]; simpl; auto. Qed.

Section AddressTextLemmas.
Context `{B58 : Base58, !Base58Laws B58}.

Lemma Address_String_plain addr :
  is_address addr → drop 6 addr = replicate 8 0 →
  Address_String addr = base58_encode (Checksum addr :: take 6 addr).
Proof.
  intros [Hlen _] Hz. unfold Address_String.
  assert (Ea : addr = take 6 addr ++ replicate 8 0) by (by rewrite <- Hz, take_drop).
  assert (H6 : length (take 6 addr) = 6%nat) by (rewrite length_take, Hlen; unfold AddressSize; lia).
  assert (Ht : trim_zeros addr = trim_zeros (take 6 addr)).
  { rewrite Ea at 1. apply trim_right_replicate. }
  assert (Hl : (length (trim_zeros (take 6 addr)) ≤ 6)%nat).
  { pose proof (f_equal length (trim_right_app 0 (take 6 addr))) as E.
    rewrite length_app, H6 in E. unfold trim_zeros. lia. }
  rewrite Ht, (proj2 (Nat.ltb_lt _ 7)), copy_zeros_trim by (done || lia).
  rewrite Ea. rewrite !app_nth2 by lia. by rewrite H6.
Qed.

Lemma Address_String_symbol addr :
  is_address addr → nth 6 addr 0 ≠ 0 ∨ nth 7 addr 0 ≠ 0 →
  Address_String addr
  = until_zero (address_symbol addr) ++ [chUnderscore]
    ++ base58_encode (Checksum addr :: take 8 addr).
Proof.
  intros [Hlen _] Hb. unfold Address_String.
  assert (Hl : (7 ≤ length (trim_zeros addr))%nat).
  { destruct (decide (7 ≤ length (trim_zeros addr))%nat) as [|Hlt]; [done|exfalso].
    pose proof (trim_right_app 0 addr) as E.
    change (trim_right 0 addr) with (trim_zeros addr) in E. rewrite E in Hb.
    rewrite !app_nth2, !nth_replicate_0 in Hb by lia. by destruct Hb. }
  rewrite (proj2 (Nat.ltb_ge _ 7)), copy_zeros_trim by (done || lia).
  replace ((nth 6 addr 0 =? 0) && (nth 7 addr 0 =? 0)) with false; [done|].
  destruct (Z.eqb_spec (nth 6 addr 0) 0), (Z.eqb_spec (nth 7 addr 0) 0); simpl; tauto.
Qed.

(** an address prints to a text that parses back to the same address,
    for plain addresses and for those that carry a chain symbol. *)
Theorem ParseAddress_String (addr : Address)
    (Ha : is_address addr) (Hp : printable_address addr) :
  ParseAddress (Address_String addr) = Some addr.
Proof.
  destruct Ha as [Hlen Hby] eqn:HaE; clear HaE.
  assert (Hcs : is_byte (Checksum addr)) by (by apply Checksum_range).
  destruct Hp as [Hz|(Hb & Hne & Hu & Hsym)].
  - rewrite Address_String_plain by done. unfold ParseAddress.
    assert (Hbs : Forall is_byte (Checksum addr :: take 6 addr)) by (constructor; [done|by apply Forall_take]).
    rewrite splitUnderscore_none by (by apply base58_alphabet).
    rewrite base58_roundtrip by done.
    do 15 (destruct addr as [|? addr]; try done).
    simpl in Hz |- *. simplify_eq. by rewrite Z.eqb_refl.
  - rewrite Address_String_symbol by done. unfold ParseAddress. simpl app.
    rewrite splitUnderscore_some by done.
    rewrite base58_roundtrip by (constructor; [done|by apply Forall_take]).
    set (symb := until_zero (address_symbol addr)) in *.
    assert (Hpos : (0 <? length symb)%nat = true).
    { apply Nat.ltb_lt. destruct symb; [done|simpl; lia]. }
    rewrite Hpos. cbv beta iota zeta. simpl replicate in Hsym. rewrite <- Hsym. unfold address_symbol. clear Hsym symb Hne Hu Hpos.
    do 15 (destruct addr as [|? addr]; try done).
    simpl in Hb |- *.
    destruct (Z.eqb_spec z5 0), (Z.eqb_spec z6 0); simpl; try tauto.
    all: by rewrite !lxor_cancel, Z.eqb_refl.
Qed.
End AddressTextLemmas.

(** A concrete codec that satisfies the laws, for witnesses: two characters
    per byte. *)
Definition toy_base58 : Base58 := {| base58_encode := hex_encode; base58_decode := hex_decode |}.

Lemma hexdigit_range d : 0 ≤ d < 16 → hexdigit d ≠ chUnderscore.
Proof. intros H. unfold hexdigit, chUnderscore. destruct (Z.ltb_spec d 10); lia. Qed.

#[export] Instance toy_base58_laws : Base58Laws toy_base58.
Proof.
  split; [apply hex_roundtrip|]. intros bs Hbs. simpl.
  unfold hex_encode. rewrite list_elem_of_In, in_flat_map. intros (b & Hb & Hin).
  rewrite Forall_forall in Hbs. specialize (Hbs b (proj2 (list_elem_of_In _ _) Hb)).
  unfold is_byte in Hbs. simpl in Hin.
  destruct Hin as [E|[E|[]]]; revert E; apply hexdigit_range; zdiv_lia.
Qed.

Lemma ParseAddress_String_witness :
  let addr := NewAddress 5 1 (be_val ([3; 4] ++ xor_pairs 3 4 (str "FLETA" ++ [0]))) in
  @ParseAddress toy_base58 (@Address_String toy_base58 addr) = Some addr.
Proof.
  cbv zeta. refine (@ParseAddress_String toy_base58 toy_base58_laws _ _ _).
  - apply NewAddress_is_address.
  - right. split_and!; [left| | |].
    + vm_compute. discriminate.
    + vm_compute. discriminate.
    + apply (bool_decide_unpack _). vm_compute. exact I.
    + vm_compute. reflexivity.
Defined.

(** ** Hashing lists of hashes *)

Lemma drop_copy data h : drop (length h) (copy data h) = drop (length h) data.
Proof.
  unfold copy. rewrite drop_app. rewrite (drop_ge (take _ _)) by (rewrite length_take; lia).
  simpl. rewrite drop_drop, length_take.
  destruct (decide (length h ≤ length data)%nat).
  - f_equal. lia.
  - by rewrite !drop_ge by lia.
Qed.

Lemma drop_insert_far (data : bytes) k i x :
  (k ≤ i)%nat → drop k (<[i := x]> data) = <[(i - k)%nat := x]> (drop k data).
Proof.
  intros Hi. apply list_eq. intros j. rewrite lookup_drop.
  destruct (decide (i < length data)%nat) as [Hlt|Hge].
  - destruct (decide (j = i - k)%nat) as [->|Hne].
    + rewrite list_lookup_insert_eq by (rewrite length_drop; lia).
      replace (k + (i - k))%nat with i by lia. by rewrite list_lookup_insert_eq.
    + rewrite !list_lookup_insert_ne by lia. by rewrite lookup_drop.
  - rewrite !list_insert_ge by (rewrite ?length_drop; lia). by rewrite lookup_drop.
Qed.

(** Two buffers that agree after the first hash stay so: every round writes
    its hash at the start. *)
Definition same_tail (d1 d2 : bytes) : Prop :=
  length d1 = length d2 ∧ drop Hash256Size d1 = drop Hash256Size d2.

Lemma Hashes_step_same_tail n d1 d2 idx i h1 h2 :
  length h1 = Hash256Size → length h2 = Hash256Size → same_tail d1 d2 →
  (Hashes_step n (d1, idx) (i, h1)).2 = (Hashes_step n (d2, idx) (i, h2)).2
  ∧ same_tail (Hashes_step n (d1, idx) (i, h1)).1 (Hashes_step n (d2, idx) (i, h2)).1.
Proof.
  intros H1 H2 [Hl Hd]. pose proof (drop_copy d1 h1) as D1. pose proof (drop_copy d2 h2) as D2.
  rewrite H1 in D1. rewrite H2 in D2. unfold Hashes_step, same_tail.
  destruct (i <? n - 1)%nat; cbn [fst snd]; (split; [done|]);
    rewrite ?length_insert, !length_copy; (split; [done|]).
  - rewrite !drop_insert_far by lia. by rewrite D1, D2, Hd.
  - by rewrite D1, D2.
Qed.

Lemma Hashes_foldl_same_tail n l1 l2 d1 d2 idx :
  Forall2 (λ p q : nat * Hash256, p.1 = q.1 ∧ length p.2 = Hash256Size ∧ length q.2 = Hash256Size) l1 l2 →
  same_tail d1 d2 →
  (foldl (Hashes_step n) (d1, idx) l1).2 = (foldl (Hashes_step n) (d2, idx) l2).2
  ∧ same_tail (foldl (Hashes_step n) (d1, idx) l1).1 (foldl (Hashes_step n) (d2, idx) l2).1.
Proof.
  intros H. revert d1 d2 idx.
  induction H as [|[i h1] [j h2] l1 l2 (Ei & H1 & H2) _ IH]; intros d1 d2 idx Hs; [done|].
  simpl in Ei, H1, H2. subst j.
  cbn [foldl]. destruct (Hashes_step_same_tail n d1 d2 idx i h1 h2 H1 H2 Hs) as [E S].
  destruct (Hashes_step n (d1, idx) (i, h1)) as [d1' i1], (Hashes_step n (d2, idx) (i, h2)) as [d2' i2].
  simpl in E, S. subst i2. by apply IH.
Qed.

Lemma copy_same_tail d1 d2 h : length h = Hash256Size → same_tail d1 d2 → copy d1 h = copy d2 h.
Proof. intros Hh [Hl Hd]. unfold copy. by rewrite Hh, Hd, Hl. Qed.

Lemma zip_snoc {A B} (l : list A) (k : list B) a b :
  length l = length k → zip (l ++ [a]) (k ++ [b]) = zip l k ++ [(a, b)].
Proof. intros E. by rewrite zip_with_app. Qed.

Section HashesProps.
Context `{HashFn}.

(** [Hashes] is meant to hash the concatenation of its arguments, but
    its [copy(data, h[:])] never advances: the result depends only on the
    number of arguments and on the last one.  The genesis hash, built as
    [Hashes(Hash(name), Hash(chain id), context hash)], thus does not bind
    the name or the id of the chain. *)
Theorem Hashes_last_only (hs hs' : list Hash256) (h : Hash256)
    (Hs : Forall (λ x, length x = Hash256Size) hs)
    (Hs' : Forall (λ x, length x = Hash256Size) hs')
    (Hh : length h = Hash256Size) (Hlen : length hs = length hs') :
  Hashes (hs ++ [h]) = Hashes (hs' ++ [h]).
Proof.
  unfold Hashes, Hashes_data. f_equal. rewrite !length_app, <- Hlen. cbn [length].
  rewrite Nat.add_1_r, seq_S. rewrite !zip_snoc by (rewrite length_seq; lia).
  rewrite !foldl_app. set (n := S (length hs)). set (d := replicate _ 0).
  destruct (Hashes_foldl_same_tail n (zip (seq 0 (length hs)) hs) (zip (seq 0 (length hs)) hs') d d 0)
    as [E S]; [|done|].
  { apply Forall2_same_length_lookup_2; [rewrite !length_zip_with; lia|].
    intros i [a x] [b y] Hx Hy. apply lookup_zip_with_Some in Hx as (? & ? & ? & Ha & Hx).
    apply lookup_zip_with_Some in Hy as (? & ? & ? & Hb & Hy). simplify_eq/=.
    rewrite Forall_lookup in Hs, Hs'. eauto. }
  destruct (foldl _ (d, _) (zip _ hs)) as [d1 i1], (foldl _ (d, _) (zip _ hs')) as [d2 i2].
  simpl in E, S. subst i2. cbn [foldl]. unfold Hashes_step.
  rewrite (copy_same_tail d1 d2 h) by done. by destruct (_ <? _)%nat.
Qed.
End HashesProps.

Lemma Hashes_last_only_witness :
  let z := replicate 32 0 in let o := replicate 32 1 in
  @Hashes (λ d, d) [z; o] = @Hashes (λ d, d) [o; o].
Proof. cbv zeta. by apply (@Hashes_last_only (λ d, d) [replicate 32 0] [replicate 32 1]); repeat constructor. Defined.

(** ** Majority of observer signatures *)

Section MajorityProps.
Context `{Recover}.

Definition signed_by (h : Hash256) (sigs : list Signature) (p : PublicHash) : Prop :=
  ∃ sig, sig ∈ sigs ∧ recover_signer h sig = Some p.

Lemma collect_signers_spec h K acc sigs S :
  collect_signers h K acc sigs = Ok S → acc ⊆ K →
  S ⊆ K ∧ ∀ p, p ∈ S ↔ p ∈ acc ∨ signed_by h sigs p.
Proof.
  revert acc. induction sigs as [|sig sigs IH]; intros acc E Hacc; simpl in E.
  { simplify_eq. split; [done|]. intros p. split; [by left|].
    intros [|(sig & Hin & _)]; [done|]. by apply elem_of_nil in Hin. }
  destruct (recover_signer h sig) as [q|] eqn:Eq; [|done].
  case_bool_decide as Hq; [|done].
  destruct (IH _ E) as [HS Hp]; [set_solver|]. split; [done|].
  intros p. rewrite Hp. unfold signed_by. setoid_rewrite elem_of_cons. split.
  - intros [[->%elem_of_singleton|]%elem_of_union|(s & ? & ?)]; eauto 6.
  - intros [|(s & [->|] & ?)]; [set_solver| |eauto]. simplify_eq. set_solver.
Qed.

Lemma majority_signers h sigs K :
  ValidateSignaturesMajority h sigs K = Ok tt →
  ∃ S, S ⊆ K ∧ size S = (size K / 2 + 1)%nat ∧ ∀ p, p ∈ S ↔ signed_by h sigs p.
Proof.
  unfold ValidateSignaturesMajority. case_match eqn:El; [done|].
  apply negb_false_iff, Nat.eqb_eq in El.
  destruct (collect_signers h K ∅ sigs) as [S|e|] eqn:E; [|done|done]. cbn [mbind res_bind].
  case_match eqn:Es; [done|]. apply negb_false_iff, Nat.eqb_eq in Es. intros _.
  destruct (collect_signers_spec h K ∅ sigs S E) as [HS Hp]; [set_solver|].
  exists S. split_and!; [done|lia|]. intros p. rewrite Hp. set_solver.
Qed.

Lemma majorities_meet (K S1 S2 : gset PublicHash) :
  S1 ⊆ K → S2 ⊆ K → size S1 = (size K / 2 + 1)%nat → size S2 = (size K / 2 + 1)%nat →
  ∃ p, p ∈ S1 ∧ p ∈ S2.
Proof.
  intros H1 H2 E1 E2. destruct (decide (S1 ∩ S2 = ∅)) as [Hd|Hn].
  - assert (size (S1 ∪ S2) = size S1 + size S2)%nat by (apply size_union; set_solver).
    assert (size (S1 ∪ S2) ≤ size K)%nat by (apply subseteq_size; set_solver).
    pose proof (Nat.div_mod (size K) 2 ltac:(lia)).
    pose proof (Nat.mod_upper_bound (size K) 2 ltac:(lia)). lia.
  - apply set_choose_L in Hn as [p Hp]. exists p. set_solver.
Qed.

(** a signature list accepted for a hash contains signatures of
    exactly [n/2 + 1] distinct observers, and two accepted lists, for
    whatever two hashes, share an observer who signed both: two conflicting
    blocks need a double-signing observer. *)
Theorem majority_quorum (h1 h2 : Hash256) (sigs1 sigs2 : list Signature) (K : gset PublicHash)
    (A1 : ValidateSignaturesMajority h1 sigs1 K = Ok tt)
    (A2 : ValidateSignaturesMajority h2 sigs2 K = Ok tt) :
  ∃ S1 S2 : gset PublicHash,
    S1 ⊆ K ∧ size S1 = (size K / 2 + 1)%nat ∧ (∀ p, p ∈ S1 ↔ signed_by h1 sigs1 p)
    ∧ S2 ⊆ K ∧ size S2 = (size K / 2 + 1)%nat ∧ (∀ p, p ∈ S2 ↔ signed_by h2 sigs2 p)
    ∧ ∃ p, p ∈ K ∧ signed_by h1 sigs1 p ∧ signed_by h2 sigs2 p.
Proof.
  destruct (majority_signers _ _ _ A1) as (S1 & HS1 & E1 & Hp1).
  destruct (majority_signers _ _ _ A2) as (S2 & HS2 & E2 & Hp2).
  exists S1, S2. split_and!; try done.
  destruct (majorities_meet K S1 S2 HS1 HS2 E1 E2) as (p & Hi1 & Hi2).
  exists p. split_and!; [set_solver|by apply Hp1|by apply Hp2].
Qed.
End MajorityProps.

(** A recovery function for witnesses: a signature is its signer. *)
Definition toy_recover : Recover := λ _ sig, Some sig.

Lemma majority_quorum_witness :
  ∃ p, p ∈ ({[ [1]; [2]; [3] ]} : gset PublicHash)
    ∧ @signed_by toy_recover [0] [[1]; [2]] p ∧ @signed_by toy_recover [9] [[2]; [3]] p.
Proof.
  destruct (@majority_quorum toy_recover [0] [9] [[1]; [2]] [[2]; [3]] {[ [1]; [2]; [3] ]})
    as (S1 & S2 & _ & _ & _ & _ & _ & _ & p & H).
  - vm_compute. reflexivity.
  - vm_compute. reflexivity.
  - exists p. exact H.
Defined.
