(* ===== verification/Context.v ===== *)
(** * core/types: the in-memory state of a block

    A [Context] is a stack of [ContextData] layers over a loader (the chain
    store, or the context of the previous block), with a read cache in
    between.  A read searches the layers from the top; the top layer keeps a
    copy of what it found below.  [Snapshot] pushes a layer, [Revert] drops
    layers, [Commit] merges them into the layer below.

    The stack is a list with the top layer first, so the [Parent] of a layer
    is the rest of the list; the Go slice has the top last.  Two maps that a
    data lookup consults together, the values and the deletion marks, are one
    [Overlay].  The five read-through functions of context_data.go share one
    shape and are instances of [read_through]. *)

From S2P Require Import Prelude Common.

(** ** Interfaces of accounts and events *)

Class AccountI (A : Type) := {
  acc_Address : A → Address;
  acc_Name : A → bytes;
  acc_Validate : A → list PublicHash → res unit;
  acc_Clone : A → A;
  acc_Clone_id : ∀ a, acc_Clone a = a;
}.

Class EventI (E : Type) := {
  ev_N : E → Z;
  ev_SetN : Z → E → E;
  ev_N_SetN : ∀ n e, ev_N (ev_SetN n e) = n;
}.

(** ** UTXOs *)

Record TxIn := mkTxIn { in_Height : Z; in_Index : Z; in_N : Z }.
Record TxOut := mkTxOut { out_Amount : Z; out_PublicHash : PublicHash }.
Record UTXO := mkUTXO { utxo_TxIn : TxIn; utxo_TxOut : TxOut }.
#[global] Instance TxIn_eq_dec : EqDecision TxIn.
Proof. solve_decision. Defined.

Definition NewTxIn (id : Z) : TxIn :=
  if id =? 0 then mkTxIn 0 0 0
  else let '(height, index, n) := UnmarshalID id in mkTxIn height index n.
Definition TxIn_ID (i : TxIn) : Z := MarshalID (in_Height i) (in_Index i) (in_N i).
Definition UTXO_ID (u : UTXO) : Z := TxIn_ID (utxo_TxIn u).

(** ** Keys of process and account data *)

(** Go's [string(pid)] of a [uint8] is the UTF-8 text of that code point. *)
Definition pid_string (pid : Z) : bytes :=
  if pid <? 128 then [pid] else [192 + pid `div` 64; 128 + pid `mod` 64].
Definition accountDataKey (addr : Address) (pid : Z) (name : bytes) : bytes :=
  addr ++ pid_string pid ++ name.
Definition processDataKey (pid : Z) (name : bytes) : bytes := pid_string pid ++ name.

(** ** Data overlays: a value map and the set of deletion marks *)

Record Overlay := mkOverlay { ov_map : gmap bytes bytes; ov_del : gmap bytes bool }.
Definition empty_overlay : Overlay := mkOverlay ∅ ∅.

(** [SetAccountData] and [SetProcessData] on one layer. *)
Definition ov_set (key value : bytes) (o : Overlay) : Overlay :=
  if (length value =? 0)%nat
  then mkOverlay (delete key (ov_map o)) (<[key := true]> (ov_del o))
  else mkOverlay (<[key := value]> (ov_map o)) (delete key (ov_del o)).

Definition ov_fill (key value : bytes) (o : Overlay) : Overlay :=
  mkOverlay (<[key := value]> (ov_map o)) (ov_del o).

(** What one layer says about a key: deleted, a value, or nothing. *)
Definition ov_hit (key : bytes) (o : Overlay) : option (res bytes) :=
  match ov_del o !! key with
  | Some _ => Some (Ok [])
  | None => match ov_map o !! key with Some v => Some (Ok v) | None => None end
  end.

(** The merge of [Commit]: the values of the upper layer are put into the
    lower one, then its deletion marks are applied. *)
Definition ov_merge (ctd top : Overlay) : Overlay :=
  let m := EachAll (λ k v t, <[k := v]> t) (ov_map ctd) (ov_map top) in
  mkOverlay (EachAll (λ k _ t, delete k t) (ov_del ctd) m)
            (EachAll (λ k v t, <[k := v]> t) (ov_del ctd) (ov_del top)).

Section Context.
Context {A E : Type} `{AI : AccountI A} `{EI : EventI E} `{B58 : Base58}.

(** ** The loader interface *)

Record Loader := mkLoader {
  ld_ChainID : Z;
  ld_Name : bytes;
  ld_Version : Z;
  ld_TargetHeight : Z;
  ld_LastHash : Hash256;
  ld_LastTimestamp : Z;
  ld_Account : Address → res A;
  ld_AddressByName : bytes → res Address;
  ld_HasAccount : Address → res bool;
  ld_HasAccountName : bytes → res bool;
  ld_AccountData : Address → Z → bytes → bytes;
  ld_HasUTXO : Z → res bool;
  ld_UTXO : Z → res UTXO;
  ld_ProcessData : Z → bytes → bytes;
  ld_HasTimeSlot : Z → bytes → bool;
}.

Definition emptyLoader : Loader := {|
  ld_ChainID := 0; ld_Name := []; ld_Version := 0; ld_TargetHeight := 0;
  ld_LastHash := replicate Hash256Size 0; ld_LastTimestamp := 0;
  ld_Account _ := Err ErrNotExistAccount;
  ld_AddressByName _ := Err ErrNotExistAccount;
  ld_HasAccount _ := Ok false;
  ld_HasAccountName _ := Ok false;
  ld_AccountData _ _ _ := [];
  ld_HasUTXO _ := Ok false;
  ld_UTXO _ := Err ErrNotExistUTXO;
  ld_ProcessData _ _ := [];
  ld_HasTimeSlot _ _ := false;
|}.

(** ** contextCache *)

Record ContextCache := mkCache {
  cc_AccountMap : gmap Address A;
  cc_AccountNameMap : gmap bytes Address;
  cc_AccountDataMap : gmap bytes bytes;
  cc_ProcessDataMap : gmap bytes bytes;
  cc_UTXOMap : gmap Z UTXO;
  cc_TimeSlotMap : gmap Z (gmap bytes bool);
}.

Definition newContextCache : ContextCache := mkCache ∅ ∅ ∅ ∅ ∅ ∅.

Definition cc_Account (ld : Loader) (addr : Address) (cc : ContextCache) : res A * ContextCache :=
  match cc_AccountMap cc !! addr with
  | Some acc => (Ok acc, cc)
  | None =>
      match ld_Account ld addr with
      | Ok acc => (Ok acc, mkCache (<[addr := acc]> (cc_AccountMap cc)) (cc_AccountNameMap cc)
                     (cc_AccountDataMap cc) (cc_ProcessDataMap cc) (cc_UTXOMap cc) (cc_TimeSlotMap cc))
      | r => (r, cc)
      end
  end.

Definition cc_AddressByName (ld : Loader) (Name : bytes) (cc : ContextCache) : res Address * ContextCache :=
  match cc_AccountNameMap cc !! Name with
  | Some addr => (Ok addr, cc)
  | None =>
      match ld_AddressByName ld Name with
      | Ok addr => (Ok addr, mkCache (cc_AccountMap cc) (<[Name := addr]> (cc_AccountNameMap cc))
                      (cc_AccountDataMap cc) (cc_ProcessDataMap cc) (cc_UTXOMap cc) (cc_TimeSlotMap cc))
      | r => (r, cc)
      end
  end.

Definition cc_HasAccount (ld : Loader) (cc : ContextCache) (addr : Address) : res bool :=
  match cc_AccountMap cc !! addr with Some _ => Ok true | None => ld_HasAccount ld addr end.

Definition cc_HasAccountName (ld : Loader) (cc : ContextCache) (Name : bytes) : res bool :=
  match cc_AccountNameMap cc !! Name with Some _ => Ok true | None => ld_HasAccountName ld Name end.

Definition cc_AccountData (ld : Loader) (addr : Address) (pid : Z) (name : bytes)
    (cc : ContextCache) : res bytes * ContextCache :=
  let key := accountDataKey addr pid name in
  match cc_AccountDataMap cc !! key with
  | Some value => (Ok value, cc)
  | None =>
      let value := ld_AccountData ld addr pid name in
      (Ok value, mkCache (cc_AccountMap cc) (cc_AccountNameMap cc)
         (<[key := value]> (cc_AccountDataMap cc)) (cc_ProcessDataMap cc) (cc_UTXOMap cc) (cc_TimeSlotMap cc))
  end.

(** [HasUTXO] of the cache never asks the loader. *)
Definition cc_HasUTXO (cc : ContextCache) (id : Z) : res bool :=
  match cc_UTXOMap cc !! id with Some _ => Ok true | None => Ok false end.

Definition cc_UTXO (ld : Loader) (id : Z) (cc : ContextCache) : res UTXO * ContextCache :=
  match cc_UTXOMap cc !! id with
  | Some utxo => (Ok utxo, cc)
  | None =>
      match ld_UTXO ld id with
      | Ok utxo => (Ok utxo, mkCache (cc_AccountMap cc) (cc_AccountNameMap cc)
                      (cc_AccountDataMap cc) (cc_ProcessDataMap cc) (<[id := utxo]> (cc_UTXOMap cc)) (cc_TimeSlotMap cc))
      | r => (r, cc)
      end
  end.

Definition cc_ProcessData (ld : Loader) (pid : Z) (name : bytes) (cc : ContextCache) : res bytes * ContextCache :=
  let key := processDataKey pid name in
  match cc_ProcessDataMap cc !! key with
  | Some value => (Ok value, cc)
  | None =>
      let value := ld_ProcessData ld pid name in
      (Ok value, mkCache (cc_AccountMap cc) (cc_AccountNameMap cc)
         (cc_AccountDataMap cc) (<[key := value]> (cc_ProcessDataMap cc)) (cc_UTXOMap cc) (cc_TimeSlotMap cc))
  end.

(** The slot maps of the cache and of a layer: slot, then key. *)
Definition slot_has (m : gmap Z (gmap bytes bool)) (slot : Z) (key : bytes) : bool :=
  match m !! slot with
  | Some mp => bool_decide (is_Some (mp !! key))
  | None => false
  end.
Definition slot_put (m : gmap Z (gmap bytes bool)) (slot : Z) (key : bytes) : gmap Z (gmap bytes bool) :=
  <[slot := <[key := true]> (default ∅ (m !! slot))]> m.

Definition cc_HasTimeSlot (ld : Loader) (slot : Z) (key : bytes) (cc : ContextCache) : bool * ContextCache :=
  if slot_has (cc_TimeSlotMap cc) slot key then (true, cc)
  else if ld_HasTimeSlot ld slot key
  then (true, mkCache (cc_AccountMap cc) (cc_AccountNameMap cc) (cc_AccountDataMap cc)
                (cc_ProcessDataMap cc) (cc_UTXOMap cc) (slot_put (cc_TimeSlotMap cc) slot key))
  else (false, cc).

(** ** ContextData *)

Record ContextData := mkCtd {
  AccountMap : gmap Address A;
  DeletedAccountMap : gmap Address A;
  AccountNameMap : gmap bytes Address;
  AccountDataOv : Overlay;     (* AccountDataMap, DeletedAccountDataMap *)
  ProcessDataOv : Overlay;     (* ProcessDataMap, DeletedProcessDataMap *)
  UTXOMap : gmap Z UTXO;
  CreatedUTXOMap : gmap Z TxOut;
  DeletedUTXOMap : gmap Z UTXO;
  Events : list E;
  EventN : Z;
  TimeSlotMap : gmap Z (gmap bytes bool);
  isTop : bool;
}.

Definition NewContextData (Parent : option ContextData) : ContextData :=
  mkCtd ∅ ∅ ∅ empty_overlay empty_overlay ∅ ∅ ∅ []
    (match Parent with Some p => EventN p | None => 0 end) ∅ true.

(** Field updates. *)
Definition set_AccountMap (x : gmap Address A) (d : ContextData) : ContextData :=
  mkCtd x (DeletedAccountMap d) (AccountNameMap d) (AccountDataOv d) (ProcessDataOv d) (UTXOMap d) (CreatedUTXOMap d) (DeletedUTXOMap d) (Events d) (EventN d) (TimeSlotMap d) (isTop d).
Definition set_DeletedAccountMap (x : gmap Address A) (d : ContextData) : ContextData :=
  mkCtd (AccountMap d) x (AccountNameMap d) (AccountDataOv d) (ProcessDataOv d) (UTXOMap d) (CreatedUTXOMap d) (DeletedUTXOMap d) (Events d) (EventN d) (TimeSlotMap d) (isTop d).
Definition set_AccountNameMap (x : gmap bytes Address) (d : ContextData) : ContextData :=
  mkCtd (AccountMap d) (DeletedAccountMap d) x (AccountDataOv d) (ProcessDataOv d) (UTXOMap d) (CreatedUTXOMap d) (DeletedUTXOMap d) (Events d) (EventN d) (TimeSlotMap d) (isTop d).
Definition set_AccountDataOv (x : Overlay) (d : ContextData) : ContextData :=
  mkCtd (AccountMap d) (DeletedAccountMap d) (AccountNameMap d) x (ProcessDataOv d) (UTXOMap d) (CreatedUTXOMap d) (DeletedUTXOMap d) (Events d) (EventN d) (TimeSlotMap d) (isTop d).
Definition set_ProcessDataOv (x : Overlay) (d : ContextData) : ContextData :=
  mkCtd (AccountMap d) (DeletedAccountMap d) (AccountNameMap d) (AccountDataOv d) x (UTXOMap d) (CreatedUTXOMap d) (DeletedUTXOMap d) (Events d) (EventN d) (TimeSlotMap d) (isTop d).
Definition set_UTXOMap (x : gmap Z UTXO) (d : ContextData) : ContextData :=
  mkCtd (AccountMap d) (DeletedAccountMap d) (AccountNameMap d) (AccountDataOv d) (ProcessDataOv d) x (CreatedUTXOMap d) (DeletedUTXOMap d) (Events d) (EventN d) (TimeSlotMap d) (isTop d).
Definition set_CreatedUTXOMap (x : gmap Z TxOut) (d : ContextData) : ContextData :=
  mkCtd (AccountMap d) (DeletedAccountMap d) (AccountNameMap d) (AccountDataOv d) (ProcessDataOv d) (UTXOMap d) x (DeletedUTXOMap d) (Events d) (EventN d) (TimeSlotMap d) (isTop d).
Definition set_DeletedUTXOMap (x : gmap Z UTXO) (d : ContextData) : ContextData :=
  mkCtd (AccountMap d) (DeletedAccountMap d) (AccountNameMap d) (AccountDataOv d) (ProcessDataOv d) (UTXOMap d) (CreatedUTXOMap d) x (Events d) (EventN d) (TimeSlotMap d) (isTop d).
Definition set_Events (x : list E) (d : ContextData) : ContextData :=
  mkCtd (AccountMap d) (DeletedAccountMap d) (AccountNameMap d) (AccountDataOv d) (ProcessDataOv d) (UTXOMap d) (CreatedUTXOMap d) (DeletedUTXOMap d) x (EventN d) (TimeSlotMap d) (isTop d).
Definition set_EventN (x : Z) (d : ContextData) : ContextData :=
  mkCtd (AccountMap d) (DeletedAccountMap d) (AccountNameMap d) (AccountDataOv d) (ProcessDataOv d) (UTXOMap d) (CreatedUTXOMap d) (DeletedUTXOMap d) (Events d) x (TimeSlotMap d) (isTop d).
Definition set_TimeSlotMap (x : gmap Z (gmap bytes bool)) (d : ContextData) : ContextData :=
  mkCtd (AccountMap d) (DeletedAccountMap d) (AccountNameMap d) (AccountDataOv d) (ProcessDataOv d) (UTXOMap d) (CreatedUTXOMap d) (DeletedUTXOMap d) (Events d) (EventN d) x (isTop d).
Definition set_isTop (x : bool) (d : ContextData) : ContextData :=
  mkCtd (AccountMap d) (DeletedAccountMap d) (AccountNameMap d) (AccountDataOv d) (ProcessDataOv d) (UTXOMap d) (CreatedUTXOMap d) (DeletedUTXOMap d) (Events d) (EventN d) (TimeSlotMap d) x.

(** ** Reading through the layers

    [hit] is what a layer itself says about the key, [fill] the copy that a
    top layer keeps, [load] the read of the cache below the last layer, and
    [keep] the test of the data reads, which store nothing for an empty
    value ([nil] and the empty value are the same list). *)
Section ReadThrough.
Context {V : Type}.
Context (hit : ContextData → option (res V)) (fill : V → ContextData → ContextData).
Context (clone : V → V) (keep : V → bool).
Context (load : ContextCache → res V * ContextCache).

Definition found (ctd : ContextData) (v : V) : V * ContextData :=
  if keep v then
    if isTop ctd then (clone v, fill (clone v) ctd) else (v, ctd)
  else (v, ctd).

Fixpoint read_through (cc : ContextCache) (st : list ContextData)
    : res V * ContextCache * list ContextData :=
  match st with
  | [] => (Panic, cc, [])
  | ctd :: parents =>
      match hit ctd with
      | Some r => (r, cc, st)
      | None =>
          let '(r, cc', parents') :=
            match parents with
            | [] => let '(r, cc') := load cc in (r, cc', [])
            | _ => read_through cc parents
            end in
          match r with
          | Ok v => let '(v', ctd') := found ctd v in (Ok v', cc', ctd' :: parents')
          | r => (r, cc', ctd :: parents')
          end
      end
  end.
End ReadThrough.

Definition hit_Account (addr : Address) (d : ContextData) : option (res A) :=
  match DeletedAccountMap d !! addr with
  | Some _ => Some (Err ErrDeletedAccount)
  | None => match AccountMap d !! addr with Some acc => Some (Ok acc) | None => None end
  end.
Definition fill_Account (addr : Address) (acc : A) (d : ContextData) : ContextData :=
  set_AccountMap (<[addr := acc]> (AccountMap d)) d.

Definition hit_Name (Name : bytes) (d : ContextData) : option (res Address) :=
  match AccountNameMap d !! Name with Some addr => Some (Ok addr) | None => None end.
Definition fill_Name (Name : bytes) (addr : Address) (d : ContextData) : ContextData :=
  set_AccountNameMap (<[Name := addr]> (AccountNameMap d)) d.

Definition hit_AccountData (key : bytes) (d : ContextData) : option (res bytes) :=
  ov_hit key (AccountDataOv d).
Definition fill_AccountData (key value : bytes) (d : ContextData) : ContextData :=
  set_AccountDataOv (ov_fill key value (AccountDataOv d)) d.

Definition hit_ProcessData (key : bytes) (d : ContextData) : option (res bytes) :=
  ov_hit key (ProcessDataOv d).
Definition fill_ProcessData (key value : bytes) (d : ContextData) : ContextData :=
  set_ProcessDataOv (ov_fill key value (ProcessDataOv d)) d.

Definition hit_UTXO (id : Z) (d : ContextData) : option (res UTXO) :=
  match DeletedUTXOMap d !! id with
  | Some _ => Some (Err ErrUsedUTXO)
  | None => match UTXOMap d !! id with Some u => Some (Ok u) | None => None end
  end.
Definition fill_UTXO (id : Z) (u : UTXO) (d : ContextData) : ContextData :=
  set_UTXOMap (<[id := u]> (UTXOMap d)) d.

Definition nonempty (v : bytes) : bool := (0 <? length v)%nat.

(** ** Context *)

Record Ctx := mkCtx {
  loader : Loader;
  genTargetHeight : Z;
  genLastHash : Hash256;
  genTimestamp : Z;
  cache : ContextCache;
  stack : list ContextData;
  isLatestHash : bool;
  dataHash : Hash256;
}.

Definition set_stack (st : list ContextData) (c : Ctx) : Ctx :=
  mkCtx (loader c) (genTargetHeight c) (genLastHash c) (genTimestamp c) (cache c) st
    (isLatestHash c) (dataHash c).
Definition set_cache (cc : ContextCache) (c : Ctx) : Ctx :=
  mkCtx (loader c) (genTargetHeight c) (genLastHash c) (genTimestamp c) cc (stack c)
    (isLatestHash c) (dataHash c).
Definition set_latest (b : bool) (h : Hash256) (c : Ctx) : Ctx :=
  mkCtx (loader c) (genTargetHeight c) (genLastHash c) (genTimestamp c) (cache c) (stack c) b h.
Definition dirty (c : Ctx) : Ctx := set_latest false (dataHash c) c.

Definition NewContext (ld : Loader) : Ctx :=
  mkCtx ld (ld_TargetHeight ld) (ld_LastHash ld) (ld_LastTimestamp ld)
    newContextCache [NewContextData None] false (replicate Hash256Size 0).

Definition NewEmptyContext : Ctx := NewContext emptyLoader.

(** Run a read on the top of the stack. *)
Definition run_read {V} (hit : ContextData → option (res V)) (fill : V → ContextData → ContextData)
    (clone : V → V) (keep : V → bool)
    (load : Loader → ContextCache → res V * ContextCache) : M Ctx V := λ c,
  let '(r, cc, st) := read_through hit fill clone keep (load (loader c)) (cache c) (stack c) in
  (r, set_stack st (set_cache cc c)).

(** The reads of ContextData on the top layer. *)
Definition ctd_Account (addr : Address) : M Ctx A :=
  run_read (hit_Account addr) (fill_Account addr) acc_Clone (λ _, true) (λ ld, cc_Account ld addr).

Definition ctd_AddressByName (Name : bytes) : M Ctx Address :=
  run_read (hit_Name Name) (fill_Name Name) id (λ _, true) (λ ld, cc_AddressByName ld Name).

Definition ctd_AccountData (addr : Address) (pid : Z) (name : bytes) : M Ctx bytes :=
  let key := accountDataKey addr pid name in
  run_read (hit_AccountData key) (fill_AccountData key) id nonempty
    (λ ld, cc_AccountData ld addr pid name).

Definition ctd_ProcessData (pid : Z) (name : bytes) : M Ctx bytes :=
  let key := processDataKey pid name in
  run_read (hit_ProcessData key) (fill_ProcessData key) id nonempty
    (λ ld, cc_ProcessData ld pid name).

Definition ctd_UTXO (id : Z) : M Ctx UTXO :=
  run_read (hit_UTXO id) (fill_UTXO id) (λ u, u) (λ _, true) (λ ld, cc_UTXO ld id).

Fixpoint ctd_HasAccount (ld : Loader) (cc : ContextCache) (st : list ContextData) (addr : Address) : res bool :=
  match st with
  | [] => Panic
  | ctd :: parents =>
      if bool_decide (is_Some (DeletedAccountMap ctd !! addr)) then Ok false
      else if bool_decide (is_Some (AccountMap ctd !! addr)) then Ok true
      else match parents with
           | [] => cc_HasAccount ld cc addr
           | _ => ctd_HasAccount ld cc parents addr
           end
  end.

Fixpoint ctd_HasAccountName (ld : Loader) (cc : ContextCache) (st : list ContextData) (Name : bytes) : res bool :=
  match st with
  | [] => Panic
  | ctd :: parents =>
      if bool_decide (is_Some (AccountNameMap ctd !! Name)) then Ok true
      else match parents with
           | [] => cc_HasAccountName ld cc Name
           | _ => ctd_HasAccountName ld cc parents Name
           end
  end.

Fixpoint ctd_HasUTXO (cc : ContextCache) (st : list ContextData) (id : Z) : res bool :=
  match st with
  | [] => Panic
  | ctd :: parents =>
      if bool_decide (is_Some (DeletedUTXOMap ctd !! id)) then Ok false
      else if bool_decide (is_Some (UTXOMap ctd !! id)) then Ok true
      else if bool_decide (is_Some (CreatedUTXOMap ctd !! id)) then Ok true
      else match parents with
           | [] => cc_HasUTXO cc id
           | _ => ctd_HasUTXO cc parents id
           end
  end.

Definition HasAccount (addr : Address) : M Ctx bool := λ c,
  (ctd_HasAccount (loader c) (cache c) (stack c) addr, c).
Definition HasAccountName (Name : bytes) : M Ctx bool := λ c,
  (ctd_HasAccountName (loader c) (cache c) (stack c) Name, c).
Definition HasUTXO (id : Z) : M Ctx bool := λ c, (ctd_HasUTXO (cache c) (stack c) id, c).

(** Change the top layer. *)
Definition with_top (f : ContextData → ContextData) : M Ctx unit := λ c,
  match stack c with
  | [] => (Panic, c)
  | ctd :: parents => (Ok tt, set_stack (f ctd :: parents) c)
  end.

(** The two existence tests of [CreateAccount]: an error other than the
    ignored ones is returned, an existing entry is [dup]. *)
Definition must_be_new (ignored : error → bool) (r : res bool) (dup : error) : M Ctx unit :=
  match r with
  | Ok true => fail dup
  | Ok false => mret tt
  | Err e => if ignored e then mret tt else fail e
  | Panic => panic
  end.

Definition create_account (ignored : error → bool) (acc : A) : M Ctx unit :=
  c ← get;
  guard_err (negb (Height (acc_Address acc) =? genTargetHeight c)) ErrInvalidAddressHeight ;;
  guard_err (bool_decide (acc_Address acc = emptyAddr)) ErrNotAllowedEmptyAddressAccount ;;
  guard_err (bool_decide (is_Some (ParseAddress (acc_Name acc)))) ErrNotAllowedAddressAccountName ;;
  must_be_new ignored (ctd_HasAccount (loader c) (cache c) (stack c) (acc_Address acc)) ErrExistAccount ;;
  must_be_new ignored (ctd_HasAccountName (loader c) (cache c) (stack c) (acc_Name acc)) ErrExistAccountName ;;
  with_top (λ d, set_AccountNameMap (<[acc_Name acc := acc_Address acc]> (AccountNameMap d))
                   (set_AccountMap (<[acc_Address acc := acc]> (AccountMap d)) d)).

Definition ctd_CreateAccount (acc : A) : M Ctx unit :=
  create_account (λ e, bool_decide (e = ErrNotExistAccount)) acc.

Definition ctd_CreateAccountIgnoreDelete (acc : A) : M Ctx unit :=
  create_account (λ e, bool_decide (e = ErrNotExistAccount) || bool_decide (e = ErrDeletedAccount)) acc.

Definition ctd_DeleteAccount (acc : A) : M Ctx unit :=
  ctd_Account (acc_Address acc) ;;
  with_top (λ d, set_AccountNameMap (delete (acc_Name acc) (AccountNameMap d))
                   (set_AccountMap (delete (acc_Address acc) (AccountMap d))
                     (set_DeletedAccountMap (<[acc_Address acc := acc]> (DeletedAccountMap d)) d))).

Definition ctd_SetAccountData (addr : Address) (pid : Z) (name value : bytes) : M Ctx unit :=
  with_top (λ d, set_AccountDataOv (ov_set (accountDataKey addr pid name) value (AccountDataOv d)) d).

Definition ctd_SetProcessData (pid : Z) (name value : bytes) : M Ctx unit :=
  with_top (λ d, set_ProcessDataOv (ov_set (processDataKey pid name) value (ProcessDataOv d)) d).

Definition ctd_CreateUTXO (id : Z) (vout : TxOut) : M Ctx unit :=
  r ← try (ctd_UTXO id);
  match r with
  | inl _ => fail ErrExistUTXO
  | inr e => guard_err (negb (bool_decide (e = ErrNotExistUTXO))) e
  end ;;
  with_top (λ d, set_CreatedUTXOMap (<[id := vout]> (CreatedUTXOMap d)) d).

Definition ctd_DeleteUTXO (utxo : UTXO) : M Ctx unit :=
  ctd_UTXO (UTXO_ID utxo) ;;
  with_top (λ d, set_DeletedUTXOMap (<[UTXO_ID utxo := utxo]> (DeletedUTXOMap d)) d).

Definition ctd_EmitEvent (e : E) : M Ctx unit :=
  with_top (λ d, set_Events (Events d ++ [ev_SetN (EventN d) e])
                   (set_EventN (u16 (EventN d + 1)) d)).

(** A time slot is looked up in the top layer and in the loader; the layers
    in between are not asked. *)
Definition ctd_HasTimeSlot (slot : Z) (key : bytes) : M Ctx bool := λ c,
  match stack c with
  | [] => (Panic, c)
  | d :: parents =>
      if slot_has (TimeSlotMap d) slot key then (Ok true, c)
      else
        let '(has, cc) := cc_HasTimeSlot (loader c) slot key (cache c) in
        let c := set_cache cc c in
        if has then
          (Ok true, set_stack (set_TimeSlotMap (slot_put (TimeSlotMap d) slot key) d :: parents) c)
        else (Ok false, c)
  end.

Definition ctd_UseTimeSlot (slot : Z) (key : bytes) : M Ctx unit := λ c,
  match stack c with
  | [] => (Panic, c)
  | d :: parents =>
      if slot_has (TimeSlotMap d) slot key then (Err ErrUsedTimeSlot, c)
      else
        let '(has, cc) := cc_HasTimeSlot (loader c) slot key (cache c) in
        let c := set_stack (set_TimeSlotMap (slot_put (TimeSlotMap d) slot key) d :: parents)
                   (set_cache cc c) in
        if has then (Err ErrUsedTimeSlot, c) else (Ok tt, c)
  end.

(** *** Context operations: the same on [ctx.Top()], some of them after
    [ctx.isLatestHash = false] *)

Definition Account (addr : Address) : M Ctx A := modify dirty ;; ctd_Account addr.
Definition AddressByName (Name : bytes) : M Ctx Address := ctd_AddressByName Name.
Definition CreateAccount (acc : A) : M Ctx unit := modify dirty ;; ctd_CreateAccount acc.
Definition CreateAccountIgnoreDelete (acc : A) : M Ctx unit :=
  modify dirty ;; ctd_CreateAccountIgnoreDelete acc.
Definition DeleteAccount (acc : A) : M Ctx unit := modify dirty ;; ctd_DeleteAccount acc.
Definition AccountData (addr : Address) (pid : Z) (name : bytes) : M Ctx bytes :=
  ctd_AccountData addr pid name.
Definition SetAccountData (addr : Address) (pid : Z) (name value : bytes) : M Ctx unit :=
  modify dirty ;; ctd_SetAccountData addr pid name value.
Definition ReadUTXO (id : Z) : M Ctx UTXO := ctd_UTXO id.
Definition CreateUTXO (id : Z) (vout : TxOut) : M Ctx unit := modify dirty ;; ctd_CreateUTXO id vout.
Definition DeleteUTXO (utxo : UTXO) : M Ctx unit := modify dirty ;; ctd_DeleteUTXO utxo.
Definition EmitEvent (e : E) : M Ctx unit := modify dirty ;; ctd_EmitEvent e.
Definition ProcessData (pid : Z) (name : bytes) : M Ctx bytes := ctd_ProcessData pid name.
(** [SetProcessData] does not clear [isLatestHash]. *)
Definition SetProcessData (pid : Z) (name value : bytes) : M Ctx unit :=
  ctd_SetProcessData pid name value.
Definition HasTimeSlot (slot : Z) (key : bytes) : M Ctx bool := ctd_HasTimeSlot slot key.
Definition UseTimeSlot (slot : Z) (key : bytes) : M Ctx unit := ctd_UseTimeSlot slot key.
Definition TargetHeight : M Ctx Z := gets genTargetHeight.

(** A write through the account pointer that [Account] returned: the object
    is the one the top layer holds. *)
Definition UpdateAccount (addr : Address) (acc : A) : M Ctx unit :=
  with_top (λ d, set_AccountMap (<[addr := acc]> (AccountMap d)) d).

(** The same through a pointer that was taken before a snapshot: the object
    is the one of the topmost layer that knows the account.  If that layer has
    deleted the account, the object is in no layer any more. *)
Fixpoint assign_account (addr : Address) (acc : A) (st : list ContextData) : list ContextData :=
  match st with
  | [] => []
  | d :: parents =>
      match DeletedAccountMap d !! addr, AccountMap d !! addr with
      | Some _, _ => st
      | None, Some _ => set_AccountMap (<[addr := acc]> (AccountMap d)) d :: parents
      | None, None => d :: assign_account addr acc parents
      end
  end.
Definition AssignAccount (addr : Address) (acc : A) : M Ctx unit :=
  modify (λ c, set_stack (assign_account addr acc (stack c)) c).

(** *** Snapshots *)

Definition Snapshot : M Ctx nat := λ c,
  let c := dirty c in
  match stack c with
  | [] => (Panic, c)
  | top :: parents =>
      let ctd := NewContextData (Some top) in
      let st := ctd :: set_isTop false top :: parents in
      (Ok (length st), set_stack st c)
  end.

(** [ctx.stack[len(ctx.stack)-1].isTop = true]. *)
Definition mark_top (st : list ContextData) : res (list ContextData) :=
  match st with
  | [] => Panic
  | d :: st => Ok (set_isTop true d :: st)
  end.

Definition Revert (sn : nat) : M Ctx unit := λ c,
  let c := dirty c in
  let n := length (stack c) in
  if (sn <=? n)%nat && (sn =? 0)%nat then (Panic, c)   (* ctx.stack[:-1] *)
  else
    let st := if (sn <=? n)%nat then drop (n - (sn - 1)) (stack c) else stack c in
    match mark_top st with
    | Ok st' => (Ok tt, set_stack st' c)
    | _ => (Panic, set_stack st c)
    end.

(** The body of the loop of [Commit]. *)
Definition merge_time_slots (ctd top : gmap Z (gmap bytes bool)) : gmap Z (gmap bytes bool) :=
  EachAll (λ key mp t,
    match t !! key with
    | Some tp => <[key := EachAll (λ k v tp, <[k := v]> tp) mp tp]> t
    | None => <[key := mp]> t
    end) ctd top.

Definition merge_layer (ctd top : ContextData) : ContextData :=
  let accs := EachAll (λ k v t, <[k := v]> t) (AccountMap ctd) (AccountMap top) in
  let utxos := EachAll (λ k v t, <[k := v]> t) (UTXOMap ctd) (UTXOMap top) in
  let created := EachAll (λ k v t, <[k := v]> t) (CreatedUTXOMap ctd) (CreatedUTXOMap top) in
  mkCtd
    (EachAll (λ k _ t, delete k t) (DeletedAccountMap ctd) accs)
    (EachAll (λ k v t, <[k := v]> t) (DeletedAccountMap ctd) (DeletedAccountMap top))
    (EachAll (λ k v t, <[k := v]> t) (AccountNameMap ctd) (AccountNameMap top))
    (ov_merge (AccountDataOv ctd) (AccountDataOv top))
    (ov_merge (ProcessDataOv ctd) (ProcessDataOv top))
    (EachAll (λ k _ t, delete k t) (DeletedUTXOMap ctd) utxos)
    (EachAll (λ k _ t, delete k t) (DeletedUTXOMap ctd) created)
    (EachAll (λ k v t, <[k := v]> t) (DeletedUTXOMap ctd) (DeletedUTXOMap top))
    (Events top ++ Events ctd)
    (EventN ctd)
    (merge_time_slots (TimeSlotMap ctd) (TimeSlotMap top))
    (isTop top).

(** [for len(ctx.stack) >= sn]: [ctd] is the top and [below] the rest. *)
Fixpoint commit_loop (sn : nat) (ctd : ContextData) (below : list ContextData) : res (list ContextData) :=
  if (sn <=? S (length below))%nat then
    match below with
    | [] => Panic
    | top :: below => commit_loop sn (merge_layer ctd top) below
    end
  else Ok (ctd :: below).

Definition Commit (sn : nat) : M Ctx unit := λ c,
  let c := dirty c in
  match stack c with
  | [] => (Panic, c)
  | ctd :: below =>
      match commit_loop sn ctd below with
      | Ok st => match mark_top st with
                 | Ok st' => (Ok tt, set_stack st' c)
                 | _ => (Panic, c)
                 end
      | _ => (Panic, c)
      end
  end.

Definition StackSize : M Ctx nat := gets (λ c, length (stack c)).

(** *** The next context: the current one is its loader *)

Definition as_loader (c : Ctx) : Loader := {|
  ld_ChainID := ld_ChainID (loader c);
  ld_Name := ld_Name (loader c);
  ld_Version := ld_Version (loader c);
  ld_TargetHeight := genTargetHeight c;
  ld_LastHash := genLastHash c;
  ld_LastTimestamp := genTimestamp c;
  ld_Account addr := (Account addr c).1;
  ld_AddressByName Name := (AddressByName Name c).1;
  ld_HasAccount addr := (HasAccount addr c).1;
  ld_HasAccountName Name := (HasAccountName Name c).1;
  ld_AccountData addr pid name := match (AccountData addr pid name c).1 with Ok v => v | _ => [] end;
  ld_HasUTXO id := (HasUTXO id c).1;
  ld_UTXO id := (ReadUTXO id c).1;
  ld_ProcessData pid name := match (ProcessData pid name c).1 with Ok v => v | _ => [] end;
  ld_HasTimeSlot slot key := match (HasTimeSlot slot key c).1 with Ok b => b | _ => false end;
|}.

Definition NextContext (NextHash : Hash256) (Timestamp : Z) (c : Ctx) : Ctx :=
  let c := match stack c with
           | [] => c
           | d :: st => set_stack (set_isTop false d :: st) c
           end in
  mkCtx (as_loader c) (u32 (genTargetHeight c + 1)) NextHash Timestamp
    newContextCache [NewContextData None] false (replicate Hash256Size 0).

(** *** Hashes

    [encoding.Hash] is the hash of the msgpack form of its argument, code
    outside the repository: a parameter for each type it is called on. *)
Class EncodingHash := {
  eh_accounts : gmap Address A → Hash256;
  eh_names : gmap bytes Address → Hash256;
  eh_data : gmap bytes bytes → Hash256;
  eh_utxos : gmap Z UTXO → Hash256;
  eh_txouts : gmap Z TxOut → Hash256;
  eh_event : E → Hash256;
}.

(** [ContextData.Hash]: the time slots are not part of it. *)
Definition ContextData_Hash `{HashFn} `{EH : EncodingHash} (c : Ctx) (ctd : ContextData) : Hash256 :=
  DoubleHash (
    str "ChainID" ++ [ld_ChainID (loader c)] ++
    str "ChainName" ++ ld_Name (loader c) ++
    str "ChainVersion" ++ LittleEndian_Uint16ToBytes (ld_Version (loader c)) ++
    str "Height" ++ LittleEndian_Uint32ToBytes (genTargetHeight c) ++
    str "PrevHash" ++ genLastHash c ++
    str "AccountMap" ++ hex_encode (eh_accounts (AccountMap ctd)) ++
    str "DeletedAccountMap" ++ EachAll (λ addr _ buffer, buffer ++ addr) (DeletedAccountMap ctd) [] ++
    str "AccountNameMap" ++ hex_encode (eh_names (AccountNameMap ctd)) ++
    str "AccountDataMap" ++ hex_encode (eh_data (ov_map (AccountDataOv ctd))) ++
    str "DeletedAccountDataMap" ++ EachAll (λ key _ buffer, buffer ++ key) (ov_del (AccountDataOv ctd)) [] ++
    str "UTXOMap" ++ hex_encode (eh_utxos (UTXOMap ctd)) ++
    str "CreatedUTXOMap" ++ hex_encode (eh_txouts (CreatedUTXOMap ctd)) ++
    str "DeletedUTXOMap" ++
      EachAll (λ key _ buffer, buffer ++ LittleEndian_Uint64ToBytes key) (DeletedUTXOMap ctd) [] ++
    str "Events" ++ concat (eh_event <$> Events ctd) ++
    str "ProcessDataMap" ++ hex_encode (eh_data (ov_map (ProcessDataOv ctd))) ++
    str "DeletedProcessDataMap" ++ EachAll (λ key _ buffer, buffer ++ key) (ov_del (ProcessDataOv ctd)) []).

Definition Ctx_Hash `{HashFn} `{EH : EncodingHash} : M Ctx Hash256 := λ c,
  if isLatestHash c then (Ok (dataHash c), c)
  else match stack c with
       | [] => (Panic, c)
       | d :: _ =>
           let h := Hashes [genLastHash c; ContextData_Hash c d] in
           (Ok h, set_latest true h c)
       end.

End Context.

Arguments Loader : clear implicits.
Arguments ContextCache : clear implicits.
Arguments ContextData : clear implicits.
Arguments Ctx : clear implicits.
Arguments EncodingHash : clear implicits.
