(* ===== verification/ContextSpec.v ===== *)
(** * core/types: what a context promises

    The layers, the copies a read leaves behind and the read cache are an
    implementation of a plain state: for every key, one answer.  This file
    defines that state as the views of a context, the well-formedness of a
    context, the equivalence of contexts with equal views, and proves
    - that reads return the view and leave an equivalent context;
    - what each write does to every view;
    - that [Revert] undoes whatever happened since the [Snapshot];
    - what [Commit] does to the views, with the one case where a view is
      lost;
    - the numbering of events and the handling of time slots and UTXOs. *)

From S2P Require Import Prelude Common Context.

(** ** Keys *)

Definition valid_pid (pid : Z) : Prop := 0 ≤ pid < 256.
#[export] Instance valid_pid_dec pid : Decision (valid_pid pid).
Proof. unfold valid_pid. apply _. Defined.

Definition valid_addr (addr : Address) : Prop := length addr = AddressSize.

(** The process identifier is a prefix-free code: the two parts of a key
    cannot be confused. *)
Lemma pid_string_inj p q x y :
  valid_pid p → valid_pid q → pid_string p ++ x = pid_string q ++ y → p = q ∧ x = y.
Proof.
  unfold valid_pid, pid_string. intros Hp Hq.
  destruct (Z.ltb_spec p 128), (Z.ltb_spec q 128); simpl; intros [=]; subst; try done;
    try (exfalso; zdiv_lia). split; [zdiv_lia|done].
Qed.

Lemma processDataKey_inj p q x y :
  valid_pid p → valid_pid q → processDataKey p x = processDataKey q y → p = q ∧ x = y.
Proof. apply pid_string_inj. Qed.

Lemma accountDataKey_inj a b p q x y :
  valid_addr a → valid_addr b → valid_pid p → valid_pid q →
  accountDataKey a p x = accountDataKey b q y → a = b ∧ p = q ∧ x = y.
Proof.
  unfold accountDataKey, valid_addr. intros Ha Hb Hp Hq H.
  apply app_inj_1 in H as [-> H]; [|congruence].
  by apply pid_string_inj in H as [-> ->].
Qed.

(** ** Overlays *)

Lemma ov_hit_set k k' v o :
  ov_hit k' (ov_set k v o) = if decide (k' = k) then Some (Ok v) else ov_hit k' o.
Proof.
  unfold ov_hit, ov_set. destruct v as [|b v]; simpl;
    destruct (decide (k' = k)) as [->|Hne];
    by rewrite ?lookup_insert_eq, ?lookup_delete_eq, ?lookup_insert_ne, ?lookup_delete_ne by done.
Qed.

Lemma ov_hit_fill k k' v o :
  ov_hit k o = None →
  ov_hit k' (ov_fill k v o) = if decide (k' = k) then Some (Ok v) else ov_hit k' o.
Proof.
  unfold ov_hit, ov_fill. simpl. intros H. destruct (decide (k' = k)) as [->|Hne].
  - rewrite lookup_insert_eq. by destruct (ov_del o !! k).
  - by rewrite lookup_insert_ne.
Qed.

(** A merged overlay answers for the upper layer, except for a value of the
    upper layer whose key the lower layer had marked deleted: the mark stays
    and wins. *)
Lemma ov_hit_merge k u l :
  ov_hit k (ov_merge u l) =
    match ov_hit k u with
    | Some r => if ov_del l !! k then Some (Ok []) else
                  match ov_del u !! k with Some _ => Some (Ok []) | None => Some r end
    | None => ov_hit k l
    end.
Proof.
  unfold ov_hit, ov_merge. simpl. rewrite EachAll_delete, !EachAll_put, !lookup_union.
  destruct (ov_del u !! k), (ov_map u !! k), (ov_del l !! k), (ov_map l !! k); done.
Qed.

Section ContextSpec.
Context {A E : Type} `{AI : AccountI A} `{EI : EventI E} `{B58 : Base58}.
Implicit Types (c : Ctx A E) (d : ContextData A E) (st : list (ContextData A E))
  (ld : Loader A) (cc : ContextCache A).

(** ** Reading through *)

Section Read.
Context {V : Type} (hit : ContextData A E → option (res V)).
Context (fill : V → ContextData A E → ContextData A E).

(** The answer of the topmost layer that has one. *)
Fixpoint layers_hit st : option (res V) :=
  match st with
  | [] => None
  | d :: st => match hit d with Some r => Some r | None => layers_hit st end
  end.

Definition view (below : res V) st : res V := default below (layers_hit st).

Context (clone : V → V) (clone_id : ∀ v, clone v = v) (keep : V → bool).
Context (load : ContextCache A → res V * ContextCache A).

Definition filled (r : res V) d : ContextData A E :=
  match hit d, r with
  | None, Ok v => if keep v && isTop d then fill v d else d
  | _, _ => d
  end.

(** A read answers with the view; only the top layer and the cache can
    change, the one by the copy of the answer, the other by one load. *)
Lemma read_through_spec cc d st below cc' :
  Forall (λ d, isTop d = false) st →
  load cc = (below, cc') →
  read_through hit fill clone keep load cc (d :: st)
  = (view below (d :: st),
     match layers_hit (d :: st) with Some _ => cc | None => cc' end,
     filled (view below (d :: st)) d :: st).
Proof using clone_id.
  intros Hst Hload. revert d Hst. induction st as [|d' st IH]; intros d Hst.
  - simpl. unfold view, filled, found. simpl. destruct (hit d) as [r|]; simpl; [done|].
    rewrite Hload. destruct below as [v|e|]; simpl; [|done..]. rewrite clone_id.
    by destruct (keep v), (isTop d).
  - apply Forall_cons in Hst as [Hd' Hst]. specialize (IH d' Hst).
    cbn [read_through]. unfold filled. destruct (hit d) as [r|] eqn:Hd.
    + unfold view. simpl. by rewrite Hd.
    + cbn [read_through] in IH. rewrite IH. clear IH.
      assert (Hf : filled (view below (d' :: st)) d' = d').
      { unfold filled. destruct (hit d'), (view below (d' :: st)); try done.
        by rewrite Hd', andb_false_r. }
      assert (Hv : view below (d :: d' :: st) = view below (d' :: st)).
      { unfold view. simpl. by rewrite Hd. }
      assert (Hl : layers_hit (d :: d' :: st) = layers_hit (d' :: st)).
      { simpl. by rewrite Hd. }
      rewrite Hf, Hv, Hl. unfold found.
      destruct (view below (d' :: st)) as [v|e|]; [|done..].
      rewrite clone_id. by destruct (keep v), (isTop d).
Qed.
End Read.

(** The copy that a read leaves in the top layer does not change any answer,
    its own included. *)
Lemma view_filled {V} (hit : ContextData A E → option (res V)) fill (keep : V → bool) below d st :
  (∀ v d, hit d = None → hit (fill v d) = Some (Ok v)) →
  view hit below (filled hit fill keep (view hit below (d :: st)) d :: st) = view hit below (d :: st).
Proof.
  intros Hfill. unfold filled. destruct (hit d) as [r|] eqn:Hd; [done|].
  destruct (view hit below (d :: st)) as [v|e|] eqn:Hv; [|done..].
  destruct (keep v && isTop d); [|done].
  unfold view. simpl. by rewrite Hfill.
Qed.

Lemma view_top {V} (hit : ContextData A E → option (res V)) below d d' st :
  hit d = hit d' → view hit below (d :: st) = view hit below (d' :: st).
Proof. intros H. unfold view. simpl. by rewrite H. Qed.

(** ** Loaders and caches *)

(** What a context relies on in its loader: the existence tests agree with
    the reads. *)
Record loader_ok ld : Prop := {
  lo_account : ∀ addr acc, ld_Account ld addr = Ok acc → ld_HasAccount ld addr = Ok true;
  lo_name : ∀ n addr, ld_AddressByName ld n = Ok addr → ld_HasAccountName ld n = Ok true;
}.

(** Everything in the cache is what the loader answers. *)
Record cache_ok ld cc : Prop := {
  co_account : ∀ addr acc, cc_AccountMap cc !! addr = Some acc → ld_Account ld addr = Ok acc;
  co_name : ∀ n addr, cc_AccountNameMap cc !! n = Some addr → ld_AddressByName ld n = Ok addr;
  co_account_data : ∀ a p n v, valid_addr a → valid_pid p →
    cc_AccountDataMap cc !! accountDataKey a p n = Some v → ld_AccountData ld a p n = v;
  co_process_data : ∀ p n v, valid_pid p →
    cc_ProcessDataMap cc !! processDataKey p n = Some v → ld_ProcessData ld p n = v;
  co_utxo : ∀ id u, cc_UTXOMap cc !! id = Some u → ld_UTXO ld id = Ok u;
  co_slot : ∀ s k, slot_has (cc_TimeSlotMap cc) s k = true → ld_HasTimeSlot ld s k = true;
}.

Lemma newContextCache_ok ld : cache_ok ld newContextCache.
Proof. by split. Qed.

Lemma slot_has_put m s k s' k' :
  slot_has (slot_put m s k) s' k' = bool_decide (s' = s ∧ k' = k) || slot_has m s' k'.
Proof.
  unfold slot_has, slot_put. destruct (decide (s' = s)) as [->|Hs].
  - rewrite lookup_insert_eq. destruct (decide (k' = k)) as [->|Hk].
    + rewrite lookup_insert_eq. by rewrite !bool_decide_eq_true_2.
    + rewrite lookup_insert_ne by done. rewrite (bool_decide_eq_false_2 (_ ∧ _)) by naive_solver.
      simpl. by destruct (m !! s).
  - rewrite lookup_insert_ne by done. by rewrite (bool_decide_eq_false_2 (_ ∧ _)) by naive_solver.
Qed.

(** The cache is transparent: it answers as the loader does. *)
Lemma cc_Account_spec ld addr cc :
  cache_ok ld cc → ∃ cc', cc_Account ld addr cc = (ld_Account ld addr, cc') ∧ cache_ok ld cc'.
Proof.
  intros H. unfold cc_Account. destruct (cc_AccountMap cc !! addr) as [acc|] eqn:Hc.
  { rewrite (co_account _ _ H _ _ Hc). eauto. }
  destruct (ld_Account ld addr) as [acc|e|] eqn:Hl; [|by eauto..].
  eexists; split; [done|]. destruct H; split; simpl; try done.
  intros a b. rewrite lookup_insert_Some. naive_solver.
Qed.

Lemma cc_AddressByName_spec ld n cc :
  cache_ok ld cc → ∃ cc', cc_AddressByName ld n cc = (ld_AddressByName ld n, cc') ∧ cache_ok ld cc'.
Proof.
  intros H. unfold cc_AddressByName. destruct (cc_AccountNameMap cc !! n) as [acc|] eqn:Hc.
  { rewrite (co_name _ _ H _ _ Hc). eauto. }
  destruct (ld_AddressByName ld n) as [acc|e|] eqn:Hl; [|by eauto..].
  eexists; split; [done|]. destruct H; split; simpl; try done.
  intros a b. rewrite lookup_insert_Some. naive_solver.
Qed.

Lemma cc_UTXO_spec ld id cc :
  cache_ok ld cc → ∃ cc', cc_UTXO ld id cc = (ld_UTXO ld id, cc') ∧ cache_ok ld cc'.
Proof.
  intros H. unfold cc_UTXO. destruct (cc_UTXOMap cc !! id) as [acc|] eqn:Hc.
  { rewrite (co_utxo _ _ H _ _ Hc). eauto. }
  destruct (ld_UTXO ld id) as [acc|e|] eqn:Hl; [|by eauto..].
  eexists; split; [done|]. destruct H; split; simpl; try done.
  intros a b. rewrite lookup_insert_Some. naive_solver.
Qed.

Lemma cc_AccountData_spec ld a p n cc :
  valid_addr a → valid_pid p → cache_ok ld cc →
  ∃ cc', cc_AccountData ld a p n cc = (Ok (ld_AccountData ld a p n), cc') ∧ cache_ok ld cc'.
Proof.
  intros Ha Hp H. unfold cc_AccountData.
  destruct (cc_AccountDataMap cc !! _) as [v|] eqn:Hc.
  { rewrite (co_account_data _ _ H _ _ _ _ Ha Hp Hc). eauto. }
  eexists; split; [done|]. destruct H; split; simpl; try done.
  intros b q m v Hb Hq. rewrite lookup_insert_Some. intros [[He <-]|[_ Hv]]; [|by auto].
  by apply accountDataKey_inj in He as (-> & -> & ->).
Qed.

Lemma cc_ProcessData_spec ld p n cc :
  valid_pid p → cache_ok ld cc →
  ∃ cc', cc_ProcessData ld p n cc = (Ok (ld_ProcessData ld p n), cc') ∧ cache_ok ld cc'.
Proof.
  intros Hp H. unfold cc_ProcessData.
  destruct (cc_ProcessDataMap cc !! _) as [v|] eqn:Hc.
  { rewrite (co_process_data _ _ H _ _ _ Hp Hc). eauto. }
  eexists; split; [done|]. destruct H; split; simpl; try done.
  intros q m v Hq. rewrite lookup_insert_Some. intros [[He <-]|[_ Hv]]; [|by auto].
  by apply processDataKey_inj in He as (-> & ->).
Qed.

Lemma cc_HasTimeSlot_spec ld s k cc :
  cache_ok ld cc → ∃ cc', cc_HasTimeSlot ld s k cc = (ld_HasTimeSlot ld s k, cc') ∧ cache_ok ld cc'.
Proof.
  intros H. unfold cc_HasTimeSlot. destruct (slot_has _ s k) eqn:Hc.
  { rewrite (co_slot _ _ H _ _ Hc). eauto. }
  destruct (ld_HasTimeSlot ld s k) eqn:Hl; [|by eauto].
  eexists; split; [done|]. destruct H; split; simpl; try done.
  intros s' k'. rewrite slot_has_put, orb_true_iff, bool_decide_eq_true.
  intros [[-> ->]|Hs]; auto.
Qed.

(** ** Views of a context *)

Definition view_Account c (addr : Address) : res A :=
  view (hit_Account addr) (ld_Account (loader c) addr) (stack c).
Definition view_Name c (n : bytes) : res Address :=
  view (hit_Name n) (ld_AddressByName (loader c) n) (stack c).
Definition view_AccountData c (a : Address) (p : Z) (n : bytes) : res bytes :=
  view (hit_AccountData (accountDataKey a p n)) (Ok (ld_AccountData (loader c) a p n)) (stack c).
Definition view_ProcessData c (p : Z) (n : bytes) : res bytes :=
  view (hit_ProcessData (processDataKey p n)) (Ok (ld_ProcessData (loader c) p n)) (stack c).
Definition view_UTXO c (id : Z) : res UTXO :=
  view (hit_UTXO id) (ld_UTXO (loader c) id) (stack c).

(** The existence tests answer from the same layers. *)
Definition has_of {V} (below : res bool) (o : option (res V)) : res bool :=
  match o with Some (Ok _) => Ok true | Some _ => Ok false | None => below end.
Definition view_HasAccount c (addr : Address) : res bool :=
  has_of (ld_HasAccount (loader c) addr) (layers_hit (hit_Account addr) (stack c)).
Definition view_HasName c (n : bytes) : res bool :=
  has_of (ld_HasAccountName (loader c) n) (layers_hit (hit_Name n) (stack c)).

(** A time slot is asked for in the top layer and the loader only. *)
Definition view_slot c (s : Z) (k : bytes) : bool :=
  match stack c with
  | [] => false
  | d :: _ => slot_has (TimeSlotMap d) s k || ld_HasTimeSlot (loader c) s k
  end.

(** ** Well-formed contexts

    At least one layer, only the first of which may take copies, a coherent
    cache and a consistent loader. *)

Record wf c : Prop := {
  wf_top : ∃ d st, stack c = d :: st ∧ Forall (λ d, isTop d = false) st;
  wf_cache : cache_ok (loader c) (cache c);
  wf_loader : loader_ok (loader c);
}.

(** The first layer takes copies: a context in use, not one that has become
    the loader of the next. *)
Definition active c : Prop := match stack c with d :: _ => isTop d = true | [] => False end.

Lemma NewContext_wf ld : loader_ok ld → wf (NewContext ld).
Proof. intros H. split; [by eexists _, _|apply newContextCache_ok|done]. Qed.

(** ** The abstract state: one answer for every key *)

Record Abs := mkAbs {
  abs_Account : Address → res A;
  abs_HasAccount : Address → res bool;
  abs_Name : bytes → res Address;
  abs_HasName : bytes → res bool;
  abs_AccountData : Address → Z → bytes → res bytes;
  abs_ProcessData : Z → bytes → res bytes;
  abs_UTXO : Z → res UTXO;
  abs_slot : Z → bytes → bool;
}.

(** The abstraction function. *)
Definition abs c : Abs :=
  mkAbs (view_Account c) (view_HasAccount c) (view_Name c) (view_HasName c)
    (view_AccountData c) (view_ProcessData c) (view_UTXO c) (view_slot c).

Record abs_equiv (s1 s2 : Abs) : Prop := {
  eq_Account : ∀ addr, abs_Account s1 addr = abs_Account s2 addr;
  eq_HasAccount : ∀ addr, abs_HasAccount s1 addr = abs_HasAccount s2 addr;
  eq_Name : ∀ n, abs_Name s1 n = abs_Name s2 n;
  eq_HasName : ∀ n, abs_HasName s1 n = abs_HasName s2 n;
  eq_AccountData : ∀ a p n, valid_addr a → valid_pid p →
    abs_AccountData s1 a p n = abs_AccountData s2 a p n;
  eq_ProcessData : ∀ p n, valid_pid p → abs_ProcessData s1 p n = abs_ProcessData s2 p n;
  eq_UTXO : ∀ id, abs_UTXO s1 id = abs_UTXO s2 id;
  eq_slot : ∀ s k, abs_slot s1 s k = abs_slot s2 s k;
}.

#[export] Instance abs_equiv_inst : Equiv Abs := abs_equiv.

#[export] Instance abs_equiv_equivalence : Equivalence (≡@{Abs}).
Proof.
  split.
  - by split.
  - intros x y []; split; intros; symmetry; auto.
  - intros x y z [] []; split; intros; eapply eq_trans; eauto with nocore.
Qed.

(** The events of the top layer and its event counter. *)
Definition top_events c : option (list E * Z) :=
  match stack c with [] => None | d :: _ => Some (Events d, EventN d) end.

(** Contexts with the same header, the same answers and the same events. *)
Record ctx_equiv c1 c2 : Prop := {
  eq_loader : loader c1 = loader c2;
  eq_height : genTargetHeight c1 = genTargetHeight c2;
  eq_last_hash : genLastHash c1 = genLastHash c2;
  eq_timestamp : genTimestamp c1 = genTimestamp c2;
  eq_abs : abs c1 ≡ abs c2;
  eq_events : top_events c1 = top_events c2;
}.

#[export] Instance ctx_equiv_inst : Equiv (Ctx A E) := ctx_equiv.

#[export] Instance ctx_equiv_equivalence : Equivalence (≡@{Ctx A E}).
Proof.
  split.
  - by split.
  - intros x y []; split; by symmetry.
  - intros x y z [] []; split; by etrans.
Qed.

#[export] Instance abs_proper : Proper ((≡) ==> (≡)) abs.
Proof. by intros c1 c2 []. Qed.

(** The abstract operations. *)
Definition abs_set_account_data (a : Address) (p : Z) (n v : bytes) (s : Abs) : Abs :=
  mkAbs (abs_Account s) (abs_HasAccount s) (abs_Name s) (abs_HasName s)
    (λ a' p' n', if decide (a' = a ∧ p' = p ∧ n' = n) then Ok v else abs_AccountData s a' p' n')
    (abs_ProcessData s) (abs_UTXO s) (abs_slot s).
Definition abs_set_process_data (p : Z) (n v : bytes) (s : Abs) : Abs :=
  mkAbs (abs_Account s) (abs_HasAccount s) (abs_Name s) (abs_HasName s) (abs_AccountData s)
    (λ p' n', if decide (p' = p ∧ n' = n) then Ok v else abs_ProcessData s p' n')
    (abs_UTXO s) (abs_slot s).
Definition abs_create_account (acc : A) (s : Abs) : Abs :=
  mkAbs
    (λ a, if decide (a = acc_Address acc) then Ok acc else abs_Account s a)
    (λ a, if decide (a = acc_Address acc) then Ok true else abs_HasAccount s a)
    (λ n, if decide (n = acc_Name acc) then Ok (acc_Address acc) else abs_Name s n)
    (λ n, if decide (n = acc_Name acc) then Ok true else abs_HasName s n)
    (abs_AccountData s) (abs_ProcessData s) (abs_UTXO s) (abs_slot s).
Definition abs_delete_utxo (id : Z) (s : Abs) : Abs :=
  mkAbs (abs_Account s) (abs_HasAccount s) (abs_Name s) (abs_HasName s)
    (abs_AccountData s) (abs_ProcessData s)
    (λ i, if decide (i = id) then Err ErrUsedUTXO else abs_UTXO s i) (abs_slot s).
Definition abs_use_slot (sl : Z) (k : bytes) (s : Abs) : Abs :=
  mkAbs (abs_Account s) (abs_HasAccount s) (abs_Name s) (abs_HasName s)
    (abs_AccountData s) (abs_ProcessData s) (abs_UTXO s)
    (λ sl' k', bool_decide (sl' = sl ∧ k' = k) || abs_slot s sl' k').

#[export] Instance abs_set_account_data_proper a p n v :
  Proper ((≡) ==> (≡)) (abs_set_account_data a p n v).
Proof. intros s1 s2 []. split; simpl; auto. intros. case_decide; auto. Qed.
#[export] Instance abs_set_process_data_proper p n v :
  Proper ((≡) ==> (≡)) (abs_set_process_data p n v).
Proof. intros s1 s2 []. split; simpl; auto. intros. case_decide; auto. Qed.

(** ** Steps that only touch the top layer *)

(** The time slots the top layer itself holds. *)
Definition top_slot c (s : Z) (k : bytes) : bool :=
  match stack c with [] => false | d :: _ => slot_has (TimeSlotMap d) s k end.

(** A layer that keeps its mark and its time slots. *)
Definition keeps_layer d d' : Prop :=
  isTop d' = isTop d ∧ ∀ s k, slot_has (TimeSlotMap d) s k = true → slot_has (TimeSlotMap d') s k = true.

Record top_step c1 c2 : Prop := {
  ts_wf : wf c2;
  ts_loader : loader c2 = loader c1;
  ts_height : genTargetHeight c2 = genTargetHeight c1;
  ts_last_hash : genLastHash c2 = genLastHash c1;
  ts_timestamp : genTimestamp c2 = genTimestamp c1;
  ts_below : tail (stack c2) = tail (stack c1);
  ts_active : active c1 → active c2;
  ts_slots : ∀ s k, top_slot c1 s k = true → top_slot c2 s k = true;
}.

Lemma top_step_refl c : wf c → top_step c c.
Proof. by split. Qed.

Lemma top_step_trans c1 c2 c3 : top_step c1 c2 → top_step c2 c3 → top_step c1 c3.
Proof. intros [] []; split; try congruence; auto. Qed.

Lemma keeps_layer_put d s k : keeps_layer d (set_TimeSlotMap (slot_put (TimeSlotMap d) s k) d).
Proof. split; [done|]. intros s' k' H. cbn [TimeSlotMap set_TimeSlotMap]. by rewrite slot_has_put, H, orb_true_r. Qed.

(** A new top layer that keeps the mark is such a step. *)
Lemma top_step_intro c d st d' cc b h :
  wf c → stack c = d :: st → keeps_layer d d' → cache_ok (loader c) cc →
  top_step c (set_latest b h (set_stack (d' :: st) (set_cache cc c))).
Proof.
  intros [(d0 & st0 & H0 & Hst) Hc Hl] Hs [Hd Hsl] Hcc. rewrite Hs in H0. simplify_eq.
  split; simpl; rewrite ?Hs; try done;
    [|by unfold active; simpl; rewrite Hs, Hd|by unfold top_slot; simpl; rewrite Hs].
  split; simpl; [|done..]. by exists d', st0.
Qed.

(** *** The five reads *)

Section Reads.
Context {V : Type} (hit : ContextData A E → option (res V)).
Context (fill : V → ContextData A E → ContextData A E) (clone : V → V) (keep : V → bool).
Context (load : Loader A → ContextCache A → res V * ContextCache A).

Definition fills_top : Prop := ∀ v d, isTop (fill v d) = isTop d.

Lemma filled_field {X} (f : ContextData A E → X) r d :
  (∀ v d, f (fill v d) = f d) → f (filled hit fill keep r d) = f d.
Proof. intros H. unfold filled. repeat case_match; auto. Qed.

Lemma run_read_spec c below :
  (∀ v, clone v = v) → fills_top → wf c →
  (∀ cc, cache_ok (loader c) cc →
     ∃ cc', load (loader c) cc = (below, cc') ∧ cache_ok (loader c) cc') →
  ∃ d st cc', stack c = d :: st ∧ cache_ok (loader c) cc' ∧
    run_read hit fill clone keep load c
    = (view hit below (stack c),
       set_stack (filled hit fill keep (view hit below (stack c)) d :: st) (set_cache cc' c)).
Proof.
  intros Hclone Hfill Hwf Hload. destruct (wf_top c Hwf) as (d & st & Hs & Hst).
  destruct (Hload _ (wf_cache c Hwf)) as (cc' & Hl & Hcc).
  exists d, st. unfold run_read. rewrite Hs.
  rewrite (read_through_spec hit fill clone Hclone keep _ _ _ _ below cc' Hst Hl).
  destruct (layers_hit hit (d :: st)); [exists (cache c)|exists cc']; split_and!; try done.
  apply (wf_cache c Hwf).
Qed.
End Reads.

(** [d'] is [d], or [d] with a copy of the answer [r] it did not have. *)
Definition copied {V} (hit : ContextData A E → option (res V)) (r : res V) d d' : Prop :=
  hit d' = hit d ∨ (hit d = None ∧ ∃ v, r = Ok v ∧ hit d' = Some (Ok v)).

Lemma copied_view {V} (hit : ContextData A E → option (res V)) below d d' st :
  copied hit (view hit below (d :: st)) d d' →
  view hit below (d' :: st) = view hit below (d :: st).
Proof.
  intros [H|(Hd & v & Hv & Hd')]; [by apply view_top|].
  rewrite Hv. unfold view. simpl. by rewrite Hd'.
Qed.

Lemma copied_has {V} (hit : ContextData A E → option (res V)) below hb d d' st :
  copied hit (view hit below (d :: st)) d d' →
  (∀ v, below = Ok v → hb = Ok true) →
  has_of hb (layers_hit hit (d' :: st)) = has_of hb (layers_hit hit (d :: st)).
Proof.
  intros [H|(Hd & v & Hv & Hd')] Hb; simpl.
  - by rewrite H.
  - unfold view in Hv. simpl in Hv. rewrite Hd' , Hd in *. simpl.
    destruct (layers_hit hit st) as [r|]; simplify_eq/=; [done|]. symmetry. eauto.
Qed.

Lemma filled_copied {V} (hit : ContextData A E → option (res V)) fill keep r d :
  (∀ v, hit d = None → hit (fill v d) = Some (Ok v)) →
  copied hit r d (filled hit fill keep r d).
Proof.
  intros H. unfold filled, copied. destruct (hit d) eqn:Hd; [by left|].
  destruct r as [v|e|]; [|by left..]. destruct (keep v && isTop d); [|by left].
  right. eauto.
Qed.

Lemma other_copied {V W} (hit : ContextData A E → option (res V)) (hit' : _ → option (res W))
    fill keep r r' d :
  (∀ v d, hit' (fill v d) = hit' d) → copied hit' r' d (filled hit fill keep r d).
Proof. intros H. left. by apply filled_field. Qed.

(** Copies in the top layer leave an equivalent context. *)
Lemma equiv_top c d st d' cc b h :
  wf c → stack c = d :: st →
  (∀ a, copied (hit_Account a) (view_Account c a) d d') →
  (∀ n, copied (hit_Name n) (view_Name c n) d d') →
  (∀ a p n, valid_addr a → valid_pid p →
     copied (hit_AccountData (accountDataKey a p n)) (view_AccountData c a p n) d d') →
  (∀ p n, valid_pid p →
     copied (hit_ProcessData (processDataKey p n)) (view_ProcessData c p n) d d') →
  (∀ id, copied (hit_UTXO id) (view_UTXO c id) d d') →
  (∀ s k, slot_has (TimeSlotMap d') s k || ld_HasTimeSlot (loader c) s k
          = slot_has (TimeSlotMap d) s k || ld_HasTimeSlot (loader c) s k) →
  (Events d', EventN d') = (Events d, EventN d) →
  set_latest b h (set_stack (d' :: st) (set_cache cc c)) ≡ c.
Proof.
  intros Hwf Hs HA HN HAD HPD HU HT HE.
  unfold view_Account, view_Name, view_AccountData, view_ProcessData, view_UTXO in *.
  rewrite Hs in *. pose proof (wf_loader c Hwf) as [Hl1 Hl2].
  split; try done; [|by unfold top_events; simpl; rewrite Hs, HE]. split; simpl;
    unfold view_Account, view_HasAccount, view_Name, view_HasName, view_AccountData,
      view_ProcessData, view_UTXO, view_slot; simpl; rewrite Hs; intros;
    eauto using copied_view, copied_has.
Qed.

Lemma hit_fill_Account a a' v d :
  hit_Account a d = None →
  hit_Account a' (fill_Account a v d) = if decide (a' = a) then Some (Ok v) else hit_Account a' d.
Proof.
  unfold hit_Account, fill_Account. simpl. intros H. destruct (decide (a' = a)) as [->|Hne].
  - rewrite lookup_insert_eq. by destruct (DeletedAccountMap d !! a).
  - by rewrite lookup_insert_ne.
Qed.

Lemma hit_fill_Name n n' v d :
  hit_Name n' (fill_Name n v d) = if decide (n' = n) then Some (Ok v) else hit_Name n' d.
Proof.
  unfold hit_Name, fill_Name. simpl. destruct (decide (n' = n)) as [->|Hne].
  - by rewrite lookup_insert_eq.
  - by rewrite lookup_insert_ne.
Qed.

Lemma hit_fill_UTXO a a' v d :
  hit_UTXO a d = None →
  hit_UTXO a' (fill_UTXO a v d) = if decide (a' = a) then Some (Ok v) else hit_UTXO a' d.
Proof.
  unfold hit_UTXO, fill_UTXO. simpl. intros H. destruct (decide (a' = a)) as [->|Hne].
  - rewrite lookup_insert_eq. by destruct (DeletedUTXOMap d !! a).
  - by rewrite lookup_insert_ne.
Qed.

(** Copies of one kind: the keyed form of [filled_copied]. *)
Lemma filled_copied_key {K V} `{EqDecision K} (hit : K → ContextData A E → option (res V)) fill keep
    (r : K → res V) k k' d :
  (∀ v, hit k d = None → ∀ k', hit k' (fill k v d) = if decide (k' = k) then Some (Ok v) else hit k' d) →
  copied (hit k') (r k') d (filled (hit k) (fill k) keep (r k) d).
Proof.
  intros H. unfold filled, copied. destruct (hit k d) eqn:Hd; [by left|].
  destruct (r k) as [v|e|] eqn:Hr; [|by left..]. destruct (keep v && isTop d); [|by left].
  rewrite H by done. destruct (decide (k' = k)) as [->|]; [|by left].
  right. eauto.
Qed.

(** A read promises the view of its key, and an equivalent context. *)
Definition reads {V} (m : M (Ctx A E) V) (v : Ctx A E → res V) : Prop :=
  ∀ c, wf c → ∃ c', m c = (v c, c') ∧ top_step c c' ∧ c' ≡ c.

Lemma set_latest_id c : set_latest (isLatestHash c) (dataHash c) c = c.
Proof. by destruct c. Qed.

(** A [run_read] is such a read when what it copies into the top layer is
    the answer for its key and nothing else. *)
Lemma reads_intro {V} (hit : ContextData A E → option (res V)) fill clone keep load
    (below : Loader A → res V) :
  (∀ v, clone v = v) → (∀ v d, isTop (fill v d) = isTop d) →
  (∀ v d, TimeSlotMap (fill v d) = TimeSlotMap d) →
  (∀ v d, (Events (fill v d), EventN (fill v d)) = (Events d, EventN d)) →
  (∀ ld cc, cache_ok ld cc → ∃ cc', load ld cc = (below ld, cc') ∧ cache_ok ld cc') →
  (∀ c d, let d' := filled hit fill keep (view hit (below (loader c)) (stack c)) d in
     (∀ a, copied (hit_Account a) (view_Account c a) d d') ∧
     (∀ n, copied (hit_Name n) (view_Name c n) d d') ∧
     (∀ a p n, valid_addr a → valid_pid p →
        copied (hit_AccountData (accountDataKey a p n)) (view_AccountData c a p n) d d') ∧
     (∀ p n, valid_pid p →
        copied (hit_ProcessData (processDataKey p n)) (view_ProcessData c p n) d d') ∧
     (∀ id, copied (hit_UTXO id) (view_UTXO c id) d d')) →
  reads (run_read hit fill clone keep load) (λ c, view hit (below (loader c)) (stack c)).
Proof.
  intros Hclone Htop Hslot Hev Hload Hcopy c Hwf.
  destruct (run_read_spec hit fill clone keep load c (below (loader c)) Hclone Htop Hwf
    (Hload (loader c))) as (d & st & cc & Hs & Hcc & Hr).
  rewrite <- (set_latest_id (set_stack _ _)) in Hr.
  destruct (Hcopy c d) as (H1 & H2 & H3 & H4 & H5).
  eexists; split; [exact Hr|]. split.
  - eapply top_step_intro; eauto. split; [by rewrite filled_field|]. intros. by rewrite filled_field.
  - eapply equiv_top; eauto.
    + intros. by rewrite filled_field.
    + by apply (filled_field _ _ _ (λ d, (Events d, EventN d))).
Qed.

Lemma read_Account addr : reads (ctd_Account addr) (λ c, view_Account c addr).
Proof.
  apply (reads_intro (hit_Account addr) (fill_Account addr) acc_Clone _ _
    (λ ld, ld_Account ld addr)); try done; [apply acc_Clone_id|intros; by apply cc_Account_spec|].
  intros c d; split_and!; intros; try (apply other_copied; by intros).
  apply (filled_copied_key hit_Account fill_Account _ (view_Account c)).
  auto using hit_fill_Account.
Qed.

Lemma read_AddressByName n : reads (ctd_AddressByName n) (λ c, view_Name c n).
Proof.
  apply (reads_intro (hit_Name n) (fill_Name n) id _ _ (λ ld, ld_AddressByName ld n));
    try done; [intros; by apply cc_AddressByName_spec|].
  intros c d; split_and!; intros; try (apply other_copied; by intros).
  apply (filled_copied_key hit_Name fill_Name _ (view_Name c)). auto using hit_fill_Name.
Qed.

Lemma read_UTXO id : reads (ctd_UTXO id) (λ c, view_UTXO c id).
Proof.
  apply (reads_intro (hit_UTXO id) (fill_UTXO id) (λ u, u) _ _ (λ ld, ld_UTXO ld id));
    try done; [intros; by apply cc_UTXO_spec|].
  intros c d; split_and!; intros; try (apply other_copied; by intros).
  apply (filled_copied_key hit_UTXO fill_UTXO _ (view_UTXO c)). auto using hit_fill_UTXO.
Qed.

Lemma read_AccountData a p n :
  valid_addr a → valid_pid p → reads (ctd_AccountData a p n) (λ c, view_AccountData c a p n).
Proof.
  intros Ha Hp. apply (reads_intro (hit_AccountData (accountDataKey a p n))
    (fill_AccountData (accountDataKey a p n)) id _ _ (λ ld, Ok (ld_AccountData ld a p n))); try done.
  { intros. by apply cc_AccountData_spec. }
  intros c d; split_and!; intros; try (apply other_copied; by intros).
  destruct (decide (accountDataKey a0 p0 n0 = accountDataKey a p n)) as [He|Hne].
  - apply accountDataKey_inj in He as (-> & -> & ->); try done.
    apply filled_copied. intros v Hd. unfold hit_AccountData, fill_AccountData. simpl.
    by rewrite ov_hit_fill, decide_True.
  - unfold filled. destruct (hit_AccountData _ d) eqn:Hd; [by left|].
    destruct (view _ _ _) as [v|e|]; [|by left..]. destruct (nonempty v && isTop d); [|by left].
    left. unfold hit_AccountData, fill_AccountData. simpl. by rewrite ov_hit_fill, decide_False.
Qed.

Lemma read_ProcessData p n :
  valid_pid p → reads (ctd_ProcessData p n) (λ c, view_ProcessData c p n).
Proof.
  intros Hp. apply (reads_intro (hit_ProcessData (processDataKey p n))
    (fill_ProcessData (processDataKey p n)) id _ _ (λ ld, Ok (ld_ProcessData ld p n))); try done.
  { intros. by apply cc_ProcessData_spec. }
  intros c d; split_and!; intros; try (apply other_copied; by intros).
  destruct (decide (processDataKey p0 n0 = processDataKey p n)) as [He|Hne].
  - apply processDataKey_inj in He as (-> & ->); try done.
    apply filled_copied. intros v Hd. unfold hit_ProcessData, fill_ProcessData. simpl.
    by rewrite ov_hit_fill, decide_True.
  - unfold filled. destruct (hit_ProcessData _ d) eqn:Hd; [by left|].
    destruct (view _ _ _) as [v|e|]; [|by left..]. destruct (nonempty v && isTop d); [|by left].
    left. unfold hit_ProcessData, fill_ProcessData. simpl. by rewrite ov_hit_fill, decide_False.
Qed.

(** The context level adds the reset of the hash flag. *)
Lemma dirty_step c : wf c → top_step c (dirty c) ∧ dirty c ≡ c.
Proof. intros H. split; [|by split]. by split; [destruct H; split|..]. Qed.

Lemma reads_dirty {V} (m : M (Ctx A E) V) v :
  reads m v → (∀ c, v (dirty c) = v c) → reads (modify dirty ;; m) v.
Proof.
  intros Hm Hv c Hwf. destruct (dirty_step c Hwf) as [Hs He].
  destruct (Hm (dirty c) (ts_wf _ _ Hs)) as (c' & Hr & Hs' & He').
  exists c'. split; [|split; [by eapply top_step_trans|by etrans]].
  unfold mbind, M_bind, modify. by rewrite Hr, Hv.
Qed.

(** The existence tests change nothing at all. *)
Lemma ctd_HasAccount_view c addr :
  wf c → ctd_HasAccount (loader c) (cache c) (stack c) addr = view_HasAccount c addr.
Proof.
  intros [(d & st & Hs & _) Hc Hl]. unfold view_HasAccount. rewrite Hs. clear Hs.
  revert d. induction st as [|d' st IH]; intros d; simpl; unfold hit_Account at 1.
  - destruct (DeletedAccountMap d !! addr), (AccountMap d !! addr); simpl; try done.
    unfold cc_HasAccount. destruct (cc_AccountMap _ !! addr) as [acc|] eqn:E0; [|done].
    symmetry. eapply lo_account, co_account; eauto.
  - destruct (DeletedAccountMap d !! addr), (AccountMap d !! addr); simpl; try done. apply IH.
Qed.

Lemma ctd_HasName_view c n :
  wf c → ctd_HasAccountName (loader c) (cache c) (stack c) n = view_HasName c n.
Proof.
  intros [(d & st & Hs & _) Hc Hl]. unfold view_HasName. rewrite Hs. clear Hs.
  revert d. induction st as [|d' st IH]; intros d; simpl; unfold hit_Name at 1.
  - destruct (AccountNameMap d !! n); simpl; [done|].
    unfold cc_HasAccountName. destruct (cc_AccountNameMap _ !! n) as [acc|] eqn:E0; [|done].
    symmetry. eapply lo_name, co_name; eauto.
  - destruct (AccountNameMap d !! n); simpl; [done|]. apply IH.
Qed.

Lemma read_HasAccount addr : reads (HasAccount addr) (λ c, view_HasAccount c addr).
Proof.
  intros c Hwf. exists c. unfold HasAccount. rewrite ctd_HasAccount_view by done.
  split; [done|]. split; [by apply top_step_refl|done].
Qed.

Lemma read_HasAccountName n : reads (HasAccountName n) (λ c, view_HasName c n).
Proof.
  intros c Hwf. exists c. unfold HasAccountName. rewrite ctd_HasName_view by done.
  split; [done|]. split; [by apply top_step_refl|done].
Qed.

Lemma read_HasTimeSlot s k : reads (HasTimeSlot s k) (λ c, Ok (view_slot c s k)).
Proof.
  intros c Hwf. destruct (wf_top c Hwf) as (d & st & Hs & Hst).
  unfold HasTimeSlot, ctd_HasTimeSlot, view_slot. rewrite Hs.
  destruct (slot_has (TimeSlotMap d) s k) eqn:Hd.
  { exists c. split; [done|]. split; [by apply top_step_refl|done]. }
  destruct (cc_HasTimeSlot_spec (loader c) s k (cache c) (wf_cache c Hwf)) as (cc & -> & Hcc).
  destruct (ld_HasTimeSlot (loader c) s k) eqn:Hl; simpl.
  - rewrite <- (set_latest_id (set_stack _ _)).
    eexists; split; [done|]. split.
    + eapply top_step_intro; eauto using keeps_layer_put.
    + eapply equiv_top; eauto; intros; try by left. simpl. rewrite slot_has_put.
      case_bool_decide as Hsk; [|done]. destruct Hsk as [-> ->]. by rewrite Hl, !orb_true_r.
  - replace (set_cache cc c) with (set_latest (isLatestHash c) (dataHash c)
      (set_stack (d :: st) (set_cache cc c))) by (rewrite <- Hs; by destruct c).
    eexists; split; [done|]. split.
    + by eapply top_step_intro; eauto; split.
    + eapply equiv_top; eauto; intros; by left.
Qed.

(** *** Writes *)

(** A write that succeeds, touches the top layer only, and changes the
    abstract state as [f] does. *)
Definition writes (m : M (Ctx A E) unit) c (f : Abs → Abs) : Prop :=
  ∃ c', m c = (Ok tt, c') ∧ top_step c c' ∧ abs c' ≡ f (abs c).

Lemma with_top_step (f : ContextData A E → ContextData A E) c :
  wf c → (∀ d, keeps_layer d (f d)) →
  ∃ d st, stack c = d :: st ∧ with_top f c = (Ok tt, set_stack (f d :: st) c) ∧
    top_step c (set_stack (f d :: st) c).
Proof.
  intros Hwf Hf. destruct (wf_top c Hwf) as (d & st & Hs & _).
  exists d, st. unfold with_top. rewrite Hs. split; [done|]. split; [done|].
  replace (set_stack (f d :: st) c) with
    (set_latest (isLatestHash c) (dataHash c) (set_stack (f d :: st) (set_cache (cache c) c)))
    by (by destruct c).
  eapply top_step_intro; eauto. apply Hwf.
Qed.

Lemma writes_dirty m c f :
  (∀ c, wf c → writes m c f) → wf c → writes (modify dirty ;; m) c f.
Proof.
  intros Hm Hwf. destruct (dirty_step c Hwf) as [Hs _].
  destruct (Hm (dirty c) (ts_wf _ _ Hs)) as (c' & Hr & Hs' & He').
  exists c'. split; [done|]. split; [by eapply top_step_trans|done].
Qed.

(** The keyed answer of a stack after a change of its top layer. *)
Lemma view_set {V} (hit : ContextData A E → option (res V)) below d d' st r :
  hit d' = Some r → view hit below (d' :: st) = r.
Proof. intros H. unfold view. simpl. by rewrite H. Qed.

Lemma write_AccountData a p n v c :
  valid_addr a → valid_pid p → wf c →
  writes (ctd_SetAccountData a p n v) c (abs_set_account_data a p n v).
Proof.
  intros Ha Hp Hwf. unfold writes, ctd_SetAccountData.
  destruct (with_top_step (λ d, set_AccountDataOv
    (ov_set (accountDataKey a p n) v (AccountDataOv d)) d) c Hwf) as (d & st & Hs & Hr & Ht); [done|].
  eexists; split; [exact Hr|]. split; [done|].
  split; simpl; try done;
    unfold view_Account, view_HasAccount, view_Name, view_HasName, view_AccountData,
      view_ProcessData, view_UTXO, view_slot; simpl; rewrite Hs; try done.
  intros a' p' n' Ha' Hp'. unfold view. simpl. unfold hit_AccountData at 1. simpl.
  rewrite ov_hit_set. destruct (decide (accountDataKey a' p' n' = _)) as [He|Hne].
  - apply accountDataKey_inj in He as (-> & -> & ->); try done. by rewrite decide_True.
  - rewrite decide_False by naive_solver. done.
Qed.

Lemma write_ProcessData p n v c :
  valid_pid p → wf c →
  writes (ctd_SetProcessData p n v) c (abs_set_process_data p n v).
Proof.
  intros Hp Hwf. unfold writes, ctd_SetProcessData.
  destruct (with_top_step (λ d, set_ProcessDataOv
    (ov_set (processDataKey p n) v (ProcessDataOv d)) d) c Hwf) as (d & st & Hs & Hr & Ht); [done|].
  eexists; split; [exact Hr|]. split; [done|].
  split; simpl; try done;
    unfold view_Account, view_HasAccount, view_Name, view_HasName, view_AccountData,
      view_ProcessData, view_UTXO, view_slot; simpl; rewrite Hs; try done.
  intros p' n' Hp'. unfold view. simpl. unfold hit_ProcessData at 1. simpl.
  rewrite ov_hit_set. destruct (decide (processDataKey p' n' = _)) as [He|Hne].
  - apply processDataKey_inj in He as (-> & ->); try done. by rewrite decide_True.
  - rewrite decide_False by naive_solver. done.
Qed.

(** What [CreateAccount] demands of a new account. *)
Definition creatable (acc : A) c : Prop :=
  Height (acc_Address acc) = genTargetHeight c ∧ acc_Address acc ≠ emptyAddr ∧
  ParseAddress (acc_Name acc) = None ∧
  view_HasAccount c (acc_Address acc) = Ok false ∧ view_HasName c (acc_Name acc) = Ok false.

Definition put_account (acc : A) d : ContextData A E :=
  set_AccountNameMap (<[acc_Name acc := acc_Address acc]> (AccountNameMap d))
    (set_AccountMap (<[acc_Address acc := acc]> (AccountMap d)) d).

(** [CreateAccount] of such an account is the change of the top layer. *)
Lemma create_account_creatable ign acc c :
  wf c → creatable acc c → create_account ign acc c = with_top (put_account acc) c.
Proof.
  intros Hwf (Hh & He & Hp & HA & HN). unfold create_account.
  unfold mbind, M_bind, get, guard_err, must_be_new.
  rewrite Hh, Z.eqb_refl, ctd_HasAccount_view, ctd_HasName_view, HA, HN by done. simpl.
  rewrite bool_decide_eq_false_2 by done. rewrite Hp. simpl. done.
Qed.

(** It refuses every other account, unless a loader answers the existence
    test with an error that the caller ignores. *)
Lemma create_account_inv ign acc c c' :
  wf c → create_account ign acc c = (Ok tt, c') →
  Height (acc_Address acc) = genTargetHeight c ∧ acc_Address acc ≠ emptyAddr ∧
  ParseAddress (acc_Name acc) = None ∧
  view_HasAccount c (acc_Address acc) ≠ Ok true ∧ view_HasName c (acc_Name acc) ≠ Ok true ∧
  with_top (put_account acc) c = (Ok tt, c').
Proof.
  intros Hwf. unfold create_account, get. unfold mbind, M_bind, guard_err, must_be_new.
  rewrite ctd_HasAccount_view, ctd_HasName_view by done.
  destruct (Z.eqb_spec (Height (acc_Address acc)) (genTargetHeight c)); simpl; [|done].
  case_bool_decide; simpl; [done|].
  destruct (ParseAddress (acc_Name acc)); simpl; [done|].
  destruct (view_HasAccount c _) as [[]|e1|]; simpl; try done; try (destruct (ign e1); [|done]);
    (destruct (view_HasName c _) as [[]|e2|]; simpl; try done; try (destruct (ign e2); [|done]));
    intros; split_and!; done.
Qed.

Local Ltac unfold_views :=
  unfold view_Account, view_HasAccount, view_Name, view_HasName, view_AccountData,
    view_ProcessData, view_UTXO, view_slot in *; simpl.

Lemma hit_put_Account acc a d :
  DeletedAccountMap d !! acc_Address acc = None →
  hit_Account a (put_account acc d)
  = if decide (a = acc_Address acc) then Some (Ok acc) else hit_Account a d.
Proof.
  intros Hd. unfold hit_Account, put_account. simpl. destruct (decide (a = _)) as [->|Hne].
  - by rewrite Hd, lookup_insert_eq.
  - by rewrite lookup_insert_ne.
Qed.

Lemma hit_put_Name acc n d :
  hit_Name n (put_account acc d)
  = if decide (n = acc_Name acc) then Some (Ok (acc_Address acc)) else hit_Name n d.
Proof.
  unfold hit_Name, put_account. simpl. destruct (decide (n = _)) as [->|Hne].
  - by rewrite lookup_insert_eq.
  - by rewrite lookup_insert_ne.
Qed.

Lemma write_CreateAccount ign acc c :
  wf c → creatable acc c → view_Account c (acc_Address acc) ≠ Err ErrDeletedAccount →
  writes (create_account ign acc) c (abs_create_account acc).
Proof.
  intros Hwf Hc Hd. unfold writes. rewrite create_account_creatable by done.
  destruct (with_top_step (put_account acc) c Hwf) as (d & st & Hs & Hr & Ht); [done|].
  eexists; split; [exact Hr|]. split; [done|].
  assert (Hnd : DeletedAccountMap d !! acc_Address acc = None).
  { destruct (DeletedAccountMap d !! _) eqn:E0; [|done]. destruct Hd.
    unfold view_Account, view. rewrite Hs. simpl. unfold hit_Account at 1. by rewrite E0. }
  split; simpl; intros; unfold_views; rewrite Hs; try done; unfold view; simpl;
    rewrite ?hit_put_Account, ?hit_put_Name by done; by case_decide.
Qed.

(** An account that is created again after its deletion in the same layer
    stays unreadable: the deletion mark is not cleared. *)
Lemma create_after_delete_unreadable ign acc c c' d st a0 :
  wf c → stack c = d :: st → DeletedAccountMap d !! acc_Address acc = Some a0 →
  create_account ign acc c = (Ok tt, c') →
  view_Account c' (acc_Address acc) = Err ErrDeletedAccount.
Proof.
  intros Hwf Hs Hd Hc. apply create_account_inv in Hc as (_ & _ & _ & _ & _ & Hc); [|done].
  unfold with_top in Hc. rewrite Hs in Hc. simplify_eq.
  unfold view_Account, view, hit_Account. simpl. by rewrite Hd.
Qed.

(** [DeleteAccount]: the account must exist; then it is gone and every other
    account, and all data, is as before. *)
Lemma write_DeleteAccount acc c :
  wf c →
  match view_Account c (acc_Address acc) with
  | Ok _ => ∃ c', ctd_DeleteAccount acc c = (Ok tt, c') ∧ top_step c c' ∧
      (∀ a, view_Account c' a = if decide (a = acc_Address acc) then Err ErrDeletedAccount
                                else view_Account c a) ∧
      (∀ a, view_HasAccount c' a = if decide (a = acc_Address acc) then Ok false
                                   else view_HasAccount c a) ∧
      (∀ a p n, valid_addr a → valid_pid p → view_AccountData c' a p n = view_AccountData c a p n) ∧
      (∀ p n, valid_pid p → view_ProcessData c' p n = view_ProcessData c p n)
  | Err e => ∃ c', ctd_DeleteAccount acc c = (Err e, c') ∧ top_step c c' ∧ c' ≡ c
  | Panic => ∃ c', ctd_DeleteAccount acc c = (Panic, c') ∧ top_step c c' ∧ c' ≡ c
  end.
Proof.
  intros Hwf. unfold ctd_DeleteAccount, mbind, M_bind.
  destruct (read_Account (acc_Address acc) c Hwf) as (c1 & -> & Hs1 & He1).
  destruct (view_Account c _) as [a0|e|]; [|by eauto..].
  destruct (with_top_step (λ d, set_AccountNameMap (delete (acc_Name acc) (AccountNameMap d))
    (set_AccountMap (delete (acc_Address acc) (AccountMap d))
      (set_DeletedAccountMap (<[acc_Address acc := acc]> (DeletedAccountMap d)) d)))
    c1 (ts_wf _ _ Hs1)) as (d & st & Hs & Hr & Ht); [done|].
  eexists; split; [exact Hr|]. split; [by eapply top_step_trans|].
  destruct He1 as [_ _ _ _ [HA HH _ _ HD HP _ _] _]. simpl in *.
  split_and!; intros; [rewrite <- HA|rewrite <- HH|rewrite <- HD by done|rewrite <- HP by done];
    unfold_views; rewrite Hs; unfold view; simpl; try done;
    unfold hit_Account at 1; simpl; case_decide; subst.
  - by rewrite lookup_insert_eq.
  - by rewrite lookup_insert_ne, lookup_delete_ne.
  - by rewrite lookup_insert_eq.
  - by rewrite lookup_insert_ne, lookup_delete_ne.
Qed.

(** A spent output stays spent; [DeleteUTXO] refuses it the second time. *)
Lemma write_DeleteUTXO u c :
  wf c →
  match view_UTXO c (UTXO_ID u) with
  | Ok _ => writes (ctd_DeleteUTXO u) c (abs_delete_utxo (UTXO_ID u))
  | Err e => ∃ c', ctd_DeleteUTXO u c = (Err e, c') ∧ top_step c c' ∧ c' ≡ c
  | Panic => ∃ c', ctd_DeleteUTXO u c = (Panic, c') ∧ top_step c c' ∧ c' ≡ c
  end.
Proof.
  intros Hwf. unfold writes, ctd_DeleteUTXO, mbind, M_bind.
  destruct (read_UTXO (UTXO_ID u) c Hwf) as (c1 & -> & Hs1 & He1).
  destruct (view_UTXO c _) as [a0|e|]; [|by eauto..].
  destruct (with_top_step (λ d, set_DeletedUTXOMap (<[UTXO_ID u := u]> (DeletedUTXOMap d)) d)
    c1 (ts_wf _ _ Hs1)) as (d & st & Hs & Hr & Ht); [done|].
  eexists; split; [exact Hr|]. split; [by eapply top_step_trans|].
  destruct He1 as [_ _ _ _ [HA HH HN HNN HD HP HU HS] _]. simpl in *.
  split; simpl; intros; rewrite <- ?HA, <- ?HH, <- ?HN, <- ?HNN, <- ?HD, <- ?HP, <- ?HU, <- ?HS by done;
    unfold_views; rewrite Hs; try done.
  unfold view; simpl; unfold hit_UTXO at 1; simpl; case_decide; subst.
  - by rewrite lookup_insert_eq.
  - by rewrite lookup_insert_ne.
Qed.

(** [CreateUTXO] demands an unknown identifier and changes no answer: an
    output is not readable in the block that creates it. *)
Lemma write_CreateUTXO id vout c :
  wf c →
  match view_UTXO c id with
  | Err ErrNotExistUTXO => ∃ c', ctd_CreateUTXO id vout c = (Ok tt, c') ∧ top_step c c' ∧ c' ≡ c
  | Ok _ => ∃ c', ctd_CreateUTXO id vout c = (Err ErrExistUTXO, c') ∧ top_step c c' ∧ c' ≡ c
  | Err e => ∃ c', ctd_CreateUTXO id vout c = (Err e, c') ∧ top_step c c' ∧ c' ≡ c
  | Panic => ∃ c', ctd_CreateUTXO id vout c = (Panic, c') ∧ top_step c c' ∧ c' ≡ c
  end.
Proof.
  intros Hwf. unfold ctd_CreateUTXO, mbind, M_bind, try.
  destruct (read_UTXO id c Hwf) as (c1 & -> & Hs1 & He1).
  destruct (view_UTXO c _) as [a0|e|]; [by eauto| |by eauto].
  destruct (decide (e = ErrNotExistUTXO)) as [->|Hne].
  - destruct (with_top_step (λ d, set_CreatedUTXOMap (<[id := vout]> (CreatedUTXOMap d)) d)
      c1 (ts_wf _ _ Hs1)) as (d & st & Hs & Hr & Ht); [done|].
    simpl. eexists; split; [exact Hr|]. split; [by eapply top_step_trans|].
    etrans; [|exact He1]. split; try done; [|by unfold top_events; simpl; rewrite Hs].
    split; simpl; intros; unfold_views; rewrite Hs; done.
  - assert (∃ c', (let (r, s') := guard_err (negb (bool_decide (e = ErrNotExistUTXO))) e c1 in
       match r with
       | Ok _ => with_top (λ d, set_CreatedUTXOMap (<[id := vout]> (CreatedUTXOMap d)) d) s'
       | Err e => (Err e, s') | Panic => (Panic, s') end) = (Err e, c') ∧ top_step c c' ∧ c' ≡ c).
    { rewrite bool_decide_eq_false_2 by done. simpl. eauto. }
    by destruct e.
Qed.

(** [UseTimeSlot] accepts a slot once. *)
Lemma write_UseTimeSlot s k c :
  wf c →
  if view_slot c s k
  then ∃ c', ctd_UseTimeSlot s k c = (Err ErrUsedTimeSlot, c') ∧ top_step c c' ∧ c' ≡ c
  else writes (ctd_UseTimeSlot s k) c (abs_use_slot s k).
Proof.
  intros Hwf. destruct (wf_top c Hwf) as (d & st & Hs & Hst).
  unfold writes, ctd_UseTimeSlot, view_slot. rewrite Hs.
  destruct (slot_has (TimeSlotMap d) s k) eqn:Hd; simpl.
  { exists c. split; [done|]. split; [by apply top_step_refl|done]. }
  destruct (cc_HasTimeSlot_spec (loader c) s k (cache c) (wf_cache c Hwf)) as (cc & -> & Hcc).
  rewrite <- (set_latest_id (set_stack _ _)).
  destruct (ld_HasTimeSlot (loader c) s k) eqn:Hl; simpl.
  - eexists; split; [done|]. split; [by eapply top_step_intro; eauto using keeps_layer_put|].
    eapply equiv_top; eauto; intros; try by left. simpl. rewrite slot_has_put.
    case_bool_decide as Hsk; [|done]. destruct Hsk as [-> ->]. by rewrite Hl, !orb_true_r.
  - eexists; split; [done|]. split; [by eapply top_step_intro; eauto using keeps_layer_put|].
    split; simpl; intros; unfold_views; rewrite Hs; try done.
    by rewrite slot_has_put, orb_assoc.
Qed.

Lemma write_EmitEvent e c : wf c → writes (ctd_EmitEvent e) c id.
Proof.
  intros Hwf. unfold writes, ctd_EmitEvent.
  destruct (with_top_step (λ d, set_Events (Events d ++ [ev_SetN (EventN d) e])
    (set_EventN (u16 (EventN d + 1)) d)) c Hwf) as (d & st & Hs & Hr & Ht); [done|].
  eexists; split; [exact Hr|]. split; [done|].
  split; simpl; intros; unfold_views; rewrite Hs; done.
Qed.

(** *** Snapshots *)

(** [Snapshot] pushes an empty layer.  Every answer stays, except that a time
    slot used in a covered layer is forgotten. *)
Lemma Snapshot_spec c d st :
  wf c → stack c = d :: st →
  ∃ c', Snapshot c = (Ok (S (length (stack c))), c') ∧ wf c' ∧
    loader c' = loader c ∧ genTargetHeight c' = genTargetHeight c ∧
    stack c' = NewContextData (Some d) :: set_isTop false d :: st.
Proof.
  intros Hwf Hs. unfold Snapshot. simpl. rewrite Hs. eexists; split; [done|].
  destruct Hwf as [(d0 & st0 & H0 & Hst) Hc Hl]. rewrite Hs in H0. simplify_eq.
  split_and!; try done. split; try done. simpl. eexists _, _. split; [done|].
  by constructor.
Qed.

(** [Revert] to a snapshot number drops the layers above it. *)
Lemma Revert_spec c new d st :
  stack c = new ++ d :: st →
  new ≠ [] →
  Revert (S (length (d :: st))) c = (Ok tt, set_stack (set_isTop true d :: st) (dirty c)).
Proof.
  intros Hs Hn. unfold Revert. simpl stack. rewrite Hs, length_app.
  destruct new as [|n new]; [done|]. simpl length.
  replace (S (S (length st)) <=? S (length new) + S (length st))%nat with true
    by (symmetry; apply Nat.leb_le; lia).
  change (S (S (length st)) =? 0)%nat with false. simpl andb. cbv iota.
  replace (S (length new) + S (length st) - (S (S (length st)) - 1))%nat with (length (n :: new))
    by (simpl; lia).
  rewrite drop_app_length. done.
Qed.

(** The loop of [Commit] folds the layers down to the snapshot number. *)
Lemma commit_loop_spec sn (ctd : ContextData A E) (below : list (ContextData A E)) :
  (2 ≤ sn)%nat →
  ∃ mid rest, below = mid ++ rest ∧ length rest = (length below `min` (sn - 2))%nat ∧
    commit_loop sn ctd below = Ok (foldl merge_layer ctd mid :: rest).
Proof.
  intros Hsn. revert ctd. induction below as [|top below IH]; intros ctd.
  { exists [], []. split; [done|]. split; [done|]. simpl.
    by replace (sn <=? 1)%nat with false by (symmetry; apply Nat.leb_gt; lia). }
  cbn [commit_loop length]. destruct (Nat.leb_spec sn (S (S (length below)))) as [Hle|Hgt].
  - destruct (IH (merge_layer ctd top)) as (mid & rest & -> & Hr & Hc).
    exists (top :: mid), rest. split; [done|]. split; [|done]. lia.
  - exists [], (top :: below). split; [done|]. split; [cbn [length]; lia|done].
Qed.

Lemma Commit_spec c d st sn :
  stack c = d :: st → (2 ≤ sn)%nat →
  ∃ mid rest, st = mid ++ rest ∧ length rest = (length st `min` (sn - 2))%nat ∧
    Commit sn c = (Ok tt, set_stack (set_isTop true (foldl merge_layer d mid) :: rest) (dirty c)).
Proof.
  intros Hs Hsn. destruct (commit_loop_spec sn d st Hsn) as (mid & rest & -> & Hr & Hc).
  exists mid, rest. split; [done|]. split; [done|].
  unfold Commit. simpl stack. rewrite Hs, Hc. done.
Qed.

(** *** The operations of a context, as data *)

Inductive op :=
  | OpAccount (addr : Address)
  | OpAddressByName (n : bytes)
  | OpHasAccount (addr : Address)
  | OpHasAccountName (n : bytes)
  | OpAccountData (addr : Address) (pid : Z) (n : bytes)
  | OpProcessData (pid : Z) (n : bytes)
  | OpHasUTXO (id : Z)
  | OpUTXO (id : Z)
  | OpHasTimeSlot (slot : Z) (k : bytes)
  | OpCreateAccount (acc : A)
  | OpCreateAccountIgnoreDelete (acc : A)
  | OpUpdateAccount (addr : Address) (acc : A)
  | OpDeleteAccount (acc : A)
  | OpSetAccountData (addr : Address) (pid : Z) (n v : bytes)
  | OpSetProcessData (pid : Z) (n v : bytes)
  | OpCreateUTXO (id : Z) (vout : TxOut)
  | OpDeleteUTXO (u : UTXO)
  | OpEmitEvent (e : E)
  | OpUseTimeSlot (slot : Z) (k : bytes)
  | OpSnapshot
  | OpRevert (sn : nat)
  | OpCommit (sn : nat).

(** The state an operation leaves, whatever it answers. *)
Definition exec (o : op) c : Ctx A E :=
  match o with
  | OpAccount a => (Account a c).2
  | OpAddressByName n => (AddressByName n c).2
  | OpHasAccount a => (HasAccount a c).2
  | OpHasAccountName n => (HasAccountName n c).2
  | OpAccountData a p n => (AccountData a p n c).2
  | OpProcessData p n => (ProcessData p n c).2
  | OpHasUTXO id => (HasUTXO id c).2
  | OpUTXO id => (ReadUTXO id c).2
  | OpHasTimeSlot s k => (HasTimeSlot s k c).2
  | OpCreateAccount acc => (CreateAccount acc c).2
  | OpCreateAccountIgnoreDelete acc => (CreateAccountIgnoreDelete acc c).2
  | OpUpdateAccount a acc => (UpdateAccount a acc c).2
  | OpDeleteAccount acc => (DeleteAccount acc c).2
  | OpSetAccountData a p n v => (SetAccountData a p n v c).2
  | OpSetProcessData p n v => (SetProcessData p n v c).2
  | OpCreateUTXO id vout => (CreateUTXO id vout c).2
  | OpDeleteUTXO u => (DeleteUTXO u c).2
  | OpEmitEvent e => (EmitEvent e c).2
  | OpUseTimeSlot s k => (UseTimeSlot s k c).2
  | OpSnapshot => (Snapshot c).2
  | OpRevert sn => (Revert sn c).2
  | OpCommit sn => (Commit sn c).2
  end.

Definition execs (os : list op) c : Ctx A E := foldl (λ c o, exec o c) c os.

(** Keys as the Go types make them, and snapshot numbers above [base]. *)
Definition op_ok (base : nat) (o : op) : Prop :=
  match o with
  | OpAccountData a p _ => valid_addr a ∧ valid_pid p
  | OpProcessData p _ => valid_pid p
  | OpRevert sn | OpCommit sn => (base < sn)%nat
  | _ => True
  end.

(** *** Every operation but the snapshot ones is a step of the top layer *)

Definition steps_top {V} (m : M (Ctx A E) V) : Prop := ∀ c, wf c → top_step c (m c).2.

Lemma reads_steps {V} (m : M (Ctx A E) V) v : reads m v → steps_top m.
Proof. intros H c Hwf. by destruct (H c Hwf) as (c' & -> & Hs & _). Qed.

Lemma steps_bind {V W} (m : M (Ctx A E) V) (f : V → M (Ctx A E) W) :
  steps_top m → (∀ v, steps_top (f v)) → steps_top (m ≫= f).
Proof.
  intros Hm Hf c Hwf. specialize (Hm c Hwf). unfold mbind, M_bind.
  destruct (m c) as [[v|e|] c1]; simpl in *; try done.
  eapply top_step_trans; [done|]. apply Hf, (ts_wf _ _ Hm).
Qed.

Lemma steps_pure {V} (m : M (Ctx A E) V) : (∀ c, (m c).2 = c) → steps_top m.
Proof. intros H c Hwf. rewrite H. by apply top_step_refl. Qed.

Lemma steps_dirty : steps_top (modify dirty).
Proof. intros c Hwf. by apply dirty_step. Qed.

Lemma steps_with_top f : (∀ d, keeps_layer d (f d)) → steps_top (with_top f).
Proof. intros Hf c Hwf. by destruct (with_top_step f c Hwf Hf) as (d & st & Hs & -> & Ht). Qed.

Lemma steps_try {V} (m : M (Ctx A E) V) : steps_top m → steps_top (try m).
Proof. intros H c Hwf. specialize (H c Hwf). unfold try. by destruct (m c) as [[]]. Qed.

Lemma steps_guard b e : steps_top (guard_err b e).
Proof. apply steps_pure. by destruct b. Qed.

Create HintDb steps.
Hint Resolve steps_bind steps_dirty steps_try steps_guard : steps.
Hint Extern 1 (steps_top (with_top _)) => apply steps_with_top; done : steps.
Hint Extern 2 (steps_top (ctd_Account _)) => eapply reads_steps, read_Account : steps.
Hint Extern 2 (steps_top (ctd_UTXO _)) => eapply reads_steps, read_UTXO : steps.
Hint Extern 3 (steps_top match ?r with inl _ => _ | inr _ => _ end) => destruct r : steps.
Hint Extern 5 (steps_top _) => apply steps_pure; intros; by repeat case_match : steps.

Lemma steps_create ign acc : steps_top (create_account ign acc).
Proof.
  intros c Hwf. unfold create_account, get, mbind at 1, M_bind at 1.
  revert c Hwf. assert (H : ∀ c, steps_top (
    guard_err (negb (Height (acc_Address acc) =? genTargetHeight c)) ErrInvalidAddressHeight ;;
    guard_err (bool_decide (acc_Address acc = emptyAddr)) ErrNotAllowedEmptyAddressAccount ;;
    guard_err (bool_decide (is_Some (ParseAddress (acc_Name acc)))) ErrNotAllowedAddressAccountName ;;
    must_be_new ign (ctd_HasAccount (loader c) (cache c) (stack c) (acc_Address acc)) ErrExistAccount ;;
    must_be_new ign (ctd_HasAccountName (loader c) (cache c) (stack c) (acc_Name acc)) ErrExistAccountName ;;
    with_top (put_account acc))); [|intros c; apply (H c)].
  intros c. assert (Hn : ∀ r e, steps_top (must_be_new (A:=A) (E:=E) ign r e)).
  { intros r e. apply steps_pure. intros c'. unfold must_be_new. by repeat case_match. }
  repeat (apply steps_bind; [by auto with steps|intros _]). auto with steps.
Qed.

Lemma steps_UseTimeSlot s k : steps_top (ctd_UseTimeSlot s k).
Proof.
  intros c Hwf. pose proof (write_UseTimeSlot s k c Hwf) as H.
  destruct (view_slot c s k); by destruct H as (c' & -> & Ht & _).
Qed.

Definition is_layer_op (o : op) : bool :=
  match o with OpSnapshot | OpRevert _ | OpCommit _ => false | _ => true end.

Lemma exec_top_step base o c :
  wf c → op_ok base o → is_layer_op o = true → top_step c (exec o c).
Proof.
  intros Hwf Hok Hl. destruct o; simpl in Hok, Hl |- *; try done;
    match goal with |- top_step _ (?m c).2 => revert c Hwf; change (steps_top m) end.
  all: try (apply steps_bind; [apply steps_dirty|intros _]).
  all: try (by eapply reads_steps, read_Account).
  all: try (by eapply reads_steps, read_AddressByName).
  all: try (by eapply reads_steps, read_HasAccount).
  all: try (by eapply reads_steps, read_HasAccountName).
  all: try (by eapply reads_steps, read_AccountData; apply Hok).
  all: try (by eapply reads_steps, read_ProcessData).
  all: try (by eapply reads_steps, read_UTXO).
  all: try (by eapply reads_steps, read_HasTimeSlot).
  all: try apply steps_create.
  all: try apply steps_UseTimeSlot.
  all: unfold UpdateAccount, ctd_DeleteAccount, ctd_SetAccountData, SetProcessData,
    ctd_SetProcessData, ctd_CreateUTXO, ctd_DeleteUTXO, ctd_EmitEvent; eauto 8 with steps.
Qed.

(** [c] has at least one layer above [lower], and the header of [c0]. *)
Record above c0 (lower : list (ContextData A E)) c : Prop := {
  ab_wf : wf c;
  ab_loader : loader c = loader c0;
  ab_height : genTargetHeight c = genTargetHeight c0;
  ab_last_hash : genLastHash c = genLastHash c0;
  ab_timestamp : genTimestamp c = genTimestamp c0;
  ab_stack : ∃ new, new ≠ [] ∧ stack c = new ++ lower;
}.

(** Marking the top of a stack whose layers are all covered. *)
Lemma wf_mark_top c d st :
  cache_ok (loader c) (cache c) → loader_ok (loader c) → Forall (λ d, isTop d = false) st →
  wf (set_stack (set_isTop true d :: st) (dirty c)).
Proof. intros Hc Hl Hst. split; [by eexists _, _|done|done]. Qed.

Lemma exec_Revert_above c0 lower sn c :
  above c0 lower c → (S (length lower) < sn)%nat → above c0 lower (exec (OpRevert sn) c).
Proof.
  intros [Hwf H1 H2 H3 H4 (new & Hnew & Hs)] Hsn. simpl.
  destruct (wf_top c Hwf) as (d & st & Hs' & Hst).
  assert (Hlen : length (stack c) = (length new + length lower)%nat) by (by rewrite Hs, length_app).
  unfold Revert. simpl stack. simpl length.
  replace (sn =? 0)%nat with false by (symmetry; apply Nat.eqb_neq; lia). rewrite andb_false_r.
  destruct (Nat.leb_spec sn (length (stack c))) as [Hle|Hgt].
  - set (k := (length (stack c) - (sn - 1))%nat).
    assert (Hdrop : drop k (stack c) = drop k new ++ lower).
    { rewrite Hs. apply drop_app_le. lia. }
    assert (Hne : drop k new ≠ []).
    { intros E0. apply (f_equal length) in E0. rewrite length_drop in E0. simpl in E0. lia. }
    rewrite Hdrop. destruct (drop k new) as [|d1 new1] eqn:Ed; [done|]. simpl.
    assert (Hf : Forall (λ d, isTop d = false) (new1 ++ lower)).
    { rewrite Hs' in Hdrop. destruct k as [|k'] eqn:Ek; [lia|]. simpl in Hdrop.
      apply (Forall_drop _ k') in Hst. rewrite Hdrop in Hst. by apply Forall_cons in Hst as [_ ?]. }
    split; try done; [by apply wf_mark_top; try apply Hwf|].
    exists (set_isTop true d1 :: new1). done.
  - rewrite Hs'. simpl. destruct new as [|d0 new]; [done|]. rewrite Hs' in Hs. simpl in Hs.
    injection Hs as <- Hs. split; try done; [by apply wf_mark_top; try apply Hwf|].
    exists (set_isTop true d :: new). by rewrite Hs.
Qed.

Lemma exec_Commit_above c0 lower sn c :
  above c0 lower c → (S (length lower) < sn)%nat → above c0 lower (exec (OpCommit sn) c).
Proof.
  intros [Hwf H1 H2 H3 H4 (new & Hnew & Hs)] Hsn. simpl.
  destruct (wf_top c Hwf) as (d & st & Hs' & Hst).
  destruct (Commit_spec c d st sn Hs') as (mid & rest & Hst' & Hr & ->); [lia|]. simpl.
  destruct new as [|d0 new]; [done|]. rewrite Hs' in Hs. simpl in Hs.
  injection Hs as <- Hst''. rewrite Hst' in Hst, Hst'', Hr. apply Forall_app in Hst as [_ Hst].
  split; try done; [by apply wf_mark_top; try apply Hwf|].
  assert (Hlen : length (mid ++ rest) = length (new ++ lower)) by (by rewrite Hst'').
  rewrite !length_app in *. assert (length lower ≤ length rest)%nat by lia.
  assert (drop (length mid) (mid ++ rest) = drop (length mid) (new ++ lower)) as Hd by (by rewrite Hst'').
  rewrite drop_app_length, drop_app_le in Hd by lia. rewrite Hd.
  by exists (set_isTop true (foldl merge_layer d mid) :: drop (length mid) new).
Qed.

Lemma exec_above c0 lower o c :
  above c0 lower c → op_ok (S (length lower)) o → above c0 lower (exec o c).
Proof.
  intros Hab Hok. destruct (is_layer_op o) eqn:Hl.
  - destruct Hab as [Hwf H1 H2 H3 H4 (new & Hnew & Hs)].
    destruct (exec_top_step _ o c Hwf Hok Hl) as [Hwf' G1 G2 G3 G4 G5].
    split; try congruence. destruct (wf_top _ Hwf') as (d & st & Hs' & _).
    destruct new as [|n new]; [done|]. rewrite Hs, Hs' in G5. simpl in G5.
    exists (d :: new). by rewrite Hs', G5.
  - destruct o; try done.
    + destruct Hab as [Hwf H1 H2 H3 H4 (new & Hnew & Hs)]. destruct new as [|n new]; [done|].
      simpl exec. unfold Snapshot. simpl stack. rewrite Hs. simpl.
      destruct (Snapshot_spec c n (new ++ lower) Hwf Hs) as (c' & Hc' & Hwf' & _).
      unfold Snapshot in Hc'. simpl stack in Hc'. rewrite Hs in Hc'. simplify_eq/=.
      split; try done. by exists (NewContextData (Some n) :: set_isTop false n :: new).
    + by apply exec_Revert_above.
    + by apply exec_Commit_above.
Qed.

Lemma execs_above c0 lower os c :
  above c0 lower c → Forall (op_ok (S (length lower))) os → above c0 lower (execs os c).
Proof.
  unfold execs. revert c. induction os as [|o os IH]; intros c Hab Hos; simpl; [done|].
  apply Forall_cons in Hos as [Ho Hos]. apply IH; [|done]. by apply exec_above.
Qed.

Lemma wf_above c : wf c → above c [] c.
Proof.
  intros Hwf. split; try done. exists (stack c). rewrite app_nil_r. split; [|done].
  destruct (wf_top c Hwf) as (d & st & -> & _). done.
Qed.

(** Well-formedness is an invariant of all operations. *)
Lemma execs_wf os c : wf c → Forall (op_ok 1) os → wf (execs os c).
Proof. intros Hwf Hos. by apply (ab_wf c [] _ (execs_above c [] os c (wf_above c Hwf) Hos)). Qed.

(** C3. Snapshot isolation.  Take a snapshot, run any sequence of operations
    on the context (reads, writes, events, time slots, nested snapshots with
    their reverts and commits, whether they succeed or fail), then revert to
    the snapshot number: the stack of layers is exactly the one before the
    snapshot, and so are the header, the events and the answers for accounts
    and whether they exist, names and whether they exist, account data,
    process data, outputs and time slots.  The cache of the context stays as
    the operations left it; the one question whose answer can depend on it is
    [HasUTXO], which asks the restored layers and then that cache
    ([HasUTXO_depends_on_cache] shows the difference). *)
Theorem snapshot_isolation c sn c1 os :
  wf c → active c → Snapshot c = (Ok sn, c1) → Forall (op_ok sn) os →
  ∃ c2, Revert sn (execs os c1) = (Ok tt, c2) ∧ stack c2 = stack c ∧ wf c2 ∧ c2 ≡ c ∧
    ∀ id, HasUTXO id c2 = (ctd_HasUTXO (cache (execs os c1)) (stack c) id, c2).
Proof.
  intros Hwf Hact Hsn Hos. destruct (wf_top c Hwf) as (d & st & Hs & Hst).
  unfold active in Hact. rewrite Hs in Hact.
  destruct (Snapshot_spec c d st Hwf Hs) as (c1' & Hc1 & Hwf1 & Hl & Hh & Hs1).
  rewrite Hsn in Hc1. simplify_eq. rewrite Hs in Hsn, Hos |- *.
  set (lower := set_isTop false d :: st).
  assert (Hab : above c lower c1').
  { unfold Snapshot in Hsn. simpl stack in Hsn. rewrite Hs in Hsn. simplify_eq.
    split; try done. by eexists [_]. }
  assert (Hlen : length lower = length (d :: st)) by done. rewrite <- Hlen in Hos |- *.
  destruct (execs_above _ _ _ _ Hab Hos) as [Hwf2 H1 H2 H3 H4 (new & Hnew & Hs2)].
  unfold lower. rewrite (Revert_spec _ new (set_isTop false d) st Hs2 Hnew).
  assert (Hd : set_isTop true (set_isTop false d) = d) by (destruct d; simpl in *; by subst).
  rewrite Hd. eexists; split; [done|]. split; [done|]. split_and!.
  - split; [by eexists _, _|apply Hwf2|apply Hwf2].
  - split; try done; [|by unfold top_events; simpl; rewrite Hs]. split; simpl; intros;
      unfold view_Account, view_HasAccount, view_Name, view_HasName, view_AccountData,
        view_ProcessData, view_UTXO, view_slot; simpl; by rewrite Hs, H1.
  - done.
Qed.

(** *** Commit *)

(** A key whose entry in the upper layer is dropped by the merge: the lower
    layer holds a deletion mark for it. *)
Definition lost {X Y Z : Type} (up : option X) (up_del : option Y) (low_del : option Z) : bool :=
  match up, up_del, low_del with Some _, None, Some _ => true | _, _, _ => false end.

Definition lost_Account (a : Address) (u l : ContextData A E) : bool :=
  lost (AccountMap u !! a) (DeletedAccountMap u !! a) (DeletedAccountMap l !! a).
Definition lost_data (k : bytes) (u l : Overlay) : bool :=
  lost (ov_map u !! k) (ov_del u !! k) (ov_del l !! k).
Definition lost_UTXO (id : Z) (u l : ContextData A E) : bool :=
  lost (UTXOMap u !! id) (DeletedUTXOMap u !! id) (DeletedUTXOMap l !! id).

Lemma hit_merge_Account a u l :
  hit_Account a (merge_layer (A:=A) (E:=E) u l)
  = if lost_Account a u l then Some (Err ErrDeletedAccount)
    else match hit_Account a u with Some r => Some r | None => hit_Account a l end.
Proof.
  unfold lost_Account, hit_Account, merge_layer. simpl.
  rewrite EachAll_delete, !EachAll_put, !lookup_union.
  destruct (DeletedAccountMap u !! a), (DeletedAccountMap l !! a), (AccountMap u !! a),
    (AccountMap l !! a); done.
Qed.

Lemma hit_merge_UTXO id u l :
  hit_UTXO id (merge_layer (A:=A) (E:=E) u l)
  = if lost_UTXO id u l then Some (Err ErrUsedUTXO)
    else match hit_UTXO id u with Some r => Some r | None => hit_UTXO id l end.
Proof.
  unfold lost_UTXO, hit_UTXO, merge_layer. simpl.
  rewrite EachAll_delete, !EachAll_put, !lookup_union.
  destruct (DeletedUTXOMap u !! id), (DeletedUTXOMap l !! id), (UTXOMap u !! id),
    (UTXOMap l !! id); done.
Qed.

Lemma hit_merge_Name n u l :
  hit_Name n (merge_layer (A:=A) (E:=E) u l)
  = match hit_Name n u with Some r => Some r | None => hit_Name n l end.
Proof.
  unfold hit_Name, merge_layer. simpl. rewrite EachAll_put, lookup_union.
  by destruct (AccountNameMap u !! n), (AccountNameMap l !! n).
Qed.

Lemma ov_hit_merge_lost k u l :
  ov_hit k (ov_merge u l)
  = if lost_data k u l then Some (Ok [])
    else match ov_hit k u with Some r => Some r | None => ov_hit k l end.
Proof.
  rewrite ov_hit_merge. unfold lost_data, ov_hit.
  by destruct (ov_del u !! k), (ov_map u !! k), (ov_del l !! k).
Qed.

Lemma view_merge {V} (hit : ContextData A E → option (res V)) below (b : bool) r u l m st :
  hit m = (if b then Some r else match hit u with Some r => Some r | None => hit l end) →
  view hit below (m :: st) = if b then r else view hit below (u :: l :: st).
Proof. intros H. unfold view. simpl. rewrite H. destruct b; [done|]. by destruct (hit u). Qed.

(** Commit of the top snapshot merges the two top layers. *)
Lemma Commit_merges c u l st :
  wf c → stack c = u :: l :: st →
  Commit (length (stack c)) c = (Ok tt, set_stack (set_isTop true (merge_layer u l) :: st) (dirty c)) ∧
  wf (set_stack (set_isTop true (merge_layer u l) :: st) (dirty c)).
Proof.
  intros Hwf Hs. destruct (wf_top c Hwf) as (u' & st' & Hs' & Hst).
  rewrite Hs in Hs'. injection Hs' as <- <-. apply Forall_cons in Hst as [Hl Hst].
  destruct (Commit_spec c u (l :: st) (length (stack c)) Hs) as (mid & rest & Hm & Hr & Hc).
  { rewrite Hs. simpl. lia. }
  assert (mid = [l] ∧ rest = st) as [-> ->].
  { rewrite Hs in Hr. simpl length in Hr.
    assert (Hlm : length (mid ++ rest) = S (length st)) by (by rewrite <- Hm).
    rewrite length_app in Hlm.
    destruct mid as [|m [|m' mid]]; injection Hm as <- Hm || (simpl in Hm; subst rest);
      cbn [length] in *; [lia|by simpl in Hm|lia]. }
  split; [exact Hc|]. by apply wf_mark_top; try apply Hwf.
Qed.

(** Commit of the top snapshot succeeds, and every answer after it is the
    answer before it, with one exception that the statement spells out: a
    value, account or output that the top layer holds is gone when the layer
    below has a deletion mark for its key. *)
Theorem Commit_views c u l st :
  wf c → stack c = u :: l :: st →
  ∃ c', Commit (length (stack c)) c = (Ok tt, c') ∧ wf c' ∧
    stack c' = set_isTop true (merge_layer u l) :: st ∧
    (∀ a, view_Account c' a = if lost_Account a u l then Err ErrDeletedAccount else view_Account c a) ∧
    (∀ n, view_Name c' n = view_Name c n) ∧
    (∀ a p n, view_AccountData c' a p n =
       if lost_data (accountDataKey a p n) (AccountDataOv u) (AccountDataOv l) then Ok []
       else view_AccountData c a p n) ∧
    (∀ p n, view_ProcessData c' p n =
       if lost_data (processDataKey p n) (ProcessDataOv u) (ProcessDataOv l) then Ok []
       else view_ProcessData c p n) ∧
    (∀ id, view_UTXO c' id = if lost_UTXO id u l then Err ErrUsedUTXO else view_UTXO c id).
Proof.
  intros Hwf Hs. destruct (Commit_merges c u l st Hwf Hs) as [Hc Hwf'].
  eexists; split; [exact Hc|]. split; [done|]. split; [done|].
  split_and!; intros;
    unfold view_Account, view_Name, view_AccountData, view_ProcessData, view_UTXO; simpl;
    rewrite Hs; apply view_merge || (apply (view_merge _ _ false (Err ErrNotExistAccount) u l)).
  - apply hit_merge_Account.
  - apply hit_merge_Name.
  - apply (ov_hit_merge_lost _ (AccountDataOv u) (AccountDataOv l)).
  - apply (ov_hit_merge_lost _ (ProcessDataOv u) (ProcessDataOv l)).
  - apply hit_merge_UTXO.
Qed.

(** Time slots of both layers. *)
Lemma slot_has_merge u l s k :
  slot_has (merge_time_slots u l) s k = slot_has u s k || slot_has l s k.
Proof.
  unfold merge_time_slots, EachAll.
  assert (Hu : slot_has u s k = match list_to_map (M:=gmap Z (gmap bytes bool)) (sorted_entries u) !! s with
    | Some mp => bool_decide (is_Some (mp !! k)) | None => false end).
  { unfold slot_has. rewrite (list_to_map_proper (sorted_entries u) (map_to_list u)).
    - by rewrite list_to_map_to_list.
    - apply sorted_entries_nodup.
    - apply sorted_entries_perm. }
  rewrite Hu. clear Hu. pose proof (sorted_entries_nodup u) as Hnd.
  revert l Hnd. generalize (sorted_entries u) as es. clear u.
  induction es as [|[s' mp] es IH]; intros l Hnd; csimpl in *; [done|].
  apply NoDup_cons in Hnd as [Hni Hnd]. rewrite IH by done. clear IH.
  assert (Hrow : slot_has (match l !! s' with
      | Some tp => <[s' := foldl (λ tp kv, <[kv.1 := kv.2]> tp) tp (sorted_entries mp)]> l
      | None => <[s' := mp]> l end) s k
    = if decide (s = s') then bool_decide (is_Some (mp !! k)) || slot_has l s k else slot_has l s k).
  { unfold slot_has. destruct (decide (s = s')) as [->|Hne].
    - destruct (l !! s') as [tp|] eqn:Hl; rewrite lookup_insert_eq, ?orb_false_r; [|done].
      pose proof (EachAll_put mp tp) as Hp. unfold EachAll in Hp. rewrite Hp, lookup_union.
      by destruct (mp !! k), (tp !! k).
    - destruct (l !! s'); by rewrite lookup_insert_ne. }
  rewrite Hrow. clear Hrow. destruct (decide (s = s')) as [->|Hne].
  - rewrite lookup_insert_eq.
    by rewrite (not_elem_of_list_to_map_1 (M:=gmap Z) es s') by done.
  - by rewrite lookup_insert_ne.
Qed.

(** Time slots and snapshots.  A slot that a context accepted is refused
    when it is used again in the same layer; in a snapshot on top it is
    accepted a second time, because only the top layer and the loader are
    asked. *)
Theorem time_slot_replay c s k :
  wf c → view_slot c s k = false →
  ∃ c1, UseTimeSlot s k c = (Ok tt, c1) ∧
    (∃ c2, UseTimeSlot s k c1 = (Err ErrUsedTimeSlot, c2)) ∧
    ∃ sn c2 c3, Snapshot c1 = (Ok sn, c2) ∧ UseTimeSlot s k c2 = (Ok tt, c3).
Proof.
  intros Hwf Hv. pose proof (write_UseTimeSlot s k c Hwf) as H1. rewrite Hv in H1.
  destruct H1 as (c1 & Hu & Ht & He). exists c1. split; [exact Hu|].
  pose proof (ts_wf _ _ Ht) as Hwf1. split.
  - pose proof (write_UseTimeSlot s k c1 Hwf1) as H2.
    replace (view_slot c1 s k) with true in H2.
    + destruct H2 as (c2 & H2 & _). by exists c2.
    + symmetry. destruct He as [_ _ _ _ _ _ _ He]. etrans; [exact (He s k)|]. simpl.
      by rewrite bool_decide_eq_true_2.
  - destruct (wf_top c1 Hwf1) as (d & st & Hs & _).
    destruct (Snapshot_spec c1 d st Hwf1 Hs) as (c2 & Hsn & Hwf2 & Hl & _ & Hs2).
    pose proof (write_UseTimeSlot s k c2 Hwf2) as H3.
    replace (view_slot c2 s k) with false in H3.
    + destruct H3 as (c3 & H3 & _). eauto 6.
    + unfold view_slot in *. rewrite Hs2. simpl. rewrite Hl, (ts_loader _ _ Ht).
      destruct (stack c) eqn:E0; [by destruct (wf_top c Hwf) as (? & ? & ? & _); congruence|].
      by apply orb_false_iff in Hv as [_ ->].
Qed.

(** *** Outputs are spent once *)

Definition spent (id : Z) c : Prop := wf c ∧ view_UTXO c id = Err ErrUsedUTXO.

Lemma equiv_spent id c c' : spent id c → wf c' → c' ≡ c → spent id c'.
Proof. intros [_ Hv] Hwf' He. split; [done|]. rewrite <- Hv. apply (eq_UTXO _ _ (eq_abs _ _ He)). Qed.

Lemma keeps_reads {V} id (m : M (Ctx A E) V) v : reads m v → keeps (spent id) m.
Proof.
  intros Hm c Hc. destruct (Hm c (proj1 Hc)) as (c' & -> & Ht & He).
  by eapply equiv_spent; [|apply Ht|].
Qed.

Lemma keeps_with_top id f :
  (∀ d, keeps_layer d (f d)) → (∀ d, UTXOMap (f d) = UTXOMap d) →
  (∀ d, DeletedUTXOMap (f d) = DeletedUTXOMap d) → keeps (spent id) (with_top f).
Proof.
  intros H1 H2 H3 c [Hwf Hv]. destruct (with_top_step f c Hwf H1) as (d & st & Hs & -> & Ht).
  split; [apply Ht|]. rewrite <- Hv. unfold view_UTXO. rewrite Hs. apply view_top.
  unfold hit_UTXO. by rewrite H2, H3.
Qed.

Lemma keeps_dirty id : keeps (spent id) (modify dirty).
Proof. intros c [Hwf Hv]. split; [|done]. by apply dirty_step. Qed.

Lemma keeps_DeleteUTXO id u : keeps (spent id) (ctd_DeleteUTXO u).
Proof.
  intros c Hc. pose proof (write_DeleteUTXO u c (proj1 Hc)) as H.
  destruct (view_UTXO c (UTXO_ID u)).
  - destruct H as (c' & -> & Ht & He). split; [apply Ht|].
    etrans; [apply (eq_UTXO _ _ He id)|]. simpl. case_decide; [done|]. apply Hc.
  - destruct H as (c' & -> & Ht & He). by eapply equiv_spent; [|apply Ht|].
  - destruct H as (c' & -> & Ht & He). by eapply equiv_spent; [|apply Ht|].
Qed.

Lemma keeps_CreateUTXO id i vout : keeps (spent id) (ctd_CreateUTXO i vout).
Proof.
  intros c Hc. pose proof (write_CreateUTXO i vout c (proj1 Hc)) as H.
  destruct (view_UTXO c i) as [|[]|]; destruct H as (c' & -> & Ht & He);
    by eapply equiv_spent; [|apply Ht|].
Qed.

Lemma keeps_UseTimeSlot id s k : keeps (spent id) (ctd_UseTimeSlot s k).
Proof.
  intros c Hc. pose proof (write_UseTimeSlot s k c (proj1 Hc)) as H.
  destruct (view_slot c s k); destruct H as (c' & -> & Ht & He).
  - by eapply equiv_spent; [|apply Ht|].
  - split; [apply Ht|]. etrans; [apply (eq_UTXO _ _ He id)|]. apply Hc.
Qed.

Lemma keeps_must_be_new id ign r dup : keeps (spent id) (must_be_new (A:=A) (E:=E) ign r dup).
Proof. intros c Hc. unfold must_be_new. by repeat case_match. Qed.

Lemma keeps_create id ign acc : keeps (spent id) (create_account ign acc).
Proof.
  apply keeps_bind; [by intros c|]. intros c0.
  repeat (apply keeps_bind; [auto using keeps_guard, keeps_must_be_new|intros _]).
  by apply keeps_with_top.
Qed.

Lemma keeps_Snapshot id : keeps (spent id) Snapshot.
Proof.
  intros c [Hwf Hv]. destruct (wf_top c Hwf) as (d & st & Hs & _).
  destruct (Snapshot_spec c d st Hwf Hs) as (c' & -> & Hwf' & Hl & _ & Hs').
  split; [done|]. rewrite <- Hv. unfold view_UTXO. simpl. rewrite Hs, Hs', Hl.
  unfold view. simpl. done.
Qed.

Lemma merge_spent id (mid : list (ContextData A E)) u :
  layers_hit (hit_UTXO id) (u :: mid) = Some (Err ErrUsedUTXO) →
  hit_UTXO id (foldl merge_layer u mid) = Some (Err ErrUsedUTXO).
Proof.
  revert u. induction mid as [|l mid IH]; intros u H; simpl in *; [by destruct (hit_UTXO id u)|].
  apply IH. simpl. rewrite hit_merge_UTXO. destruct (lost_UTXO id u l); [done|].
  by destruct (hit_UTXO id u).
Qed.

Lemma layers_hit_app {V} (hit : ContextData A E → option (res V)) st1 st2 :
  layers_hit hit (st1 ++ st2)
  = match layers_hit hit st1 with Some r => Some r | None => layers_hit hit st2 end.
Proof. induction st1 as [|d st1 IH]; simpl; [done|]. by destruct (hit d). Qed.

Lemma merge_none id (mid : list (ContextData A E)) u :
  layers_hit (hit_UTXO id) (u :: mid) = None → hit_UTXO id (foldl merge_layer u mid) = None.
Proof.
  revert u. induction mid as [|l mid IH]; intros u H; simpl in *; [by destruct (hit_UTXO id u)|].
  apply IH. simpl. rewrite hit_merge_UTXO. destruct (lost_UTXO id u l) eqn:El.
  - unfold lost_UTXO, lost, hit_UTXO in *. by repeat case_match.
  - by destruct (hit_UTXO id u).
Qed.

Lemma keeps_Commit id sn : (2 ≤ sn)%nat → keeps (spent id) (Commit sn).
Proof.
  intros Hsn c [Hwf Hv]. destruct (wf_top c Hwf) as (d & st & Hs & Hst).
  destruct (Commit_spec c d st sn Hs Hsn) as (mid & rest & -> & _ & ->).
  apply Forall_app in Hst as [_ Hst]. split; [by apply wf_mark_top; try apply Hwf|].
  revert Hv. unfold view_UTXO. simpl. rewrite Hs, app_comm_cons. unfold view.
  rewrite layers_hit_app.
  destruct (layers_hit (hit_UTXO id) (d :: mid)) as [r|] eqn:Hm; cbn [layers_hit];
    change (hit_UTXO id (set_isTop true ?x)) with (hit_UTXO id x).
  - intros Hr. simpl in Hr. subst r. by rewrite (merge_spent _ _ _ Hm).
  - by rewrite (merge_none _ _ _ Hm).
Qed.

Definition no_revert (o : op) : Prop :=
  match o with OpRevert _ => False | OpCommit sn => (2 ≤ sn)%nat | _ => op_ok 1 o end.

Lemma exec_spent id o c : spent id c → no_revert o → spent id (exec o c).
Proof.
  intros Hc Ho. destruct o; simpl in Ho |- *; try done;
    match goal with |- spent _ (?m c).2 => revert c Hc; change (keeps (spent id) m) end.
  all: try (apply keeps_bind; [apply keeps_dirty|intros _]).
  all: eauto using keeps_reads, read_Account, read_AddressByName, read_HasAccount,
    read_HasAccountName, read_AccountData, read_ProcessData, read_UTXO, read_HasTimeSlot,
    keeps_create, keeps_UseTimeSlot, keeps_CreateUTXO, keeps_DeleteUTXO, keeps_Snapshot,
    keeps_Commit.
  all: try (by apply keeps_with_top).
  - destruct Ho. eauto using keeps_reads, read_AccountData.
  - apply keeps_bind; [eapply keeps_reads, read_Account|intros _]. by apply keeps_with_top.
Qed.

(** No double spend.  Once [DeleteUTXO] has spent an output, spending an
    output with the same identifier again is refused with [ErrUsedUTXO],
    whatever operations, snapshots and commits come in between, as long as
    nothing is reverted. *)
Theorem utxo_no_double_spend c u c1 os u' :
  wf c → DeleteUTXO u c = (Ok tt, c1) → Forall no_revert os → UTXO_ID u' = UTXO_ID u →
  ∃ c2, DeleteUTXO u' (execs os c1) = (Err ErrUsedUTXO, c2).
Proof.
  intros Hwf Hd Hos Hid.
  assert (Hsp : spent (UTXO_ID u) c1).
  { destruct (dirty_step c Hwf) as [Ht _].
    pose proof (write_DeleteUTXO u (dirty c) (ts_wf _ _ Ht)) as H.
    change (DeleteUTXO u c) with (ctd_DeleteUTXO u (dirty c)) in Hd.
    destruct (view_UTXO (dirty c) (UTXO_ID u)); destruct H as (c' & H & Ht' & He);
      rewrite Hd in H; simplify_eq.
    split; [apply Ht'|]. etrans; [apply (eq_UTXO _ _ He)|]. simpl. by rewrite decide_True. }
  assert (Hsp2 : spent (UTXO_ID u) (execs os c1)).
  { clear Hd. unfold execs. revert c1 Hsp. induction Hos as [|o os Ho _ IH]; intros c1 Hsp; [done|].
    simpl. by apply IH, exec_spent. }
  destruct (keeps_dirty _ _ Hsp2) as [Hwf2 Hv2].
  change (DeleteUTXO u' (execs os c1)) with (ctd_DeleteUTXO u' (dirty (execs os c1))).
  pose proof (write_DeleteUTXO u' _ Hwf2) as H. rewrite Hid, Hv2 in H.
  destruct H as (c2 & H & _). eauto.
Qed.

(** *** Event numbers *)

(** The numbers that [n] events get when the counter is at [start]. *)
Definition numbers (start : Z) (n : nat) : list Z := (λ i, u16 (start + Z.of_nat i)) <$> seq 0 n.

Definition numbered_layer (start : Z) d : Prop :=
  ev_N <$> Events d = numbers start (length (Events d)) ∧
  EventN d = u16 (start + Z.of_nat (length (Events d))).

(** Each layer continues the count of the one below. *)
Fixpoint numbered st : Prop :=
  match st with
  | [] => True
  | d :: below =>
      numbered_layer (match below with [] => 0 | p :: _ => EventN p end) d ∧ numbered below
  end.

Lemma u16_add x y : u16 (u16 x + y) = u16 (x + y).
Proof. unfold u16. by rewrite Z.add_mod_idemp_l by lia. Qed.

Lemma numbers_app s n m : numbers s (n + m) = numbers s n ++ numbers (u16 (s + Z.of_nat n)) m.
Proof.
  unfold numbers. rewrite seq_app, fmap_app. f_equal.
  replace (seq (0 + n) m) with (Nat.add n <$> seq 0 m) by (rewrite fmap_add_seq; f_equal; lia).
  rewrite <- list_fmap_compose. apply list_fmap_ext. intros i x _. simpl.
  rewrite u16_add. f_equal. lia.
Qed.

Lemma numbers_u16 s n : numbers (u16 s) n = numbers s n.
Proof. unfold numbers. apply list_fmap_ext. intros i x _. apply u16_add. Qed.

Lemma numbered_merge start u l :
  numbered_layer (EventN l) u → numbered_layer start l → numbered_layer start (merge_layer (A:=A) (E:=E) u l).
Proof.
  intros [Hu Hnu] [Hl Hnl]. unfold numbered_layer, merge_layer. simpl.
  rewrite fmap_app, length_app, numbers_app, Hu, Hl, Hnu, Hnl, u16_add. split; [done|].
  f_equal. lia.
Qed.

Lemma numbered_same d d' st :
  Events d' = Events d → EventN d' = EventN d → numbered (d :: st) → numbered (d' :: st).
Proof. intros H1 H2. simpl. unfold numbered_layer. by rewrite H1, H2. Qed.

Definition counted c : Prop := wf c ∧ numbered (stack c).

Lemma counted_same c c' : counted c → top_step c c' → top_events c' = top_events c → counted c'.
Proof.
  intros [Hwf Hn] Ht He. split; [apply Ht|].
  destruct (wf_top c Hwf) as (d & st & Hs & _), (wf_top c' (ts_wf _ _ Ht)) as (d' & st' & Hs' & _).
  pose proof (ts_below _ _ Ht) as Hb. unfold top_events in He. rewrite Hs, Hs' in *. simpl in Hb.
  subst st'. injection He as H1 H2. by eapply numbered_same.
Qed.

Lemma counted_reads {V} (m : M (Ctx A E) V) v : reads m v → keeps counted m.
Proof.
  intros Hm c Hc. destruct (Hm c (proj1 Hc)) as (c' & -> & Ht & He).
  eapply counted_same; [done|done|]. apply (eq_events _ _ He).
Qed.

Lemma counted_with_top f :
  (∀ d, keeps_layer d (f d)) → (∀ d, (Events (f d), EventN (f d)) = (Events d, EventN d)) →
  keeps counted (with_top f).
Proof.
  intros H1 H2 c Hc. destruct (with_top_step f c (proj1 Hc) H1) as (d & st & Hs & -> & Ht).
  eapply counted_same; [done|done|]. unfold top_events. simpl. by rewrite Hs, H2.
Qed.

Lemma counted_dirty : keeps counted (modify dirty).
Proof. intros c [Hwf Hn]. split; [by apply dirty_step|done]. Qed.

Lemma counted_create ign acc : keeps counted (create_account ign acc).
Proof.
  apply keeps_bind; [by intros c|]. intros c0.
  assert (∀ r e, keeps counted (must_be_new (A:=A) (E:=E) ign r e)).
  { intros r e c Hc. unfold must_be_new. by repeat case_match. }
  repeat (apply keeps_bind; [auto using keeps_guard|intros _]). by apply counted_with_top.
Qed.

Lemma counted_UseTimeSlot s k : keeps counted (ctd_UseTimeSlot s k).
Proof.
  intros c Hc. eapply counted_same; [done|apply steps_UseTimeSlot, Hc|].
  unfold ctd_UseTimeSlot, top_events. destruct (stack c) eqn:Hs; simpl; [by rewrite Hs|].
  destruct (slot_has _ _ _); simpl; [by rewrite Hs|].
  destruct (cc_HasTimeSlot _ _ _ _) as [[] ?]; done.
Qed.

Lemma counted_EmitEvent e : keeps counted (ctd_EmitEvent e).
Proof.
  intros c [Hwf Hn]. unfold ctd_EmitEvent.
  destruct (with_top_step (λ d, set_Events (Events d ++ [ev_SetN (EventN d) e])
    (set_EventN (u16 (EventN d + 1)) d)) c Hwf) as (d & st & Hs & -> & Ht); [done|].
  split; [apply Ht|]. rewrite Hs in Hn. simpl in *. destruct Hn as [[H1 H2] Hn]. split; [|done].
  unfold numbered_layer. simpl. rewrite fmap_app, length_app, numbers_app, H1. simpl.
  rewrite ev_N_SetN, H2. split.
  - f_equal. unfold numbers. simpl. by rewrite u16_add, Z.add_0_r.
  - rewrite u16_add. f_equal. lia.
Qed.

Lemma numbered_collapse (mid : list (ContextData A E)) rest u :
  numbered (u :: mid ++ rest) → numbered (foldl merge_layer u mid :: rest).
Proof.
  revert u. induction mid as [|l mid IH]; intros u Hn; [done|]. simpl foldl. apply IH.
  destruct Hn as [Hu [Hl Hn]]. simpl in *. split; [|done]. by apply numbered_merge.
Qed.

Lemma numbered_drop k st : numbered st → numbered (drop k st).
Proof. revert k. induction st as [|d st IH]; intros [|k] H; try done. apply IH, H. Qed.

Lemma exec_counted o c : counted c → op_ok 1 o → counted (exec o c).
Proof.
  intros Hc Ho. destruct o; simpl in Ho |- *; try done;
    try (match goal with |- counted (?m c).2 => revert c Hc; change (keeps counted m) end;
    try (apply keeps_bind; [apply counted_dirty|intros _])).
  all: eauto using counted_reads, read_Account, read_AddressByName, read_HasAccount,
    read_HasAccountName, read_ProcessData, read_UTXO, read_HasTimeSlot,
    counted_create, counted_UseTimeSlot, counted_EmitEvent.
  all: try (by apply counted_with_top).
  - destruct Ho. eauto using counted_reads, read_AccountData.
  - apply keeps_bind; [eapply counted_reads, read_Account|intros _]. by apply counted_with_top.
  - apply keeps_bind; [eapply keeps_try, counted_reads, read_UTXO|intros r].
    apply keeps_bind; [destruct r; eauto with keeps|intros _]. by apply counted_with_top.
  - apply keeps_bind; [eapply counted_reads, read_UTXO|intros _]. by apply counted_with_top.
  - intros c [Hwf Hn]. destruct (wf_top c Hwf) as (d & st & Hs & _).
    destruct (Snapshot_spec c d st Hwf Hs) as (c' & -> & Hwf' & _ & _ & Hs').
    split; [done|]. simpl. rewrite Hs'. rewrite Hs in Hn. split; [|done]. split; [done|].
    destruct Hn as [[_ Hn] _]. simpl. by rewrite Hn, u16_add, Z.add_0_r.
  - intros c Hc. split; [by apply (exec_Revert_above c [] sn c (wf_above c (proj1 Hc)))|].
    unfold Revert. simpl stack. destruct Hc as [_ Hn].
    destruct ((sn <=? length (stack c)) && (sn =? 0))%nat; [done|].
    set (st := if (sn <=? length (stack c))%nat then _ else _).
    assert (Hst : numbered st) by (unfold st; case_match; auto using numbered_drop).
    destruct st as [|d st]; simpl; [done|]. by eapply numbered_same.
  - intros c Hc. destruct (wf_top c (proj1 Hc)) as (d & st & Hs & Hf).
    destruct (Commit_spec c d st sn Hs ltac:(lia)) as (mid & rest & -> & _ & ->).
    destruct Hc as [Hwf Hn]. rewrite Hs in Hn. apply Forall_app in Hf as [_ Hf].
    split; [by apply wf_mark_top; try apply Hwf|].
    apply numbered_collapse in Hn. simpl. by eapply numbered_same.
Qed.

(** All events of the block so far, in order of emission. *)
Definition all_events c : list E := concat (reverse (Events <$> stack c)).

Lemma numbered_all st :
  numbered st →
  ev_N <$> concat (reverse (Events <$> st)) = numbers 0 (length (concat (reverse (Events <$> st)))) ∧
  match st with [] => True | d :: _ =>
    EventN d = u16 (Z.of_nat (length (concat (reverse (Events <$> st))))) end.
Proof.
  induction st as [|d st IH]; [done|]. intros [[H1 H2] Hn]. destruct (IH Hn) as [H3 H4].
  csimpl. rewrite reverse_cons, concat_app. simpl. rewrite app_nil_r, fmap_app, length_app,
    numbers_app, H1, H3, Z.add_0_l, Nat2Z.inj_add.
  destruct st as [|p st]; [simpl in *; by rewrite H2|].
  rewrite H4 in H1, H2. rewrite H2, H4, !u16_add. split; [by rewrite numbers_u16|done].
Qed.

(** Event numbering.  After any sequence of operations on a new context
    (snapshots, reverts and commits included), the events that are left are
    numbered in order of emission, from 0, modulo 2^16. *)
Theorem events_numbered ld os :
  loader_ok ld → Forall (op_ok 1) os →
  let c := execs os (NewContext ld) in
  ev_N <$> all_events c = numbers 0 (length (all_events c)).
Proof.
  intros Hld Hos c.
  assert (Hc : counted c).
  { unfold c. assert (H0 : counted (NewContext (E:=E) ld)) by (split; [by apply NewContext_wf|done]).
    revert H0. generalize (NewContext (E:=E) ld). unfold execs.
    induction Hos as [|o os Ho _ IH]; intros c0 H0; [done|]. simpl. by apply IH, exec_counted. }
  apply (numbered_all _ (proj2 Hc)).
Qed.

(** *** The next context *)

Lemma reads_fst {V} (m : M (Ctx A E) V) v c : reads m v → wf c → (m c).1 = v c.
Proof. intros Hm Hwf. by destruct (Hm c Hwf) as (c' & -> & _). Qed.

Lemma layers_hit_ov (hit : ContextData A E → option (res bytes)) k ov st r :
  (∀ d, hit d = ov_hit k (ov d)) → layers_hit hit st = Some r → ∃ v, r = Ok v.
Proof.
  intros Hh. induction st as [|d st IH]; simpl; [done|]. rewrite Hh. unfold ov_hit.
  repeat case_match; intros; simplify_eq; eauto.
Qed.

Lemma view_AccountData_Ok c a p n : ∃ v, view_AccountData c a p n = Ok v.
Proof.
  unfold view_AccountData, view. destruct (layers_hit _ _) eqn:E0; simpl; [|eauto].
  by eapply (layers_hit_ov _ _ AccountDataOv) in E0.
Qed.

Lemma view_ProcessData_Ok c p n : ∃ v, view_ProcessData c p n = Ok v.
Proof.
  unfold view_ProcessData, view. destruct (layers_hit _ _) eqn:E0; simpl; [|eauto].
  by eapply (layers_hit_ov _ _ ProcessDataOv) in E0.
Qed.

Lemma view_HasAccount_of c addr acc :
  wf c → view_Account c addr = Ok acc → view_HasAccount c addr = Ok true.
Proof.
  intros Hwf. unfold view_Account, view_HasAccount, view.
  destruct (layers_hit _ _) as [r|]; simpl; [by intros ->|]. apply (wf_loader c Hwf).
Qed.

Lemma view_HasName_of c n addr :
  wf c → view_Name c n = Ok addr → view_HasName c n = Ok true.
Proof.
  intros Hwf. unfold view_Name, view_HasName, view.
  destruct (layers_hit _ _) as [r|]; simpl; [by intros ->|]. apply (wf_loader c Hwf).
Qed.

(** Reads of a context, as its next context sees them. *)
Lemma as_loader_spec c :
  wf c →
  (∀ a, ld_Account (as_loader c) a = view_Account c a) ∧
  (∀ n, ld_AddressByName (as_loader c) n = view_Name c n) ∧
  (∀ a, ld_HasAccount (as_loader c) a = view_HasAccount c a) ∧
  (∀ n, ld_HasAccountName (as_loader c) n = view_HasName c n) ∧
  (∀ a p n, valid_addr a → valid_pid p → Ok (ld_AccountData (as_loader c) a p n) = view_AccountData c a p n) ∧
  (∀ p n, valid_pid p → Ok (ld_ProcessData (as_loader c) p n) = view_ProcessData c p n) ∧
  (∀ id, ld_UTXO (as_loader c) id = view_UTXO c id) ∧
  (∀ s k, ld_HasTimeSlot (as_loader c) s k = view_slot c s k).
Proof.
  intros Hwf. split_and!; intros; simpl.
  - apply (reads_fst _ (λ c, view_Account c a)); [|done].
    by apply reads_dirty; [apply read_Account|].
  - by apply (reads_fst _ _ _ (read_AddressByName n)).
  - by apply (reads_fst _ _ _ (read_HasAccount a)).
  - by apply (reads_fst _ _ _ (read_HasAccountName n)).
  - destruct (view_AccountData_Ok c a p n) as [v Hv]. rewrite Hv. unfold AccountData.
    rewrite (reads_fst _ _ c (read_AccountData a p n ltac:(done) ltac:(done)) Hwf). by rewrite Hv.
  - destruct (view_ProcessData_Ok c p n) as [v Hv]. rewrite Hv. unfold ProcessData.
    rewrite (reads_fst _ _ c (read_ProcessData p n ltac:(done)) Hwf). by rewrite Hv.
  - by apply (reads_fst _ _ _ (read_UTXO id)).
  - by rewrite (reads_fst _ _ _ (read_HasTimeSlot s k)).
Qed.

Lemma as_loader_ok c : wf c → loader_ok (as_loader c).
Proof.
  intros Hwf. destruct (as_loader_spec c Hwf) as (H1 & H2 & H3 & H4 & _).
  split; intros *; rewrite ?H1, ?H2, ?H3, ?H4; eauto using view_HasAccount_of, view_HasName_of.
Qed.

(** The next context of a block is well formed, at the next height, and
    starts with exactly the answers of the context it was made from:
    accounts, names, data, outputs and time slots. *)
Theorem NextContext_views c h t :
  wf c →
  wf (NextContext h t c) ∧ active (NextContext h t c) ∧
  genTargetHeight (NextContext h t c) = u32 (genTargetHeight c + 1) ∧
  genLastHash (NextContext h t c) = h ∧
  abs (NextContext h t c) ≡ abs c.
Proof.
  intros Hwf. destruct (wf_top c Hwf) as (d & st & Hs & Hst).
  set (c' := set_stack (set_isTop false d :: st) c).
  assert (Hwf' : wf c') by (split; [by eexists _, _|apply Hwf|apply Hwf]).
  assert (Hn : NextContext h t c = mkCtx (as_loader c') (u32 (genTargetHeight c + 1)) h t
    newContextCache [NewContextData None] false (replicate Hash256Size 0)).
  { unfold NextContext. by rewrite Hs. }
  rewrite Hn. destruct (as_loader_spec c' Hwf') as (H1 & H2 & H3 & H4 & H5 & H6 & H7 & H8).
  split_and!; try done.
  - split; [by eexists _, _|apply newContextCache_ok|by apply as_loader_ok].
  - assert (Hv : abs c' ≡ abs c).
    { split; simpl; intros; unfold view_Account, view_HasAccount, view_Name, view_HasName,
        view_AccountData, view_ProcessData, view_UTXO, view_slot; simpl; by rewrite Hs. }
    etrans; [|exact Hv].
    split; cbn [abs abs_Account abs_HasAccount abs_Name abs_HasName abs_AccountData
      abs_ProcessData abs_UTXO abs_slot]; intros.
    + apply H1.
    + apply H3.
    + apply H2.
    + apply H4.
    + by apply H5.
    + by apply H6.
    + apply H7.
    + apply H8.
Qed.

(** C29. Reads are transparent.  Reading an account, an address by its name,
    whether an account or a name exists, account data, process data or an
    output returns the answer of the topmost layer that has one, or else of
    the loader; asking for a time slot, that of the top layer or else of the
    loader.  The copy that the top layer keeps and the filling of the cache
    change no later answer to any of these questions, nor the events or the
    header.  [HasUTXO] is not among them: it asks the cache and never the
    loader, so that reading an output changes its answer
    ([HasUTXO_depends_on_cache]). *)
Theorem reads_transparent c a p n id s k :
  wf c → valid_addr a → valid_pid p →
  (∃ c', Account a c = (view_Account c a, c') ∧ wf c' ∧ c' ≡ c) ∧
  (∃ c', AddressByName n c = (view_Name c n, c') ∧ wf c' ∧ c' ≡ c) ∧
  (∃ c', HasAccount a c = (view_HasAccount c a, c') ∧ wf c' ∧ c' ≡ c) ∧
  (∃ c', HasAccountName n c = (view_HasName c n, c') ∧ wf c' ∧ c' ≡ c) ∧
  (∃ c', AccountData a p n c = (view_AccountData c a p n, c') ∧ wf c' ∧ c' ≡ c) ∧
  (∃ c', ProcessData p n c = (view_ProcessData c p n, c') ∧ wf c' ∧ c' ≡ c) ∧
  (∃ c', ReadUTXO id c = (view_UTXO c id, c') ∧ wf c' ∧ c' ≡ c) ∧
  (∃ c', HasTimeSlot s k c = (Ok (view_slot c s k), c') ∧ wf c' ∧ c' ≡ c).
Proof.
  intros Hwf Ha Hp.
  assert (G : ∀ V (m : M (Ctx A E) V) v, reads m v → ∃ c', m c = (v c, c') ∧ wf c' ∧ c' ≡ c).
  { intros V m v Hm. destruct (Hm c Hwf) as (c' & Hr & Ht & He). exists c'. split_and!; try done. apply Ht. }
  split_and!.
  - apply (G _ _ (λ c, view_Account c a)). by apply reads_dirty; [apply read_Account|].
  - apply (G _ _ (λ c, view_Name c n)), read_AddressByName.
  - apply (G _ _ (λ c, view_HasAccount c a)), read_HasAccount.
  - apply (G _ _ (λ c, view_HasName c n)), read_HasAccountName.
  - by apply (G _ _ (λ c, view_AccountData c a p n)), read_AccountData.
  - by apply (G _ _ (λ c, view_ProcessData c p n)), read_ProcessData.
  - apply (G _ _ (λ c, view_UTXO c id)), read_UTXO.
  - apply (G _ _ (λ c, Ok (view_slot c s k))), read_HasTimeSlot.
Qed.

(** The data writes refine the abstract updates: after [SetAccountData]
    or [SetProcessData] the written key answers with the written value (an
    empty value deletes), and no other key, account, name, output or time
    slot changes. *)
Theorem data_writes_refine c a p n v :
  wf c → valid_addr a → valid_pid p →
  (∃ c', SetAccountData a p n v c = (Ok tt, c') ∧ wf c' ∧ abs c' ≡ abs_set_account_data a p n v (abs c)) ∧
  (∃ c', SetProcessData p n v c = (Ok tt, c') ∧ wf c' ∧ abs c' ≡ abs_set_process_data p n v (abs c)).
Proof.
  intros Hwf Ha Hp. split.
  - destruct (writes_dirty (ctd_SetAccountData a p n v) c (abs_set_account_data a p n v))
      as (c' & Hr & Ht & He); [intros; by apply write_AccountData|done|].
    exists c'. split_and!; try done. apply Ht.
  - destruct (write_ProcessData p n v c Hp Hwf) as (c' & Hr & Ht & He).
    exists c'. split_and!; try done. apply Ht.
Qed.

(** [CreateAccount] creates exactly the accounts it should: it succeeds
    when the address carries the target height, is not empty, the name is no
    address text, and neither address nor name exists; then the account and
    its name are readable and nothing else changed (for an address without a
    pending deletion).  When it succeeds, neither existed. *)
Theorem CreateAccount_spec acc c :
  wf c → view_Account c (acc_Address acc) ≠ Err ErrDeletedAccount →
  (creatable acc c →
   ∃ c', CreateAccount acc c = (Ok tt, c') ∧ wf c' ∧ abs c' ≡ abs_create_account acc (abs c)) ∧
  (∀ c', CreateAccount acc c = (Ok tt, c') →
     Height (acc_Address acc) = genTargetHeight c ∧ acc_Address acc ≠ emptyAddr ∧
     ParseAddress (acc_Name acc) = None ∧
     view_HasAccount c (acc_Address acc) ≠ Ok true ∧ view_HasName c (acc_Name acc) ≠ Ok true).
Proof.
  intros Hwf Hd. destruct (dirty_step c Hwf) as [Ht He]. split.
  - intros Hc. destruct (write_CreateAccount (λ e, bool_decide (e = ErrNotExistAccount)) acc (dirty c))
      as (c' & Hr & Ht' & He'); [apply Ht|done|done|].
    exists c'. split_and!; try done. apply Ht'.
  - intros c' Hr. change (CreateAccount acc c) with (ctd_CreateAccount acc (dirty c)) in Hr.
    by apply create_account_inv in Hr as (? & ? & ? & ? & ? & _); [|apply Ht].
Qed.

(** A context hash that was computed once is not recomputed after a change of
    process data. *)
Lemma SetProcessData_stale_hash `{HashFn} `{EH : EncodingHash A E} c h c1 p n v c2 :
  Ctx_Hash c = (Ok h, c1) → SetProcessData p n v c1 = (Ok tt, c2) → Ctx_Hash c2 = (Ok h, c2).
Proof.
  unfold Ctx_Hash, SetProcessData, ctd_SetProcessData, with_top. intros H1 H2.
  destruct (stack c1) eqn:Hs; simplify_eq. simpl.
  destruct (isLatestHash c) eqn:Hl; simplify_eq; [by rewrite Hl|].
  destruct (stack c); by simplify_eq/=.
Qed.

End ContextSpec.

(** ** Instances

    The theorems at work on a small account type (an address and a name) and
    on events that are their own number. *)
Module ContextExamples.

#[local] Instance pair_account : AccountI (Address * bytes).
Proof. by refine {| acc_Address := fst; acc_Name := snd; acc_Validate _ _ := Ok tt; acc_Clone a := a |}. Defined.
#[local] Instance number_event : EventI Z.
Proof. by refine {| ev_N e := e; ev_SetN n _ := n |}. Defined.
#[local] Existing Instance toy_base58.

Abbreviation ctx0 := (NewContext (A:=Address * bytes) (E:=Z) emptyLoader).

Lemma emptyLoader_ok : loader_ok (A:=Address * bytes) emptyLoader.
Proof. by split. Qed.

Definition a1 : Address := NewAddress 0 1 7.
Definition a2 : Address := NewAddress 0 2 9.

(** A context with one account, some data and one event. *)
Definition ctx1 : Ctx (Address * bytes) Z :=
  execs [OpCreateAccount (a1, str "alpha"); OpSetAccountData a1 1 (str "k") [5];
         OpSetProcessData 2 (str "q") [7]; OpEmitEvent 0; OpUseTimeSlot 3 (str "s")] ctx0.

Lemma ctx1_wf : wf ctx1.
Proof.
  apply execs_wf; [by apply NewContext_wf, emptyLoader_ok|]. by repeat constructor.
Qed.

Definition work : list (op (A:=Address * bytes) (E:=Z)) :=
  [OpSetAccountData a1 1 (str "k") []; OpCreateAccount (a2, str "beta"); OpSnapshot;
   OpSetProcessData 2 (str "q") [8]; OpEmitEvent 0; OpUseTimeSlot 3 (str "s"); OpCommit 3;
   OpAccountData a1 1 (str "k"); OpDeleteAccount (a1, str "alpha")].

Lemma snapshot_isolation_witness :
  ∃ c2, Revert 2 (execs work (Snapshot ctx1).2) = (Ok tt, c2) ∧ stack c2 = stack ctx1 ∧ wf c2 ∧ c2 ≡ ctx1 ∧
    ∀ id, HasUTXO id c2 = (ctd_HasUTXO (cache (execs work (Snapshot ctx1).2)) (stack ctx1) id, c2).
Proof.
  apply (snapshot_isolation ctx1 2 (Snapshot ctx1).2 work ctx1_wf).
  - vm_compute. reflexivity.
  - vm_compute. reflexivity.
  - unfold work. repeat constructor; vm_compute; done.
Defined.

(** Two layers: the lower one deletes the value that the upper one writes
    again. *)
Definition ctx2 : Ctx (Address * bytes) Z :=
  execs [OpSetAccountData a1 1 (str "k") []; OpSnapshot; OpSetAccountData a1 1 (str "k") [6];
         OpSetAccountData a1 1 (str "m") [9]] ctx1.

Lemma ctx2_wf : wf ctx2.
Proof.
  apply execs_wf; [apply ctx1_wf|]. by repeat constructor.
Qed.

Lemma Commit_views_witness :
  ∃ c', Commit 2 ctx2 = (Ok tt, c') ∧
    view_AccountData ctx2 a1 1 (str "k") = Ok [6] ∧ view_AccountData c' a1 1 (str "k") = Ok [] ∧
    view_AccountData c' a1 1 (str "m") = Ok [9].
Proof.
  destruct (stack ctx2) as [|u [|l st]] eqn:Hs; [by vm_compute in Hs..|].
  destruct (Commit_views ctx2 u l st ctx2_wf Hs) as (c' & Hc & _ & _ & _ & _ & HD & _).
  exists c'. split; [by rewrite <- Hc, Hs; vm_compute in Hs; simplify_eq|].
  split; [vm_compute; reflexivity|].
  rewrite !HD. vm_compute in Hs. injection Hs as <- <- <-. split; vm_compute; reflexivity.
Defined.

Lemma time_slot_replay_witness :
  ∃ c1, UseTimeSlot 3 (str "t") ctx1 = (Ok tt, c1) ∧
    (∃ c2, UseTimeSlot 3 (str "t") c1 = (Err ErrUsedTimeSlot, c2)) ∧
    ∃ sn c2 c3, Snapshot c1 = (Ok sn, c2) ∧ UseTimeSlot 3 (str "t") c2 = (Ok tt, c3).
Proof. apply (time_slot_replay ctx1 3 (str "t") ctx1_wf). vm_compute. reflexivity. Defined.

(** A loader with one output. *)
Definition utxo1 : UTXO := mkUTXO (mkTxIn 1 2 3) (mkTxOut 10 []).
Definition ld1 : Loader (Address * bytes) := {|
  ld_ChainID := 0; ld_Name := []; ld_Version := 0; ld_TargetHeight := 0;
  ld_LastHash := []; ld_LastTimestamp := 0;
  ld_Account _ := Err ErrNotExistAccount; ld_AddressByName _ := Err ErrNotExistAccount;
  ld_HasAccount _ := Ok false; ld_HasAccountName _ := Ok false; ld_AccountData _ _ _ := [];
  ld_HasUTXO id := Ok (id =? UTXO_ID utxo1);
  ld_UTXO id := if id =? UTXO_ID utxo1 then Ok utxo1 else Err ErrNotExistUTXO;
  ld_ProcessData _ _ := []; ld_HasTimeSlot _ _ := false |}.
Definition ctx3 : Ctx (Address * bytes) Z := NewContext ld1.

Lemma utxo_no_double_spend_witness :
  ∃ c2, DeleteUTXO utxo1 (execs [OpSnapshot; OpCreateUTXO 5 (mkTxOut 1 []); OpCommit 2]
          (DeleteUTXO utxo1 ctx3).2) = (Err ErrUsedUTXO, c2).
Proof.
  apply (utxo_no_double_spend ctx3 utxo1 (DeleteUTXO utxo1 ctx3).2).
  - apply NewContext_wf. by split.
  - vm_compute. reflexivity.
  - repeat constructor; vm_compute; done.
  - reflexivity.
Defined.

(** [HasUTXO] denies an output that the loader holds until a read has put it
    into the cache. *)
Example HasUTXO_depends_on_cache :
  (HasUTXO (UTXO_ID utxo1) ctx3).1 = Ok false ∧
  (HasUTXO (UTXO_ID utxo1) (ReadUTXO (UTXO_ID utxo1) ctx3).2).1 = Ok true.
Proof. split; vm_compute; reflexivity. Qed.

Lemma events_numbered_witness :
  ev_N <$> all_events (execs [OpEmitEvent 9; OpSnapshot; OpEmitEvent 9; OpEmitEvent 9; OpRevert 2;
    OpSnapshot; OpEmitEvent 9; OpCommit 2; OpEmitEvent 9] ctx0) = [0; 1; 2].
Proof.
  rewrite (events_numbered emptyLoader
    [OpEmitEvent 9; OpSnapshot; OpEmitEvent 9; OpEmitEvent 9; OpRevert 2;
     OpSnapshot; OpEmitEvent 9; OpCommit 2; OpEmitEvent 9] emptyLoader_ok).
  - vm_compute. reflexivity.
  - repeat constructor.
Defined.

Lemma NextContext_views_witness :
  abs (NextContext [1] 5 ctx1) ≡ abs ctx1 ∧ view_AccountData (NextContext [1] 5 ctx1) a1 1 (str "k") = Ok [5].
Proof.
  split; [|vm_compute; reflexivity]. apply (NextContext_views ctx1 [1] 5 ctx1_wf).
Defined.

Lemma reads_transparent_witness :
  ∃ c', AccountData a1 1 (str "k") ctx1 = (Ok [5], c') ∧ wf c' ∧ c' ≡ ctx1.
Proof.
  destruct (reads_transparent ctx1 a1 1 (str "k") 0 0 [] ctx1_wf) as (_ & _ & _ & _ & H & _);
    [reflexivity|by unfold valid_pid|].
  destruct H as (c' & H & Hw & He). exists c'. split; [|done]. rewrite H.
  f_equal.
Defined.

Lemma data_writes_refine_witness :
  ∃ c', SetAccountData a1 1 (str "k") [1; 2] ctx1 = (Ok tt, c') ∧ wf c' ∧
    abs c' ≡ abs_set_account_data a1 1 (str "k") [1; 2] (abs ctx1).
Proof.
  apply (data_writes_refine ctx1 a1 1 (str "k") [1; 2] ctx1_wf); [reflexivity|by unfold valid_pid].
Defined.

Lemma CreateAccount_spec_witness :
  ∃ c', CreateAccount (a2, str "beta") ctx1 = (Ok tt, c') ∧ wf c' ∧
    abs c' ≡ abs_create_account (a2, str "beta") (abs ctx1).
Proof.
  apply (CreateAccount_spec (a2, str "beta") ctx1 ctx1_wf).
  - vm_compute. done.
  - repeat split; vm_compute; done.
Defined.

End ContextExamples.
