(* ===== verification/OrderedMaps.v ===== *)
(** * core/types: the ordered maps

    The files map_*.go wrap one tree (GoLLRB) per pair of key and value type:
    lookups, [EachAll] in ascending order of the keys, and an encoder and
    decoder.  Here a map is a finite map iterated in key order, with the
    encoders and decoders of the files; the file TreeMaps has the methods as
    they are written, on the tree, and shows that they are these operations. *)

From S2P Require Import Prelude Tokens Amount Common Context ContextSpec.

(** ** The operations *)

Section OrderedMap.
Context {K V : Type} `{Countable K} `{KO : KeyOrder K}.
Implicit Types m : gmap K V.

Definition om_Len m : nat := size m.
Definition om_Has (k : K) m : bool := bool_decide (is_Some (m !! k)).
Definition om_Get (k : K) m : option V := m !! k.
Definition om_Put (k : K) (v : V) m : gmap K V := <[k := v]> m.
Definition om_Delete (k : K) m : gmap K V := delete k m.

(** [EachAll]: the callback says whether to go on. *)
Fixpoint each {S : Type} (fn : K → V → S → bool * S) (l : list (K * V)) (s : S) : S :=
  match l with
  | [] => s
  | (k, v) :: l => let '(go, s) := fn k v s in if go then each fn l s else s
  end.
Definition om_EachAll {S : Type} (fn : K → V → S → bool * S) m (s : S) : S := each fn (sorted_entries m) s.

End OrderedMap.

(** [AscendRange(prefix, prefix + "\xff")]: from the prefix on, up to the
    prefix followed by the byte 255. *)
Definition in_prefix (prefix k : bytes) : bool :=
  negb (key_lt k prefix) && key_lt k (prefix ++ [255]).
Definition om_EachPrefix {V S : Type} (prefix : bytes) (fn : bytes → V → S → bool * S) (m : gmap bytes V) (s : S) : S :=
  each fn (filter (λ e, in_prefix prefix e.1 = true) (sorted_entries m)) s.

(** *** Key orders *)

Class KeyOrderLaws (K : Type) `{KeyOrder K} : Prop := {
  key_irrefl : ∀ a : K, key_lt a a = false;
  key_trans : ∀ a b c : K, key_lt a b = true → key_lt b c = true → key_lt a c = true;
  key_total : ∀ a b : K, key_lt a b = true ∨ a = b ∨ key_lt b a = true;
}.
#[export] Instance bytes_order_laws : KeyOrderLaws (list Z).
Proof. split; [apply bytes_lt_irrefl|apply bytes_lt_trans|apply bytes_lt_total]. Qed.
#[export] Instance Z_order_laws : KeyOrderLaws Z.
Proof. split; unfold key_lt, Z_order; intros; lia. Qed.

Lemma each_all {K V : Type} (l r : list (K * V)) : each (λ k v l, (true, l ++ [(k, v)])) l r = r ++ l.
Proof.
  revert r. induction l as [|[k v] l IH]; intros r; simpl; [by rewrite app_nil_r|]. by rewrite IH, <- app_assoc.
Qed.

Lemma sorted_entries_ascending {K V} `{Countable K, KO : KeyOrder K} `{!KeyOrderLaws K} (m : gmap K V) :
  StronglySorted (λ a b, key_lt a b = true) (sorted_entries m).*1.
Proof.
  assert (Hs : StronglySorted entry_le (sorted_entries m)).
  { apply StronglySorted_merge_sort; intros p q; unfold entry_le.
    - intros r H1 H2. destruct (key_lt r.1 p.1) eqn:E0; [|done].
      destruct (key_total p.1 q.1) as [G|[G|G]]; [|by rewrite <- G in *; congruence|congruence].
      by rewrite (key_trans _ _ _ E0 G) in H2.
    - destruct (key_lt q.1 p.1) eqn:E0; [right|by left]. destruct (key_lt p.1 q.1) eqn:E1; [|done].
      pose proof (key_trans _ _ _ E0 E1) as E2. by rewrite key_irrefl in E2. }
  pose proof (sorted_entries_nodup m) as Hnd. revert Hs Hnd. generalize (sorted_entries m) as l.
  induction l as [|e l IH]; intros Hs Hnd; csimpl; [constructor|].
  apply StronglySorted_inv in Hs as [Hs He]. csimpl in Hnd. apply NoDup_cons in Hnd as [Hne Hnd]. constructor; [auto|].
  apply Forall_fmap, Forall_forall. intros f Hf. rewrite Forall_forall in He. specialize (He f Hf). unfold entry_le in He. simpl.
  destruct (key_total e.1 f.1) as [|[G|G]]; [done| |congruence].
  destruct Hne. rewrite G. by apply list_elem_of_fmap_2.
Qed.

Lemma in_prefix_app p r : Forall is_byte r → in_prefix p (p ++ r) = negb (bool_decide (head r = Some 255)).
Proof.
  intros Hr. unfold in_prefix, key_lt, bytes_order, bytes_lt.
  assert (Hc : ∀ x y, bytes_compare (p ++ x) (p ++ y) = bytes_compare x y).
  { intros x y. induction p as [|b p IH]; simpl; [done|]. by rewrite Z.compare_refl. }
  rewrite Hc. rewrite <- (app_nil_r p) at 2. rewrite Hc. destruct r as [|b r]; [done|]. simpl.
  apply Forall_cons in Hr as [Hb _]. unfold is_byte in Hb.
  destruct (Z.compare_spec b 255) as [->|Hlt|Hgt]; [|rewrite bool_decide_eq_false_2 by (intros [=]; lia); done|lia].
  rewrite bool_decide_eq_true_2 by done. by destruct r.
Qed.

Lemma in_prefix_true p k : in_prefix p k = true → p `prefix_of` k.
Proof.
  unfold in_prefix, key_lt, bytes_order, bytes_lt. rewrite andb_true_iff, negb_true_iff. revert k.
  induction p as [|b p IH]; intros k [H1 H2]; [apply prefix_nil|]. destruct k as [|x k]; [done|]. simpl in H1, H2.
  destruct (Z.compare_spec x b) as [->|Hlt|Hgt]; [|done|done]. apply prefix_cons, IH. auto.
Qed.

(** [EachPrefix] visits, in ascending order, the entries whose key has the
    prefix; the only ones it leaves out are those that go on with the byte
    255, which no text in UTF-8 does. *)
Theorem EachPrefix_visits {V} (prefix : bytes) (m : gmap bytes V) :
  map_Forall (λ k _, Forall is_byte k) m →
  let seen := om_EachPrefix prefix (λ k v l, (true, l ++ [(k, v)])) m [] in
  StronglySorted (λ a b, key_lt a b = true) seen.*1 ∧
  ∀ k v, (k, v) ∈ seen ↔ m !! k = Some v ∧ ∃ r, k = prefix ++ r ∧ head r ≠ Some 255.
Proof.
  intros Hm. cbv zeta. unfold om_EachPrefix. rewrite each_all. cbn [app]. split.
  - pose proof (sorted_entries_ascending m) as Hs. revert Hs. generalize (sorted_entries m) as l.
    induction l as [|e l IH]; intros Hs; csimpl; [constructor|]. csimpl in Hs. apply StronglySorted_inv in Hs as [Hs He].
    rewrite filter_cons. case_decide; [|auto]. csimpl. constructor; [auto|].
    apply Forall_fmap, Forall_forall. intros f [_ Hf]%list_elem_of_filter. rewrite Forall_fmap, Forall_forall in He. by apply He.
  - intros k v. rewrite list_elem_of_filter, elem_of_sorted_entries. cbn [fst]. split; intros [H1 H2].
    + split; [done|]. destruct (in_prefix_true _ _ H1) as [r ->]. exists r. split; [done|].
      specialize (Hm _ _ H2). cbn beta in Hm. apply Forall_app in Hm as [_ Hr].
      rewrite in_prefix_app, negb_true_iff, bool_decide_eq_false in H1 by done. done.
    + destruct H2 as (r & -> & Hr). split; [|done]. specialize (Hm _ _ H1). cbn beta in Hm. apply Forall_app in Hm as [_ Hb].
      rewrite in_prefix_app, negb_true_iff, bool_decide_eq_false by done. done.
Qed.

Lemma EachPrefix_visits_witness :
  om_EachPrefix [1] (λ k v l, (true, l ++ [(k, v)])) {[ [1; 2] := true; [2] := false ]} [] = [([1; 2], true)] ∧
  StronglySorted (λ a b, key_lt a b = true)
    (om_EachPrefix [1] (λ k v l, (true, l ++ [(k, v)])) {[ [1; 2] := true; [2] := false ]} []).*1.
Proof.
  split; [vm_compute; reflexivity|]. apply (EachPrefix_visits [1] {[ [1; 2] := true; [2] := false ]}).
  apply map_Forall_insert_2; [repeat constructor; lia|]. apply map_Forall_singleton. repeat constructor; lia.
Defined.

(** ** Encoders and decoders

    How a key or a value is written and read. *)
Record ElemCodec (V : Type) := mkElem {
  el_enc : V → res (list ctoken);
  el_dec : list ctoken → res (V * list ctoken);
}.
Arguments mkElem {V} _ _.
Arguments el_enc {V} _ _.
Arguments el_dec {V} _ _.

Section MapCodec.
Context {K V : Type} `{Countable K} `{KO : KeyOrder K}.
Context (kc : ElemCodec K) (vc : ElemCodec V).
Implicit Types m : gmap K V.

(** The callback of the encoder: the first error stops the iteration. *)
Definition encode_entry (k : K) (v : V) (acc : res (list ctoken)) : bool * res (list ctoken) :=
  match (out ← acc; ks ← el_enc kc k; vs ← el_enc vc v; mret (out ++ ks ++ vs)) with
  | Ok out => (true, Ok out)
  | r => (false, r)
  end.
Definition map_encode m : res (list ctoken) :=
  om_EachAll encode_entry m (Ok [CtArrayLen (om_Len m)]).

Fixpoint decode_entries (n : nat) (item : gmap K V) (ts : list ctoken) : res (gmap K V * list ctoken) :=
  match n with
  | O => mret (item, ts)
  | S n =>
      '(k, ts) ← el_dec kc ts;
      '(v, ts) ← el_dec vc ts;
      decode_entries n (om_Put k v item) ts
  end.
Definition map_decode (ts : list ctoken) : res (gmap K V * list ctoken) :=
  '(Len, ts) ← read_ArrayLen ts;
  decode_entries Len ∅ ts.

Definition map_codec : ElemCodec (gmap K V) := mkElem map_encode map_decode.

End MapCodec.

(** *** Keys and values *)

Definition plain {V} (enc : V → ctoken) (dec : list ctoken → res (V * list ctoken)) : ElemCodec V :=
  mkElem (λ v, Ok [enc v]) dec.
Definition uint8_codec : ElemCodec Z := plain (λ n, CtUint8 (u8 n)) read_Uint8.
Definition uint32_codec : ElemCodec Z := plain (λ n, CtUint32 (u32 n)) read_Uint32.
Definition uint64_codec : ElemCodec Z := plain (λ n, CtUint64 (u64 n)) read_Uint64.
Definition bool_codec : ElemCodec bool := plain CtBool read_Bool.
Definition string_codec : ElemCodec bytes := plain CtString read_String.
Definition bytes_codec : ElemCodec bytes := plain CtBytes read_Bytes.

(** An array of fixed size: [copy(addr[:], bs)]. *)
Definition array_codec (zero : bytes) : ElemCodec bytes :=
  plain CtBytes (λ ts, '(bs, ts) ← read_Bytes ts; mret (copy zero bs, ts)).
Definition addr_codec : ElemCodec Address := array_codec emptyAddr.
Definition pubhash_codec : ElemCodec PublicHash := array_codec (replicate 31 0).

Definition amount_codec : ElemCodec Z :=
  plain (λ am, CtBytes (Amount.Bytes am)) (λ ts, '(bs, ts) ← read_Bytes ts; mret (Amount.NewAmountFromBytes bs, ts)).

(** Accounts are written with the number that the factory knows their type
    by, then with the codec of that type. *)
Record AccountFactory (A : Type) := mkFactory {
  fc_TypeOf : A → res Z;
  fc_Create : Z → res A;
  fc_encode : A → res (list ctoken);
  fc_decode : A → list ctoken → res (A * list ctoken);
}.
Arguments fc_TypeOf {A} _ _.
Arguments fc_Create {A} _ _.
Arguments fc_encode {A} _ _.
Arguments fc_decode {A} _ _ _.

Definition account_codec {A} (fc : AccountFactory A) : ElemCodec A :=
  mkElem (λ acc, t ← fc_TypeOf fc acc; ts ← fc_encode fc acc; mret (CtUint16 t :: ts))
         (λ ts, '(t, ts) ← read_Uint16 ts; acc ← fc_Create fc t; fc_decode fc acc ts).

(** *** The maps *)

Definition AddressAccountMap {A} (fc : AccountFactory A) : ElemCodec (gmap Address A) :=
  map_codec addr_codec (account_codec fc).
Definition AddressAddressMap : ElemCodec (gmap Address Address) := map_codec addr_codec addr_codec.
Definition AddressAmountMap : ElemCodec (gmap Address Z) := map_codec addr_codec amount_codec.
Definition AddressAddressAmountMap : ElemCodec (gmap Address (gmap Address Z)) :=
  map_codec addr_codec AddressAmountMap.
Definition AddressBoolMap : ElemCodec (gmap Address bool) := map_codec addr_codec bool_codec.
Definition AddressUint32Map : ElemCodec (gmap Address Z) := map_codec addr_codec uint32_codec.
Definition AddressUint64Map : ElemCodec (gmap Address Z) := map_codec addr_codec uint64_codec.
Definition PublicHashBoolMap : ElemCodec (gmap PublicHash bool) := map_codec pubhash_codec bool_codec.
Definition StringAddressMap : ElemCodec (gmap bytes Address) := map_codec string_codec addr_codec.
Definition StringBoolMap : ElemCodec (gmap bytes bool) := map_codec string_codec bool_codec.
Definition StringBytesMap : ElemCodec (gmap bytes bytes) := map_codec string_codec bytes_codec.
Definition StringStringMap : ElemCodec (gmap bytes bytes) := map_codec string_codec string_codec.
Definition Uint8StringBytesMap : ElemCodec (gmap Z (gmap bytes bytes)) := map_codec uint8_codec StringBytesMap.
Definition Uint32StringBoolMap : ElemCodec (gmap Z (gmap bytes bool)) := map_codec uint32_codec StringBoolMap.
Definition Uint64BoolMap : ElemCodec (gmap Z bool) := map_codec uint64_codec bool_codec.

(** Outputs are written by the codec of their struct, outside the
    repository. *)
Definition Uint64TxOutMap (vout : ElemCodec TxOut) : ElemCodec (gmap Z TxOut) := map_codec uint64_codec vout.
Definition Uint64UTXOMap (utxo : ElemCodec UTXO) : ElemCodec (gmap Z UTXO) := map_codec uint64_codec utxo.

(** ** Round trips *)

(** A value is read back, whatever follows it. *)
Definition reads_back {V} (vc : ElemCodec V) (v : V) : Prop :=
  ∃ ts, el_enc vc v = Ok ts ∧ ∀ rest, el_dec vc (ts ++ rest) = Ok (v, rest).

Lemma plain_reads_back {V} (enc : V → ctoken) dec v :
  (∀ rest, dec (enc v :: rest) = Ok (v, rest)) → reads_back (plain enc dec) v.
Proof. intros Hd. by exists [enc v]. Qed.

Section RoundTrip.
Context {K V : Type} `{Countable K} `{KO : KeyOrder K}.
Context (kc : ElemCodec K) (vc : ElemCodec V).
Implicit Types (m : gmap K V) (l : list (K * V)).

Definition entry_reads_back (e : K * V) : Prop := reads_back kc e.1 ∧ reads_back vc e.2.

Lemma encode_each l out :
  Forall entry_reads_back l →
  ∃ ts, each (encode_entry kc vc) l (Ok out) = Ok (out ++ ts) ∧
    ∀ m rest, decode_entries kc vc (length l) m (ts ++ rest) = Ok (foldl (λ m e, <[e.1 := e.2]> m) m l, rest).
Proof.
  revert out. induction l as [|[k v] l IH]; intros out Hl.
  { exists []. split; [by rewrite app_nil_r|done]. }
  apply Forall_cons in Hl as [[(ks & Hk & Hdk) (vs & Hv & Hdv)] Hl]. cbn [fst snd] in *.
  destruct (IH (out ++ ks ++ vs) Hl) as (ts & He & Hd). exists (ks ++ vs ++ ts). split.
  - cbn [each]. unfold encode_entry at 1. rewrite Hk, Hv. cbn [mbind res_bind mret res_ret].
    rewrite He. by rewrite <- !app_assoc.
  - intros m rest. cbn [length decode_entries foldl]. rewrite <- !app_assoc, Hdk. cbn [mbind res_bind].
    rewrite Hdv. cbn [mbind res_bind]. rewrite Hd. done.
Qed.

Lemma foldl_put_sorted m : foldl (λ m e, <[e.1 := e.2]> m) ∅ (sorted_entries m) = m.
Proof.
  change (EachAll (λ k v t, <[k := v]> t) m ∅ = m). rewrite EachAll_put. apply map_union_empty.
Qed.

Lemma map_reads_back m :
  (∀ k v, m !! k = Some v → reads_back kc k ∧ reads_back vc v) → reads_back (map_codec kc vc) m.
Proof.
  intros Hm. destruct (encode_each (sorted_entries m) [CtArrayLen (size m)]) as (ts & He & Hd).
  { apply Forall_forall. intros [k v] Hin%elem_of_sorted_entries. by apply Hm. }
  exists (CtArrayLen (size m) :: ts). split; [exact He|]. intros rest.
  cbn [el_dec map_codec]. unfold map_decode. cbn [app read_ArrayLen mbind res_bind].
  assert (length (sorted_entries m) = size m) as <- by (rewrite sorted_entries_perm; apply length_map_to_list).
  rewrite Hd, foldl_put_sorted. done.
Qed.

End RoundTrip.

Lemma addr_reads_back a : valid_addr a → reads_back addr_codec a.
Proof.
  intros Ha. apply plain_reads_back. intros rest.
  change (Ok (copy emptyAddr a, rest) = Ok (a, rest)). by rewrite copy_same_length by (by rewrite Ha).
Qed.
(** The sign of an amount is not written. *)
Definition non_negative (am : Z) : Prop := 0 ≤ am.
Lemma amount_reads_back am : non_negative am → reads_back amount_codec am.
Proof.
  intros Ham. apply plain_reads_back. intros rest.
  change (Ok (Amount.NewAmountFromBytes (Amount.Bytes am), rest) = Ok (am, rest)).
  by rewrite Amount.NewAmountFromBytes_Bytes, Z.abs_eq.
Qed.
Lemma string_reads_back s : reads_back string_codec s.
Proof. by apply plain_reads_back. Qed.
Lemma bytes_reads_back s : reads_back bytes_codec s.
Proof. by apply plain_reads_back. Qed.
Lemma bool_reads_back b : reads_back bool_codec b.
Proof. by apply plain_reads_back. Qed.
Lemma uint64_reads_back n : is_u64 n → reads_back uint64_codec n.
Proof. intros Hn. apply plain_reads_back. intros rest. by rewrite u64_small. Qed.
Lemma uint32_reads_back n : is_u32 n → reads_back uint32_codec n.
Proof. intros Hn. apply plain_reads_back. intros rest. by rewrite u32_small. Qed.
Lemma uint8_reads_back n : is_u8 n → reads_back uint8_codec n.
Proof. intros Hn. apply plain_reads_back. intros rest. by rewrite u8_small. Qed.
Definition valid_pubhash (h : PublicHash) : Prop := length h = 31%nat.
Lemma pubhash_reads_back h : valid_pubhash h → reads_back pubhash_codec h.
Proof.
  intros Hh. apply plain_reads_back. intros rest.
  change (Ok (copy (replicate 31 0) h, rest) = Ok (h, rest)). by rewrite copy_same_length by (by rewrite Hh).
Qed.
(** The number of an account's type is known to the factory, and the codec of
    that type, which is outside the repository, reads it back. *)
Definition registered {A} (fc : AccountFactory A) (acc : A) : Prop :=
  ∃ t new ts, fc_TypeOf fc acc = Ok t ∧ fc_Create fc t = Ok new ∧ fc_encode fc acc = Ok ts ∧
    ∀ rest, fc_decode fc new (ts ++ rest) = Ok (acc, rest).
Lemma account_reads_back {A} (fc : AccountFactory A) (acc : A) :
  registered fc acc → reads_back (account_codec fc) acc.
Proof.
  intros (t & new & ts & Ht & Hc & He & Hd). exists (CtUint16 t :: ts). split.
  - cbn [el_enc account_codec]. by rewrite Ht, He.
  - intros rest. cbn [el_dec account_codec app read_Uint16 mbind res_bind]. rewrite Hc. apply Hd.
Qed.

Create HintDb reads_back.
#[export] Hint Resolve addr_reads_back amount_reads_back string_reads_back bytes_reads_back bool_reads_back
  uint64_reads_back uint32_reads_back uint8_reads_back pubhash_reads_back account_reads_back : reads_back.

(** What the keys and the values of a map have to be, to be read back. *)
Definition entries {K V} `{Countable K} (P : K → Prop) (Q : V → Prop) (m : gmap K V) : Prop :=
  ∀ k v, m !! k = Some v → P k ∧ Q v.
Definition anything {V} (v : V) : Prop := True.

Lemma entries_read_back {K V} `{Countable K, KO : KeyOrder K} (kc : ElemCodec K) (vc : ElemCodec V) (P : K → Prop) (Q : V → Prop) m :
  (∀ k, P k → reads_back kc k) → (∀ v, Q v → reads_back vc v) →
  entries P Q m → reads_back (map_codec kc vc) m.
Proof. intros Hk Hv Hm. apply map_reads_back. intros k v E. destruct (Hm k v E). auto. Qed.

(** A map of amounts. *)
Definition amounts_ok (m : gmap Address Z) : Prop := entries valid_addr non_negative m.

Lemma AddressAmountMap_reads_back m : amounts_ok m → reads_back AddressAmountMap m.
Proof. intros Hm. eapply entries_read_back; [| |exact Hm]; auto with reads_back. Qed.
#[export] Hint Resolve AddressAmountMap_reads_back : reads_back.

(** C38. Each of the seventeen map types of core/types is read back as it was
    written, whatever follows it, nested maps included, when the values have
    their width: addresses of 14 bytes, public hashes of 31 bytes, numbers of
    8, 32 or 64 bits; and when amounts are not negative (their sign is not
    written).  Three value types are written by code that the maps only call:
    an account has to have a type that the factory knows and a codec that
    reads it back, and so have the codecs of outputs and of unspent
    outputs. *)
Theorem ordered_maps_roundtrip {A} (fc : AccountFactory A) (vout : ElemCodec TxOut) (utxo : ElemCodec UTXO) :
  (∀ m, entries valid_addr (registered fc) m → reads_back (AddressAccountMap fc) m) ∧
  (∀ m, entries valid_addr valid_addr m → reads_back AddressAddressMap m) ∧
  (∀ m, amounts_ok m → reads_back AddressAmountMap m) ∧
  (∀ m, entries valid_addr amounts_ok m → reads_back AddressAddressAmountMap m) ∧
  (∀ m, entries valid_addr anything m → reads_back AddressBoolMap m) ∧
  (∀ m, entries valid_addr is_u32 m → reads_back AddressUint32Map m) ∧
  (∀ m, entries valid_addr is_u64 m → reads_back AddressUint64Map m) ∧
  (∀ m, entries valid_pubhash anything m → reads_back PublicHashBoolMap m) ∧
  (∀ m, entries anything valid_addr m → reads_back StringAddressMap m) ∧
  (∀ m, reads_back StringBoolMap m) ∧
  (∀ m, reads_back StringBytesMap m) ∧
  (∀ m, reads_back StringStringMap m) ∧
  (∀ m, entries is_u8 anything m → reads_back Uint8StringBytesMap m) ∧
  (∀ m, entries is_u32 anything m → reads_back Uint32StringBoolMap m) ∧
  (∀ m, entries is_u64 anything m → reads_back Uint64BoolMap m) ∧
  (∀ m, entries is_u64 (reads_back vout) m → reads_back (Uint64TxOutMap vout) m) ∧
  (∀ m, entries is_u64 (reads_back utxo) m → reads_back (Uint64UTXOMap utxo) m).
Proof.
  assert (∀ m, reads_back StringBytesMap m) by (intros; apply map_reads_back; eauto with reads_back).
  assert (∀ m, reads_back StringBoolMap m) by (intros; apply map_reads_back; eauto with reads_back).
  split_and!; intros m; try done; try (intros Hm; eapply entries_read_back; [| |exact Hm]; auto 3 with reads_back).
  apply map_reads_back; auto with reads_back.
Qed.

(** The accounts of the witness: a number, of one type. *)
Definition number_factory : AccountFactory Z :=
  mkFactory Z (λ _, Ok 7) (λ t, if t =? 7 then Ok 0 else Err read_error) (λ n, Ok [CtUint64 n])
    (λ _ ts, read_Uint64 ts).
Definition out_codec : ElemCodec TxOut :=
  mkElem (λ o, Ok [CtBytes (Amount.Bytes (out_Amount o)); CtBytes (out_PublicHash o)])
    (λ ts, '(am, ts) ← read_Bytes ts; '(h, ts) ← read_Bytes ts; mret (mkTxOut (Amount.NewAmountFromBytes am) h, ts)).
Definition unspent_codec : ElemCodec UTXO :=
  mkElem (λ u, Ok [CtUint64 (UTXO_ID u); CtBytes (Amount.Bytes (out_Amount (utxo_TxOut u))); CtBytes (out_PublicHash (utxo_TxOut u))])
    (λ ts, '(id, ts) ← read_Uint64 ts; '(o, ts) ← el_dec out_codec ts; mret (mkUTXO (NewTxIn id) o, ts)).

Lemma ordered_maps_roundtrip_witness :
  reads_back (AddressAccountMap number_factory) {[ replicate 14 1 := 5 ]} ∧
  reads_back AddressAddressAmountMap {[ replicate 14 2 := {[ replicate 14 1 := 7; replicate 14 3 := 0 ]} ]} ∧
  reads_back Uint8StringBytesMap {[ 255 := {[ [65] := [1; 2] ]} ]} ∧
  reads_back (Uint64TxOutMap out_codec) {[ 2 ^ 64 - 1 := mkTxOut 5 [9] ]} ∧
  reads_back (Uint64UTXOMap unspent_codec) {[ 1 := mkUTXO (mkTxIn 0 0 1) (mkTxOut 5 [9]) ]}.
Proof.
  destruct (ordered_maps_roundtrip number_factory out_codec unspent_codec)
    as (H1 & _ & _ & H4 & _ & _ & _ & _ & _ & _ & _ & _ & H13 & _ & _ & H16 & H17).
  split_and!; [apply H1|apply H4|apply H13|apply H16|apply H17]; apply map_Forall_singleton.
  - split; [reflexivity|]. exists 7, 0, [CtUint64 5]. by split_and!.
  - split; [reflexivity|]. apply map_Forall_insert_2; [by split|]. apply map_Forall_singleton. by split.
  - by split.
  - split; [by split|]. eexists. by split.
  - split; [by split|]. eexists. by split.
Defined.

(** A negative amount comes back with the other sign. *)
Example negative_amount_changes_sign :
  el_dec AddressAmountMap [CtArrayLen 1; CtBytes (replicate 14 1); CtBytes (Amount.Bytes (-7))]
  = Ok ({[ replicate 14 1 := 7 ]}, []).
Proof. reflexivity. Qed.
