(* ===== verification/TreeMaps.v ===== *)
(** * core/types: the ordered maps on their tree

    A map of core/types is an LLRB tree (github.com/petar/GoLLRB) whose items
    are pairs of a key and a value, compared by a [Less] that also knows the
    two ends [ninf] and [pinf].  The tree is third-party code: a parameter,
    with what its documentation says of each method in terms of [Less].  The
    methods of the files are written on it as they are in the code, and are
    shown to be the operations of the finite maps that the other files use
    ([tree_maps_refine]). *)

From S2P Require Import Prelude Tokens Amount Common Context OrderedMaps.

(** ** The tree *)

(** [llrb.Item]. *)
Class Item (I : Type) := Less : I → I → bool.
(** Neither item is less: the tree can hold only one of them. *)
Definition same_order {I} `{Item I} (a b : I) : bool := negb (Less a b) && negb (Less b a).

(** An iterator says whether to go on. *)
Fixpoint iterate {I S : Type} (fn : I → S → bool * S) (l : list I) (s : S) : S :=
  match l with
  | [] => s
  | x :: l => let '(go, s) := fn x s in if go then iterate fn l s else s
  end.

(** The methods of [llrb.LLRB] that the maps call; [t_items] is what a tree
    holds, in ascending order. *)
Record LLRB (I : Type) := mkLLRB {
  tree : Type;
  t_items : tree → list I;
  t_New : tree;
  t_Len : tree → nat;
  t_Has : I → tree → bool;
  t_Get : I → tree → option I;
  t_ReplaceOrInsert : I → tree → tree;
  t_Delete : I → tree → tree;
  t_AscendRange : ∀ S : Type, I → I → (I → S → bool * S) → tree → S → S;
}.
Arguments tree {I} _.
Arguments t_items {I} _ _.
Arguments t_New {I} _.
Arguments t_Len {I} _ _.
Arguments t_Has {I} _ _ _.
Arguments t_Get {I} _ _ _.
Arguments t_ReplaceOrInsert {I} _ _ _.
Arguments t_Delete {I} _ _ _.
Arguments t_AscendRange {I} _ {S} _ _ _ _ _.

(** [Less] is a strict weak ordering of the items that satisfy [P]; the tree
    asks for that. *)
Record strict_weak {I} `{Item I} (P : I → Prop) : Prop := {
  sw_irrefl : ∀ a, P a → Less a a = false;
  sw_trans : ∀ a b c, P a → P b → P c → Less a b = true → Less b c = true → Less a c = true;
  sw_same : ∀ a b c, P a → P b → P c → same_order a b = true → same_order b c = true → same_order a c = true;
}.

(** A bound of a range cuts the items in two: those below it come first. *)
Definition cuts {I} `{Item I} (P : I → Prop) (x : I) : Prop :=
  ∀ a b, P a → P b → Less a b = true → Less b x = true → Less a x = true.

(** What the documentation of the tree says, for items that are ordered. *)
Record LLRB_laws {I} `{Item I} (L : LLRB I) : Prop := {
  l_New : t_items L (t_New L) = [];
  l_Len : ∀ t, t_Len L t = length (t_items L t);
  l_Has : ∀ P k t, strict_weak P → P k → Forall P (t_items L t) → StronglySorted (λ a b, Less a b = true) (t_items L t) →
    t_Has L k t = existsb (same_order k) (t_items L t);
  l_Get : ∀ P k t, strict_weak P → P k → Forall P (t_items L t) → StronglySorted (λ a b, Less a b = true) (t_items L t) →
    t_Get L k t = List.find (same_order k) (t_items L t);
  l_ReplaceOrInsert : ∀ P x t, strict_weak P → P x → Forall P (t_items L t) →
    StronglySorted (λ a b, Less a b = true) (t_items L t) →
    t_items L (t_ReplaceOrInsert L x t)
    = filter (λ a, Less a x = true) (t_items L t) ++ x :: filter (λ a, Less x a = true) (t_items L t);
  l_Delete : ∀ P k t, strict_weak P → P k → Forall P (t_items L t) → StronglySorted (λ a b, Less a b = true) (t_items L t) →
    t_items L (t_Delete L k t) = filter (λ a, same_order k a = false) (t_items L t);
  l_AscendRange : ∀ P (S : Type) ge lt (fn : I → S → bool * S) t s,
    strict_weak P → cuts P ge → cuts P lt → Forall P (t_items L t) → StronglySorted (λ a b, Less a b = true) (t_items L t) →
    t_AscendRange L ge lt fn t s = iterate fn (filter (λ a, Less a ge = false ∧ Less a lt = true) (t_items L t)) s;
}.

(** ** The maps *)

(** What a tree of a map compares: its pairs and the two ends. *)
Inductive item (K V : Type) : Type :=
  | Ninf
  | Pinf
  | Pair (key : K) (value : V).
Arguments Ninf {K V}.
Arguments Pinf {K V}.
Arguments Pair {K V} _ _.

(** What the files differ in: how [Less] compares two keys, and the zero
    value, which a lookup item holds and [Get] returns when there is none. *)
Record MapFile (K V : Type) := mkFile {
  mf_lt : K → K → bool;
  mf_zero : V;
}.
Arguments mkFile {K V} _ _.
Arguments mf_lt {K V} _ _ _.
Arguments mf_zero {K V} _.

Section Methods.
Context {K V : Type} (f : MapFile K V).

Definition item_Less (a b : item K V) : bool :=
  match a, b with
  | Ninf, _ => true
  | Pinf, _ => false
  | Pair _ _, Ninf => false
  | Pair _ _, Pinf => true
  | Pair k _, Pair k' _ => mf_lt f k k'
  end.
#[local] Instance item_item : Item (item K V) := item_Less.

Context (L : LLRB (item K V)).
Implicit Types sm : tree L.

(** [&pair{key: k}]. *)
Definition key_item (k : K) : item K V := Pair k (mf_zero f).

Definition sm_New : tree L := t_New L.
Definition sm_Len sm : nat := t_Len L sm.
Definition sm_Has (k : K) sm : bool := t_Has L (key_item k) sm.
Definition sm_Get (k : K) sm : res (V * bool) :=
  match t_Get L (key_item k) sm with
  | None => Ok (mf_zero f, false)
  | Some (Pair _ v) => Ok (v, true)
  | Some _ => Panic                     (* item.( *pair) of another type *)
  end.
Definition sm_Put (k : K) (v : V) sm : tree L := t_ReplaceOrInsert L (Pair k v) sm.
Definition sm_Delete (k : K) sm : tree L := t_Delete L (key_item k) sm.

(** The iterator of a range calls [fn] on the pair. *)
Definition on_pair {S : Type} (fn : K → V → S → bool * S) (x : item K V) (s : res S) : bool * res S :=
  match x, s with
  | Pair k v, Ok s => let '(go, s) := fn k v s in (go, Ok s)
  | _, _ => (false, Panic)
  end.
Definition sm_EachAll {S : Type} (fn : K → V → S → bool * S) sm (s : S) : res S :=
  t_AscendRange L Ninf Pinf (on_pair fn) sm (Ok s).

End Methods.

Definition sm_EachPrefix {V S : Type} (f : MapFile bytes V) (L : LLRB (item bytes V)) (prefix : bytes)
    (fn : bytes → V → S → bool * S) (sm : tree L) (s : S) : res S :=
  t_AscendRange L (key_item f prefix) (key_item f (prefix ++ [255])) (on_pair fn) sm (Ok s).

(** *** The files

    The zero value of a pointer or an interface is [nil], which is an
    argument here. *)
Definition AddressAccountMap_file {A} (nil : A) : MapFile Address A := mkFile bytes_lt nil.
Definition AddressAddressMap_file : MapFile Address Address := mkFile bytes_lt emptyAddr.
Definition AddressAmountMap_file (nil : Z) : MapFile Address Z := mkFile bytes_lt nil.
Definition AddressAddressAmountMap_file (nil : gmap Address Z) : MapFile Address (gmap Address Z) := mkFile bytes_lt nil.
Definition AddressBoolMap_file : MapFile Address bool := mkFile bytes_lt false.
Definition AddressUint32Map_file : MapFile Address Z := mkFile bytes_lt 0.
Definition AddressUint64Map_file : MapFile Address Z := mkFile bytes_lt 0.
Definition PublicHashBoolMap_file : MapFile PublicHash bool := mkFile bytes_lt false.
Definition StringAddressMap_file : MapFile bytes Address := mkFile bytes_lt emptyAddr.
Definition StringBoolMap_file : MapFile bytes bool := mkFile bytes_lt false.
Definition StringBytesMap_file : MapFile bytes bytes := mkFile bytes_lt [].
Definition StringStringMap_file : MapFile bytes bytes := mkFile bytes_lt [].
Definition Uint8StringBytesMap_file (nil : gmap bytes bytes) : MapFile Z (gmap bytes bytes) := mkFile Z.ltb nil.
Definition Uint32StringBoolMap_file (nil : gmap bytes bool) : MapFile Z (gmap bytes bool) := mkFile Z.ltb nil.
Definition Uint64BoolMap_file : MapFile Z bool := mkFile Z.ltb false.
Definition Uint64TxOutMap_file (nil : TxOut) : MapFile Z TxOut := mkFile Z.ltb nil.
Definition Uint64UTXOMap_file (nil : UTXO) : MapFile Z UTXO := mkFile Z.ltb nil.

(** ** Refinement *)

Section Refines.
Context {K V : Type} `{Countable K, KO : KeyOrder K, !KeyOrderLaws K}.
Implicit Types (m : gmap K V) (l : list (K * V)).

(** A strictly sorted list of the entries of a map is its sorted list. *)
Lemma sorted_entries_unique l m :
  StronglySorted (λ a b, key_lt a b = true) l.*1 → (∀ k v, (k, v) ∈ l ↔ m !! k = Some v) → l = sorted_entries m.
Proof.
  intros Hs Hl.
  assert (Hsort : ∀ l, StronglySorted (λ a b, key_lt a b = true) l.*1 → StronglySorted (λ a b : K * V, key_lt a.1 b.1 = true) l).
  { clear. induction l as [|e l IH]; intros Hs; csimpl in *; [constructor|].
    apply StronglySorted_inv in Hs as [Hs He]. constructor; [auto|]. by rewrite Forall_fmap in He. }
  assert (Hnd : NoDup l).
  { clear Hl. induction l as [|e l IH]; csimpl in *; [constructor|]. apply StronglySorted_inv in Hs as [Hs He].
    constructor; [|auto]. intros Hin. rewrite Forall_fmap, Forall_forall in He. specialize (He e Hin). cbn in He.
    by rewrite key_irrefl in He. }
  apply (StronglySorted_unique_strong (λ a b : K * V, key_lt a.1 b.1 = true)).
  - intros a b _ _ H1 H2. pose proof (key_trans _ _ _ H1 H2) as H3. by rewrite key_irrefl in H3.
  - by apply Hsort.
  - apply Hsort, sorted_entries_ascending.
  - apply NoDup_Permutation; [done|eapply NoDup_fmap_1, sorted_entries_nodup|].
    intros [k v]. by rewrite Hl, elem_of_sorted_entries.
Qed.

Lemma list_to_map_sorted m : list_to_map (sorted_entries m) = m.
Proof.
  rewrite (list_to_map_proper (sorted_entries m) (map_to_list m)).
  - apply list_to_map_to_list.
  - apply sorted_entries_nodup.
  - apply sorted_entries_perm.
Qed.

Context (f : MapFile K V) (Hf : mf_lt f = key_lt).
#[local] Instance pairs : Item (item K V) := item_Less f.
Context (L : LLRB (item K V)) (HL : LLRB_laws L).

Definition pair_of (e : K * V) : item K V := Pair e.1 e.2.
Definition is_pair (x : item K V) : Prop := ∃ e, x = pair_of e.

(** A tree holds a map: its items are the entries, in key order. *)
Definition holds (sm : tree L) m : Prop := t_items L sm = pair_of <$> sorted_entries m.

(** The methods of a file are the operations of the finite map. *)
Record map_refines : Prop := {
  r_New : holds (sm_New L) ∅;
  r_Len : ∀ sm m, holds sm m → sm_Len L sm = om_Len m;
  r_Has : ∀ sm m k, holds sm m → sm_Has f L k sm = om_Has k m;
  r_Get : ∀ sm m k, holds sm m →
    sm_Get f L k sm = Ok (match om_Get k m with Some v => (v, true) | None => (mf_zero f, false) end);
  r_Put : ∀ sm m k v, holds sm m → holds (sm_Put L k v sm) (om_Put k v m);
  r_Delete : ∀ sm m k, holds sm m → holds (sm_Delete f L k sm) (om_Delete k m);
  r_EachAll : ∀ (S : Type) (fn : K → V → S → bool * S) sm m s, holds sm m → sm_EachAll L fn sm s = Ok (om_EachAll fn m s);
}.

Lemma Less_pairs k v k' v' : Less (Pair k v) (Pair k' v') = key_lt k k'.
Proof using Hf. unfold Less, pairs, item_Less. by rewrite Hf. Qed.

Lemma same_order_pairs k v k' v' : same_order (Pair k v) (Pair k' v') = bool_decide (k = k').
Proof using H EqDecision0 Hf KeyOrderLaws0.
  unfold same_order. rewrite !Less_pairs. case_bool_decide as Hk; [subst; by rewrite key_irrefl|].
  destruct (key_total k k') as [E|[E|E]]; [by rewrite E|done|]. rewrite E. apply andb_false_r.
Qed.

Lemma pairs_strict_weak : strict_weak is_pair.
Proof using H EqDecision0 Hf KeyOrderLaws0.
  split.
  - intros a [[k v] ->]. unfold pair_of. rewrite Less_pairs. apply key_irrefl.
  - intros a b c [e ->] [e' ->] [e'' ->]. unfold pair_of. rewrite !Less_pairs. apply key_trans.
  - intros a b c [e ->] [e' ->] [e'' ->]. unfold pair_of. rewrite !same_order_pairs, !bool_decide_eq_true. congruence.
Qed.

Lemma cuts_pair e : cuts is_pair (pair_of e).
Proof using H EqDecision0 Hf KeyOrderLaws0. intros a b [e' ->] [e'' ->]. unfold pair_of. rewrite !Less_pairs. apply key_trans. Qed.
Lemma cuts_Ninf : cuts is_pair Ninf.
Proof. by intros a b [e ->] [e' ->]. Qed.
Lemma cuts_Pinf : cuts is_pair Pinf.
Proof. by intros a b [e ->] [e' ->]. Qed.

Lemma holds_pairs sm m : holds sm m → Forall is_pair (t_items L sm).
Proof. intros ->. apply Forall_fmap, Forall_true. intros e. by exists e. Qed.

Lemma pairs_sorted l :
  StronglySorted (λ a b, key_lt a b = true) l.*1 → StronglySorted (λ a b, Less a b = true) (pair_of <$> l).
Proof using Hf.
  induction l as [|e l IH]; intros Hs; csimpl in *; [constructor|]. apply StronglySorted_inv in Hs as [Hs He].
  constructor; [auto|]. apply Forall_fmap in He. apply Forall_fmap. eapply Forall_impl; [exact He|]. intros e' Hlt.
  cbn in Hlt. change (Less (Pair e.1 e.2) (Pair e'.1 e'.2) = true). by rewrite Less_pairs.
Qed.
Lemma holds_sorted sm m : holds sm m → StronglySorted (λ a b, Less a b = true) (t_items L sm).
Proof using H EqDecision0 Hf KeyOrderLaws0. intros ->. apply pairs_sorted, sorted_entries_ascending. Qed.

Lemma filter_pairs (P : item K V → Prop) (Q : K * V → Prop) `{∀ x, Decision (P x), ∀ x, Decision (Q x)} l :
  (∀ e, P (pair_of e) ↔ Q e) → filter P (pair_of <$> l) = pair_of <$> filter Q l.
Proof.
  intros HPQ. induction l as [|e l IH]; [done|]. rewrite fmap_cons, !filter_cons, IH.
  destruct (decide (P (pair_of e))) as [Hp|Hp]; destruct (decide (Q e)) as [Hq|Hq]; [done| | |done]; rewrite HPQ in Hp; done.
Qed.

Lemma entries_filter_sorted (Q : K * V → Prop) `{∀ x, Decision (Q x)} l :
  StronglySorted (λ a b, key_lt a b = true) l.*1 → StronglySorted (λ a b, key_lt a b = true) (filter Q l).*1.
Proof.
  induction l as [|e l IH]; intros Hs; [constructor|]. csimpl in Hs. apply StronglySorted_inv in Hs as [Hs He].
  rewrite filter_cons. case_decide; [|auto]. csimpl. constructor; [auto|]. apply Forall_fmap, Forall_forall.
  apply Forall_fmap in He. rewrite Forall_forall in He. intros e' [_ Hin]%list_elem_of_filter. auto.
Qed.

Lemma find_pairs k l : List.find (same_order (key_item f k)) (pair_of <$> l) = Pair k <$> (list_to_map l : gmap K V) !! k.
Proof using H EqDecision0 Hf KeyOrderLaws0.
  induction l as [|[k' v] l IH]; cbn; [done|]. unfold key_item, pair_of at 1. cbn [fst snd]. rewrite same_order_pairs.
  case_bool_decide as Hk; [subst; by rewrite lookup_insert_eq|]. by rewrite lookup_insert_ne.
Qed.
Lemma exists_pairs k l : existsb (same_order (key_item f k)) (pair_of <$> l) = bool_decide (is_Some ((list_to_map l : gmap K V) !! k)).
Proof using H EqDecision0 Hf KeyOrderLaws0.
  induction l as [|[k' v] l IH]; cbn; [done|]. unfold key_item, pair_of at 1. cbn [fst snd]. rewrite same_order_pairs.
  destruct (decide (k = k')) as [->|Hk].
  - rewrite (bool_decide_eq_true_2 (k' = k')), lookup_insert_eq by done. by rewrite bool_decide_eq_true_2.
  - by rewrite (bool_decide_eq_false_2 (k = k')), lookup_insert_ne.
Qed.

Lemma iterate_pairs {S} (fn : K → V → S → bool * S) l s : iterate (on_pair fn) (pair_of <$> l) (Ok s) = Ok (each fn l s).
Proof. revert s. induction l as [|[k v] l IH]; intros s; cbn; [done|]. destruct (fn k v s) as [[|] s']; auto. Qed.

Lemma put_sorted k v m :
  filter (λ e, key_lt e.1 k = true) (sorted_entries m) ++ (k, v) :: filter (λ e, key_lt k e.1 = true) (sorted_entries m)
  = sorted_entries (<[k := v]> m).
Proof using KeyOrderLaws0.
  apply sorted_entries_unique.
  - pose proof (sorted_entries_ascending m) as Hs. rewrite fmap_app, fmap_cons.
    apply StronglySorted_app. split_and!; [|by apply entries_filter_sorted|constructor; [by apply entries_filter_sorted|]].
    + intros a b (e & -> & [He _]%list_elem_of_filter)%list_elem_of_fmap. rewrite elem_of_cons.
      intros [->|(e' & -> & [He' _]%list_elem_of_filter)%list_elem_of_fmap]; [done|]. by eapply key_trans.
    + apply Forall_fmap, Forall_forall. by intros e [He _]%list_elem_of_filter.
  - intros k' v'. rewrite elem_of_app, elem_of_cons, !list_elem_of_filter, elem_of_sorted_entries. cbn [fst].
    destruct (decide (k' = k)) as [->|Hne].
    + rewrite key_irrefl, lookup_insert_eq. naive_solver.
    + rewrite lookup_insert_ne by done. destruct (key_total k' k) as [E|[E|E]]; naive_solver.
Qed.

Lemma delete_sorted k m : filter (λ e, e.1 ≠ k) (sorted_entries m) = sorted_entries (delete k m).
Proof using KeyOrderLaws0.
  apply sorted_entries_unique; [apply entries_filter_sorted, sorted_entries_ascending|].
  intros k' v'. rewrite list_elem_of_filter, elem_of_sorted_entries, lookup_delete_Some. naive_solver.
Qed.

Lemma tree_map_refines : map_refines.
Proof using Hf HL KeyOrderLaws0.
  split.
  - apply (l_New L HL).
  - intros sm m Hm. unfold sm_Len, om_Len. rewrite (l_Len L HL), Hm, length_fmap, sorted_entries_perm. apply length_map_to_list.
  - intros sm m k Hm. unfold sm_Has, om_Has.
    rewrite (l_Has L HL is_pair), Hm, exists_pairs, list_to_map_sorted; eauto using pairs_strict_weak, holds_pairs, holds_sorted.
    by exists (k, mf_zero f).
  - intros sm m k Hm. unfold sm_Get, om_Get.
    rewrite (l_Get L HL is_pair), Hm, find_pairs, list_to_map_sorted; eauto using pairs_strict_weak, holds_pairs, holds_sorted.
    + by destruct (m !! k).
    + by exists (k, mf_zero f).
  - intros sm m k v Hm. unfold holds, sm_Put, om_Put.
    rewrite (l_ReplaceOrInsert L HL is_pair), Hm; eauto using pairs_strict_weak, holds_pairs, holds_sorted; [|by exists (k, v)].
    rewrite (filter_pairs _ (λ e, key_lt e.1 k = true)), (filter_pairs _ (λ e, key_lt k e.1 = true)).
    + by rewrite <- put_sorted, fmap_app.
    + intros e. unfold pair_of. by rewrite Less_pairs.
    + intros e. unfold pair_of. by rewrite Less_pairs.
  - intros sm m k Hm. unfold holds, sm_Delete, om_Delete.
    rewrite (l_Delete L HL is_pair), Hm; eauto using pairs_strict_weak, holds_pairs, holds_sorted; [|by exists (k, mf_zero f)].
    rewrite (filter_pairs _ (λ e, e.1 ≠ k)); [by rewrite delete_sorted|].
    intros e. unfold pair_of, key_item. rewrite same_order_pairs, bool_decide_eq_false. naive_solver.
  - intros S fn sm m s Hm. unfold sm_EachAll, om_EachAll.
    rewrite (l_AscendRange L HL is_pair), Hm; eauto using pairs_strict_weak, holds_pairs, holds_sorted, cuts_Ninf, cuts_Pinf.
    rewrite (filter_pairs _ (λ _, True)) by done. rewrite iterate_pairs. f_equal. f_equal.
    by apply filter_all, Forall_forall.
Qed.

End Refines.

(** The tree does what its documentation says, with the [Less] of a file. *)
Definition lawful {K V} (f : MapFile K V) (L : LLRB (item K V)) : Prop := LLRB_laws (H:=item_Less f) L.

Definition prefix_refines {V} (f : MapFile bytes V) (L : LLRB (item bytes V)) : Prop :=
  ∀ (S : Type) (fn : bytes → V → S → bool * S) prefix (sm : tree L) m s,
    holds L sm m → sm_EachPrefix f L prefix fn sm s = Ok (om_EachPrefix prefix fn m s).

Lemma tree_prefix_refines {V} (f : MapFile bytes V) (L : LLRB (item bytes V)) :
  mf_lt f = bytes_lt → lawful f L → prefix_refines f L.
Proof.
  intros Hf HL S fn prefix sm m s Hm. unfold sm_EachPrefix, om_EachPrefix.
  rewrite (l_AscendRange L HL is_pair), Hm.
  2: exact (pairs_strict_weak f Hf). 2: exact (cuts_pair f Hf (prefix, mf_zero f)).
  2: exact (cuts_pair f Hf (prefix ++ [255], mf_zero f)). 2: by eapply holds_pairs. 2: by eapply (holds_sorted f Hf L).
  rewrite (filter_pairs _ (λ e, in_prefix prefix e.1 = true)); [by rewrite iterate_pairs|].
  intros e. unfold pair_of, key_item, in_prefix. rewrite !(Less_pairs f Hf), andb_true_iff, negb_true_iff. done.
Qed.

(** C37. The methods of each of the seventeen map files, run on any LLRB tree
    that does what its documentation says of [Less], are the operations of a
    finite map with ascending keys: a new map is empty; [Put] and [Delete]
    change the one key; [Len], [Has] and [Get] answer from the map, with the
    zero value of the file when there is no entry, and never meet an item of
    another type; [EachAll], a range from [ninf] to [pinf], calls the
    function on every entry in ascending order until it says stop; and
    [EachPrefix] of the four maps with text keys, a range from the prefix to
    the prefix with a byte 255, on those that lie there. *)
Theorem tree_maps_refine :
  (∀ (A : Type) (nil : A) L, lawful (AddressAccountMap_file nil) L → map_refines (AddressAccountMap_file nil) L) ∧
  (∀ L, lawful AddressAddressMap_file L → map_refines AddressAddressMap_file L) ∧
  (∀ nil L, lawful (AddressAmountMap_file nil) L → map_refines (AddressAmountMap_file nil) L) ∧
  (∀ nil L, lawful (AddressAddressAmountMap_file nil) L → map_refines (AddressAddressAmountMap_file nil) L) ∧
  (∀ L, lawful AddressBoolMap_file L → map_refines AddressBoolMap_file L) ∧
  (∀ L, lawful AddressUint32Map_file L → map_refines AddressUint32Map_file L) ∧
  (∀ L, lawful AddressUint64Map_file L → map_refines AddressUint64Map_file L) ∧
  (∀ L, lawful PublicHashBoolMap_file L → map_refines PublicHashBoolMap_file L) ∧
  (∀ L, lawful StringAddressMap_file L → map_refines StringAddressMap_file L ∧ prefix_refines StringAddressMap_file L) ∧
  (∀ L, lawful StringBoolMap_file L → map_refines StringBoolMap_file L ∧ prefix_refines StringBoolMap_file L) ∧
  (∀ L, lawful StringBytesMap_file L → map_refines StringBytesMap_file L ∧ prefix_refines StringBytesMap_file L) ∧
  (∀ L, lawful StringStringMap_file L → map_refines StringStringMap_file L ∧ prefix_refines StringStringMap_file L) ∧
  (∀ nil L, lawful (Uint8StringBytesMap_file nil) L → map_refines (Uint8StringBytesMap_file nil) L) ∧
  (∀ nil L, lawful (Uint32StringBoolMap_file nil) L → map_refines (Uint32StringBoolMap_file nil) L) ∧
  (∀ L, lawful Uint64BoolMap_file L → map_refines Uint64BoolMap_file L) ∧
  (∀ nil L, lawful (Uint64TxOutMap_file nil) L → map_refines (Uint64TxOutMap_file nil) L) ∧
  (∀ nil L, lawful (Uint64UTXOMap_file nil) L → map_refines (Uint64UTXOMap_file nil) L).
Proof.
  split_and!; intros;
    first [by apply tree_map_refines | split; [by apply tree_map_refines|by apply tree_prefix_refines]].
Qed.

(** ** A tree for the witness: a sorted list *)

Section ListTree.
Context {I : Type} `{Item I}.

Fixpoint list_insert (x : I) (l : list I) : list I :=
  match l with
  | [] => [x]
  | y :: l => if Less y x then y :: list_insert x l else if Less x y then x :: y :: l else x :: l
  end.
Definition list_tree : LLRB I := {|
  tree := list I;
  t_items := λ l, l;
  t_New := [];
  t_Len := length;
  t_Has := λ k l, existsb (same_order k) l;
  t_Get := λ k l, List.find (same_order k) l;
  t_ReplaceOrInsert := list_insert;
  t_Delete := λ k l, filter (λ a, same_order k a = false) l;
  t_AscendRange := λ S ge lt fn l s, iterate fn (filter (λ a, Less a ge = false ∧ Less a lt = true) l) s;
|}.

Lemma list_insert_spec (P : I → Prop) x l :
  strict_weak P → P x → Forall P l → StronglySorted (λ a b, Less a b = true) l →
  list_insert x l = filter (λ a, Less a x = true) l ++ x :: filter (λ a, Less x a = true) l.
Proof.
  intros HP Hx. induction l as [|y l IH]; intros Hl Hs; [done|]. cbn [list_insert].
  apply Forall_cons in Hl as [Hy Hl]. apply StronglySorted_inv in Hs as [Hs Hlt]. rewrite !filter_cons.
  assert (Hno : ∀ a, P a → Less x a = true → Less a x = false).
  { intros a Ha H1. destruct (Less a x) eqn:H2; [|done]. pose proof (sw_trans P HP x a x Hx Ha Hx H1 H2). by rewrite (sw_irrefl P HP) in *. }
  assert (Hafter : ∀ a, a ∈ l → Less y x = false → Less x a = true).
  { intros a Ha Hyx. rewrite Forall_forall in Hl, Hlt. specialize (Hlt a Ha). specialize (Hl a Ha). cbn in Hlt.
    destruct (Less x y) eqn:Hxy; [by eapply (sw_trans P HP x y a)|]. destruct (Less x a) eqn:Hxa; [done|exfalso].
    destruct (Less a x) eqn:Hax.
    - by rewrite (sw_trans P HP y a x) in Hyx.
    - pose proof (sw_same P HP y x a Hy Hx Hl) as Hsame. unfold same_order in Hsame.
      rewrite Hyx, Hxy, Hax, Hxa, Hlt in Hsame. discriminate Hsame; done. }
  destruct (Less y x) eqn:Hyx.
  - rewrite decide_True by done. rewrite decide_False by (intros H1; by rewrite Hno in Hyx). cbn [app]. f_equal. by apply IH.
  - rewrite decide_False by done.
    assert (E1 : filter (λ a, Less a x = true) l = []).
    { apply filter_none, Forall_forall. intros a Ha. rewrite Hno; [done| |by apply Hafter]. by eapply Forall_forall in Hl. }
    assert (E2 : filter (λ a, Less x a = true) l = l).
    { apply filter_all, Forall_forall. intros a Ha. by apply Hafter. }
    rewrite E1, E2. destruct (Less x y) eqn:Hxy; [by rewrite decide_True|by rewrite decide_False].
Qed.

Lemma list_tree_laws : LLRB_laws list_tree.
Proof. split; try done. intros P x t HP Hx Ht Hs. by apply (list_insert_spec P). Qed.

End ListTree.

(** Three puts, one of them of a key that is there, and a deletion. *)
Lemma tree_maps_refine_witness :
  let f := AddressAmountMap_file 0 in
  let L := list_tree (H:=item_Less f) in
  let sm := sm_Put L [1] 9 (sm_Put L [2] 7 (sm_Put L [1] 5 (sm_New L))) in
  holds L sm (<[ [1] := 9 ]> (<[ [2] := 7 ]> (<[ [1] := 5 ]> ∅))) ∧
  sm_Get f L [1] sm = Ok (9, true) ∧ sm_Get f L [1] (sm_Delete f L [1] sm) = Ok (0, false) ∧
  sm_EachAll L (λ k v l, (true, l ++ [(k, v)])) sm [] = Ok [([1], 9); ([2], 7)].
Proof.
  intros f L sm. destruct tree_maps_refine as (_ & _ & H & _).
  destruct (H 0 L (list_tree_laws (H:=item_Less f))) as [Hn _ _ Hg Hp Hd He].
  split_and!; [|reflexivity|reflexivity|reflexivity]. apply Hp, Hp, Hp, Hn.
Defined.
