(* ===== verification/ContextBisim.v ===== *)
(** * core/types: programs on a context

    The chain runs code of the processes on a context.  Two properties of
    such code are what the chain relies on:
    - [respects]: its answer and the layers it leaves depend on the layers
      and the loader only, not on what happens to be in the read cache;
    - [frames]: it gives back the layers it found below the top one, whatever
      snapshots it takes, commits or reverts on the way.
    Every context operation has both, and they are closed under sequencing,
    so every process program does. *)

From S2P Require Import Prelude Common Context ContextSpec.

Section ContextBisim.
Context {A E : Type} `{AI : AccountI A} `{EI : EventI E} `{B58 : Base58}.
Implicit Types (c : Ctx A E).

(** Contexts that differ in their caches only. *)
Record same c1 c2 : Prop := {
  sm_wf1 : wf c1;
  sm_wf2 : wf c2;
  sm_loader : loader c1 = loader c2;
  sm_height : genTargetHeight c1 = genTargetHeight c2;
  sm_last_hash : genLastHash c1 = genLastHash c2;
  sm_timestamp : genTimestamp c1 = genTimestamp c2;
  sm_stack : stack c1 = stack c2;
  sm_latest1 : isLatestHash c1 = false;
  sm_latest2 : isLatestHash c2 = false;
}.

Lemma same_refl c : wf c → isLatestHash c = false → same c c.
Proof. by split. Qed.

Lemma same_sym c1 c2 : same c1 c2 → same c2 c1.
Proof. by intros []. Qed.

Lemma same_trans c1 c2 c3 : same c1 c2 → same c2 c3 → same c1 c3.
Proof. intros [] []; split; congruence. Qed.

Definition respects {V} (m : M (Ctx A E) V) : Prop :=
  ∀ c1 c2, same c1 c2 → (m c1).1 = (m c2).1 ∧ same (m c1).2 (m c2).2.

Lemma respects_ret {V} (v : V) : respects (mret v).
Proof. by intros c1 c2 H. Qed.
Lemma respects_fail {V} e : respects (fail e : M _ V).
Proof. by intros c1 c2 H. Qed.
Lemma respects_panic {V} : respects (panic : M _ V).
Proof. by intros c1 c2 H. Qed.
Lemma respects_lift {V} (r : res V) : respects (lift r).
Proof. by intros c1 c2 H. Qed.
Lemma respects_guard b e : respects (guard_err b e).
Proof. by destruct b; intros c1 c2 H. Qed.

Lemma respects_bind {V W} (m : M (Ctx A E) V) (f : V → M (Ctx A E) W) :
  respects m → (∀ v, respects (f v)) → respects (m ≫= f).
Proof.
  intros Hm Hf c1 c2 H. destruct (Hm c1 c2 H) as [H1 H2]. unfold mbind, M_bind.
  destruct (m c1) as [r1 d1], (m c2) as [r2 d2]. simpl in *. subst r2.
  destruct r1 as [v|e|]; [|done..]. by apply Hf.
Qed.

Lemma respects_try {V} (m : M (Ctx A E) V) : respects m → respects (try m).
Proof.
  intros Hm c1 c2 H. destruct (Hm c1 c2 H) as [H1 H2]. unfold try.
  destruct (m c1) as [r1 d1], (m c2) as [r2 d2]. simpl in *. subst r2. by destruct r1.
Qed.

Lemma respects_for_each {V} (f : V → M (Ctx A E) unit) l :
  (∀ v, v ∈ l → respects (f v)) → respects (for_each f l).
Proof.
  induction l as [|v l IH]; intros Hf; simpl; [apply respects_ret|].
  apply respects_bind; [apply Hf; constructor|]. intros _. apply IH. intros w Hw. apply Hf. by constructor.
Qed.

Lemma respects_fold {V W} (f : W → V → M (Ctx A E) W) w l :
  (∀ w v, respects (f w v)) → respects (fold_m f w l).
Proof.
  intros Hf. revert w. induction l as [|v l IH]; intros w; simpl; [apply respects_ret|].
  apply respects_bind; auto.
Qed.

Lemma respects_TargetHeight : respects TargetHeight.
Proof. intros c1 c2 []. simpl. split; [by f_equal|by split]. Qed.

Lemma respects_StackSize : respects StackSize.
Proof. intros c1 c2 Hs. simpl. split; [by rewrite (sm_stack _ _ Hs)|done]. Qed.

(** *** Reads *)

Lemma respects_run_read {V} (hit : ContextData A E → option (res V)) fill clone keep load
    (below : Loader A → res V) :
  (∀ v, clone v = v) → (∀ v d, isTop (fill v d) = isTop d) →
  (∀ ld cc, cache_ok ld cc → ∃ cc', load ld cc = (below ld, cc') ∧ cache_ok ld cc') →
  respects (run_read hit fill clone keep load).
Proof.
  intros Hcl Htop Hload c1 c2 [Hw1 Hw2 Hl Hh Hlh Hts Hs Hf1 Hf2].
  destruct (run_read_spec hit fill clone keep load c1 (below (loader c1)) Hcl Htop Hw1 (Hload _))
    as (d1 & st1 & cc1 & Hs1 & Hcc1 & Hr1).
  destruct (run_read_spec hit fill clone keep load c2 (below (loader c2)) Hcl Htop Hw2 (Hload _))
    as (d2 & st2 & cc2 & Hs2 & Hcc2 & Hr2).
  rewrite Hr1, Hr2. simpl. rewrite <- Hs, <- Hl. split; [done|].
  rewrite Hs, Hs2 in Hs1. simplify_eq.
  destruct (wf_top c2 Hw2) as (d & st & Hs2' & Hst). rewrite Hs2 in Hs2'. injection Hs2' as <- <-.
  split; try done; (split; [by eexists _, _|done|]); [apply Hw1|apply Hw2].
Qed.

Lemma respects_AddressByName n : respects (AddressByName n).
Proof.
  apply (respects_run_read (hit_Name n) (fill_Name n) id _ _ (λ ld, ld_AddressByName ld n)); try done.
  intros. by apply cc_AddressByName_spec.
Qed.

Lemma respects_ctd_Account a : respects (ctd_Account a).
Proof.
  apply (respects_run_read (hit_Account a) (fill_Account a) acc_Clone _ _ (λ ld, ld_Account ld a)); try done.
  - apply acc_Clone_id.
  - intros. by apply cc_Account_spec.
Qed.

Lemma respects_AccountData a p n : valid_addr a → valid_pid p → respects (AccountData a p n).
Proof.
  intros Ha Hp. apply (respects_run_read (hit_AccountData (accountDataKey a p n))
    (fill_AccountData (accountDataKey a p n)) id _ _ (λ ld, Ok (ld_AccountData ld a p n))); try done.
  intros. by apply cc_AccountData_spec.
Qed.

Lemma respects_ProcessData p n : valid_pid p → respects (ProcessData p n).
Proof.
  intros Hp. apply (respects_run_read (hit_ProcessData (processDataKey p n))
    (fill_ProcessData (processDataKey p n)) id _ _ (λ ld, Ok (ld_ProcessData ld p n))); try done.
  intros. by apply cc_ProcessData_spec.
Qed.

Lemma respects_UTXO id : respects (ctd_UTXO id).
Proof.
  apply (respects_run_read (hit_UTXO id) (fill_UTXO id) (λ u, u) _ _ (λ ld, ld_UTXO ld id)); try done.
  intros. by apply cc_UTXO_spec.
Qed.

Lemma view_same c1 c2 : same c1 c2 →
  (∀ a, view_HasAccount c1 a = view_HasAccount c2 a) ∧ (∀ n, view_HasName c1 n = view_HasName c2 n).
Proof.
  intros [_ _ Hl _ _ _ Hs _ _]. unfold view_HasAccount, view_HasName. by rewrite Hl, Hs.
Qed.

Lemma respects_HasAccount a : respects (HasAccount a).
Proof.
  intros c1 c2 H. unfold HasAccount. simpl. split; [|done].
  rewrite !ctd_HasAccount_view by apply H. apply (view_same c1 c2 H).
Qed.

Lemma respects_HasAccountName n : respects (HasAccountName n).
Proof.
  intros c1 c2 H. unfold HasAccountName. simpl. split; [|done].
  rewrite !ctd_HasName_view by apply H. apply (view_same c1 c2 H).
Qed.

(** *** Writes *)

Lemma respects_dirty : respects (modify dirty).
Proof.
  intros c1 c2 [Hw1 Hw2]. simpl. split; [done|]. split; try done; by apply dirty_step.
Qed.

Lemma respects_with_top f : (∀ d, keeps_layer d (f d)) → respects (with_top f).
Proof.
  intros Hf c1 c2 [Hw1 Hw2 Hl Hh Hlh Hts Hs Hf1 Hf2].
  destruct (with_top_step f c1 Hw1 Hf) as (d1 & st1 & Hs1 & -> & Ht1).
  destruct (with_top_step f c2 Hw2 Hf) as (d2 & st2 & Hs2 & -> & Ht2).
  simpl. split; [done|]. split; try done; [apply Ht1|apply Ht2|]. simpl. congruence.
Qed.

Lemma respects_must_be_new ign r e : respects (must_be_new ign r e).
Proof. intros c1 c2 H. unfold must_be_new. by repeat case_match. Qed.

(** [create_account] with its three looks at the context as arguments. *)
Definition create_body (ign : error → bool) (acc : A) (h : Z) (rA rN : res bool) : M (Ctx A E) unit :=
  guard_err (negb (Height (acc_Address acc) =? h)) ErrInvalidAddressHeight ;;
  guard_err (bool_decide (acc_Address acc = emptyAddr)) ErrNotAllowedEmptyAddressAccount ;;
  guard_err (bool_decide (is_Some (ParseAddress (acc_Name acc)))) ErrNotAllowedAddressAccountName ;;
  must_be_new ign rA ErrExistAccount ;;
  must_be_new ign rN ErrExistAccountName ;;
  with_top (put_account acc).

Lemma create_account_body ign acc c :
  wf c → create_account ign acc c
  = create_body ign acc (genTargetHeight c) (view_HasAccount c (acc_Address acc))
      (view_HasName c (acc_Name acc)) c.
Proof.
  intros Hwf. rewrite <- (ctd_HasAccount_view c) by done. rewrite <- (ctd_HasName_view c) by done. done.
Qed.

Lemma respects_create ign acc : respects (create_account ign acc).
Proof.
  intros c1 c2 H. rewrite !create_account_body by apply H.
  rewrite (sm_height _ _ H). destruct (view_same c1 c2 H) as [-> ->].
  assert (Hr : ∀ h rA rN, respects (create_body ign acc h rA rN)); [|by apply Hr].
  intros h rA rN. unfold create_body.
  repeat (apply respects_bind; [auto using respects_guard, respects_must_be_new|intros _]).
  by apply respects_with_top.
Qed.

Lemma respects_UseTimeSlot s k : respects (UseTimeSlot s k).
Proof.
  intros c1 c2 [Hw1 Hw2 Hl Hh Hlh Hts Hs Hf1 Hf2]. unfold UseTimeSlot, ctd_UseTimeSlot.
  rewrite <- Hs, <- Hl. destruct (wf_top c1 Hw1) as (d & st & Hs1 & Hst). rewrite Hs1.
  destruct (slot_has (TimeSlotMap d) s k); [done|].
  destruct (cc_HasTimeSlot_spec (loader c1) s k (cache c1) (wf_cache c1 Hw1)) as (cc1 & -> & Hcc1).
  assert (Hc2 : cache_ok (loader c1) (cache c2)) by (rewrite Hl; apply Hw2).
  destruct (cc_HasTimeSlot_spec (loader c1) s k (cache c2) Hc2) as (cc2 & -> & Hcc2).
  rewrite Hl in Hcc2. destruct (ld_HasTimeSlot (loader c1) s k); simpl; (split; [done|]);
    split; try done; (split; [by eexists _, _|done|]); first [apply Hw1|apply Hw2].
Qed.

(** *** Snapshots *)

Lemma respects_Snapshot : respects Snapshot.
Proof.
  intros c1 c2 [Hw1 Hw2 Hl Hh Hlh Hts Hs Hf1 Hf2].
  destruct (wf_top c1 Hw1) as (d & st & Hs1 & _).
  assert (Hs2 : stack c2 = d :: st) by congruence.
  destruct (Snapshot_spec c1 d st Hw1 Hs1) as (c1' & H1 & Hw1' & _).
  destruct (Snapshot_spec c2 d st Hw2 Hs2) as (c2' & H2 & Hw2' & _).
  unfold Snapshot in *. simpl in *. rewrite Hs1, Hs2 in *. simplify_eq/=. split; [done|]. by split.
Qed.

(** *** Framing *)

(** [m] leaves at least one layer above whatever it found below the top. *)
Definition frames {V} (m : M (Ctx A E) V) : Prop := ∀ c0 lower, keeps (above c0 lower) m.

Lemma frames_bind {V W} (m : M (Ctx A E) V) (f : V → M (Ctx A E) W) :
  frames m → (∀ v, frames (f v)) → frames (m ≫= f).
Proof. intros Hm Hf c0 lower. apply keeps_bind; [apply Hm|]. intros v. apply Hf. Qed.

Lemma frames_pure {V} (m : M (Ctx A E) V) : (∀ c, (m c).2 = c) → frames m.
Proof. intros H c0 lower c Hc. by rewrite H. Qed.

Lemma frames_try {V} (m : M (Ctx A E) V) : frames m → frames (try m).
Proof. intros H c0 lower. apply keeps_try, H. Qed.

Lemma frames_op (o : op) :
  (∀ base, op_ok base o) → ∀ c0 lower c, above c0 lower c → above c0 lower (exec o c).
Proof. intros Ho c0 lower c Hc. by apply exec_above. Qed.

(** The same for programs that know a snapshot number above the frame. *)
Definition frames_at {V} (sn : nat) (m : M (Ctx A E) V) : Prop :=
  ∀ c0 lower, (S (length lower) < sn)%nat → keeps (above c0 lower) m.

Lemma frames_frames_at {V} sn (m : M (Ctx A E) V) : frames m → frames_at sn m.
Proof. intros H c0 lower _. apply H. Qed.

Lemma frames_at_bind {V W} sn (m : M (Ctx A E) V) (f : V → M (Ctx A E) W) :
  frames_at sn m → (∀ v, frames_at sn (f v)) → frames_at sn (m ≫= f).
Proof. intros Hm Hf c0 lower Hsn. apply keeps_bind; [by apply Hm|]. intros v. by apply Hf. Qed.

Lemma frames_at_Revert sn : frames_at sn (Revert sn).
Proof. intros c0 lower Hsn c Hc. by apply exec_Revert_above. Qed.

Lemma frames_at_Commit sn : frames_at sn (Commit sn).
Proof. intros c0 lower Hsn c Hc. by apply exec_Commit_above. Qed.

Lemma wf_Revert sn c : (2 ≤ sn)%nat → wf c → wf (Revert sn c).2.
Proof. intros Hsn Hwf. apply (exec_Revert_above c [] sn c (wf_above c Hwf)). simpl. lia. Qed.

Lemma wf_Commit sn c : (2 ≤ sn)%nat → wf c → wf (Commit sn c).2.
Proof. intros Hsn Hwf. apply (exec_Commit_above c [] sn c (wf_above c Hwf)). simpl. lia. Qed.

Lemma respects_Revert sn : (2 ≤ sn)%nat → respects (Revert sn).
Proof.
  intros Hsn c1 c2 H. pose proof (wf_Revert sn c1 Hsn (sm_wf1 _ _ H)) as Hw1.
  pose proof (wf_Revert sn c2 Hsn (sm_wf2 _ _ H)) as Hw2. revert Hw1 Hw2.
  destruct H as [_ _ Hl Hh Hlh Hts Hs Hf1 Hf2]. unfold Revert. simpl. rewrite Hs.
  destruct (_ && _); simpl; [done|].
  destruct (mark_top _); simpl; intros; (split; [done|]); by split.
Qed.

Lemma respects_Commit sn : (2 ≤ sn)%nat → respects (Commit sn).
Proof.
  intros Hsn c1 c2 H. pose proof (wf_Commit sn c1 Hsn (sm_wf1 _ _ H)) as Hw1.
  pose proof (wf_Commit sn c2 Hsn (sm_wf2 _ _ H)) as Hw2. revert Hw1 Hw2.
  destruct H as [W1 W2 Hl Hh Hlh Hts Hs Hf1 Hf2]. unfold Commit. simpl. rewrite Hs.
  destruct (stack c2) as [|d st] eqn:Hs2; [by destruct (wf_top c2 W2) as (? & ? & ? & _); congruence|].
  destruct (commit_loop sn d st) as [st'| |]; simpl; [|intros; split; [done|split; try done; simpl; congruence]..].
  destruct (mark_top st'); simpl; intros; (split; [done|]); split; try done; simpl; congruence.
Qed.

Lemma respects_Snapshot_bind {V} (f : nat → M (Ctx A E) V) :
  (∀ sn, (2 ≤ sn)%nat → respects (f sn)) → respects (Snapshot ≫= f).
Proof.
  intros Hf c1 c2 H. destruct (respects_Snapshot c1 c2 H) as [H1 H2].
  destruct (wf_top c1 (sm_wf1 _ _ H)) as (d & st & Hs & _).
  destruct (Snapshot_spec c1 d st (sm_wf1 _ _ H) Hs) as (c1' & Hr & _).
  unfold mbind, M_bind. rewrite Hr in *. destruct (Snapshot c2) as [r2 c2']. simpl in *. subst r2.
  apply Hf; [|done]. rewrite Hs. simpl. lia.
Qed.

(** *** All operations *)

Lemma frames_steps {V} (m : M (Ctx A E) V) : steps_top m → frames m.
Proof.
  intros Hm c0 lower c [Hwf H1 H2 H3 H4 (new & Hnew & Hs)].
  destruct (Hm c Hwf) as [Hwf' G1 G2 G3 G4 G5].
  split; try congruence. destruct (wf_top _ Hwf') as (d & st & Hs' & _).
  destruct new as [|n new]; [done|]. rewrite Hs, Hs' in G5. simpl in G5.
  exists (d :: new). by rewrite Hs', G5.
Qed.

(** *** Contexts in use

    [m] keeps a context well-formed and its top layer the one that takes
    copies. *)
Definition lively {V} (m : M (Ctx A E) V) : Prop := keeps (λ c, wf c ∧ active c) m.

Lemma lively_pure {V} (m : M (Ctx A E) V) : (∀ c, (m c).2 = c) → lively m.
Proof. intros H c Hc. by rewrite H. Qed.

Lemma lively_steps {V} (m : M (Ctx A E) V) : steps_top m → lively m.
Proof. intros Hm c [Hwf Ha]. destruct (Hm c Hwf). auto. Qed.

Lemma lively_fold {V W} (f : W → V → M (Ctx A E) W) w l :
  (∀ w v, lively (f w v)) → lively (fold_m f w l).
Proof.
  intros Hf. revert w. induction l as [|v l IH]; intros w; simpl; [by apply lively_pure|].
  apply keeps_bind; [apply Hf|]. intros w'. apply IH.
Qed.

Lemma lively_Snapshot {V} (f : nat → M (Ctx A E) V) :
  (∀ sn, (2 ≤ sn)%nat → lively (f sn)) → lively (Snapshot ≫= f).
Proof.
  intros Hf c [Hwf Ha]. destruct (wf_top c Hwf) as (d & st & Hs & _).
  destruct (Snapshot_spec c d st Hwf Hs) as (c1 & Hr & Hwf1 & _ & _ & Hs1).
  rewrite (bind_Ok _ _ _ _ _ Hr). apply Hf; [rewrite Hs; simpl; lia|]. split; [done|].
  unfold active. unfold Snapshot in Hr. simpl in Hr. rewrite Hs in Hr. by injection Hr as <-.
Qed.

Lemma lively_Revert sn : (2 ≤ sn)%nat → lively (Revert sn).
Proof.
  intros Hsn c [Hwf Ha]. split; [by apply wf_Revert|].
  pose proof (wf_Revert sn c Hsn Hwf) as (d & st & Hs & _)%wf_top. revert Hs. unfold Revert, active.
  destruct (_ && _); [done|]. destruct (if (sn <=? _)%nat then _ else _); simpl; [done|].
  by intros [= <- <-].
Qed.

Lemma lively_Commit sn : (2 ≤ sn)%nat → lively (Commit sn).
Proof.
  intros Hsn c [Hwf Ha]. split; [by apply wf_Commit|].
  pose proof (wf_Commit sn c Hsn Hwf) as (d & st & Hs & _)%wf_top. revert Hs. unfold Commit, active in *.
  simpl. destruct (stack c) as [|d0 st0] eqn:Hs0; [done|].
  destruct (commit_loop sn d0 st0) as [[|d1 st1]|e|]; simpl; rewrite ?Hs0; try done; by intros [= <- <-].
Qed.

(** *** Time slots in the layers

    The lowest [n] layers hold the time slot; [m] keeps it there. *)
Definition slot_maps c : list (gmap Z (gmap bytes bool)) := TimeSlotMap <$> stack c.
Definition any_slot (s : Z) (k : bytes) (ms : list (gmap Z (gmap bytes bool))) : Prop :=
  ∃ m, m ∈ ms ∧ slot_has m s k = true.
Definition holds (n : nat) (s : Z) (k : bytes) c : Prop :=
  wf c ∧ (n ≤ length (stack c))%nat ∧ any_slot s k (drop (length (stack c) - n) (slot_maps c)).
Definition keeps_slots {V} (m : M (Ctx A E) V) : Prop := ∀ n s k, keeps (holds n s k) m.
Definition keeps_slots_at {V} (sn : nat) (m : M (Ctx A E) V) : Prop :=
  ∀ n s k, (n < sn)%nat → keeps (holds n s k) m.

Lemma slot_maps_length c : length (slot_maps c) = length (stack c).
Proof. apply length_fmap. Qed.

Lemma keeps_slots_pure {V} (m : M (Ctx A E) V) : (∀ c, (m c).2 = c) → keeps_slots m.
Proof. intros H n s k c Hc. by rewrite H. Qed.

Lemma keeps_slots_steps {V} (m : M (Ctx A E) V) : steps_top m → keeps_slots m.
Proof.
  intros Hm n s k c (Hwf & Hn & Hany). pose proof (Hm c Hwf) as Hts. destruct (m c) as [r c']. simpl in *.
  destruct (wf_top c Hwf) as (d & st & Hs & _). destruct (wf_top c' (ts_wf _ _ Hts)) as (d' & st' & Hs' & _).
  pose proof (ts_below _ _ Hts) as Hb. rewrite Hs, Hs' in Hb. simpl in Hb. subst st'.
  pose proof (ts_slots _ _ Hts s k) as Hsl. unfold top_slot in Hsl. rewrite Hs, Hs' in Hsl.
  unfold holds, slot_maps in *. rewrite Hs, Hs' in *. split; [apply Hts|]. split; [done|].
  cbn [length] in *. destruct (S (length st) - n)%nat as [|j] eqn:Hj; [|done].
  rewrite !fmap_cons, !drop_0 in *. destruct Hany as (m0 & Hm0 & Hh). apply elem_of_cons in Hm0 as [->|Hm0].
  - exists (TimeSlotMap d'). split; [constructor|auto].
  - exists m0. split; [by constructor|done].
Qed.

Lemma slot_maps_mark d st c : slot_maps (set_stack (set_isTop true d :: st) c) = TimeSlotMap <$> (d :: st).
Proof. done. Qed.

Lemma keeps_slots_Revert sn : (2 ≤ sn)%nat → keeps_slots_at sn (Revert sn).
Proof.
  intros Hsn n s k Hn c (Hwf & Hl & Hany). split; [by apply wf_Revert|].
  unfold Revert. simpl. replace (sn =? 0)%nat with false by (symmetry; apply Nat.eqb_neq; lia).
  rewrite andb_false_r. destruct (Nat.leb_spec sn (length (stack c))) as [Hle|Hgt].
  - set (j := (length (stack c) - (sn - 1))%nat).
    assert (Hj : length (drop j (stack c)) = (sn - 1)%nat) by (rewrite length_drop; lia).
    destruct (drop j (stack c)) as [|d st] eqn:Hd; [simpl in Hj; lia|]. cbn [mark_top].
    cbn [snd set_stack stack length]. rewrite slot_maps_mark. cbn [length] in Hj.
    split; [lia|]. rewrite <- Hd, fmap_drop, drop_drop.
    replace (S (length st) - n)%nat with (sn - 1 - n)%nat by lia.
    replace (j + (sn - 1 - n))%nat with (length (stack c) - n)%nat by lia. done.
  - destruct (wf_top c Hwf) as (d & st & Hs & _). unfold slot_maps in Hany. rewrite Hs in *. simpl.
    split; [done|]. done.
Qed.

(** A merge keeps the slots of all the layers it merges. *)
Lemma merged_slots (mid : list (ContextData A E)) d (s : Z) (k : bytes) :
  any_slot s k (TimeSlotMap <$> d :: mid) → slot_has (TimeSlotMap (foldl merge_layer d mid)) s k = true.
Proof.
  revert d. induction mid as [|d1 mid IH]; intros d (m & Hm & Hs).
  - apply list_elem_of_singleton in Hm as ->. done.
  - cbn [foldl]. apply IH. rewrite !fmap_cons in Hm. apply elem_of_cons in Hm as [->|Hm].
    + eexists. split; [constructor|]. cbn [merge_layer TimeSlotMap]. by rewrite slot_has_merge, Hs.
    + apply elem_of_cons in Hm as [->|Hm].
      * eexists. split; [constructor|]. cbn [merge_layer TimeSlotMap]. by rewrite slot_has_merge, Hs, orb_true_r.
      * exists m. split; [by constructor|done].
Qed.

Lemma Commit_slots sn c d st :
  wf c → stack c = d :: st → (2 ≤ sn)%nat →
  ∃ mid rest, st = mid ++ rest ∧ length rest = (length st `min` (sn - 2))%nat ∧
    stack (Commit sn c).2 = set_isTop true (foldl merge_layer d mid) :: rest.
Proof.
  intros Hwf Hs Hsn. destruct (Commit_spec c d st sn Hs Hsn) as (mid & rest & H1 & H2 & ->). eauto.
Qed.

Lemma keeps_slots_Commit sn : (2 ≤ sn)%nat → keeps_slots_at sn (Commit sn).
Proof.
  intros Hsn n s k Hn c (Hwf & Hl & Hany). split; [by apply wf_Commit|].
  destruct (wf_top c Hwf) as (d & st & Hs & _).
  destruct (Commit_slots sn c d st Hwf Hs Hsn) as (mid & rest & -> & Hr & Hc).
  unfold slot_maps in *. rewrite Hc, Hs in *. cbn [length] in *. rewrite length_app in *.
  split; [lia|]. rewrite !fmap_cons. cbn [TimeSlotMap set_isTop].
  destruct (decide (n ≤ length rest)%nat) as [Hle|Hgt].
  - replace (S (length rest) - n)%nat with (S (length rest - n)) by lia. cbn [drop].
    replace (S (length mid + length rest) - n)%nat with (S (length mid) + (length rest - n))%nat in Hany by lia.
    rewrite fmap_cons in Hany. cbn [Nat.add drop] in Hany. rewrite fmap_app, <- drop_drop, drop_app_length' in Hany by (by rewrite length_fmap).
    done.
  - replace (S (length rest) - n)%nat with 0%nat by lia. rewrite drop_0.
    replace (S (length mid + length rest) - n)%nat with (length mid) in Hany by lia.
    destruct Hany as (m & [i Hi]%list_elem_of_lookup_1 & Hms).
    rewrite lookup_drop in Hi. apply list_elem_of_lookup_2 in Hi as Hm.
    change (d :: mid ++ rest) with ((d :: mid) ++ rest) in Hm. rewrite fmap_app in Hm. apply elem_of_app in Hm as [Hm|Hm].
    + eexists. split; [constructor|]. apply merged_slots. by exists m.
    + exists m. split; [by constructor|done].
Qed.

(** A program with the four properties. *)
Record tame {V} (m : M (Ctx A E) V) : Prop := {
  tame_respects : respects m;
  tame_frames : frames m;
  tame_lively : lively m;
  tame_slots : keeps_slots m;
}.

(** Sequencing; [Q] is what is known of the value between the two parts. *)
Lemma tame_bind_post {V W} (Q : V → Prop) (m : M (Ctx A E) V) (f : V → M (Ctx A E) W) :
  tame m → (∀ c v c', m c = (Ok v, c') → Q v) → (∀ v, Q v → tame (f v)) → tame (m ≫= f).
Proof.
  intros [R F L S] HQ Hf.
  assert (K : ∀ X : Ctx A E → Prop, keeps X m → (∀ v, Q v → keeps X (f v)) → keeps X (m ≫= f)).
  { intros X Km Kf c Hc. specialize (Km c Hc). specialize (HQ c). unfold mbind, M_bind.
    destruct (m c) as [[v|e|] c']; simpl in *; [|done..]. apply Kf; [by eapply HQ|done]. }
  split.
  - intros c1 c2 H. destruct (R c1 c2 H) as [H1 H2]. specialize (HQ c1). unfold mbind, M_bind.
    destruct (m c1) as [r1 d1], (m c2) as [r2 d2]. simpl in *. subst r2.
    destruct r1 as [v|e|]; [|done..]. apply Hf; [by eapply HQ|done].
  - intros c0 lower. apply K; [apply F|]. intros v Hv. by apply Hf.
  - apply K; [apply L|]. intros v Hv. by apply Hf.
  - intros n s k. apply K; [apply S|]. intros v Hv. by apply Hf.
Qed.

Lemma tame_bind {V W} (m : M (Ctx A E) V) (f : V → M (Ctx A E) W) :
  tame m → (∀ v, tame (f v)) → tame (m ≫= f).
Proof. intros Hm Hf. by apply (tame_bind_post (λ _, True)). Qed.
Lemma tame_pure {V} (m : M (Ctx A E) V) : respects m → (∀ c, (m c).2 = c) → tame m.
Proof. intros Hr Hp. split; [done|by apply frames_pure|by apply lively_pure|by apply keeps_slots_pure]. Qed.
Lemma tame_steps {V} (m : M (Ctx A E) V) : respects m → steps_top m → tame m.
Proof. intros Hr Hp. split; [done|by apply frames_steps|by apply lively_steps|by apply keeps_slots_steps]. Qed.

Lemma tame_ret {V} (v : V) : tame (mret v).
Proof. apply tame_pure; [apply respects_ret|done]. Qed.
Lemma tame_fail {V} e : tame (fail e : M (Ctx A E) V).
Proof. apply tame_pure; [apply respects_fail|done]. Qed.
Lemma tame_panic {V} : tame (panic : M (Ctx A E) V).
Proof. apply tame_pure; [apply respects_panic|done]. Qed.
Lemma tame_lift {V} (r : res V) : tame (lift r).
Proof. apply tame_pure; [apply respects_lift|done]. Qed.
Lemma tame_guard b e : tame (guard_err b e).
Proof. apply tame_pure; [apply respects_guard|by destruct b]. Qed.
Lemma tame_try {V} (m : M (Ctx A E) V) : tame m → tame (try m).
Proof.
  intros []. split; [by apply respects_try|by apply frames_try|by apply keeps_try|intros n s k; by apply keeps_try].
Qed.
Lemma tame_for_each {V} (f : V → M (Ctx A E) unit) l :
  (∀ v, v ∈ l → tame (f v)) → tame (for_each f l).
Proof.
  induction l as [|v l IH]; intros Hf; simpl; [apply tame_ret|].
  apply tame_bind; [apply Hf; constructor|]. intros _. apply IH. intros w Hw. apply Hf. by constructor.
Qed.
Lemma tame_fold {V W} (f : W → V → M (Ctx A E) W) w l : (∀ w v, tame (f w v)) → tame (fold_m f w l).
Proof.
  intros Hf. revert w. induction l as [|v l IH]; intros w; simpl; [apply tame_ret|]. apply tame_bind; auto.
Qed.
Lemma tame_TargetHeight : tame TargetHeight.
Proof. apply tame_pure; [apply respects_TargetHeight|done]. Qed.
Lemma tame_StackSize : tame StackSize.
Proof. apply tame_pure; [apply respects_StackSize|done]. Qed.
Lemma tame_HasAccount a : tame (HasAccount a).
Proof. apply tame_pure; [apply respects_HasAccount|done]. Qed.
Lemma tame_HasAccountName n : tame (HasAccountName n).
Proof. apply tame_pure; [apply respects_HasAccountName|done]. Qed.
Lemma tame_AddressByName n : tame (AddressByName n).
Proof. apply tame_steps; [apply respects_AddressByName|eapply reads_steps, read_AddressByName]. Qed.
Lemma tame_dirty {V} (m : M (Ctx A E) V) : tame m → tame (modify dirty ;; m).
Proof. intros H. apply tame_bind; [|done]. apply tame_steps; [apply respects_dirty|apply steps_dirty]. Qed.
Lemma tame_ctd_Account a : tame (ctd_Account a).
Proof. apply tame_steps; [apply respects_ctd_Account|eapply reads_steps, read_Account]. Qed.
Lemma tame_Account a : tame (Account a).
Proof. apply tame_dirty, tame_ctd_Account. Qed.
Lemma tame_AccountData a p n : valid_addr a → valid_pid p → tame (AccountData a p n).
Proof. intros. apply tame_steps; [by apply respects_AccountData|by eapply reads_steps, read_AccountData]. Qed.
Lemma tame_ProcessData p n : valid_pid p → tame (ProcessData p n).
Proof. intros. apply tame_steps; [by apply respects_ProcessData|by eapply reads_steps, read_ProcessData]. Qed.
Lemma tame_with_top f : (∀ d, keeps_layer d (f d)) → tame (with_top f).
Proof. intros Hf. apply tame_steps; [by apply respects_with_top|by apply steps_with_top]. Qed.
Lemma tame_SetAccountData a p n v : tame (SetAccountData a p n v).
Proof. apply tame_dirty. by apply tame_with_top. Qed.
Lemma tame_SetProcessData p n v : tame (SetProcessData p n v).
Proof. by apply tame_with_top. Qed.
Lemma tame_CreateAccount acc : tame (CreateAccount acc).
Proof. apply tame_dirty. apply tame_steps; [apply respects_create|apply steps_create]. Qed.
Lemma tame_EmitEvent e : tame (EmitEvent e).
Proof. apply tame_dirty. by apply tame_with_top. Qed.
Lemma tame_UpdateAccount a acc : tame (UpdateAccount a acc).
Proof. by apply tame_with_top. Qed.
Lemma tame_DeleteAccount acc : tame (DeleteAccount acc).
Proof. apply tame_dirty, tame_bind; [apply tame_ctd_Account|intros; by apply tame_with_top]. Qed.

Lemma steps_Ctx_UseTimeSlot s k : steps_top (UseTimeSlot s k : M (Ctx A E) unit).
Proof.
  intros c Hwf. pose proof (write_UseTimeSlot s k c Hwf) as Hu. unfold UseTimeSlot.
  destruct (view_slot c s k).
  - by destruct Hu as (c' & -> & Hs & _).
  - by destruct Hu as (c' & -> & Hs & _).
Qed.
Lemma tame_UseTimeSlot s k : tame (UseTimeSlot s k).
Proof. apply tame_steps; [apply respects_UseTimeSlot|apply steps_Ctx_UseTimeSlot]. Qed.

(** *** Inside a snapshot

    [c'] is a context reached from [c] since a snapshot of [c] was taken. *)
Definition within c (d : ContextData A E) (st : list (ContextData A E)) c' : Prop :=
  stack c = d :: st ∧ above c (set_isTop false d :: st) c' ∧ isLatestHash c' = false.

(** A context with an up-to-date flag and a top layer in use. *)
Record ready c : Prop := {
  rd_wf : wf c;
  rd_active : active c;
  rd_latest : isLatestHash c = false;
}.

Lemma Snapshot_within c :
  ready c → ∃ d st c1, Snapshot c = (Ok (S (length (stack c))), c1) ∧ within c d st c1 ∧
    stack c1 = NewContextData (Some d) :: set_isTop false d :: st.
Proof.
  intros [Hwf Ha Hl]. destruct (wf_top c Hwf) as (d & st & Hs & _).
  destruct (Snapshot_spec c d st Hwf Hs) as (c1 & Hr & Hwf1 & _ & _ & Hs1).
  exists d, st, c1. split; [done|]. split; [|done]. split; [done|].
  unfold Snapshot in Hr. simpl in Hr. rewrite Hs in Hr. injection Hr as <-.
  split; [|done]. split; try done. by eexists [_].
Qed.

(** [same] carries the latest flag through [respects]. *)
Lemma respects_latest {V} (m : M (Ctx A E) V) c :
  respects m → wf c → isLatestHash c = false → isLatestHash (m c).2 = false.
Proof. intros Hm Hwf Hl. by destruct (Hm c c (same_refl c Hwf Hl)) as [_ []]. Qed.

Lemma within_tame {V} (m : M (Ctx A E) V) c d st c' :
  tame m → within c d st c' → within c d st (m c').2.
Proof.
  intros [H1 H2 _] (Hs & Hab & Hl). split; [done|]. split; [by apply H2|].
  apply respects_latest; [done|apply Hab|done].
Qed.

Lemma Revert_within c d st c' :
  ready c → within c d st c' →
  ∃ c2, Revert (S (length (stack c))) c' = (Ok tt, c2) ∧ same c c2 ∧ ready c2.
Proof.
  intros [Hwf Ha Hlat] (Hs & Hab & Hl). destruct Hab as [Hwf' H1 H2 H3 H4 (new & Hnew & Hs')].
  rewrite Hs. change (length (d :: st)) with (length (set_isTop false d :: st)).
  rewrite (Revert_spec c' new (set_isTop false d) st Hs' Hnew). eexists. split; [done|].
  unfold active in Ha. rewrite Hs in Ha.
  assert (Hd : set_isTop true (set_isTop false d) = d) by (destruct d; simpl in *; by subst).
  rewrite Hd. destruct (wf_top c Hwf) as (d0 & st0 & Hs0 & Hst). rewrite Hs in Hs0. injection Hs0 as <- <-.
  assert (Hw : wf (set_stack (d :: st) (dirty c'))) by (split; [by eexists _, _|apply Hwf'|apply Hwf']).
  split; [|by split]. split; simpl; try done; congruence.
Qed.

Lemma Commit_within c d st c' :
  ready c → within c d st c' →
  ∃ c2 d2, Commit (S (length (stack c))) c' = (Ok tt, c2) ∧ ready c2 ∧ stack c2 = d2 :: st.
Proof.
  intros [Hwf Ha Hlat] (Hs & Hab & Hl). destruct Hab as [Hwf' H1 H2 H3 H4 (new & Hnew & Hs')].
  destruct new as [|u new]; [done|]. simpl in Hs'.
  destruct (Commit_spec c' u _ (S (length (stack c))) Hs') as (mid & rest & Hm & Hr & Hc).
  { rewrite Hs. simpl. lia. }
  assert (rest = st) as ->.
  { rewrite Hs in Hr. rewrite length_app in Hr. cbn [length] in Hr.
    assert (Hlen : (length mid = length new + 1)%nat).
    { apply (f_equal length) in Hm. rewrite !length_app in Hm. cbn [length] in Hm. lia. }
    apply (f_equal (drop (length mid))) in Hm. rewrite drop_app_length in Hm. rewrite <- Hm.
    rewrite Hlen, drop_app_ge by lia. by replace (length new + 1 - length new)%nat with 1%nat by lia. }
  eexists _, _. split; [exact Hc|]. split; [|done].
  pose proof (wf_top c Hwf) as (d0 & st0 & Hs0 & Hst). rewrite Hs in Hs0. injection Hs0 as <- <-.
  split; [by apply wf_mark_top; try apply Hwf'|done|done].
Qed.

(** Programs that know a snapshot number above the frame. *)
Record tame_at {V} (sn : nat) (m : M (Ctx A E) V) : Prop := {
  tat_respects : respects m;
  tat_frames : frames_at sn m;
  tat_lively : lively m;
  tat_slots : keeps_slots_at sn m;
}.

Lemma tame_tame_at {V} sn (m : M (Ctx A E) V) : tame m → tame_at sn m.
Proof. intros []. split; [done|by apply frames_frames_at|done|]. intros n s k _. auto. Qed.

Lemma tame_at_bind {V W} sn (m : M (Ctx A E) V) (f : V → M (Ctx A E) W) :
  tame_at sn m → (∀ v, tame_at sn (f v)) → tame_at sn (m ≫= f).
Proof.
  intros [] Hf.
  split; [apply respects_bind|apply frames_at_bind|apply keeps_bind|intros n s k Hn; apply keeps_bind];
    try done; try (by auto); intros v; by apply Hf.
Qed.

Lemma tame_at_Revert sn : (2 ≤ sn)%nat → tame_at sn (Revert sn).
Proof. intros. split;
  [by apply respects_Revert|apply frames_at_Revert|by apply lively_Revert|by apply keeps_slots_Revert]. Qed.

Lemma tame_at_Commit sn : (2 ≤ sn)%nat → tame_at sn (Commit sn).
Proof. intros. split;
  [by apply respects_Commit|apply frames_at_Commit|by apply lively_Commit|by apply keeps_slots_Commit]. Qed.

Lemma tame_at_Snapshot {V} (f : nat → M (Ctx A E) V) :
  (∀ sn, (2 ≤ sn)%nat → tame_at sn (f sn)) → tame (Snapshot ≫= f).
Proof.
  intros Hf. split.
  - apply respects_Snapshot_bind. intros sn Hsn. by apply Hf.
  - intros c0 lower c Hc. destruct (wf_top c (ab_wf _ _ _ Hc)) as (d & st & Hs & _).
    destruct (Snapshot_spec c d st (ab_wf _ _ _ Hc) Hs) as (c1 & Hr & _).
    pose proof (exec_above c0 lower OpSnapshot c Hc I) as Hc1. simpl in Hc1. rewrite Hr in Hc1.
    rewrite (bind_Ok _ _ _ _ _ Hr). apply Hf; [rewrite Hs; simpl; lia| |done].
    destruct (ab_stack _ _ _ Hc) as (new & Hnew & Hst). rewrite Hst, length_app.
    destruct new; [done|]. simpl. lia.
  - apply lively_Snapshot. intros sn Hsn. by apply Hf.
  - intros n s k c (Hwf & Hn & Hany). destruct (wf_top c Hwf) as (d & st & Hs & _).
    destruct (Snapshot_spec c d st Hwf Hs) as (c1 & Hr & Hwf1 & _ & _ & Hs1).
    rewrite (bind_Ok _ _ _ _ _ Hr). apply Hf; [rewrite Hs; simpl; lia|lia|].
    unfold holds, slot_maps in *. rewrite Hs, Hs1 in *. cbn [length] in *. split; [done|]. split; [lia|].
    replace (S (S (length st)) - n)%nat with (S (S (length st) - n)) by lia. done.
Qed.

(** The snapshot pattern of the processes. *)
Lemma tame_scope {V} (fn : M (Ctx A E) V) :
  tame fn →
  tame (sn ← Snapshot; r ← try fn;
        match r with inr err => Revert sn ;; fail err | inl _ => Commit sn end).
Proof.
  intros Hfn. apply tame_at_Snapshot. intros sn Hsn. apply tame_at_bind; [by apply tame_tame_at, tame_try|].
  intros [v|e]; [by apply tame_at_Commit|].
  apply tame_at_bind; [by apply tame_at_Revert|]. intros. apply tame_tame_at, tame_fail.
Qed.

End ContextBisim.

(** Programs are tame by their shape. *)
Create HintDb tame.
#[export] Hint Resolve tame_bind tame_ret tame_fail tame_panic tame_lift tame_guard tame_try tame_fold
  tame_TargetHeight tame_HasAccount tame_HasAccountName tame_AddressByName tame_Account tame_AccountData
  tame_ProcessData tame_SetAccountData tame_SetProcessData tame_CreateAccount tame_EmitEvent
  tame_DeleteAccount tame_UpdateAccount tame_scope : tame.
#[export] Hint Extern 2 (tame (if ?b then _ else _)) => destruct b : tame.
#[export] Hint Extern 2 (tame (match ?o with Some _ => _ | None => _ end)) => destruct o : tame.
