(* ===== verification/ContextTrace.v ===== *)
(** * core/types: deletion marks and what a commit keeps

    [Commit] loses an entry of the upper layer when the lower one has a
    deletion mark for its key (ContextSpec).  This file tracks which keys can
    be in that position: an entry of the top layer is stale when the first
    layer below that knows its key has it marked as deleted.  Copies of reads
    are never stale; only writes make stale entries.  With that, the sequence
    snapshot, body, commit or revert, which the processes and the chain use
    around every transaction, gets one specification. *)

From S2P Require Import Prelude Common Context ContextSpec.

(** The keys of the four kinds that have deletion marks. *)
Inductive lkey :=
  | LAccount (addr : Address)
  | LData (k : bytes)
  | LProcess (k : bytes)
  | LUTXO (id : Z).

#[export] Instance lkey_eq_dec : EqDecision lkey.
Proof. solve_decision. Defined.

Section ContextTrace.
Context {A E : Type} `{AI : AccountI A} `{EI : EventI E} `{B58 : Base58}.
Implicit Types (c : Ctx A E) (d u l : ContextData A E) (st : list (ContextData A E)).

(** What a layer has for a key: a mark, a value, or nothing. *)
Definition presence {X Y} (del : option X) (val : option Y) : option bool :=
  match del, val with
  | Some _, _ => Some true
  | None, Some _ => Some false
  | None, None => None
  end.

Definition khit (x : lkey) d : option bool :=
  match x with
  | LAccount a => presence (DeletedAccountMap d !! a) (AccountMap d !! a)
  | LData k => presence (ov_del (AccountDataOv d) !! k) (ov_map (AccountDataOv d) !! k)
  | LProcess k => presence (ov_del (ProcessDataOv d) !! k) (ov_map (ProcessDataOv d) !! k)
  | LUTXO id => presence (DeletedUTXOMap d !! id) (UTXOMap d !! id)
  end.

Fixpoint khits (x : lkey) st : option bool :=
  match st with
  | [] => None
  | d :: st => match khit x d with Some b => Some b | None => khits x st end
  end.

Definition marked (x : lkey) c : Prop :=
  match stack c with [] => False | d :: _ => khit x d = Some true end.
Definition stale (x : lkey) c : Prop :=
  match stack c with [] => False | u :: st => khit x u = Some false ∧ khits x st = Some true end.

(** The keys that became stale or marked between two contexts are among [W]
    and [Mk]. *)
Record trace (W Mk : list lkey) c c' : Prop := {
  tr_step : top_step c c';
  tr_stale : ∀ x, stale x c' → stale x c ∨ x ∈ W;
  tr_marked : ∀ x, marked x c' → marked x c ∨ x ∈ Mk;
}.

Lemma trace_refl c : wf c → trace [] [] c c.
Proof. intros H. split; auto using top_step_refl. Qed.

Lemma trace_trans W1 W2 M1 M2 c1 c2 c3 :
  trace W1 M1 c1 c2 → trace W2 M2 c2 c3 → trace (W1 ++ W2) (M1 ++ M2) c1 c3.
Proof.
  intros [H1 H2 H3] [G1 G2 G3]. split; [by eapply top_step_trans|..]; intros x Hx.
  - rewrite elem_of_app. destruct (G2 x Hx) as [Hx'|]; [destruct (H2 x Hx')|]; auto.
  - rewrite elem_of_app. destruct (G3 x Hx) as [Hx'|]; [destruct (H3 x Hx')|]; auto.
Qed.

Lemma trace_weaken W W' Mk Mk' c c' : W ⊆ W' → Mk ⊆ Mk' → trace W Mk c c' → trace W' Mk' c c'.
Proof.
  intros HW HM [H1 H2 H3]. split; [done|..]; intros x Hx; [destruct (H2 x Hx)|destruct (H3 x Hx)]; auto.
Qed.

(** A change of the top layer that leaves every key as it is. *)
Lemma trace_same c d st d' c' :
  top_step c c' → stack c = d :: st → stack c' = d' :: st → (∀ x, khit x d' = khit x d) →
  trace [] [] c c'.
Proof.
  intros Ht Hs Hs' Hk. split; [done|..]; intros x; unfold stale, marked; rewrite Hs, Hs', Hk; auto.
Qed.

Lemma trace_dirty c : wf c → trace [] [] c (dirty c).
Proof. intros Hwf. destruct (dirty_step c Hwf) as [Ht _]. by split; [done|auto..]. Qed.

(** *** Reads *)

(** A copied read is not stale: a marked key answers empty, and nothing is
    copied. *)
Lemma filled_data_not_stale (sel : ContextData A E → Overlay)
    (hit : ContextData A E → option (res bytes)) x k below u st v :
  (∀ d, hit d = ov_hit k (sel d)) →
  (∀ d, khit x d = presence (ov_del (sel d) !! k) (ov_map (sel d) !! k)) →
  hit u = None → view hit below (u :: st) = Ok v → nonempty v = true → khits x st ≠ Some true.
Proof.
  intros Hh Hk Hu. unfold view. simpl. rewrite Hu. clear Hu u.
  induction st as [|d st IH]; simpl; [done|]. rewrite Hh, Hk. unfold presence, ov_hit at 1.
  destruct (ov_del (sel d) !! k); simpl.
  - intros [= <-]. done.
  - destruct (ov_map (sel d) !! k); [done|]. apply IH.
Qed.

Lemma run_read_stack {V} hit fill clone keep (load : Loader A → ContextCache A → res V * _) c below :
  (∀ v, clone v = v) → (∀ v d, isTop (fill v d) = isTop d) → wf c →
  (∀ cc, cache_ok (loader c) cc →
     ∃ cc', load (loader c) cc = (below, cc') ∧ cache_ok (loader c) cc') →
  ∃ d st, stack c = d :: st ∧
    stack (run_read hit fill clone keep load c).2
    = filled hit fill keep (view hit below (d :: st)) d :: st.
Proof.
  intros H1 H2 Hwf Hl.
  destruct (run_read_spec hit fill clone keep load c below H1 H2 Hwf Hl) as (d & st & cc & Hs & _ & Hr).
  exists d, st. rewrite Hr, Hs. done.
Qed.

Lemma trace_AccountData c a p n :
  valid_addr a → valid_pid p → wf c →
  ∃ c', AccountData a p n c = (view_AccountData c a p n, c') ∧ c' ≡ c ∧ trace [] [] c c'.
Proof.
  intros Ha Hp Hwf. destruct (read_AccountData a p n Ha Hp c Hwf) as (c' & Hr & Ht & He).
  exists c'. split; [done|]. split; [done|].
  destruct (run_read_stack (hit_AccountData (accountDataKey a p n)) (fill_AccountData (accountDataKey a p n))
    id nonempty (λ ld, cc_AccountData ld a p n) c (Ok (ld_AccountData (loader c) a p n)))
    as (d & st & Hs & Hs'); try done.
  { intros. by apply cc_AccountData_spec. }
  change (run_read _ _ _ _ _ c) with (ctd_AccountData a p n c) in Hs'. rewrite Hr in Hs'. simpl in Hs'.
  unfold filled in Hs'. destruct (hit_AccountData _ d) eqn:Hd; [by eapply trace_same|].
  destruct (view _ _ (d :: st)) as [v|e|] eqn:Hv; [|by eapply trace_same..].
  destruct (nonempty v) eqn:Hne, (isTop d); simpl in Hs'; try by eapply trace_same.
  pose proof (filled_data_not_stale AccountDataOv (hit_AccountData (accountDataKey a p n))
    (LData (accountDataKey a p n)) _ _ d st v ltac:(done) ltac:(done) Hd Hv Hne) as Hns.
  assert (Hdel : ov_del (AccountDataOv d) !! accountDataKey a p n = None).
  { unfold hit_AccountData, ov_hit in Hd. by destruct (ov_del _ !! _). }
  assert (Hk : ∀ x, khit x (fill_AccountData (accountDataKey a p n) v d)
    = if decide (x = LData (accountDataKey a p n)) then Some false else khit x d).
  { intros [x|x|x|x]; try done. simpl. unfold presence. destruct (decide _) as [[= ->]|Hx].
    - by rewrite Hdel, lookup_insert_eq.
    - by rewrite lookup_insert_ne by congruence. }
  split; [done|..]; intros x; unfold stale, marked; rewrite Hs, Hs', Hk; case_decide; try by auto.
  subst x. intros [_ Hst]. by destruct Hns.
Qed.

Lemma trace_ProcessData c p n :
  valid_pid p → wf c →
  ∃ c', ProcessData p n c = (view_ProcessData c p n, c') ∧ c' ≡ c ∧ trace [] [] c c'.
Proof.
  intros Hp Hwf. destruct (read_ProcessData p n Hp c Hwf) as (c' & Hr & Ht & He).
  exists c'. split; [done|]. split; [done|].
  destruct (run_read_stack (hit_ProcessData (processDataKey p n)) (fill_ProcessData (processDataKey p n))
    id nonempty (λ ld, cc_ProcessData ld p n) c (Ok (ld_ProcessData (loader c) p n)))
    as (d & st & Hs & Hs'); try done.
  { intros. by apply cc_ProcessData_spec. }
  change (run_read _ _ _ _ _ c) with (ctd_ProcessData p n c) in Hs'. rewrite Hr in Hs'. simpl in Hs'.
  unfold filled in Hs'. destruct (hit_ProcessData _ d) eqn:Hd; [by eapply trace_same|].
  destruct (view _ _ (d :: st)) as [v|e|] eqn:Hv; [|by eapply trace_same..].
  destruct (nonempty v) eqn:Hne, (isTop d); simpl in Hs'; try by eapply trace_same.
  pose proof (filled_data_not_stale ProcessDataOv (hit_ProcessData (processDataKey p n))
    (LProcess (processDataKey p n)) _ _ d st v ltac:(done) ltac:(done) Hd Hv Hne) as Hns.
  assert (Hdel : ov_del (ProcessDataOv d) !! processDataKey p n = None).
  { unfold hit_ProcessData, ov_hit in Hd. by destruct (ov_del _ !! _). }
  assert (Hk : ∀ x, khit x (fill_ProcessData (processDataKey p n) v d)
    = if decide (x = LProcess (processDataKey p n)) then Some false else khit x d).
  { intros [x|x|x|x]; try done. simpl. unfold presence. destruct (decide _) as [[= ->]|Hx].
    - by rewrite Hdel, lookup_insert_eq.
    - by rewrite lookup_insert_ne by congruence. }
  split; [done|..]; intros x; unfold stale, marked; rewrite Hs, Hs', Hk; case_decide; try by auto.
  subst x. intros [_ Hst]. by destruct Hns.
Qed.

(** *** Writes *)

Definition if_value (v : bytes) (x : lkey) : list lkey := if nonempty v then [x] else [].
Definition if_empty (v : bytes) (x : lkey) : list lkey := if nonempty v then [] else [x].

Lemma presence_ov_set k k' v o :
  presence (ov_del (ov_set k v o) !! k') (ov_map (ov_set k v o) !! k')
  = if decide (k' = k) then Some (negb (nonempty v))
    else presence (ov_del o !! k') (ov_map o !! k').
Proof.
  unfold ov_set, presence. destruct v as [|b v]; simpl; destruct (decide (k' = k)) as [->|Hne];
    by rewrite ?lookup_insert_eq, ?lookup_delete_eq, ?lookup_insert_ne, ?lookup_delete_ne by done.
Qed.

(** A write of one key. *)
Lemma trace_set c c' d d' st k v :
  top_step c c' → stack c = d :: st → stack c' = d' :: st →
  (∀ x, khit x d' = if decide (x = k) then Some (negb (nonempty v)) else khit x d) →
  trace (if_value v k) (if_empty v k) c c'.
Proof.
  intros Ht Hs Hs' Hk. split; [done|..]; intros x; unfold stale, marked, if_value, if_empty;
    rewrite Hs, Hs', Hk; case_decide; subst; try (by auto); destruct (nonempty v); simpl;
    try (right; by apply list_elem_of_singleton); naive_solver.
Qed.

Lemma trace_SetAccountData c a p n v :
  valid_addr a → valid_pid p → wf c →
  ∃ c', SetAccountData a p n v c = (Ok tt, c') ∧ abs c' ≡ abs_set_account_data a p n v (abs c) ∧
    trace (if_value v (LData (accountDataKey a p n))) (if_empty v (LData (accountDataKey a p n))) c c'.
Proof.
  intros Ha Hp Hwf. destruct (wf_top c Hwf) as (d & st & Hs & _).
  destruct (writes_dirty (ctd_SetAccountData a p n v) c (abs_set_account_data a p n v))
    as (c' & Hr & Ht & He); [intros; by apply write_AccountData|done|].
  exists c'. split; [done|]. split; [done|].
  assert (Hs' : stack c' = set_AccountDataOv (ov_set (accountDataKey a p n) v (AccountDataOv d)) d :: st).
  { unfold ctd_SetAccountData, with_top, mbind, M_bind, modify in Hr. simpl in Hr. rewrite Hs in Hr.
    by simplify_eq. }
  eapply trace_set; eauto. intros [x|x|x|x]; simpl; rewrite ?presence_ov_set; try done.
  destruct (decide (x = _)), (decide (LData x = _)); congruence.
Qed.

Lemma trace_SetProcessData c p n v :
  valid_pid p → wf c →
  ∃ c', SetProcessData p n v c = (Ok tt, c') ∧ abs c' ≡ abs_set_process_data p n v (abs c) ∧
    trace (if_value v (LProcess (processDataKey p n))) (if_empty v (LProcess (processDataKey p n))) c c'.
Proof.
  intros Hp Hwf. destruct (wf_top c Hwf) as (d & st & Hs & _).
  destruct (write_ProcessData p n v c Hp Hwf) as (c' & Hr & Ht & He).
  exists c'. split; [done|]. split; [done|].
  assert (Hs' : stack c' = set_ProcessDataOv (ov_set (processDataKey p n) v (ProcessDataOv d)) d :: st).
  { unfold ctd_SetProcessData, with_top in Hr. rewrite Hs in Hr. by simplify_eq. }
  eapply trace_set; eauto. intros [x|x|x|x]; simpl; rewrite ?presence_ov_set; try done.
  destruct (decide (x = _)), (decide (LProcess x = _)); congruence.
Qed.

Lemma trace_CreateAccount c acc :
  wf c → creatable acc c → view_Account c (acc_Address acc) ≠ Err ErrDeletedAccount →
  ∃ c', CreateAccount acc c = (Ok tt, c') ∧ abs c' ≡ abs_create_account acc (abs c) ∧
    trace [LAccount (acc_Address acc)] [] c c'.
Proof.
  intros Hwf Hc Hd. destruct (wf_top c Hwf) as (d & st & Hs & _).
  destruct (dirty_step c Hwf) as [Ht0 _].
  destruct (write_CreateAccount (λ e, bool_decide (e = ErrNotExistAccount)) acc (dirty c))
    as (c' & Hr & Ht & He); [apply Ht0|done|done|].
  exists c'. split; [done|]. split; [done|].
  assert (Hs' : stack c' = put_account acc d :: st).
  { rewrite create_account_creatable in Hr; [|apply Ht0|done].
    unfold with_top in Hr. simpl in Hr. rewrite Hs in Hr. by simplify_eq. }
  assert (Hnd : DeletedAccountMap d !! acc_Address acc = None).
  { destruct (DeletedAccountMap d !! _) eqn:E0; [|done]. destruct Hd.
    unfold view_Account, view. rewrite Hs. simpl. unfold hit_Account at 1. by rewrite E0. }
  eapply (trace_set _ _ _ _ _ (LAccount (acc_Address acc)) [0]); eauto.
  { by eapply top_step_trans. }
  intros [x|x|x|x]; simpl; try done. unfold presence. destruct (decide _) as [[= ->]|Hx].
  - by rewrite Hnd, lookup_insert_eq.
  - by rewrite lookup_insert_ne by congruence.
Qed.

(** *** Scopes: snapshot, body, commit or revert *)

Definition noslot (s : Abs (A:=A)) : Abs :=
  mkAbs (abs_Account s) (abs_HasAccount s) (abs_Name s) (abs_HasName s) (abs_AccountData s)
    (abs_ProcessData s) (abs_UTXO s) (λ _ _, false).

#[export] Instance noslot_proper : Proper ((≡) ==> (≡)) noslot.
Proof. intros s1 s2 []. by split. Qed.

Lemma khit_merge x u l :
  khit x (merge_layer u l)
  = match khit x u with
    | Some true => Some true
    | Some false => if khit x l is Some true then Some true else Some false
    | None => khit x l
    end.
Proof.
  destruct x; simpl; unfold presence; rewrite EachAll_delete, !EachAll_put, !lookup_union;
    repeat match goal with |- context [?m !! ?k] => destruct (m !! k) end; done.
Qed.

Lemma khit_lost x u l :
  ¬ (khit x u = Some false ∧ khit x l = Some true) →
  match x with
  | LAccount a => lost_Account a u l
  | LData k => lost_data k (AccountDataOv u) (AccountDataOv l)
  | LProcess k => lost_data k (ProcessDataOv u) (ProcessDataOv l)
  | LUTXO id => lost_UTXO id u l
  end = false.
Proof.
  destruct x; simpl; unfold presence, lost_Account, lost_data, lost_UTXO, lost;
    repeat match goal with |- context [?m !! ?k] => destruct (m !! k) end; naive_solver.
Qed.

Lemma layers_hit_merge {V} (hit : ContextData A E → option (res V)) u l m st :
  hit m = match hit u with Some r => Some r | None => hit l end →
  layers_hit hit (m :: st) = layers_hit hit (u :: l :: st).
Proof. intros H. simpl. rewrite H. by destruct (hit u). Qed.

(** A merge without loss keeps every answer. *)
Lemma abs_merge c c' u l st :
  loader c' = loader c → stack c = u :: l :: st → stack c' = set_isTop true (merge_layer u l) :: st →
  (∀ x, ¬ (khit x u = Some false ∧ khit x l = Some true)) →
  noslot (abs c') ≡ noslot (abs c).
Proof.
  intros Hl Hs Hs' Hk. set (m := set_isTop true (merge_layer u l)) in *.
  assert (HA : ∀ a, layers_hit (hit_Account a) (m :: st) = layers_hit (hit_Account a) (u :: l :: st)).
  { intros a. apply layers_hit_merge. change (hit_Account a m) with (hit_Account a (merge_layer u l)).
    by rewrite hit_merge_Account, (khit_lost (LAccount a)). }
  assert (HN : ∀ n, layers_hit (hit_Name n) (m :: st) = layers_hit (hit_Name n) (u :: l :: st)).
  { intros n. apply layers_hit_merge, hit_merge_Name. }
  assert (HD : ∀ k, layers_hit (hit_AccountData k) (m :: st) = layers_hit (hit_AccountData k) (u :: l :: st)).
  { intros k. apply layers_hit_merge. etrans; [apply (ov_hit_merge_lost k (AccountDataOv u))|].
    by rewrite (khit_lost (LData k)). }
  assert (HP : ∀ k, layers_hit (hit_ProcessData k) (m :: st) = layers_hit (hit_ProcessData k) (u :: l :: st)).
  { intros k. apply layers_hit_merge. etrans; [apply (ov_hit_merge_lost k (ProcessDataOv u))|].
    by rewrite (khit_lost (LProcess k)). }
  assert (HU : ∀ k, layers_hit (hit_UTXO k) (m :: st) = layers_hit (hit_UTXO k) (u :: l :: st)).
  { intros k. apply layers_hit_merge. change (hit_UTXO k m) with (hit_UTXO k (merge_layer u l)).
    by rewrite hit_merge_UTXO, (khit_lost (LUTXO k)). }
  split; intros; cbn [noslot abs abs_Account abs_HasAccount abs_Name abs_HasName abs_AccountData
      abs_ProcessData abs_UTXO abs_slot]; try done;
    unfold view_Account, view_HasAccount, view_Name, view_HasName, view_AccountData,
      view_ProcessData, view_UTXO, view; rewrite Hs, Hs', Hl, ?HA, ?HN, ?HD, ?HP, ?HU; done.
Qed.

(** The state of a scope right after its snapshot. *)
Lemma scope_enter c :
  wf c → ∃ c1, Snapshot c = (Ok (S (length (stack c))), c1) ∧ wf c1 ∧
    loader c1 = loader c ∧ genTargetHeight c1 = genTargetHeight c ∧
    genLastHash c1 = genLastHash c ∧ genTimestamp c1 = genTimestamp c ∧
    (∃ d st, stack c = d :: st ∧ stack c1 = NewContextData (Some d) :: set_isTop false d :: st) ∧
    noslot (abs c1) ≡ noslot (abs c) ∧ (∀ x, ¬ stale x c1 ∧ ¬ marked x c1).
Proof.
  intros Hwf. destruct (wf_top c Hwf) as (d & st & Hs & _).
  destruct (Snapshot_spec c d st Hwf Hs) as (c1 & Hr & Hwf1 & Hl & Hh & Hs1).
  exists c1. split_and!; try done; try (by eexists _, _).
  - unfold Snapshot in Hr. simpl in Hr. rewrite Hs in Hr. by simplify_eq.
  - unfold Snapshot in Hr. simpl in Hr. rewrite Hs in Hr. by simplify_eq.
  - split; intros; cbn [noslot abs abs_Account abs_HasAccount abs_Name abs_HasName abs_AccountData
      abs_ProcessData abs_UTXO abs_slot]; try done;
      unfold view_Account, view_HasAccount, view_Name, view_HasName, view_AccountData,
        view_ProcessData, view_UTXO; by rewrite Hs, Hs1, Hl.
  - intros x. unfold stale, marked. rewrite Hs1. destruct x; naive_solver.
Qed.

(** Leaving a scope by [Commit]: no written key may be marked below. *)
Lemma scope_commit W Mk c c1 c2 sn :
  wf c → Snapshot c = (Ok sn, c1) → trace W Mk c1 c2 → (∀ x, x ∈ W → ¬ marked x c) →
  ∃ c3, Commit sn c2 = (Ok tt, c3) ∧ noslot (abs c3) ≡ noslot (abs c2) ∧ trace W Mk c c3.
Proof.
  intros Hwf Hsn Htr HW. destruct (scope_enter c Hwf) as
    (c1' & Hsn' & Hwf1 & Hl & Hh & Hlh & Hts & (d & st & Hs & Hs1) & _ & Hno).
  rewrite Hsn in Hsn'. injection Hsn' as -> <-.
  destruct (wf_top c2 (ts_wf _ _ (tr_step _ _ _ _ Htr))) as (u & st2 & Hs2 & Hf2).
  pose proof (ts_below _ _ (tr_step _ _ _ _ Htr)) as Hb. rewrite Hs2, Hs1 in Hb. simpl in Hb. subst st2.
  set (l := set_isTop false d) in *.
  assert (Hlen : S (length (stack c)) = length (stack c2)) by (by rewrite Hs, Hs2).
  rewrite Hlen. destruct (Commit_merges c2 u l st (ts_wf _ _ (tr_step _ _ _ _ Htr)) Hs2)
    as [Hc3 Hwf3].
  remember (set_stack (set_isTop true (merge_layer u l) :: st) (dirty c2)) as c3 eqn:Ec3.
  assert (Hs3 : stack c3 = set_isTop true (merge_layer u l) :: st) by (by subst c3).
  assert (Hdl : ∀ x, khit x l = khit x d) by (by intros []).
  assert (Hst : ∀ x, khit x u = Some false → khits x (l :: st) = Some true → x ∈ W).
  { intros x H1 H2. destruct (tr_stale _ _ _ _ Htr x) as [Hx|Hx]; [by unfold stale; rewrite Hs2|..|done].
    by destruct (Hno x). }
  assert (Hmk : ∀ x, khit x u = Some true → x ∈ Mk).
  { intros x H1. destruct (tr_marked _ _ _ _ Htr x) as [Hx|Hx]; [by unfold marked; rewrite Hs2|..|done].
    by destruct (Hno x). }
  assert (Hk : ∀ x, ¬ (khit x u = Some false ∧ khit x l = Some true)).
  { intros x [H1 H2]. apply (HW x); [apply Hst; [done|]; simpl; by rewrite H2|].
    unfold marked. by rewrite Hs, <- Hdl. }
  assert (Hcl : loader c3 = loader c2 ∧ genTargetHeight c3 = genTargetHeight c2 ∧
    genLastHash c3 = genLastHash c2 ∧ genTimestamp c3 = genTimestamp c2).
  { destruct (Commit_spec c2 u (l :: st) (length (stack c2)) Hs2) as (mid & rest & _ & _ & Hc);
      [rewrite Hs2; simpl; lia|]. rewrite Hc3 in Hc. by simplify_eq. }
  destruct Hcl as (G1 & G2 & G3 & G4). destruct (tr_step _ _ _ _ Htr) as [_ T1 T2 T3 T4 _].
  exists c3. split; [done|]. split; [by eapply abs_merge|].
  assert (Hslots : ∀ s k, top_slot c s k = true → top_slot c3 s k = true).
  { intros s k. unfold top_slot. rewrite Hs, Hs3. cbn [TimeSlotMap set_isTop merge_layer].
    rewrite slot_has_merge. intros Hsl. cbn [l TimeSlotMap set_isTop]. by rewrite Hsl, orb_true_r. }
  split; [split; try congruence; [by rewrite Hs3, Hs|by unfold active; rewrite Hs3|done]|..];
    intros x; unfold stale, marked;
    rewrite Hs3, Hs; change (khit x (set_isTop true ?m)) with (khit x m);
    rewrite khit_merge, Hdl.
  - intros [H1 H2]. destruct (khit x u) as [[]|] eqn:Hu; [done| |by left].
    destruct (khit x d) as [[]|] eqn:Hd'; [done|by left|right].
    apply Hst; [done|]. simpl. by rewrite Hdl, Hd'.
  - intros H1. destruct (khit x u) as [[]|] eqn:Hu; [by right; apply Hmk| |by left].
    destruct (khit x d) as [[]|] eqn:Hd'; simplify_eq; auto.
Qed.

(** Leaving a scope by [Revert]: nothing has happened. *)
Lemma scope_revert W Mk c c1 c2 sn :
  wf c → Snapshot c = (Ok sn, c1) → trace W Mk c1 c2 →
  ∃ c3, Revert sn c2 = (Ok tt, c3) ∧ c3 ≡ c ∧ trace [] [] c c3.
Proof.
  intros Hwf Hsn Htr. destruct (scope_enter c Hwf) as
    (c1' & Hsn' & Hwf1 & Hl & Hh & Hlh & Hts & (d & st & Hs & Hs1) & _ & Hno).
  rewrite Hsn in Hsn'. injection Hsn' as -> <-.
  destruct (wf_top c2 (ts_wf _ _ (tr_step _ _ _ _ Htr))) as (u & st2 & Hs2 & Hf2).
  destruct (tr_step _ _ _ _ Htr) as [Hwf2 T1 T2 T3 T4 Hb].
  rewrite Hs2, Hs1 in Hb. simpl in Hb. subst st2.
  rewrite Hs. change (length (d :: st)) with (length (set_isTop false d :: st)).
  rewrite (Revert_spec c2 [u] (set_isTop false d) st) by done.
  eexists. split; [done|].
  apply Forall_cons in Hf2 as [_ Hf2].
  assert (Hstep : top_step c (set_stack (set_isTop true (set_isTop false d) :: st) (dirty c2))).
  { split; simpl; try congruence; [|by rewrite Hs|done|by unfold top_slot; simpl; rewrite Hs].
    split; [by eexists _, _|apply Hwf2|apply Hwf2]. }
  split.
  - split; try (apply Hstep); [|by unfold top_events; simpl; rewrite Hs].
    split; intros; simpl; unfold view_Account, view_HasAccount, view_Name, view_HasName,
      view_AccountData, view_ProcessData, view_UTXO, view_slot; simpl; by rewrite Hs, T1, Hl.
  - eapply trace_same; [done|done|done|]. by intros [].
Qed.

End ContextTrace.
