(* ===== verification/Vault.v ===== *)
(** * process/vault and process/admin: balances and fees

    The vault keeps the balance of every account as account data, and the
    collected fees, the locked balances and its settings as process data, all
    under its own process identifier.  Amounts are stored as big-endian
    bytes; an absent entry is zero.

    The operations are those of vault_method.go, vault.go and admin_method.go
    on the context of a block, the [Validate] and [Execute] methods of the
    vault transactions, and the two account types of the vault. *)

From S2P Require Import Prelude Amount Common Context.

(** ** process/admin *)

Definition tagAdminAddress : bytes := [1; 1].
Definition toAdminAddressKey (Name : bytes) : bytes := tagAdminAddress ++ Name.

(** ** Account types *)

Record SingleAccount := mkSingle {
  single_Address : Address; single_Name : bytes; single_KeyHash : PublicHash }.

Record MultiAccount := mkMulti {
  multi_Address : Address; multi_Name : bytes; multi_Required : Z;
  multi_KeyHashes : list PublicHash }.

Definition single_Validate (acc : SingleAccount) (signers : list PublicHash) : res unit :=
  match signers with
  | [signer] =>
      if bool_decide (single_KeyHash acc ≠ signer) then Err ErrInvalidAccountSigner else Ok tt
  | _ => Err ErrInvalidSignerCount
  end.

Definition multi_Validate (acc : MultiAccount) (signers : list PublicHash) : res unit :=
  if negb (length (multi_KeyHashes acc) =? length signers)%nat then Err ErrInvalidSignerCount
  else
    let signerMap : gset PublicHash := list_to_set signers in
    let matchCount := length (filter (λ pubhash, pubhash ∈ signerMap) (multi_KeyHashes acc)) in
    if negb (Z.of_nat matchCount =? multi_Required acc) then Err ErrInvalidAccountSigner else Ok tt.

Definition single_Clone (acc : SingleAccount) : SingleAccount :=
  mkSingle (single_Address acc) (single_Name acc) (single_KeyHash acc).

Definition multi_Clone (acc : MultiAccount) : MultiAccount :=
  mkMulti (multi_Address acc) (multi_Name acc) (multi_Required acc)
    (foldl (λ l pubhash, l ++ [pubhash]) [] (multi_KeyHashes acc)).

Lemma multi_Clone_id acc : multi_Clone acc = acc.
Proof.
  destruct acc as [a n r l]. unfold multi_Clone. simpl. f_equal.
  assert (G : ∀ acc l, foldl (λ (l : list PublicHash) x, l ++ [x]) acc l = acc ++ l).
  { intros acc' l'. revert acc'. induction l' as [|x l' IH]; intros acc'; simpl; [by rewrite app_nil_r|].
    by rewrite IH, <- app_assoc. }
  apply G.
Qed.

(** The accounts of a chain include those of the vault. *)
Class VaultAccounts (A : Type) `{AccountI A} := {
  of_single : SingleAccount → A;
  of_multi : MultiAccount → A;
  of_single_Address : ∀ s, acc_Address (of_single s) = single_Address s;
  of_single_Name : ∀ s, acc_Name (of_single s) = single_Name s;
  of_single_Validate : ∀ s l, acc_Validate (of_single s) l = single_Validate s l;
  of_multi_Address : ∀ s, acc_Address (of_multi s) = multi_Address s;
  of_multi_Name : ∀ s, acc_Name (of_multi s) = multi_Name s;
  of_multi_Validate : ∀ s l, acc_Validate (of_multi s) l = multi_Validate s l;
}.

(** A chain with the accounts of the vault only. *)
Inductive account := ASingle (s : SingleAccount) | AMulti (m : MultiAccount).

#[export] Instance account_I : AccountI account.
Proof.
  refine {| acc_Address a := match a with ASingle s => single_Address s | AMulti m => multi_Address m end;
            acc_Name a := match a with ASingle s => single_Name s | AMulti m => multi_Name m end;
            acc_Validate a := match a with ASingle s => single_Validate s | AMulti m => multi_Validate m end;
            acc_Clone a := match a with ASingle s => ASingle (single_Clone s)
                                      | AMulti m => AMulti (multi_Clone m) end |}.
  intros [[]|m]; [done|]. by rewrite multi_Clone_id.
Defined.

#[export] Instance account_vault : VaultAccounts account.
Proof. by refine {| of_single := ASingle; of_multi := AMulti |}. Defined.

(** ** Keys *)

Definition tagBalance : bytes := [1; 1].
Definition tagLockedBalance : bytes := [2; 1].
Definition tagLockedBalanceNumber : bytes := [2; 2].
Definition tagLockedBalanceReverse : bytes := [2; 3].
Definition tagLockedBalanceCount : bytes := [2; 4].
Definition tagLockedBalanceSum : bytes := [2; 5].
Definition tagCollectedFee : bytes := [3; 1].
Definition tagPolicy : bytes := [4; 0].
Definition tagDefaultFee : bytes := [4; 1].

Definition toLockedBalanceKey (height : Z) (addr : Address) : bytes :=
  tagLockedBalance ++ BigEndian_Uint32ToBytes height ++ addr.
Definition toLockedBalanceNumberKey (height : Z) (addr : Address) : bytes :=
  tagLockedBalanceNumber ++ BigEndian_Uint32ToBytes height ++ addr.
Definition toLockedBalanceReverseKey (height num : Z) : bytes :=
  tagLockedBalanceReverse ++ BigEndian_Uint32ToBytes height ++ BigEndian_Uint32ToBytes num.
Definition toLockedBalanceCountKey (height : Z) : bytes :=
  tagLockedBalanceCount ++ BigEndian_Uint32ToBytes height.

(** ** Policy

    [encoding.Marshal] and [encoding.Unmarshal] (msgpack) are parameters; a
    policy is passed by pointer, which can be [nil]. *)
Record Policy := mkPolicy { AccountCreationAmount : Z }.

Class PolicyCodec := {
  marshal_policy : option Policy → res bytes;
  unmarshal_policy : bytes → res (option Policy);
}.

Definition vault_Name : bytes := str "fleta.vault".

(** The stored form of an amount: absent is zero. *)
Definition amount_of (bs : bytes) : Z :=
  if nonempty bs then Amount.NewAmountFromBytes bs else Amount.NewCoinAmount 0 0.

Section Vault.
Context {A E : Type} `{AI : AccountI A} `{EI : EventI E} `{B58 : Base58}.
Context `{VA : !VaultAccounts A} `{PC : PolicyCodec}.
(** The process identifiers of the vault and of the admin process, and the
    magic number of the chain. *)
Context (pid admin_pid magic : Z).

Abbreviation ctxM := (M (Ctx A E)).

Definition AdminAddress (name : bytes) : ctxM Address :=
  bs ← ProcessData admin_pid (toAdminAddressKey name);
  if (length bs =? 0)%nat then panic else mret (copy emptyAddr bs).

(** [InitAdmin]: the entries of the Go map in any order. *)
Definition InitAdmin (addrMap : list (bytes * Address)) : ctxM unit :=
  for_each (λ e, SetProcessData admin_pid (toAdminAddressKey e.1) e.2) addrMap.

(** *** vault_method.go *)

Definition Balance (addr : Address) : ctxM Z :=
  bs ← AccountData addr pid tagBalance;
  mret (amount_of bs).

Definition AddBalance (addr : Address) (am : Z) : ctxM unit :=
  guard_err (Amount.Less am (Amount.NewCoinAmount 0 0)) ErrMinusInput ;;
  b ← Balance addr;
  SetAccountData addr pid tagBalance (Amount.Bytes (Amount.Add b am)).

Definition RemoveBalance (addr : Address) : ctxM unit := SetAccountData addr pid tagBalance [].

Definition SubBalance (addr : Address) (am : Z) : ctxM unit :=
  sum ← Balance addr;
  guard_err (Amount.Less sum am) ErrMinusBalance ;;
  let sum := Amount.Sub sum am in
  if Amount.IsZero sum then RemoveBalance addr
  else SetAccountData addr pid tagBalance (Amount.Bytes sum).

Definition LockedBalance (addr : Address) (UnlockedHeight : Z) : ctxM Z :=
  bs ← ProcessData pid (toLockedBalanceKey UnlockedHeight addr);
  mret (amount_of bs).

Definition TotalLockedBalanceByAddress (addr : Address) : ctxM Z :=
  bs ← AccountData addr pid tagLockedBalanceSum;
  mret (amount_of bs).

Definition AddLockedBalance (addr : Address) (UnlockedHeight am : Z) : ctxM unit :=
  guard_err (Amount.Less am (Amount.NewCoinAmount 0 0)) ErrMinusInput ;;
  ns ← ProcessData pid (toLockedBalanceNumberKey UnlockedHeight addr);
  (if (length ns =? 0)%nat then
     bs ← ProcessData pid (toLockedBalanceCountKey UnlockedHeight);
     Count ← lift (if nonempty bs then LittleEndian_Uint32 bs else Ok 0);
     SetProcessData pid (toLockedBalanceNumberKey UnlockedHeight addr) (LittleEndian_Uint32ToBytes Count) ;;
     SetProcessData pid (toLockedBalanceReverseKey UnlockedHeight Count) addr ;;
     let Count := u32 (Count + 1) in
     SetProcessData pid (toLockedBalanceCountKey UnlockedHeight) (LittleEndian_Uint32ToBytes Count)
   else mret tt) ;;
  lb ← LockedBalance addr UnlockedHeight;
  SetProcessData pid (toLockedBalanceKey UnlockedHeight addr) (Amount.Bytes (Amount.Add lb am)) ;;
  sum ← TotalLockedBalanceByAddress addr;
  SetAccountData addr pid tagLockedBalanceSum (Amount.Bytes (Amount.Add sum am)).

(** One turn of the loop of [flushLockedBalanceMap]. *)
Definition flush_step (UnlockedHeight : Z) (LockedBalanceMap : gmap Address Z) (i : nat)
    : ctxM (gmap Address Z) :=
  bs ← ProcessData pid (toLockedBalanceReverseKey UnlockedHeight (Z.of_nat i));
  let addr := copy emptyAddr bs in
  lb ← LockedBalance addr UnlockedHeight;
  SetProcessData pid (toLockedBalanceKey UnlockedHeight addr) [] ;;
  SetProcessData pid (toLockedBalanceNumberKey UnlockedHeight addr) [] ;;
  SetProcessData pid (toLockedBalanceReverseKey UnlockedHeight (Z.of_nat i)) [] ;;
  mret (<[addr := lb]> LockedBalanceMap).

Definition flushLockedBalanceMap (UnlockedHeight : Z) : ctxM (gmap Address Z) :=
  bs ← ProcessData pid (toLockedBalanceCountKey UnlockedHeight);
  if nonempty bs then
    Count ← lift (LittleEndian_Uint32 bs);
    m ← fold_m (flush_step UnlockedHeight) ∅ (seq 0 (Z.to_nat Count));
    SetProcessData pid (toLockedBalanceCountKey UnlockedHeight) [] ;;
    mret m
  else mret ∅.

Definition CollectedFee : ctxM Z :=
  bs ← ProcessData pid tagCollectedFee;
  mret (amount_of bs).

Definition AddCollectedFee (am : Z) : ctxM unit :=
  guard_err (Amount.Less am (Amount.NewCoinAmount 0 0)) ErrMinusInput ;;
  f ← CollectedFee;
  SetProcessData pid tagCollectedFee (Amount.Bytes (Amount.Add f am)).

Definition SubCollectedFee (am : Z) : ctxM unit :=
  total ← CollectedFee;
  guard_err (Amount.Less total am) ErrMinusCollectedFee ;;
  let total := Amount.Sub total am in
  if Amount.IsZero total then SetProcessData pid tagCollectedFee []
  else SetProcessData pid tagCollectedFee (Amount.Bytes total).

Definition GetDefaultFee : ctxM Z :=
  bs ← ProcessData pid tagDefaultFee;
  if (length bs =? 0)%nat then lift (Amount.DivC Amount.COIN 10)
  else mret (Amount.NewAmountFromBytes bs).

(** [CheckFeePayableWith]; [am] is [None] for Go's [nil]. *)
Definition CheckFeePayableWith (from : Address) (Fee : ctxM Z) (am : option Z) : ctxM unit :=
  has ← HasAccount from;
  guard_err (negb has) ErrNotExistAccount ;;
  fee ← Fee;
  let am := match am with Some am => Amount.Add am fee | None => fee end in
  b ← Balance from;
  guard_err (Amount.Less b am) ErrInsufficientFee.

Definition CheckFeePayable (from : Address) (Fee : ctxM Z) : ctxM unit :=
  CheckFeePayableWith from Fee None.

Definition WithFee (from : Address) (Fee : ctxM Z) (fn : ctxM unit) : ctxM unit :=
  fee ← Fee;
  SubBalance from fee ;;
  f ← CollectedFee;
  SetProcessData pid tagCollectedFee (Amount.Bytes (Amount.Add f fee)) ;;
  sn ← Snapshot;
  r ← try fn;
  match r with
  | inr err => Revert sn ;; fail err
  | inl _ => Commit sn
  end.

(** *** vault.go *)

Definition InitPolicy (policy : option Policy) : ctxM unit :=
  bs ← lift (marshal_policy policy);
  SetProcessData pid tagPolicy bs.

Definition SetDefaultFee (defaultFee : Z) : ctxM unit :=
  SetProcessData pid tagDefaultFee (Amount.Bytes defaultFee).

Definition OnLoadChain : ctxM unit :=
  AdminAddress vault_Name ;;
  bs ← ProcessData pid tagPolicy;
  guard_err (length bs =? 0)%nat ErrPolicyShouldBeSetupInApplication.

(** The body of the loop of [AfterExecuteTransactions]. *)
Definition settle (e : Address * Z) : ctxM unit :=
  let '(addr, am) := e in
  r ← try (HasAccount addr);
  match r with
  | inr err =>
      if bool_decide (err = ErrDeletedAccount)
      then SetAccountData addr pid tagLockedBalanceSum []
      else fail err
  | inl false => SetAccountData addr pid tagLockedBalanceSum []
  | inl true =>
      AddBalance addr am ;;
      t ← TotalLockedBalanceByAddress addr;
      let sum := Amount.Sub t am in
      if negb (Amount.IsZero sum)
      then SetAccountData addr pid tagLockedBalanceSum (Amount.Bytes sum)
      else SetAccountData addr pid tagLockedBalanceSum []
  end.

(** [AfterExecuteTransactions]: Go iterates the map in an order of its own
    choice, [range]. *)
Definition AfterExecuteTransactions (range : gmap Address Z → list (Address * Z)) (height : Z)
    : ctxM unit :=
  LockedBalanceMap ← flushLockedBalanceMap height;
  for_each settle (range LockedBalanceMap).

(** *** Transactions *)

Inductive vault_tx :=
  | Transfer (Timestamp : Z) (From To : Address) (Amount : Z)
  | Burn (Timestamp : Z) (From : Address) (Amount : Z)
  | TransferWithTag (Timestamp : Z) (From To : Address) (Amount : Z) (Tag : bytes)
  | TxCreateAccount (Timestamp : Z) (From : Address) (Name : bytes) (KeyHash : PublicHash)
  | CreateMultiAccount (Timestamp : Z) (From : Address) (Name : bytes) (Requried : Z)
      (KeyHashes : list PublicHash)
  | IssueAccount (Timestamp : Z) (From : Address) (Name : bytes) (KeyHash : PublicHash)
  | UpdatePolicy (Timestamp : Z) (From : Address) (policy : option Policy)
  | UpdateDefaultFee (Timestamp : Z) (From : Address) (DefaultFee : option Z).

Definition tx_Timestamp (tx : vault_tx) : Z :=
  match tx with
  | Transfer t _ _ _ | Burn t _ _ | TransferWithTag t _ _ _ _ | TxCreateAccount t _ _ _
  | CreateMultiAccount t _ _ _ _ | IssueAccount t _ _ _ | UpdatePolicy t _ _
  | UpdateDefaultFee t _ _ => t
  end.

Definition tx_From (tx : vault_tx) : Address :=
  match tx with
  | Transfer _ f _ _ | Burn _ f _ | TransferWithTag _ f _ _ _ | TxCreateAccount _ f _ _
  | CreateMultiAccount _ f _ _ _ | IssueAccount _ f _ _ | UpdatePolicy _ f _
  | UpdateDefaultFee _ f _ => f
  end.

(** [fromAcc, err := loader.Account(tx.From()); fromAcc.Validate(loader, signers)]. *)
Definition validate_signers (from : Address) (signers : list PublicHash) : ctxM unit :=
  fromAcc ← Account from;
  lift (acc_Validate fromAcc signers).

Definition must_exist (to : Address) : ctxM unit :=
  has ← HasAccount to;
  guard_err (negb has) ErrNotExistAccount.

Definition name_is_new (name : bytes) : ctxM unit :=
  has ← HasAccountName name;
  guard_err has ErrExistAccountName.

Definition only_admin (from : Address) : ctxM unit :=
  adm ← AdminAddress vault_Name;
  guard_err (negb (bool_decide (from = adm))) ErrUnauthorizedTransaction.

(** The policy, read and dereferenced. *)
Definition read_policy : ctxM Policy :=
  bs ← ProcessData pid tagPolicy;
  policy ← lift (unmarshal_policy bs);
  match policy with Some policy => mret policy | None => panic end.

Definition CreationCost : Z := Amount.MulC Amount.COIN 10.

Definition Transfer_Validate (from to : Address) (am : Z) (signers : list PublicHash) : ctxM unit :=
  dust ← lift (Amount.DivC Amount.COIN 10);
  guard_err (Amount.Less am dust) ErrDustAmount ;;
  must_exist to ;;
  validate_signers from signers ;;
  CheckFeePayableWith from GetDefaultFee (Some am).

Definition Burn_Validate (from : Address) (am : Z) (signers : list PublicHash) : ctxM unit :=
  validate_signers from signers ;;
  CheckFeePayableWith from GetDefaultFee (Some am).

Definition TransferWithTag_Validate (from to : Address) (am : Z) (tag : bytes) (signers : list PublicHash)
    : ctxM unit :=
  guard_err (32 <? length tag)%nat ErrInvalidTagSize ;;
  dust ← lift (Amount.DivC Amount.COIN 10);
  guard_err (Amount.Less am dust) ErrDustAmount ;;
  must_exist to ;;
  validate_signers from signers ;;
  CheckFeePayableWith from GetDefaultFee (Some am).

Definition CreateAccount_Validate (from : Address) (name : bytes) (signers : list PublicHash) : ctxM unit :=
  guard_err (negb (IsAllowedAccountName name)) ErrInvalidAccountName ;;
  name_is_new name ;;
  validate_signers from signers ;;
  policy ← read_policy;
  CheckFeePayableWith from GetDefaultFee (Some (AccountCreationAmount policy)).

Definition CreateMultiAccount_Validate (from : Address) (name : bytes) (requried : Z) (keys : list PublicHash)
    (signers : list PublicHash) : ctxM unit :=
  guard_err (negb (IsAllowedAccountName name)) ErrInvalidAccountName ;;
  guard_err (requried <? 1) ErrInvalidRequiredKeyHashCount ;;
  guard_err ((length keys <=? 1) || (10 <? length keys))%nat ErrInvalidMultiKeyHashCount ;;
  guard_err (negb (size (list_to_set keys : gset PublicHash) =? length keys)%nat)
    ErrInvalidMultiKeyHashCount ;;
  validate_signers from signers ;;
  CheckFeePayableWith from GetDefaultFee (Some CreationCost).

Definition IssueAccount_Validate (from : Address) (name : bytes) (signers : list PublicHash) : ctxM unit :=
  only_admin from ;;
  name_is_new name ;;
  validate_signers from signers.

Definition UpdatePolicy_Validate (from : Address) (policy : option Policy) (signers : list PublicHash)
    : ctxM unit :=
  only_admin from ;;
  guard_err (bool_decide (policy = None)) ErrInvalidPolicy ;;
  validate_signers from signers.

Definition UpdateDefaultFee_Validate (from : Address) (fee : option Z) (signers : list PublicHash) : ctxM unit :=
  fee ← match fee with Some f => mret f | None => fail ErrInvalidDefaultFee end;
  min ← lift (Amount.DivC Amount.COIN 100000000);
  guard_err (Amount.Less fee min) ErrInvalidDefaultFee ;;
  only_admin from ;;
  validate_signers from signers.

(** The method [Validate] of a transaction. *)
Definition vault_Validate (tx : vault_tx) (signers : list PublicHash) : ctxM unit :=
  match tx with
  | Transfer _ from to am => Transfer_Validate from to am signers
  | Burn _ from am => Burn_Validate from am signers
  | TransferWithTag _ from to am tag => TransferWithTag_Validate from to am tag signers
  | TxCreateAccount _ from name _ => CreateAccount_Validate from name signers
  | CreateMultiAccount _ from name requried keys => CreateMultiAccount_Validate from name requried keys signers
  | IssueAccount _ from name _ => IssueAccount_Validate from name signers
  | UpdatePolicy _ from policy => UpdatePolicy_Validate from policy signers
  | UpdateDefaultFee _ from fee => UpdateDefaultFee_Validate from fee signers
  end.

Definition transfer_fn (from to : Address) (am : Z) : ctxM unit :=
  SubBalance from am ;;
  AddBalance to am.

Definition pay_and_create (from : Address) (cost : Z) (mk : Address → A) (index : Z) : ctxM unit :=
  SubBalance from cost ;;
  AddCollectedFee cost ;;
  h ← TargetHeight;
  CreateAccount (mk (NewAddress h index magic)).

Definition Transfer_Execute (from to : Address) (am : Z) : ctxM unit :=
  WithFee from GetDefaultFee (transfer_fn from to am).

Definition Burn_Execute (from : Address) (am : Z) : ctxM unit :=
  WithFee from GetDefaultFee (SubBalance from am).

Definition TransferWithTag_Execute (from to : Address) (am : Z) : ctxM unit :=
  WithFee from GetDefaultFee (transfer_fn from to am).

Definition CreateAccount_Execute (from : Address) (name : bytes) (key : PublicHash) (index : Z) : ctxM unit :=
  WithFee from GetDefaultFee
    (policy ← read_policy;
     pay_and_create from (AccountCreationAmount policy)
       (λ addr, of_single (mkSingle addr name key)) index).

Definition CreateMultiAccount_Execute (from : Address) (name : bytes) (requried : Z) (keys : list PublicHash)
    (index : Z) : ctxM unit :=
  WithFee from GetDefaultFee
    (pay_and_create from CreationCost
       (λ addr, of_multi (mkMulti addr name requried keys)) index).

Definition IssueAccount_Execute (name : bytes) (key : PublicHash) (index : Z) : ctxM unit :=
  h ← TargetHeight;
  CreateAccount (of_single (mkSingle (NewAddress h index magic) name key)).

Definition UpdatePolicy_Execute (policy : option Policy) : ctxM unit :=
  bs ← lift (marshal_policy policy);
  SetProcessData pid tagPolicy bs.

Definition UpdateDefaultFee_Execute (fee : option Z) : ctxM unit :=
  fee ← match fee with Some f => mret f | None => panic end;
  SetProcessData pid tagDefaultFee (Amount.Bytes fee).

(** The method [Execute] of a transaction. *)
Definition vault_Execute (tx : vault_tx) (index : Z) : ctxM unit :=
  match tx with
  | Transfer _ from to am => Transfer_Execute from to am
  | Burn _ from am => Burn_Execute from am
  | TransferWithTag _ from to am _ => TransferWithTag_Execute from to am
  | TxCreateAccount _ from name key => CreateAccount_Execute from name key index
  | CreateMultiAccount _ from name requried keys => CreateMultiAccount_Execute from name requried keys index
  | IssueAccount _ _ name key => IssueAccount_Execute name key index
  | UpdatePolicy _ _ policy => UpdatePolicy_Execute policy
  | UpdateDefaultFee _ _ fee => UpdateDefaultFee_Execute fee
  end.

(** *** The wire form of [Transfer]: the arguments of the encoder calls *)

Record transfer_wire := mkWire {
  wire_Timestamp : Z; wire_From : bytes; wire_To : bytes; wire_Amount : bytes }.

Definition Transfer_encode (ts : Z) (from to : Address) (am : Z) : transfer_wire :=
  mkWire ts (take 6 from) (take 6 to) (Amount.Bytes am).

Definition Transfer_decode (w : transfer_wire) : vault_tx :=
  Transfer (wire_Timestamp w) (copy emptyAddr (wire_From w)) (copy emptyAddr (wire_To w))
    (Amount.NewAmountFromBytes (wire_Amount w)).

End Vault.
