(* ===== verification/VaultSpec.v ===== *)
(** * process/vault: what the balances promise

    The specification of the vault is a ledger: a balance for every address
    and the collected fees, read off the abstract state of a context.  The
    theorems say what each operation and each transaction does to the ledger
    on every branch, and that nothing else changes. *)

From S2P Require Import Prelude Amount Common Context ContextSpec ContextTrace Vault.

Lemma amount_of_Bytes am : 0 ≤ am → amount_of (Amount.Bytes am) = am.
Proof.
  intros H. unfold amount_of. destruct (nonempty (Amount.Bytes am)) eqn:E0.
  - rewrite Amount.NewAmountFromBytes_Bytes. lia.
  - assert (Amount.Bytes am = []) as ->%Amount.Bytes_nil.
    { unfold nonempty in E0. apply Nat.ltb_ge in E0. by destruct (Amount.Bytes am); simpl in *; [|lia]. }
    reflexivity.
Qed.

Lemma nonempty_Bytes am : nonempty (Amount.Bytes am) = negb (am =? 0).
Proof.
  unfold nonempty. destruct (Z.eqb_spec am 0) as [->|Hne]; [done|].
  destruct (Amount.Bytes am) as [|b bs] eqn:E0; [|done]. by apply Amount.Bytes_nil in E0.
Qed.

Lemma elem_of_if_value x z k : x ∈ if_value (Amount.Bytes z) k ↔ x = k ∧ z ≠ 0.
Proof.
  unfold if_value. rewrite nonempty_Bytes. destruct (Z.eqb_spec z 0); simpl.
  - rewrite elem_of_nil. naive_solver.
  - rewrite list_elem_of_singleton. naive_solver.
Qed.

Lemma elem_of_if_empty x z k : x ∈ if_empty (Amount.Bytes z) k ↔ x = k ∧ z = 0.
Proof.
  unfold if_empty. rewrite nonempty_Bytes. destruct (Z.eqb_spec z 0); simpl.
  - rewrite list_elem_of_singleton. naive_solver.
  - rewrite elem_of_nil. naive_solver.
Qed.

(** The bytes of an answer. *)
Definition data (r : res bytes) : bytes := match r with Ok v => v | _ => [] end.

(** A tenth of a coin. *)
Definition tenth : Z := 10 ^ 17.

Section VaultSpec.
Context {A E : Type} `{AI : AccountI A} `{EI : EventI E} `{B58 : Base58}.
Context `{VA : !VaultAccounts A} `{PC : PolicyCodec}.
Context (pid admin_pid magic : Z) (Hpid : valid_pid pid).
Implicit Types (c : Ctx A E) (s : Abs (A:=A)).

(** ** The ledger of an abstract state *)

Definition bal s (a : Address) : Z := amount_of (data (abs_AccountData s a pid tagBalance)).
Definition fees s : Z := amount_of (data (abs_ProcessData s pid tagCollectedFee)).
Definition dfee s : Z :=
  let bs := data (abs_ProcessData s pid tagDefaultFee) in
  if nonempty bs then Amount.NewAmountFromBytes bs else tenth.

Definition set_bal (a : Address) (x : Z) s : Abs :=
  abs_set_account_data a pid tagBalance (Amount.Bytes x) s.
Definition set_fees (x : Z) s : Abs := abs_set_process_data pid tagCollectedFee (Amount.Bytes x) s.

Lemma bal_set_bal a x s b : 0 ≤ x → bal (set_bal a x s) b = if decide (b = a) then x else bal s b.
Proof.
  intros Hx. unfold bal, set_bal. simpl. destruct (decide (b = a)) as [->|Hne].
  - rewrite decide_True by done. by apply amount_of_Bytes.
  - by rewrite decide_False by naive_solver.
Qed.
Lemma fees_set_bal a x s : fees (set_bal a x s) = fees s.
Proof. done. Qed.
Lemma dfee_set_bal a x s : dfee (set_bal a x s) = dfee s.
Proof. done. Qed.
Lemma bal_set_fees x s a : bal (set_fees x s) a = bal s a.
Proof. done. Qed.
Lemma fees_set_fees x s : 0 ≤ x → fees (set_fees x s) = x.
Proof. intros Hx. unfold fees, set_fees. simpl. rewrite decide_True by done. by apply amount_of_Bytes. Qed.
Lemma dfee_set_fees x s : dfee (set_fees x s) = dfee s.
Proof. unfold dfee, set_fees. simpl. by rewrite decide_False by (intros [_ [=]]). Qed.

Lemma bal_proper s1 s2 a : valid_addr a → noslot s1 ≡ noslot s2 → bal s1 a = bal s2 a.
Proof using Hpid. intros Ha []. unfold bal. simpl in *. by rewrite eq_AccountData. Qed.
Lemma fees_proper s1 s2 : noslot s1 ≡ noslot s2 → fees s1 = fees s2.
Proof using Hpid. intros []. unfold fees. simpl in *. by rewrite eq_ProcessData. Qed.
Lemma dfee_proper s1 s2 : noslot s1 ≡ noslot s2 → dfee s1 = dfee s2.
Proof using Hpid. intros []. unfold dfee. simpl in *. by rewrite eq_ProcessData. Qed.

Lemma set_bal_noslot a x s : noslot (set_bal a x s) = set_bal a x (noslot s).
Proof. done. Qed.
Lemma set_fees_noslot x s : noslot (set_fees x s) = set_fees x (noslot s).
Proof. done. Qed.

#[local] Instance set_bal_proper a x : Proper ((≡) ==> (≡)) (set_bal a x).
Proof. unfold set_bal. apply _. Qed.
#[local] Instance set_fees_proper x : Proper ((≡) ==> (≡)) (set_fees x).
Proof. unfold set_fees. apply _. Qed.

Definition bkey (a : Address) : lkey := LData (accountDataKey a pid tagBalance).
Definition fkey : lkey := LProcess (processDataKey pid tagCollectedFee).

(** A marked balance is zero. *)
Lemma marked_bal c a : marked (bkey a) c → bal (abs c) a = 0.
Proof.
  unfold marked, bal. simpl. unfold view_AccountData, view.
  destruct (stack c) as [|d st]; [done|]. simpl. unfold presence, hit_AccountData at 1, ov_hit.
  destruct (ov_del (AccountDataOv d) !! _); [done|]. by destruct (ov_map _ !! _).
Qed.

(** ** The operations *)

(** Runs of a computation: the answer, the abstract effect and the trace. *)
Definition run {V} (m : M (Ctx A E) V) c (r : res V) (F : Abs → Abs) (W Mk : list lkey) : Prop :=
  ∃ c', m c = (r, c') ∧ abs c' ≡ F (abs c) ∧ trace W Mk c c'.

Lemma run_wf {V} (m : M (Ctx A E) V) c r F W Mk c' :
  m c = (r, c') → run m c r F W Mk → wf c'.
Proof. intros Hm (c1 & H & _ & Ht). rewrite Hm in H. simplify_eq. apply Ht. Qed.

(** Sequencing. *)
Lemma run_bind {V X} (m : M (Ctx A E) V) (f : V → M (Ctx A E) X) c v r F G W Mk W' Mk'
    `{!Proper ((≡) ==> (≡)) G} :
  run m c (Ok v) F W Mk →
  (∀ c', wf c' → abs c' ≡ F (abs c) → run (f v) c' r G W' Mk') →
  run (m ≫= f) c r (λ s, G (F s)) (W ++ W') (Mk ++ Mk').
Proof.
  intros (c1 & Hm & He & Ht) Hf.
  destruct (Hf c1 (ts_wf _ _ (tr_step _ _ _ _ Ht)) He) as (c2 & H2 & He2 & Ht2).
  exists c2. split; [|split].
  - unfold mbind, M_bind. by rewrite Hm.
  - by rewrite He2, He.
  - by eapply trace_trans.
Qed.

Lemma run_fail {V X} (m : M (Ctx A E) V) (f : V → M (Ctx A E) X) c e F W Mk :
  run m c (Err e) F W Mk → run (m ≫= f) c (Err e) F W Mk.
Proof. intros (c1 & Hm & He & Ht). exists c1. split; [|done]. unfold mbind, M_bind. by rewrite Hm. Qed.

Lemma run_ret {V} c (v : V) : wf c → run (mret v) c (Ok v) id [] [].
Proof. intros Hwf. exists c. split; [done|]. split; [done|]. by apply trace_refl. Qed.

Lemma run_AccountData a n c :
  valid_addr a → wf c → run (AccountData a pid n) c (view_AccountData c a pid n) id [] [].
Proof using Hpid.
  intros Ha Hwf. destruct (trace_AccountData c a pid n Ha Hpid Hwf) as (c' & Hr & He & Ht).
  exists c'. split; [done|]. split; [apply He|done].
Qed.

Lemma run_ProcessData n c : wf c → run (ProcessData pid n) c (view_ProcessData c pid n) id [] [].
Proof using Hpid.
  intros Hwf. destruct (trace_ProcessData c pid n Hpid Hwf) as (c' & Hr & He & Ht).
  exists c'. split; [done|]. split; [apply He|done].
Qed.

(** A read followed by a pure computation. *)
Lemma run_map {V X} (m : M (Ctx A E) V) (g : V → X) c r F W Mk :
  run m c (Ok r) F W Mk → run (x ← m; mret (g x)) c (Ok (g r)) F W Mk.
Proof. intros (c1 & Hm & He & Ht). exists c1. split; [|done]. unfold mbind, M_bind. by rewrite Hm. Qed.

Lemma run_Balance a c : valid_addr a → wf c → run (Balance pid a) c (Ok (bal (abs c) a)) id [] [].
Proof using Hpid.
  intros Ha Hwf. unfold Balance, bal. simpl.
  destruct (view_AccountData_Ok c a pid tagBalance) as [v Hv]. rewrite Hv.
  apply (run_map _ amount_of c v). rewrite <- Hv. by apply run_AccountData.
Qed.

Lemma run_CollectedFee c : wf c → run (CollectedFee pid) c (Ok (fees (abs c))) id [] [].
Proof using Hpid.
  intros Hwf. unfold CollectedFee, fees. simpl.
  destruct (view_ProcessData_Ok c pid tagCollectedFee) as [v Hv]. rewrite Hv.
  apply (run_map _ amount_of c v). rewrite <- Hv. by apply run_ProcessData.
Qed.

Lemma run_GetDefaultFee c : wf c → run (GetDefaultFee pid) c (Ok (dfee (abs c))) id [] [].
Proof using Hpid.
  intros Hwf. unfold GetDefaultFee, dfee. simpl.
  destruct (view_ProcessData_Ok c pid tagDefaultFee) as [v Hv]. rewrite Hv. simpl data.
  destruct (run_ProcessData tagDefaultFee c Hwf) as (c' & Hr & He & Ht). rewrite Hv in Hr.
  exists c'. split; [|done]. unfold mbind, M_bind. rewrite Hr. unfold nonempty.
  by destruct v.
Qed.

Lemma run_set_bal a x c :
  valid_addr a → wf c →
  run (SetAccountData a pid tagBalance (Amount.Bytes x)) c (Ok tt) (set_bal a x)
    (if_value (Amount.Bytes x) (bkey a)) (if_empty (Amount.Bytes x) (bkey a)).
Proof using Hpid.
  intros Ha Hwf. destruct (trace_SetAccountData c a pid tagBalance (Amount.Bytes x) Ha Hpid Hwf)
    as (c' & Hr & He & Ht). by exists c'.
Qed.

Lemma run_set_fees x c :
  wf c →
  run (SetProcessData pid tagCollectedFee (Amount.Bytes x)) c (Ok tt) (set_fees x)
    (if_value (Amount.Bytes x) fkey) (if_empty (Amount.Bytes x) fkey).
Proof using Hpid.
  intros Hwf. destruct (trace_SetProcessData c pid tagCollectedFee (Amount.Bytes x) Hpid Hwf)
    as (c' & Hr & He & Ht). by exists c'.
Qed.

Lemma run_equiv {V} (m : M (Ctx A E) V) c r F G W Mk :
  run m c r F W Mk → F (abs c) ≡ G (abs c) → run m c r G W Mk.
Proof. intros (c' & Hr & He & Ht) HG. exists c'. split; [done|]. split; [by rewrite He|done]. Qed.

(** *** AddBalance *)

Lemma run_AddBalance a am c :
  valid_addr a → wf c → 0 ≤ am →
  run (AddBalance pid a am) c (Ok tt) (set_bal a (bal (abs c) a + am))
    (if_value (Amount.Bytes (bal (abs c) a + am)) (bkey a))
    (if_empty (Amount.Bytes (bal (abs c) a + am)) (bkey a)).
Proof using Hpid.
  intros Ha Hwf Ham. unfold AddBalance.
  assert (Hl : Amount.Less am (Amount.NewCoinAmount 0 0) = false).
  { unfold Amount.Less. change (Amount.NewCoinAmount 0 0) with 0. apply Z.ltb_ge. lia. }
  rewrite Hl. change (guard_err false ErrMinusInput ≫= ?f) with (mret (M:=M (Ctx A E)) tt ≫= f).
  refine (run_bind (mret tt) _ c tt _ id _ [] [] _ _ (run_ret c tt Hwf) _).
  intros c1 Hwf1 He1.
  refine (run_bind (Balance pid a) _ c1 _ _ id _ [] [] _ _ (run_Balance a c1 Ha Hwf1) _).
  intros c2 Hwf2 He2.
  assert (Hb : bal (abs c1) a = bal (abs c) a) by (apply bal_proper; [done|by rewrite He1]).
  rewrite Hb. unfold Amount.Add. by apply run_set_bal.
Qed.

Lemma run_AddBalance_minus a am c :
  wf c → am < 0 → run (AddBalance pid a am) c (Err ErrMinusInput) id [] [].
Proof.
  intros Hwf Ham. exists c. split; [|split; [done|by apply trace_refl]].
  unfold AddBalance. assert (Amount.Less am (Amount.NewCoinAmount 0 0) = true) as ->; [|done].
  unfold Amount.Less. change (Amount.NewCoinAmount 0 0) with 0. by apply Z.ltb_lt.
Qed.

(** *** SubBalance *)

Lemma run_SubBalance a am c :
  valid_addr a → wf c → am ≤ bal (abs c) a →
  run (SubBalance pid a am) c (Ok tt) (set_bal a (bal (abs c) a - am))
    (if_value (Amount.Bytes (bal (abs c) a - am)) (bkey a))
    (if_empty (Amount.Bytes (bal (abs c) a - am)) (bkey a)).
Proof using Hpid.
  intros Ha Hwf Ham. unfold SubBalance.
  refine (run_bind (Balance pid a) _ c _ _ id _ [] [] _ _ (run_Balance a c Ha Hwf) _).
  intros c1 Hwf1 He1.
  assert (Hl : Amount.Less (bal (abs c) a) am = false) by (unfold Amount.Less; apply Z.ltb_ge; lia).
  rewrite Hl. change (guard_err false ErrMinusBalance ≫= ?f) with (mret (M:=M (Ctx A E)) tt ≫= f).
  refine (run_bind (mret tt) _ c1 tt _ id _ [] [] _ _ (run_ret c1 tt Hwf1) _).
  intros c2 Hwf2 He2. unfold Amount.Sub, Amount.IsZero, RemoveBalance.
  destruct (Z.eqb_spec (bal (abs c) a - am) 0) as [Hz|Hz]; [|by apply run_set_bal].
  rewrite Hz. change [] with (Amount.Bytes 0) at 1. by apply run_set_bal.
Qed.

Lemma run_SubBalance_minus a am c :
  valid_addr a → wf c → bal (abs c) a < am →
  run (SubBalance pid a am) c (Err ErrMinusBalance) id [] [].
Proof using Hpid.
  intros Ha Hwf Ham. unfold SubBalance.
  refine (run_bind (Balance pid a) _ c _ _ id id [] [] [] [] (run_Balance a c Ha Hwf) _).
  intros c1 Hwf1 He1. apply run_fail.
  assert (Hl : Amount.Less (bal (abs c) a) am = true) by (unfold Amount.Less; apply Z.ltb_lt; lia).
  rewrite Hl. exists c1. split; [done|]. split; [done|]. by apply trace_refl.
Qed.

Lemma run_AddCollectedFee am c :
  wf c → 0 ≤ am →
  run (AddCollectedFee pid am) c (Ok tt) (set_fees (fees (abs c) + am))
    (if_value (Amount.Bytes (fees (abs c) + am)) fkey)
    (if_empty (Amount.Bytes (fees (abs c) + am)) fkey).
Proof using Hpid.
  intros Hwf Ham. unfold AddCollectedFee.
  assert (Hl : Amount.Less am (Amount.NewCoinAmount 0 0) = false).
  { unfold Amount.Less. change (Amount.NewCoinAmount 0 0) with 0. apply Z.ltb_ge. lia. }
  rewrite Hl. change (guard_err false ErrMinusInput ≫= ?f) with (mret (M:=M (Ctx A E)) tt ≫= f).
  refine (run_bind (mret tt) _ c tt _ id _ [] [] _ _ (run_ret c tt Hwf) _).
  intros c1 Hwf1 He1.
  refine (run_bind (CollectedFee pid) _ c1 _ _ id _ [] [] _ _ (run_CollectedFee c1 Hwf1) _).
  intros c2 Hwf2 He2.
  assert (Hb : fees (abs c1) = fees (abs c)) by (apply fees_proper; by rewrite He1).
  rewrite Hb. by apply run_set_fees.
Qed.

(** ** WithFee *)

(** The ledger after the fee has been charged. *)
Definition charge (from : Address) (fee : Z) s : Abs :=
  set_fees (fees s + fee) (set_bal from (bal s from - fee) s).

(** The keys that charging can mark. *)
Definition charge_marks (from : Address) (fee : Z) s : list lkey :=
  if_empty (Amount.Bytes (bal s from - fee)) (bkey from)
  ++ if_empty (Amount.Bytes (fees s + fee)) fkey.
Definition charge_writes (from : Address) (fee : Z) s : list lkey :=
  if_value (Amount.Bytes (bal s from - fee)) (bkey from)
  ++ if_value (Amount.Bytes (fees s + fee)) fkey.

(** The part of [WithFee] before the snapshot. *)
Definition charge_fee (from : Address) (k : M (Ctx A E) unit) : M (Ctx A E) unit :=
  fee ← GetDefaultFee pid;
  SubBalance pid from fee ;;
  f ← CollectedFee pid;
  SetProcessData pid tagCollectedFee (Amount.Bytes (Amount.Add f fee)) ;;
  k.

Lemma run_charge from c :
  valid_addr from → wf c → dfee (abs c) ≤ bal (abs c) from →
  run (charge_fee from (mret tt)) c (Ok tt) (charge from (dfee (abs c)))
    (charge_writes from (dfee (abs c)) (abs c)) (charge_marks from (dfee (abs c)) (abs c)).
Proof using Hpid.
  intros Hfr Hwf Hle. unfold charge_fee. set (fee := dfee (abs c)) in *. set (b := bal (abs c) from) in *.
  unfold charge_writes, charge_marks. fold b.
  eapply run_equiv with (F := λ s, set_fees (fees (abs c) + fee) (set_bal from (b - fee) s)); [|done].
  refine (run_bind (GetDefaultFee pid) _ c _ _ id (λ s, set_fees (fees (abs c) + fee) (set_bal from (b - fee) s))
    [] [] _ _ (run_GetDefaultFee c Hwf) _).
  { intros s1 s2 Hs. by rewrite Hs. }
  intros c1 Hwf1 He1. fold fee.
  assert (Hb1 : bal (abs c1) from = b) by (apply bal_proper; [done|by rewrite He1]).
  refine (run_bind (SubBalance pid from fee) _ c1 tt _ (set_bal from (b - fee))
    (set_fees (fees (abs c) + fee)) _ _ _ _ _ _).
  { rewrite <- Hb1. apply run_SubBalance; [done|done|lia]. }
  intros c2 Hwf2 He2.
  rewrite <- (app_nil_l (if_value _ fkey)), <- (app_nil_l (if_empty _ fkey)).
  refine (run_bind (CollectedFee pid) _ c2 _ _ id (set_fees (fees (abs c) + fee)) [] [] _ _
    (run_CollectedFee c2 Hwf2) _).
  intros c3 Hwf3 He3.
  assert (Hf : fees (abs c2) = fees (abs c)).
  { etrans; [apply (fees_proper (abs c2) (set_bal from (b - fee) (abs c1))); by rewrite He2|].
    rewrite fees_set_bal. apply fees_proper. by rewrite He1. }
  rewrite Hf. unfold Amount.Add.
  rewrite <- (app_nil_r (if_value _ fkey)), <- (app_nil_r (if_empty _ fkey)).
  refine (run_bind (SetProcessData pid tagCollectedFee _) _ c3 tt _ (set_fees (fees (abs c) + fee)) id
    _ _ [] [] (run_set_fees _ c3 Hwf3) _).
  intros c4 Hwf4 He4. by apply run_ret.
Qed.

(** The part of [WithFee] from the snapshot on. *)
Definition scope (fn : M (Ctx A E) unit) : M (Ctx A E) unit :=
  sn ← Snapshot;
  r ← try fn;
  match r with
  | inr err => Revert sn ;; fail err
  | inl _ => Commit sn
  end.

Lemma WithFee_split from fn c c1 :
  charge_fee from (mret tt) c = (Ok tt, c1) → WithFee pid from (GetDefaultFee pid) fn c = scope fn c1.
Proof.
  unfold charge_fee, WithFee, mbind, M_bind.
  destruct (GetDefaultFee pid c) as [[fee|e|] c2]; try done.
  destruct (SubBalance pid from fee c2) as [[[]|e|] c3]; try done.
  destruct (CollectedFee pid c3) as [[f|e|] c4]; try done.
  destruct (SetProcessData pid tagCollectedFee _ c4) as [[[]|e|] c5]; try done.
  by intros [= <-].
Qed.

Lemma WithFee_fails from fn c e c1 :
  charge_fee from (mret tt) c = (Err e, c1) → WithFee pid from (GetDefaultFee pid) fn c = (Err e, c1).
Proof.
  unfold charge_fee, WithFee, mbind, M_bind.
  destruct (GetDefaultFee pid c) as [[fee|e'|] c2]; try done.
  destruct (SubBalance pid from fee c2) as [[[]|e'|] c3]; try done.
  destruct (CollectedFee pid c3) as [[f|e'|] c4]; try done.
  destruct (SetProcessData pid tagCollectedFee _ c4) as [[[]|e'|] c5]; by intros [= <- <-].
Qed.

(** Runs up to the time slots, which a snapshot hides. *)
Definition nrun {V} (m : M (Ctx A E) V) c (r : res V) (s : Abs) (W Mk : list lkey) : Prop :=
  ∃ c', m c = (r, c') ∧ noslot (abs c') ≡ noslot s ∧ trace W Mk c c'.

Lemma run_nrun {V} (m : M (Ctx A E) V) c r F s W Mk :
  run m c r F W Mk → noslot (F (abs c)) ≡ noslot s → nrun m c r s W Mk.
Proof. intros (c' & Hr & He & Ht) Hs. exists c'. split; [done|]. split; [by rewrite He|done]. Qed.

Lemma nrun_equiv {V} (m : M (Ctx A E) V) c r s s' W Mk :
  nrun m c r s W Mk → noslot s ≡ noslot s' → nrun m c r s' W Mk.
Proof. intros (c' & Hr & He & Ht) Hs. exists c'. split; [done|]. split; [by rewrite He|done]. Qed.

Lemma nrun_bind {V X} (m : M (Ctx A E) V) (f : V → M (Ctx A E) X) c v r s s' W Mk W' Mk' :
  nrun m c (Ok v) s W Mk →
  (∀ c', wf c' → noslot (abs c') ≡ noslot s → genTargetHeight c' = genTargetHeight c →
     nrun (f v) c' r s' W' Mk') →
  nrun (m ≫= f) c r s' (W ++ W') (Mk ++ Mk').
Proof.
  intros (c1 & Hm & He & Ht) Hf.
  destruct (Hf c1 (ts_wf _ _ (tr_step _ _ _ _ Ht)) He) as (c2 & H2 & He2 & Ht2).
  { apply Ht. }
  exists c2. split; [|split; [done|by eapply trace_trans]].
  unfold mbind, M_bind. by rewrite Hm.
Qed.

Lemma scope_ok fn c s W Mk :
  wf c →
  (∀ c1, wf c1 → noslot (abs c1) ≡ noslot (abs c) → genTargetHeight c1 = genTargetHeight c →
     nrun fn c1 (Ok tt) s W Mk) →
  (∀ x, x ∈ W → ¬ marked x c) →
  nrun (scope fn) c (Ok tt) s W Mk.
Proof.
  intros Hwf Hfn HW. destruct (scope_enter c Hwf) as
    (c1 & Hsn & Hwf1 & _ & Hh & _ & _ & _ & Hv & _).
  destruct (Hfn c1 Hwf1 Hv Hh) as (c2 & Hr & He & Ht).
  destruct (scope_commit W Mk c c1 c2 _ Hwf Hsn Ht HW) as (c3 & Hc & He3 & Ht3).
  exists c3. split; [|split; [by rewrite He3|done]].
  unfold scope, mbind, M_bind, try. by rewrite Hsn, Hr.
Qed.

Lemma scope_err fn c e s W Mk :
  wf c →
  (∀ c1, wf c1 → noslot (abs c1) ≡ noslot (abs c) → genTargetHeight c1 = genTargetHeight c →
     nrun fn c1 (Err e) s W Mk) →
  ∃ c', scope fn c = (Err e, c') ∧ c' ≡ c ∧ trace [] [] c c'.
Proof.
  intros Hwf Hfn. destruct (scope_enter c Hwf) as
    (c1 & Hsn & Hwf1 & _ & Hh & _ & _ & _ & Hv & _).
  destruct (Hfn c1 Hwf1 Hv Hh) as (c2 & Hr & He & Ht).
  destruct (scope_revert W Mk c c1 c2 _ Hwf Hsn Ht) as (c3 & Hc & He3 & Ht3).
  exists c3. split; [|done]. unfold scope, mbind, M_bind, try. rewrite Hsn, Hr. by rewrite Hc.
Qed.

(** The three outcomes of [WithFee]. *)
Lemma WithFee_ok from fn c s W Mk :
  valid_addr from → wf c → dfee (abs c) ≤ bal (abs c) from →
  (∀ c1, wf c1 → noslot (abs c1) ≡ noslot (charge from (dfee (abs c)) (abs c)) →
     genTargetHeight c1 = genTargetHeight c → nrun fn c1 (Ok tt) s W Mk) →
  (∀ c1, abs c1 ≡ charge from (dfee (abs c)) (abs c) →
     trace (charge_writes from (dfee (abs c)) (abs c)) (charge_marks from (dfee (abs c)) (abs c)) c c1 →
     ∀ x, x ∈ W → ¬ marked x c1) →
  ∃ c', WithFee pid from (GetDefaultFee pid) fn c = (Ok tt, c') ∧ wf c' ∧ noslot (abs c') ≡ noslot s.
Proof using Hpid.
  intros Hfr Hwf Hle Hfn HW. destruct (run_charge from c Hfr Hwf Hle) as (c1 & Hr & He & Ht).
  rewrite (WithFee_split _ _ _ _ Hr).
  destruct (scope_ok fn c1 s W Mk) as (c2 & Hr2 & He2 & Ht2).
  - apply Ht.
  - intros c2 Hwf2 Hv2 Hh2. apply Hfn; [done|by rewrite Hv2, He|].
    by rewrite Hh2, (ts_height _ _ (tr_step _ _ _ _ Ht)).
  - by apply HW.
  - exists c2. split_and!; try done. apply Ht2.
Qed.

Lemma WithFee_body_err from fn c e s W Mk :
  valid_addr from → wf c → dfee (abs c) ≤ bal (abs c) from →
  (∀ c1, wf c1 → noslot (abs c1) ≡ noslot (charge from (dfee (abs c)) (abs c)) →
     genTargetHeight c1 = genTargetHeight c → nrun fn c1 (Err e) s W Mk) →
  ∃ c', WithFee pid from (GetDefaultFee pid) fn c = (Err e, c') ∧ wf c' ∧
    noslot (abs c') ≡ noslot (charge from (dfee (abs c)) (abs c)).
Proof using Hpid.
  intros Hfr Hwf Hle Hfn. destruct (run_charge from c Hfr Hwf Hle) as (c1 & Hr & He & Ht).
  rewrite (WithFee_split _ _ _ _ Hr).
  destruct (scope_err fn c1 e s W Mk) as (c2 & Hr2 & He2 & Ht2).
  - apply Ht.
  - intros c2 Hwf2 Hv2 Hh2. apply Hfn; [done|by rewrite Hv2, He|].
    by rewrite Hh2, (ts_height _ _ (tr_step _ _ _ _ Ht)).
  - exists c2. split_and!; try done; [apply Ht2|]. by rewrite He2, He.
Qed.

Lemma WithFee_no_fee from fn c :
  valid_addr from → wf c → bal (abs c) from < dfee (abs c) →
  ∃ c', WithFee pid from (GetDefaultFee pid) fn c = (Err ErrMinusBalance, c') ∧ wf c' ∧
    noslot (abs c') ≡ noslot (abs c).
Proof using Hpid.
  intros Hfr Hwf Hlt.
  assert (H : run (charge_fee from (mret tt)) c (Err ErrMinusBalance) id [] []).
  { unfold charge_fee.
    refine (run_bind (GetDefaultFee pid) _ c _ _ id id [] [] [] [] (run_GetDefaultFee c Hwf) _).
    intros c1 Hwf1 He1. apply run_fail, run_SubBalance_minus; try done.
    by rewrite (bal_proper (abs c1) (abs c)) by (done || by rewrite He1). }
  destruct H as (c1 & Hr & He & Ht). exists c1. rewrite (WithFee_fails _ _ _ _ _ Hr).
  split_and!; [done|apply Ht|by rewrite He].
Qed.

(** ** Transactions *)

(** No stored amount is negative. *)
Record ledger_ok s : Prop := {
  lo_bal : ∀ a, valid_addr a → 0 ≤ bal s a;
  lo_fees : 0 ≤ fees s;
  lo_dfee : 0 ≤ dfee s;
}.

(** Everything outside the balances and the collected fees is the same. *)
Record rest_same s s' : Prop := {
  rs_Account : ∀ a, abs_Account s' a = abs_Account s a;
  rs_HasAccount : ∀ a, abs_HasAccount s' a = abs_HasAccount s a;
  rs_Name : ∀ n, abs_Name s' n = abs_Name s n;
  rs_data : ∀ a p n, valid_addr a → valid_pid p → (p, n) ≠ (pid, tagBalance) →
    abs_AccountData s' a p n = abs_AccountData s a p n;
  rs_process : ∀ p n, valid_pid p → (p, n) ≠ (pid, tagCollectedFee) →
    abs_ProcessData s' p n = abs_ProcessData s p n;
  rs_UTXO : ∀ id, abs_UTXO s' id = abs_UTXO s id;
}.

Lemma rest_same_refl s : rest_same s s.
Proof. by split. Qed.
Lemma rest_same_trans s1 s2 s3 : rest_same s1 s2 → rest_same s2 s3 → rest_same s1 s3.
Proof. intros [] []; split; intros; eapply eq_trans; eauto with nocore. Qed.
Lemma rest_same_set_bal a x s : rest_same s (set_bal a x s).
Proof. split; try done. intros. simpl. rewrite decide_False; [done|naive_solver]. Qed.
Lemma rest_same_set_fees x s : rest_same s (set_fees x s).
Proof. split; try done. intros. simpl. rewrite decide_False; [done|naive_solver]. Qed.
Lemma rest_same_equiv s s1 s2 : rest_same s s1 → noslot s2 ≡ noslot s1 → rest_same s s2.
Proof.
  intros [] [E1 E2 E3 E4 E5 E6 E7 _]. simpl in *.
  split; intros; rewrite ?E1, ?E2, ?E3, ?E5, ?E6, ?E7 by done; auto.
Qed.

Lemma rest_same_charge from fee s : rest_same s (charge from fee s).
Proof. eapply rest_same_trans; [apply rest_same_set_bal|apply rest_same_set_fees]. Qed.

Lemma bal_charge from fee s a :
  0 ≤ fee ≤ bal s from → bal (charge from fee s) a = bal s a - (if decide (a = from) then fee else 0).
Proof.
  intros Hf. unfold charge. rewrite bal_set_fees, bal_set_bal by lia.
  case_decide as Ha; [subst; lia|lia].
Qed.

Lemma fees_charge from fee s : 0 ≤ fees s + fee → fees (charge from fee s) = fees s + fee.
Proof. intros Hf. unfold charge. by rewrite fees_set_fees. Qed.

(** The ledger after moving [am]. *)
Definition move (from to : Address) (am : Z) s : Abs :=
  let s2 := set_bal from (bal s from - am) s in
  set_bal to (bal s2 to + am) s2.

Lemma bal_move from to am s a :
  0 ≤ am ≤ bal s from → 0 ≤ bal s to →
  bal (move from to am s) a
  = bal s a - (if decide (a = from) then am else 0) + (if decide (a = to) then am else 0).
Proof.
  intros Ham Hto. unfold move.
  assert (H2 : ∀ x, bal (set_bal from (bal s from - am) s) x
    = if decide (x = from) then bal s from - am else bal s x) by (intros; apply bal_set_bal; lia).
  rewrite bal_set_bal by (rewrite H2; case_decide; lia). rewrite !H2.
  repeat case_decide; subst; try done; lia.
Qed.

Definition move_writes (from to : Address) (am : Z) s : list lkey :=
  if_value (Amount.Bytes (bal s from - am)) (bkey from)
  ++ if_value (Amount.Bytes (bal (set_bal from (bal s from - am) s) to + am)) (bkey to).
Definition move_marks (from to : Address) (am : Z) s : list lkey :=
  if_empty (Amount.Bytes (bal s from - am)) (bkey from)
  ++ if_empty (Amount.Bytes (bal (set_bal from (bal s from - am) s) to + am)) (bkey to).

Lemma nrun_transfer_fn from to am c s :
  valid_addr from → valid_addr to → wf c → noslot (abs c) ≡ noslot s → 0 ≤ am ≤ bal s from →
  nrun (transfer_fn pid from to am) c (Ok tt) (move from to am s)
    (move_writes from to am s) (move_marks from to am s).
Proof using Hpid.
  intros Hfr Hto Hwf Hs Ham. unfold transfer_fn, move_writes, move_marks, move.
  assert (Hb : bal (abs c) from = bal s from) by (by apply bal_proper).
  refine (nrun_bind (SubBalance pid from am) _ c tt _ (set_bal from (bal s from - am) s) _ _ _ _ _ _ _).
  { rewrite <- Hb. eapply run_nrun; [apply run_SubBalance; [done|done|lia]|].
    by rewrite !set_bal_noslot, Hs. }
  intros c1 Hwf1 Hs1 _.
  assert (Hb1 : bal (abs c1) to = bal (set_bal from (bal s from - am) s) to) by (by apply bal_proper).
  rewrite <- Hb1. eapply run_nrun; [apply run_AddBalance; [done|done|lia]|].
  by rewrite !set_bal_noslot, Hs1.
Qed.

(** What a successful transfer does to the ledger. *)
Definition transferred (from to : Address) (am fee : Z) s s' : Prop :=
  (∀ a, valid_addr a → bal s' a =
     bal s a - (if decide (a = from) then fee + am else 0) + (if decide (a = to) then am else 0)) ∧
  fees s' = fees s + fee ∧ rest_same s s'.

Lemma transfer_run from to am c :
  wf c → ledger_ok (abs c) → valid_addr from → valid_addr to → 0 ≤ am →
  dfee (abs c) + am ≤ bal (abs c) from → ¬ marked (bkey to) c →
  ∃ c', WithFee pid from (GetDefaultFee pid) (transfer_fn pid from to am) c = (Ok tt, c') ∧ wf c' ∧
    transferred from to am (dfee (abs c)) (abs c) (abs c').
Proof using Hpid.
  intros Hwf [Hlb Hlf Hld] Hfr Hto Ham Hle Hmk.
  set (fee := dfee (abs c)) in *. set (s1 := charge from fee (abs c)).
  assert (Hb1 : ∀ a, bal s1 a = bal (abs c) a - (if decide (a = from) then fee else 0)).
  { intros a. apply bal_charge. lia. }
  assert (Hbf : bal s1 from = bal (abs c) from - fee) by (rewrite Hb1, decide_True; done).
  assert (Hb2 : 0 ≤ bal s1 to).
  { rewrite Hb1. case_decide; [subst to; lia|]. specialize (Hlb to Hto). lia. }
  destruct (WithFee_ok from (transfer_fn pid from to am) c (move from to am s1)
    (move_writes from to am s1) (move_marks from to am s1)) as (c' & Hr & Hwf' & He); try done.
  - lia.
  - intros c1 Hwf1 Hs1 _. apply nrun_transfer_fn; try done. lia.
  - intros c1 Hc1 Htr x Hx Hm. unfold move_writes in Hx.
    rewrite elem_of_app, !elem_of_if_value, bal_set_bal in Hx by lia.
    assert (Hm0 : x = bkey from → bal s1 from = 0).
    { intros ->. apply marked_bal in Hm. rewrite <- Hm. symmetry. apply bal_proper; [done|]. by rewrite Hc1. }
    destruct Hx as [[-> Hne]|[-> Hne]]; [specialize (Hm0 eq_refl); lia|].
    destruct (decide (to = from)) as [->|Hne']; [specialize (Hm0 eq_refl); lia|].
    destruct (tr_marked _ _ _ _ Htr _ Hm) as [?|Hin]; [done|]. unfold charge_marks in Hin.
    rewrite elem_of_app, !elem_of_if_empty in Hin. destruct Hin as [[Hin _]|[Hin _]]; [|done].
    injection Hin as Hin. by apply accountDataKey_inj in Hin as (-> & _ & _).
  - exists c'. split; [done|]. split; [done|]. split_and!.
    + intros a Ha. rewrite (bal_proper _ _ a Ha He), bal_move, Hb1 by lia.
      repeat case_decide; lia.
    + rewrite (fees_proper _ _ He). unfold move. rewrite !fees_set_bal. apply fees_charge. lia.
    + eapply rest_same_equiv; [|exact He]. eapply rest_same_trans; [apply rest_same_charge|].
      eapply rest_same_trans; apply rest_same_set_bal.
Qed.

(** C7. Transfer.  A transfer of an amount the sender can pay, with the fee,
    succeeds: the sender pays amount and fee, the receiver gets the amount,
    the fee is collected, and no other balance, account or stored datum
    changes.  (The receiver's balance must not have been emptied before in
    the layer the transaction runs on.) *)
Theorem Transfer_executes ts from to am index c :
  wf c → ledger_ok (abs c) → valid_addr from → valid_addr to → 0 ≤ am →
  dfee (abs c) + am ≤ bal (abs c) from → ¬ marked (bkey to) c →
  ∃ c', vault_Execute pid magic (Transfer ts from to am) index c = (Ok tt, c') ∧ wf c' ∧
    transferred from to am (dfee (abs c)) (abs c) (abs c').
Proof using Hpid. intros. by apply transfer_run. Qed.

(** A transfer that cannot be paid fails with [ErrMinusBalance].  When
    the sender cannot even pay the fee nothing changes; when only the amount
    is missing the fee has been charged and everything else is as before. *)
Theorem Transfer_refused ts from to am index c :
  wf c → valid_addr from → valid_addr to →
  bal (abs c) from < dfee (abs c) + am → 0 ≤ dfee (abs c) →
  ∃ c', vault_Execute pid magic (Transfer ts from to am) index c = (Err ErrMinusBalance, c') ∧ wf c' ∧
    noslot (abs c') ≡ noslot (if bool_decide (bal (abs c) from < dfee (abs c)) then abs c
                              else charge from (dfee (abs c)) (abs c)).
Proof using Hpid.
  intros Hwf Hfr Hto Hlt Hd. simpl. case_bool_decide as Hfee; [by apply WithFee_no_fee|].
  apply (WithFee_body_err from _ c _ (charge from (dfee (abs c)) (abs c)) [] []); try done; [lia|].
  intros c1 Hwf1 Hs1 _. unfold transfer_fn.
  eapply run_nrun; [apply run_fail, run_SubBalance_minus|]; try done.
  rewrite (bal_proper _ _ from Hfr Hs1), bal_charge, decide_True by (done || lia). lia.
Qed.

(** The sum of the balances of some addresses. *)
Definition total s (addrs : list Address) : Z := foldr (λ a n, bal s a + n) 0 addrs.

Lemma total_shift s s' (f : Address → Z) addrs :
  (∀ a, a ∈ addrs → bal s' a = bal s a + f a) →
  total s' addrs = total s addrs + foldr (λ a n, f a + n) 0 addrs.
Proof.
  induction addrs as [|a addrs IH]; intros H; simpl; [lia|].
  rewrite (H a) by (by constructor). rewrite IH; [lia|]. intros b Hb. apply H. by constructor.
Qed.

Lemma sum_indicator (x : Address) z addrs :
  NoDup addrs →
  foldr (λ a n, (if decide (a = x) then z else 0) + n) 0 addrs = if decide (x ∈ addrs) then z else 0.
Proof.
  induction 1 as [|a addrs Ha Hnd IH]; simpl; [done|]. rewrite IH.
  destruct (decide (a = x)) as [->|Hne].
  - rewrite decide_False by done. rewrite decide_True by constructor. lia.
  - destruct (decide (x ∈ addrs)), (decide (x ∈ a :: addrs)) as [Hx|Hx]; try lia.
    + destruct Hx. by constructor.
    + apply elem_of_cons in Hx as [->|]; done.
Qed.

(** Shifting the balances of two parties. *)
Lemma total_two s s' from to x y addrs :
  (∀ a, a ∈ addrs → bal s' a = bal s a - (if decide (a = from) then x else 0) + (if decide (a = to) then y else 0)) →
  NoDup addrs → from ∈ addrs → to ∈ addrs → total s' addrs = total s addrs - x + y.
Proof.
  intros Hb Hnd Hf Ht.
  rewrite (total_shift s s' (λ a, (if decide (a = from) then - x else 0) + (if decide (a = to) then y else 0))).
  - assert (∀ f g : Address → Z, foldr (λ a n, f a + g a + n) 0 addrs
      = foldr (λ a n, f a + n) 0 addrs + foldr (λ a n, g a + n) 0 addrs) as Hadd.
    { intros f g. clear. induction addrs as [|a l IH]; simpl; [done|]. rewrite IH. lia. }
    rewrite (Hadd (λ a, if decide (a = from) then - x else 0)
      (λ a, if decide (a = to) then y else 0)), !sum_indicator, !decide_True by done. lia.
  - intros a Ha. rewrite Hb by auto. repeat case_decide; lia.
Qed.

(** C8. Conservation.  Whether it can be paid or not, a transfer neither
    creates nor destroys coins: over any set of addresses that contains both
    parties, the balances and the collected fees add up to the same total
    before and after, where a transfer that the sender can pay with its fee
    succeeds and any other fails with [ErrMinusBalance] (and may have cost
    the fee).  The amount is not negative, and the balance of the receiver
    must not have a deletion mark in the layer that the transaction runs on:
    a receiver that was emptied earlier in the same layer loses the amount
    when the inner snapshot is committed ([transfer_to_emptied]). *)
Theorem Transfer_conserves ts from to am index c addrs :
  wf c → ledger_ok (abs c) → valid_addr from → valid_addr to → 0 ≤ am → ¬ marked (bkey to) c →
  NoDup addrs → Forall valid_addr addrs → from ∈ addrs → to ∈ addrs →
  ∃ c', vault_Execute pid magic (Transfer ts from to am) index c
        = (if bool_decide (dfee (abs c) + am ≤ bal (abs c) from) then Ok tt else Err ErrMinusBalance, c') ∧
    total (abs c') addrs + fees (abs c') = total (abs c) addrs + fees (abs c).
Proof using Hpid.
  intros Hwf Hlo Hfr Hto Ham Hmk Hnd Hv Hf Ht. rewrite Forall_forall in Hv. case_bool_decide as Hle.
  - destruct (transfer_run from to am c Hwf Hlo Hfr Hto Ham Hle Hmk) as (c' & Hr & _ & Hb & Hfe & _).
    exists c'. split; [done|]. rewrite Hfe, (total_two (abs c) (abs c') from to (dfee (abs c) + am) am); [lia| |done..].
    intros a Ha. apply Hb. auto.
  - pose proof (lo_dfee _ Hlo) as Hd.
    destruct (Transfer_refused ts from to am index c Hwf Hfr Hto) as (c' & Hr & _ & He); [lia|done|].
    exists c'. split; [done|]. rewrite (fees_proper _ _ He). case_bool_decide as Hfee.
    + f_equal. rewrite (total_two (abs c) (abs c') from to 0 0); [lia| |done..].
      intros a Ha. rewrite (bal_proper _ _ a (Hv a Ha) He). repeat case_decide; lia.
    + pose proof (lo_fees _ Hlo). rewrite fees_charge by lia.
      rewrite (total_two (abs c) (abs c') from to (dfee (abs c)) 0); [lia| |done..].
      intros a Ha. rewrite (bal_proper _ _ a (Hv a Ha) He), bal_charge by lia. repeat case_decide; lia.
Qed.

(** Burn: the amount disappears, the fee is collected. *)
Lemma Burn_executes ts from am index c :
  wf c → ledger_ok (abs c) → valid_addr from → 0 ≤ am → dfee (abs c) + am ≤ bal (abs c) from →
  ∃ c', vault_Execute pid magic (Burn ts from am) index c = (Ok tt, c') ∧ wf c' ∧
    (∀ a, valid_addr a → bal (abs c') a =
       bal (abs c) a - (if decide (a = from) then dfee (abs c) + am else 0)) ∧
    fees (abs c') = fees (abs c) + dfee (abs c) ∧ rest_same (abs c) (abs c').
Proof using Hpid.
  intros Hwf [Hlb Hlf Hld] Hfr Ham Hle. simpl. set (fee := dfee (abs c)) in *.
  set (s1 := charge from fee (abs c)).
  assert (Hb1 : ∀ a, bal s1 a = bal (abs c) a - (if decide (a = from) then fee else 0)).
  { intros a. apply bal_charge. lia. }
  assert (Hbf : bal s1 from = bal (abs c) from - fee) by (rewrite Hb1, decide_True; done).
  destruct (WithFee_ok from (SubBalance pid from am) c (set_bal from (bal s1 from - am) s1)
    (if_value (Amount.Bytes (bal s1 from - am)) (bkey from))
    (if_empty (Amount.Bytes (bal s1 from - am)) (bkey from))) as (c' & Hr & Hwf' & He); try done.
  - lia.
  - intros c1 Hwf1 Hs1 _.
    assert (Hbb : bal (abs c1) from = bal s1 from) by (by apply bal_proper). rewrite <- Hbb.
    eapply run_nrun; [apply run_SubBalance; [done|done|lia]|by rewrite !set_bal_noslot, Hs1].
  - intros c1 Hc1 _ x [-> Hne]%elem_of_if_value Hm. apply marked_bal in Hm.
    assert (bal (abs c1) from = bal s1 from) by (apply bal_proper; [done|by rewrite Hc1]). lia.
  - exists c'. split; [done|]. split; [done|]. split_and!.
    + intros a Ha. rewrite (bal_proper _ _ a Ha He), bal_set_bal, !Hb1 by lia.
      repeat case_decide; subst; try done; lia.
    + rewrite (fees_proper _ _ He), fees_set_bal. apply fees_charge. lia.
    + eapply rest_same_equiv; [|exact He]. eapply rest_same_trans; [apply rest_same_charge|].
      apply rest_same_set_bal.
Qed.

(** ** Creating accounts *)

Lemma marked_fees c : marked fkey c → fees (abs c) = 0.
Proof.
  unfold marked, fees. simpl. unfold view_ProcessData, view.
  destruct (stack c) as [|d st]; [done|]. simpl. unfold presence, hit_ProcessData at 1, ov_hit.
  destruct (ov_del (ProcessDataOv d) !! _); [done|]. by destruct (ov_map _ !! _).
Qed.

Lemma marked_account c a : marked (LAccount a) c → view_Account c a = Err ErrDeletedAccount.
Proof.
  unfold marked, view_Account, view. destruct (stack c) as [|d st]; [done|].
  simpl. unfold presence, hit_Account at 1. destruct (DeletedAccountMap d !! a); [done|].
  by destruct (AccountMap d !! a).
Qed.

(** What a new account must satisfy, on the abstract state. *)
Definition abs_creatable (h : Z) (acc : A) s : Prop :=
  Height (acc_Address acc) = h ∧ acc_Address acc ≠ emptyAddr ∧ ParseAddress (acc_Name acc) = None ∧
  abs_HasAccount s (acc_Address acc) = Ok false ∧ abs_HasName s (acc_Name acc) = Ok false ∧
  abs_Account s (acc_Address acc) ≠ Err ErrDeletedAccount.

(** The ledger after paying for an account. *)
Definition pay_create (from : Address) (cost : Z) (acc : A) s : Abs :=
  abs_create_account acc (set_fees (fees s + cost) (set_bal from (bal s from - cost) s)).

Lemma abs_create_noslot acc s : noslot (abs_create_account acc s) = abs_create_account acc (noslot s).
Proof. done. Qed.
#[local] Instance abs_create_proper acc : Proper ((≡) ==> (≡)) (abs_create_account acc).
Proof. intros s1 s2 []. split; simpl; intros; auto; by case_decide. Qed.

Lemma nrun_pay_and_create from cost mk index c s :
  let acc := mk (NewAddress (genTargetHeight c) index magic) in
  valid_addr from → wf c → noslot (abs c) ≡ noslot s → 0 ≤ cost ≤ bal s from →
  abs_creatable (genTargetHeight c) acc s →
  nrun (pay_and_create pid magic from cost mk index) c (Ok tt) (pay_create from cost acc s)
    (if_value (Amount.Bytes (bal s from - cost)) (bkey from)
     ++ if_value (Amount.Bytes (fees s + cost)) fkey ++ [LAccount (acc_Address acc)])
    (if_empty (Amount.Bytes (bal s from - cost)) (bkey from)
     ++ if_empty (Amount.Bytes (fees s + cost)) fkey ++ []).
Proof using Hpid.
  intros acc Hfr Hwf Hs Hcost Hcr. unfold pay_and_create, pay_create.
  assert (Hb : bal (abs c) from = bal s from) by (by apply bal_proper).
  refine (nrun_bind _ _ c tt _ (set_bal from (bal s from - cost) s) _ _ _ _ _ _ _).
  { rewrite <- Hb. eapply run_nrun; [apply run_SubBalance; [done|done|lia]|].
    by rewrite !set_bal_noslot, Hs. }
  intros c1 Hwf1 Hs1 Hh1.
  assert (Hf1 : fees (abs c1) = fees s) by (rewrite (fees_proper _ _ Hs1); apply fees_set_bal).
  refine (nrun_bind _ _ c1 tt _ (set_fees (fees s + cost) (set_bal from (bal s from - cost) s))
    _ _ _ _ _ _ _).
  { rewrite <- Hf1. eapply run_nrun; [apply run_AddCollectedFee; [done|lia]|].
    by rewrite !set_fees_noslot, Hs1. }
  intros c2 Hwf2 Hs2 Hh2.
  change (TargetHeight ≫= ?f) with (λ c, f (genTargetHeight c) c). cbv beta.
  unfold nrun. rewrite Hh2, Hh1. fold acc.
  assert (Hs2' : noslot (abs c2) ≡ noslot (set_fees (fees s + cost) (set_bal from (bal s from - cost) s)))
    by done.
  destruct Hs2 as [E1 E2 E3 E4 _ _ _ _]. destruct Hcr as (H1 & H2 & H3 & H4 & H5 & H6).
  destruct (trace_CreateAccount c2 acc Hwf2) as (c3 & Hr & He & Ht).
  - unfold creatable. split_and!; try done; [by rewrite Hh2, Hh1|..].
    + etrans; [apply (E2 (acc_Address acc))|done].
    + etrans; [apply (E4 (acc_Name acc))|done].
  - specialize (E1 (acc_Address acc)). simpl in E1. by rewrite E1.
  - exists c3. split; [done|]. split; [|done].
    rewrite He, !abs_create_noslot. by rewrite Hs2'.
Qed.

(** The transaction that creates an account.  When the sender can pay
    the fee and the creation amount of the policy, and name and address are
    new, the account exists afterwards under its name with the address made
    of height and index, the sender has paid exactly fee plus creation amount,
    both are collected, and all other balances and accounts are unchanged. *)
Theorem CreateAccount_executes ts from name key index pol c :
  let addr := NewAddress (genTargetHeight c) index magic in
  let cost := AccountCreationAmount pol in
  wf c → ledger_ok (abs c) → valid_addr from →
  unmarshal_policy (data (view_ProcessData c pid tagPolicy)) = Ok (Some pol) →
  0 ≤ cost → 0 < dfee (abs c) → dfee (abs c) + cost ≤ bal (abs c) from →
  0 < genTargetHeight c < 2 ^ 32 → ParseAddress name = None →
  view_HasAccount c addr = Ok false → view_HasName c name = Ok false →
  view_Account c addr ≠ Err ErrDeletedAccount →
  ∃ c', vault_Execute pid magic (TxCreateAccount ts from name key) index c = (Ok tt, c') ∧ wf c' ∧
    (∀ a, view_Account c' a
       = if decide (a = addr) then Ok (of_single (mkSingle addr name key)) else view_Account c a) ∧
    view_Name c' name = Ok addr ∧
    (∀ a, valid_addr a → bal (abs c') a =
       bal (abs c) a - (if decide (a = from) then dfee (abs c) + cost else 0)) ∧
    fees (abs c') = fees (abs c) + dfee (abs c) + cost.
Proof using Hpid.
  intros addr cost Hwf [Hlb Hlf Hld] Hfr Hpol Hc0 Hfee Hle Hh Hname Hha Hhn Hdel. simpl.
  set (fee := dfee (abs c)) in *. set (s1 := charge from fee (abs c)).
  set (acc := of_single (mkSingle addr name key)).
  assert (Hb1 : ∀ a, bal s1 a = bal (abs c) a - (if decide (a = from) then fee else 0)).
  { intros a. apply bal_charge. lia. }
  assert (Hbf : bal s1 from = bal (abs c) from - fee) by (rewrite Hb1, decide_True; done).
  assert (Hf1 : fees s1 = fees (abs c) + fee) by (apply fees_charge; lia).
  assert (Hcr : abs_creatable (genTargetHeight c) acc s1).
  { unfold abs_creatable, acc. rewrite of_single_Address, of_single_Name. simpl.
    split_and!; try done.
    - apply Height_NewAddress. unfold is_u32. lia.
    - intros He. apply (f_equal Height) in He. unfold addr in He.
      rewrite Height_NewAddress in He by (unfold is_u32; lia). vm_compute (Height emptyAddr) in He. lia. }
  assert (Haddr : acc_Address acc = addr) by apply of_single_Address.
  assert (Hnm : acc_Name acc = name) by apply of_single_Name.
  destruct (WithFee_ok from (policy ← read_policy pid; pay_and_create pid magic from
      (AccountCreationAmount policy) (λ a, of_single (mkSingle a name key)) index) c
    (pay_create from cost acc s1)
    ([] ++ if_value (Amount.Bytes (bal s1 from - cost)) (bkey from)
     ++ if_value (Amount.Bytes (fees s1 + cost)) fkey ++ [LAccount (acc_Address acc)])
    ([] ++ if_empty (Amount.Bytes (bal s1 from - cost)) (bkey from)
     ++ if_empty (Amount.Bytes (fees s1 + cost)) fkey ++ []))
    as (c' & Hr & Hwf' & He); try done.
  - lia.
  - intros c1 Hwf1 Hs1 Hh1. fold fee s1 in Hs1.
    eapply (nrun_bind _ _ c1 pol _ s1).
    + destruct (view_ProcessData_Ok c1 pid tagPolicy) as [v Hv].
      destruct (run_ProcessData tagPolicy c1 Hwf1) as (c2 & Hr2 & He2 & Ht2). rewrite Hv in Hr2.
      exists c2. split; [|split; [by rewrite He2|done]]. unfold read_policy, mbind, M_bind.
      rewrite Hr2. unfold lift.
      assert (Hv' : view_ProcessData c pid tagPolicy = Ok v).
      { rewrite <- Hv. etrans; [|symmetry; apply (eq_ProcessData _ _ Hs1); done].
        symmetry. apply (rs_process _ _ (rest_same_charge from fee (abs c))); [done|by intros [=]]. }
      rewrite Hv' in Hpol. simpl in Hpol. by rewrite Hpol.
    + intros c2 Hwf2 Hs2 Hh2.
      pose proof (nrun_pay_and_create from cost (λ a, of_single (mkSingle a name key)) index c2 s1) as Hp.
      cbv zeta beta in Hp. rewrite Hh2, Hh1 in Hp. apply Hp; try done. lia.
  - intros c1 Hc1 Htr x Hx Hm. fold fee s1 in Hc1.
    rewrite !elem_of_app, !elem_of_if_value, elem_of_nil, list_elem_of_singleton in Hx.
    destruct Hx as [[]|[[-> Hne]|[[-> Hne]| -> ]]].
    + apply marked_bal in Hm.
      assert (bal (abs c1) from = bal s1 from) by (apply bal_proper; [done|by rewrite Hc1]). lia.
    + apply marked_fees in Hm.
      assert (fees (abs c1) = fees s1) by (apply fees_proper; by rewrite Hc1). lia.
    + apply marked_account in Hm. rewrite Haddr in Hm. destruct Hdel. rewrite <- Hm. symmetry.
      apply (eq_Account _ _ Hc1).
  - exists c'. split; [done|]. split; [done|]. split_and!.
    + intros a. etrans; [apply (eq_Account _ _ He)|]. simpl. by rewrite Haddr.
    + etrans; [apply (eq_Name _ _ He)|]. simpl. by rewrite Hnm, decide_True, Haddr.
    + intros a Ha. rewrite (bal_proper _ _ a Ha He). unfold pay_create.
      change (bal (abs_create_account acc ?s) a) with (bal s a).
      rewrite bal_set_fees, bal_set_bal, Hbf by lia. destruct (decide (a = from)) as [->|]; [lia|].
      rewrite Hb1, decide_False by done. lia.
    + rewrite (fees_proper _ _ He). unfold pay_create.
      change (fees (abs_create_account acc ?s)) with (fees s). rewrite fees_set_fees by lia. lia.
Qed.

End VaultSpec.

(** ** Accounts and wire form *)

(** [MultiAccount.Validate] accepts exactly when there are as many
    signers as key hashes and the number of key hashes among the signers is
    the required one.  So when all owners of an account with fewer required
    than owners sign, it refuses, and a list of distinct signers that it
    accepts contains a signer who is no owner. *)
Theorem multi_Validate_exact acc signers :
  (multi_Validate acc signers = Ok tt ↔
     length (multi_KeyHashes acc) = length signers ∧
     Z.of_nat (length (filter (λ k, k ∈ signers) (multi_KeyHashes acc))) = multi_Required acc) ∧
  (signers ≡ₚ multi_KeyHashes acc →
     multi_Required acc ≠ Z.of_nat (length (multi_KeyHashes acc)) →
     multi_Validate acc signers = Err ErrInvalidAccountSigner) ∧
  (multi_Validate acc signers = Ok tt → NoDup signers → NoDup (multi_KeyHashes acc) →
     multi_Required acc < Z.of_nat (length (multi_KeyHashes acc)) →
     ∃ signer, signer ∈ signers ∧ signer ∉ multi_KeyHashes acc).
Proof.
  set (keys := multi_KeyHashes acc).
  assert (Hfilter : filter (λ k, k ∈ (list_to_set signers : gset PublicHash)) keys
    = filter (λ k, k ∈ signers) keys).
  { apply list_filter_iff. intros k. by rewrite elem_of_list_to_set. }
  assert (Hiff : multi_Validate acc signers = Ok tt ↔ length keys = length signers ∧
    Z.of_nat (length (filter (λ k, k ∈ signers) keys)) = multi_Required acc).
  { unfold multi_Validate. fold keys. cbv zeta. rewrite Hfilter.
    destruct (Nat.eqb_spec (length keys) (length signers)), (Z.eqb_spec
      (Z.of_nat (length (filter (λ k, k ∈ signers) keys))) (multi_Required acc)); simpl; naive_solver. }
  split; [done|]. split.
  - intros Hp Hne. unfold multi_Validate. fold keys. cbv zeta. rewrite Hfilter.
    rewrite <- (Permutation_length Hp), Nat.eqb_refl. simpl.
    assert (Hall : filter (λ k, k ∈ signers) keys = keys).
    { apply filter_all. apply Forall_forall. intros k Hk. by rewrite Hp. }
    rewrite Hall. destruct (Z.eqb_spec (Z.of_nat (length keys)) (multi_Required acc)); [lia|done].
  - intros [Hl Hc]%Hiff Hnd Hndk Hlt.
    destruct (decide (Forall (λ x, x ∈ keys) signers)) as [Hall|Hnall].
    + exfalso. assert (Hp : signers ≡ₚ keys).
      { apply submseteq_length_Permutation; [|lia].
        apply NoDup_submseteq; [done|]. by rewrite Forall_forall in Hall. }
      assert (filter (λ k, k ∈ signers) keys = keys) as Hf.
      { apply filter_all. apply Forall_forall. intros k Hk. by rewrite Hp. }
      rewrite Hf in Hc. lia.
    + apply not_Forall_Exists in Hnall; [|apply _]. apply Exists_exists in Hnall as (x & Hx & Hn).
      by exists x.
Qed.

Lemma copy_prefix (a : Address) :
  valid_addr a → copy emptyAddr (take 6 a) = take 6 a ++ replicate 8 0.
Proof.
  intros Ha. unfold copy, emptyAddr, valid_addr, AddressSize in *.
  rewrite length_replicate, length_take, Ha, take_take.
  change (14 `min` 6)%nat with 6%nat. change (6 `min` 14)%nat with 6%nat. by rewrite drop_replicate.
Qed.

(** The wire form of a transfer keeps six of the fourteen bytes of each
    address.  Decoding what was encoded gives the transfer back exactly when
    the remaining eight bytes, which carry the magic number of the chain, are
    zero in both addresses. *)
Theorem Transfer_wire_roundtrip ts from to am :
  valid_addr from → valid_addr to → 0 ≤ am →
  Transfer_decode (Transfer_encode ts from to am) = Transfer ts from to am ↔
  drop 6 from = replicate 8 0 ∧ drop 6 to = replicate 8 0.
Proof.
  intros Hf Ht Ham. unfold Transfer_decode, Transfer_encode.
  cbn [wire_Timestamp wire_From wire_To wire_Amount]. rewrite !copy_prefix, Amount.NewAmountFromBytes_Bytes, Z.abs_eq by done.
  assert (G : ∀ a : Address, take 6 a ++ replicate 8 0 = a ↔ drop 6 a = replicate 8 0).
  { intros a. rewrite <- (take_drop 6 a) at 2. split; [by intros H%app_inv_head|by intros ->]. }
  rewrite <- !G. split.
  - intros Heq. split; [exact (f_equal tx_From Heq)|by injection Heq].
  - intros [H1 H2]. by rewrite H1, H2.
Qed.
