(* ===== verification/DataRun.v ===== *)
(** * Running process code on the abstract state

    The processes of the chain keep their state as account and process data.
    This file gives the rules to run such code: what a program answers and
    the abstract state it leaves, through reads and writes of data and
    accounts, and through a scope (snapshot, body, commit). *)

From S2P Require Import Prelude Amount Common Context ContextSpec ContextTrace Vault VaultSpec.

Lemma BigEndian_Uint32ToBytes_inj x y :
  is_u32 x → is_u32 y → BigEndian_Uint32ToBytes x = BigEndian_Uint32ToBytes y → x = y.
Proof. intros. by apply (be_bytes_inj 4). Qed.

Lemma copy_addr (a : Address) : valid_addr a → copy emptyAddr a = a.
Proof. intros H. apply copy_same_length. by rewrite H. Qed.

Section DataRun.
Context {A E : Type} `{AI : AccountI A} `{EI : EventI E} `{B58 : Base58}.
Implicit Types (c : Ctx A E) (s : Abs (A:=A)) (pid : Z).

(** ** Process and account data of the abstract state *)

Definition pget pid s (n : bytes) : bytes := data (abs_ProcessData s pid n).
Definition pset pid (n v : bytes) s : Abs := abs_set_process_data pid n v s.
Definition aget pid s (a : Address) (n : bytes) : bytes := data (abs_AccountData s a pid n).
Definition aset pid (a : Address) (n v : bytes) s : Abs := abs_set_account_data a pid n v s.
(** The account object of an address. *)
Definition accset (a : Address) (acc : A) s : Abs :=
  mkAbs (λ a', if decide (a' = a) then Ok acc else abs_Account s a') (abs_HasAccount s) (abs_Name s) (abs_HasName s)
    (abs_AccountData s) (abs_ProcessData s) (abs_UTXO s) (abs_slot s).

Lemma pget_pset pid n v s m : pget pid (pset pid n v s) m = if decide (m = n) then v else pget pid s m.
Proof.
  unfold pget, pset. simpl. destruct (decide (m = n)) as [->|Hne].
  - by rewrite decide_True.
  - by rewrite decide_False by naive_solver.
Qed.
Lemma pget_pset_ne pid q n v s m : q ≠ pid → pget q (pset pid n v s) m = pget q s m.
Proof. intros Hq. unfold pget, pset. simpl. by rewrite decide_False by naive_solver. Qed.
Lemma aget_aset pid a n v s b m :
  aget pid (aset pid a n v s) b m = if decide (b = a ∧ m = n) then v else aget pid s b m.
Proof.
  unfold aget, aset. simpl. destruct (decide (b = a ∧ m = n)) as [[-> ->]|Hne].
  - by rewrite decide_True.
  - by rewrite decide_False by naive_solver.
Qed.
Lemma aget_aset_ne pid q a n v s b m : q ≠ pid → aget q (aset pid a n v s) b m = aget q s b m.
Proof. intros Hq. unfold aget, aset. simpl. by rewrite decide_False by naive_solver. Qed.
Lemma aget_pset pid q n v s a m : aget q (pset pid n v s) a m = aget q s a m.
Proof. done. Qed.
Lemma pget_aset pid q a n v s m : pget q (aset pid a n v s) m = pget q s m.
Proof. done. Qed.

Lemma pset_noslot pid n v s : noslot (pset pid n v s) = pset pid n v (noslot s).
Proof. done. Qed.
Lemma aset_noslot pid a n v s : noslot (aset pid a n v s) = aset pid a n v (noslot s).
Proof. done. Qed.
#[export] Instance pset_proper pid n v : Proper ((≡) ==> (≡)) (pset pid n v).
Proof. unfold pset. apply _. Qed.
#[export] Instance aset_proper pid a n v : Proper ((≡) ==> (≡)) (aset pid a n v).
Proof. unfold aset. apply _. Qed.
#[export] Instance accset_proper a acc : Proper ((≡) ==> (≡)) (accset a acc).
Proof. intros s1 s2 []. split; simpl; auto. intros. case_decide; auto. Qed.

(** ** Runs *)

(** The top layer has an answer of its own for the account. *)
Definition known (a : Address) c : Prop :=
  match stack c with [] => False | d :: _ => khit (LAccount a) d ≠ None end.

(** A context in use, with abstract state [s]. *)
Record at_state c s : Prop := {
  at_wf : wf c;
  at_active : active c;
  at_abs : noslot (abs c) ≡ noslot s;
}.

(** [m] answers [r] and leaves the state [s]; what it does to the layers is
    bounded by a trace, and it forgets no account. *)
Record leads c c' : Prop := {
  ld_trace : ∃ W Mk, trace W Mk c c';
  ld_known : ∀ a, known a c → known a c';
}.
Definition does {V} (m : M (Ctx A E) V) c (r : res V) s : Prop :=
  ∃ c', m c = (r, c') ∧ leads c c' ∧ at_state c' s.

Lemma leads_refl c : wf c → leads c c.
Proof. intros Hwf. split; [|done]. exists [], []. by apply trace_refl. Qed.
Lemma leads_trans c1 c2 c3 : leads c1 c2 → leads c2 c3 → leads c1 c3.
Proof.
  intros [(W1 & M1 & H1) K1] [(W2 & M2 & H2) K2]. split; [|auto].
  eexists _, _. by eapply trace_trans.
Qed.
Lemma leads_step c c' : leads c c' → top_step c c'.
Proof. by intros [(W & Mk & H) _]; destruct H. Qed.

(** The rule behind the others. *)
Lemma does_intro {V} (m : M (Ctx A E) V) c r s c' W Mk :
  m c = (r, c') → trace W Mk c c' → (∀ a, known a c → known a c') → active c →
  noslot (abs c') ≡ noslot s → does m c r s.
Proof.
  intros Hm Ht Hk Ha He. exists c'. split; [done|]. split; [by split; eauto|].
  pose proof (tr_step _ _ _ _ Ht) as Hs. split; [apply Hs|by apply Hs|done].
Qed.

Lemma does_bind_known {V X} (m : M (Ctx A E) V) (f : V → M (Ctx A E) X) c v r s s' :
  does m c (Ok v) s → (∀ c', at_state c' s → (∀ a, known a c → known a c') → does (f v) c' r s') →
  does (m ≫= f) c r s'.
Proof.
  intros (c1 & Hm & Hl & Hat) Hf. destruct (Hf c1 Hat (ld_known _ _ Hl)) as (c2 & H2 & Hl2 & Hat2).
  exists c2. split; [|split; [by eapply leads_trans|done]]. unfold mbind, M_bind. by rewrite Hm.
Qed.
Lemma does_bind {V X} (m : M (Ctx A E) V) (f : V → M (Ctx A E) X) c v r s s' :
  does m c (Ok v) s → (∀ c', at_state c' s → does (f v) c' r s') → does (m ≫= f) c r s'.
Proof. intros Hm Hf. eapply does_bind_known; eauto. Qed.

Lemma does_ret {V} c (v : V) s : at_state c s → does (mret v) c (Ok v) s.
Proof. intros Hat. exists c. split; [done|]. split; [by apply leads_refl, Hat|done]. Qed.
Lemma does_fail {V} c e s : at_state c s → does (fail e : M _ V) c (Err e) s.
Proof. intros Hat. exists c. split; [done|]. split; [by apply leads_refl, Hat|done]. Qed.
Lemma does_lift {V} c (r : res V) s : at_state c s → does (lift r) c r s.
Proof. intros Hat. exists c. split; [done|]. split; [by apply leads_refl, Hat|done]. Qed.
Lemma does_Err {V X} (m : M (Ctx A E) V) (f : V → M (Ctx A E) X) c e s :
  does m c (Err e) s → does (m ≫= f) c (Err e) s.
Proof. intros (c1 & Hm & H). exists c1. split; [|done]. unfold mbind, M_bind. by rewrite Hm. Qed.
Lemma does_try {V} (m : M (Ctx A E) V) c v s : does m c (Ok v) s → does (try m) c (Ok (inl v)) s.
Proof. intros (c1 & Hm & H). exists c1. split; [|done]. unfold try. by rewrite Hm. Qed.
Lemma does_try_Err {V} (m : M (Ctx A E) V) c e s : does m c (Err e) s → does (try m) c (Ok (inr e)) s.
Proof. intros (c1 & Hm & H). exists c1. split; [|done]. unfold try. by rewrite Hm. Qed.
Lemma does_map {V X} (m : M (Ctx A E) V) (g : V → X) c v s :
  does m c (Ok v) s → does (x ← m; mret (g x)) c (Ok (g v)) s.
Proof. intros H. eapply does_bind; [done|]. intros. by apply does_ret. Qed.
Lemma does_guard_false e c s : at_state c s → does (guard_err false e) c (Ok tt) s.
Proof. intros. by apply does_ret. Qed.
Lemma does_guard_true e c s : at_state c s → does (guard_err true e) c (Err e) s.
Proof. intros. by apply does_fail. Qed.
Lemma does_equiv {V} (m : M (Ctx A E) V) c r s s' : does m c r s → noslot s ≡ noslot s' → does m c r s'.
Proof. intros (c' & Hm & Hl & [H1 H2 H3]) He. exists c'. split; [done|]. split; [done|]. split; try done. by rewrite H3. Qed.

(** ** Reads and writes of data *)

(** [m] leaves the accounts of the top layer alone. *)
Definition spares {V} (m : M (Ctx A E) V) : Prop :=
  ∀ c a, wf c → known a c → known a (m c).2.

Lemma spares_with_top f :
  (∀ d a, khit (LAccount a) d ≠ None → khit (LAccount a) (f d) ≠ None) → spares (with_top f).
Proof. intros Hf c a _. unfold known, with_top. destruct (stack c) as [|d st] eqn:Hs; [done|]. simpl. apply Hf. Qed.

Lemma spares_read {V} hit fill clone keep (load : Loader A → ContextCache A → res V * _)
    (below : Loader A → res V) :
  (∀ v, clone v = v) → (∀ v d, isTop (fill v d) = isTop d) →
  (∀ ld cc, cache_ok ld cc → ∃ cc', load ld cc = (below ld, cc') ∧ cache_ok ld cc') →
  (∀ v d a, khit (LAccount a) d ≠ None → khit (LAccount a) (fill v d) ≠ None) →
  spares (run_read hit fill clone keep load).
Proof.
  intros H1 H2 H3 Hf c a Hwf. unfold known.
  destruct (run_read_stack hit fill clone keep load c (below (loader c)) H1 H2 Hwf) as (d & st & Hs & Hs').
  { intros cc Hcc. by apply H3. }
  rewrite Hs, Hs'. unfold filled. intros Hk. repeat case_match; auto.
Qed.

Lemma spares_AccountData a p n : valid_addr a → valid_pid p → spares (AccountData a p n).
Proof.
  intros Ha Hp. apply (spares_read (hit_AccountData (accountDataKey a p n))
    (fill_AccountData (accountDataKey a p n)) id _ _ (λ ld, Ok (ld_AccountData ld a p n))); try done.
  intros. by apply cc_AccountData_spec.
Qed.
Lemma spares_ProcessData p n : valid_pid p → spares (ProcessData p n).
Proof.
  intros Hp. apply (spares_read (hit_ProcessData (processDataKey p n))
    (fill_ProcessData (processDataKey p n)) id _ _ (λ ld, Ok (ld_ProcessData ld p n))); try done.
  intros. by apply cc_ProcessData_spec.
Qed.

Lemma does_ProcessData pid n c s :
  valid_pid pid → at_state c s → does (ProcessData pid n) c (Ok (pget pid s n)) s.
Proof.
  intros Hpid [Hwf Hact He]. destruct (trace_ProcessData c pid n Hpid Hwf) as (c' & Hr & Hc & Ht).
  destruct (view_ProcessData_Ok c pid n) as [v Hv].
  assert (Heq : abs_ProcessData s pid n = Ok v) by (rewrite <- Hv; symmetry; by apply (eq_ProcessData _ _ He)).
  eapply (does_intro _ _ _ _ c'); try done.
  - unfold pget. by rewrite Hr, Hv, Heq.
  - intros a Hk. pose proof (spares_ProcessData pid n Hpid c a Hwf Hk) as Hk'. by rewrite Hr in Hk'.
  - by rewrite Hc.
Qed.

Lemma does_AccountData pid a n c s :
  valid_pid pid → valid_addr a → at_state c s → does (AccountData a pid n) c (Ok (aget pid s a n)) s.
Proof.
  intros Hpid Ha [Hwf Hact He]. destruct (trace_AccountData c a pid n Ha Hpid Hwf) as (c' & Hr & Hc & Ht).
  destruct (view_AccountData_Ok c a pid n) as [v Hv].
  assert (Heq : abs_AccountData s a pid n = Ok v) by (rewrite <- Hv; symmetry; by apply (eq_AccountData _ _ He)).
  eapply (does_intro _ _ _ _ c'); try done.
  - unfold aget. by rewrite Hr, Hv, Heq.
  - intros a' Hk. pose proof (spares_AccountData a pid n Ha Hpid c a' Hwf Hk) as Hk'. by rewrite Hr in Hk'.
  - by rewrite Hc.
Qed.

Lemma does_SetProcessData pid n v c s :
  valid_pid pid → at_state c s → does (SetProcessData pid n v) c (Ok tt) (pset pid n v s).
Proof.
  intros Hpid [Hwf Hact He]. destruct (trace_SetProcessData c pid n v Hpid Hwf) as (c' & Hr & He' & Ht).
  eapply (does_intro _ _ _ _ c'); try done.
  - intros a Hk. assert (Hsp : spares (SetProcessData pid n v)) by (by apply spares_with_top).
    specialize (Hsp c a Hwf Hk). by rewrite Hr in Hsp.
  - rewrite He', pset_noslot. change (noslot (abs_set_process_data pid n v (abs c))) with (pset pid n v (noslot (abs c))).
    by rewrite He.
Qed.

Lemma does_SetAccountData pid a n v c s :
  valid_pid pid → valid_addr a → at_state c s → does (SetAccountData a pid n v) c (Ok tt) (aset pid a n v s).
Proof.
  intros Hpid Ha [Hwf Hact He]. destruct (trace_SetAccountData c a pid n v Ha Hpid Hwf) as (c' & Hr & He' & Ht).
  eapply (does_intro _ _ _ _ c'); try done.
  - intros a' Hk. assert (Hsp : spares (ctd_SetAccountData a pid n v)) by (by apply spares_with_top).
    destruct (dirty_step c Hwf) as [Hd _]. specialize (Hsp (dirty c) a' (ts_wf _ _ Hd) Hk).
    change (SetAccountData a pid n v c) with (ctd_SetAccountData a pid n v (dirty c)) in Hr. by rewrite Hr in Hsp.
  - rewrite He', aset_noslot. change (noslot (abs_set_account_data a pid n v (abs c))) with (aset pid a n v (noslot (abs c))).
    by rewrite He.
Qed.

(** ** Accounts *)

Lemma does_HasAccount a c s r :
  at_state c s → abs_HasAccount s a = r → does (HasAccount a) c r s.
Proof.
  intros Hat <-. destruct Hat as [Hwf Hact He] eqn:HH. exists c. split; [|split; [by apply leads_refl|done]].
  unfold HasAccount. rewrite ctd_HasAccount_view by done. f_equal. apply (eq_HasAccount _ _ He).
Qed.

Lemma does_TargetHeight c s : at_state c s → does TargetHeight c (Ok (genTargetHeight c)) s.
Proof. intros Hat. exists c. split; [done|]. split; [by apply leads_refl, Hat|done]. Qed.

Lemma filled_Account_not_stale a (below : res A) (u : ContextData A E) st v :
  hit_Account a u = None → view (hit_Account a) below (u :: st) = Ok v → khits (LAccount a) st ≠ Some true.
Proof.
  intros Hu. unfold view. simpl. rewrite Hu. clear Hu u.
  induction st as [|d st IH]; simpl; [done|]. unfold hit_Account at 1, presence.
  destruct (DeletedAccountMap d !! a); simpl; [done|]. by destruct (AccountMap d !! a).
Qed.

(** A read of an account: the top layer knows it from then on. *)
Lemma trace_Account c a :
  wf c → ∃ c', Account a c = (view_Account c a, c') ∧ noslot (abs c') ≡ noslot (abs c) ∧ trace [] [] c c' ∧
    (∀ b, known b c → known b c') ∧ (active c → ∀ acc, view_Account c a = Ok acc → known a c').
Proof.
  intros Hwf. destruct (dirty_step c Hwf) as [Hd _]. pose proof (ts_wf _ _ Hd) as Hwfd.
  destruct (read_Account a (dirty c) Hwfd) as (c' & Hr & Ht & He).
  exists c'. split; [exact Hr|]. split; [by rewrite He|].
  pose proof (top_step_trans _ _ _ Hd Ht) as Hstep.
  destruct (run_read_stack (hit_Account a) (fill_Account a) acc_Clone (λ _, true) (λ ld, cc_Account ld a) (dirty c)
    (ld_Account (loader c) a)) as (d & st & Hs & Hs'); try done.
  { apply acc_Clone_id. }
  { intros. by apply cc_Account_spec. }
  change (run_read _ _ _ _ _ (dirty c)) with (ctd_Account a (dirty c)) in Hs'. rewrite Hr in Hs'. cbn [snd] in Hs'.
  change (stack (dirty c)) with (stack c) in Hs.
  assert (Hfill : ∀ v b, khit (LAccount b) d ≠ None → khit (LAccount b) (fill_Account a v d) ≠ None).
  { intros v b. simpl. unfold presence. destruct (DeletedAccountMap d !! b); [done|].
    destruct (decide (b = a)) as [->|Hne]; [by rewrite lookup_insert_eq|by rewrite lookup_insert_ne]. }
  unfold view_Account. rewrite Hs.
  unfold filled in Hs'. destruct (hit_Account a d) as [r|] eqn:Hh.
  { split; [by eapply trace_same|]. unfold known. rewrite Hs, Hs'. split; [done|]. intros _ acc _.
    simpl. unfold presence, hit_Account in *. by repeat case_match. }
  destruct (view (hit_Account a) _ (d :: st)) as [v|e|] eqn:Hv; cycle 1.
  { split; [by eapply trace_same|]. unfold known. by rewrite Hs, Hs'. }
  { split; [by eapply trace_same|]. unfold known. by rewrite Hs, Hs'. }
  destruct (isTop d) eqn:Htop; simpl in Hs'; cycle 1.
  { split; [by eapply trace_same|]. unfold known, active. rewrite Hs, Hs'. split; [done|]. by rewrite Htop. }
  pose proof (filled_Account_not_stale a _ d st v Hh Hv) as Hns.
  assert (Hk : ∀ x, khit x (fill_Account a v d) = if decide (x = LAccount a) then Some false else khit x d).
  { intros [x|x|x|x]; try done. simpl. unfold presence, hit_Account in *.
    destruct (decide (LAccount x = LAccount a)) as [[= ->]|Hx].
    - rewrite lookup_insert_eq. by destruct (DeletedAccountMap d !! a).
    - by rewrite lookup_insert_ne by congruence. }
  split_and!.
  - split; [done|..]; intros x; unfold stale, marked; rewrite Hs, Hs', Hk; case_decide; try by auto.
    subst x. by intros [_ ?].
  - unfold known. rewrite Hs, Hs'. auto.
  - intros _ acc _. unfold known. by rewrite Hs', Hk, decide_True.
Qed.

Lemma does_Account_known a acc c s :
  at_state c s → abs_Account s a = Ok acc →
  ∃ c', Account a c = (Ok acc, c') ∧ leads c c' ∧ at_state c' s ∧ known a c'.
Proof.
  intros [Hwf Hact He] Ha. destruct (trace_Account c a Hwf) as (c' & Hr & He' & Ht & Hk & Hka).
  assert (Hv : view_Account c a = Ok acc) by (rewrite <- Ha; apply (eq_Account _ _ He)).
  exists c'. rewrite Hr, Hv. split; [done|]. split; [by split; eauto|].
  pose proof (tr_step _ _ _ _ Ht) as Hs. split; [|by eapply Hka]. split; [apply Hs|by apply Hs|by rewrite He'].
Qed.

Lemma does_Account a c s r : at_state c s → abs_Account s a = r → does (Account a) c r s.
Proof.
  intros [Hwf Hact He] <-. destruct (trace_Account c a Hwf) as (c' & Hr & He' & Ht & Hk & _).
  eapply (does_intro _ _ _ _ c'); try done; [|by rewrite He'].
  rewrite Hr. f_equal. apply (eq_Account _ _ He).
Qed.

(** Reading an account, then going on with the object at hand. *)
Lemma does_bind_Account {X} a acc (f : A → M (Ctx A E) X) c r s s' :
  at_state c s → abs_Account s a = Ok acc →
  (∀ c', at_state c' s → known a c' → (∀ b, known b c → known b c') → does (f acc) c' r s') →
  does (Account a ≫= f) c r s'.
Proof.
  intros Hat Ha Hf. destruct (does_Account_known a acc c s Hat Ha) as (c1 & Hr & Hl & Hat1 & Hk).
  destruct (Hf c1 Hat1 Hk (ld_known _ _ Hl)) as (c2 & H2 & Hl2 & Hat2).
  exists c2. split; [|split; [by eapply leads_trans|done]]. unfold mbind, M_bind. by rewrite Hr.
Qed.

(** A write through the pointer of an account that the top layer holds. *)
Lemma trace_AssignAccount a acc acc' c s :
  at_state c s → known a c → abs_Account s a = Ok acc' →
  does (AssignAccount a acc) c (Ok tt) (accset a acc s) ∧ trace [] [] c (AssignAccount a acc c).2.
Proof.
  intros [Hwf Hact He] Hk Ha. destruct (wf_top c Hwf) as (d & st & Hs & Hf).
  assert (Hv : view_Account c a = Ok acc') by (rewrite <- Ha; apply (eq_Account _ _ He)).
  unfold known in Hk. rewrite Hs in Hk. unfold view_Account, view in Hv. rewrite Hs in Hv. simpl in Hk, Hv.
  unfold presence in Hk. unfold hit_Account at 1 in Hv.
  destruct (DeletedAccountMap d !! a) eqn:Hdel; [done|]. destruct (AccountMap d !! a) eqn:Hmap; [|done].
  set (d' := set_AccountMap (<[a := acc]> (AccountMap d)) d).
  assert (Hst : assign_account a acc (stack c) = d' :: st) by (rewrite Hs; simpl; by rewrite Hdel, Hmap).
  assert (Hkh : ∀ x, khit x d' = khit x d).
  { intros [x|x|x|x]; try done. simpl. unfold presence. destruct (decide (x = a)) as [->|Hne];
      [by rewrite lookup_insert_eq, Hdel, Hmap|by rewrite lookup_insert_ne]. }
  assert (Hw : wf (set_stack (d' :: st) c)) by (split; [by exists d', st|apply Hwf|apply Hwf]).
  assert (Hts : top_step c (set_stack (d' :: st) c)).
  { split; simpl; try done; [by rewrite Hs|by unfold active; rewrite Hs|by unfold top_slot; rewrite Hs]. }
  assert (Hrun : AssignAccount a acc c = (Ok tt, set_stack (d' :: st) c)) by (unfold AssignAccount, modify; by rewrite Hst).
  assert (Htr : trace [] [] c (set_stack (d' :: st) c)) by (by eapply trace_same).
  rewrite Hrun. split; [|done]. eapply (does_intro _ _ _ _ (set_stack (d' :: st) c)); [done|done|..].
  - intros b. unfold known. rewrite Hs. change (khit (LAccount b) d ≠ None → khit (LAccount b) d' ≠ None). by rewrite Hkh.
  - done.
  - destruct He as [H1 H2 H3 H4 H5 H6 H7 H8]. split; cbn [noslot abs accset abs_Account abs_HasAccount abs_Name abs_HasName
      abs_AccountData abs_ProcessData abs_UTXO abs_slot] in *; intros;
      rewrite <- ?H2, <- ?H3, <- ?H4, <- ?H6, <- ?H7 by done; try rewrite <- H5 by done; try rewrite <- H1; try done;
      unfold view_Account, view_HasAccount, view_Name, view_HasName, view_AccountData, view_ProcessData, view_UTXO, view;
      rewrite Hs; simpl stack; simpl layers_hit; try done.
    + unfold hit_Account at 1. cbn [d' DeletedAccountMap AccountMap set_AccountMap].
      destruct (decide (addr = a)) as [->|Hne]; [by rewrite Hdel, lookup_insert_eq|by rewrite lookup_insert_ne].
    + unfold hit_Account at 1 3. cbn [d' DeletedAccountMap AccountMap set_AccountMap].
      destruct (decide (addr = a)) as [->|Hne]; [by rewrite Hdel, Hmap, lookup_insert_eq|by rewrite lookup_insert_ne].
Qed.

Lemma does_AssignAccount a acc acc' c s :
  at_state c s → known a c → abs_Account s a = Ok acc' → does (AssignAccount a acc) c (Ok tt) (accset a acc s).
Proof. intros. by eapply trace_AssignAccount. Qed.

(** Deleting an account: it is marked in the top layer. *)
Definition accdel (a : Address) s : Abs :=
  mkAbs (λ a', if decide (a' = a) then Err ErrDeletedAccount else abs_Account s a')
    (λ a', if decide (a' = a) then Ok false else abs_HasAccount s a') (abs_Name s) (abs_HasName s)
    (abs_AccountData s) (abs_ProcessData s) (abs_UTXO s) (abs_slot s).

(** [s] and [s'] agree on everything but names: what deleting an account
    does to the table of names is not followed. *)
Record same_data s s' : Prop := {
  sd_Account : ∀ a, abs_Account s a = abs_Account s' a;
  sd_HasAccount : ∀ a, abs_HasAccount s a = abs_HasAccount s' a;
  sd_AccountData : ∀ a p n, valid_addr a → valid_pid p → abs_AccountData s a p n = abs_AccountData s' a p n;
  sd_ProcessData : ∀ p n, valid_pid p → abs_ProcessData s p n = abs_ProcessData s' p n;
}.

Lemma does_DeleteAccount acc acc' c s :
  at_state c s → abs_Account s (acc_Address acc) = Ok acc' →
  ∃ s', does (DeleteAccount acc) c (Ok tt) s' ∧ same_data s' (accdel (acc_Address acc) s).
Proof.
  intros [Hwf Hact He] Ha. set (a := acc_Address acc) in *.
  assert (Hv : view_Account c a = Ok acc') by (rewrite <- Ha; apply (eq_Account _ _ He)).
  destruct (trace_Account c a Hwf) as (c1 & Hr & He1 & Ht & Hk & _). rewrite Hv in Hr.
  set (f := λ d, set_AccountNameMap (delete (acc_Name acc) (AccountNameMap d))
    (set_AccountMap (delete a (AccountMap d)) (set_DeletedAccountMap (<[a := acc]> (DeletedAccountMap d)) d))
    : ContextData A E).
  assert (Hwf1 : wf c1) by apply Ht.
  destruct (with_top_step f c1 Hwf1) as (d & st & Hs & Hw & Hts); [done|].
  set (c2 := set_stack (f d :: st) c1) in *.
  assert (Hdel : DeleteAccount acc c = (Ok tt, c2)).
  { unfold DeleteAccount, ctd_DeleteAccount. fold a. change (modify dirty ;; ?m) with (λ c, m (dirty c)). simpl.
    change (ctd_Account a (dirty c)) with (Account a c) in *. unfold mbind at 1, M_bind.
    change ((let (r, s') := ctd_Account a (dirty c) in (r, s')).1) with (ctd_Account a (dirty c)).1.
    rewrite <- Hw. unfold Account, mbind, M_bind, modify in Hr. by rewrite Hr. }
  exists (abs c2). split.
  - eapply (does_intro _ _ _ _ c2 _ ([] ++ [LAccount a])); [exact Hdel| | |done|done].
    + apply (trace_trans [] [] _ _ _ _ _ Ht). eapply (trace_weaken [] [] (if_empty [] (LAccount a))); [done|done|].
      eapply (trace_set c1 c2 d (f d) st (LAccount a) []); [exact Hts|exact Hs|done|].
      intros [x|x|x|x]; try done. simpl. unfold presence. destruct (decide _) as [[= ->]|Hx].
      * by rewrite lookup_insert_eq.
      * by rewrite lookup_insert_ne, lookup_delete_ne by congruence.
    + intros b Hb%Hk. unfold known in *. rewrite Hs in Hb. simpl. unfold presence.
      destruct (decide (b = a)) as [->|Hne]; [by rewrite lookup_insert_eq|].
      by rewrite lookup_insert_ne, lookup_delete_ne by congruence.
  - destruct He as [H1 H2 _ _ H5 H6 _ _], He1 as [G1 G2 _ _ G5 G6 _ _].
    split; cbn [abs accdel abs_Account abs_HasAccount abs_AccountData abs_ProcessData noslot] in *; intros;
      try (rewrite <- H5, <- G5 by done); try (rewrite <- H6, <- G6 by done); rewrite <- ?H1, <- ?H2, <- ?G1, <- ?G2;
      unfold view_Account, view_HasAccount, view_AccountData, view_ProcessData, view; rewrite Hs; simpl; try done;
      unfold hit_Account at 1; simpl; case_decide; subst;
      by rewrite ?lookup_insert_eq, ?lookup_insert_ne, ?lookup_delete_ne.
Qed.

Lemma does_EmitEvent e c s : at_state c s → does (EmitEvent e) c (Ok tt) s.
Proof.
  intros [Hwf Hact He]. destruct (wf_top c Hwf) as (d & st & Hs & _).
  destruct (writes_dirty (ctd_EmitEvent e) c id) as (c' & Hr & Ht & He'); [intros; by apply write_EmitEvent|done|].
  assert (Hs' : ∃ d', stack c' = d' :: st ∧ ∀ x, khit x d' = khit x d).
  { unfold ctd_EmitEvent, with_top, mbind, M_bind, modify in Hr. simpl in Hr. rewrite Hs in Hr. injection Hr as <-.
    eexists. split; [done|]. by intros []. }
  destruct Hs' as (d' & Hs' & Hk).
  eapply (does_intro _ _ _ _ c'); [exact Hr|by eapply trace_same| |done|by rewrite He'].
  intros a. unfold known. by rewrite Hs, Hs', Hk.
Qed.

(** ** Scopes *)

(** The top layer has no deletion marks: a commit into it loses nothing. *)
Definition unmarked c : Prop := ∀ x, ¬ marked x c.

(** What a run wrote and marked in the top layer has the property [P]. *)
Definition within (P : lkey → Prop) c c' : Prop :=
  ∃ W Mk, trace W Mk c c' ∧ Forall P W ∧ Forall P Mk.

(** A body with a postcondition, that writes keys of [P] only; the commit
    needs no more than that the top layer has no marks on these. *)
Lemma does_scope_within P fn (Q : Abs → Prop) c s :
  at_state c s → (∀ x, marked x c → ¬ P x) →
  (∀ c1, at_state c1 s → genTargetHeight c1 = genTargetHeight c →
     ∃ s', does fn c1 (Ok tt) s' ∧ within P c1 (fn c1).2 ∧ Q s') →
  ∃ s', does (scope fn) c (Ok tt) s' ∧ Q s'.
Proof.
  intros [Hwf Hact He] Hu Hfn.
  destruct (scope_enter c Hwf) as (c1 & Hsn & Hwf1 & _ & Hh & _ & _ & (d & st & Hs & Hs1) & He1 & _).
  destruct (Hfn c1) as (s' & (c2 & Hr & _ & Hat2) & (W & Mk & Ht & HW & _) & HQ);
    [split; [done|by unfold active; rewrite Hs1|by rewrite He1]|done|].
  rewrite Hr in Ht. cbn [snd] in Ht.
  exists s'. split; [|done].
  destruct (scope_commit W Mk c c1 c2 _ Hwf Hsn Ht) as (c3 & Hc & He3 & Ht3);
    [intros x Hx Hm; rewrite Forall_forall in HW; by apply (Hu x Hm), HW|].
  eapply (does_intro _ _ _ _ c3); [|exact Ht3| |done|by rewrite He3; apply Hat2].
  - unfold scope. rewrite (bind_Ok _ _ _ _ _ Hsn). unfold try, mbind at 1, M_bind. by rewrite Hr.
  - intros a Hk. destruct (wf_top c2 (ts_wf _ _ (tr_step _ _ _ _ Ht))) as (u & st2 & Hs2 & Hf2).
    pose proof (ts_below _ _ (tr_step _ _ _ _ Ht)) as Hb. rewrite Hs2, Hs1 in Hb. simpl in Hb. subst st2.
    destruct (Commit_merges c2 u (set_isTop false d) st (ts_wf _ _ (tr_step _ _ _ _ Ht)) Hs2) as [Hc3 _].
    assert (Hlen : S (length (stack c)) = length (stack c2)) by (by rewrite Hs, Hs2).
    rewrite Hlen, Hc3 in Hc. injection Hc as <-. unfold known in *. rewrite Hs in Hk. cbn [stack set_stack].
    change (khit (LAccount a) (set_isTop true ?m)) with (khit (LAccount a) m). rewrite khit_merge.
    change (khit (LAccount a) (set_isTop false d)) with (khit (LAccount a) d).
    by repeat case_match.
Qed.

Lemma does_scope_post fn (Q : Abs → Prop) c s :
  at_state c s → unmarked c →
  (∀ c1, at_state c1 s → genTargetHeight c1 = genTargetHeight c → ∃ s', does fn c1 (Ok tt) s' ∧ Q s') →
  ∃ s', does (scope fn) c (Ok tt) s' ∧ Q s'.
Proof.
  intros Hat Hu Hfn. apply (does_scope_within (λ _, True) fn Q c s); [done|intros x Hx; by destruct (Hu x)|].
  intros c1 Hc1 Hh. destruct (Hfn c1 Hc1 Hh) as (s' & Hd & HQ). exists s'. split_and!; [done| |done].
  destruct Hd as (c2 & -> & [(W & Mk & Ht) _] & _). exists W, Mk. split_and!; [done|by apply Forall_true..].
Qed.

Lemma does_scope fn c s s' :
  at_state c s → unmarked c →
  (∀ c1, at_state c1 s → genTargetHeight c1 = genTargetHeight c → does fn c1 (Ok tt) s') →
  does (scope fn) c (Ok tt) s'.
Proof.
  intros Hat Hu Hfn. destruct (does_scope_post fn (eq s') c s Hat Hu) as (s1 & Hd & <-); [|done].
  intros c1 Hc1 Hh. exists s'. auto.
Qed.

(** A body that fails leaves nothing behind. *)
Lemma does_scope_Err fn c s s' e :
  at_state c s → (∀ c1, at_state c1 s → does fn c1 (Err e) s') → does (scope fn) c (Err e) s.
Proof.
  intros [Hwf Hact He] Hfn.
  destruct (scope_enter c Hwf) as (c1 & Hsn & Hwf1 & _ & Hh & _ & _ & (d & st & Hs & Hs1) & He1 & _).
  destruct (Hfn c1) as (c2 & Hr & [(W & Mk & Ht) _] & Hat2); [split; [done|by unfold active; rewrite Hs1|by rewrite He1]|].
  destruct (scope_revert W Mk c c1 c2 _ Hwf Hsn Ht) as (c3 & Hc & He3 & Ht3).
  eapply (does_intro _ _ _ _ c3); [|exact Ht3| |done|].
  - unfold scope. rewrite (bind_Ok _ _ _ _ _ Hsn). unfold try, mbind at 1, M_bind. rewrite Hr.
    by rewrite (bind_Ok _ _ _ _ _ Hc).
  - intros a Hk. unfold known in *. rewrite Hs in Hk.
    pose proof (ts_below _ _ (tr_step _ _ _ _ Ht)) as Hb. rewrite Hs1 in Hb. simpl in Hb.
    destruct (wf_top c2 (ts_wf _ _ (tr_step _ _ _ _ Ht))) as (u & st2 & Hs2 & _). rewrite Hs2 in Hb. simpl in Hb. subst st2.
    rewrite Hs in Hc. change (length (d :: st)) with (length (set_isTop false d :: st)) in Hc.
    rewrite (Revert_spec c2 [u] (set_isTop false d) st) in Hc by done. by injection Hc as <-.
  - rewrite <- He. by apply noslot_proper, abs_proper.
Qed.

(** ** What a program writes

    [touches P m]: whatever [m] answers, it writes and marks keys of [P] only. *)
Section Touches.
Context (P : lkey → Prop).

Definition touches {V} (m : M (Ctx A E) V) : Prop := ∀ c, wf c → within P c (m c).2.

Lemma within_refl c : wf c → within P c c.
Proof. intros Hwf. exists [], []. split; [by apply trace_refl|done]. Qed.
Lemma within_trans c1 c2 c3 : within P c1 c2 → within P c2 c3 → within P c1 c3.
Proof.
  intros (W1 & M1 & H1 & G1 & G1') (W2 & M2 & H2 & G2 & G2').
  exists (W1 ++ W2), (M1 ++ M2). split; [by eapply trace_trans|]. by rewrite !Forall_app.
Qed.
Lemma within_wf c c' : within P c c' → wf c'.
Proof. intros (W & Mk & Ht & _). apply Ht. Qed.
Lemma within_marked c c' x : within P c c' → marked x c' → marked x c ∨ P x.
Proof.
  intros (W & Mk & Ht & _ & HM) Hx. destruct (tr_marked _ _ _ _ Ht x Hx) as [|Hin]; [by left|].
  right. rewrite Forall_forall in HM. by apply HM.
Qed.

Lemma touches_bind {V X} (m : M (Ctx A E) V) (f : V → M (Ctx A E) X) :
  touches m → (∀ v, touches (f v)) → touches (m ≫= f).
Proof.
  intros Hm Hf c Hwf. specialize (Hm c Hwf). unfold mbind, M_bind. destruct (m c) as [[v|e|] c1]; [|done..].
  eapply within_trans; [done|]. by apply Hf, within_wf with c.
Qed.
Lemma touches_ret {V} (v : V) : touches (mret v).
Proof. intros c. apply within_refl. Qed.
Lemma touches_fail {V} e : touches (fail e : M _ V).
Proof. intros c. apply within_refl. Qed.
Lemma touches_lift {V} (r : res V) : touches (lift r).
Proof. intros c. apply within_refl. Qed.
Lemma touches_guard b e : touches (guard_err b e).
Proof. destruct b; [apply touches_fail|apply touches_ret]. Qed.
Lemma touches_try {V} (m : M (Ctx A E) V) : touches m → touches (try m).
Proof. intros Hm c Hwf. specialize (Hm c Hwf). unfold try. by destruct (m c) as [[v|e|] c1]. Qed.
Lemma touches_fold {V X} (f : V → X → M (Ctx A E) V) v l : (∀ v x, touches (f v x)) → touches (fold_m f v l).
Proof. intros Hf. revert v. induction l as [|x l IH]; intros v; [apply touches_ret|]. by apply touches_bind. Qed.
Lemma touches_TargetHeight : touches TargetHeight.
Proof. intros c. apply within_refl. Qed.
Lemma touches_HasAccount a : touches (HasAccount a).
Proof. intros c. apply within_refl. Qed.
Lemma touches_ProcessData p n : valid_pid p → touches (ProcessData p n).
Proof.
  intros Hp c Hwf. destruct (trace_ProcessData c p n Hp Hwf) as (c' & -> & _ & Ht). by exists [], [].
Qed.
Lemma touches_AccountData a p n : valid_addr a → valid_pid p → touches (AccountData a p n).
Proof.
  intros Ha Hp c Hwf. destruct (trace_AccountData c a p n Ha Hp Hwf) as (c' & -> & _ & Ht). by exists [], [].
Qed.
Lemma touches_Account a : touches (Account a).
Proof. intros c Hwf. destruct (trace_Account c a Hwf) as (c' & -> & _ & Ht & _). by exists [], []. Qed.
Lemma touches_SetProcessData p n v :
  valid_pid p → P (LProcess (processDataKey p n)) → touches (SetProcessData p n v).
Proof.
  intros Hp HP c Hwf. destruct (trace_SetProcessData c p n v Hp Hwf) as (c' & -> & _ & Ht).
  eexists _, _. split; [exact Ht|]. unfold if_value, if_empty. destruct (nonempty v); by repeat constructor.
Qed.
Lemma touches_SetAccountData a p n v :
  valid_addr a → valid_pid p → P (LData (accountDataKey a p n)) → touches (SetAccountData a p n v).
Proof.
  intros Ha Hp HP c Hwf. destruct (trace_SetAccountData c a p n v Ha Hp Hwf) as (c' & -> & _ & Ht).
  eexists _, _. split; [exact Ht|]. unfold if_value, if_empty. destruct (nonempty v); by repeat constructor.
Qed.
End Touches.

(** Account data, and process data. *)
Definition is_data (x : lkey) : Prop := match x with LData _ => True | _ => False end.
Definition is_process (x : lkey) : Prop := match x with LProcess _ => True | _ => False end.

End DataRun.

Create HintDb touches.
#[export] Hint Resolve touches_bind touches_ret touches_fail touches_lift touches_guard touches_try touches_fold touches_TargetHeight touches_HasAccount
  touches_ProcessData touches_AccountData touches_Account touches_SetProcessData touches_SetAccountData : touches.


(** Chain the steps of a run. *)
Ltac chain := repeat first [eassumption | eapply leads_trans; [eassumption|]].
#[export] Hint Extern 1 (is_data _) => exact I : touches.
#[export] Hint Extern 1 (is_process _) => exact I : touches.
Ltac touch := repeat first [solve [auto with touches] | apply touches_bind; [|intros ?] | apply touches_try | case_match].
