(* ===== verification/VaultRun.v ===== *)
(** * process/vault: running its operations from other processes

    The processes that pay and charge through the vault ([process/formulator],
    [process/payment], [process/gateway]) see it as a ledger.  These rules run
    the operations of vault_method.go on the abstract state: what each answers
    and the ledger it leaves, the fee and the scope of [WithFee] included. *)

From S2P Require Import Prelude Amount Common Context ContextSpec ContextTrace Vault VaultSpec DataRun.

(** ** Sums of what is paid

    Entry [e] of a list pays [val e] to [to e]. *)
Definition received {X} (to : X → Address) (val : X → Z) (b : Address) (l : list X) : Z :=
  foldr (λ e n, (if decide (to e = b) then val e else 0) + n) 0 l.

Lemma received_perm {X} (to : X → Address) (val : X → Z) b l l' :
  l ≡ₚ l' → received to val b l = received to val b l'.
Proof. intros Hp. unfold received. apply (foldr_permutation eq); [apply _|intros; repeat case_decide; lia|done]. Qed.

Lemma received_nonneg {X} (to : X → Address) (val : X → Z) b l :
  Forall (λ e, 0 ≤ val e) l → 0 ≤ received to val b l.
Proof. induction 1; simpl; [done|]. case_decide; lia. Qed.

(** The sum of the values of a map. *)
Definition map_sum (m : gmap Address Z) : Z := map_fold (λ _, Z.add) 0 m.

Lemma amounts_sum_map m l : l ≡ₚ map_to_list m → foldr (λ (e : Address * Z) n, e.2 + n) 0 l = map_sum m.
Proof.
  intros Hp. unfold map_sum. rewrite map_fold_foldr.
  rewrite (foldr_permutation eq (λ (e : Address * Z) n, e.2 + n) 0 l (map_to_list m)); [|intros; lia|done].
  apply foldr_ext; [|done|done]. by intros [? ?].
Qed.

Lemma received_const a b (l : list (Address * Z)) :
  received (λ _, a) snd b l = if decide (a = b) then foldr (λ e n, e.2 + n) 0 l else 0.
Proof. unfold received. case_decide; induction l as [|e l IH]; simpl; rewrite ?IH; lia. Qed.

(** The payment of each key of a map. *)
Lemma received_keys {V} (D : gmap Address V) (val : V → Z) b l :
  l ≡ₚ map_to_list D → received fst (λ e, val e.2) b l = default 0 (val <$> D !! b).
Proof.
  intros Hp. rewrite (received_perm _ _ _ _ _ Hp). clear l Hp.
  induction D as [|a v D Ha IH] using map_ind; [by rewrite map_to_list_empty|].
  rewrite (received_perm _ _ _ _ _ (map_to_list_insert D a v Ha)). unfold received in *. simpl. rewrite IH.
  destruct (decide (a = b)) as [->|Hne]; [by rewrite lookup_insert_eq, Ha; simpl; lia|by rewrite lookup_insert_ne].
Qed.

Section VaultRun.
Context {A E : Type} `{AI : AccountI A} `{EI : EventI E} `{B58 : Base58}.
Context (pid : Z) (Hpid : valid_pid pid).
Implicit Types (c : Ctx A E) (s : Abs (A:=A)).

Lemma not_minus am : 0 ≤ am → Amount.Less am (Amount.NewCoinAmount 0 0) = false.
Proof. intros H. unfold Amount.Less. change (Amount.NewCoinAmount 0 0) with 0. apply Z.ltb_ge. lia. Qed.

Lemma does_Balance a c s : valid_addr a → at_state c s → does (Balance pid a) c (Ok (bal pid s a)) s.
Proof using Hpid. intros Ha Hat. exact (does_map _ amount_of _ _ _ (does_AccountData pid a tagBalance c s Hpid Ha Hat)). Qed.

Lemma does_AddBalance a am c s :
  valid_addr a → at_state c s → 0 ≤ am →
  does (AddBalance pid a am) c (Ok tt) (set_bal pid a (bal pid s a + am) s).
Proof using Hpid.
  intros Ha Hat Ham. unfold AddBalance. rewrite not_minus by done.
  eapply does_bind; [by apply does_guard_false|]. intros c1 Hc1.
  eapply does_bind; [by apply does_Balance|]. intros c2 Hc2.
  by apply does_SetAccountData.
Qed.

Lemma does_RemoveBalance a c s :
  valid_addr a → at_state c s → does (RemoveBalance pid a) c (Ok tt) (set_bal pid a 0 s).
Proof using Hpid. intros Ha Hat. by apply (does_SetAccountData pid a tagBalance []). Qed.

Lemma does_SubBalance a am c s :
  valid_addr a → at_state c s → am ≤ bal pid s a →
  does (SubBalance pid a am) c (Ok tt) (set_bal pid a (bal pid s a - am) s).
Proof using Hpid.
  intros Ha Hat Hle. unfold SubBalance. eapply does_bind; [by apply does_Balance|]. intros c1 Hc1.
  unfold Amount.Less. rewrite (proj2 (Z.ltb_ge _ _)) by lia.
  eapply does_bind; [by apply does_guard_false|]. intros c2 Hc2. unfold Amount.Sub, Amount.IsZero.
  destruct (Z.eqb_spec (bal pid s a - am) 0) as [->|Hne]; [by apply does_RemoveBalance|by apply does_SetAccountData].
Qed.

Lemma does_SubBalance_minus a am c s :
  valid_addr a → at_state c s → bal pid s a < am → does (SubBalance pid a am) c (Err ErrMinusBalance) s.
Proof using Hpid.
  intros Ha Hat Hlt. unfold SubBalance. eapply does_bind; [by apply does_Balance|]. intros c1 Hc1.
  unfold Amount.Less. rewrite (proj2 (Z.ltb_lt _ _)) by lia. by apply does_Err, does_guard_true.
Qed.

Lemma does_CollectedFee c s : at_state c s → does (CollectedFee pid) c (Ok (fees pid s)) s.
Proof using Hpid. intros Hat. exact (does_map _ amount_of _ _ _ (does_ProcessData pid tagCollectedFee c s Hpid Hat)). Qed.

Lemma does_AddCollectedFee am c s :
  at_state c s → 0 ≤ am → does (AddCollectedFee pid am) c (Ok tt) (set_fees pid (fees pid s + am) s).
Proof using Hpid.
  intros Hat Ham. unfold AddCollectedFee. rewrite not_minus by done.
  eapply does_bind; [by apply does_guard_false|]. intros c1 Hc1.
  eapply does_bind; [by apply does_CollectedFee|]. intros c2 Hc2. by apply does_SetProcessData.
Qed.

Lemma does_SubCollectedFee am c s :
  at_state c s → am ≤ fees pid s → does (SubCollectedFee pid am) c (Ok tt) (set_fees pid (fees pid s - am) s).
Proof using Hpid.
  intros Hat Hle. unfold SubCollectedFee. eapply does_bind; [by apply does_CollectedFee|]. intros c1 Hc1.
  unfold Amount.Less. rewrite (proj2 (Z.ltb_ge _ _)) by lia.
  eapply does_bind; [by apply does_guard_false|]. intros c2 Hc2. unfold Amount.Sub, Amount.IsZero.
  destruct (Z.eqb_spec (fees pid s - am) 0) as [->|Hne]; [|by apply does_SetProcessData].
  by apply (does_SetProcessData pid tagCollectedFee []).
Qed.

Lemma does_GetDefaultFee c s : at_state c s → does (GetDefaultFee pid) c (Ok (dfee pid s)) s.
Proof using Hpid.
  intros Hat. unfold GetDefaultFee, dfee. eapply does_bind; [by apply does_ProcessData|]. intros c1 Hc1.
  fold (pget pid s tagDefaultFee). unfold nonempty. destruct (pget pid s tagDefaultFee) as [|b bs]; [|by apply does_ret].
  by apply (does_lift _ (Ok tenth)).
Qed.

(** The charge of a fee, before the scope of [WithFee]. *)
Lemma does_charge from c s :
  valid_addr from → at_state c s → dfee pid s ≤ bal pid s from →
  does (charge_fee pid from (mret tt)) c (Ok tt) (charge pid from (dfee pid s) s).
Proof using Hpid.
  intros Ha Hat Hle. unfold charge_fee. eapply does_bind; [by apply does_GetDefaultFee|]. intros c1 Hc1.
  eapply does_bind; [by apply does_SubBalance|]. intros c2 Hc2.
  eapply does_bind; [by apply does_CollectedFee|]. intros c3 Hc3. rewrite fees_set_bal.
  eapply does_bind; [by apply does_SetProcessData|]. intros c4 Hc4. by apply does_ret.
Qed.

(** A body in [WithFee]: it runs on the charged ledger.  The body must not
    write what the charge or an earlier deletion has marked below the scope. *)
Lemma does_WithFee_within P from fn (Q : Abs → Prop) c s :
  valid_addr from → at_state c s → (∀ x, marked x c → ¬ P x) →
  dfee pid s ≤ bal pid s from → (∀ x, x ∈ charge_marks pid from (dfee pid s) s → ¬ P x) →
  (∀ c1, at_state c1 (charge pid from (dfee pid s) s) → genTargetHeight c1 = genTargetHeight c →
     ∃ s', does fn c1 (Ok tt) s' ∧ within P c1 (fn c1).2 ∧ Q s') →
  ∃ s', does (WithFee pid from (GetDefaultFee pid) fn) c (Ok tt) s' ∧ Q s'.
Proof using Hpid.
  intros Ha Hat Hu Hle Hmk Hfn.
  destruct (does_charge from c s Ha Hat Hle) as (c1 & Hr & Hl & Hat1).
  assert (Hd : dfee pid (abs c) = dfee pid s) by (apply dfee_proper; [done|apply Hat]).
  assert (Hb : bal pid (abs c) from = bal pid s from) by (apply bal_proper; [done|done|apply Hat]).
  assert (Hf : fees pid (abs c) = fees pid s) by (apply fees_proper; [done|apply Hat]).
  destruct (run_charge pid Hpid from c Ha (at_wf _ _ Hat)) as (c1' & Hr' & _ & Ht); [lia|].
  rewrite Hr in Hr'. injection Hr' as <-.
  assert (Hu1 : ∀ x, marked x c1 → ¬ P x).
  { intros x Hx. destruct (tr_marked _ _ _ _ Ht x Hx) as [Hm|Hm]; [by apply (Hu x)|].
    apply Hmk. unfold charge_marks in *. by rewrite Hd, Hb, Hf in Hm. }
  assert (Hh : genTargetHeight c1 = genTargetHeight c) by (apply (tr_step _ _ _ _ Ht)).
  destruct (does_scope_within P fn Q c1 (charge pid from (dfee pid s) s)) as (s' & (c2 & Hr2 & Hl2 & Hat2) & HQ); [done|done| |].
  { intros c2 Hc2 Hh2. apply Hfn; [done|congruence]. }
  exists s'. split; [|done].
  exists c2. split; [|split; [by eapply leads_trans|done]]. by rewrite (WithFee_split pid from fn c c1 Hr).
Qed.

(** A body that may write anything: nothing is marked, and the charge does
    not empty the balance. *)
Lemma does_WithFee from fn (Q : Abs → Prop) c s :
  valid_addr from → at_state c s → unmarked c → 0 < dfee pid s → 0 ≤ fees pid s → dfee pid s < bal pid s from →
  (∀ c1, at_state c1 (charge pid from (dfee pid s) s) → genTargetHeight c1 = genTargetHeight c →
     ∃ s', does fn c1 (Ok tt) s' ∧ Q s') →
  ∃ s', does (WithFee pid from (GetDefaultFee pid) fn) c (Ok tt) s' ∧ Q s'.
Proof using Hpid.
  intros Ha Hat Hu Hfee Hfees Hlt Hfn. apply (does_WithFee_within (λ _, True) from fn Q c s); try done.
  { intros x Hx. by destruct (Hu x). }
  { lia. }
  { unfold charge_marks. intros x [Hm|Hm]%elem_of_app; apply elem_of_if_empty in Hm as [_ Hm]; exfalso; lia. }
  intros c1 Hc1 Hh. destruct (Hfn c1 Hc1 Hh) as (s' & Hd & HQ). exists s'. split_and!; [done| |done].
  destruct Hd as (c2 & -> & [(W & Mk & Ht) _] & _). exists W, Mk. split_and!; [done|by apply Forall_true..].
Qed.

Lemma does_CheckFeePayable from c s :
  valid_addr from → at_state c s → abs_HasAccount s from = Ok true →
  does (CheckFeePayable pid from (GetDefaultFee pid)) c
    (if decide (bal pid s from < dfee pid s) then Err ErrInsufficientFee else Ok tt) s.
Proof using Hpid.
  intros Ha Hat Hhas. unfold CheckFeePayable, CheckFeePayableWith.
  eapply does_bind; [by apply does_HasAccount|]. intros c1 Hc1.
  eapply does_bind; [by apply does_guard_false|]. intros c2 Hc2.
  eapply does_bind; [by apply does_GetDefaultFee|]. intros c3 Hc3.
  eapply does_bind; [by apply does_Balance|]. intros c4 Hc4. unfold Amount.Less.
  case_decide as Hd; [rewrite (proj2 (Z.ltb_lt _ _)) by lia|rewrite (proj2 (Z.ltb_ge _ _)) by lia];
    [by apply does_guard_true|by apply does_guard_false].
Qed.

(** *** Payments *)

(** [s'] is [s] with other balances. *)
Record ledger_only s s' : Prop := {
  lo_account : ∀ a, abs_Account s' a = abs_Account s a;
  lo_has : ∀ a, abs_HasAccount s' a = abs_HasAccount s a;
  lo_process : ∀ q n, pget q s' n = pget q s n;
  lo_data : ∀ q a n, q ≠ pid ∨ n ≠ tagBalance → aget q s' a n = aget q s a n;
}.
Lemma ledger_only_refl s : ledger_only s s.
Proof. by split. Qed.
Lemma ledger_only_trans s1 s2 s3 : ledger_only s1 s2 → ledger_only s2 s3 → ledger_only s1 s3.
Proof. intros [H1 H2 H3 H4] [G1 G2 G3 G4]. split; intros; by rewrite ?G1, ?G2, ?G3, ?G4, ?H1, ?H2, ?H3, ?H4. Qed.
Lemma ledger_only_set_bal a x s : ledger_only s (set_bal pid a x s).
Proof.
  split; try done. intros q b n Hn. change (set_bal pid a x s) with (aset pid a tagBalance (Amount.Bytes x) s).
  destruct (decide (q = pid)) as [->|Hq]; [|by rewrite aget_aset_ne]. rewrite aget_aset, decide_False by naive_solver. done.
Qed.

(** [s'] is [s] with [am] paid to [a]. *)
Definition pays (a : Address) (am : Z) s s' : Prop :=
  ledger_only s s' ∧ ∀ b, bal pid s' b = bal pid s b + if decide (a = b) then am else 0.

Lemma pays_set_bal a am s : 0 ≤ bal pid s a + am → pays a am s (set_bal pid a (bal pid s a + am) s).
Proof.
  intros Hge. split; [apply ledger_only_set_bal|]. intros b. rewrite bal_set_bal by done.
  destruct (decide (b = a)) as [->|Hne]; [by rewrite decide_True|]. rewrite decide_False by congruence. lia.
Qed.

(** Payments one after the other: entry [e] pays [val e] to [to e]. *)
Section Payments.
Context {X : Type} (to : X → Address) (val : X → Z).

(** A loop that pays, with a variable [v] of its own. *)
Lemma does_pay_fold {V} (pay : V → X → M (Ctx A E) V) (l : list X) v c s :
  (∀ v e c' s', e ∈ l → at_state c' s' → (∀ a, 0 ≤ bal pid s' a) → ledger_only s s' →
     ∃ v' s'', does (pay v e) c' (Ok v') s'' ∧ pays (to e) (val e) s' s'') →
  at_state c s → Forall (λ e, 0 ≤ val e) l → (∀ a, 0 ≤ bal pid s a) →
  ∃ v' s', does (fold_m pay v l) c (Ok v') s' ∧ ledger_only s s' ∧ ∀ b, bal pid s' b = bal pid s b + received to val b l.
Proof.
  revert v c s. induction l as [|e l IH]; intros v c s Hpay Hat Hl Hb.
  { exists v, s. split_and!; [by apply does_ret|apply ledger_only_refl|]. intros b. simpl. lia. }
  apply Forall_cons in Hl as [He Hl].
  destruct (Hpay v e c s) as (v1 & s1 & (c1 & Hr1 & Hl1 & Hat1) & Hlo1 & Hb1); [by constructor|done|done|apply ledger_only_refl|].
  destruct (IH v1 c1 s1) as (v' & s' & (c2 & Hr2 & Hl2 & Hat2) & Hlo & Hbal).
  - intros v0 e' c' s' Hin Hc' Hb' Hlo'. apply Hpay; [by constructor|done|done|by eapply ledger_only_trans].
  - done.
  - done.
  - intros a. rewrite Hb1. specialize (Hb a). case_decide; lia.
  - exists v', s'. split_and!.
    + exists c2. split; [|split; [chain|done]]. simpl. by rewrite (bind_Ok _ _ _ _ _ Hr1).
    + by eapply ledger_only_trans.
    + intros b. rewrite Hbal, Hb1. simpl. lia.
Qed.

Lemma for_each_fold {S} (f : X → M S unit) l (c : S) : for_each f l c = fold_m (λ _, f) tt l c.
Proof.
  revert c. induction l as [|e l IH]; intros c; [done|]. simpl. unfold mbind, M_bind.
  destruct (f e c) as [[[]|e0|] c']; [apply IH|done|done].
Qed.

Lemma does_pay_each (pay : X → M (Ctx A E) unit) (l : list X) c s :
  (∀ e c' s', e ∈ l → at_state c' s' → (∀ a, 0 ≤ bal pid s' a) →
     ∃ s'', does (pay e) c' (Ok tt) s'' ∧ pays (to e) (val e) s' s'') →
  at_state c s → Forall (λ e, 0 ≤ val e) l → (∀ a, 0 ≤ bal pid s a) →
  ∃ s', does (for_each pay l) c (Ok tt) s' ∧ ledger_only s s' ∧ ∀ b, bal pid s' b = bal pid s b + received to val b l.
Proof.
  intros Hpay Hat Hl Hb. destruct (does_pay_fold (λ _, pay) l tt c s) as ([] & s' & (c' & Hr & H) & Hlo & Hbal); try done.
  - intros _ e c0 s0 Hin Hc0 Hb0 _. destruct (Hpay e c0 s0) as (s1 & Hd & Hp); try done. by exists tt, s1.
  - exists s'. split; [|done]. exists c'. split; [by rewrite for_each_fold|done].
Qed.
End Payments.

(** ** Guards of the transactions *)

Lemma does_AdminAddress admin_pid name adm c s :
  valid_pid admin_pid → at_state c s → pget admin_pid s (toAdminAddressKey name) = adm → valid_addr adm →
  does (AdminAddress admin_pid name) c (Ok adm) s.
Proof.
  intros Hp Hat Hadm Hv. unfold AdminAddress. eapply does_bind; [by apply does_ProcessData|]. intros c1 Hc1.
  rewrite Hadm, Hv. simpl. rewrite copy_addr by done. by apply does_ret.
Qed.

Lemma does_must_exist to c s : at_state c s → abs_HasAccount s to = Ok true → does (must_exist to) c (Ok tt) s.
Proof.
  intros Hat Hh. unfold must_exist. eapply does_bind; [by eapply does_HasAccount|]. intros c1 Hc1. by apply does_ret.
Qed.

Lemma does_validate_signers from acc signers r c s :
  at_state c s → abs_Account s from = Ok acc → acc_Validate acc signers = r →
  does (validate_signers from signers) c r s.
Proof.
  intros Hat Ha Hr. unfold validate_signers. eapply does_bind; [by eapply does_Account|]. intros c1 Hc1.
  rewrite <- Hr. by apply does_lift.
Qed.

(** One account pays another. *)
Lemma does_move from to am c s :
  valid_addr from → valid_addr to → at_state c s → 0 ≤ am ≤ bal pid s from →
  does (SubBalance pid from am ;; AddBalance pid to am) c (Ok tt) (move pid from to am s).
Proof using Hpid.
  intros Hf Ht Hat Ham. eapply does_bind; [apply does_SubBalance; [done|done|lia]|]. intros c1 Hc1.
  apply does_AddBalance; [done|done|lia].
Qed.

Lemma ledger_only_move from to am s : ledger_only s (move pid from to am s).
Proof. eapply ledger_only_trans; apply ledger_only_set_bal. Qed.

End VaultRun.

(** Run one call of a body whose result is known. *)
Ltac run H := eapply does_bind; [eapply H; eauto; fail|intros ? ?].
