(* ===== verification/ExampleState.v ===== *)
(** * States of the examples

    A chain state given by tables: the accounts, the data of accounts and the
    data of processes that a loader answers.  The witnesses of the processes
    start from such a state. *)

From S2P Require Import Prelude Tokens Amount Common Context ContextSpec ContextTrace DataRun.

Fixpoint assoc {K V} `{EqDecision K} (k : K) (l : list (K * V)) : option V :=
  match l with [] => None | (k', v) :: l => if decide (k = k') then Some v else assoc k l end.

Lemma assoc_ne {K V} `{EqDecision K} (k k' : K) (v : V) l : k ≠ k' → assoc k ((k', v) :: l) = assoc k l.
Proof. intros Hk. simpl. by rewrite decide_False. Qed.

(** A struct as the list of its fields. *)
Definition list_codec {T} (put : T → list Z) (get : list Z → option T) : Codec T := {|
  marshal p := Ok (match p with Some p => put p | None => [] end);
  unmarshal bs := match get bs with Some p => Ok (Some p) | None => Err (ErrExternal 1) end |}.

Section Tables.
Context {A E : Type} `{AI : AccountI A} `{EI : EventI E} `{B58 : Base58}.

Definition table_loader (height : Z) (accounts : list (Address * A))
    (account_data : list ((Address * Z * bytes) * bytes)) (process_data : list ((Z * bytes) * bytes)) : Loader A := {|
  ld_ChainID := 1; ld_Name := []; ld_Version := 1; ld_TargetHeight := height;
  ld_LastHash := []; ld_LastTimestamp := 0;
  ld_Account a := match assoc a accounts with Some acc => Ok acc | None => Err ErrNotExistAccount end;
  ld_AddressByName _ := Err ErrNotExistAccount;
  ld_HasAccount a := Ok (bool_decide (is_Some (assoc a accounts))); ld_HasAccountName _ := Ok false;
  ld_AccountData a p n := default [] (assoc (a, p, n) account_data);
  ld_HasUTXO _ := Ok false; ld_UTXO _ := Err ErrNotExistUTXO;
  ld_ProcessData p n := default [] (assoc (p, n) process_data); ld_HasTimeSlot _ _ := false |}.

Lemma table_at h accounts ad pd :
  at_state (NewContext (E:=E) (table_loader h accounts ad pd)) (abs (NewContext (E:=E) (table_loader h accounts ad pd))).
Proof.
  split; [|done|done]. apply NewContext_wf. split; cbn [table_loader ld_Account ld_HasAccount]; intros; [|done].
  destruct (assoc addr accounts) eqn:E0; simplify_eq. by rewrite bool_decide_eq_true_2 by eauto.
Qed.

End Tables.
