(* ===== verification/Numbered.v ===== *)
(** * Numbered tables of addresses

    The processes keep sets of addresses in the data of the chain in one
    form: a count, the address of each number, and the number of each
    address.  A new address gets the next number; an address that leaves gives
    its number to the last one.  The staking amounts of a hyper formulator,
    the formulators and the unstaking amounts that are due at a height, and
    the block counts of the generators all use it, each with its own keys in
    account or process data.

    The theorem of this file says that such a table is a list of distinct
    addresses, and what entering, leaving and flushing do to the list. *)

From S2P Require Import Prelude Amount Common Context ContextSpec ContextTrace Vault VaultSpec DataRun.

(** Where a table lives. *)
Record DataSpace (A E : Type) := mkSpace {
  ds_get : bytes → M (Ctx A E) bytes;
  ds_set : bytes → bytes → M (Ctx A E) unit;
}.
Arguments mkSpace {A E} _ _.
Arguments ds_get {A E} _ _.
Arguments ds_set {A E} _ _ _.

(** The keys of a table. *)
Record NumberKeys := mkKeys {
  nk_number : Address → bytes;
  nk_reverse : Z → bytes;
  nk_count : bytes;
}.

Section Numbered.
Context {A E : Type} `{AI : AccountI A} `{EI : EventI E} `{B58 : Base58}.

Definition process_space (pid : Z) : DataSpace A E := mkSpace (ProcessData pid) (SetProcessData pid).
Definition account_space (addr : Address) (pid : Z) : DataSpace A E :=
  mkSpace (AccountData addr pid) (SetAccountData addr pid).

Context (ds : DataSpace A E) (k : NumberKeys).

(** [var Count uint32; if bs := ...; len(bs) > 0 { Count = Uint32(bs) }]. *)
Definition nt_Count : M (Ctx A E) Z :=
  bs ← ds_get ds (nk_count k);
  lift (if nonempty bs then LittleEndian_Uint32 bs else Ok 0).

(** [if ns := ...; len(ns) == 0 { ... }]: give the address the next number. *)
Definition nt_enter (addr : Address) : M (Ctx A E) unit :=
  ns ← ds_get ds (nk_number k addr);
  if (length ns =? 0)%nat then
    Count ← nt_Count;
    ds_set ds (nk_number k addr) (LittleEndian_Uint32ToBytes Count) ;;
    ds_set ds (nk_reverse k Count) addr ;;
    let Count := u32 (Count + 1) in
    ds_set ds (nk_count k) (LittleEndian_Uint32ToBytes Count)
  else mret tt.

(** Take the address with number [ns] out; the last one moves to its place. *)
Definition nt_leave (addr : Address) (ns : bytes) : M (Ctx A E) unit :=
  Count ← nt_Count;
  Number ← lift (LittleEndian_Uint32 ns);
  (if negb (Number =? u32 (Count - 1)) then
     bs ← ds_get ds (nk_reverse k (u32 (Count - 1)));
     let swapAddr := copy emptyAddr bs in
     ds_set ds (nk_reverse k Number) swapAddr ;;
     ds_set ds (nk_number k swapAddr) (LittleEndian_Uint32ToBytes Number)
   else mret tt) ;;
  ds_set ds (nk_number k addr) [] ;;
  ds_set ds (nk_reverse k (u32 (Count - 1))) [] ;;
  let Count := u32 (Count - 1) in
  if Count =? 0 then ds_set ds (nk_count k) []
  else ds_set ds (nk_count k) (LittleEndian_Uint32ToBytes Count).

(** One turn of a loop over the table that also empties it; [take] is what
    the loop does with the address. *)
Definition nt_flush_step {V} (take : V → Address → M (Ctx A E) V) (m : V) (i : nat) : M (Ctx A E) V :=
  bs ← ds_get ds (nk_reverse k (Z.of_nat i));
  let addr := copy emptyAddr bs in
  m ← take m addr;
  ds_set ds (nk_number k addr) [] ;;
  ds_set ds (nk_reverse k (Z.of_nat i)) [] ;;
  mret m.

Definition nt_flush {V} (take : V → Address → M (Ctx A E) V) (m : V) : M (Ctx A E) V :=
  bs ← ds_get ds (nk_count k);
  if nonempty bs then
    Count ← lift (LittleEndian_Uint32 bs);
    m ← fold_m (nt_flush_step take) m (seq 0 (Z.to_nat Count));
    ds_set ds (nk_count k) [] ;;
    mret m
  else mret m.

(** A loop over the table that leaves it as it is. *)
Definition nt_collect {V} (take : V → Address → M (Ctx A E) V) (m : V) : M (Ctx A E) V :=
  bs ← ds_get ds (nk_count k);
  if nonempty bs then
    Count ← lift (LittleEndian_Uint32 bs);
    fold_m (λ m i, bs ← ds_get ds (nk_reverse k (Z.of_nat i)); take m (copy emptyAddr bs)) m (seq 0 (Z.to_nat Count))
  else mret m.

End Numbered.

(** ** The table as a list *)

(** What the code relies on of a space: it is a map of names to values. *)
Record SpaceLaws {A E} `{AI : AccountI A} (ds : DataSpace A E)
    (kget : Abs (A:=A) → bytes → bytes) (kset : bytes → bytes → Abs (A:=A) → Abs (A:=A)) : Prop := {
  sl_get : ∀ n c s, at_state c s → does (ds_get ds n) c (Ok (kget s n)) s;
  sl_set : ∀ n v c s, at_state c s → does (ds_set ds n v) c (Ok tt) (kset n v s);
  sl_get_set : ∀ n v s m, kget (kset n v s) m = if decide (m = n) then v else kget s m;
}.

(** Keys that do not collide. *)
Record KeysLaws (k : NumberKeys) : Prop := {
  kl_number : ∀ a b, nk_number k a = nk_number k b → a = b;
  kl_reverse : ∀ i j, is_u32 i → is_u32 j → nk_reverse k i = nk_reverse k j → i = j;
  kl_number_reverse : ∀ a i, nk_number k a ≠ nk_reverse k i;
  kl_number_count : ∀ a, nk_number k a ≠ nk_count k;
  kl_reverse_count : ∀ i, nk_reverse k i ≠ nk_count k;
}.

(** The list without its [i]-th element; the last one takes the place. *)
Definition swap_remove (i : nat) (L : list Address) : list Address :=
  match last L with
  | Some b => if (S i =? length L)%nat then removelast L else <[i := b]> (removelast L)
  | None => []
  end.

Lemma swap_remove_snoc i L b :
  swap_remove i (L ++ [b]) = if decide (i = length L) then L else <[i := b]> L.
Proof.
  unfold swap_remove. rewrite last_snoc, removelast_last, length_app. cbn [length].
  destruct (decide (i = length L)) as [->|Hne].
  - by rewrite (proj2 (Nat.eqb_eq _ _)) by lia.
  - by rewrite (proj2 (Nat.eqb_neq _ _)) by lia.
Qed.

Lemma elem_of_insert_snoc (L : list Address) i a b x :
  NoDup (L ++ [b]) → L !! i = Some a → x ∈ <[i := b]> L ↔ x ∈ L ++ [b] ∧ x ≠ a.
Proof.
  intros Hnd Hi. assert (Hlt : (i < length L)%nat) by (by eapply lookup_lt_Some).
  assert (Hab : a ≠ b).
  { intros ->. apply NoDup_app in Hnd as (_ & Hd & _). apply (Hd b); [by eapply list_elem_of_lookup_2|by constructor]. }
  rewrite elem_of_app, list_elem_of_singleton. split.
  - intros [j Hj]%list_elem_of_lookup_1. destruct (decide (j = i)) as [->|Hne].
    + rewrite list_lookup_insert_eq in Hj by done. simplify_eq. auto.
    + rewrite list_lookup_insert_ne in Hj by done. split; [left; by eapply list_elem_of_lookup_2|].
      intros ->. apply Hne. apply NoDup_app in Hnd as (Hnd & _ & _). by eapply NoDup_lookup.
  - intros [[[j Hj]%list_elem_of_lookup_1| ->] Hx].
    + apply (list_elem_of_lookup_2 _ j). rewrite list_lookup_insert_ne; [done|]. intros ->. congruence.
    + apply (list_elem_of_lookup_2 _ i). by apply list_lookup_insert_eq.
Qed.

Lemma elem_of_swap_remove i L a x :
  NoDup L → L !! i = Some a → x ∈ swap_remove i L ↔ x ∈ L ∧ x ≠ a.
Proof.
  intros Hnd Hi. destruct L as [|b L _] using rev_ind; [done|]. rewrite swap_remove_snoc.
  apply lookup_app_Some in Hi as [Hi|[Hle Hi]].
  - rewrite decide_False by (apply lookup_lt_Some in Hi; lia). by apply elem_of_insert_snoc.
  - apply list_lookup_singleton_Some in Hi as [Hi <-]. rewrite decide_True by lia.
    rewrite elem_of_app, list_elem_of_singleton. apply NoDup_app in Hnd as (_ & Hd & _).
    split; [|naive_solver]. intros Hx. split; [by left|]. intros ->. apply (Hd _ Hx). by constructor.
Qed.

Lemma NoDup_swap_remove i L a : NoDup L → L !! i = Some a → NoDup (swap_remove i L).
Proof.
  intros Hnd Hi. destruct L as [|b L _] using rev_ind; [done|]. rewrite swap_remove_snoc.
  pose proof Hnd as (HndL & Hd & _)%NoDup_app. case_decide; [done|].
  apply lookup_app_Some in Hi as [Hi|[Hle Hi]]; [|apply list_lookup_singleton_Some in Hi as [Hi _]; lia].
  assert (Hlt : (i < length L)%nat) by (by eapply lookup_lt_Some).
  assert (HbL : b ∉ L) by (intros Hb; apply (Hd b Hb); by constructor).
  apply NoDup_alt. intros j1 j2 x H1 H2.
  apply list_lookup_insert_Some in H1 as [(<- & <- & _)|[Hn1 H1]], H2 as [(<- & E2 & _)|[Hn2 H2]] || idtac.
  all: try apply list_lookup_insert_Some in H2 as [(<- & E2 & _)|[Hn2 H2]]; try done; subst.
  - by apply list_elem_of_lookup_2 in H2.
  - by apply list_elem_of_lookup_2 in H1.
  - by eapply NoDup_lookup.
Qed.

Lemma length_swap_remove i L a : L !! i = Some a → length (swap_remove i L) = (length L - 1)%nat.
Proof.
  intros Hi. destruct L as [|b L _] using rev_ind; [done|]. rewrite swap_remove_snoc, length_app. cbn [length].
  case_decide; rewrite ?length_insert; lia.
Qed.

(** A list of the keys of a map: its length, and collecting their values. *)
Lemma length_keys {X} (m : gmap Address X) (L : list Address) :
  NoDup L → (∀ a, a ∈ L ↔ is_Some (m !! a)) → length L = size m.
Proof.
  intros Hnd HL. rewrite <- size_dom, <- (size_list_to_set (C:=gset Address) L) by done.
  f_equal. apply set_eq. intros a. by rewrite elem_of_list_to_set, elem_of_dom, HL.
Qed.

Lemma lookup_collect {X} (g : Address → X) (L : list Address) (r : gmap Address X) b :
  foldl (λ r a, <[a := g a]> r) r L !! b = if decide (b ∈ L) then Some (g b) else r !! b.
Proof.
  revert r. induction L as [|a L IH]; intros r; [done|]. simpl. rewrite IH. destruct (decide (b = a)) as [->|Hne].
  - rewrite (decide_True (P:=a ∈ a :: L)) by constructor. case_decide; [done|]. apply lookup_insert_eq.
  - rewrite lookup_insert_ne by done. destruct (decide (b ∈ L)) as [Hin|Hin].
    + by rewrite decide_True by (by constructor).
    + by rewrite decide_False by (rewrite elem_of_cons; naive_solver).
Qed.

Lemma collect_map {X} (m : gmap Address X) (g : Address → X) (L : list Address) :
  (∀ a, a ∈ L ↔ is_Some (m !! a)) → (∀ a x, m !! a = Some x → g a = x) →
  foldl (λ r a, <[a := g a]> r) ∅ L = m.
Proof.
  intros HL Hg. apply map_eq. intros b. rewrite lookup_collect. case_decide as Hin; rewrite HL in Hin.
  - destruct Hin as [x Hx]. by rewrite Hx, (Hg b x Hx).
  - rewrite lookup_empty. symmetry. by apply eq_None_not_Some.
Qed.

Section NumberedSpec.
Context {A E : Type} `{AI : AccountI A} `{EI : EventI E} `{B58 : Base58}.
Context (ds : DataSpace A E) (k : NumberKeys).
Context (kget : Abs (A:=A) → bytes → bytes) (kset : bytes → bytes → Abs (A:=A) → Abs (A:=A)).
Context (SL : SpaceLaws ds kget kset) (KL : KeysLaws k).
Implicit Types (c : Ctx A E) (s : Abs (A:=A)) (L : list Address).

(** [L] lists the addresses in the table, by number. *)
Record numbered L s : Prop := {
  nb_valid : Forall valid_addr L;
  nb_nodup : NoDup L;
  nb_len : Z.of_nat (length L) < 2 ^ 32;
  nb_count : kget s (nk_count k)
             = if decide (L = []) then [] else LittleEndian_Uint32ToBytes (Z.of_nat (length L));
  nb_reverse : ∀ i a, L !! i = Some a → kget s (nk_reverse k (Z.of_nat i)) = a;
  nb_number : ∀ i a, L !! i = Some a → kget s (nk_number k a) = LittleEndian_Uint32ToBytes (Z.of_nat i);
  nb_absent : ∀ a, valid_addr a → a ∉ L → kget s (nk_number k a) = [];
}.

(** The keys of the table, and states that differ in them only. *)
Definition table_key (n : bytes) : Prop :=
  (∃ a, n = nk_number k a) ∨ (∃ i, n = nk_reverse k i) ∨ n = nk_count k.
Inductive wrote s : Abs → Prop :=
  | wrote_refl : wrote s s
  | wrote_set s' n v : wrote s s' → table_key n → wrote s (kset n v s').

Lemma wrote_inv {X} (f : Abs → X) s s' :
  (∀ n v s, table_key n → f (kset n v s) = f s) → wrote s s' → f s' = f s.
Proof. intros Hf. induction 1 as [|s' n v _ IH Hn]; [done|]. by rewrite Hf. Qed.

Lemma wrote_trans s1 s2 s3 : wrote s1 s2 → wrote s2 s3 → wrote s1 s3.
Proof. intros H12. induction 1; [done|]. by constructor. Qed.

Lemma key_number a : table_key (nk_number k a).
Proof. left. eauto. Qed.
Lemma key_reverse i : table_key (nk_reverse k i).
Proof. right; left. eauto. Qed.
Lemma key_count : table_key (nk_count k).
Proof. by right; right. Qed.
#[local] Hint Resolve key_number key_reverse key_count : core.

(** The answer of a key after writes to keys of the table. *)
Local Ltac key_apart :=
  let E0 := fresh in intros E0;
  first [by apply (kl_number_reverse _ KL) in E0 | by apply (kl_number_count _ KL) in E0
        | by apply (kl_reverse_count _ KL) in E0 | symmetry in E0;
          first [by apply (kl_number_reverse _ KL) in E0 | by apply (kl_number_count _ KL) in E0
                | by apply (kl_reverse_count _ KL) in E0] ].
Local Ltac keys :=
  rewrite ?(sl_get_set _ _ _ SL);
  repeat match goal with
  | |- context [decide (?x = ?y)] =>
      first [ rewrite (decide_True (P:=x = y)) by reflexivity
            | rewrite (decide_False (P:=x = y)) by key_apart ]
  end.

Lemma number_if {X} a b (x y : X) :
  (if decide (nk_number k a = nk_number k b) then x else y) = if decide (a = b) then x else y.
Proof using KL.
  destruct (decide (a = b)) as [->|Hne]; [by rewrite decide_True|].
  rewrite decide_False; [done|]. by intros ?%(kl_number _ KL).
Qed.
Lemma reverse_if {X} (i j : nat) (x y : X) :
  Z.of_nat i < 2 ^ 32 → Z.of_nat j < 2 ^ 32 →
  (if decide (nk_reverse k (Z.of_nat i) = nk_reverse k (Z.of_nat j)) then x else y) = if decide (i = j) then x else y.
Proof using KL.
  intros Hi Hj. destruct (decide (i = j)) as [->|Hne]; [by rewrite decide_True|].
  rewrite decide_False; [done|]. intros E0%(kl_reverse _ KL); unfold is_u32; lia.
Qed.

(** *** Entering *)

Definition entered L (a : Address) s : Abs :=
  kset (nk_count k) (LittleEndian_Uint32ToBytes (Z.of_nat (S (length L))))
    (kset (nk_reverse k (Z.of_nat (length L))) a
      (kset (nk_number k a) (LittleEndian_Uint32ToBytes (Z.of_nat (length L))) s)).

Lemma numbered_entered L a s :
  numbered L s → valid_addr a → a ∉ L → Z.of_nat (length L) + 1 < 2 ^ 32 → numbered (L ++ [a]) (entered L a s).
Proof using SL KL.
  intros [Hv Hnd Hl Hc Hr Hn Ha] Hva Hna Hlen. unfold entered. split.
  - apply Forall_app. auto.
  - apply NoDup_app. split_and!; [done| |apply NoDup_singleton]. by intros x Hx ->%list_elem_of_singleton.
  - rewrite length_app. simpl. lia.
  - keys. rewrite decide_False by (by destruct L). rewrite length_app. simpl. do 2 f_equal. lia.
  - intros i x Hi. assert (Hlt : (i < length (L ++ [a]))%nat) by (by eapply lookup_lt_Some).
    rewrite length_app in Hlt. simpl in Hlt. keys. rewrite reverse_if by lia.
    apply lookup_app_Some in Hi as [Hi|[Hle Hi]].
    + rewrite decide_False by (apply lookup_lt_Some in Hi; lia). by apply Hr.
    + apply list_lookup_singleton_Some in Hi as [Hi <-]. by rewrite decide_True by lia.
  - intros i x Hi. keys. rewrite number_if. apply lookup_app_Some in Hi as [Hi|[Hle Hi]].
    + rewrite decide_False; [by apply Hn|]. intros ->. by destruct Hna; eapply list_elem_of_lookup_2.
    + apply list_lookup_singleton_Some in Hi as [Hi <-]. rewrite decide_True by done. do 2 f_equal. lia.
  - intros x Hx Hnx. rewrite not_elem_of_app, list_elem_of_singleton in Hnx. destruct Hnx as [Hnx Hxa].
    keys. rewrite number_if, decide_False by done. by apply Ha.
Qed.

Lemma does_Count L c s :
  at_state c s → numbered L s → does (nt_Count ds k) c (Ok (Z.of_nat (length L))) s.
Proof using SL.
  intros Hat Hnb. unfold nt_Count. eapply does_bind; [by apply (sl_get _ _ _ SL)|]. intros c1 Hc1.
  rewrite (nb_count _ _ Hnb). eapply eq_ind_r with (P := λ r, does (lift r) c1 (Ok _) s); [by apply does_lift|].
  destruct (decide (L = [])) as [->|Hne]; [done|].
  unfold nonempty, LittleEndian_Uint32ToBytes. rewrite length_le_bytes. simpl.
  apply LittleEndian_Uint32_roundtrip. pose proof (nb_len _ _ Hnb). unfold is_u32. lia.
Qed.

Lemma nonempty_Uint32ToBytes n : (length (LittleEndian_Uint32ToBytes n) =? 0)%nat = false.
Proof. unfold LittleEndian_Uint32ToBytes. by rewrite length_le_bytes. Qed.

Lemma does_enter L a c s :
  at_state c s → numbered L s → valid_addr a → Z.of_nat (length L) + 1 < 2 ^ 32 →
  ∃ s', does (nt_enter ds k a) c (Ok tt) s' ∧ numbered (if decide (a ∈ L) then L else L ++ [a]) s' ∧ wrote s s'.
Proof using SL KL.
  intros Hat Hnb Ha Hlen. unfold nt_enter. destruct (decide (a ∈ L)) as [Hin|Hnin].
  - exists s. split_and!; [|done|constructor].
    eapply does_bind; [by apply (sl_get _ _ _ SL)|]. intros c1 Hc1.
    apply list_elem_of_lookup_1 in Hin as [i Hi]. rewrite (nb_number _ _ Hnb _ _ Hi), nonempty_Uint32ToBytes.
    by apply does_ret.
  - exists (entered L a s). split_and!; [|by apply numbered_entered|unfold entered; repeat first [apply wrote_refl | apply wrote_set; [|auto]]].
    eapply does_bind; [by apply (sl_get _ _ _ SL)|]. intros c1 Hc1. rewrite (nb_absent _ _ Hnb a) by done.
    cbn [length]. change (0 =? 0)%nat with true. cbv iota.
    eapply does_bind; [by apply does_Count|]. intros c2 Hc2. unfold entered.
    eapply does_bind; [by apply (sl_set _ _ _ SL)|]. intros c3 Hc3.
    eapply does_bind; [by apply (sl_set _ _ _ SL)|]. intros c4 Hc4.
    replace (u32 (Z.of_nat (length L) + 1)) with (Z.of_nat (S (length L)))
      by (rewrite u32_small by (unfold is_u32; lia); lia).
    by apply (sl_set _ _ _ SL).
Qed.

(** *** Leaving *)

(** The state after the [i]-th address [a] of [L ++ [b]] has left. *)
Definition left_ L (b : Address) (i : nat) (a : Address) s : Abs :=
  kset (nk_count k) (if decide (L = []) then [] else LittleEndian_Uint32ToBytes (Z.of_nat (length L)))
    (kset (nk_reverse k (Z.of_nat (length L))) []
      (kset (nk_number k a) []
        (if decide (i = length L) then s
         else kset (nk_number k b) (LittleEndian_Uint32ToBytes (Z.of_nat i)) (kset (nk_reverse k (Z.of_nat i)) b s)))).

Lemma numbered_left L b i a s :
  numbered (L ++ [b]) s → (L ++ [b]) !! i = Some a → numbered (swap_remove i (L ++ [b])) (left_ L b i a s).
Proof using SL KL.
  intros Hnb Hi. pose proof Hnb as [Hv Hnd Hl Hc Hr Hn Ha].
  pose proof (length_swap_remove i _ a Hi) as Hlen. rewrite length_app in Hlen, Hl. cbn [length] in Hlen, Hl.
  assert (Hai : ∀ j, (L ++ [b]) !! j = Some a → j = i) by (intros j Hj; by eapply NoDup_lookup).
  assert (Hlt : (i < length L + 1)%nat) by (apply lookup_lt_Some in Hi; rewrite length_app in Hi; simpl in Hi; lia).
  split.
  - apply Forall_forall. intros x Hx. apply (elem_of_swap_remove i _ a) in Hx as [Hx _]; [|done|done].
    rewrite Forall_forall in Hv. by apply Hv.
  - by eapply NoDup_swap_remove.
  - lia.
  - unfold left_. keys. rewrite Hlen. replace (length L + 1 - 1)%nat with (length L) by lia.
    destruct (decide (L = [])) as [->|Hne].
    + rewrite decide_True; [done|]. apply nil_length_inv. rewrite Hlen. done.
    + rewrite decide_False; [done|]. intros E0. rewrite E0 in Hlen. simpl in Hlen. destruct L; [done|]. simpl in Hlen. lia.
  - intros j x Hj. assert (Hj' : (j < length L)%nat) by (apply lookup_lt_Some in Hj; lia).
    unfold left_. keys. rewrite reverse_if by lia. rewrite decide_False by lia.
    rewrite swap_remove_snoc in Hj. destruct (decide (i = length L)) as [->|Hne].
    + apply Hr. by rewrite lookup_app_l.
    + keys. rewrite reverse_if by lia. destruct (decide (j = i)) as [->|Hji].
      * by rewrite list_lookup_insert_eq in Hj by lia; simplify_eq.
      * rewrite list_lookup_insert_ne in Hj by done. apply Hr. by rewrite lookup_app_l.
  - intros j x Hj. assert (Hxa : x ≠ a).
    { apply list_elem_of_lookup_2 in Hj. by apply (elem_of_swap_remove i _ a) in Hj as [_ ?]. }
    assert (Hj' : (j < length L)%nat) by (apply lookup_lt_Some in Hj; lia).
    unfold left_. keys. rewrite number_if, decide_False by done.
    rewrite swap_remove_snoc in Hj. destruct (decide (i = length L)) as [->|Hne].
    + apply Hn. by rewrite lookup_app_l.
    + keys. rewrite number_if. destruct (decide (j = i)) as [->|Hji].
      * rewrite list_lookup_insert_eq in Hj by lia. simplify_eq. by rewrite decide_True.
      * rewrite list_lookup_insert_ne in Hj by done. rewrite decide_False.
        -- apply Hn. by rewrite lookup_app_l.
        -- intros ->. apply NoDup_app in Hnd as (_ & Hd & _). apply (Hd b); [by eapply list_elem_of_lookup_2|by constructor].
  - intros x Hx Hnx. rewrite (elem_of_swap_remove i _ a) in Hnx by done.
    unfold left_. keys. rewrite number_if. destruct (decide (x = a)) as [->|Hxa]; [done|].
    assert (HxL : x ∉ L ++ [b]) by naive_solver.
    destruct (decide (i = length L)); [by apply Ha|]. keys. rewrite number_if, decide_False; [by apply Ha|].
    intros ->. apply HxL, elem_of_app. right. by constructor.
Qed.

Lemma wrote_left L b i a s : wrote s (left_ L b i a s).
Proof. unfold left_. destruct (decide (i = length L)); repeat first [apply wrote_refl | apply wrote_set; [|auto]]. Qed.

Lemma does_leave L i a c s :
  at_state c s → numbered L s → L !! i = Some a →
  ∃ s', does (nt_leave ds k a (LittleEndian_Uint32ToBytes (Z.of_nat i))) c (Ok tt) s' ∧
    numbered (swap_remove i L) s' ∧ wrote s s'.
Proof using SL KL.
  intros Hat Hnb Hi. destruct L as [|b L _] using rev_ind; [done|]. exists (left_ L b i a s).
  split_and!; [|by apply numbered_left|apply wrote_left].
  pose proof (nb_len _ _ Hnb) as Hl. rewrite length_app in Hl. cbn [length] in Hl.
  assert (Hlt : (i < length L + 1)%nat) by (apply lookup_lt_Some in Hi; rewrite length_app in Hi; simpl in Hi; lia).
  assert (Hu : u32 (Z.of_nat (length (L ++ [b])) - 1) = Z.of_nat (length L)).
  { rewrite length_app. cbn [length]. rewrite u32_small by (unfold is_u32; lia). lia. }
  assert (Hvb : valid_addr b).
  { pose proof (nb_valid _ _ Hnb) as Hv. rewrite Forall_forall in Hv. apply Hv, elem_of_app. right. by constructor. }
  unfold nt_leave. eapply does_bind; [by apply does_Count|]. intros c1 Hc1.
  eapply (does_bind _ _ _ (Z.of_nat i) _ s).
  { rewrite LittleEndian_Uint32_roundtrip by (unfold is_u32; lia). by apply does_lift. }
  intros c2 Hc2. rewrite Hu. unfold left_.
  eapply (does_bind _ _ _ tt).
  { instantiate (1 := if decide (i = length L) then s else kset (nk_number k b) (LittleEndian_Uint32ToBytes (Z.of_nat i))
      (kset (nk_reverse k (Z.of_nat i)) b s)).
    destruct (decide (i = length L)) as [->|Hne].
    - rewrite Z.eqb_refl. by apply does_ret.
    - rewrite (proj2 (Z.eqb_neq _ _)) by lia. cbn [negb].
      eapply does_bind; [by apply (sl_get _ _ _ SL)|]. intros c3 Hc3.
      rewrite (nb_reverse _ _ Hnb (length L) b) by (by apply list_lookup_middle). rewrite copy_addr by done.
      eapply does_bind; [by apply (sl_set _ _ _ SL)|]. intros c4 Hc4. by apply (sl_set _ _ _ SL). }
  intros c3 Hc3. eapply does_bind; [by apply (sl_set _ _ _ SL)|]. intros c4 Hc4.
  eapply does_bind; [by apply (sl_set _ _ _ SL)|]. intros c5 Hc5.
  destruct (decide (L = [])) as [->|Hne].
  - change (Z.of_nat (length []) =? 0) with true. cbv iota. by apply (sl_set _ _ _ SL).
  - rewrite (proj2 (Z.eqb_neq _ _)) by (destruct L; [done|simpl; lia]). by apply (sl_set _ _ _ SL).
Qed.

(** *** Loops over the table *)

Lemma does_table_loop {V} L c s (f : V → nat → M (Ctx A E) V) m r s' :
  at_state c s → numbered L s →
  (∀ c', at_state c' s → does (fold_m f m (seq 0 (length L))) c' r s') →
  L ≠ [] →
  does (bs ← ds_get ds (nk_count k); if nonempty bs then Count ← lift (LittleEndian_Uint32 bs);
        fold_m f m (seq 0 (Z.to_nat Count)) else mret m) c r s'.
Proof using SL.
  intros Hat Hnb Hf Hne. eapply does_bind; [by apply (sl_get _ _ _ SL)|]. intros c1 Hc1.
  rewrite (nb_count _ _ Hnb), decide_False by done.
  assert (nonempty (LittleEndian_Uint32ToBytes (Z.of_nat (length L))) = true) as -> by done.
  pose proof (nb_len _ _ Hnb). rewrite LittleEndian_Uint32_roundtrip by (unfold is_u32; lia).
  eapply does_bind; [by apply does_lift|]. intros c2 Hc2. rewrite Nat2Z.id. by apply Hf.
Qed.

Lemma does_collect {V} (take : V → Address → M (Ctx A E) V) (upd : V → Address → V) L m c s :
  at_state c s → numbered L s →
  (∀ m a c', a ∈ L → at_state c' s → does (take m a) c' (Ok (upd m a)) s) →
  does (nt_collect ds k take m) c (Ok (foldl upd m L)) s.
Proof using SL.
  intros Hat Hnb Ht. unfold nt_collect. destruct (decide (L = [])) as [->|Hne].
  { eapply does_bind; [by apply (sl_get _ _ _ SL)|]. intros c1 Hc1. rewrite (nb_count _ _ Hnb). by apply does_ret. }
  eapply does_table_loop; [done|done| |done]. intros c' Hc'.
  assert (Hrev : ∀ i a, L !! i = Some a → kget s (nk_reverse k (Z.of_nat (0 + i))) = a) by apply Hnb.
  assert (Hv : Forall valid_addr L) by apply Hnb. clear Hat Hnb Hne c.
  revert Hrev Ht m c' Hc'. generalize 0%nat as j. induction L as [|a L IH]; intros j Hrev Ht m c' Hc'; [by apply does_ret|].
  apply Forall_cons in Hv as [Hva Hv]. cbn [length seq fold_m foldl].
  eapply (does_bind _ _ _ (upd m a) _ s).
  - eapply does_bind; [by apply (sl_get _ _ _ SL)|]. intros c1 Hc1.
    pose proof (Hrev 0%nat a eq_refl) as Ha. rewrite Nat.add_0_r in Ha. rewrite Ha, copy_addr by done.
    apply Ht; [by constructor|done].
  - intros c1 Hc1. apply IH; try done.
    + intros i b Hi. rewrite <- (Hrev (S i) b Hi). do 2 f_equal. lia.
    + intros. apply Ht; [by constructor|done].
Qed.

(** A flush: [take] reads the value [val] of an address and clears what else
    is kept for it ([tst]). *)
Section Flush.
Context {V X : Type} (take : V → Address → M (Ctx A E) V) (upd : V → Address → X → V).
Context (val : Address → Abs (A:=A) → option X) (tst : Address → Abs (A:=A) → Abs (A:=A)).
Hypothesis take_spec : ∀ m a x c s, valid_addr a → val a s = Some x → at_state c s →
  does (take m a) c (Ok (upd m a x)) (tst a s).
Hypothesis tst_val : ∀ a b s, a ≠ b → val b (tst a s) = val b s.
Hypothesis kset_val : ∀ a n v s, table_key n → val a (kset n v s) = val a s.
Hypothesis tst_get : ∀ a n s, table_key n → kget (tst a s) n = kget s n.
(** What holds once the address has been taken. *)
Context (gone : Address → Abs (A:=A) → Prop).
Hypothesis gone_tst : ∀ a s, gone a (tst a s).
Hypothesis gone_keep : ∀ a b s, gone a s → gone a (tst b s).
Hypothesis gone_kset : ∀ a n v s, table_key n → gone a s → gone a (kset n v s).

(** States that a flush of the addresses [L] passes through. *)
Inductive flushed L s : Abs → Prop :=
  | flushed_refl : flushed L s s
  | flushed_set s' n v : flushed L s s' → table_key n → flushed L s (kset n v s')
  | flushed_take s' a : flushed L s s' → a ∈ L → flushed L s (tst a s').

Lemma flushed_inv {Y} (f : Abs → Y) L s s' :
  (∀ n v s, table_key n → f (kset n v s) = f s) → (∀ a s, a ∈ L → f (tst a s) = f s) → flushed L s s' → f s' = f s.
Proof. intros Hf Ht. induction 1; [done| |]; by rewrite ?Hf, ?Ht. Qed.

Lemma flushed_trans L s1 s2 s3 : flushed L s1 s2 → flushed L s2 s3 → flushed L s1 s3.
Proof. intros H12. induction 1; [done|by constructor|by constructor]. Qed.

Lemma flushed_gone L s s' a : gone a s → flushed L s s' → gone a s'.
Proof using gone_keep gone_kset. intros Hg. induction 1; auto. Qed.

Lemma flushed_mono L L' s s' : L ⊆ L' → flushed L s s' → flushed L' s s'.
Proof. intros HL. induction 1; [constructor|by constructor|]. apply flushed_take; auto. Qed.

Lemma does_flush_loop L (j : nat) m c s (g : Address → X) :
  at_state c s → NoDup L → Forall valid_addr L → Z.of_nat (j + length L) ≤ 2 ^ 32 →
  (∀ i a, L !! i = Some a → kget s (nk_reverse k (Z.of_nat (j + i))) = a) →
  (∀ a, a ∈ L → val a s = Some (g a)) →
  ∃ s', does (fold_m (nt_flush_step ds k take) m (seq j (length L))) c
          (Ok (foldl (λ m a, upd m a (g a)) m L)) s' ∧ flushed L s s' ∧
    (∀ a, kget s' (nk_number k a) = if decide (a ∈ L) then [] else kget s (nk_number k a)) ∧
    (∀ a, a ∈ L → gone a s').
Proof using SL KL take_spec tst_val kset_val tst_get gone_tst gone_keep gone_kset.
  revert j m c s. induction L as [|a L IH]; intros j m c s Hat Hnd Hv Hlen Hrev Hval.
  { exists s. split_and!; [by apply does_ret|constructor|done|by intros a ?%elem_of_nil]. }
  apply NoDup_cons in Hnd as [Hna Hnd]. apply Forall_cons in Hv as [Hva Hv]. cbn [length] in Hlen.
  set (s1 := kset (nk_reverse k (Z.of_nat j)) [] (kset (nk_number k a) [] (tst a s))).
  assert (Hstep : does (nt_flush_step ds k take m j) c (Ok (upd m a (g a))) s1).
  { unfold nt_flush_step. eapply does_bind; [by apply (sl_get _ _ _ SL)|]. intros c1 Hc1.
    pose proof (Hrev 0%nat a eq_refl) as Ha. rewrite Nat.add_0_r in Ha. rewrite Ha, copy_addr by done.
    eapply does_bind; [apply take_spec; [done|apply Hval; by constructor|done]|]. intros c2 Hc2.
    eapply does_bind; [by apply (sl_set _ _ _ SL)|]. intros c3 Hc3.
    eapply does_bind; [by apply (sl_set _ _ _ SL)|]. intros c4 Hc4. by apply does_ret. }
  destruct Hstep as (c1 & Hr & Hl & Hat1).
  destruct (IH (S j) (upd m a (g a)) c1 s1) as (s' & (c2 & Hr2 & Hl2 & Hat2) & Hfl & Hnum & Hgone); try done.
  - lia.
  - intros i b Hi. assert (i < length L)%nat by (by eapply lookup_lt_Some). unfold s1. keys. rewrite reverse_if by lia.
    rewrite decide_False by lia. rewrite tst_get by auto. rewrite <- (Hrev (S i) b Hi). do 2 f_equal. lia.
  - intros b Hb. unfold s1. rewrite !kset_val by auto. rewrite tst_val by (intros ->; done).
    apply Hval. by constructor.
  - exists s'. split_and!.
    + exists c2. cbn [length seq fold_m foldl]. rewrite (bind_Ok _ _ _ _ _ Hr). split; [done|].
      split; [by eapply leads_trans|done].
    + apply (flushed_trans _ _ s1).
      * unfold s1. repeat first [apply flushed_refl | apply flushed_set; [|auto] | apply flushed_take; [|by constructor]].
      * eapply flushed_mono; [|exact Hfl]. set_solver.
    + intros b. rewrite Hnum. unfold s1. keys. rewrite number_if, tst_get by auto.
      destruct (decide (b ∈ a :: L)) as [Hin|Hin].
      * case_decide; [done|]. apply elem_of_cons in Hin as [->|?]; [by rewrite decide_True|done].
      * apply not_elem_of_cons in Hin as [? ?]. by rewrite !decide_False.
    + intros b [->|Hb]%elem_of_cons; [|by apply Hgone]. apply (flushed_gone L s1); [unfold s1; auto|done].
Qed.

Lemma does_nt_flush L m c s (g : Address → X) :
  at_state c s → numbered L s → (∀ a, a ∈ L → val a s = Some (g a)) →
  ∃ s', does (nt_flush ds k take m) c (Ok (foldl (λ m a, upd m a (g a)) m L)) s' ∧
    numbered [] s' ∧ flushed L s s' ∧ (∀ a, a ∈ L → gone a s').
Proof using SL KL take_spec tst_val kset_val tst_get gone_tst gone_keep gone_kset.
  intros Hat Hnb Hval. unfold nt_flush. destruct (decide (L = [])) as [->|Hne].
  { exists s. split_and!; [|done|constructor|by intros a ?%elem_of_nil].
    eapply does_bind; [by apply (sl_get _ _ _ SL)|]. intros c1 Hc1. rewrite (nb_count _ _ Hnb). by apply does_ret. }
  pose proof (nb_len _ _ Hnb) as Hlen.
  destruct (sl_get _ _ _ SL (nk_count k) c s Hat) as (c1 & Hr1 & Hl1 & Hat1).
  destruct (does_flush_loop L 0 m c1 s g) as (s' & (c2 & Hr2 & Hl2 & Hat2) & Hfl & Hnum & Hgone); try done; try apply Hnb; [simpl; lia|].
  destruct (sl_set _ _ _ SL (nk_count k) [] c2 s' Hat2) as (c3 & Hr3 & Hl3 & Hat3).
  exists (kset (nk_count k) [] s'). split_and!; [|split|by constructor; auto|auto]; try done.
  - exists c3. split; [|split; [by do 2 (eapply leads_trans; [done|])|done]].
    rewrite (bind_Ok _ _ _ _ _ Hr1), (nb_count _ _ Hnb), decide_False by done.
    assert (nonempty (LittleEndian_Uint32ToBytes (Z.of_nat (length L))) = true) as -> by done.
    rewrite LittleEndian_Uint32_roundtrip by (unfold is_u32; lia).
    erewrite bind_Ok by reflexivity. rewrite Nat2Z.id. by rewrite (bind_Ok _ _ _ _ _ Hr2), (bind_Ok _ _ _ _ _ Hr3).
  - apply NoDup_nil_2.
  - by keys.
  - intros a Ha _. keys. rewrite Hnum. case_decide; [done|]. by apply Hnb.
Qed.

End Flush.
End NumberedSpec.

(** ** What the operations write *)

Section NumberedTouches.
Context {A E : Type} `{AI : AccountI A} `{EI : EventI E} `{B58 : Base58}.
Context (P : lkey → Prop) (ds : DataSpace A E) (k : NumberKeys).
Hypothesis get_touches : ∀ n, touches P (ds_get ds n).
Hypothesis set_touches : ∀ n v, touches P (ds_set ds n v).
#[local] Hint Resolve get_touches set_touches : touches.

Lemma touches_Count : touches P (nt_Count ds k).
Proof using get_touches. unfold nt_Count. auto with touches. Qed.
#[local] Hint Resolve touches_Count : touches.

Lemma touches_enter a : touches P (nt_enter ds k a).
Proof using get_touches set_touches.
  unfold nt_enter. apply touches_bind; [auto with touches|]. intros ns. destruct (_ =? _)%nat; auto 8 with touches.
Qed.
Lemma touches_leave a ns : touches P (nt_leave ds k a ns).
Proof using get_touches set_touches.
  unfold nt_leave. repeat (first [apply touches_bind; [|intros ?] | case_match]); auto with touches.
Qed.
End NumberedTouches.

(** ** The two spaces *)

Section Spaces.
Context {A E : Type} `{AI : AccountI A} `{EI : EventI E} `{B58 : Base58}.

Lemma process_space_laws pid : valid_pid pid → SpaceLaws (A:=A) (E:=E) (process_space pid) (pget pid) (pset pid).
Proof.
  intros Hp. split; intros; [by apply does_ProcessData|by apply does_SetProcessData|apply pget_pset].
Qed.

Lemma account_space_laws addr pid :
  valid_pid pid → valid_addr addr →
  SpaceLaws (A:=A) (E:=E) (account_space addr pid) (λ s, aget pid s addr) (aset pid addr).
Proof.
  intros Hp Ha. split; intros; [by apply does_AccountData|by apply does_SetAccountData|].
  rewrite aget_aset. destruct (decide (m = n)) as [->|Hne]; [by rewrite decide_True|by rewrite decide_False by naive_solver].
Qed.

Lemma touches_process_enter pid k a : valid_pid pid → touches (A:=A) (E:=E) is_process (nt_enter (process_space pid) k a).
Proof. intros Hp. apply touches_enter; intros; [by apply touches_ProcessData|by apply touches_SetProcessData]. Qed.
Lemma touches_account_enter addr pid k a :
  valid_pid pid → valid_addr addr → touches (A:=A) (E:=E) is_data (nt_enter (account_space addr pid) k a).
Proof. intros Hp Ha. apply touches_enter; intros; [by apply touches_AccountData|by apply touches_SetAccountData]. Qed.
Lemma touches_account_leave addr pid k a ns :
  valid_pid pid → valid_addr addr → touches (A:=A) (E:=E) is_data (nt_leave (account_space addr pid) k a ns).
Proof. intros Hp Ha. apply touches_leave; intros; [by apply touches_AccountData|by apply touches_SetAccountData]. Qed.
End Spaces.
#[export] Hint Resolve touches_process_enter touches_account_enter touches_account_leave : touches.
