(* ===== verification/Formulator.v ===== *)
(** * process/formulator: formulators, staking, unstaking and revocation

    acc_formulator.go, policy.go, util_key.go, util.go, the events and
    formulator_method.go: the accounts that create blocks, the settings of the
    process, and the tables it keeps: what was staked at a hyper formulator,
    the blocks that each generator has made since the last payment, the
    formulators that are revoked at a height and the amounts that are unstaked
    at a height. *)

From S2P Require Import Prelude Tokens Amount Common Context OrderedMaps Vault Numbered.

(** ** acc_formulator.go, policy.go *)

Record ValidatorPolicy := mkValidator {
  CommissionRatio1000 : Z; MinimumStaking : Z; PayOutInterval : Z }.

(** The fields [StakingAmount] and [Policy] belong to hyper formulators; an
    account of another type has [nil] there. *)
Inductive FormulatorType :=
  | AlphaFormulatorType
  | SigmaFormulatorType
  | OmegaFormulatorType
  | HyperFormulatorType (StakingAmount : Z) (Policy : ValidatorPolicy)
  | OtherFormulatorType (t : Z).

Record FormulatorAccount := mkFormulator {
  fr_Address : Address; fr_Name : bytes; fr_Type : FormulatorType;
  fr_KeyHash : PublicHash; fr_GenHash : PublicHash; fr_Amount : Z; fr_IsRevoked : bool;
  fr_PreHeight : Z; fr_UpdatedHeight : Z; fr_RewardCount : Z }.

Definition ValidatorPolicy_Clone (pc : ValidatorPolicy) : ValidatorPolicy :=
  mkValidator (CommissionRatio1000 pc) (Amount.Clone (MinimumStaking pc)) (PayOutInterval pc).

Definition fr_Clone (acc : FormulatorAccount) : FormulatorAccount :=
  mkFormulator (fr_Address acc) (fr_Name acc)
    (match fr_Type acc with
     | HyperFormulatorType sa pc => HyperFormulatorType (Amount.Clone sa) (ValidatorPolicy_Clone pc)
     | t => t
     end)
    (fr_KeyHash acc) (fr_GenHash acc) (Amount.Clone (fr_Amount acc)) (fr_IsRevoked acc)
    (fr_PreHeight acc) (fr_UpdatedHeight acc) (fr_RewardCount acc).

Definition fr_IsActivated (acc : FormulatorAccount) : bool := negb (fr_IsRevoked acc).

Definition fr_Validate (acc : FormulatorAccount) (signers : list PublicHash) : res unit :=
  match signers with
  | [signer] => if bool_decide (fr_KeyHash acc ≠ signer) then Err ErrInvalidAccountSigner else Ok tt
  | _ => Err ErrInvalidSignerCount
  end.

Lemma fr_Clone_id acc : fr_Clone acc = acc.
Proof.
  destruct acc as [a n t k g am r p u c]. unfold fr_Clone, Amount.Clone, ValidatorPolicy_Clone. simpl.
  destruct t as [| | |sa []|]; simpl; unfold Amount.Clone; by rewrite ?Z.add_0_r.
Qed.

(** Assignments to fields. *)
Definition set_fr_Type (t : FormulatorType) (acc : FormulatorAccount) : FormulatorAccount :=
  mkFormulator (fr_Address acc) (fr_Name acc) t (fr_KeyHash acc) (fr_GenHash acc) (fr_Amount acc)
    (fr_IsRevoked acc) (fr_PreHeight acc) (fr_UpdatedHeight acc) (fr_RewardCount acc).
Definition set_fr_Keys (k g : PublicHash) (acc : FormulatorAccount) : FormulatorAccount :=
  mkFormulator (fr_Address acc) (fr_Name acc) (fr_Type acc) k g (fr_Amount acc)
    (fr_IsRevoked acc) (fr_PreHeight acc) (fr_UpdatedHeight acc) (fr_RewardCount acc).
Definition set_fr_Amount (am : Z) (acc : FormulatorAccount) : FormulatorAccount :=
  mkFormulator (fr_Address acc) (fr_Name acc) (fr_Type acc) (fr_KeyHash acc) (fr_GenHash acc) am
    (fr_IsRevoked acc) (fr_PreHeight acc) (fr_UpdatedHeight acc) (fr_RewardCount acc).
Definition set_fr_IsRevoked (b : bool) (acc : FormulatorAccount) : FormulatorAccount :=
  mkFormulator (fr_Address acc) (fr_Name acc) (fr_Type acc) (fr_KeyHash acc) (fr_GenHash acc) (fr_Amount acc)
    b (fr_PreHeight acc) (fr_UpdatedHeight acc) (fr_RewardCount acc).
Definition set_fr_Heights (p u c : Z) (acc : FormulatorAccount) : FormulatorAccount :=
  mkFormulator (fr_Address acc) (fr_Name acc) (fr_Type acc) (fr_KeyHash acc) (fr_GenHash acc) (fr_Amount acc)
    (fr_IsRevoked acc) p u c.

(** [frAcc.StakingAmount], dereferenced. *)
Definition StakingAmount (acc : FormulatorAccount) : res Z :=
  match fr_Type acc with HyperFormulatorType sa _ => Ok sa | _ => Panic end.
Definition HPolicy (acc : FormulatorAccount) : res ValidatorPolicy :=
  match fr_Type acc with HyperFormulatorType _ pc => Ok pc | _ => Panic end.
Definition is_hyper (acc : FormulatorAccount) : bool :=
  match fr_Type acc with HyperFormulatorType _ _ => true | _ => false end.
Definition set_StakingAmount (sa : Z) (acc : FormulatorAccount) : FormulatorAccount :=
  match fr_Type acc with
  | HyperFormulatorType _ pc => set_fr_Type (HyperFormulatorType sa pc) acc
  | _ => acc
  end.
Definition set_HPolicy (pc : ValidatorPolicy) (acc : FormulatorAccount) : FormulatorAccount :=
  match fr_Type acc with
  | HyperFormulatorType sa _ => set_fr_Type (HyperFormulatorType sa pc) acc
  | _ => acc
  end.

Record RewardPolicy := mkReward {
  RewardPerBlock : Z; PayRewardEveryBlocks : Z;
  AlphaEfficiency1000 : Z; SigmaEfficiency1000 : Z; OmegaEfficiency1000 : Z;
  HyperEfficiency1000 : Z; StakingEfficiency1000 : Z }.
Record AlphaPolicy := mkAlpha {
  AlphaCreationAmount : Z; AlphaUnlockRequiredBlocks : Z; AlphaCreationLimitHeight : Z }.
Record SigmaPolicy := mkSigma {
  SigmaRequiredAlphaBlocks : Z; SigmaRequiredAlphaCount : Z; SigmaUnlockRequiredBlocks : Z }.
Record OmegaPolicy := mkOmega {
  OmegaRequiredSigmaBlocks : Z; OmegaRequiredSigmaCount : Z; OmegaUnlockRequiredBlocks : Z }.
Record HyperPolicy := mkHyper {
  HyperCreationAmount : Z; HyperUnlockRequiredBlocks : Z; StakingUnlockRequiredBlocks : Z }.
Record TransmutePolicy := mkTransmute {
  TransmuteEnableHeightFrom : Z; TransmuteEnableHeightTo : Z }.

Class PolicyCodecs := {
  #[global] reward_codec :: Codec RewardPolicy;
  #[global] alpha_codec :: Codec AlphaPolicy;
  #[global] sigma_codec :: Codec SigmaPolicy;
  #[global] omega_codec :: Codec OmegaPolicy;
  #[global] hyper_codec :: Codec HyperPolicy;
  #[global] transmute_codec :: Codec TransmutePolicy;
}.

(** The accounts of a chain include the formulators; [to_formulator] is the
    type assertion. *)
Class FormulatorAccounts (A : Type) `{AccountI A} := {
  of_formulator : FormulatorAccount → A;
  to_formulator : A → option FormulatorAccount;
  to_of_formulator : ∀ f, to_formulator (of_formulator f) = Some f;
  of_to_formulator : ∀ a f, to_formulator a = Some f → a = of_formulator f;
  of_formulator_Address : ∀ f, acc_Address (of_formulator f) = fr_Address f;
  of_formulator_Name : ∀ f, acc_Name (of_formulator f) = fr_Name f;
  of_formulator_Validate : ∀ f l, acc_Validate (of_formulator f) l = fr_Validate f l;
}.

(** ** Events *)

Record RewardEvent := mkRewardEvent {
  re_Height : Z; re_Index : Z; re_N : Z;
  re_GenBlockMap : gmap Address Z;
  re_RewardMap : gmap Address Z;
  re_StackedMap : gmap Address Z;
  re_CommissionMap : gmap Address Z;
  re_StakedMap : gmap Address (gmap Address Z);
  re_StakeRewardMap : gmap Address (gmap Address Z);
}.
Record RevokedEvent := mkRevoked { rv_Height : Z; rv_Index : Z; rv_N : Z; rv_Formulator : Address }.
Record UnstakedEvent := mkUnstaked {
  us_Height : Z; us_Index : Z; us_N : Z; us_HyperFormulator : Address; us_Address : Address; us_Amount : Z }.

(** [if old, has := mp.Get(addr); has { mp.Put(addr, old.Add(am)) } else { mp.Put(addr, am) }]. *)
Definition put_add (addr : Address) (am : Z) (mp : gmap Address Z) : gmap Address Z :=
  match mp !! addr with
  | Some old => <[addr := Amount.Add old am]> mp
  | None => <[addr := am]> mp
  end.
Definition put_add2 (HyperAddr addr : Address) (am : Z) (mp : gmap Address (gmap Address Z))
    : gmap Address (gmap Address Z) :=
  <[HyperAddr := put_add addr am (default ∅ (mp !! HyperAddr))]> mp.

Definition AddReward (addr : Address) (am : Z) (ev : RewardEvent) : RewardEvent :=
  mkRewardEvent (re_Height ev) (re_Index ev) (re_N ev) (re_GenBlockMap ev) (put_add addr am (re_RewardMap ev))
    (re_StackedMap ev) (re_CommissionMap ev) (re_StakedMap ev) (re_StakeRewardMap ev).
Definition AddStacked (addr : Address) (am : Z) (ev : RewardEvent) : RewardEvent :=
  mkRewardEvent (re_Height ev) (re_Index ev) (re_N ev) (re_GenBlockMap ev) (re_RewardMap ev)
    (put_add addr am (re_StackedMap ev)) (re_CommissionMap ev) (re_StakedMap ev) (re_StakeRewardMap ev).
Definition RemoveStacked (addr : Address) (ev : RewardEvent) : RewardEvent :=
  mkRewardEvent (re_Height ev) (re_Index ev) (re_N ev) (re_GenBlockMap ev) (re_RewardMap ev)
    (delete addr (re_StackedMap ev)) (re_CommissionMap ev) (re_StakedMap ev) (re_StakeRewardMap ev).
Definition AddCommission (addr : Address) (am : Z) (ev : RewardEvent) : RewardEvent :=
  mkRewardEvent (re_Height ev) (re_Index ev) (re_N ev) (re_GenBlockMap ev) (re_RewardMap ev)
    (re_StackedMap ev) (put_add addr am (re_CommissionMap ev)) (re_StakedMap ev) (re_StakeRewardMap ev).
Definition AddStaked (HyperAddr addr : Address) (am : Z) (ev : RewardEvent) : RewardEvent :=
  mkRewardEvent (re_Height ev) (re_Index ev) (re_N ev) (re_GenBlockMap ev) (re_RewardMap ev)
    (re_StackedMap ev) (re_CommissionMap ev) (put_add2 HyperAddr addr am (re_StakedMap ev)) (re_StakeRewardMap ev).
Definition AddStakeReward (HyperAddr addr : Address) (am : Z) (ev : RewardEvent) : RewardEvent :=
  mkRewardEvent (re_Height ev) (re_Index ev) (re_N ev) (re_GenBlockMap ev) (re_RewardMap ev)
    (re_StackedMap ev) (re_CommissionMap ev) (re_StakedMap ev) (put_add2 HyperAddr addr am (re_StakeRewardMap ev)).
Definition PutGenBlock (addr : Address) (n : Z) (ev : RewardEvent) : RewardEvent :=
  mkRewardEvent (re_Height ev) (re_Index ev) (re_N ev) (<[addr := n]> (re_GenBlockMap ev)) (re_RewardMap ev)
    (re_StackedMap ev) (re_CommissionMap ev) (re_StakedMap ev) (re_StakeRewardMap ev).

Class FormulatorEvents (E : Type) := {
  of_reward : RewardEvent → E;
  of_revoked : RevokedEvent → E;
  of_unstaked : UnstakedEvent → E;
}.

(** ** util_key.go *)

Definition tagStakingAmount : bytes := [1; 0].
Definition tagStakingAmountNumber : bytes := [1; 1].
Definition tagStakingAmountReverse : bytes := [1; 2].
Definition tagStakingAmountCount : bytes := [1; 3].
Definition tagRewardPolicy : bytes := [2; 0].
Definition tagAlphaPolicy : bytes := [2; 1].
Definition tagSigmaPolicy : bytes := [2; 2].
Definition tagOmegaPolicy : bytes := [2; 3].
Definition tagHyperPolicy : bytes := [2; 4].
Definition tagTransmutePolicy : bytes := [2; 5].
Definition tagGenCount : bytes := [3; 0].
Definition tagGenCountNumber : bytes := [3; 1].
Definition tagGenCountReverse : bytes := [3; 2].
Definition tagGenCountCount : bytes := [3; 3].
Definition tagStakingAmountMap : bytes := [4; 0].
Definition tagStakingPowerMap : bytes := [4; 1].
Definition tagStackRewardMap : bytes := [4; 2].
Definition tagLastStakingPaidHeight : bytes := [4; 3].
Definition tagAutoStaking : bytes := [4; 4].
Definition tagLastPaidHeight : bytes := [4; 5].
Definition tagRevokedFormulator : bytes := [5; 0].
Definition tagRevokedFormulatorNumber : bytes := [5; 1].
Definition tagRevokedFormulatorReverse : bytes := [5; 2].
Definition tagRevokedFormulatorCount : bytes := [5; 3].
Definition tagRevokedHeight : bytes := [5; 4].
Definition tagUnstakingAmount : bytes := [6; 0].
Definition tagUnstakingAmountNumber : bytes := [6; 1].
Definition tagUnstakingAmountReverse : bytes := [6; 2].
Definition tagUnstakingAmountCount : bytes := [6; 3].
Definition tagRewardBaseUpgrade : bytes := [7; 0].

Definition toStakingAmountKey (addr : Address) : bytes := tagStakingAmount ++ addr.
Definition toStakingAmountNumberKey (addr : Address) : bytes := tagStakingAmountNumber ++ addr.
Definition toStakingAmountReverseKey (Num : Z) : bytes := tagStakingAmountReverse ++ BigEndian_Uint32ToBytes Num.
Definition toAutoStakingKey (addr : Address) : bytes := tagAutoStaking ++ addr.
Definition toGenCountKey (addr : Address) : bytes := tagGenCount ++ addr.
Definition toGenCountNumberKey (addr : Address) : bytes := tagGenCountNumber ++ addr.
Definition toGenCountReverseKey (Num : Z) : bytes := tagGenCountReverse ++ BigEndian_Uint32ToBytes Num.
Definition toRevokedFormulatorKey (height : Z) (addr : Address) : bytes :=
  tagRevokedFormulator ++ BigEndian_Uint32ToBytes height ++ addr.
Definition toRevokedFormulatorNumberKey (height : Z) (addr : Address) : bytes :=
  tagRevokedFormulatorNumber ++ BigEndian_Uint32ToBytes height ++ addr.
Definition toRevokedFormulatorReverseKey (height num : Z) : bytes :=
  tagRevokedFormulatorReverse ++ BigEndian_Uint32ToBytes height ++ BigEndian_Uint32ToBytes num.
Definition toRevokedFormulatorCountKey (height : Z) : bytes :=
  tagRevokedFormulatorCount ++ BigEndian_Uint32ToBytes height.
Definition toUnstakingAmountKey (height : Z) (addr : Address) : bytes :=
  tagUnstakingAmount ++ BigEndian_Uint32ToBytes height ++ addr.
Definition toUnstakingAmountNumberKey (height : Z) (addr : Address) : bytes :=
  tagUnstakingAmountNumber ++ BigEndian_Uint32ToBytes height ++ addr.
Definition toUnstakingAmountReverseKey (height num : Z) : bytes :=
  tagUnstakingAmountReverse ++ BigEndian_Uint32ToBytes height ++ BigEndian_Uint32ToBytes num.
Definition toUnstakingAmountCountKey (height : Z) : bytes :=
  tagUnstakingAmountCount ++ BigEndian_Uint32ToBytes height.

Definition staking_keys : NumberKeys :=
  mkKeys toStakingAmountNumberKey toStakingAmountReverseKey tagStakingAmountCount.
Definition gen_keys : NumberKeys := mkKeys toGenCountNumberKey toGenCountReverseKey tagGenCountCount.
Definition revoked_keys (h : Z) : NumberKeys :=
  mkKeys (toRevokedFormulatorNumberKey h) (toRevokedFormulatorReverseKey h) (toRevokedFormulatorCountKey h).
Definition unstaking_keys (h : Z) : NumberKeys :=
  mkKeys (toUnstakingAmountNumberKey h) (toUnstakingAmountReverseKey h) (toUnstakingAmountCountKey h).

(** ** formulator_method.go *)

Section Formulator.
Context {A E : Type} `{AI : AccountI A} `{EI : EventI E} `{B58 : Base58}.
Context `{FA : !FormulatorAccounts A} `{FE : FormulatorEvents E} `{TK : TokenCodec} `{PCs : PolicyCodecs}.
(** The process identifiers of the formulator and of the vault. *)
Context (pid vault_pid : Z).

Abbreviation ctxM := (M (Ctx A E)).

(** [encoding.Marshal] and [encoding.Unmarshal] of an [AddressAmountMap]. *)
Definition marshal_amounts (m : gmap Address Z) : res bytes :=
  ts ← el_enc AddressAmountMap m; mret (tk_bytes ts).
Definition unmarshal_amounts (bs : bytes) : res (gmap Address Z) :=
  '(m, _) ← el_dec AddressAmountMap (tk_read bs); mret m.

Definition uint32_or_0 (bs : bytes) : res Z := if nonempty bs then LittleEndian_Uint32 bs else Ok 0.

(** *** Block counts *)

Definition getGenCount (addr : Address) : ctxM Z :=
  bs ← ProcessData pid (toGenCountKey addr);
  lift (uint32_or_0 bs).

Definition addGenCount (addr : Address) : ctxM unit :=
  nt_enter (process_space pid) gen_keys addr ;;
  n ← getGenCount addr;
  SetProcessData pid (toGenCountKey addr) (LittleEndian_Uint32ToBytes (u32 (n + 1))).

Definition flushGenCountMap : ctxM (gmap Address Z) :=
  nt_flush (process_space pid) gen_keys
    (λ CountMap addr,
       n ← getGenCount addr;
       SetProcessData pid (toGenCountKey addr) [] ;;
       mret (<[addr := n]> CountMap)) ∅.

(** *** Staking *)

Definition GetStakingAmount (HyperAddress StakingAddress : Address) : ctxM Z :=
  bs ← AccountData HyperAddress pid (toStakingAmountKey StakingAddress);
  mret (amount_of bs).

Definition AddStakingAmount (HyperAddress StakingAddress : Address) (am : Z) : ctxM unit :=
  nt_enter (account_space HyperAddress pid) staking_keys StakingAddress ;;
  total ← GetStakingAmount HyperAddress StakingAddress;
  SetAccountData HyperAddress pid (toStakingAmountKey StakingAddress) (Amount.Bytes (Amount.Add total am)).

Definition subStakingAmount (HyperAddress StakingAddress : Address) (am : Z) : ctxM unit :=
  total ← GetStakingAmount HyperAddress StakingAddress;
  guard_err (Amount.Less total am) ErrFormulatorMinusBalance ;;
  let total := Amount.Sub total am in
  if Amount.IsZero total then
    ns ← AccountData HyperAddress pid (toStakingAmountNumberKey StakingAddress);
    (if nonempty ns then nt_leave (account_space HyperAddress pid) staking_keys StakingAddress ns else mret tt) ;;
    SetAccountData HyperAddress pid (toStakingAmountKey StakingAddress) []
  else SetAccountData HyperAddress pid (toStakingAmountKey StakingAddress) (Amount.Bytes total).

Definition GetStakingAmountMap (HyperAddress : Address) : ctxM (gmap Address Z) :=
  nt_collect (account_space HyperAddress pid) staking_keys
    (λ PowerMap StakingAddress,
       am ← GetStakingAmount HyperAddress StakingAddress;
       mret (<[StakingAddress := am]> PowerMap)) ∅.

(** *** Heights of payments, settings of users *)

Definition getLastPaidHeight : ctxM Z :=
  bs ← ProcessData pid tagLastPaidHeight;
  lift (uint32_or_0 bs).
Definition setLastPaidHeight (h : Z) : ctxM unit :=
  SetProcessData pid tagLastPaidHeight (LittleEndian_Uint32ToBytes h).
Definition getLastStakingPaidHeight (addr : Address) : ctxM Z :=
  bs ← AccountData addr pid tagLastStakingPaidHeight;
  lift (uint32_or_0 bs).
Definition setLastStakingPaidHeight (addr : Address) (h : Z) : ctxM unit :=
  SetAccountData addr pid tagLastStakingPaidHeight (LittleEndian_Uint32ToBytes h).

Definition GetUserAutoStaking (HyperAddress StakingAddress : Address) : ctxM bool :=
  bs ← AccountData HyperAddress pid (toAutoStakingKey StakingAddress);
  mret (match bs with b :: _ => b =? 1 | [] => false end).
Definition setUserAutoStaking (HyperAddress StakingAddress : Address) (IsAutoStaking : bool) : ctxM unit :=
  SetAccountData HyperAddress pid (toAutoStakingKey StakingAddress) (if IsAutoStaking then [1] else []).

(** *** Revocation *)

Definition GetRevokedFormulatorHeight (addr : Address) : ctxM Z :=
  bs ← AccountData addr pid tagRevokedHeight;
  if nonempty bs then lift (LittleEndian_Uint32 bs) else fail ErrNotRevoked.

Definition getRevokedFormulatorHeritor (addr : Address) (RevokeHeight : Z) : ctxM Address :=
  bs ← ProcessData pid (toRevokedFormulatorKey RevokeHeight addr);
  if nonempty bs then mret (copy emptyAddr bs) else fail ErrNotExistRevokedFormulator.

Definition addRevokedFormulator (addr : Address) (RevokeHeight : Z) (Heritor : Address) : ctxM unit :=
  bs ← AccountData addr pid tagRevokedHeight;
  guard_err (nonempty bs) ErrRevokedFormulator ;;
  SetAccountData addr pid tagRevokedHeight (LittleEndian_Uint32ToBytes RevokeHeight) ;;
  nt_enter (process_space pid) (revoked_keys RevokeHeight) addr ;;
  SetProcessData pid (toRevokedFormulatorKey RevokeHeight addr) Heritor.

(** The entry of the heritor stays. *)
Definition removeRevokedFormulator (addr : Address) : ctxM unit :=
  RevokeHeight ← GetRevokedFormulatorHeight addr;
  SetAccountData addr pid tagRevokedHeight [] ;;
  ns ← ProcessData pid (toRevokedFormulatorNumberKey RevokeHeight addr);
  guard_err (negb (nonempty ns)) ErrNotRevoked ;;
  nt_leave (process_space pid) (revoked_keys RevokeHeight) addr ns.

Definition flushRevokedFormulatorMap (RevokeHeight : Z) : ctxM (gmap Address Address) :=
  nt_flush (process_space pid) (revoked_keys RevokeHeight)
    (λ RevokedFormulatorMap addr,
       Heritor ← getRevokedFormulatorHeritor addr RevokeHeight;
       SetAccountData addr pid tagRevokedHeight [] ;;
       SetProcessData pid (toRevokedFormulatorKey RevokeHeight addr) [] ;;
       mret (<[addr := Heritor]> RevokedFormulatorMap)) ∅.

(** *** Unstaking *)

Definition GetUnstakingAmountMap (addr : Address) (UnstakedHeight : Z) : ctxM (gmap Address Z) :=
  bs ← ProcessData pid (toUnstakingAmountKey UnstakedHeight addr);
  if nonempty bs then lift (unmarshal_amounts bs) else fail ErrNotExistUnstakingAmount.

Definition getUnstakingAmount (HyperAddr addr : Address) (UnstakedHeight : Z) : ctxM Z :=
  mp ← GetUnstakingAmountMap addr UnstakedHeight;
  match mp !! HyperAddr with Some am => mret am | None => fail ErrNotExistUnstakingAmount end.

Definition addUnstakingAmount (HyperAddr addr : Address) (UnstakedHeight am : Z) : ctxM unit :=
  nt_enter (process_space pid) (unstaking_keys UnstakedHeight) addr ;;
  r ← try (GetUnstakingAmountMap addr UnstakedHeight);
  mp ← match r with
       | inl mp => mret mp
       | inr err => if bool_decide (err = ErrNotExistUnstakingAmount) then mret ∅ else fail err
       end;
  let sum := default (Amount.NewCoinAmount 0 0) (mp !! HyperAddr) in
  data ← lift (marshal_amounts (<[HyperAddr := Amount.Add sum am]> mp));
  SetProcessData pid (toUnstakingAmountKey UnstakedHeight addr) data.

(** The amounts of the address stay. *)
Definition removeUnstakingAmount (addr : Address) (UnstakedHeight : Z) : ctxM unit :=
  ns ← ProcessData pid (toUnstakingAmountNumberKey UnstakedHeight addr);
  guard_err (negb (nonempty ns)) ErrNotExistUnstakingAmount ;;
  nt_leave (process_space pid) (unstaking_keys UnstakedHeight) addr ns.

(** The error of [removeUnstakingAmount] is ignored. *)
Definition subUnstakingAmount (HyperAddr addr : Address) (UnstakedHeight am : Z) : ctxM unit :=
  mp ← GetUnstakingAmountMap addr UnstakedHeight;
  match mp !! HyperAddr with
  | None => fail ErrNotExistUnstakingAmount
  | Some sum =>
      guard_err (Amount.Less sum am) ErrMinustUnstakingAmount ;;
      let sum := Amount.Sub sum am in
      let mp := if Amount.IsZero sum then delete HyperAddr mp else <[HyperAddr := sum]> mp in
      if (0 <? om_Len mp)%nat then
        data ← lift (marshal_amounts mp);
        SetProcessData pid (toUnstakingAmountKey UnstakedHeight addr) data
      else
        try (removeUnstakingAmount addr UnstakedHeight) ;;
        mret tt
  end.

Definition flushUnstakingAmountMap (RevokeHeight : Z) : ctxM (gmap Address (gmap Address Z)) :=
  nt_flush (process_space pid) (unstaking_keys RevokeHeight)
    (λ UnstakingAmountMap addr,
       mp ← GetUnstakingAmountMap addr RevokeHeight;
       SetProcessData pid (toUnstakingAmountKey RevokeHeight addr) [] ;;
       mret (<[addr := mp]> UnstakingAmountMap)) ∅.

(** *** Policies *)

Definition policy_at {T} `{Codec T} (tag : bytes) : ctxM T :=
  bs ← ProcessData pid tag;
  lift (unmarshal_deref bs).
Definition GetRewardPolicy : ctxM (option RewardPolicy) :=
  bs ← ProcessData pid tagRewardPolicy;
  lift (unmarshal bs).
Definition GetTransmutePolicy : ctxM TransmutePolicy :=
  bs ← ProcessData pid tagTransmutePolicy;
  guard_err (length bs =? 0)%nat ErrNotExistTransmutePolicy ;;
  lift (unmarshal_deref bs).

Definition IsRewardBaseUpgrade : ctxM bool :=
  bs ← ProcessData pid tagRewardBaseUpgrade;
  mret (match bs with b :: _ => b =? 1 | [] => false end).
Definition setRewardBaseUpgrade (Enable : bool) : ctxM unit :=
  SetProcessData pid tagRewardBaseUpgrade (if Enable then [1] else []).

(** *** Accounts *)

(** [frAcc, is := acc.(FormulatorAccount); if !is { return ErrInvalidAccountType }]. *)
Definition Formulator_at (addr : Address) : ctxM FormulatorAccount :=
  acc ← Account addr;
  match to_formulator acc with Some frAcc => mret frAcc | None => fail ErrInvalidAccountType end.
(** [frAcc := acc.(FormulatorAccount)]. *)
Definition Formulator_must (addr : Address) : ctxM FormulatorAccount :=
  acc ← Account addr;
  lift (of_option (to_formulator acc)).

Definition toHyperFormulator (addr : Address) : ctxM FormulatorAccount :=
  frAcc ← Formulator_at addr;
  guard_err (negb (is_hyper frAcc)) ErrInvalidAccountType ;;
  mret frAcc.

(** An assignment to fields of the account object of [addr]. *)
Definition assign (addr : Address) (frAcc : FormulatorAccount) : ctxM unit :=
  AssignAccount addr (of_formulator frAcc).
(** [frAcc.StakingAmount = frAcc.StakingAmount.Add(am)]. *)
Definition grow_staking (addr : Address) (frAcc : FormulatorAccount) (am : Z) : ctxM FormulatorAccount :=
  sa ← lift (StakingAmount frAcc);
  let frAcc := set_StakingAmount (Amount.Add sa am) frAcc in
  assign addr frAcc ;;
  mret frAcc.

(** Does the account exist, for code that takes a deleted one as missing. *)
Definition is_alive (addr : Address) : ctxM bool :=
  r ← try (HasAccount addr);
  match r with
  | inr err => if bool_decide (err = ErrDeletedAccount) then mret false else fail err
  | inl has => mret has
  end.

(** The loop of [revokeFormulator] over what was staked. *)
Definition pay_back (FormulatorAddr : Address) (frAcc : FormulatorAccount) (e : Address * Z) : ctxM FormulatorAccount :=
  let '(addr, am) := e in
  guard_err (Amount.IsZero am) ErrInvalidStakingAddress ;;
  sa ← lift (StakingAmount frAcc);
  guard_err (Amount.Less sa am) ErrCriticalStakingAmount ;;
  let frAcc := set_StakingAmount (Amount.Sub sa am) frAcc in
  assign FormulatorAddr frAcc ;;
  AddBalance vault_pid addr am ;;
  mret frAcc.

(** [range] is the order in which Go iterates the map of the staked amounts. *)
Definition revokeFormulator (range : gmap Address Z → list (Address * Z)) (FormulatorAddr Heritor : Address)
    : ctxM unit :=
  frAcc ← Formulator_at FormulatorAddr;
  has ← is_alive Heritor;
  (if (has : bool) then
     AddBalance vault_pid Heritor (fr_Amount frAcc) ;;
     b ← Balance vault_pid FormulatorAddr;
     AddBalance vault_pid Heritor b ;;
     RemoveBalance vault_pid FormulatorAddr
   else mret tt) ;;
  frAcc ← (if is_hyper frAcc then
             StakingAmountMap ← GetStakingAmountMap FormulatorAddr;
             frAcc ← fold_m (pay_back FormulatorAddr) frAcc (range StakingAmountMap);
             sa ← lift (StakingAmount frAcc);
             guard_err (negb (Amount.IsZero sa)) ErrCriticalStakingAmount ;;
             mret frAcc
           else mret frAcc);
  DeleteAccount (of_formulator frAcc) ;;
  h ← TargetHeight;
  EmitEvent (of_revoked (mkRevoked h 65535 0 FormulatorAddr)).

End Formulator.
