(* ===== verification/FormulatorTx.v ===== *)
(** * process/formulator: the transactions

    The twenty transactions tx_*.go of the process, [Validate] and [Execute]
    of each.  Pointers that the code dereferences are options here where they
    can be [nil]; [Validate] refuses those that [Execute] follows. *)

From S2P Require Import Prelude Tokens Amount Common Context OrderedMaps Vault Numbered Formulator.

Definition formulator_Name : bytes := str "fleta.formulator".

Inductive formulator_tx :=
  | CreateAlpha (Timestamp : Z) (From : Address) (Name : bytes) (KeyHash GenHash : PublicHash)
  | CreateSigma (Timestamp : Z) (From : Address) (AlphaFormulators : list Address)
  | CreateOmega (Timestamp : Z) (From : Address) (SigmaFormulators : list Address)
  | CreateHyper (Timestamp : Z) (From : Address) (Name : bytes) (KeyHash GenHash : PublicHash)
      (Policy : option ValidatorPolicy)
  | Revoke (Timestamp : Z) (From Heritor : Address)
  | Staking (Timestamp : Z) (From HyperFormulator : Address) (Amount : Z)
  | Unstaking (Timestamp : Z) (From HyperFormulator : Address) (Amount : Z)
  | UpdateValidatorPolicy (Timestamp : Z) (From : Address) (Policy : option ValidatorPolicy)
  | UpdateUserAutoStaking (Timestamp : Z) (From HyperFormulator : Address) (AutoStaking : bool)
  | ChangeOwner (Timestamp : Z) (From : Address) (KeyHash GenHash : PublicHash)
  | RevertRevoke (Timestamp : Z) (From : Address)
  | RevertUnstaking (Timestamp : Z) (From HyperFormulator : Address) (UnstakedHeight Amount : Z)
  | Transmute (Timestamp : Z) (From : Address) (Name : bytes) (KeyHash GenHash : PublicHash)
      (HyperFormulators : list Address) (Amounts : list Z)
  | UpdateRewardPolicy (Timestamp : Z) (From : Address) (Policy : option RewardPolicy)
  | UpdateTransmutePolicy (Timestamp : Z) (From : Address) (Policy : option TransmutePolicy)
  | UpdateRewardBaseUpgrade (Timestamp : Z) (From : Address) (Enable : bool)
  | RevokeAdmin (Timestamp : Z) (From Formulator Heritor : Address)
  | UpdateHyperPolicy (Timestamp : Z) (From : Address) (Policy : option HyperPolicy)
  | WithdrawOverAmount (Timestamp : Z) (From : Address)
  | ChangeStaking (Timestamp : Z) (From HyperUnstaking HyperStaking : Address) (Amount : Z).

Section FormulatorTx.
Context {A E : Type} `{AI : AccountI A} `{EI : EventI E} `{B58 : Base58}.
Context `{FA : !FormulatorAccounts A} `{FE : FormulatorEvents E} `{TK : TokenCodec} `{PCs : PolicyCodecs}.
Context (pid vault_pid admin_pid magic : Z).

Abbreviation ctxM := (M (Ctx A E)).
Abbreviation Fee := (GetDefaultFee vault_pid : ctxM Z).

(** [if tx.From() != sp.admin.AdminAddress(loader, p.Name())]. *)
Definition by_admin (from : Address) : ctxM unit :=
  adm ← AdminAddress admin_pid formulator_Name;
  guard_err (negb (bool_decide (from = adm))) ErrUnauthorizedTransaction.

Definition a_tenth : ctxM Z := lift (Amount.DivC Amount.COIN 10).

(** The account object of a new formulator. *)
Definition new_formulator (height index : Z) (name : bytes) (t : FormulatorType) (key gen : PublicHash) (am : Z)
    : FormulatorAccount :=
  mkFormulator (NewAddress height index magic) name t key gen am false 0 height 0.

(** ** Creation *)

Definition CreateAlpha_Validate (from : Address) (name : bytes) (signers : list PublicHash) : ctxM unit :=
  guard_err (negb (IsAllowedAccountName name)) ErrInvalidAccountName ;;
  name_is_new name ;;
  validate_signers from signers ;;
  policy ← policy_at (T:=AlphaPolicy) pid tagAlphaPolicy;
  h ← TargetHeight;
  guard_err (h <? AlphaCreationLimitHeight policy) ErrAlphaCreationLimited ;;
  CheckFeePayableWith vault_pid from Fee (Some (AlphaCreationAmount policy)).

Definition CreateAlpha_Execute (from : Address) (name : bytes) (key gen : PublicHash) (index : Z) : ctxM unit :=
  WithFee vault_pid from Fee (
    policy ← policy_at (T:=AlphaPolicy) pid tagAlphaPolicy;
    SubBalance vault_pid from (AlphaCreationAmount policy) ;;
    h ← TargetHeight;
    CreateAccount (of_formulator (new_formulator h index name AlphaFormulatorType key gen (AlphaCreationAmount policy)))).

Definition CreateHyper_Validate (from : Address) (name : bytes) (policy : option ValidatorPolicy)
    (signers : list PublicHash) : ctxM unit :=
  by_admin from ;;
  policy ← match policy with Some pc => mret pc | None => fail ErrInvalidValidatorPolicy end;
  guard_err (1000 <? CommissionRatio1000 policy) ErrInvalidValidatorPolicy ;;
  r ← try (HasAccountName name);
  match r with
  | inr err => guard_err (negb (bool_decide (err = ErrDeletedAccount))) err
  | inl has => guard_err has ErrExistAccountName
  end ;;
  validate_signers from signers.

Definition CreateHyper_Execute (from : Address) (name : bytes) (key gen : PublicHash)
    (vpolicy : option ValidatorPolicy) (index : Z) : ctxM unit :=
  policy ← policy_at (T:=HyperPolicy) pid tagHyperPolicy;
  SubBalance vault_pid from (HyperCreationAmount policy) ;;
  h ← TargetHeight;
  vpolicy ← lift (of_option vpolicy);
  CreateAccountIgnoreDelete (of_formulator (new_formulator h index name
    (HyperFormulatorType (Amount.NewCoinAmount 0 0) vpolicy) key gen (HyperCreationAmount policy))).

(** [CreateSigma] and [CreateOmega]: several formulators of one type become
    one of the next. *)
Section Merge.
(** The type that is merged and the requirements of the policy. *)
Context (is_sub : FormulatorType → bool) (RequiredBlocks RequiredCount : Z) (NotAllowed : error).

Definition merge_member (rewardPolicy : option RewardPolicy) (signers : list PublicHash) (e : nat * Address) : ctxM unit :=
  let '(i, addr) := e in
  frAcc ← Formulator_at addr;
  guard_err (negb (is_sub (fr_Type frAcc))) ErrInvalidAccountType ;;
  h ← TargetHeight;
  guard_err (u32 (h + fr_PreHeight frAcc) <? u32 (fr_UpdatedHeight frAcc + RequiredBlocks)) ErrInsufficientFormulatorBlocks ;;
  signer ← lift (of_option (signers !! i));
  lift (fr_Validate frAcc [signer]) ;;
  up ← IsRewardBaseUpgrade pid;
  if (up : bool) then
    rp ← lift (of_option rewardPolicy);
    guard_err (u32 (u32 (fr_RewardCount frAcc * PayRewardEveryBlocks rp) + fr_PreHeight frAcc) <? RequiredBlocks)
      ErrInsufficientFormulatorRewardCount
  else mret tt.

Definition merge_Validate_rest (from : Address) (subs : list Address) (signers : list PublicHash) : ctxM unit :=
  guard_err (RequiredCount =? 0) NotAllowed ;;
  guard_err (negb (Z.of_nat (length subs) =? RequiredCount)) ErrInvalidFormulatorCount ;;
  rewardPolicy ← GetRewardPolicy pid;
  for_each (merge_member rewardPolicy signers) (imap pair subs) ;;
  CheckFeePayable vault_pid from Fee.
End Merge.

(** The checks before the policy is read. *)
Definition merge_Validate_first (from : Address) (subs : list Address) (signers : list PublicHash) : ctxM unit :=
  first ← lift (of_option (head subs));
  guard_err (negb (bool_decide (from = first))) ErrInvalidFormulatorAddress ;;
  guard_err (negb (length subs =? length signers)%nat) ErrInvalidSignerCount.

Definition is_alpha (t : FormulatorType) : bool := match t with AlphaFormulatorType => true | _ => false end.
Definition is_sigma (t : FormulatorType) : bool := match t with SigmaFormulatorType => true | _ => false end.

Definition CreateSigma_Validate (from : Address) (subs : list Address) (signers : list PublicHash) : ctxM unit :=
  merge_Validate_first from subs signers ;;
  policy ← policy_at (T:=SigmaPolicy) pid tagSigmaPolicy;
  merge_Validate_rest is_alpha (SigmaRequiredAlphaBlocks policy) (SigmaRequiredAlphaCount policy)
    ErrSigmaCreationNotAllowed from subs signers.

Definition CreateOmega_Validate (from : Address) (subs : list Address) (signers : list PublicHash) : ctxM unit :=
  merge_Validate_first from subs signers ;;
  policy ← policy_at (T:=OmegaPolicy) pid tagOmegaPolicy;
  merge_Validate_rest is_sigma (OmegaRequiredSigmaBlocks policy) (OmegaRequiredSigmaCount policy)
    ErrOmegaCreationNotAllowed from subs signers.

(** One turn of the loop over the others. *)
Definition merge_step (first : Address) (frAcc : FormulatorAccount) (addr : Address) : ctxM FormulatorAccount :=
  subAcc ← Formulator_must addr;
  b ← Balance vault_pid addr;
  AddBalance vault_pid first b ;;
  RemoveBalance vault_pid addr ;;
  let frAcc := set_fr_Amount (Amount.Add (fr_Amount frAcc) (fr_Amount subAcc)) frAcc in
  assign first frAcc ;;
  DeleteAccount (of_formulator subAcc) ;;
  mret frAcc.

Definition merge_fn (t : FormulatorType) (subs : list Address) : ctxM unit :=
  first ← lift (of_option (head subs));
  frAcc ← Formulator_must first;
  frAcc ← fold_m (merge_step first) frAcc (tail subs);
  h ← TargetHeight;
  assign first (set_fr_Heights 0 h 0 (set_fr_Type t frAcc)).

Definition CreateSigma_Execute (from : Address) (subs : list Address) : ctxM unit :=
  WithFee vault_pid from Fee (
    bs ← ProcessData pid tagSigmaPolicy;
    lift (unmarshal bs : res (option SigmaPolicy)) ;;
    merge_fn SigmaFormulatorType subs).

Definition CreateOmega_Execute (from : Address) (subs : list Address) : ctxM unit :=
  WithFee vault_pid from Fee (
    bs ← ProcessData pid tagOmegaPolicy;
    lift (unmarshal bs : res (option OmegaPolicy)) ;;
    merge_fn OmegaFormulatorType subs).

(** ** Revocation *)

Definition Revoke_Validate (from heritor : Address) (signers : list PublicHash) : ctxM unit :=
  guard_err (bool_decide (from = heritor)) ErrInvalidHeritor ;;
  must_exist heritor ;;
  frAcc ← Formulator_at from;
  guard_err (fr_IsRevoked frAcc) ErrRevokedFormulator ;;
  lift (fr_Validate frAcc signers) ;;
  CheckFeePayable vault_pid from Fee.

(** The number of blocks until a revoked formulator is paid out. *)
Definition unlock_blocks (t : FormulatorType) : ctxM Z :=
  match t with
  | AlphaFormulatorType => policy ← policy_at (T:=AlphaPolicy) pid tagAlphaPolicy; mret (AlphaUnlockRequiredBlocks policy)
  | SigmaFormulatorType => policy ← policy_at (T:=SigmaPolicy) pid tagSigmaPolicy; mret (SigmaUnlockRequiredBlocks policy)
  | OmegaFormulatorType => policy ← policy_at (T:=OmegaPolicy) pid tagOmegaPolicy; mret (OmegaUnlockRequiredBlocks policy)
  | HyperFormulatorType _ _ =>
      policy ← policy_at (T:=HyperPolicy) pid tagHyperPolicy; mret (HyperUnlockRequiredBlocks policy)
  | OtherFormulatorType _ => fail ErrInvalidAccountType
  end.

Definition Revoke_Execute (from heritor : Address) : ctxM unit :=
  WithFee vault_pid from Fee (
    frAcc ← Formulator_must from;
    let frAcc := set_fr_IsRevoked true frAcc in
    assign from frAcc ;;
    n ← unlock_blocks (fr_Type frAcc);
    h ← TargetHeight;
    addRevokedFormulator pid (fr_Address frAcc) (u32 (h + n)) heritor).

Definition RevertRevoke_Validate (from : Address) (signers : list PublicHash) : ctxM unit :=
  frAcc ← Formulator_at from;
  guard_err (negb (fr_IsRevoked frAcc)) ErrNotRevoked ;;
  lift (fr_Validate frAcc signers) ;;
  CheckFeePayable vault_pid from Fee.

Definition RevertRevoke_Execute (from : Address) : ctxM unit :=
  WithFee vault_pid from Fee (
    frAcc ← Formulator_must from;
    assign from (set_fr_IsRevoked false frAcc) ;;
    removeRevokedFormulator pid (fr_Address frAcc)).

Definition RevokeAdmin_Validate (from formulator heritor : Address) (signers : list PublicHash) : ctxM unit :=
  by_admin from ;;
  guard_err (bool_decide (formulator = heritor)) ErrInvalidHeritor ;;
  must_exist heritor ;;
  validate_signers from signers ;;
  frAcc ← Formulator_at formulator;
  guard_err (fr_IsRevoked frAcc) ErrRevokedFormulator ;;
  CheckFeePayable vault_pid from Fee.

Definition RevokeAdmin_Execute (range : gmap Address Z → list (Address * Z)) (from formulator heritor : Address) : ctxM unit :=
  WithFee vault_pid from Fee (
    frAcc ← Formulator_must formulator;
    assign formulator (set_fr_IsRevoked true frAcc) ;;
    revokeFormulator pid vault_pid range formulator heritor).

(** ** Staking *)

Definition Staking_Validate (from hyper : Address) (am : Z) (signers : list PublicHash) : ctxM unit :=
  tenth ← a_tenth;
  guard_err (Amount.Less am tenth) ErrInvalidStakingAmount ;;
  guard_err (bool_decide (from = hyper)) ErrInvalidStakingAddress ;;
  frAcc ← toHyperFormulator hyper;
  guard_err (fr_IsRevoked frAcc) ErrRevokedFormulator ;;
  pc ← lift (HPolicy frAcc);
  guard_err (negb (Amount.IsZero (MinimumStaking pc)) && Amount.Less am (MinimumStaking pc)) ErrInvalidStakingAmount ;;
  validate_signers from signers ;;
  CheckFeePayableWith vault_pid from Fee (Some am).

Definition Staking_fn (from hyper : Address) (am : Z) : ctxM unit :=
  frAcc ← Formulator_must hyper;
  fromAcc ← Account from;
  SubBalance vault_pid (acc_Address fromAcc) am ;;
  AddStakingAmount pid hyper from am ;;
  grow_staking hyper frAcc am ;;
  mret tt.
Definition Staking_Execute (from hyper : Address) (am : Z) : ctxM unit :=
  WithFee vault_pid from Fee (Staking_fn from hyper am).

Definition Unstaking_Validate (from hyper : Address) (am : Z) (signers : list PublicHash) : ctxM unit :=
  guard_err (Amount.Less am Amount.COIN) ErrInvalidStakingAmount ;;
  frAcc ← toHyperFormulator hyper;
  validate_signers from signers ;;
  fromStakingAmount ← GetStakingAmount pid hyper from;
  guard_err (Amount.Less fromStakingAmount am) ErrInsufficientStakingAmount ;;
  sa ← lift (StakingAmount frAcc);
  guard_err (Amount.Less sa am) ErrInsufficientStakingAmount.

(** [if err := CheckFeePayable(...); err != nil { take the fee out of am } else { WithFee(...) }]. *)
Definition fee_from_amount (from : Address) (am : Z) (fn : Z → ctxM unit) : ctxM unit :=
  r ← try (CheckFeePayable vault_pid from Fee);
  match r with
  | inr _ =>
      fee ← Fee;
      AddCollectedFee vault_pid fee ;;
      fn (Amount.Sub am fee)
  | inl _ => WithFee vault_pid from Fee (fn am)
  end.

Definition Unstaking_Execute (from hyper : Address) (am : Z) : ctxM unit :=
  frAcc ← Formulator_must hyper;
  subStakingAmount pid hyper from am ;;
  sa ← lift (StakingAmount frAcc);
  assign hyper (set_StakingAmount (Amount.Sub sa am) frAcc) ;;
  policy ← policy_at (T:=HyperPolicy) pid tagHyperPolicy;
  fee_from_amount from am (λ am,
    h ← TargetHeight;
    addUnstakingAmount pid hyper from (u32 (h + StakingUnlockRequiredBlocks policy)) am).

Definition RevertUnstaking_Validate (from hyper : Address) (UnstakedHeight am : Z) (signers : list PublicHash) : ctxM unit :=
  guard_err (Amount.Less am Amount.COIN) ErrInvalidStakingAmount ;;
  toHyperFormulator hyper ;;
  validate_signers from signers ;;
  u ← getUnstakingAmount pid hyper from UnstakedHeight;
  guard_err (Amount.Less u am) ErrMinustUnstakingAmount.

Definition RevertUnstaking_Execute (from hyper : Address) (UnstakedHeight am : Z) : ctxM unit :=
  frAcc ← Formulator_must hyper;
  subUnstakingAmount pid hyper from UnstakedHeight am ;;
  fee_from_amount from am (λ am,
    AddStakingAmount pid hyper from am ;;
    grow_staking hyper frAcc am ;;
    mret tt).

Definition ChangeStaking_Validate (from unstaking staking : Address) (am : Z) (signers : list PublicHash) : ctxM unit :=
  tenth ← a_tenth;
  guard_err (Amount.Less am tenth) ErrInvalidStakingAmount ;;
  guard_err (bool_decide (from = staking)) ErrInvalidStakingAddress ;;
  frUnstaking ← toHyperFormulator unstaking;
  fromStakingAmount ← GetStakingAmount pid unstaking from;
  guard_err (Amount.Less fromStakingAmount am) ErrInsufficientStakingAmount ;;
  sa ← lift (StakingAmount frUnstaking);
  guard_err (Amount.Less sa am) ErrInsufficientStakingAmount ;;
  frStaking ← toHyperFormulator staking;
  guard_err (fr_IsRevoked frStaking) ErrRevokedFormulator ;;
  pc ← lift (HPolicy frStaking);
  guard_err (negb (Amount.IsZero (MinimumStaking pc)) && Amount.Less am (MinimumStaking pc)) ErrInvalidStakingAmount ;;
  validate_signers from signers.

Definition ChangeStaking_Execute (from unstaking staking : Address) (am : Z) : ctxM unit :=
  frUnstaking ← toHyperFormulator unstaking;
  subStakingAmount pid unstaking from am ;;
  sa ← lift (StakingAmount frUnstaking);
  assign unstaking (set_StakingAmount (Amount.Sub sa am) frUnstaking) ;;
  frStaking ← toHyperFormulator staking;
  fee_from_amount from am (λ am,
    AddStakingAmount pid staking from am ;;
    grow_staking staking frStaking am ;;
    mret tt).

(** ** Transmute: staked amounts become an alpha formulator *)

(** The height is in the range of the policy. *)
Definition transmute_height : ctxM unit :=
  tp ← GetTransmutePolicy pid;
  h ← TargetHeight;
  guard_err (h <? TransmuteEnableHeightFrom tp) ErrInvalidTransmuteHeight ;;
  guard_err (TransmuteEnableHeightTo tp <? h) ErrInvalidTransmuteHeight.

Definition sum_amounts (ams : list Z) : ctxM Z :=
  fold_m (λ sum am, guard_err (Amount.Less am Amount.COIN) ErrInvalidStakingAmount ;; mret (Amount.Add sum am))
    (Amount.NewCoinAmount 0 0) ams.

Definition transmute_source (from : Address) (ams : list Z) (e : nat * Address) : ctxM unit :=
  let '(i, haddr) := e in
  am ← lift (of_option (ams !! i));
  frAcc ← toHyperFormulator haddr;
  fromStakingAmount ← GetStakingAmount pid haddr from;
  guard_err (Amount.Less fromStakingAmount am) ErrInsufficientStakingAmount ;;
  sa ← lift (StakingAmount frAcc);
  guard_err (Amount.Less sa am) ErrInsufficientStakingAmount.

Definition Transmute_Validate (from : Address) (name : bytes) (hypers : list Address) (ams : list Z)
    (signers : list PublicHash) : ctxM unit :=
  guard_err (negb (IsAllowedAccountName name)) ErrInvalidAccountName ;;
  transmute_height ;;
  guard_err (10 <? length ams)%nat ErrInvalidTransmuteCount ;;
  guard_err (negb (length ams =? length hypers)%nat) ErrInvalidTransmuteCount ;;
  name_is_new name ;;
  alphaPolicy ← policy_at (T:=AlphaPolicy) pid tagAlphaPolicy;
  h ← TargetHeight;
  guard_err (h <? AlphaCreationLimitHeight alphaPolicy) ErrAlphaCreationLimited ;;
  sum ← sum_amounts ams;
  guard_err (negb (Amount.Equal sum (AlphaCreationAmount alphaPolicy))) ErrInvalidTransmuteAmount ;;
  for_each (transmute_source from ams) (imap pair hypers) ;;
  validate_signers from signers.

Definition transmute_take (from : Address) (ams : list Z) (e : nat * Address) : ctxM unit :=
  let '(i, haddr) := e in
  am ← lift (of_option (ams !! i));
  frAcc ← Formulator_must haddr;
  subStakingAmount pid haddr from am ;;
  sa ← lift (StakingAmount frAcc);
  assign haddr (set_StakingAmount (Amount.Sub sa am) frAcc).

Definition Transmute_Execute (from : Address) (name : bytes) (key gen : PublicHash) (hypers : list Address)
    (ams : list Z) (index : Z) : ctxM unit :=
  transmute_height ;;
  for_each (transmute_take from ams) (imap pair hypers) ;;
  policy ← policy_at (T:=AlphaPolicy) pid tagAlphaPolicy;
  h ← TargetHeight;
  CreateAccount (of_formulator (new_formulator h index name AlphaFormulatorType key gen (AlphaCreationAmount policy))).

(** ** Settings *)

Definition UpdateValidatorPolicy_Validate (from : Address) (policy : option ValidatorPolicy) (signers : list PublicHash)
    : ctxM unit :=
  pc ← match policy with Some pc => mret pc | None => fail ErrInvalidValidatorPolicy end;
  guard_err (1000 <=? CommissionRatio1000 pc) ErrInvalidValidatorPolicy ;;
  guard_err (PayOutInterval pc <=? 0) ErrInvalidValidatorPolicy ;;
  guard_err (30 <? PayOutInterval pc) ErrInvalidValidatorPolicy ;;
  frAcc ← Formulator_at from;
  guard_err (negb (is_hyper frAcc)) ErrNotHyperFormulator ;;
  lift (fr_Validate frAcc signers).

Definition UpdateValidatorPolicy_Execute (from : Address) (policy : option ValidatorPolicy) : ctxM unit :=
  frAcc ← Formulator_must from;
  pc ← lift (of_option policy);
  assign from (set_HPolicy pc frAcc).

Definition UpdateUserAutoStaking_Validate (from hyper : Address) (signers : list PublicHash) : ctxM unit :=
  toHyperFormulator hyper ;;
  validate_signers from signers ;;
  CheckFeePayable vault_pid from Fee.

Definition UpdateUserAutoStaking_Execute (from hyper : Address) (auto : bool) : ctxM unit :=
  WithFee vault_pid from Fee (
    frAcc ← Formulator_must hyper;
    setUserAutoStaking pid (fr_Address frAcc) from auto).

Definition ChangeOwner_Validate (from : Address) (signers : list PublicHash) : ctxM unit :=
  frAcc ← Formulator_at from;
  lift (fr_Validate frAcc signers) ;;
  CheckFeePayable vault_pid from Fee.

Definition ChangeOwner_Execute (from : Address) (key gen : PublicHash) : ctxM unit :=
  WithFee vault_pid from Fee (
    frAcc ← Formulator_must from;
    assign from (set_fr_Keys key gen frAcc)).

Definition UpdateRewardPolicy_Validate (from : Address) (policy : option RewardPolicy) (signers : list PublicHash) : ctxM unit :=
  by_admin from ;;
  guard_err (negb (bool_decide (is_Some policy))) ErrInvalidRewardPolicy ;;
  validate_signers from signers.
Definition UpdateRewardPolicy_Execute (policy : option RewardPolicy) : ctxM unit :=
  bs ← lift (marshal policy);
  SetProcessData pid tagRewardPolicy bs.

Definition UpdateHyperPolicy_Validate (from : Address) (policy : option HyperPolicy) (signers : list PublicHash) : ctxM unit :=
  by_admin from ;;
  guard_err (negb (bool_decide (is_Some policy))) ErrInvalidHyperPolicy ;;
  validate_signers from signers.
Definition UpdateHyperPolicy_Execute (policy : option HyperPolicy) : ctxM unit :=
  bs ← lift (marshal policy);
  SetProcessData pid tagHyperPolicy bs.

Definition UpdateTransmutePolicy_Validate (from : Address) (signers : list PublicHash) : ctxM unit :=
  by_admin from ;;
  validate_signers from signers.
Definition UpdateTransmutePolicy_Execute (policy : option TransmutePolicy) : ctxM unit :=
  match policy with
  | None => SetProcessData pid tagTransmutePolicy []
  | Some _ =>
      bs ← lift (marshal policy);
      SetProcessData pid tagTransmutePolicy bs
  end.

Definition UpdateRewardBaseUpgrade_Validate (from : Address) (signers : list PublicHash) : ctxM unit :=
  by_admin from ;;
  validate_signers from signers.
Definition UpdateRewardBaseUpgrade_Execute (Enable : bool) : ctxM unit := setRewardBaseUpgrade pid Enable.

(** The amount that a formulator of a type has to keep. *)
Definition required_amount (t : FormulatorType) : ctxM Z :=
  match t with
  | AlphaFormulatorType =>
      policy ← policy_at (T:=AlphaPolicy) pid tagAlphaPolicy;
      mret (AlphaCreationAmount policy)
  | SigmaFormulatorType =>
      alphaPolicy ← policy_at (T:=AlphaPolicy) pid tagAlphaPolicy;
      policy ← policy_at (T:=SigmaPolicy) pid tagSigmaPolicy;
      mret (Amount.MulC (AlphaCreationAmount alphaPolicy) (SigmaRequiredAlphaCount policy))
  | OmegaFormulatorType =>
      alphaPolicy ← policy_at (T:=AlphaPolicy) pid tagAlphaPolicy;
      sigmaPolicy ← policy_at (T:=SigmaPolicy) pid tagSigmaPolicy;
      policy ← policy_at (T:=OmegaPolicy) pid tagOmegaPolicy;
      mret (Amount.MulC (Amount.MulC (AlphaCreationAmount alphaPolicy) (SigmaRequiredAlphaCount sigmaPolicy))
              (OmegaRequiredSigmaCount policy))
  | HyperFormulatorType _ _ =>
      policy ← policy_at (T:=HyperPolicy) pid tagHyperPolicy;
      mret (HyperCreationAmount policy)
  | OtherFormulatorType _ => fail ErrInvalidAccountType
  end.

Definition WithdrawOverAmount_Validate (from : Address) (signers : list PublicHash) : ctxM unit :=
  frAcc ← Formulator_at from;
  guard_err (fr_IsRevoked frAcc) ErrRevokedFormulator ;;
  lift (fr_Validate frAcc signers) ;;
  requried ← required_amount (fr_Type frAcc);
  guard_err (negb (Amount.Less requried (fr_Amount frAcc))) ErrNoOverAmount.

Definition WithdrawOverAmount_Execute (from : Address) : ctxM unit :=
  frAcc ← Formulator_must from;
  requried ← required_amount (fr_Type frAcc);
  guard_err (negb (Amount.Less requried (fr_Amount frAcc))) ErrNoOverAmount ;;
  try (AddBalance vault_pid from (Amount.Sub (fr_Amount frAcc) requried)) ;;
  assign from (set_fr_Amount requried frAcc).

(** ** Dispatch *)

Definition ftx_Timestamp (tx : formulator_tx) : Z :=
  match tx with
  | CreateAlpha t _ _ _ _ | CreateSigma t _ _ | CreateOmega t _ _ | CreateHyper t _ _ _ _ _ | Revoke t _ _
  | Staking t _ _ _ | Unstaking t _ _ _ | UpdateValidatorPolicy t _ _ | UpdateUserAutoStaking t _ _ _
  | ChangeOwner t _ _ _ | RevertRevoke t _ | RevertUnstaking t _ _ _ _ | Transmute t _ _ _ _ _ _
  | UpdateRewardPolicy t _ _ | UpdateTransmutePolicy t _ _ | UpdateRewardBaseUpgrade t _ _
  | RevokeAdmin t _ _ _ | UpdateHyperPolicy t _ _ | WithdrawOverAmount t _ | ChangeStaking t _ _ _ _ => t
  end.

Definition formulator_Validate (tx : formulator_tx) (signers : list PublicHash) : ctxM unit :=
  match tx with
  | CreateAlpha _ from name _ _ => CreateAlpha_Validate from name signers
  | CreateSigma _ from subs => CreateSigma_Validate from subs signers
  | CreateOmega _ from subs => CreateOmega_Validate from subs signers
  | CreateHyper _ from name _ _ policy => CreateHyper_Validate from name policy signers
  | Revoke _ from heritor => Revoke_Validate from heritor signers
  | Staking _ from hyper am => Staking_Validate from hyper am signers
  | Unstaking _ from hyper am => Unstaking_Validate from hyper am signers
  | UpdateValidatorPolicy _ from policy => UpdateValidatorPolicy_Validate from policy signers
  | UpdateUserAutoStaking _ from hyper _ => UpdateUserAutoStaking_Validate from hyper signers
  | ChangeOwner _ from _ _ => ChangeOwner_Validate from signers
  | RevertRevoke _ from => RevertRevoke_Validate from signers
  | RevertUnstaking _ from hyper h am => RevertUnstaking_Validate from hyper h am signers
  | Transmute _ from name _ _ hypers ams => Transmute_Validate from name hypers ams signers
  | UpdateRewardPolicy _ from policy => UpdateRewardPolicy_Validate from policy signers
  | UpdateTransmutePolicy _ from _ => UpdateTransmutePolicy_Validate from signers
  | UpdateRewardBaseUpgrade _ from _ => UpdateRewardBaseUpgrade_Validate from signers
  | RevokeAdmin _ from formulator heritor => RevokeAdmin_Validate from formulator heritor signers
  | UpdateHyperPolicy _ from policy => UpdateHyperPolicy_Validate from policy signers
  | WithdrawOverAmount _ from => WithdrawOverAmount_Validate from signers
  | ChangeStaking _ from unstaking staking am => ChangeStaking_Validate from unstaking staking am signers
  end.

Definition formulator_Execute (range : gmap Address Z → list (Address * Z)) (tx : formulator_tx) (index : Z) : ctxM unit :=
  match tx with
  | CreateAlpha _ from name key gen => CreateAlpha_Execute from name key gen index
  | CreateSigma _ from subs => CreateSigma_Execute from subs
  | CreateOmega _ from subs => CreateOmega_Execute from subs
  | CreateHyper _ from name key gen policy => CreateHyper_Execute from name key gen policy index
  | Revoke _ from heritor => Revoke_Execute from heritor
  | Staking _ from hyper am => Staking_Execute from hyper am
  | Unstaking _ from hyper am => Unstaking_Execute from hyper am
  | UpdateValidatorPolicy _ from policy => UpdateValidatorPolicy_Execute from policy
  | UpdateUserAutoStaking _ from hyper auto => UpdateUserAutoStaking_Execute from hyper auto
  | ChangeOwner _ from key gen => ChangeOwner_Execute from key gen
  | RevertRevoke _ from => RevertRevoke_Execute from
  | RevertUnstaking _ from hyper h am => RevertUnstaking_Execute from hyper h am
  | Transmute _ from name key gen hypers ams => Transmute_Execute from name key gen hypers ams index
  | UpdateRewardPolicy _ _ policy => UpdateRewardPolicy_Execute policy
  | UpdateTransmutePolicy _ _ policy => UpdateTransmutePolicy_Execute policy
  | UpdateRewardBaseUpgrade _ _ b => UpdateRewardBaseUpgrade_Execute b
  | RevokeAdmin _ from formulator heritor => RevokeAdmin_Execute range from formulator heritor
  | UpdateHyperPolicy _ _ policy => UpdateHyperPolicy_Execute policy
  | WithdrawOverAmount _ from => WithdrawOverAmount_Execute from
  | ChangeStaking _ from unstaking staking am => ChangeStaking_Execute from unstaking staking am
  end.

End FormulatorTx.
