(* ===== verification/FormulatorReward.v ===== *)
(** * process/formulator: rewards, and the hooks of the process

    formulator.go: the settings at genesis, the check when the chain is
    loaded, and [AfterExecuteTransactions]: the block is counted for its
    generator; every [PayRewardEveryBlocks] blocks the reward of the period
    and the collected fees are shared by reward power; then the formulators
    and the staked amounts that are due at the height are paid out.

    Go iterates its maps in an order of its own; the orders of the loops are
    arguments. *)

From S2P Require Import Prelude Tokens Amount Common Context OrderedMaps Vault Numbered Formulator FormulatorTx.

(** The orders of the [range] loops over Go maps; a loop that runs once per
    hyper formulator has its address. *)
Record Ranges := mkRanges {
  rg_counts : gmap Address Z → list (Address * Z);
  rg_staked : Address → gmap Address Z → list (Address * Z);
  rg_cross : Address → gmap Address Z → list (Address * Z);
  rg_rewards : gmap Address Z → list (Address * Z);
  rg_stacked : gmap Address Z → list (Address * Z);
  rg_revoke : Address → gmap Address Z → list (Address * Z);
}.

Section Reward.
Context {A E : Type} `{AI : AccountI A} `{EI : EventI E} `{B58 : Base58}.
Context `{FA : !FormulatorAccounts A} `{FE : FormulatorEvents E} `{TK : TokenCodec} `{PCs : PolicyCodecs}.
Context (pid vault_pid admin_pid : Z) (rg : Ranges).

Abbreviation ctxM := (M (Ctx A E)).

(** ** Genesis and loading *)

Definition set_policy {T} `{Codec T} (tag : bytes) (p : option T) : ctxM unit :=
  bs ← lift (marshal p);
  SetProcessData pid tag bs.

Definition formulator_InitPolicy (rp : option RewardPolicy) (ap : option AlphaPolicy) (sp : option SigmaPolicy)
    (op : option OmegaPolicy) (hp : option HyperPolicy) : ctxM unit :=
  set_policy tagRewardPolicy rp ;;
  set_policy tagAlphaPolicy ap ;;
  set_policy tagSigmaPolicy sp ;;
  set_policy tagOmegaPolicy op ;;
  set_policy tagHyperPolicy hp.

Definition set_amounts (addr : Address) (tag : bytes) (m : gmap Address Z) : ctxM unit :=
  bs ← lift (marshal_amounts m);
  SetAccountData addr pid tag bs.

(** The map is copied entry by entry; the order does not show. *)
Definition InitStakingMap (HyperAddresses : list Address) : ctxM unit :=
  for_each (λ addr,
    AmountMap ← GetStakingAmountMap pid addr;
    set_amounts addr tagStakingAmountMap AmountMap) HyperAddresses.

Definition formulator_OnLoadChain : ctxM unit :=
  AdminAddress admin_pid formulator_Name ;;
  bs ← ProcessData pid tagRewardPolicy;
  guard_err (length bs =? 0)%nat ErrRewardPolicyShouldBeSetupInApplication ;;
  bs ← ProcessData pid tagAlphaPolicy;
  guard_err (length bs =? 0)%nat ErrAlphaPolicyShouldBeSetupInApplication ;;
  bs ← ProcessData pid tagSigmaPolicy;
  guard_err (length bs =? 0)%nat ErrSigmaPolicyShouldBeSetupInApplication ;;
  bs ← ProcessData pid tagOmegaPolicy;
  guard_err (length bs =? 0)%nat ErrOmegaPolicyShouldBeSetupInApplication ;;
  bs ← ProcessData pid tagHyperPolicy;
  guard_err (length bs =? 0)%nat ErrHyperPolicyShouldBeSetupInApplication.

(** ** The power of the generators *)

(** [am.MulC(GenCount).MulC(Efficiency).DivC(1000)]. *)
Definition power_of (am GenCount Efficiency : Z) : res Z :=
  Amount.DivC (Amount.MulC (Amount.MulC am GenCount) Efficiency) 1000.

(** [m := NewAddressAmountMap(); if bs := ...; len(bs) > 0 { Unmarshal(bs, &m) }]. *)
Definition amounts_or_empty (bs : bytes) : res (gmap Address Z) :=
  if nonempty bs then unmarshal_amounts bs else Ok ∅.

(** The loop over what is staked at a hyper formulator: the current amounts
    of stakers that exist, and the smaller of the last and the current amount
    of those that had staked before.  What a deleted account staked is taken
    out. *)
Definition staked_step (hyper : Address) (PrevAmountMap : gmap Address Z) (acc : gmap Address Z * gmap Address Z)
    (e : Address * Z) : ctxM (gmap Address Z * gmap Address Z) :=
  let '(CurrentAmountMap, CrossAmountMap) := acc in
  let '(StakingAddress, am) := e in
  alive ← is_alive StakingAddress;
  if (alive : bool) then
    let CurrentAmountMap := <[StakingAddress := am]> CurrentAmountMap in
    mret (CurrentAmountMap,
      match PrevAmountMap !! StakingAddress with
      | Some prev =>
          if negb (Amount.IsZero prev) && negb (Amount.IsZero am)
          then <[StakingAddress := if Amount.Less am prev then am else prev]> CrossAmountMap
          else CrossAmountMap
      | None => CrossAmountMap
      end)
  else
    try (subStakingAmount pid hyper StakingAddress am) ;;
    mret (CurrentAmountMap, CrossAmountMap).

(** The loop over the cross amounts: the staking powers and their weight. *)
Definition cross_step (GenCount Efficiency : Z) (acc : gmap Address Z * Z) (e : Address * Z) : ctxM (gmap Address Z * Z) :=
  let '(StakingPowerMap, StakingRewardPower) := acc in
  let '(StakingAddress, am) := e in
  w ← lift (power_of am GenCount Efficiency);
  mret (put_add StakingAddress am StakingPowerMap, Amount.Add StakingRewardPower w).

(** The sum of the staking powers of accounts that exist, and the map without
    the others. *)
Definition alive_powers (StakingPowerMap : gmap Address Z) : ctxM (Z * gmap Address Z) :=
  '(sum, Deleteds) ← fold_m (λ acc e,
      alive ← is_alive e.1;
      mret (if (alive : bool) then (Amount.Add acc.1 e.2, acc.2) else (acc.1, acc.2 ++ [e.1])))
    (Amount.NewCoinAmount 0 0, []) (sorted_entries StakingPowerMap);
  mret (sum, foldl (λ m a, delete a m) StakingPowerMap Deleteds).

(** The share of the stacked reward of a staking power is added to it. *)
Definition stack_step (Ratio GenCount Efficiency : Z) (acc : gmap Address Z * Z) (e : Address * Z) : ctxM (gmap Address Z * Z) :=
  let '(StakingPowerMap, StakingRewardPower) := acc in
  let '(StakingAddress, StakingPower) := e in
  StackStakingAmount ← lift (Amount.Div (Amount.Mul StakingPower Ratio) Amount.COIN);
  w ← lift (power_of StackStakingAmount GenCount Efficiency);
  mret (<[StakingAddress := Amount.Add StakingPower StackStakingAmount]> StakingPowerMap,
        Amount.Add StakingRewardPower w).

(** The branch of a hyper formulator: its staking reward power. *)
Definition hyper_power (policy : RewardPolicy) (hyper : Address) (GenCount : Z) (StackReward : option Z) : ctxM Z :=
  bs ← AccountData hyper pid tagStakingAmountMap;
  PrevAmountMap ← lift (amounts_or_empty bs);
  AmountMap ← GetStakingAmountMap pid hyper;
  '(CurrentAmountMap, CrossAmountMap) ← fold_m (staked_step hyper PrevAmountMap) (∅, ∅) (rg_staked rg hyper AmountMap);
  set_amounts hyper tagStakingAmountMap CurrentAmountMap ;;
  bs ← AccountData hyper pid tagStakingPowerMap;
  StakingPowerMap ← lift (amounts_or_empty bs);
  '(StakingPowerMap, StakingRewardPower) ←
    fold_m (cross_step GenCount (StakingEfficiency1000 policy)) (StakingPowerMap, Amount.NewCoinAmount 0 0)
      (rg_cross rg hyper CrossAmountMap);
  '(StakingPowerMap, StakingRewardPower) ←
    match StackReward with
    | None => mret (StakingPowerMap, StakingRewardPower)
    | Some StackReward =>
        '(StakingPowerSum, StakingPowerMap) ← alive_powers StakingPowerMap;
        if negb (Amount.IsZero StakingPowerSum) then
          Ratio ← lift (Amount.Div (Amount.Mul StackReward Amount.COIN) StakingPowerSum);
          fold_m (stack_step Ratio GenCount (StakingEfficiency1000 policy)) (StakingPowerMap, StakingRewardPower)
            (sorted_entries StakingPowerMap)
        else mret (StakingPowerMap, StakingRewardPower)
    end;
  set_amounts hyper tagStakingPowerMap StakingPowerMap ;;
  mret StakingRewardPower.

(** The variables of the first loop. *)
Record Powers := mkPowers {
  pw_ev : RewardEvent;
  pw_StackRewardMap : gmap Address Z;
  pw_Sum : Z;
  pw_RewardPowerMap : gmap Address Z;
  pw_StakingRewardPowerMap : gmap Address Z;
  pw_Hypers : list FormulatorAccount;
}.
Definition add_power (addr : Address) (am : Z) (pw : Powers) : Powers :=
  mkPowers (pw_ev pw) (pw_StackRewardMap pw) (Amount.Add (pw_Sum pw) am) (<[addr := am]> (pw_RewardPowerMap pw))
    (pw_StakingRewardPowerMap pw) (pw_Hypers pw).
Definition add_staking_power (addr : Address) (am : Z) (pw : Powers) : Powers :=
  mkPowers (pw_ev pw) (pw_StackRewardMap pw) (Amount.Add (pw_Sum pw) am) (pw_RewardPowerMap pw)
    (<[addr := am]> (pw_StakingRewardPowerMap pw)) (pw_Hypers pw).

(** The loop over the generators. *)
Definition gen_step (policy : RewardPolicy) (pw : Powers) (e : Address * Z) : ctxM Powers :=
  let '(GenAddress, GenCount) := e in
  let pw := mkPowers (PutGenBlock GenAddress GenCount (pw_ev pw)) (pw_StackRewardMap pw) (pw_Sum pw)
              (pw_RewardPowerMap pw) (pw_StakingRewardPowerMap pw) (pw_Hypers pw) in
  alive ← is_alive GenAddress;
  if negb alive then
    mret (mkPowers (pw_ev pw) (delete GenAddress (pw_StackRewardMap pw)) (pw_Sum pw) (pw_RewardPowerMap pw)
            (pw_StakingRewardPowerMap pw) (pw_Hypers pw))
  else
    frAcc ← Formulator_at GenAddress;
    if fr_IsRevoked frAcc then mret pw
    else
      let frAcc := set_fr_Heights (fr_PreHeight frAcc) (fr_UpdatedHeight frAcc) (u32 (fr_RewardCount frAcc + 1)) frAcc in
      assign GenAddress frAcc ;;
      match fr_Type frAcc with
      | AlphaFormulatorType =>
          am ← lift (power_of (fr_Amount frAcc) GenCount (AlphaEfficiency1000 policy));
          mret (add_power GenAddress am pw)
      | SigmaFormulatorType =>
          am ← lift (power_of (fr_Amount frAcc) GenCount (SigmaEfficiency1000 policy));
          mret (add_power GenAddress am pw)
      | OmegaFormulatorType =>
          am ← lift (power_of (fr_Amount frAcc) GenCount (OmegaEfficiency1000 policy));
          mret (add_power GenAddress am pw)
      | HyperFormulatorType _ _ =>
          let pw := mkPowers (pw_ev pw) (pw_StackRewardMap pw) (pw_Sum pw) (pw_RewardPowerMap pw)
                      (pw_StakingRewardPowerMap pw) (pw_Hypers pw ++ [frAcc]) in
          am ← lift (power_of (fr_Amount frAcc) GenCount (HyperEfficiency1000 policy));
          let pw := add_power GenAddress am pw in
          srp ← hyper_power policy (fr_Address frAcc) GenCount (pw_StackRewardMap pw !! fr_Address frAcc);
          mret (add_staking_power GenAddress srp pw)
      | OtherFormulatorType _ => fail ErrInvalidAccountType
      end.

(** ** Payments *)

(** [RewardPower.Mul(Ratio).Div(COIN)]. *)
Definition share (Ratio Power : Z) : res Z := Amount.Div (Amount.Mul Power Ratio) Amount.COIN.

Definition reward_step (Ratio : Z) (ev : RewardEvent) (e : Address * Z) : ctxM RewardEvent :=
  RewardAmount ← lift (share Ratio e.2);
  if negb (Amount.IsZero RewardAmount) then
    AddBalance vault_pid e.1 RewardAmount ;;
    mret (AddReward e.1 RewardAmount ev)
  else mret ev.

Definition stacked_step (Ratio : Z) (acc : gmap Address Z * RewardEvent) (e : Address * Z)
    : ctxM (gmap Address Z * RewardEvent) :=
  let '(StackRewardMap, ev) := acc in
  alive ← is_alive e.1;
  if (alive : bool) then
    RewardAmount ← lift (share Ratio e.2);
    mret (put_add e.1 RewardAmount StackRewardMap, AddStacked e.1 RewardAmount ev)
  else mret (StackRewardMap, ev).

(** The reward of the period and all collected fees. *)
Definition take_total (policy : RewardPolicy) (height lastPaidHeight : Z) : ctxM Z :=
  let TotalReward := Amount.MulC (RewardPerBlock policy) (u32 (height - lastPaidHeight)) in
  TotalFee ← CollectedFee vault_pid;
  SubCollectedFee vault_pid TotalFee ;;
  mret (Amount.Add TotalReward TotalFee).

Definition pay_rewards (policy : RewardPolicy) (height lastPaidHeight : Z) (pw : Powers)
    : ctxM (gmap Address Z * RewardEvent) :=
  if negb (Amount.IsZero (pw_Sum pw)) then
    TotalReward ← take_total policy height lastPaidHeight;
    Ratio ← lift (Amount.Div (Amount.Mul TotalReward Amount.COIN) (pw_Sum pw));
    ev ← fold_m (reward_step Ratio) (pw_ev pw) (rg_rewards rg (pw_RewardPowerMap pw));
    fold_m (stacked_step Ratio) (pw_StackRewardMap pw, ev) (rg_stacked rg (pw_StakingRewardPowerMap pw))
  else mret (pw_StackRewardMap pw, pw_ev pw).

(** One staker of a hyper formulator is paid or its reward staked again. *)
Definition staker_step (hyper : Address) (pc : ValidatorPolicy) (Ratio : Z) (acc : Z * RewardEvent) (e : Address * Z)
    : ctxM (Z * RewardEvent) :=
  let '(CommissionSum, ev) := acc in
  let '(StakingAddress, StakingPower) := e in
  RewardAmount ← lift (share Ratio StakingPower);
  '(CommissionSum, RewardAmount) ←
    (if 0 <? CommissionRatio1000 pc then
       Commission ← lift (Amount.DivC (Amount.MulC RewardAmount (CommissionRatio1000 pc)) 1000);
       mret (Amount.Add CommissionSum Commission, Amount.Sub RewardAmount Commission)
     else mret (CommissionSum, RewardAmount));
  if negb (Amount.IsZero RewardAmount) then
    auto ← GetUserAutoStaking pid hyper StakingAddress;
    if (auto : bool) then
      AddStakingAmount pid hyper StakingAddress RewardAmount ;;
      mret (CommissionSum, AddStaked hyper StakingAddress RewardAmount ev)
    else
      AddBalance vault_pid StakingAddress RewardAmount ;;
      mret (CommissionSum, AddStakeReward hyper StakingAddress RewardAmount ev)
  else mret (CommissionSum, ev).

(** The loop over the hyper formulators: those whose interval has passed pay
    out what is stacked. *)
Definition hyper_step (policy : RewardPolicy) (acc : gmap Address Z * RewardEvent) (frAcc : FormulatorAccount)
    : ctxM (gmap Address Z * RewardEvent) :=
  let '(StackRewardMap, ev) := acc in
  let hyper := fr_Address frAcc in
  match StackRewardMap !! hyper with
  | None => mret (StackRewardMap, ev)
  | Some StackReward =>
      let ev := RemoveStacked hyper ev in
      last ← getLastStakingPaidHeight pid hyper;
      pc ← lift (HPolicy frAcc);
      h ← TargetHeight;
      if u32 (last + u32 (PayRewardEveryBlocks policy * PayOutInterval pc)) <=? h then
        bs ← AccountData hyper pid tagStakingPowerMap;
        StakingPowerMap ← lift (amounts_or_empty bs);
        '(StakingPowerSum, StakingPowerMap) ← alive_powers StakingPowerMap;
        ev ← (if negb (Amount.IsZero StakingPowerSum) then
                Ratio ← lift (Amount.Div (Amount.Mul StackReward Amount.COIN) StakingPowerSum);
                '(CommissionSum, ev) ← fold_m (staker_step hyper pc Ratio) (Amount.NewCoinAmount 0 0, ev)
                                         (sorted_entries StakingPowerMap);
                if negb (Amount.IsZero CommissionSum) then
                  AddBalance vault_pid hyper CommissionSum ;;
                  mret (AddCommission hyper CommissionSum ev)
                else mret ev
              else mret ev);
        SetAccountData hyper pid tagStakingPowerMap [] ;;
        h ← TargetHeight;
        setLastStakingPaidHeight pid hyper h ;;
        mret (delete hyper StackRewardMap, ev)
      else mret (StackRewardMap, ev)
  end.

(** The part of [AfterExecuteTransactions] that runs when rewards are due. *)
Definition reward_round (policy : RewardPolicy) (lastPaidHeight : Z) : ctxM unit :=
  CountMap ← flushGenCountMap pid;
  h ← TargetHeight;
  let ev := mkRewardEvent h 65535 0 ∅ ∅ ∅ ∅ ∅ ∅ in
  bs ← ProcessData pid tagStackRewardMap;
  StackRewardMap ← lift (amounts_or_empty bs);
  pw ← fold_m (gen_step policy) (mkPowers ev StackRewardMap (Amount.NewCoinAmount 0 0) ∅ ∅ []) (rg_counts rg CountMap);
  '(StackRewardMap, ev) ← pay_rewards policy h lastPaidHeight pw;
  '(StackRewardMap, ev) ← fold_m (hyper_step policy) (StackRewardMap, ev) (pw_Hypers pw);
  bs ← lift (marshal_amounts StackRewardMap);
  SetProcessData pid tagStackRewardMap bs ;;
  EmitEvent (of_reward ev) ;;
  setLastPaidHeight pid h.

(** The amounts that are unstaked at the height are paid. *)
Definition unstaked_step (Addr : Address) (e : Address * Z) : ctxM unit :=
  let '(HyperAddr, am) := e in
  AddBalance vault_pid Addr am ;;
  h ← TargetHeight;
  EmitEvent (of_unstaked (mkUnstaked h 65535 0 HyperAddr Addr am)).

(** What is due at the height: revoked formulators and unstaked amounts. *)
Definition settle_revoked (h : Z) : ctxM unit :=
  RevokedMap ← flushRevokedFormulatorMap pid h;
  for_each (λ e, revokeFormulator pid vault_pid (rg_revoke rg e.1) e.1 e.2) (sorted_entries RevokedMap).
Definition settle_unstaked (h : Z) : ctxM unit :=
  UnstakedMap ← flushUnstakingAmountMap pid h;
  for_each (λ e, for_each (unstaked_step e.1) (sorted_entries e.2)) (sorted_entries UnstakedMap).

Definition formulator_After (Generator : Address) : ctxM unit :=
  addGenCount pid Generator ;;
  policy ← policy_at (T:=RewardPolicy) pid tagRewardPolicy;
  lastPaidHeight ← getLastPaidHeight pid;
  h ← TargetHeight;
  (if u32 (lastPaidHeight + PayRewardEveryBlocks policy) <=? h
   then reward_round policy lastPaidHeight else mret tt) ;;
  settle_revoked h ;;
  settle_unstaked h.

End Reward.
