(* ===== verification/FormulatorSpec.v ===== *)
(** * process/formulator: what the tables of stakes promise

    The specification of a hyper formulator is a finite map from the stakers
    to their stakes, all of them positive.  [AddStakingAmount],
    [subStakingAmount] and [GetStakingAmountMap] implement it on account data;
    the transactions keep the field [StakingAmount] of the account equal to
    the sum of the map, and a revocation pays everything back exactly when it
    is. *)

From S2P Require Import Prelude Tokens Amount Common Context ContextSpec ContextTrace OrderedMaps Vault VaultSpec DataRun VaultRun Numbered Formulator FormulatorTx.

(** ** The keys of the tables *)

Lemma staking_keys_laws : KeysLaws staking_keys.
Proof.
  split; unfold staking_keys; cbn [nk_number nk_reverse nk_count]; try done.
  - intros a b. unfold toStakingAmountNumberKey. by intros ?%app_inv_head.
  - intros i j Hi Hj. unfold toStakingAmountReverseKey. intros E0%app_inv_head.
    by apply BigEndian_Uint32ToBytes_inj in E0.
Qed.

Lemma gen_keys_laws : KeysLaws gen_keys.
Proof.
  split; unfold gen_keys; cbn [nk_number nk_reverse nk_count]; try done.
  - intros a b. unfold toGenCountNumberKey. by intros ?%app_inv_head.
  - intros i j Hi Hj. unfold toGenCountReverseKey. intros E0%app_inv_head.
    by apply BigEndian_Uint32ToBytes_inj in E0.
Qed.

(** ** Sums of maps *)

Lemma map_sum_empty : map_sum ∅ = 0.
Proof. done. Qed.
Lemma map_sum_insert m a x : m !! a = None → map_sum (<[a := x]> m) = x + map_sum m.
Proof. intros H. unfold map_sum. rewrite map_fold_insert_L; [done| |done]. intros. lia. Qed.
Lemma map_sum_delete m a x : m !! a = Some x → map_sum m = x + map_sum (delete a m).
Proof. intros H. rewrite <- (insert_delete_id m a x H) at 1. apply map_sum_insert, lookup_delete_eq. Qed.
Lemma map_sum_update m a x y : m !! a = Some x → map_sum (<[a := y]> m) = map_sum m - x + y.
Proof.
  intros H. rewrite (map_sum_delete m a x H), <- insert_delete_eq, map_sum_insert by apply lookup_delete_eq. lia.
Qed.
Lemma map_sum_nonneg m : map_Forall (λ _ x, 0 ≤ x) m → 0 ≤ map_sum m.
Proof.
  induction m as [|a x m Ha IH] using map_ind; intros Hm; [done|]. rewrite map_sum_insert by done.
  apply map_Forall_insert in Hm as [Hx Hm]; [|done]. specialize (IH Hm). lia.
Qed.
(** ** Stakes *)

(** The specification of the three operations. *)
Definition stake (m : gmap Address Z) (a : Address) : Z := default 0 (m !! a).
Definition with_stake (a : Address) (x : Z) (m : gmap Address Z) : gmap Address Z :=
  if decide (x = 0) then delete a m else <[a := x]> m.

Lemma stake_with_stake m a x b : stake (with_stake a x m) b = if decide (b = a) then x else stake m b.
Proof.
  unfold stake, with_stake. destruct (decide (x = 0)) as [->|Hx]; destruct (decide (b = a)) as [->|Hne];
    by rewrite ?lookup_delete_eq, ?lookup_insert_eq, ?lookup_delete_ne, ?lookup_insert_ne.
Qed.
Lemma map_sum_with_stake m a x : map_sum (with_stake a x m) = map_sum m - stake m a + x.
Proof.
  unfold with_stake, stake. destruct (decide (x = 0)) as [->|Hx]; destruct (m !! a) as [y|] eqn:Ha; simpl.
  - rewrite (map_sum_delete m a y Ha). lia.
  - rewrite delete_id by done. lia.
  - rewrite (map_sum_update m a y x Ha). lia.
  - rewrite map_sum_insert by done. lia.
Qed.
Lemma positive_with_stake m a x :
  map_Forall (λ _ x, 0 < x) m → 0 ≤ x → map_Forall (λ _ x, 0 < x) (with_stake a x m).
Proof.
  intros Hm Hx. unfold with_stake. case_decide; [by apply map_Forall_delete|]. apply map_Forall_insert_2; [lia|done].
Qed.

Lemma stake_nonneg m a : map_Forall (λ _ x, 0 < x) m → 0 ≤ stake m a.
Proof. intros Hm. unfold stake. destruct (m !! a) as [x|] eqn:Ha; [|done]. specialize (Hm a x Ha). simpl in *. lia. Qed.

Section FormulatorSpec.
Context {A E : Type} `{AI : AccountI A} `{EI : EventI E} `{B58 : Base58}.
Context `{FA : !FormulatorAccounts A} `{FE : FormulatorEvents E} `{TK : TokenCodec} `{PCs : PolicyCodecs}.
Context (pid vault_pid admin_pid magic : Z) (Hpid : valid_pid pid) (Hvault : valid_pid vault_pid).
Context (Hne : pid ≠ vault_pid).
Implicit Types (c : Ctx A E) (s : Abs (A:=A)) (H a : Address) (m : gmap Address Z).

Abbreviation numbered_at H := (numbered staking_keys (λ s, aget pid s H)).

(** The account data of the hyper formulator [H] hold the stakes [m]. *)
Record staked H (m : gmap Address Z) s : Prop := {
  st_table : ∃ L, numbered_at H L s ∧ ∀ a, a ∈ L ↔ is_Some (m !! a);
  st_amount : ∀ a, valid_addr a → amount_of (aget pid s H (toStakingAmountKey a)) = stake m a;
  st_positive : map_Forall (λ _ x, 0 < x) m;
}.

(** What else the operations leave alone. *)
Record stake_frame H s s' : Prop := {
  sf_account : ∀ a, abs_Account s' a = abs_Account s a;
  sf_has : ∀ a, abs_HasAccount s' a = abs_HasAccount s a;
  sf_process : ∀ q n, pget q s' n = pget q s n;
  sf_data : ∀ q a n, q ≠ pid ∨ a ≠ H ∨ head n ≠ Some 1 → aget q s' a n = aget q s a n;
}.

Lemma stake_frame_refl H s : stake_frame H s s.
Proof. by split. Qed.
Lemma stake_frame_trans H s1 s2 s3 : stake_frame H s1 s2 → stake_frame H s2 s3 → stake_frame H s1 s3.
Proof. intros [H1 H2 H3 H4] [G1 G2 G3 G4]. split; intros; by rewrite ?G1, ?G2, ?G3, ?G4, ?H1, ?H2, ?H3, ?H4. Qed.
Lemma stake_frame_aset H n v s : head n = Some 1 → stake_frame H s (aset pid H n v s).
Proof.
  intros Hn. split; try done. intros q a x Hx. destruct (decide (q = pid)) as [->|Hq].
  - rewrite aget_aset, decide_False by naive_solver. done.
  - by rewrite aget_aset_ne.
Qed.

Lemma staking_key_head n : table_key staking_keys n → head n = Some 1.
Proof. by intros [[a ->]|[[i ->]| ->]]. Qed.

Lemma wrote_stakes H s s' :
  wrote staking_keys (aset pid H) s s' →
  stake_frame H s s' ∧ ∀ a, aget pid s' H (toStakingAmountKey a) = aget pid s H (toStakingAmountKey a).
Proof.
  intros Hw. split.
  - induction Hw as [|s' n v _ IH Hn]; [apply stake_frame_refl|].
    eapply stake_frame_trans; [done|]. by apply stake_frame_aset, staking_key_head.
  - intros a. apply (wrote_inv staking_keys (aset pid H) (λ s, aget pid s H (toStakingAmountKey a))); [|done].
    intros n v s0 Hn. rewrite aget_aset, decide_False; [done|]. by intros [_ <-]; destruct Hn as [[b [=]]|[[i [=]]|[=]]].
Qed.

(** The two spaces of keys of a hyper formulator: the table and the amounts. *)
Lemma numbered_amount H L a v s :
  numbered_at H L s → numbered_at H L (aset pid H (toStakingAmountKey a) v s).
Proof.
  intros [Hv Hnd Hl Hc Hr Hn Ha]. split; try done; cbn beta in *; intros; rewrite aget_aset, decide_False by (by intros [_ [=]]); auto.
Qed.


Lemma does_GetStakingAmount H m a c s :
  valid_addr H → valid_addr a → at_state c s → staked H m s →
  does (GetStakingAmount pid H a) c (Ok (stake m a)) s.
Proof using AI Hpid.
  intros HH Ha Hat Hst. rewrite <- (st_amount _ _ _ Hst a Ha).
  exact (does_map _ amount_of _ _ _ (does_AccountData pid H (toStakingAmountKey a) c s Hpid HH Hat)).
Qed.

(** Writing the stake of an address of the table. *)
Lemma staked_write H m a x L s :
  numbered_at H L s → (∀ b, b ∈ L ↔ is_Some (with_stake a x m !! b)) →
  (∀ b, valid_addr b → amount_of (aget pid s H (toStakingAmountKey b)) = stake m b) →
  map_Forall (λ _ x, 0 < x) m → 0 ≤ x →
  staked H (with_stake a x m) (aset pid H (toStakingAmountKey a) (Amount.Bytes x) s).
Proof.
  intros Hnb HL Ham Hpos Hx.
  split; [exists L; split; [by apply numbered_amount|done]| |by apply positive_with_stake].
  intros b Hb. rewrite aget_aset, stake_with_stake. destruct (decide (b = a)) as [->|Hba].
  - rewrite decide_True by done. by apply amount_of_Bytes.
  - rewrite decide_False; [by apply Ham|]. intros [_ E0]. unfold toStakingAmountKey in E0. by apply app_inv_head in E0.
Qed.

(** *** Adding to a stake *)
Lemma does_AddStakingAmount H m a am c s :
  valid_addr H → valid_addr a → at_state c s → staked H m s → 0 < am → Z.of_nat (size m) + 1 < 2 ^ 32 →
  ∃ s', does (AddStakingAmount pid H a am) c (Ok tt) s' ∧
    staked H (with_stake a (stake m a + am) m) s' ∧ stake_frame H s s'.
Proof using AI Hpid.
  intros HH Ha Hat [(L & Hnb & HL) Ham Hpos] Hgt Hsize.
  pose proof (account_space_laws (A:=A) (E:=E) H pid Hpid HH) as SL.
  pose proof (stake_nonneg m a Hpos) as Hge.
  destruct (does_enter _ _ _ _ SL staking_keys_laws L a c s) as (s1 & Hd & Hnb1 & Hw); try done.
  { rewrite (length_keys m L); [done|apply Hnb|done]. }
  destruct (wrote_stakes H s s1 Hw) as [Hfr Hkeep].
  exists (aset pid H (toStakingAmountKey a) (Amount.Bytes (stake m a + am)) s1). split_and!.
  - unfold AddStakingAmount. eapply does_bind; [exact Hd|]. intros c1 Hc1.
    eapply (does_bind _ _ _ (stake m a) _ s1).
    { rewrite <- (Ham a Ha), <- Hkeep.
      exact (does_map _ amount_of _ _ _ (does_AccountData pid H (toStakingAmountKey a) c1 s1 Hpid HH Hc1)). }
    intros c2 Hc2. by apply does_SetAccountData.
  - apply (staked_write _ _ _ _ _ _ Hnb1); [|intros b Hb; rewrite Hkeep; by apply Ham|done|lia].
    intros b. unfold with_stake. rewrite (decide_False (P:=stake m a + am = 0)) by lia. rewrite lookup_insert_is_Some'.
    case_decide as Hin; [|rewrite elem_of_app, list_elem_of_singleton]; rewrite HL in *; naive_solver.
  - eapply stake_frame_trans; [done|]. by apply stake_frame_aset.
Qed.

(** *** Taking from a stake *)

(** The address gives up its number when nothing is left. *)
Lemma does_unnumber H m a L c s :
  valid_addr H → valid_addr a → at_state c s → numbered_at H L s → (∀ a, a ∈ L ↔ is_Some (m !! a)) →
  ∃ s' L', does (ns ← AccountData H pid (toStakingAmountNumberKey a);
           (if nonempty ns then nt_leave (account_space H pid) staking_keys a ns else mret tt)) c (Ok tt) s' ∧
    numbered_at H L' s' ∧ (∀ b, b ∈ L' ↔ is_Some (delete a m !! b)) ∧ wrote staking_keys (aset pid H) s s'.
Proof using AI Hpid.
  intros HH Ha Hat Hnb HL. pose proof (account_space_laws (A:=A) (E:=E) H pid Hpid HH) as SL.
  assert (Hdel : ∀ b, is_Some (delete a m !! b) ↔ b ∈ L ∧ b ≠ a) by (intros b; rewrite lookup_delete_is_Some, HL; naive_solver).
  destruct (decide (a ∈ L)) as [Hin|Hnin].
  - apply list_elem_of_lookup_1 in Hin as [i Hi].
    destruct (does_AccountData pid H (toStakingAmountNumberKey a) c s Hpid HH Hat) as (c1 & Hr1 & Hl1 & Hat1).
    destruct (does_leave _ _ _ _ SL staking_keys_laws L i a c1 s Hat1 Hnb Hi) as (s' & (c2 & Hr2 & Hl2 & Hat2) & Hnb' & Hw).
    exists s', (swap_remove i L). split_and!; [|done| |done].
    + exists c2. split; [|split; [chain|done]]. rewrite (bind_Ok _ _ _ _ _ Hr1).
      rewrite (nb_number _ _ _ _ Hnb i a Hi : aget pid s H (toStakingAmountNumberKey a) = _). exact Hr2.
    + intros b. rewrite Hdel. apply elem_of_swap_remove; [apply Hnb|done].
  - exists s, L. split_and!; [|done| |constructor].
    + eapply does_bind; [by apply does_AccountData|]. intros c1 Hc1.
      rewrite (nb_absent _ _ _ _ Hnb a Ha Hnin : aget pid s H (toStakingAmountNumberKey a) = _). by apply does_ret.
    + intros b. rewrite Hdel. split; [|naive_solver]. intros Hb. split; [done|]. by intros ->.
Qed.

Lemma does_subStakingAmount H m a am c s :
  valid_addr H → valid_addr a → at_state c s → staked H m s → 0 ≤ am ≤ stake m a →
  ∃ s', does (subStakingAmount pid H a am) c (Ok tt) s' ∧
    staked H (with_stake a (stake m a - am) m) s' ∧ stake_frame H s s'.
Proof using AI Hpid.
  intros HH Ha Hat Hst Hle. pose proof Hst as [(L & Hnb & HL) Ham Hpos].
  destruct (does_GetStakingAmount H m a c s HH Ha Hat Hst) as (c1 & Hr1 & Hl1 & Hat1).
  assert (Hless : Amount.Less (stake m a) am = false) by (apply Z.ltb_ge; lia).
  destruct (decide (stake m a - am = 0)) as [Hz|Hnz].
  - destruct (does_unnumber H m a L c1 s HH Ha Hat1 Hnb HL) as (s1 & L' & (c2 & Hr2 & Hl2 & Hat2) & Hnb' & HL' & Hw).
    destruct (wrote_stakes H s s1 Hw) as [Hfr Hkeep].
    destruct (does_SetAccountData pid H (toStakingAmountKey a) [] c2 s1 Hpid HH Hat2) as (c3 & Hr3 & Hl3 & Hat3).
    exists (aset pid H (toStakingAmountKey a) (Amount.Bytes 0) s1). rewrite Hz. split_and!.
    + exists c3. split; [|split; [chain|done]].
      unfold subStakingAmount. rewrite (bind_Ok _ _ _ _ _ Hr1), Hless. erewrite bind_Ok by reflexivity.
      unfold Amount.Sub, Amount.IsZero. rewrite Hz. change (0 =? 0) with true. cbv iota.
      rewrite <- Hr3. unfold mbind, M_bind in *. destruct (AccountData H pid (toStakingAmountNumberKey a) c1) as [[ns|e|] c'];
        [|done..]. by rewrite Hr2.
    + apply (staked_write _ _ _ _ _ _ Hnb'); [|intros b Hb; rewrite Hkeep; by apply Ham|done|done].
      intros b. unfold with_stake. by rewrite decide_True.
    + eapply stake_frame_trans; [done|]. by apply stake_frame_aset.
  - exists (aset pid H (toStakingAmountKey a) (Amount.Bytes (stake m a - am)) s). split_and!.
    + destruct (does_SetAccountData pid H (toStakingAmountKey a) (Amount.Bytes (stake m a - am)) c1 s Hpid HH Hat1)
        as (c2 & Hr2 & Hl2 & Hat2).
      exists c2. split; [|split; [chain|done]].
      unfold subStakingAmount. rewrite (bind_Ok _ _ _ _ _ Hr1), Hless. erewrite bind_Ok by reflexivity.
      unfold Amount.Sub, Amount.IsZero. by rewrite (proj2 (Z.eqb_neq _ _) Hnz).
    + apply (staked_write _ _ _ _ L); try done; [|lia]. intros b. unfold with_stake. rewrite decide_False by done.
      rewrite lookup_insert_is_Some', HL. split; [by right|]. intros [<-|]; [|done].
      destruct (m !! a) eqn:E0; [done|]. unfold stake in Hle, Hnz. rewrite E0 in Hle, Hnz. simpl in *. lia.
    + by apply stake_frame_aset.
Qed.

Lemma does_subStakingAmount_minus H m a am c s :
  valid_addr H → valid_addr a → at_state c s → staked H m s → stake m a < am →
  does (subStakingAmount pid H a am) c (Err ErrFormulatorMinusBalance) s.
Proof using AI Hpid.
  intros HH Ha Hat Hst Hlt. unfold subStakingAmount. eapply does_bind; [by eapply does_GetStakingAmount|]. intros c1 Hc1.
  unfold Amount.Less. rewrite (proj2 (Z.ltb_lt _ _)) by lia. by apply does_Err, does_guard_true.
Qed.

(** *** Reading all stakes *)
Lemma does_GetStakingAmountMap H m c s :
  valid_addr H → at_state c s → staked H m s → does (GetStakingAmountMap pid H) c (Ok m) s.
Proof using AI Hpid.
  intros HH Hat Hst. pose proof Hst as [(L & Hnb & HL) Ham Hpos].
  pose proof (account_space_laws (A:=A) (E:=E) H pid Hpid HH) as SL.
  eapply eq_ind with (P := λ r, does (GetStakingAmountMap pid H) c (Ok r) s); [|apply (collect_map m (stake m) L HL); intros a x Ha; unfold stake; by rewrite Ha].
  unfold GetStakingAmountMap. apply (does_collect _ _ _ _ SL _ (λ r a, <[a := stake m a]> r)); [done|done|].
  intros r a c' Hin Hc'. eapply does_bind; [eapply does_GetStakingAmount; [done| |done|done]|].
  - pose proof (nb_valid _ _ _ _ Hnb) as Hv. rewrite Forall_forall in Hv. by apply Hv.
  - intros c2 Hc2. by apply does_ret.
Qed.

(** C15. The table of stakes refines a finite map.  On account data that hold
    the stakes [m] of a hyper formulator, reading a stake answers the entry of
    the map (zero where there is none), [AddStakingAmount] adds to the entry,
    [subStakingAmount] takes from it and drops it when nothing is left, or
    refuses when the stake is too small and changes nothing, and
    [GetStakingAmountMap] answers the map.  Accounts, process data and the
    data of other processes and addresses stay as they are. *)
Theorem staking_refines H m a am c s :
  valid_addr H → valid_addr a → at_state c s → staked H m s → 0 < am → Z.of_nat (size m) + 1 < 2 ^ 32 →
  does (GetStakingAmount pid H a) c (Ok (stake m a)) s ∧
  does (GetStakingAmountMap pid H) c (Ok m) s ∧
  (∃ s', does (AddStakingAmount pid H a am) c (Ok tt) s' ∧
     staked H (with_stake a (stake m a + am) m) s' ∧ stake_frame H s s') ∧
  (if decide (am ≤ stake m a) then
     ∃ s', does (subStakingAmount pid H a am) c (Ok tt) s' ∧
       staked H (with_stake a (stake m a - am) m) s' ∧ stake_frame H s s'
   else does (subStakingAmount pid H a am) c (Err ErrFormulatorMinusBalance) s).
Proof using AI Hpid.
  intros HH Ha Hat Hst Ham Hsize. split_and!.
  - by apply does_GetStakingAmount.
  - by apply does_GetStakingAmountMap.
  - by apply does_AddStakingAmount.
  - case_decide; [apply does_subStakingAmount; auto with lia|eapply does_subStakingAmount_minus; eauto; lia].
Qed.

(** ** The sum in the account *)

(** The account of [H] is a hyper formulator whose field [StakingAmount] is
    the sum of the stakes. *)
Record hyper_ok H m s : Prop := {
  hy_account : ∃ frAcc, abs_Account s H = Ok (of_formulator frAcc) ∧ StakingAmount frAcc = Ok (map_sum m);
  hy_stakes : staked H m s;
}.

Lemma staked_frame H m s s' :
  staked H m s → (∀ n, head n = Some 1 → aget pid s' H n = aget pid s H n) → staked H m s'.
Proof.
  intros [(L & [Hv Hnd Hl Hc Hr Hn Ha] & HL) Ham Hpos] Hsame. split; [exists L; split; [split|]|..]; try done;
    cbn beta in *; intros; rewrite Hsame by done; auto.
Qed.

(** Money moves of the vault and writes of other accounts do not touch stakes. *)
Lemma staked_set_bal H m a x s : staked H m s → staked H m (set_bal vault_pid a x s).
Proof using Hne. intros Hst. eapply staked_frame; [done|]. intros n _. by apply aget_aset_ne. Qed.
Lemma staked_set_fees H m x s : staked H m s → staked H m (set_fees vault_pid x s).
Proof. intros Hst. by eapply staked_frame. Qed.
Lemma staked_accset H m a acc s : staked H m s → staked H m (accset a acc s).
Proof. intros Hst. by eapply staked_frame. Qed.
Lemma staked_charge H m a fee s : staked H m s → staked H m (charge vault_pid a fee s).
Proof using Hne. intros Hst. by apply staked_set_fees, staked_set_bal. Qed.

Lemma bal_stake_frame H s s' a : stake_frame H s s' → bal vault_pid s' a = bal vault_pid s a.
Proof using Hne.
  intros Hfr. unfold bal. change (data (abs_AccountData s' a vault_pid tagBalance)) with (aget vault_pid s' a tagBalance).
  rewrite (sf_data _ _ _ Hfr); [done|]. left. congruence.
Qed.
Lemma fees_stake_frame H s s' : stake_frame H s s' → fees vault_pid s' = fees vault_pid s.
Proof.
  intros Hfr. unfold fees. change (data (abs_ProcessData s' vault_pid tagCollectedFee)) with (pget vault_pid s' tagCollectedFee).
  by rewrite (sf_process _ _ _ Hfr).
Qed.

Lemma StakingAmount_set f sa sa' : StakingAmount f = Ok sa → StakingAmount (set_StakingAmount sa' f) = Ok sa'.
Proof. unfold StakingAmount, set_StakingAmount. by destruct (fr_Type f) eqn:Ht; rewrite ?Ht. Qed.

Lemma accset_lookup a (acc : A) s b : abs_Account (accset a acc s) b = if decide (b = a) then Ok acc else abs_Account s b.
Proof. done. Qed.

(** [frAcc := loader.Account(addr).(FormulatorAccount)], the object at hand. *)
Lemma does_bind_must {X} a frAcc (f : FormulatorAccount → M (Ctx A E) X) c r s s' :
  at_state c s → abs_Account s a = Ok (of_formulator frAcc) →
  (∀ c', at_state c' s → known a c' → (∀ b, known b c → known b c') → does (f frAcc) c' r s') →
  does (Formulator_must a ≫= f) c r s'.
Proof.
  intros Hat Ha Hf. destruct (does_Account_known a _ c s Hat Ha) as (c1 & Hr & Hl & Hat1 & Hk).
  destruct (Hf c1 Hat1 Hk (ld_known _ _ Hl)) as (c2 & H2 & Hl2 & Hat2).
  exists c2. split; [|split; [chain|done]]. unfold Formulator_must, mbind, M_bind. rewrite Hr.
  by rewrite to_of_formulator.
Qed.

Lemma does_grow_staking H frAcc sa am acc c s :
  at_state c s → known H c → abs_Account s H = Ok acc → StakingAmount frAcc = Ok sa →
  does (grow_staking H frAcc am) c (Ok (set_StakingAmount (sa + am) frAcc))
    (accset H (of_formulator (set_StakingAmount (sa + am) frAcc)) s).
Proof.
  intros Hat Hk Ha Hsa. unfold grow_staking. rewrite Hsa. eapply does_bind_known; [by apply does_lift|]. intros c1 Hc1 Hk1.
  eapply does_bind; [by eapply does_AssignAccount; auto|]. intros c2 Hc2. by apply does_ret.
Qed.

(** *** Staking *)

Lemma does_Staking_fn from fromAcc H m am c s :
  valid_addr from → valid_addr H → at_state c s → hyper_ok H m s →
  abs_Account s from = Ok fromAcc → acc_Address fromAcc = from →
  0 < am ≤ bal vault_pid s from → Z.of_nat (size m) + 1 < 2 ^ 32 →
  ∃ s', does (Staking_fn pid vault_pid from H am) c (Ok tt) s' ∧
    hyper_ok H (with_stake from (stake m from + am) m) s' ∧
    (∀ b, bal vault_pid s' b = bal vault_pid s b - if decide (b = from) then am else 0) ∧
    fees vault_pid s' = fees vault_pid s.
Proof using AI Hpid Hvault Hne.
  intros Hfrom HH Hat [(frAcc & Hacc & Hsum) Hst] Hfa Haddr [Hpos Hle] Hsize.
  set (s1 := set_bal vault_pid from (bal vault_pid s from - am) s).
  assert (Hst1 : staked H m s1) by (by apply staked_set_bal).
  set (sa := map_sum m + am).
  assert (Hmid : ∃ s2, stake_frame H s1 s2 ∧ staked H (with_stake from (stake m from + am) m) s2 ∧
     does (Staking_fn pid vault_pid from H am) c (Ok tt) (accset H (of_formulator (set_StakingAmount sa frAcc)) s2)).
  { destruct (does_Account_known H _ c s Hat Hacc) as (c1 & Hr1 & Hl1 & Hat1 & Hk1).
    destruct (does_Account from c1 s _ Hat1 Hfa) as (c2 & Hr2 & Hl2 & Hat2).
    destruct (does_SubBalance vault_pid Hvault from am c2 s Hfrom Hat2 Hle) as (c3 & Hr3 & Hl3 & Hat3).
    destruct (does_AddStakingAmount H m from am c3 s1 HH Hfrom Hat3 Hst1 Hpos Hsize) as (s2 & (c4 & Hr4 & Hl4 & Hat4) & Hst2 & Hfr).
    assert (Hk4 : known H c4) by (by apply (ld_known _ _ Hl4), (ld_known _ _ Hl3), (ld_known _ _ Hl2)).
    destruct (does_grow_staking H frAcc (map_sum m) am (of_formulator frAcc) c4 s2) as (c5 & Hr5 & Hl5 & Hat5); try done.
    { by rewrite (sf_account _ _ _ Hfr). }
    exists s2. split_and!; [done|done|]. exists c5.
    split; [|split; [chain|done]].
    unfold Staking_fn, Formulator_must, mbind, M_bind. rewrite Hr1. rewrite to_of_formulator. cbn [of_option lift].
    by rewrite Hr2, Haddr, Hr3, Hr4, Hr5. }
  destruct Hmid as (s2 & Hfr & Hst2 & Hdo). eexists. split_and!; [exact Hdo| | |].
  - split; [|by apply staked_accset]. exists (set_StakingAmount sa frAcc). rewrite accset_lookup, decide_True by done.
    split; [done|]. rewrite (StakingAmount_set _ (map_sum m)) by done. rewrite map_sum_with_stake. unfold sa. f_equal. lia.
  - intros b. transitivity (bal vault_pid s2 b); [done|]. rewrite (bal_stake_frame _ _ _ _ Hfr). unfold s1.
    rewrite bal_set_bal by lia. case_decide; subst; lia.
  - transitivity (fees vault_pid s2); [done|]. by rewrite (fees_stake_frame _ _ _ Hfr).
Qed.

(** Staking.  The fee and the amount leave the balance of the sender, the
    fee is collected, the stake of the sender at the hyper formulator grows by
    the amount, and the field [StakingAmount] of the account stays the sum of
    all stakes. *)
Theorem Staking_executes from fromAcc H m am c s :
  valid_addr from → valid_addr H → at_state c s → unmarked c → hyper_ok H m s →
  abs_Account s from = Ok fromAcc → acc_Address fromAcc = from →
  0 < am → 0 < dfee vault_pid s → 0 ≤ fees vault_pid s → am + dfee vault_pid s ≤ bal vault_pid s from →
  Z.of_nat (size m) + 1 < 2 ^ 32 →
  ∃ s', does (Staking_Execute pid vault_pid from H am) c (Ok tt) s' ∧
    hyper_ok H (with_stake from (stake m from + am) m) s' ∧
    (∀ b, bal vault_pid s' b = bal vault_pid s b - if decide (b = from) then am + dfee vault_pid s else 0) ∧
    fees vault_pid s' = fees vault_pid s + dfee vault_pid s.
Proof using AI Hpid Hvault Hne.
  intros Hfrom HH Hat Hu [(frAcc & Hacc & Hsum) Hst] Hfa Haddr Hpos Hfee Hfees Hle Hsize.
  set (s0 := charge vault_pid from (dfee vault_pid s) s).
  assert (Hb0 : ∀ b, bal vault_pid s0 b = bal vault_pid s b - if decide (b = from) then dfee vault_pid s else 0).
  { intros b. unfold s0. apply bal_charge. lia. }
  destruct (does_WithFee vault_pid Hvault from (Staking_fn pid vault_pid from H am) (λ s',
    hyper_ok H (with_stake from (stake m from + am) m) s' ∧
    (∀ b, bal vault_pid s' b = bal vault_pid s0 b - if decide (b = from) then am else 0) ∧
    fees vault_pid s' = fees vault_pid s0) c s) as (s' & Hd & Hok & Hb & Hf); try done; [lia| |].
  { intros c0 Hc0 _. apply (does_Staking_fn from fromAcc H m am c0 s0); try done.
    - split; [by exists frAcc|by apply staked_charge].
    - rewrite Hb0, decide_True by done. lia. }
  exists s'. split_and!; [done|done| |].
  - intros b. rewrite Hb, Hb0. case_decide; lia.
  - rewrite Hf. unfold s0. apply fees_charge. lia.
Qed.

End FormulatorSpec.
