(* ===== verification/FormulatorUnstake.v ===== *)
(** * process/formulator: amounts on their way back

    What is unstaked waits in a table of the height at which it is due: for
    each staker a map from the hyper formulators to the amounts.  The
    specification of such a table is a map of maps; [addUnstakingAmount] adds
    to an entry and [flushUnstakingAmountMap] hands the whole map out and
    leaves an empty table. *)

From S2P Require Import Prelude Tokens Amount Common Context ContextSpec ContextTrace OrderedMaps Vault VaultSpec DataRun VaultRun Numbered Formulator FormulatorTx FormulatorReward FormulatorSpec.

Lemma unstaking_keys_laws h : KeysLaws (unstaking_keys h).
Proof.
  split; unfold unstaking_keys; cbn [nk_number nk_reverse nk_count]; try done.
  - intros a b. unfold toUnstakingAmountNumberKey. by intros ?%app_inv_head%app_inv_head.
  - intros i j Hi Hj. unfold toUnstakingAmountReverseKey. intros E0%app_inv_head%app_inv_head.
    by apply BigEndian_Uint32ToBytes_inj in E0.
Qed.

Section FormulatorUnstake.
Context {A E : Type} `{AI : AccountI A} `{EI : EventI E} `{B58 : Base58}.
Context `{FA : !FormulatorAccounts A} `{FE : FormulatorEvents E} `{TK : TokenCodec} `{PCs : PolicyCodecs}.
Context `{TL : !TokenCodecLaws TK} `{TS : !TokenCodecSized TK}.
Context (pid vault_pid : Z) (Hpid : valid_pid pid) (Hvault : valid_pid vault_pid).
Context (Hne : pid ≠ vault_pid).
Implicit Types (c : Ctx A E) (s : Abs (A:=A)) (H a : Address) (mp : gmap Address Z).
Implicit Types (D : gmap Address (gmap Address Z)) (h : Z).

Lemma amounts_roundtrip mp :
  amounts_ok mp →
  ∃ bs, marshal_amounts mp = Ok bs ∧ unmarshal_amounts bs = Ok mp ∧ nonempty bs = true.
Proof using TL TS.
  intros Hok. destruct (AddressAmountMap_reads_back mp Hok) as (ts & He & Hd). exists (tk_bytes ts).
  unfold marshal_amounts, unmarshal_amounts. rewrite He, tk_roundtrip. specialize (Hd []). rewrite app_nil_r in Hd.
  rewrite Hd. split_and!; [done|done|]. destruct ts as [|t ts]; [done|].
  pose proof (tk_bytes_cons t ts) as Hne0. unfold nonempty. by destruct (tk_bytes (t :: ts)).
Qed.

(** The bytes of an entry. *)
Definition entry (bs : bytes) (o : option (gmap Address Z)) : Prop :=
  match o with
  | None => bs = []
  | Some mp => nonempty bs = true ∧ unmarshal_amounts bs = Ok mp
  end.

Abbreviation due_at h := (numbered (unstaking_keys h) (pget pid)).

(** The process data hold the amounts [D] that are due at the height [h]. *)
Record unstaking (h : Z) D s : Prop := {
  us_table : ∃ L, due_at h L s ∧ ∀ a, a ∈ L ↔ is_Some (D !! a);
  us_entry : ∀ a, valid_addr a → entry (pget pid s (toUnstakingAmountKey h a)) (D !! a);
  us_ok : ∀ a mp, D !! a = Some mp → amounts_ok mp;
}.

(** What else the operations leave alone: everything but process data under
    the tags of unstaking. *)
Record unstake_frame s s' : Prop := {
  uf_account : ∀ a, abs_Account s' a = abs_Account s a;
  uf_has : ∀ a, abs_HasAccount s' a = abs_HasAccount s a;
  uf_data : ∀ q a n, aget q s' a n = aget q s a n;
  uf_process : ∀ q n, q ≠ pid ∨ head n ≠ Some 6 → pget q s' n = pget q s n;
}.
Lemma unstake_frame_refl s : unstake_frame s s.
Proof. by split. Qed.
Lemma unstake_frame_trans s1 s2 s3 : unstake_frame s1 s2 → unstake_frame s2 s3 → unstake_frame s1 s3.
Proof. intros [H1 H2 H3 H4] [G1 G2 G3 G4]. split; intros; by rewrite ?G1, ?G2, ?G3, ?G4, ?H1, ?H2, ?H3, ?H4. Qed.
Lemma unstake_frame_pset n v s : head n = Some 6 → unstake_frame s (pset pid n v s).
Proof.
  intros Hn. split; try done. intros q x Hx. destruct (decide (q = pid)) as [->|Hq].
  - rewrite pget_pset, decide_False by naive_solver. done.
  - by rewrite pget_pset_ne.
Qed.
Lemma unstaking_key_head h n : table_key (unstaking_keys h) n → head n = Some 6.
Proof. by intros [[a ->]|[[i ->]| ->]]. Qed.

Lemma amount_key_apart h n a : table_key (unstaking_keys h) n → toUnstakingAmountKey h a ≠ n.
Proof. by intros [[b ->]|[[i ->]| ->]]. Qed.

Lemma wrote_due h s s' :
  wrote (unstaking_keys h) (pset pid) s s' →
  unstake_frame s s' ∧ ∀ a, pget pid s' (toUnstakingAmountKey h a) = pget pid s (toUnstakingAmountKey h a).
Proof.
  intros Hw. split.
  - induction Hw as [|s' n v _ IH Hn]; [apply unstake_frame_refl|].
    eapply unstake_frame_trans; [done|]. by apply unstake_frame_pset, (unstaking_key_head h).
  - intros a. apply (wrote_inv (unstaking_keys h) (pset pid) (λ s, pget pid s (toUnstakingAmountKey h a))); [|done].
    intros n v s0 Hn. rewrite pget_pset, decide_False; [done|]. by apply amount_key_apart.
Qed.

Lemma numbered_entry h L a v s : due_at h L s → due_at h L (pset pid (toUnstakingAmountKey h a) v s).
Proof.
  intros [Hv Hnd Hl Hc Hr Hn Ha]. split; try done; intros; rewrite pget_pset, decide_False by done; auto.
Qed.

Lemma unstaking_frame h D s s' :
  unstaking h D s → (∀ n, head n = Some 6 → pget pid s' n = pget pid s n) → unstaking h D s'.
Proof.
  intros [(L & [Hv Hnd Hl Hc Hr Hn Ha] & HL) Hen Hok] Hsame. split; [exists L; split; [split|]|..]; try done;
    intros; rewrite Hsame by done; auto.
Qed.

(** *** Adding an amount *)
Definition more (H a : Address) (am : Z) D : gmap Address (gmap Address Z) :=
  let mp := default ∅ (D !! a) in <[a := <[H := default 0 (mp !! H) + am]> mp]> D.

Lemma more_ok H a am D :
  (∀ a mp, D !! a = Some mp → amounts_ok mp) → valid_addr H → 0 ≤ am →
  amounts_ok (<[H := default 0 (default ∅ (D !! a) !! H) + am]> (default ∅ (D !! a))).
Proof.
  intros Hok HH Ham. assert (Hmp : amounts_ok (default ∅ (D !! a))).
  { destruct (D !! a) eqn:E0; [by eapply Hok|]. by intros b x Hb. }
  intros b x. destruct (decide (b = H)) as [->|Hb].
  - rewrite lookup_insert_eq. intros [= <-]. split; [done|]. destruct (default ∅ (D !! a) !! H) as [y|] eqn:E1; simpl; unfold non_negative in *; [|lia].
    destruct (Hmp H y E1). unfold non_negative in *. lia.
  - rewrite lookup_insert_ne by done. apply Hmp.
Qed.

Lemma does_GetUnstakingAmountMap h a o c s :
  at_state c s → entry (pget pid s (toUnstakingAmountKey h a)) o →
  does (GetUnstakingAmountMap pid a h) c
    (match o with Some mp => Ok mp | None => Err ErrNotExistUnstakingAmount end) s.
Proof using AI Hpid.
  intros Hat He. unfold GetUnstakingAmountMap. eapply does_bind; [by apply does_ProcessData|]. intros c1 Hc1.
  destruct o as [mp|]; simpl in He.
  - destruct He as [-> <-]. by apply does_lift.
  - rewrite He. by apply does_fail.
Qed.

(** The stored map of an address, or an empty one. *)
Lemma does_stored h a o c s :
  at_state c s → entry (pget pid s (toUnstakingAmountKey h a)) o →
  does (r ← try (GetUnstakingAmountMap pid a h);
        match r with
        | inl mp => mret mp
        | inr err => if bool_decide (err = ErrNotExistUnstakingAmount) then mret ∅ else fail err
        end) c (Ok (default ∅ o)) s.
Proof using AI Hpid.
  intros Hat He. pose proof (does_GetUnstakingAmountMap h a o c s Hat He) as Hd. destruct o as [mp|].
  - eapply does_bind; [by apply does_try|]. intros c1 Hc1. by apply does_ret.
  - eapply does_bind; [by apply does_try_Err|]. intros c1 Hc1. by apply does_ret.
Qed.

Lemma does_addUnstakingAmount h D H a am c s :
  valid_addr H → valid_addr a → at_state c s → unstaking h D s → 0 ≤ am → Z.of_nat (size D) + 1 < 2 ^ 32 →
  ∃ s', does (addUnstakingAmount pid H a h am) c (Ok tt) s' ∧ unstaking h (more H a am D) s' ∧ unstake_frame s s'.
Proof using AI Hpid TL TS.
  intros HH Ha Hat [(L & Hnb & HL) Hen Hok] Ham Hsize.
  pose proof (process_space_laws (A:=A) (E:=E) pid Hpid) as SL.
  destruct (does_enter _ _ _ _ SL (unstaking_keys_laws h) L a c s) as (s1 & (c1 & Hr1 & Hl1 & Hat1) & Hnb1 & Hw); try done.
  { rewrite (length_keys D L); [done|apply Hnb|done]. }
  destruct (wrote_due h s s1 Hw) as [Hfr Hkeep].
  set (mp := default ∅ (D !! a)). set (mp' := <[H := default 0 (mp !! H) + am]> mp).
  destruct (amounts_roundtrip mp') as (bs & Hm & Hum & Hbs); [by apply more_ok|].
  destruct (does_stored h a (D !! a) c1 s1) as (c2 & Hr2 & Hl2 & Hat2); [done|rewrite Hkeep; by apply Hen|].
  destruct (does_SetProcessData pid (toUnstakingAmountKey h a) bs c2 s1 Hpid Hat2) as (c3 & Hr3 & Hl3 & Hat3).
  eexists. split_and!; [exists c3; split; [|split; [chain|exact Hat3]]| |].
  - unfold addUnstakingAmount. rewrite (bind_Ok _ _ _ _ _ Hr1). rewrite <- Hr3. unfold mbind, M_bind in Hr2 |- *.
    destruct (try (GetUnstakingAmountMap pid a h) c1) as [[r|e|] c']; [|done..]. rewrite Hr2.
    unfold Amount.Add. change (Amount.NewCoinAmount 0 0) with 0. fold mp. fold mp'. rewrite Hm. done.
  - split.
    + eexists. split; [by apply numbered_entry|]. intros b. unfold more. fold mp. rewrite lookup_insert_is_Some'.
      case_decide as Hin; [|rewrite elem_of_app, list_elem_of_singleton]; rewrite HL in *; naive_solver.
    + intros b Hb. rewrite pget_pset. unfold more. fold mp mp'. destruct (decide (b = a)) as [->|Hba].
      * rewrite decide_True, lookup_insert_eq by done. done.
      * rewrite lookup_insert_ne by done. rewrite decide_False; [rewrite Hkeep; by apply Hen|].
        unfold toUnstakingAmountKey. by intros ?%app_inv_head%app_inv_head.
    + intros b mp0. unfold more. fold mp mp'. destruct (decide (b = a)) as [->|Hba].
      * rewrite lookup_insert_eq. intros [= <-]. by apply more_ok.
      * rewrite lookup_insert_ne by done. apply Hok.
  - eapply unstake_frame_trans; [done|]. by apply unstake_frame_pset.
Qed.

(** *** Emptying the table of a height *)

(** What the loop reads and clears for an address. *)
Definition due_value h a s : option (gmap Address Z) :=
  match unmarshal_amounts (pget pid s (toUnstakingAmountKey h a)) with
  | Ok mp => if nonempty (pget pid s (toUnstakingAmountKey h a)) then Some mp else None
  | _ => None
  end.
Definition due_clear h a s : Abs := pset pid (toUnstakingAmountKey h a) [] s.

Lemma due_other h a n v s : n ≠ toUnstakingAmountKey h a → due_value h a (pset pid n v s) = due_value h a s.
Proof. intros Hn. unfold due_value. by rewrite pget_pset, decide_False by done. Qed.
Lemma due_key_inj h a b : toUnstakingAmountKey h a = toUnstakingAmountKey h b → a = b.
Proof. unfold toUnstakingAmountKey. by intros ?%app_inv_head%app_inv_head. Qed.

Lemma due_entry h a s mp : due_value h a s = Some mp → entry (pget pid s (toUnstakingAmountKey h a)) (Some mp).
Proof using. clear Hne. unfold due_value, entry. intros Hd. repeat case_match; naive_solver. Qed.

Lemma flushed_due_frame h L s s' :
  flushed (unstaking_keys h) (pset pid) (due_clear h) L s s' → unstake_frame s s'.
Proof.
  induction 1 as [|s' n v _ IH Hn|s' a _ IH _]; [apply unstake_frame_refl|..]; (eapply unstake_frame_trans; [exact IH|]).
  - by apply unstake_frame_pset, (unstaking_key_head h).
  - by apply unstake_frame_pset.
Qed.

Lemma does_flushUnstakingAmountMap h D c s :
  at_state c s → unstaking h D s →
  ∃ s', does (flushUnstakingAmountMap pid h) c (Ok D) s' ∧ unstaking h ∅ s' ∧ unstake_frame s s'.
Proof using AI Hpid.
  intros Hat [(L & Hnb & HL) Hen Hok]. pose proof (process_space_laws (A:=A) (E:=E) pid Hpid) as SL.
  assert (Hv : Forall valid_addr L) by apply Hnb. rewrite Forall_forall in Hv.
  destruct (does_nt_flush _ _ _ _ SL (unstaking_keys_laws h)
    (λ (UM : gmap Address (gmap Address Z)) addr, mp ← GetUnstakingAmountMap pid addr h;
       SetProcessData pid (toUnstakingAmountKey h addr) [] ;; mret (<[addr := mp]> UM))
    (λ m a mp, <[a := mp]> m) (due_value h) (due_clear h)) with
    (gone := λ a s, pget pid s (toUnstakingAmountKey h a) = [])
    (L := L) (m := ∅ : gmap Address (gmap Address Z)) (c := c) (s := s)
    (g := λ a, default ∅ (D !! a)) as (s' & Hd & Hnb' & Hfl & Hgone); try done.
  - intros m a mp c0 s0 Ha Hval Hc0. eapply (does_bind _ _ _ mp _ s0).
    { apply (does_GetUnstakingAmountMap h a (Some mp)); [done|]. by apply due_entry. }
    intros c1 Hc1. eapply does_bind; [by apply does_SetProcessData|]. intros c2 Hc2. by apply does_ret.
  - intros a b s0 Hab. apply due_other. by intros ?%due_key_inj.
  - intros a n v s0 Hn. apply due_other. intros ->. by apply (amount_key_apart h _ a Hn).
  - intros a n s0 Hn. unfold due_clear. rewrite pget_pset, decide_False; [done|]. intros ->. by apply (amount_key_apart h _ a Hn).
  - intros a s0. unfold due_clear. by rewrite pget_pset, decide_True.
  - intros a b s0 Hg. unfold due_clear. rewrite pget_pset. by case_decide.
  - intros a n v s0 Hn Hg. rewrite pget_pset, decide_False; [done|]. by apply amount_key_apart.
  - intros a Hin. pose proof (Hen a (Hv a Hin)) as He. apply HL in Hin as [mp Hmp]. rewrite Hmp in *.
    destruct He as [Hne0 Hum]. unfold due_value. by rewrite Hum, Hne0.
  - exists s'. split_and!; [|split; [exists []; split; [done|]|..]|by eapply flushed_due_frame].
    + rewrite (collect_map D _ L HL) in Hd; [exact Hd|]. by intros a x ->.
    + intros a. rewrite lookup_empty, elem_of_nil. split; [done|]. by intros [? ?].
    + intros a Ha. rewrite lookup_empty. simpl. destruct (decide (a ∈ L)) as [Hin|Hin]; [by apply Hgone|].
      rewrite (flushed_inv (unstaking_keys h) (pset pid) (due_clear h) (λ s, pget pid s (toUnstakingAmountKey h a)) L s s'); [| | |exact Hfl].
      * specialize (Hen a Ha). rewrite HL in Hin. apply eq_None_not_Some in Hin. by rewrite Hin in Hen.
      * intros n v s0 Hn. rewrite pget_pset, decide_False; [done|]. by apply amount_key_apart.
      * intros b s0 Hb. unfold due_clear. rewrite pget_pset, decide_False; [done|]. by intros ->%due_key_inj.
    + done.
Qed.

(** *** Paying what is due *)
Lemma does_unstaked_step Addr e c s :
  valid_addr Addr → at_state c s → 0 ≤ e.2 → 0 ≤ bal vault_pid s Addr →
  ∃ s', does (unstaked_step vault_pid Addr e) c (Ok tt) s' ∧ pays vault_pid Addr e.2 s s'.
Proof using Hvault.
  intros Ha Hat He Hb. destruct e as [H am]. cbn [snd] in *.
  eexists. split; [|apply pays_set_bal; lia]. unfold unstaked_step.
  eapply does_bind; [by apply does_AddBalance|]. intros c1 Hc1.
  eapply does_bind; [by apply does_TargetHeight|]. intros c2 Hc2. by apply does_EmitEvent.
Qed.

Lemma amounts_ok_entries mp l : amounts_ok mp → l ≡ₚ map_to_list mp → Forall (λ e, 0 ≤ e.2) l.
Proof.
  intros Hok ->. apply Forall_forall. intros [a x] Hin%elem_of_map_to_list. by destruct (Hok a x Hin).
Qed.

(** What is unstaked is paid when it is due.  The end of
    [AfterExecuteTransactions] pays every staker the sum of the amounts that
    are due at the height, leaves the table of the height empty, and changes
    no stake, no other process data and no account. *)
Theorem settle_unstaked_pays h D c s :
  at_state c s → unstaking h D s → (∀ a, 0 ≤ bal vault_pid s a) →
  ∃ s', does (settle_unstaked pid vault_pid h) c (Ok tt) s' ∧ unstaking h ∅ s' ∧
    (∀ b, bal vault_pid s' b = bal vault_pid s b + default 0 (map_sum <$> D !! b)) ∧
    (∀ H m, staked pid H m s → staked pid H m s') ∧
    (∀ a, abs_Account s' a = abs_Account s a) ∧
    (∀ q n, q ≠ pid ∨ head n ≠ Some 6 → pget q s' n = pget q s n).
Proof using AI Hpid Hvault Hne.
  intros Hat Hun Hb. destruct (does_flushUnstakingAmountMap h D c s Hat Hun) as (s1 & (c1 & Hr1 & Hl1 & Hat1) & Hun1 & Hfr).
  assert (Hb1 : ∀ a, bal vault_pid s1 a = bal vault_pid s a).
  { intros a. exact (f_equal amount_of (uf_data _ _ Hfr vault_pid a tagBalance)). }
  destruct Hun as [(L & Hnb & HL) _ Hok]. pose proof (nb_valid _ _ _ _ Hnb) as Hv. rewrite Forall_forall in Hv.
  destruct (does_pay_each vault_pid fst (λ e, map_sum e.2)
    (λ e, for_each (unstaked_step vault_pid e.1) (sorted_entries e.2)) (sorted_entries D) c1 s1)
    as (s2 & (c2 & Hr2 & Hl2 & Hat2) & Hlo & Hbal).
  - intros [a mp] c0 s0 Hin Hc0 Hb0. apply elem_of_sorted_entries in Hin. cbn [fst snd].
    destruct (does_pay_each vault_pid (λ _, a) snd (unstaked_step vault_pid a) (sorted_entries mp) c0 s0)
      as (s' & Hd & Hlo & Hbal); [|done|by eapply amounts_ok_entries, sorted_entries_perm; eauto|done|].
    + intros [H x] c' s' Hin' Hc' Hb'. apply does_unstaked_step; [by apply Hv, HL|done| |done].
      apply elem_of_sorted_entries in Hin'. by destruct (Hok a mp Hin H x Hin').
    + exists s'. split; [done|]. split; [done|]. intros b. rewrite Hbal, received_const. f_equal.
      by rewrite (amounts_sum_map mp _ (sorted_entries_perm mp)).
  - done.
  - apply Forall_forall. intros [a mp] Hin%elem_of_sorted_entries. apply map_sum_nonneg. intros b x Hx. by destruct (Hok a mp Hin b x Hx).
  - intros a. by rewrite Hb1.
  - exists s2. split_and!.
    + exists c2. split; [|split; [chain|done]]. unfold settle_unstaked. by rewrite (bind_Ok _ _ _ _ _ Hr1).
    + eapply unstaking_frame; [exact Hun1|]. intros n _. apply (lo_process _ _ _ Hlo).
    + intros b. rewrite Hbal, Hb1. f_equal. apply (received_keys D map_sum), sorted_entries_perm.
    + intros H m Hst. eapply staked_frame; [exact Hst|]. intros n Hn. rewrite (lo_data _ _ _ Hlo) by auto.
      apply (uf_data _ _ Hfr).
    + intros a. by rewrite (lo_account _ _ _ Hlo), (uf_account _ _ Hfr).
    + intros q n Hn. by rewrite (lo_process _ _ _ Hlo), (uf_process _ _ Hfr).
Qed.

(** ** Unstaking *)

Lemma touches_subStakingAmount H a am : valid_addr H → touches (A:=A) (E:=E) is_data (subStakingAmount pid H a am).
Proof using Hpid.
  intros HH. unfold subStakingAmount, GetStakingAmount. touch.
Qed.
Lemma touches_addUnstakingAmount H a h am : touches (A:=A) (E:=E) is_process (addUnstakingAmount pid H a h am).
Proof using Hpid.
  unfold addUnstakingAmount, GetUnstakingAmountMap. touch.
Qed.

Lemma hyper_ok_unstake H m s s' : hyper_ok pid H m s → unstake_frame s s' → hyper_ok pid H m s'.
Proof.
  intros [(frAcc & Hacc & Hsum) Hst] Hfr. split.
  - exists frAcc. by rewrite (uf_account _ _ Hfr).
  - eapply staked_frame; [done|]. intros n _. apply (uf_data _ _ Hfr).
Qed.
Lemma bal_unstake s s' a : unstake_frame s s' → bal vault_pid s' a = bal vault_pid s a.
Proof. intros Hfr. exact (f_equal amount_of (uf_data _ _ Hfr vault_pid a tagBalance)). Qed.
Lemma fees_unstake s s' : unstake_frame s s' → fees vault_pid s' = fees vault_pid s.
Proof. intros Hfr. apply (f_equal amount_of), (uf_process _ _ Hfr). by right. Qed.

(** The stake leaves the table and the account; what is written is account
    data only. *)
Lemma does_take_stake H m from am c s :
  valid_addr H → valid_addr from → at_state c s → unmarked c → hyper_ok pid H m s → 0 ≤ am ≤ stake m from →
  ∃ s', hyper_ok pid H (with_stake from (stake m from - am) m) s' ∧
    (∀ a, abs_HasAccount s' a = abs_HasAccount s a) ∧ (∀ q n, pget q s' n = pget q s n) ∧
    (∀ a, bal vault_pid s' a = bal vault_pid s a) ∧
    ∃ c', genTargetHeight c' = genTargetHeight c ∧ at_state c' s' ∧ leads c c' ∧ (∀ x, marked x c' → is_data x) ∧
      ∀ (k : M (Ctx A E) unit),
        (frAcc ← Formulator_must H; subStakingAmount pid H from am ;;
         sa ← lift (StakingAmount frAcc); assign H (set_StakingAmount (Amount.Sub sa am) frAcc) ;; k) c = k c'.
Proof using AI Hpid Hne.
  intros HH Hfrom Hat Hu [(frAcc & Hacc & Hsum) Hst] Ham.
  destruct (does_Account_known H _ c s Hat Hacc) as (c1 & Hr1 & Hl1 & Hat1 & Hk1).
  destruct (does_subStakingAmount pid Hpid H m from am c1 s HH Hfrom Hat1 Hst Ham) as (s1 & (c2 & Hr2 & Hl2 & Hat2) & Hst1 & Hfr).
  assert (Hacc1 : abs_Account s1 H = Ok (of_formulator frAcc)) by (by rewrite (sf_account _ _ _ _ Hfr)).
  set (frAcc' := set_StakingAmount (map_sum m - am) frAcc).
  destruct (trace_AssignAccount H (of_formulator frAcc') _ c2 s1 Hat2 (ld_known _ _ Hl2 H Hk1) Hacc1)
    as [(c3 & Hr3 & Hl3 & Hat3) Ht3]. rewrite Hr3 in Ht3. cbn [snd] in Ht3.
  exists (accset H (of_formulator frAcc') s1). split_and!.
  - split; [|by apply staked_accset]. exists frAcc'. rewrite accset_lookup, decide_True by done. split; [done|].
    unfold frAcc'. rewrite (StakingAmount_set _ (map_sum m)) by done. rewrite map_sum_with_stake. f_equal. lia.
  - apply (sf_has _ _ _ _ Hfr).
  - apply (sf_process _ _ _ _ Hfr).
  - intros a. by apply (bal_stake_frame pid vault_pid Hne H s s1).
  - exists c3. split_and!; [|done|chain| |].
    + rewrite (ts_height _ _ (leads_step _ _ Hl3)), (ts_height _ _ (leads_step _ _ Hl2)). apply (ts_height _ _ (leads_step _ _ Hl1)).
    + intros x Hx. destruct (tr_marked _ _ _ _ Ht3 x Hx) as [Hx2|[]%elem_of_nil].
      pose proof (touches_subStakingAmount H from am HH c1 (at_wf _ _ Hat1)) as Hw. rewrite Hr2 in Hw.
      destruct (within_marked _ _ _ _ Hw Hx2) as [Hx1|]; [|done].
      destruct (touches_Account is_data H c (at_wf _ _ Hat)) as (W & Mk & Ht & _ & HM). rewrite Hr1 in Ht.
      destruct (tr_marked _ _ _ _ Ht x Hx1) as [Hx0|Hin]; [by destruct (Hu x)|]. rewrite Forall_forall in HM. by apply HM.
    + intros k. unfold Formulator_must, assign, mbind, M_bind. rewrite Hr1, to_of_formulator. cbn [of_option lift].
      rewrite Hr2. unfold lift. rewrite Hsum. unfold Amount.Sub. fold frAcc'. by rewrite Hr3.
Qed.

Abbreviation wait H from n := (λ am : Z, h ← TargetHeight; addUnstakingAmount (A:=A) (E:=E) pid H from (u32 (h + n)) am).

Lemma does_wait H from n D m am c s :
  let h := u32 (genTargetHeight c + n) in
  valid_addr H → valid_addr from → at_state c s → hyper_ok pid H m s → unstaking h D s → 0 ≤ am →
  Z.of_nat (size D) + 1 < 2 ^ 32 →
  ∃ s', does (wait H from n am) c (Ok tt) s' ∧ hyper_ok pid H m s' ∧ unstaking h (more H from am D) s' ∧ unstake_frame s s'.
Proof using AI Hpid TL TS.
  intros h HH Hfrom Hat Hok Hun Ham Hsize.
  destruct (does_TargetHeight c s Hat) as (c1 & Hr1 & Hl1 & Hat1).
  destruct (does_addUnstakingAmount h D H from am c1 s) as (s' & (c2 & Hr2 & Hl2 & Hat2) & Hun' & Hfr); try done.
  exists s'. split_and!; [|by eapply hyper_ok_unstake|done|done].
  exists c2. split; [|split; [chain|done]]. by rewrite (bind_Ok _ _ _ _ _ Hr1).
Qed.

Lemma unstaking_charge h D from fee s : unstaking h D s → unstaking h D (charge vault_pid from fee s).
Proof using Hne. intros Hun. eapply unstaking_frame; [done|]. intros n _. etrans; [by apply pget_pset_ne|done]. Qed.
Lemma unstaking_set_fees h D x s : unstaking h D s → unstaking h D (set_fees vault_pid x s).
Proof using Hne. intros Hun. eapply unstaking_frame; [done|]. intros n _. by apply pget_pset_ne. Qed.
Lemma hyper_ok_charge H m from fee s : hyper_ok pid H m s → hyper_ok pid H m (charge vault_pid from fee s).
Proof using Hne. intros [Hacc Hst]. split; [done|]. by apply staked_charge. Qed.

Lemma dfee_same s s' : (∀ q n, pget q s' n = pget q s n) → dfee vault_pid s' = dfee vault_pid s.
Proof.
  intros Hp. unfold dfee. change (data (abs_ProcessData s' vault_pid tagDefaultFee)) with (pget vault_pid s' tagDefaultFee).
  by rewrite Hp.
Qed.

Section FeeFromAmount.
Context (H from : Address) (n : Z) (D : gmap Address (gmap Address Z)) (m : gmap Address Z) (am : Z) (c : Ctx A E) (s : Abs (A:=A)).
Context (HH : valid_addr H) (Hfrom : valid_addr from) (Hat : at_state c s) (Hmk : ∀ x, marked x c → is_data x).
Let h := u32 (genTargetHeight c + n).
Let fee := dfee vault_pid s.
Context (Hok : hyper_ok pid H m s) (Hun : unstaking h D s) (Hhas : abs_HasAccount s from = Ok true).
Context (Hfee : 0 < fee ≤ am) (Hfees : 0 ≤ fees vault_pid s) (Hsize : Z.of_nat (size D) + 1 < 2 ^ 32).

(** The sender cannot pay the fee: it is taken from the amount. *)
Lemma does_fee_short :
  bal vault_pid s from < fee →
  ∃ s', does (fee_from_amount vault_pid from am (wait H from n)) c (Ok tt) s' ∧
    hyper_ok pid H m s' ∧ unstaking h (more H from (am - fee) D) s' ∧
    (∀ b, bal vault_pid s' b = bal vault_pid s b) ∧ fees vault_pid s' = fees vault_pid s + fee.
Proof using AI Hpid Hvault Hne TL TS HH Hfrom Hat Hmk Hok Hun Hhas Hfee Hfees Hsize.
  intros Hs. pose proof (does_CheckFeePayable vault_pid Hvault from c s Hfrom Hat Hhas) as (c1 & Hr1 & Hl1 & Hat1).
  rewrite decide_True in Hr1 by done. set (s1 := set_fees vault_pid (fees vault_pid s + fee) s).
  destruct (does_GetDefaultFee vault_pid Hvault c1 s Hat1) as (c2 & Hr2 & Hl2 & Hat2).
  destruct (does_AddCollectedFee vault_pid Hvault fee c2 s Hat2) as (c3 & Hr3 & Hl3 & Hat3); [lia|].
  assert (Hh3 : genTargetHeight c3 = genTargetHeight c).
  { rewrite (ts_height _ _ (leads_step _ _ Hl3)), (ts_height _ _ (leads_step _ _ Hl2)). apply (ts_height _ _ (leads_step _ _ Hl1)). }
  destruct (does_wait H from n D m (am - fee) c3 s1) as (s' & (c4 & Hr4 & Hl4 & Hat4) & Hok' & Hun' & Hfr); try done; try lia.
  { destruct Hok as [Hacc Hst]. split; [done|]. by apply staked_set_fees. }
  { rewrite Hh3. by apply unstaking_set_fees. }
  exists s'. split_and!; [|done|by rewrite Hh3 in Hun'| |].
  - exists c4. split; [|split; [chain|done]]. unfold fee_from_amount, try, mbind at 1, M_bind. rewrite Hr1.
    by rewrite (bind_Ok _ _ _ _ _ Hr2), (bind_Ok _ _ _ _ _ Hr3).
  - intros b. rewrite (bal_unstake _ _ _ Hfr). unfold s1. by rewrite bal_set_fees.
  - rewrite (fees_unstake _ _ Hfr). apply fees_set_fees. lia.
Qed.

(** The sender pays the fee. *)
Lemma does_fee_paid :
  fee ≤ bal vault_pid s from →
  ∃ s', does (fee_from_amount vault_pid from am (wait H from n)) c (Ok tt) s' ∧
    hyper_ok pid H m s' ∧ unstaking h (more H from am D) s' ∧
    (∀ b, bal vault_pid s' b = bal vault_pid s b - if decide (b = from) then fee else 0) ∧
    fees vault_pid s' = fees vault_pid s + fee.
Proof using AI Hpid Hvault Hne TL TS HH Hfrom Hat Hmk Hok Hun Hhas Hfee Hfees Hsize.
  intros Hs. pose proof (does_CheckFeePayable vault_pid Hvault from c s Hfrom Hat Hhas) as (c1 & Hr1 & Hl1 & Hat1).
  rewrite decide_False in Hr1 by (fold fee; lia).
  assert (Hh1 : genTargetHeight c1 = genTargetHeight c) by (apply (ts_height _ _ (leads_step _ _ Hl1))).
  assert (Hmk1 : ∀ x, marked x c1 → is_data x).
  { intros x Hx. assert (touches is_data (CheckFeePayable (A:=A) (E:=E) vault_pid from (GetDefaultFee vault_pid))) as Ht.
    { unfold CheckFeePayable, CheckFeePayableWith, GetDefaultFee, Balance. touch. }
    specialize (Ht c (at_wf _ _ Hat)). rewrite Hr1 in Ht. destruct (within_marked _ _ _ _ Ht Hx); auto. }
  destruct (does_WithFee_within vault_pid Hvault is_process from (wait H from n am) (λ s',
    hyper_ok pid H m s' ∧ unstaking h (more H from am D) s' ∧ unstake_frame (charge vault_pid from fee s) s') c1 s)
    as (s' & (c2 & Hr2 & Hl2 & Hat2) & Hok' & Hun' & Hfr); try done.
  - intros x Hx%Hmk1. destruct x; cbn in *; tauto.
  - unfold charge_marks. intros x [Hx|Hx]%elem_of_app; apply elem_of_if_empty in Hx as [-> Hz]; [by intros []|].
    fold fee in Hz. lia.
  - intros c2 Hat2 Hh2. destruct (does_wait H from n D m am c2 (charge vault_pid from fee s)) as (s' & Hd & Hok' & Hun' & Hfr);
      try done; [by apply hyper_ok_charge|rewrite Hh2, Hh1; by apply unstaking_charge|lia|].
    rewrite Hh2, Hh1 in Hun'. exists s'. split_and!; try done.
    assert (touches (A:=A) (E:=E) is_process (wait H from n am)) as Ht by (apply touches_bind; [auto with touches|intros; by apply touches_addUnstakingAmount]).
    by apply Ht, Hat2.
  - exists s'. split_and!; [|done|done| |].
    + exists c2. split; [|split; [chain|done]]. unfold fee_from_amount, try, mbind at 1, M_bind. by rewrite Hr1.
    + intros b. rewrite (bal_unstake _ _ _ Hfr). apply bal_charge. lia.
    + rewrite (fees_unstake _ _ Hfr). apply fees_charge. lia.
Qed.
End FeeFromAmount.

(** C16. Unstaking.  The stake of the sender at the hyper formulator shrinks by
    the amount, which waits in the table of the height after the lock; the fee
    is collected, from the balance of the sender, or from the amount when the
    balance does not cover it.  The field [StakingAmount] stays the sum of the
    stakes.  The sender has that stake, the fee is positive and at most the
    amount, and the layer of the context has no deletion marks. *)
Theorem Unstaking_executes H from m D am hp c s :
  let h := u32 (genTargetHeight c + StakingUnlockRequiredBlocks hp) in
  let fee := dfee vault_pid s in
  let short := bool_decide (bal vault_pid s from < fee) in
  valid_addr H → valid_addr from → at_state c s → unmarked c → hyper_ok pid H m s → unstaking h D s →
  abs_HasAccount s from = Ok true → unmarshal_deref (pget pid s tagHyperPolicy) = Ok hp →
  am ≤ stake m from → 0 < fee ≤ am → 0 ≤ fees vault_pid s → Z.of_nat (size D) + 1 < 2 ^ 32 →
  ∃ s', does (Unstaking_Execute pid vault_pid from H am) c (Ok tt) s' ∧
    hyper_ok pid H (with_stake from (stake m from - am) m) s' ∧
    unstaking h (more H from (if short then am - fee else am) D) s' ∧
    (∀ b, bal vault_pid s' b = bal vault_pid s b - if short then 0 else if decide (b = from) then fee else 0) ∧
    fees vault_pid s' = fees vault_pid s + fee.
Proof using AI Hpid Hvault Hne TL TS.
  intros h fee short HH Hfrom Hat Hu Hok Hun Hhas Hpol Ham Hfee Hfees Hsize.
  destruct (does_take_stake H m from am c s) as (s1 & Hok1 & Hhas1 & Hp1 & Hb1 & c1 & Hh1 & Hat1 & Hl1 & Hmk1 & Hrun); try done; [lia|].
  assert (Hdf : dfee vault_pid s1 = fee) by (apply dfee_same, Hp1).
  assert (Hfe : fees vault_pid s1 = fees vault_pid s) by exact (f_equal amount_of (Hp1 vault_pid tagCollectedFee)).
  assert (Hun1 : unstaking h D s1) by (eapply unstaking_frame; [done|]; intros n _; apply Hp1).
  destruct (does_ProcessData pid tagHyperPolicy c1 s1 Hpid Hat1) as (c2 & Hr2 & Hl2 & Hat2).
  assert (Hmk2 : ∀ x, marked x c2 → is_data x).
  { intros x Hx. pose proof (touches_ProcessData is_data pid tagHyperPolicy Hpid c1 (at_wf _ _ Hat1)) as Ht. rewrite Hr2 in Ht.
    destruct (within_marked _ _ _ _ Ht Hx); auto. }
  assert (Hh2 : genTargetHeight c2 = genTargetHeight c) by (rewrite <- Hh1; apply (ts_height _ _ (leads_step _ _ Hl2))).
  assert (Hstart : Unstaking_Execute pid vault_pid from H am c = fee_from_amount vault_pid from am (wait H from (StakingUnlockRequiredBlocks hp)) c2).
  { unfold Unstaking_Execute. rewrite Hrun. unfold policy_at, mbind, M_bind. rewrite Hr2, Hp1. unfold lift. by rewrite Hpol. }
  unfold short. rewrite <- Hdf, <- (Hb1 from), <- Hfe. case_bool_decide as Hs.
  - destruct (does_fee_short H from (StakingUnlockRequiredBlocks hp) D (with_stake from (stake m from - am) m) am c2 s1)
      as (s' & (c3 & Hr3 & Hl3 & Hat3) & Hok' & Hun' & Hb' & Hf'); try done; try (by rewrite ?Hh2, ?Hhas1, ?Hdf, ?Hfe).
    rewrite Hh2 in Hun'. exists s'. split_and!; [|done|done| |done].
    + exists c3. split; [by rewrite Hstart|split; [chain|done]].
    + intros b. rewrite Hb', Hb1. lia.
  - destruct (does_fee_paid H from (StakingUnlockRequiredBlocks hp) D (with_stake from (stake m from - am) m) am c2 s1)
      as (s' & (c3 & Hr3 & Hl3 & Hat3) & Hok' & Hun' & Hb' & Hf'); try done; try (by rewrite ?Hh2, ?Hhas1, ?Hdf, ?Hfe); [lia|].
    rewrite Hh2 in Hun'. exists s'. split_and!; [|done|done| |done].
    + exists c3. split; [by rewrite Hstart|split; [chain|done]].
    + intros b. by rewrite Hb', Hb1.
Qed.

(** ** Reverting an unstaking *)

(** The address leaves the table of the height; its amounts stay. *)
Lemma does_removeUnstakingAmount h L i a c s :
  valid_addr a → at_state c s → due_at h L s → L !! i = Some a →
  ∃ s', does (removeUnstakingAmount pid a h) c (Ok tt) s' ∧ due_at h (swap_remove i L) s' ∧
    wrote (unstaking_keys h) (pset pid) s s'.
Proof using AI Hpid.
  intros Ha Hat Hnb Hi. pose proof (process_space_laws (A:=A) (E:=E) pid Hpid) as SL.
  destruct (does_ProcessData pid (toUnstakingAmountNumberKey h a) c s Hpid Hat) as (c1 & Hr1 & Hl1 & Hat1).
  destruct (does_leave _ _ _ _ SL (unstaking_keys_laws h) L i a c1 s Hat1 Hnb Hi) as (s' & (c2 & Hr2 & Hl2 & Hat2) & Hnb' & Hw).
  exists s'. split_and!; [|done|done]. exists c2. split; [|split; [chain|done]].
  unfold removeUnstakingAmount. rewrite (bind_Ok _ _ _ _ _ Hr1).
  rewrite (nb_number _ _ _ _ Hnb i a Hi : pget pid s (toUnstakingAmountNumberKey h a) = _). exact Hr2.
Qed.

(** Taking the whole of the only amount of an address: the bytes of the entry
    are not written, and the answer of the removal does not matter. *)
Lemma does_subUnstaking_all h a H x (r : res unit) (Q : Abs → Prop) c s :
  at_state c s → entry (pget pid s (toUnstakingAmountKey h a)) (Some {[H := x]}) →
  r ≠ Panic → (∀ c, at_state c s → ∃ s', does (removeUnstakingAmount pid a h) c r s' ∧ Q s') →
  ∃ s', does (subUnstakingAmount pid H a h x) c (Ok tt) s' ∧ Q s'.
Proof using AI Hpid.
  intros Hat He Hr Hrem.
  destruct (does_GetUnstakingAmountMap h a (Some {[H := x]}) c s Hat He) as (c1 & Hr1 & Hl1 & Hat1).
  destruct (Hrem c1 Hat1) as (s' & (c2 & Hr2 & Hl2 & Hat2) & HQ). exists s'. split; [|done].
  exists c2. split; [|split; [chain|done]]. unfold subUnstakingAmount. rewrite (bind_Ok _ _ _ _ _ Hr1), lookup_singleton_eq.
  unfold Amount.Less. rewrite Z.ltb_irrefl. erewrite bind_Ok by reflexivity.
  unfold Amount.Sub, Amount.IsZero. rewrite Z.sub_diag. change (0 =? 0) with true. cbv iota.
  rewrite delete_singleton_eq. change (0 <? om_Len ∅)%nat with false. cbv iota.
  unfold try, mbind, M_bind. rewrite Hr2. by destruct r.
Qed.

(** An unstaking can be reverted again and again.  When the reverted
    amount is all that waits for the sender at the height, the sender is taken
    out of the table but the amounts stay in the data; the error of the
    removal is ignored, so [subUnstakingAmount] succeeds once more, as often
    as it is called, and [RevertUnstaking] credits the stake each time. *)
Theorem subUnstakingAmount_repeats h D H a x c s :
  valid_addr a → at_state c s → unstaking h D s → D !! a = Some {[H := x]} →
  ∃ s', does (subUnstakingAmount pid H a h x) c (Ok tt) s' ∧
    (∃ L, due_at h L s' ∧ a ∉ L) ∧
    entry (pget pid s' (toUnstakingAmountKey h a)) (Some {[H := x]}) ∧
    ∀ c', at_state c' s' → does (subUnstakingAmount pid H a h x) c' (Ok tt) s'.
Proof using AI Hpid.
  intros Ha Hat [(L & Hnb & HL) Hen Hok] HD. pose proof (Hen a Ha) as He. rewrite HD in He.
  assert (Hin : a ∈ L) by (apply HL; eauto). apply list_elem_of_lookup_1 in Hin as [i Hi].
  assert (Hout : a ∉ swap_remove i L) by (rewrite (elem_of_swap_remove i L a) by (done || apply Hnb); naive_solver).
  destruct (does_subUnstaking_all h a H x (Ok tt) (λ s', due_at h (swap_remove i L) s' ∧ wrote (unstaking_keys h) (pset pid) s s') c s)
    as (s' & Hd & Hnb' & Hw); try done; [intros; by apply does_removeUnstakingAmount|].
  destruct (wrote_due h s s' Hw) as [_ Hkeep]. rewrite <- Hkeep in He.
  exists s'. split_and!; [done|by eexists|done|]. intros c' Hc'.
  destruct (does_subUnstaking_all h a H x (Err ErrNotExistUnstakingAmount) (eq s') c' s') as (s2 & Hd2 & <-); try done.
  intros c1 Hc1. exists s'. split; [|done]. unfold removeUnstakingAmount.
  eapply does_bind; [by apply does_ProcessData|]. intros c2 Hc2.
  rewrite (nb_absent _ _ _ _ Hnb' a Ha Hout : pget pid s' (toUnstakingAmountNumberKey h a) = _).
  by apply does_Err, does_guard_true.
Qed.

End FormulatorUnstake.
