(* ===== verification/FormulatorRevoke.v ===== *)
(** * process/formulator: paying out a revoked formulator

    [revokeFormulator] runs when the lock of a revoked formulator ends: the
    heritor, if there is one, gets the amount and the balance of the
    formulator, the stakers of a hyper formulator get their stakes, and the
    account is deleted.  An error here is an error of the block.  The theorems say when it succeeds: exactly
    when the field [StakingAmount] of the account is the sum of the stakes. *)

From S2P Require Import Prelude Tokens Amount Common Context ContextSpec ContextTrace OrderedMaps Vault VaultSpec DataRun VaultRun Numbered Formulator FormulatorTx FormulatorSpec.

Section FormulatorRevoke.
Context {A E : Type} `{AI : AccountI A} `{EI : EventI E} `{B58 : Base58}.
Context `{FA : !FormulatorAccounts A} `{FE : FormulatorEvents E} `{TK : TokenCodec} `{PCs : PolicyCodecs}.
Context (pid vault_pid : Z) (Hpid : valid_pid pid) (Hvault : valid_pid vault_pid).
Context (Hne : pid ≠ vault_pid).
Implicit Types (c : Ctx A E) (s : Abs (A:=A)) (F a : Address) (m : gmap Address Z) (l : list (Address * Z)).

(** ** The loop over the stakes *)

Definition present s a : Prop := ∃ acc, abs_Account s a = Ok acc.

(** What the loop leaves alone: it changes balances and the account of [F]. *)
Record pay_frame F s s' : Prop := {
  pf_account : ∀ a, a ≠ F → abs_Account s' a = abs_Account s a;
  pf_present : present s F → present s' F;
  pf_has : ∀ a, abs_HasAccount s' a = abs_HasAccount s a;
  pf_process : ∀ q n, pget q s' n = pget q s n;
  pf_data : ∀ q a n, q ≠ vault_pid → aget q s' a n = aget q s a n;
}.
Lemma pay_frame_refl F s : pay_frame F s s.
Proof. by split. Qed.
Lemma pay_frame_trans F s1 s2 s3 : pay_frame F s1 s2 → pay_frame F s2 s3 → pay_frame F s1 s3.
Proof.
  intros [H1 H2 H3 H4 H5] [G1 G2 G3 G4 G5]. split; intros; rewrite ?G1, ?G3, ?G4, ?G5 by done; auto.
Qed.
Lemma pay_frame_set_bal F a x s : pay_frame F s (set_bal vault_pid a x s).
Proof. split; try done. intros. by apply aget_aset_ne. Qed.
Lemma pay_frame_accset F acc s : pay_frame F s (accset F acc s).
Proof. split; try done; intros; [|exists acc]; rewrite accset_lookup; [by rewrite decide_False|by rewrite decide_True]. Qed.

Definition stakes_sum l : Z := foldr (λ e n, e.2 + n) 0 l.

Lemma stakes_sum_nonneg l : Forall (λ e, valid_addr e.1 ∧ 0 < e.2) l → 0 ≤ stakes_sum l.
Proof. induction 1; simpl in *; lia. Qed.

(** One staker is paid. *)
Lemma does_pay_back F frAcc sa e c s :
  at_state c s → known F c → present s F → StakingAmount frAcc = Ok sa → valid_addr e.1 → 0 < e.2 ≤ sa →
  0 ≤ bal vault_pid s e.1 →
  let s1 := accset F (of_formulator (set_StakingAmount (sa - e.2) frAcc)) s in
  does (pay_back vault_pid F frAcc e) c (Ok (set_StakingAmount (sa - e.2) frAcc))
    (set_bal vault_pid e.1 (bal vault_pid s e.1 + e.2) s1).
Proof using AI Hvault.
  intros Hat Hk [acc Hacc] Hsa Ha He Hb s1. destruct e as [a am]. cbn [fst snd] in *. unfold pay_back.
  unfold Amount.IsZero. rewrite (proj2 (Z.eqb_neq _ _)) by lia.
  eapply does_bind_known; [by apply does_guard_false|]. intros c1 Hc1 Hk1.
  rewrite Hsa. eapply does_bind_known; [by apply does_lift|]. intros c2 Hc2 Hk2.
  unfold Amount.Less. rewrite (proj2 (Z.ltb_ge _ _)) by lia.
  eapply does_bind_known; [by apply does_guard_false|]. intros c3 Hc3 Hk3.
  eapply does_bind; [by eapply does_AssignAccount; auto|]. intros c4 Hc4.
  eapply does_bind; [apply does_AddBalance; [done|done|exact Hc4|lia]|]. intros c5 Hc5. by apply does_ret.
Qed.

Lemma does_pay_back_less F frAcc sa e c s :
  at_state c s → StakingAmount frAcc = Ok sa → 0 < e.2 → sa < e.2 →
  does (pay_back vault_pid F frAcc e) c (Err ErrCriticalStakingAmount) s.
Proof.
  intros Hat Hsa Hpos He. destruct e as [a am]. cbn [fst snd] in *. unfold pay_back.
  unfold Amount.IsZero. rewrite (proj2 (Z.eqb_neq _ _)) by lia.
  eapply does_bind; [by apply does_guard_false|]. intros c1 Hc1.
  rewrite Hsa. eapply does_bind; [by apply does_lift|]. intros c2 Hc2.
  unfold Amount.Less. rewrite (proj2 (Z.ltb_lt _ _)) by lia. by apply does_Err, does_guard_true.
Qed.

Lemma set_StakingAmount_Address sa frAcc : fr_Address (set_StakingAmount sa frAcc) = fr_Address frAcc.
Proof. unfold set_StakingAmount. by destruct (fr_Type frAcc). Qed.

(** The whole loop: the stakes are paid while the field covers them. *)
Lemma does_pay_back_all F l frAcc sa c s :
  at_state c s → known F c → present s F → StakingAmount frAcc = Ok sa → 0 ≤ sa →
  Forall (λ e, valid_addr e.1 ∧ 0 < e.2) l → (∀ a, 0 ≤ bal vault_pid s a) →
  if decide (stakes_sum l ≤ sa) then
    ∃ s' frAcc', does (fold_m (pay_back vault_pid F) frAcc l) c (Ok frAcc') s' ∧
      StakingAmount frAcc' = Ok (sa - stakes_sum l) ∧ fr_Address frAcc' = fr_Address frAcc ∧
      pay_frame F s s' ∧ ∀ b, bal vault_pid s' b = bal vault_pid s b + received fst snd b l
  else ∃ s', does (fold_m (pay_back vault_pid F) frAcc l) c (Err ErrCriticalStakingAmount) s'.
Proof using AI Hvault.
  revert frAcc sa c s. induction l as [|e l IH]; intros frAcc sa c s Hat Hk Hacc Hsa Hsa0 Hl Hb; simpl.
  { rewrite (decide_True (P:=0 ≤ sa)) by done. exists s, frAcc.
    split_and!; [by apply does_ret|rewrite Hsa; f_equal; lia|done|apply pay_frame_refl|intros b; lia]. }
  apply Forall_cons in Hl as [[Hv Hpos] Hl]. pose proof (stakes_sum_nonneg l Hl) as Hge.
  destruct (decide (e.2 ≤ sa)) as [Hle|Hgt]; cycle 1.
  { rewrite (decide_False (P:=e.2 + stakes_sum l ≤ sa)) by lia. exists s. eapply does_Err, does_pay_back_less; eauto with lia. }
  destruct (does_pay_back F frAcc sa e c s) as (c1 & Hr1 & Hl1 & Hat1); try done.
  set (s1 := accset F (of_formulator (set_StakingAmount (sa - e.2) frAcc)) s) in *.
  set (s2 := set_bal vault_pid e.1 (bal vault_pid s e.1 + e.2) s1) in *.
  assert (Hb2 : ∀ b, bal vault_pid s2 b = bal vault_pid s b + if decide (e.1 = b) then e.2 else 0).
  { intros b. apply (pays_set_bal vault_pid e.1 e.2 s1). specialize (Hb e.1). change (bal vault_pid s1 e.1) with (bal vault_pid s e.1). lia. }
  assert (Hpf : pay_frame F s s2) by (eapply pay_frame_trans; [apply pay_frame_accset|apply pay_frame_set_bal]).
  specialize (IH (set_StakingAmount (sa - e.2) frAcc) (sa - e.2) c1 s2 Hat1 (ld_known _ _ Hl1 F Hk) (pf_present _ _ _ Hpf Hacc)
    (StakingAmount_set _ _ _ Hsa) ltac:(lia) Hl).
  assert (Hb2' : ∀ a, 0 ≤ bal vault_pid s2 a) by (intros a; rewrite Hb2; specialize (Hb a); destruct (decide (e.1 = a)); lia).
  specialize (IH Hb2'). destruct (decide (stakes_sum l ≤ sa - e.2)) as [Hs|Hs].
  - rewrite (decide_True (P:=e.2 + stakes_sum l ≤ sa)) by lia. destruct IH as (s' & frAcc' & (c2 & Hr2 & Hl2 & Hat2) & Hsa' & Haddr & Hfr & Hbal).
    exists s', frAcc'. split_and!.
    + exists c2. split; [|split; [chain|done]]. by rewrite (bind_Ok _ _ _ _ _ Hr1).
    + rewrite Hsa'. f_equal. lia.
    + by rewrite Haddr, set_StakingAmount_Address.
    + by eapply pay_frame_trans.
    + intros b. rewrite Hbal, Hb2. lia.
  - rewrite (decide_False (P:=e.2 + stakes_sum l ≤ sa)) by lia. destruct IH as (s' & (c2 & Hr2 & Hl2 & Hat2)). exists s', c2.
    split; [|split; [chain|done]]. by rewrite (bind_Ok _ _ _ _ _ Hr1).
Qed.

(** ** The heritor *)

(** What the heritor gets. *)
Definition inherit F heritor (am : Z) s : Abs :=
  let s1 := set_bal vault_pid heritor (bal vault_pid s heritor + am) s in
  set_bal vault_pid F 0 (set_bal vault_pid heritor (bal vault_pid s1 heritor + bal vault_pid s1 F) s1).

Lemma bal_inherit F heritor am s b :
  F ≠ heritor → 0 ≤ am → (∀ a, 0 ≤ bal vault_pid s a) →
  bal vault_pid (inherit F heritor am s) b
  = (if decide (b = F) then 0 else bal vault_pid s b) + if decide (b = heritor) then am + bal vault_pid s F else 0.
Proof.
  intros HFh Ham Hb. pose proof (Hb F). pose proof (Hb heritor). unfold inherit.
  assert (H1 : ∀ a, bal vault_pid (set_bal vault_pid heritor (bal vault_pid s heritor + am) s) a
    = if decide (a = heritor) then bal vault_pid s heritor + am else bal vault_pid s a) by (intros; apply bal_set_bal; lia).
  rewrite bal_set_bal by done. rewrite bal_set_bal by (rewrite !H1, decide_True, decide_False by done; lia).
  rewrite !H1. rewrite (decide_True (P:=heritor = heritor)), (decide_False (P:=F = heritor)) by done.
  destruct (decide (b = F)) as [->|HbF]; [rewrite decide_False by done; lia|].
  destruct (decide (b = heritor)) as [->|Hbh]; lia.
Qed.

Lemma pay_frame_inherit F heritor am s : pay_frame F s (inherit F heritor am s).
Proof. unfold inherit. repeat (eapply pay_frame_trans; [|apply pay_frame_set_bal]). apply pay_frame_refl. Qed.

Lemma does_is_alive a (b : bool) c s : at_state c s → abs_HasAccount s a = Ok b → does (is_alive a) c (Ok b) s.
Proof.
  intros Hat Hh. unfold is_alive. eapply does_bind; [by apply does_try, does_HasAccount|]. intros c1 Hc1. by apply does_ret.
Qed.

Lemma does_is_alive_deleted a c s : at_state c s → abs_HasAccount s a = Err ErrDeletedAccount → does (is_alive a) c (Ok false) s.
Proof.
  intros Hat Hh. unfold is_alive. eapply does_bind; [by apply does_try_Err, does_HasAccount|]. intros c1 Hc1. by apply does_ret.
Qed.

(** Whether there is somebody to pay: an account, no account, or one that
    was deleted. *)
Definition heritor_alive s a (alive : bool) : Prop :=
  abs_HasAccount s a = Ok alive ∨ alive = false ∧ abs_HasAccount s a = Err ErrDeletedAccount.

Lemma does_alive a alive c s : at_state c s → heritor_alive s a alive → does (is_alive a) c (Ok alive) s.
Proof. intros Hat [H|[-> H]]; [by apply does_is_alive|by apply does_is_alive_deleted]. Qed.

(** The state after the heritor. *)
Definition inherited (alive : bool) F heritor (am : Z) s : Abs := if alive then inherit F heritor am s else s.

Lemma bal_inherited alive F heritor am s b :
  F ≠ heritor → 0 ≤ am → (∀ a, 0 ≤ bal vault_pid s a) →
  bal vault_pid (inherited alive F heritor am s) b
  = if alive then (if decide (b = F) then 0 else bal vault_pid s b) + (if decide (b = heritor) then am + bal vault_pid s F else 0)
    else bal vault_pid s b.
Proof. destruct alive; [apply bal_inherit|done]. Qed.
Lemma pay_frame_inherited alive F heritor am s : pay_frame F s (inherited alive F heritor am s).
Proof. destruct alive; [apply pay_frame_inherit|apply pay_frame_refl]. Qed.

(** The part before the stakes. *)
Lemma does_inherit {X} alive F heritor frAcc (k : FormulatorAccount → M (Ctx A E) X) r (Q : Abs → Prop) c s :
  valid_addr F → valid_addr heritor → at_state c s → abs_Account s F = Ok (of_formulator frAcc) →
  heritor_alive s heritor alive → 0 ≤ fr_Amount frAcc → (∀ a, 0 ≤ bal vault_pid s a) →
  (∀ c', at_state c' (inherited alive F heritor (fr_Amount frAcc) s) → known F c' → ∃ s', does (k frAcc) c' r s' ∧ Q s') →
  ∃ s', does (frAcc ← Formulator_at F;
        has ← is_alive heritor;
        (if (has : bool) then
           AddBalance vault_pid heritor (fr_Amount frAcc) ;;
           b ← Balance vault_pid F;
           AddBalance vault_pid heritor b ;;
           RemoveBalance vault_pid F
         else mret tt) ;;
        k frAcc) c r s' ∧ Q s'.
Proof using AI Hvault.
  intros HF Hh Hat Hacc Hhas Ham Hb Hk.
  destruct (does_Account_known F _ c s Hat Hacc) as (c1 & Hr1 & Hl1 & Hat1 & Hk1).
  assert (Hst : Formulator_at F c = (Ok frAcc, c1)).
  { unfold Formulator_at, mbind, M_bind. by rewrite Hr1, to_of_formulator. }
  destruct (does_alive heritor alive c1 s Hat1 Hhas) as (c2 & Hr2 & Hl2 & Hat2).
  destruct alive; cycle 1.
  { destruct (Hk c2 Hat2) as (s' & (c3 & Hr3 & Hl3 & Hat3) & HQ); [by apply (ld_known _ _ Hl2)|].
    exists s'. split; [|done]. exists c3. split; [|split; [chain|done]].
    rewrite (bind_Ok _ _ _ _ _ Hst), (bind_Ok _ _ _ _ _ Hr2). exact Hr3. }
  destruct (does_AddBalance vault_pid Hvault heritor (fr_Amount frAcc) c2 s Hh Hat2 Ham) as (c3 & Hr3 & Hl3 & Hat3).
  destruct (does_Balance vault_pid Hvault F c3 _ HF Hat3) as (c4 & Hr4 & Hl4 & Hat4).
  set (s1 := set_bal vault_pid heritor (bal vault_pid s heritor + fr_Amount frAcc) s) in *.
  destruct (does_AddBalance vault_pid Hvault heritor (bal vault_pid s1 F) c4 s1 Hh Hat4) as (c5 & Hr5 & Hl5 & Hat5).
  { unfold s1. rewrite bal_set_bal by (specialize (Hb heritor); lia). case_decide; [specialize (Hb heritor); lia|apply Hb]. }
  destruct (does_RemoveBalance vault_pid Hvault F c5 _ HF Hat5) as (c6 & Hr6 & Hl6 & Hat6).
  destruct (Hk c6 Hat6) as (s' & (c7 & Hr7 & Hl7 & Hat7) & HQ).
  { by apply (ld_known _ _ Hl6), (ld_known _ _ Hl5), (ld_known _ _ Hl4), (ld_known _ _ Hl3), (ld_known _ _ Hl2). }
  exists s'. split; [|done]. exists c7. split; [|split; [chain|done]]. rewrite (bind_Ok _ _ _ _ _ Hst), (bind_Ok _ _ _ _ _ Hr2). cbv iota.
  rewrite <- Hr7. unfold mbind, M_bind. by rewrite Hr3, Hr4, Hr5, Hr6.
Qed.

(** ** The end of a hyper formulator *)

Lemma range_ok m l : l ≡ₚ map_to_list m → map_Forall (λ a x, valid_addr a ∧ 0 < x) m → Forall (λ e, valid_addr e.1 ∧ 0 < e.2) l.
Proof. intros -> Hm. apply Forall_forall. intros [a x] Hin%elem_of_map_to_list. by apply Hm. Qed.

Lemma staked_entries F m s : staked pid F m s → map_Forall (λ a x, valid_addr a ∧ 0 < x) m.
Proof.
  intros [(L & Hnb & HL) _ Hpos] a x Ha. split; [|by apply (Hpos a x)].
  pose proof (nb_valid _ _ _ _ Hnb) as Hv. rewrite Forall_forall in Hv. apply Hv, HL. eauto.
Qed.

(** The part of [revokeFormulator] after the heritor is paid. *)
Definition revoke_rest (range : gmap Address Z → list (Address * Z)) F (frAcc : FormulatorAccount) : M (Ctx A E) unit :=
  frAcc ← (if is_hyper frAcc then
             StakingAmountMap ← GetStakingAmountMap pid F;
             frAcc ← fold_m (pay_back vault_pid F) frAcc (range StakingAmountMap);
             sa ← lift (StakingAmount frAcc);
             guard_err (negb (Amount.IsZero sa)) ErrCriticalStakingAmount ;;
             mret frAcc
           else mret frAcc);
  DeleteAccount (of_formulator frAcc) ;;
  h ← TargetHeight;
  EmitEvent (of_revoked (mkRevoked h 65535 0 F)).

(** Reading the stakes and paying them back. *)
Lemma does_stakes_back F frAcc m sa range c s :
  valid_addr F → at_state c s → known F c → present s F → StakingAmount frAcc = Ok sa → 0 ≤ sa → staked pid F m s →
  range m ≡ₚ map_to_list m → (∀ a, 0 ≤ bal vault_pid s a) →
  let prog := (StakingAmountMap ← GetStakingAmountMap pid F;
               frAcc ← fold_m (pay_back vault_pid F) frAcc (range StakingAmountMap);
               sa ← lift (StakingAmount frAcc);
               guard_err (negb (Amount.IsZero sa)) ErrCriticalStakingAmount ;;
               mret frAcc) in
  if decide (sa = map_sum m) then
    ∃ s' frAcc', does prog c (Ok frAcc') s' ∧ fr_Address frAcc' = fr_Address frAcc ∧ pay_frame F s s' ∧
      ∀ b, bal vault_pid s' b = bal vault_pid s b + stake m b
  else ∃ s', does prog c (Err ErrCriticalStakingAmount) s'.
Proof using AI Hpid Hvault.
  intros HF Hat Hk Hp Hsa Hsa0 Hst Hrange Hb prog.
  destruct (does_GetStakingAmountMap pid Hpid F m c s HF Hat Hst) as (c1 & Hr1 & Hl1 & Hat1).
  pose proof (does_pay_back_all F (range m) frAcc sa c1 s Hat1 (ld_known _ _ Hl1 F Hk) Hp Hsa Hsa0
    (range_ok _ _ Hrange (staked_entries _ _ _ Hst)) Hb) as Hloop.
  unfold stakes_sum in Hloop. rewrite (amounts_sum_map m (range m) Hrange) in Hloop.
  destruct (decide (map_sum m ≤ sa)) as [Hle|Hgt]; cycle 1.
  { rewrite decide_False by lia. destruct Hloop as (s' & c2 & Hr2 & Hl2 & Hat2). exists s', c2. split; [|split; [chain|done]].
    unfold prog. by rewrite (bind_Ok _ _ _ _ _ Hr1), (bind_Err _ _ _ _ _ Hr2). }
  destruct Hloop as (s' & frAcc' & (c2 & Hr2 & Hl2 & Hat2) & Hsa' & Haddr & Hfr & Hbal).
  assert (Hrun : prog c = (guard_err (negb (Amount.IsZero (sa - map_sum m))) ErrCriticalStakingAmount ;; mret frAcc') c2).
  { unfold prog. rewrite (bind_Ok _ _ _ _ _ Hr1), (bind_Ok _ _ _ _ _ Hr2). rewrite Hsa'. done. }
  unfold Amount.IsZero in Hrun. destruct (decide (sa = map_sum m)) as [->|Hns].
  - rewrite Z.sub_diag in Hrun. exists s', frAcc'. split_and!; [exists c2; split; [done|split; [chain|done]]|done|done|].
    intros b. rewrite Hbal. f_equal. etrans; [exact (received_keys m (λ x, x) b (range m) Hrange)|]. unfold stake. by destruct (m !! b).
  - rewrite (proj2 (Z.eqb_neq _ _)) in Hrun by lia. exists s', c2. split; [done|split; [chain|done]].
Qed.

(** Paying the stakes back and deleting the account, with right books. *)
Lemma does_revoke_rest F frAcc m sa range c s :
  valid_addr F → at_state c s → known F c → present s F → fr_Address frAcc = F → StakingAmount frAcc = Ok sa → 0 ≤ sa →
  staked pid F m s → range m ≡ₚ map_to_list m → (∀ a, 0 ≤ bal vault_pid s a) → sa = map_sum m →
  ∃ s', does (revoke_rest range F frAcc) c (Ok tt) s' ∧ abs_Account s' F = Err ErrDeletedAccount ∧
    ∀ b, valid_addr b → bal vault_pid s' b = bal vault_pid s b + stake m b.
Proof using AI Hpid Hvault.
  intros HF Hat Hk Hp Haddr Hsa Hsa0 Hst Hrange Hb Heq.
  assert (Hhyper : is_hyper frAcc = true) by (unfold is_hyper, StakingAmount in *; by destruct (fr_Type frAcc)).
  pose proof (does_stakes_back F frAcc m sa range c s HF Hat Hk Hp Hsa Hsa0 Hst Hrange Hb) as Hback.
  cbv zeta in Hback. rewrite (decide_True (P:=sa = map_sum m)) in Hback by done.
  destruct Hback as (s2 & frAcc' & (c2 & Hr2 & Hl2 & Hat2) & Haddr' & Hfr2 & Hbal).
  destruct (pf_present _ _ _ Hfr2 Hp) as [acc2 Hacc2].
  assert (Hadd : acc_Address (of_formulator frAcc') = F) by (rewrite of_formulator_Address; congruence).
  destruct (does_DeleteAccount (of_formulator frAcc') acc2 c2 s2) as (s3 & (c3 & Hr3 & Hl3 & Hat3) & Hsame); [done|by rewrite Hadd|].
  rewrite Hadd in Hsame. destruct (does_TargetHeight c3 s3 Hat3) as (c4 & Hr4 & Hl4 & Hat4).
  destruct (does_EmitEvent (of_revoked (mkRevoked (genTargetHeight c3) 65535 0 F)) c4 s3 Hat4) as (c5 & Hr5 & Hl5 & Hat5).
  exists s3. split_and!.
  - exists c5. split; [|split; [chain|done]]. unfold revoke_rest. rewrite Hhyper.
    by rewrite (bind_Ok _ _ _ _ _ Hr2), (bind_Ok _ _ _ _ _ Hr3), (bind_Ok _ _ _ _ _ Hr4).
  - rewrite (sd_Account _ _ Hsame). simpl. by rewrite decide_True.
  - intros b Hvb. transitivity (bal vault_pid s2 b); [|apply Hbal]. unfold bal. by rewrite (sd_AccountData _ _ Hsame).
Qed.

(** C20. A revoked hyper formulator is paid out exactly when its books are
    right.  If the field [StakingAmount] is the sum of the stakes, every
    staker gets the stake, in whatever order the map is iterated, and the
    account is deleted; if it is not, [revokeFormulator] fails with
    [ErrCriticalStakingAmount].  The heritor is another address than the
    formulator: if it has an account it gets the amount and the balance of the
    formulator, whose balance ends; if it has none, or one that was deleted,
    nobody gets the amount, which is lost with the account, and the balance
    stays where it is. *)
Theorem revokeFormulator_result F heritor alive frAcc m sa range c s :
  valid_addr F → valid_addr heritor → F ≠ heritor → at_state c s →
  abs_Account s F = Ok (of_formulator frAcc) → fr_Address frAcc = F → StakingAmount frAcc = Ok sa → 0 ≤ sa →
  staked pid F m s → heritor_alive s heritor alive → 0 ≤ fr_Amount frAcc →
  (∀ a, 0 ≤ bal vault_pid s a) → range m ≡ₚ map_to_list m →
  if decide (sa = map_sum m) then
    ∃ s', does (revokeFormulator pid vault_pid range F heritor) c (Ok tt) s' ∧
      abs_Account s' F = Err ErrDeletedAccount ∧
      ∀ b, valid_addr b → bal vault_pid s' b = stake m b +
        if alive then (if decide (b = F) then 0 else bal vault_pid s b)
          + (if decide (b = heritor) then fr_Amount frAcc + bal vault_pid s F else 0)
        else bal vault_pid s b
  else ∃ s', does (revokeFormulator pid vault_pid range F heritor) c (Err ErrCriticalStakingAmount) s'.
Proof using AI Hpid Hvault Hne.
  intros HF Hh HFh Hat Hacc Haddr Hsa Hsa0 Hst Hhas Ham Hb Hrange.
  assert (Hhyper : is_hyper frAcc = true) by (unfold is_hyper, StakingAmount in *; by destruct (fr_Type frAcc)).
  set (s1 := inherited alive F heritor (fr_Amount frAcc) s).
  pose proof (pay_frame_inherited alive F heritor (fr_Amount frAcc) s) as Hfr1. fold s1 in Hfr1.
  assert (Hst1 : staked pid F m s1) by (eapply staked_frame; [done|]; intros n _; by apply (pf_data _ _ _ Hfr1)).
  assert (Hb1 : ∀ a, 0 ≤ bal vault_pid s1 a).
  { intros a. unfold s1. rewrite bal_inherited by done. pose proof (Hb a). pose proof (Hb F). destruct alive; repeat case_decide; lia. }
  assert (Hstart : ∀ r (Q : Abs → Prop),
    (∀ c', at_state c' s1 → known F c' → ∃ s', does (revoke_rest range F frAcc) c' r s' ∧ Q s') →
    ∃ s', does (revokeFormulator pid vault_pid range F heritor) c r s' ∧ Q s').
  { intros r Q. by apply (does_inherit alive F heritor frAcc (revoke_rest range F)). }
  assert (Hp1 : present s1 F) by (apply (pf_present _ _ _ Hfr1); by eexists).
  case_decide as Heq.
  - apply Hstart. intros c1 Hat1 Hk1.
    destruct (does_revoke_rest F frAcc m sa range c1 s1) as (s' & Hd & Hacc' & Hbal); try done.
    exists s'. split_and!; [done|done|]. intros b Hvb. rewrite Hbal by done. unfold s1. rewrite bal_inherited by done. lia.
  - destruct (Hstart (Err ErrCriticalStakingAmount) (λ _, True)) as (s' & Hd & _); [|by exists s'].
    intros c1 Hat1 Hk1.
    pose proof (does_stakes_back F frAcc m sa range c1 s1 HF Hat1 Hk1 Hp1 Hsa Hsa0 Hst1 Hrange Hb1) as Hback.
    cbv zeta in Hback. rewrite (decide_False (P:=sa = map_sum m)) in Hback by done. destruct Hback as (s2 & Hd).
    exists s2. split; [|done]. unfold revoke_rest. rewrite Hhyper. by apply does_Err.
Qed.

End FormulatorRevoke.
