(* ===== verification/FormulatorBounds.v ===== *)
(** * process/formulator: rewards stay within their budget

    A reward is shared in proportion to powers: the budget is multiplied by a
    coin and divided by the sum of the powers, which gives a ratio; a power
    gets its product with the ratio, divided by a coin.  Both divisions round
    down, so the shares never add up to more than the budget. *)

From S2P Require Import Prelude Tokens Amount Common Context ContextSpec ContextTrace OrderedMaps Vault VaultSpec DataRun VaultRun Numbered Formulator FormulatorTx FormulatorReward FormulatorSpec FormulatorRevoke.

(** ** Proportional shares *)

Definition ratio_of (budget sum : Z) : Z := budget * Amount.COIN / sum.
Definition part (ratio power : Z) : Z := power * ratio / Amount.COIN.
Definition parts (ratio : Z) (l : list (Address * Z)) : Z := foldr (λ e n, part ratio e.2 + n) 0 l.

Lemma COIN_pos : 0 < Amount.COIN.
Proof. done. Qed.

Lemma Div_pos am b : 0 < b → Amount.Div am b = Ok (am / b).
Proof. intros Hb. unfold Amount.Div. rewrite (proj2 (Z.eqb_neq _ _)) by lia. by rewrite Z.sgn_pos, Z.abs_eq, Z.mul_1_l by lia. Qed.

Lemma share_part ratio power : share ratio power = Ok (part ratio power).
Proof. unfold share, part, Amount.Mul. apply Div_pos, COIN_pos. Qed.

Lemma part_nonneg ratio power : 0 ≤ ratio → 0 ≤ power → 0 ≤ part ratio power.
Proof. intros. apply Z.div_pos; [nia|apply COIN_pos]. Qed.
Lemma ratio_nonneg budget sum : 0 ≤ budget → 0 < sum → 0 ≤ ratio_of budget sum.
Proof. intros. pose proof COIN_pos. apply Z.div_pos; [nia|done]. Qed.

Lemma parts_le ratio l :
  0 ≤ ratio → Forall (λ e, 0 ≤ e.2) l → parts ratio l * Amount.COIN ≤ foldr (λ (e : Address * Z) n, e.2 + n) 0 l * ratio.
Proof.
  intros Hr. induction 1 as [|e l He _ IH]; simpl; [done|].
  pose proof (Z.mul_div_le (e.2 * ratio) Amount.COIN COIN_pos). fold (part ratio e.2) in *. lia.
Qed.

(** Shares of a budget by the powers [l], which are part of the sum. *)
Lemma parts_bounded budget sum l :
  0 ≤ budget → 0 < sum → Forall (λ e, 0 ≤ e.2) l → foldr (λ (e : Address * Z) n, e.2 + n) 0 l ≤ sum →
  parts (ratio_of budget sum) l ≤ budget.
Proof.
  intros Hb Hs Hl Hle. pose proof (ratio_nonneg budget sum Hb Hs) as Hr.
  pose proof (parts_le _ l Hr Hl) as Hp. pose proof (Z.mul_div_le (budget * Amount.COIN) sum Hs) as Hq.
  fold (ratio_of budget sum) in Hq. pose proof COIN_pos.
  apply (Zmult_le_reg_r _ _ Amount.COIN); [lia|]. nia.
Qed.

Lemma parts_app ratio l l' : parts ratio (l ++ l') = parts ratio l + parts ratio l'.
Proof. induction l as [|e l IH]; simpl; [done|]. rewrite IH. lia. Qed.
Lemma parts_perm ratio l l' : l ≡ₚ l' → parts ratio l = parts ratio l'.
Proof. intros Hp. unfold parts. apply (foldr_permutation eq); [apply _|intros; lia|done]. Qed.

Lemma parts_nonneg ratio l : 0 ≤ ratio → Forall (λ e, 0 ≤ e.2) l → 0 ≤ parts ratio l.
Proof. intros Hr. induction 1 as [|e l He _ IH]; simpl; [done|]. pose proof (part_nonneg ratio e.2 Hr He). lia. Qed.
Lemma sum_app (l l' : list (Address * Z)) :
  foldr (λ e n, e.2 + n) 0 (l ++ l') = foldr (λ e n, e.2 + n) 0 l + foldr (λ e n, e.2 + n) 0 l'.
Proof. induction l as [|e l IH]; simpl; [done|]. rewrite IH. lia. Qed.
Lemma sum_nonneg (l : list (Address * Z)) : Forall (λ e, 0 ≤ e.2) l → 0 ≤ foldr (λ e n, e.2 + n) 0 l.
Proof. induction 1; simpl; lia. Qed.

Section FormulatorBounds.
Context {A E : Type} `{AI : AccountI A} `{EI : EventI E} `{B58 : Base58}.
Context `{FA : !FormulatorAccounts A} `{FE : FormulatorEvents E} `{TK : TokenCodec} `{PCs : PolicyCodecs}.
Context (pid vault_pid : Z) (rg : Ranges) (Hpid : valid_pid pid) (Hvault : valid_pid vault_pid).
Context (Hne : pid ≠ vault_pid).
Implicit Types (c : Ctx A E) (s : Abs (A:=A)) (a : Address) (m : gmap Address Z).

(** ** The reward of a period *)

Lemma does_take_total policy height last c s :
  at_state c s → 0 ≤ fees vault_pid s →
  does (take_total vault_pid policy height last) c
    (Ok (RewardPerBlock policy * u32 (height - last) + fees vault_pid s)) (set_fees vault_pid 0 s).
Proof using Hvault.
  intros Hat Hf. unfold take_total. eapply does_bind; [by apply does_CollectedFee|]. intros c1 Hc1.
  eapply does_bind; [apply does_SubCollectedFee; [done|done|lia]|]. intros c2 Hc2.
  rewrite Z.sub_diag in Hc2. by apply does_ret.
Qed.

Lemma does_reward_step ratio ev e c s :
  valid_addr e.1 → at_state c s → 0 ≤ part ratio e.2 → 0 ≤ bal vault_pid s e.1 →
  ∃ ev' s', does (reward_step vault_pid ratio ev e) c (Ok ev') s' ∧ pays vault_pid e.1 (part ratio e.2) s s'.
Proof using Hvault.
  intros Ha Hat Hp Hb. unfold reward_step. rewrite share_part. destruct (does_lift c (Ok (part ratio e.2)) s Hat) as (c1 & Hr1 & Hl1 & Hat1).
  unfold Amount.IsZero. destruct (Z.eqb_spec (part ratio e.2) 0) as [Hz|Hnz].
  - exists ev, s. split.
    + eapply does_bind; [by apply does_lift|]. intros c2 Hc2. rewrite Hz. by apply does_ret.
    + rewrite Hz. split; [apply ledger_only_refl|]. intros b. case_decide; lia.
  - eexists _, _. split; [|by apply pays_set_bal; lia].
    eapply does_bind; [by apply does_lift|]. intros c2 Hc2. rewrite (proj2 (Z.eqb_neq _ _)) by done. cbn [negb].
    eapply does_bind; [by apply does_AddBalance|]. intros c3 Hc3. by apply does_ret.
Qed.

(** The stacked rewards: nothing but the map of the loop changes. *)
Lemma does_stacked ratio l StackRewardMap ev c s :
  at_state c s → (∀ e, e ∈ l → abs_HasAccount s e.1 = Ok true) →
  ∃ StackRewardMap' ev', does (fold_m (stacked_step ratio) (StackRewardMap, ev) l) c (Ok (StackRewardMap', ev')) s ∧
    map_sum StackRewardMap' = map_sum StackRewardMap + parts ratio l.
Proof.
  revert StackRewardMap ev c. induction l as [|e l IH]; intros SM ev c Hat Hl.
  { exists SM, ev. split; [by apply does_ret|]. simpl. lia. }
  set (SM1 := put_add e.1 (part ratio e.2) SM). set (ev1 := AddStacked e.1 (part ratio e.2) ev).
  assert (Hstep : does (stacked_step ratio (SM, ev) e) c (Ok (SM1, ev1)) s).
  { unfold stacked_step. eapply does_bind; [apply does_is_alive; [done|apply Hl; by constructor]|]. intros c1 Hc1.
    rewrite share_part. eapply does_bind; [by apply does_lift|]. intros c2 Hc2. by apply does_ret. }
  destruct Hstep as (c1 & Hr1 & Hl1 & Hat1).
  destruct (IH SM1 ev1 c1 Hat1) as (SM' & ev' & (c2 & Hr2 & Hl2 & Hat2) & Hsum); [intros; apply Hl; by constructor|].
  exists SM', ev'. split; [exists c2; split; [|split; [chain|done]]|].
  - simpl. by rewrite (bind_Ok _ _ _ _ _ Hr1).
  - rewrite Hsum. simpl. unfold SM1, put_add, Amount.Add. destruct (SM !! e.1) as [old|] eqn:Hold.
    + rewrite (map_sum_update SM e.1 old) by done. lia.
    + rewrite map_sum_insert by done. lia.
Qed.

(** The powers that the first loop has collected. *)
Record powers_ok (pw : Powers) s : Prop := {
  po_rewards : ∀ a p, pw_RewardPowerMap pw !! a = Some p → valid_addr a ∧ 0 ≤ p;
  po_staking : ∀ a p, pw_StakingRewardPowerMap pw !! a = Some p → abs_HasAccount s a = Ok true ∧ 0 ≤ p;
  po_sum : pw_Sum pw = map_sum (pw_RewardPowerMap pw) + map_sum (pw_StakingRewardPowerMap pw);
}.

Lemma powers_lists pw s l1 l2 :
  powers_ok pw s → l1 ≡ₚ map_to_list (pw_RewardPowerMap pw) → l2 ≡ₚ map_to_list (pw_StakingRewardPowerMap pw) →
  pw_Sum pw ≠ 0 →
  Forall (λ e, 0 ≤ e.2) l1 ∧ Forall (λ e, 0 ≤ e.2) l2 ∧
  foldr (λ (e : Address * Z) n, e.2 + n) 0 (l1 ++ l2) = pw_Sum pw ∧ 0 < pw_Sum pw.
Proof.
  intros [Hrew Hstk Hsum] Hp1 Hp2 Hnz.
  assert (Hl1 : Forall (λ e, 0 ≤ e.2) l1).
  { rewrite Hp1. apply Forall_forall. intros [a p] Hin%elem_of_map_to_list. by apply (Hrew a p). }
  assert (Hl2 : Forall (λ e, 0 ≤ e.2) l2).
  { rewrite Hp2. apply Forall_forall. intros [a p] Hin%elem_of_map_to_list. by apply (Hstk a p). }
  assert (Hall : foldr (λ (e : Address * Z) n, e.2 + n) 0 (l1 ++ l2) = pw_Sum pw).
  { by rewrite sum_app, Hsum, <- (amounts_sum_map _ l1 Hp1), <- (amounts_sum_map _ l2 Hp2). }
  split_and!; try done. pose proof (sum_nonneg (l1 ++ l2) (proj2 (Forall_app _ _ _) (conj Hl1 Hl2))). lia.
Qed.

(** C21. The rewards of a period stay within the budget.  [pay_rewards] pays
    every generator its share and stacks the shares of the stakers; what it
    pays and stacks is not negative and adds up to at most the reward of the
    blocks of the period plus the collected fees, which are taken out. *)
Theorem pay_rewards_bounded policy height last pw c s :
  at_state c s → powers_ok pw s → 0 ≤ RewardPerBlock policy → 0 ≤ fees vault_pid s →
  (∀ a, 0 ≤ bal vault_pid s a) →
  rg_rewards rg (pw_RewardPowerMap pw) ≡ₚ map_to_list (pw_RewardPowerMap pw) →
  rg_stacked rg (pw_StakingRewardPowerMap pw) ≡ₚ map_to_list (pw_StakingRewardPowerMap pw) →
  pw_Sum pw ≠ 0 →
  let budget := RewardPerBlock policy * u32 (height - last) + fees vault_pid s in
  ∃ SM' ev' s', does (pay_rewards vault_pid rg policy height last pw) c (Ok (SM', ev')) s' ∧
    fees vault_pid s' = 0 ∧
    (∀ b, bal vault_pid s' b = bal vault_pid s b
       + default 0 (part (ratio_of budget (pw_Sum pw)) <$> pw_RewardPowerMap pw !! b)) ∧
    (∀ b, bal vault_pid s b ≤ bal vault_pid s' b) ∧
    0 ≤ map_sum SM' - map_sum (pw_StackRewardMap pw) ∧
    parts (ratio_of budget (pw_Sum pw)) (rg_rewards rg (pw_RewardPowerMap pw))
      + (map_sum SM' - map_sum (pw_StackRewardMap pw)) ≤ budget.
Proof using AI Hvault.
  intros Hat [Hrew Hstk Hsum] Hrpb Hf Hb Hp1 Hp2 Hnz budget.
  set (l1 := rg_rewards rg (pw_RewardPowerMap pw)) in *. set (l2 := rg_stacked rg (pw_StakingRewardPowerMap pw)) in *.
  set (ratio := ratio_of budget (pw_Sum pw)).
  destruct (powers_lists pw s l1 l2) as (Hl1 & Hl2 & Hall & Hpos); [by split|done|done|done|].
  assert (Hbud : 0 ≤ budget) by (pose proof (u32_range (height - last)); unfold is_u32, budget in *; nia).
  assert (Hr : 0 ≤ ratio) by (by apply ratio_nonneg).
  assert (Hge1 : Forall (λ e, 0 ≤ part ratio e.2) l1) by (eapply Forall_impl; [exact Hl1|]; intros; by apply part_nonneg).
  pose proof (parts_nonneg ratio l2 Hr Hl2) as Hge2.
  destruct (does_take_total policy height last c s Hat Hf) as (c1 & Hr1 & Hlc1 & Hat1). fold budget in Hr1.
  set (s1 := set_fees vault_pid 0 s) in *.
  destruct (does_pay_fold vault_pid fst (λ e, part ratio e.2) (reward_step vault_pid ratio) l1 (pw_ev pw) c1 s1)
    as (ev1 & s2 & (c2 & Hr2 & Hlc2 & Hat2) & Hlo & Hbal); try done.
  { intros ev [a p] c' s' Hin Hc' Hb' _. apply does_reward_step; try done.
    - rewrite Hp1 in Hin. apply elem_of_map_to_list in Hin. by apply (Hrew a p).
    - rewrite Forall_forall in Hge1. by apply (Hge1 (a, p)). }
  destruct (does_stacked ratio l2 (pw_StackRewardMap pw) ev1 c2 s2 Hat2) as (SM' & ev' & (c3 & Hr3 & Hlc3 & Hat3) & Hsm).
  { intros [a p] Hin. rewrite (lo_has _ _ _ Hlo). rewrite Hp2 in Hin. apply elem_of_map_to_list in Hin. by apply (Hstk a p). }
  pose proof (parts_bounded budget (pw_Sum pw) (l1 ++ l2) Hbud Hpos (proj2 (Forall_app _ _ _) (conj Hl1 Hl2)) ltac:(lia)) as Hbound.
  rewrite parts_app in Hbound. fold ratio in Hbound.
  exists SM', ev', s2. split_and!.
  - exists c3. split; [|split; [chain|done]]. unfold pay_rewards, Amount.IsZero. rewrite (proj2 (Z.eqb_neq _ _) Hnz).
    cbn [negb]. rewrite (bind_Ok _ _ _ _ _ Hr1). unfold Amount.Mul. rewrite Div_pos by done. fold (ratio_of budget (pw_Sum pw)).
    erewrite bind_Ok by reflexivity. fold ratio. fold l1. by rewrite (bind_Ok _ _ _ _ _ Hr2).
  - transitivity (fees vault_pid s1); [|by apply fees_set_fees]. exact (f_equal amount_of (lo_process _ _ _ Hlo vault_pid tagCollectedFee)).
  - intros b. rewrite Hbal. f_equal. by apply (received_keys (pw_RewardPowerMap pw) (part ratio)).
  - intros b. rewrite Hbal. change (bal vault_pid s1 b) with (bal vault_pid s b).
    pose proof (received_nonneg fst (λ e, part ratio e.2) b l1 Hge1). lia.
  - lia.
  - lia.
Qed.

(** ** Block counts *)

(** The process data hold the block counts [m] since the last payment. *)
Record counted (m : gmap Address Z) s : Prop := {
  ct_table : ∃ L, numbered gen_keys (pget pid) L s ∧ ∀ a, a ∈ L ↔ is_Some (m !! a);
  ct_count : ∀ a, valid_addr a → pget pid s (toGenCountKey a)
               = match m !! a with Some n => LittleEndian_Uint32ToBytes n | None => [] end;
  ct_range : map_Forall (λ _ n, is_u32 n) m;
}.

Lemma gen_key_apart n a : table_key gen_keys n → toGenCountKey a ≠ n.
Proof. by intros [[b ->]|[[i ->]| ->]]. Qed.
Lemma gen_key_inj a b : toGenCountKey a = toGenCountKey b → a = b.
Proof. unfold toGenCountKey. by intros ?%app_inv_head. Qed.

Lemma does_getGenCount m a c s :
  at_state c s → pget pid s (toGenCountKey a) = match m !! a with Some n => LittleEndian_Uint32ToBytes n | None => [] end →
  map_Forall (λ _ n, is_u32 n) m → does (getGenCount pid a) c (Ok (default 0 (m !! a))) s.
Proof using AI Hpid.
  intros Hat Hc Hm. unfold getGenCount. eapply does_bind; [by apply does_ProcessData|]. intros c1 Hc1.
  rewrite Hc. destruct (m !! a) as [n|] eqn:Ha; [|by apply (does_lift c1 (Ok 0))].
  unfold uint32_or_0. assert (nonempty (LittleEndian_Uint32ToBytes n) = true) as -> by done.
  rewrite LittleEndian_Uint32_roundtrip by (by apply (Hm a n)). by apply does_lift.
Qed.

Lemma does_addGenCount m a c s :
  valid_addr a → at_state c s → counted m s → Z.of_nat (size m) + 1 < 2 ^ 32 →
  ∃ s', does (addGenCount pid a) c (Ok tt) s' ∧ counted (<[a := u32 (default 0 (m !! a) + 1)]> m) s'.
Proof using AI Hpid.
  intros Ha Hat [(L & Hnb & HL) Hc Hm] Hsize. pose proof (process_space_laws (A:=A) (E:=E) pid Hpid) as SL.
  destruct (does_enter _ _ _ _ SL gen_keys_laws L a c s) as (s1 & (c1 & Hr1 & Hl1 & Hat1) & Hnb1 & Hw); try done.
  { rewrite (length_keys m L); [done|apply Hnb|done]. }
  assert (Hkeep : ∀ b, pget pid s1 (toGenCountKey b) = pget pid s (toGenCountKey b)).
  { intros b. apply (wrote_inv gen_keys (pset pid) (λ s, pget pid s (toGenCountKey b))); [|done].
    intros n v s0 Hn. rewrite pget_pset, decide_False; [done|]. by apply gen_key_apart. }
  set (n := u32 (default 0 (m !! a) + 1)).
  destruct (does_getGenCount m a c1 s1 Hat1) as (c2 & Hr2 & Hl2 & Hat2); [rewrite Hkeep; by apply Hc|done|].
  destruct (does_SetProcessData pid (toGenCountKey a) (LittleEndian_Uint32ToBytes n) c2 s1 Hpid Hat2) as (c3 & Hr3 & Hl3 & Hat3).
  eexists. split; [exists c3; split; [|split; [chain|exact Hat3]]|split].
  - unfold addGenCount. rewrite (bind_Ok _ _ _ _ _ Hr1), (bind_Ok _ _ _ _ _ Hr2). exact Hr3.
  - eexists. split.
    + instantiate (1 := if decide (a ∈ L) then L else L ++ [a]). destruct Hnb1 as [G1 G2 G3 G4 G5 G6 G7].
      split; try done; intros; rewrite pget_pset, decide_False by done; auto.
    + intros b. rewrite lookup_insert_is_Some'.
      case_decide as Hin; [|rewrite elem_of_app, list_elem_of_singleton]; rewrite HL in *; naive_solver.
  - intros b Hb. rewrite pget_pset. destruct (decide (b = a)) as [->|Hba].
    + by rewrite decide_True, lookup_insert_eq by done.
    + rewrite lookup_insert_ne by done. rewrite decide_False by (by intros ?%gen_key_inj). rewrite Hkeep. by apply Hc.
  - apply map_Forall_insert_2; [apply u32_range|done].
Qed.

Definition gen_value a s : option Z :=
  match uint32_or_0 (pget pid s (toGenCountKey a)) with Ok n => Some n | _ => None end.
Definition gen_clear a s : Abs := pset pid (toGenCountKey a) [] s.

Lemma gen_other a n v s : n ≠ toGenCountKey a → gen_value a (pset pid n v s) = gen_value a s.
Proof. intros Hn. unfold gen_value. by rewrite pget_pset, decide_False by done. Qed.

Lemma does_flushGenCountMap m c s :
  at_state c s → counted m s →
  ∃ s', does (flushGenCountMap pid) c (Ok m) s' ∧ counted ∅ s'.
Proof using AI Hpid.
  clear Hne. intros Hat [(L & Hnb & HL) Hc Hm]. pose proof (process_space_laws (A:=A) (E:=E) pid Hpid) as SL.
  assert (Hv : Forall valid_addr L) by apply Hnb. rewrite Forall_forall in Hv.
  destruct (does_nt_flush _ _ _ _ SL gen_keys_laws
    (λ (CountMap : gmap Address Z) addr, n ← getGenCount pid addr;
       SetProcessData pid (toGenCountKey addr) [] ;; mret (<[addr := n]> CountMap))
    (λ m a n, <[a := n]> m) gen_value gen_clear) with
    (gone := λ a s, pget pid s (toGenCountKey a) = [])
    (L := L) (m := ∅ : gmap Address Z) (c := c) (s := s)
    (g := λ a, default 0 (m !! a)) as (s' & Hd & Hnb' & Hfl & Hgone); try done.
  - intros m0 a n c0 s0 Ha Hval Hc0. eapply (does_bind _ _ _ n _ s0).
    { unfold getGenCount. eapply does_bind; [by apply does_ProcessData|]. intros c1 Hc1. unfold gen_value in Hval.
      destruct (uint32_or_0 _); simplify_eq. by apply does_lift. }
    intros c1 Hc1. eapply does_bind; [by apply does_SetProcessData|]. intros c2 Hc2. by apply does_ret.
  - intros a b s0 Hab. apply gen_other. by intros ?%gen_key_inj.
  - intros a n v s0 Hn. apply gen_other. intros ->. by apply (gen_key_apart _ a Hn).
  - intros a n s0 Hn. unfold gen_clear. rewrite pget_pset, decide_False; [done|]. intros ->. by apply (gen_key_apart _ a Hn).
  - intros a s0. unfold gen_clear. by rewrite pget_pset, decide_True.
  - intros a b s0 Hg. unfold gen_clear. rewrite pget_pset. by case_decide.
  - intros a n v s0 Hn Hg. rewrite pget_pset, decide_False; [done|]. by apply gen_key_apart.
  - intros a Hin. unfold gen_value. rewrite (Hc a (Hv a Hin)). apply HL in Hin as [n Hn]. rewrite Hn.
    unfold uint32_or_0. assert (nonempty (LittleEndian_Uint32ToBytes n) = true) as -> by done.
    by rewrite LittleEndian_Uint32_roundtrip by (by apply (Hm a n)).
  - exists s'. split; [|split; [exists []; split; [done|]|..]].
    + rewrite (collect_map m _ L HL) in Hd; [exact Hd|]. by intros a x ->.
    + intros a. rewrite lookup_empty, elem_of_nil. split; [done|]. by intros [? ?].
    + intros a Ha. rewrite lookup_empty. destruct (decide (a ∈ L)) as [Hin|Hin]; [by apply Hgone|].
      rewrite (flushed_inv gen_keys (pset pid) gen_clear (λ s, pget pid s (toGenCountKey a)) L s s'); [| | |exact Hfl].
      * rewrite (Hc a Ha). rewrite HL in Hin. apply eq_None_not_Some in Hin. by rewrite Hin.
      * intros n v s0 Hn. rewrite pget_pset, decide_False; [done|]. by apply gen_key_apart.
      * intros b s0 Hb. unfold gen_clear. rewrite pget_pset, decide_False; [done|]. by intros ->%gen_key_inj.
    + done.
Qed.

(** Blocks are counted.  The table of block counts refines a finite map
    from the generators to the number of their blocks since the last payment:
    [addGenCount] adds one to the entry of a generator, with the wrap-around
    of [uint32], and [flushGenCountMap] answers the map and leaves an empty
    table. *)
Theorem genCount_refines m a c s :
  valid_addr a → at_state c s → counted m s → Z.of_nat (size m) + 1 < 2 ^ 32 →
  (∃ s', does (addGenCount pid a) c (Ok tt) s' ∧ counted (<[a := u32 (default 0 (m !! a) + 1)]> m) s') ∧
  (∃ s', does (flushGenCountMap pid) c (Ok m) s' ∧ counted ∅ s').
Proof using AI Hpid. intros. split; [by eapply does_addGenCount|by eapply does_flushGenCountMap]. Qed.

End FormulatorBounds.
