(* ===== verification/FormulatorExamples.v ===== *)
(** * process/formulator: the theorems at work

    A small chain state: Alice stakes five coins at a hyper formulator, three
    coins of hers are due at height 5, the hyper formulator has made two
    blocks.  The witnesses instantiate the theorems on the formulator there;
    the examples at the end run transactions whose effect is not the one that
    is meant. *)

From S2P Require Import Prelude Tokens Amount Common Context ContextSpec ContextTrace OrderedMaps Vault VaultSpec DataRun VaultRun ExampleState Numbered Formulator FormulatorTx FormulatorReward FormulatorSpec FormulatorUnstake FormulatorRevoke FormulatorBounds.

Module FormulatorExamples.

(** ** Accounts, events and codecs *)

Inductive faccount := FSingle (s : SingleAccount) | FFormulator (f : FormulatorAccount).

#[local] Instance faccount_I : AccountI faccount.
Proof.
  refine {| acc_Address a := match a with FSingle s => single_Address s | FFormulator f => fr_Address f end;
            acc_Name a := match a with FSingle s => single_Name s | FFormulator f => fr_Name f end;
            acc_Validate a := match a with FSingle s => single_Validate s | FFormulator f => fr_Validate f end;
            acc_Clone a := match a with FSingle s => FSingle (single_Clone s) | FFormulator f => FFormulator (fr_Clone f) end |}.
  intros [[]|f]; [done|]. by rewrite fr_Clone_id.
Defined.
#[local] Instance faccount_formulator : FormulatorAccounts faccount.
Proof.
  refine {| of_formulator := FFormulator; to_formulator a := match a with FFormulator f => Some f | _ => None end |};
    try done. by intros [?|g] f [= ->].
Defined.

Inductive fevent := EReward (e : RewardEvent) | ERevoked (e : RevokedEvent) | EUnstaked (e : UnstakedEvent).
#[local] Instance fevent_I : EventI fevent.
Proof.
  refine {| ev_N e := match e with EReward e => re_N e | ERevoked e => rv_N e | EUnstaked e => us_N e end;
            ev_SetN n e := match e with
              | EReward e => EReward (mkRewardEvent (re_Height e) (re_Index e) n (re_GenBlockMap e) (re_RewardMap e)
                               (re_StackedMap e) (re_CommissionMap e) (re_StakedMap e) (re_StakeRewardMap e))
              | ERevoked e => ERevoked (mkRevoked (rv_Height e) (rv_Index e) n (rv_Formulator e))
              | EUnstaked e => EUnstaked (mkUnstaked (us_Height e) (us_Index e) n (us_HyperFormulator e) (us_Address e) (us_Amount e))
              end |}.
  all: by intros ? [].
Defined.
#[local] Instance fevents : FormulatorEvents fevent := {| of_reward := EReward; of_revoked := ERevoked; of_unstaked := EUnstaked |}.
#[local] Existing Instance toy_base58.
#[local] Existing Instance ToyTokens.toy_tokens.
#[local] Existing Instance ToyTokens.toy_tokens_laws.
#[local] Existing Instance ToyTokens.toy_tokens_sized.

(** Policies as the list of their fields. *)
#[local] Instance toy_policies : PolicyCodecs := {|
  reward_codec := list_codec (λ p, [RewardPerBlock p; PayRewardEveryBlocks p; AlphaEfficiency1000 p; SigmaEfficiency1000 p;
      OmegaEfficiency1000 p; HyperEfficiency1000 p; StakingEfficiency1000 p])
    (λ l, match l with [a; b; c; d; e; f; g] => Some (mkReward a b c d e f g) | _ => None end);
  alpha_codec := list_codec (λ p, [AlphaCreationAmount p; AlphaUnlockRequiredBlocks p; AlphaCreationLimitHeight p])
    (λ l, match l with [a; b; c] => Some (mkAlpha a b c) | _ => None end);
  sigma_codec := list_codec (λ p, [SigmaRequiredAlphaBlocks p; SigmaRequiredAlphaCount p; SigmaUnlockRequiredBlocks p])
    (λ l, match l with [a; b; c] => Some (mkSigma a b c) | _ => None end);
  omega_codec := list_codec (λ p, [OmegaRequiredSigmaBlocks p; OmegaRequiredSigmaCount p; OmegaUnlockRequiredBlocks p])
    (λ l, match l with [a; b; c] => Some (mkOmega a b c) | _ => None end);
  hyper_codec := list_codec (λ p, [HyperCreationAmount p; HyperUnlockRequiredBlocks p; StakingUnlockRequiredBlocks p])
    (λ l, match l with [a; b; c] => Some (mkHyper a b c) | _ => None end);
  transmute_codec := list_codec (λ p, [TransmuteEnableHeightFrom p; TransmuteEnableHeightTo p])
    (λ l, match l with [a; b] => Some (mkTransmute a b) | _ => None end) |}.

(** ** The state *)

Definition alice : Address := NewAddress 1 0 77.
Definition bob : Address := NewAddress 1 1 77.
Definition hyp : Address := NewAddress 1 2 77.
Definition alpha1 : Address := NewAddress 1 3 77.
Definition alpha2 : Address := NewAddress 1 4 77.

Definition hyp_acc : FormulatorAccount :=
  mkFormulator hyp (str "hyper") (HyperFormulatorType (5 * Amount.COIN) (mkValidator 0 0 1)) [7] [8] (100 * Amount.COIN) false 0 1 0.
Definition alpha_acc (a : Address) (name : bytes) : FormulatorAccount :=
  mkFormulator a name AlphaFormulatorType [7] [8] (20 * Amount.COIN) false 0 1 0.

Definition accounts : list (Address * faccount) := [
  (alice, FSingle (mkSingle alice (str "alice") [1])); (bob, FSingle (mkSingle bob (str "bob") [2]));
  (hyp, FFormulator hyp_acc); (alpha1, FFormulator (alpha_acc alpha1 (str "alpha1")));
  (alpha2, FFormulator (alpha_acc alpha2 (str "alpha2")))].

Definition due3 : gmap Address Z := {[hyp := 3 * Amount.COIN]}.
Definition due3_bytes : bytes := match marshal_amounts due3 with Ok bs => bs | _ => [] end.

(** The data of accounts: balances under process 1, stakes under process 2. *)
Definition account_data : list ((Address * Z * bytes) * bytes) := [
  ((alice, 1, tagBalance), Amount.Bytes (100 * Amount.COIN));
  ((alpha1, 1, tagBalance), Amount.Bytes (10 * Amount.COIN));
  ((alpha2, 1, tagBalance), Amount.Bytes (10 * Amount.COIN));
  ((hyp, 2, toStakingAmountKey alice), Amount.Bytes (5 * Amount.COIN));
  ((hyp, 2, toStakingAmountNumberKey alice), LittleEndian_Uint32ToBytes 0);
  ((hyp, 2, toStakingAmountReverseKey 0), alice);
  ((hyp, 2, tagStakingAmountCount), LittleEndian_Uint32ToBytes 1)].
Definition process_data : list ((Z * bytes) * bytes) := [
  ((2, tagHyperPolicy), [100 * Amount.COIN; 10; 10]);
  ((2, tagAlphaPolicy), [20 * Amount.COIN; 10; 0]);
  ((2, tagSigmaPolicy), [1; 2; 10]);
  ((2, tagRewardPolicy), [Amount.COIN; 3; 1000; 1000; 1000; 1000; 1000]);
  ((2, toUnstakingAmountKey 5 alice), due3_bytes);
  ((2, toUnstakingAmountNumberKey 5 alice), LittleEndian_Uint32ToBytes 0);
  ((2, toUnstakingAmountReverseKey 5 0), alice);
  ((2, toUnstakingAmountCountKey 5), LittleEndian_Uint32ToBytes 1);
  ((2, toGenCountKey hyp), LittleEndian_Uint32ToBytes 2);
  ((2, toGenCountNumberKey hyp), LittleEndian_Uint32ToBytes 0);
  ((2, toGenCountReverseKey 0), hyp);
  ((2, tagGenCountCount), LittleEndian_Uint32ToBytes 1)].

Definition ld : Loader faccount := table_loader 5 accounts account_data process_data.
Abbreviation c0 := (NewContext (A:=faccount) (E:=fevent) ld).

Lemma c0_at : at_state c0 (abs c0).
Proof. apply table_at. Qed.
Lemma c0_unmarked : unmarked c0.
Proof. intros [x|x|x|x]; vm_compute; intros [=]. Qed.

Definition pid1 : valid_pid 1 := conj (bool_decide_unpack (0 ≤ 1) I) (bool_decide_unpack (1 < 256) I).
Definition pid2 : valid_pid 2 := conj (bool_decide_unpack (0 ≤ 2) I) (bool_decide_unpack (2 < 256) I).

(** ** The theorems on the state *)

(** A key that is not in a table. *)
Ltac missing :=
  repeat (rewrite assoc_ne by (let H := fresh in intros H; try discriminate H; injection H; congruence)); reflexivity.

Lemma c0_staked : staked 2 hyp {[alice := 5 * Amount.COIN]} (abs c0).
Proof.
  split.
  - exists [alice]. split.
    + split.
      * by repeat constructor.
      * apply NoDup_singleton.
      * by vm_compute.
      * by vm_compute.
      * intros i a Hi. apply list_lookup_singleton_Some in Hi as [-> <-]. by vm_compute.
      * intros i a Hi. apply list_lookup_singleton_Some in Hi as [-> <-]. by vm_compute.
      * intros a Ha Hna. rewrite list_elem_of_singleton in Hna.
        change (default [] (assoc (hyp, 2, toStakingAmountNumberKey a) account_data) = []).
        unfold account_data. missing.
    + intros a. by rewrite list_elem_of_singleton, lookup_singleton_is_Some.
  - intros a Ha. destruct (decide (a = alice)) as [->|Hne]; [by vm_compute|].
    change (amount_of (default [] (assoc (hyp, 2, toStakingAmountKey a) account_data)) = stake {[alice := 5 * Amount.COIN]} a).
    unfold stake. rewrite lookup_singleton_ne by done. unfold account_data.
    rewrite !assoc_ne by (let H := fresh in intros H; try discriminate H; injection H; congruence). done.
  - by apply map_Forall_singleton.
Qed.

Lemma c0_hyper : hyper_ok 2 hyp {[alice := 5 * Amount.COIN]} (abs c0).
Proof. split; [|exact c0_staked]. exists hyp_acc. split; vm_compute; reflexivity. Qed.

Lemma c0_bal a : 0 ≤ bal 1 (abs c0) a.
Proof.
  change (0 ≤ amount_of (default [] (assoc (a, 1, tagBalance) account_data))). unfold account_data.
  destruct (decide (a = alice)) as [->|H1]; [by vm_compute|].
  destruct (decide (a = alpha1)) as [->|H2]; [by vm_compute|].
  destruct (decide (a = alpha2)) as [->|H3]; [by vm_compute|].
  rewrite !assoc_ne by (let H := fresh in intros H; try discriminate H; injection H; congruence). done.
Qed.

Lemma c0_unstaking5 : unstaking 2 5 {[alice := due3]} (abs c0).
Proof.
  split.
  - exists [alice]. split.
    + split.
      * by repeat constructor.
      * apply NoDup_singleton.
      * by vm_compute.
      * by vm_compute.
      * intros i a Hi. apply list_lookup_singleton_Some in Hi as [-> <-]. by vm_compute.
      * intros i a Hi. apply list_lookup_singleton_Some in Hi as [-> <-]. by vm_compute.
      * intros a Ha Hna. rewrite list_elem_of_singleton in Hna.
        change (default [] (assoc (2, toUnstakingAmountNumberKey 5 a) process_data) = []).
        unfold process_data. missing.
    + intros a. by rewrite list_elem_of_singleton, lookup_singleton_is_Some.
  - intros a Ha. destruct (decide (a = alice)) as [->|Hne]; [rewrite lookup_singleton_eq; split; vm_compute; reflexivity|].
    rewrite lookup_singleton_ne by done.
    change (default [] (assoc (2, toUnstakingAmountKey 5 a) process_data) = []). unfold process_data. missing.
  - intros a mp [<- <-]%lookup_singleton_Some b x Hb. unfold due3 in Hb. apply lookup_singleton_Some in Hb as [<- <-].
    split; [done|by vm_compute].
Qed.

Lemma c0_unstaking15 : unstaking 2 15 ∅ (abs c0).
Proof.
  split.
  - exists []. split.
    + split; try done. apply NoDup_nil_2.
    + intros a. rewrite lookup_empty, elem_of_nil. split; [done|]. by intros [? ?].
  - intros a Ha. rewrite lookup_empty. change (default [] (assoc (2, toUnstakingAmountKey 15 a) process_data) = []).
    unfold process_data. missing.
  - done.
Qed.

Lemma c0_counted : counted 2 {[hyp := 2]} (abs c0).
Proof.
  split.
  - exists [hyp]. split.
    + split.
      * by repeat constructor.
      * apply NoDup_singleton.
      * by vm_compute.
      * by vm_compute.
      * intros i a Hi. apply list_lookup_singleton_Some in Hi as [-> <-]. by vm_compute.
      * intros i a Hi. apply list_lookup_singleton_Some in Hi as [-> <-]. by vm_compute.
      * intros a Ha Hna. rewrite list_elem_of_singleton in Hna.
        change (default [] (assoc (2, toGenCountNumberKey a) process_data) = []).
        unfold process_data. missing.
    + intros a. by rewrite list_elem_of_singleton, lookup_singleton_is_Some.
  - intros a Ha. destruct (decide (a = hyp)) as [->|Hne]; [by vm_compute|]. rewrite lookup_singleton_ne by done.
    change (default [] (assoc (2, toGenCountKey a) process_data) = []). unfold process_data. missing.
  - by apply map_Forall_singleton.
Qed.

Lemma pids : 2 ≠ 1.
Proof. discriminate. Qed.
Lemma hyp_ok : valid_addr hyp.
Proof. done. Qed.
Lemma alice_ok : valid_addr alice.
Proof. done. Qed.

Lemma staking_refines_witness :
  does (GetStakingAmountMap 2 hyp) c0 (Ok {[alice := 5 * Amount.COIN]}) (abs c0) ∧
  does (subStakingAmount 2 hyp bob Amount.COIN) c0 (Err ErrFormulatorMinusBalance) (abs c0).
Proof.
  destruct (staking_refines 2 pid2 hyp {[alice := 5 * Amount.COIN]} bob Amount.COIN c0 (abs c0) hyp_ok)
    as (_ & H1 & _ & H2); [done|exact c0_at|exact c0_staked|by vm_compute|by vm_compute|].
  split; [exact H1|]. rewrite decide_False in H2 by (by vm_compute). exact H2.
Defined.

Lemma Staking_executes_witness :
  ∃ s', does (Staking_Execute 2 1 alice hyp Amount.COIN) c0 (Ok tt) s' ∧
    hyper_ok 2 hyp (with_stake alice (stake {[alice := 5 * Amount.COIN]} alice + Amount.COIN) {[alice := 5 * Amount.COIN]}) s' ∧
    fees 1 s' = fees 1 (abs c0) + dfee 1 (abs c0).
Proof.
  destruct (Staking_executes 2 1 pid2 pid1 pids alice (FSingle (mkSingle alice (str "alice") [1])) hyp
    {[alice := 5 * Amount.COIN]} Amount.COIN c0 (abs c0) alice_ok hyp_ok c0_at c0_unmarked c0_hyper)
    as (s' & H1 & H2 & _ & H3); try (by vm_compute).
  exists s'. auto.
Defined.

Lemma Unstaking_executes_witness :
  ∃ s', does (Unstaking_Execute 2 1 alice hyp (5 * Amount.COIN)) c0 (Ok tt) s' ∧
    hyper_ok 2 hyp (with_stake alice (stake {[alice := 5 * Amount.COIN]} alice - 5 * Amount.COIN) {[alice := 5 * Amount.COIN]}) s' ∧
    unstaking 2 15 (more hyp alice (5 * Amount.COIN) ∅) s'.
Proof.
  destruct (Unstaking_executes 2 1 pid2 pid1 pids hyp alice {[alice := 5 * Amount.COIN]} ∅ (5 * Amount.COIN)
    (mkHyper (100 * Amount.COIN) 10 10) c0 (abs c0) hyp_ok alice_ok c0_at c0_unmarked c0_hyper c0_unstaking15)
    as (s' & H1 & H2 & H3 & _); try (by vm_compute).
  exists s'. auto.
Defined.

Lemma settle_unstaked_pays_witness :
  ∃ s', does (settle_unstaked 2 1 5) c0 (Ok tt) s' ∧ unstaking 2 5 ∅ s' ∧
    bal 1 s' alice = bal 1 (abs c0) alice + map_sum due3.
Proof.
  destruct (settle_unstaked_pays 2 1 pid2 pid1 pids 5 {[alice := due3]} c0 (abs c0) c0_at c0_unstaking5 c0_bal)
    as (s' & H1 & H2 & H3 & _).
  exists s'. split; [exact H1|]. split; [exact H2|]. rewrite H3, lookup_singleton_eq. reflexivity.
Defined.

Lemma subUnstakingAmount_repeats_witness :
  ∃ s', does (subUnstakingAmount 2 hyp alice 5 (3 * Amount.COIN)) c0 (Ok tt) s' ∧
    ∀ c' : Ctx faccount fevent, at_state c' s' → does (subUnstakingAmount 2 hyp alice 5 (3 * Amount.COIN)) c' (Ok tt) s'.
Proof.
  destruct (subUnstakingAmount_repeats 2 pid2 5 {[alice := due3]} hyp alice (3 * Amount.COIN) c0 (abs c0) alice_ok c0_at c0_unstaking5)
    as (s' & H1 & _ & _ & H2); [apply lookup_singleton_eq|].
  exists s'. auto.
Defined.

(** The same state, with a field [StakingAmount] of six coins where five are
    staked. *)
Definition bad_acc : FormulatorAccount :=
  mkFormulator hyp (str "hyper") (HyperFormulatorType (6 * Amount.COIN) (mkValidator 0 0 1)) [7] [8] (100 * Amount.COIN) false 0 1 0.
Abbreviation bad0 := (NewContext (A:=faccount) (E:=fevent) (table_loader 5 ((hyp, FFormulator bad_acc) :: accounts) account_data process_data)).
Definition nobody : Address := NewAddress 1 9 77.

(** Bob inherits a hundred coins; nobody inherits them; and the wrong books
    are an error. *)
Lemma revokeFormulator_result_witness :
  (∃ s', does (revokeFormulator 2 1 map_to_list hyp bob) c0 (Ok tt) s' ∧ abs_Account s' hyp = Err ErrDeletedAccount ∧
     bal 1 s' bob = 100 * Amount.COIN ∧ bal 1 s' alice = 105 * Amount.COIN) ∧
  (∃ s', does (revokeFormulator 2 1 map_to_list hyp nobody) c0 (Ok tt) s' ∧ abs_Account s' hyp = Err ErrDeletedAccount ∧
     bal 1 s' nobody = 0 ∧ bal 1 s' alice = 105 * Amount.COIN) ∧
  (∃ s', does (revokeFormulator 2 1 map_to_list hyp bob) bad0 (Err ErrCriticalStakingAmount) s').
Proof.
  assert (H1 : hyp ≠ bob) by (by vm_compute).
  assert (H1' : hyp ≠ nobody) by (by vm_compute).
  assert (H2 : abs_Account (abs c0) hyp = Ok (FFormulator hyp_acc)) by (vm_compute; reflexivity).
  assert (H3 : heritor_alive (abs c0) bob true) by (left; vm_compute; reflexivity).
  assert (H3' : heritor_alive (abs c0) nobody false) by (left; vm_compute; reflexivity).
  assert (H4 : 0 ≤ 5 * Amount.COIN) by (by vm_compute).
  assert (H5 : 0 ≤ fr_Amount hyp_acc) by (by vm_compute).
  split_and!.
  - pose proof (revokeFormulator_result 2 1 pid2 pid1 pids hyp bob true hyp_acc {[alice := 5 * Amount.COIN]}
      (5 * Amount.COIN) map_to_list c0 (abs c0) hyp_ok eq_refl H1 c0_at H2 eq_refl eq_refl H4 c0_staked H3 H5 c0_bal
      (reflexivity _)) as H.
    rewrite decide_True in H by (by vm_compute). destruct H as (s' & Hd & Hdel & Hb). exists s'.
    split; [exact Hd|]. split; [exact Hdel|]. split; rewrite Hb by reflexivity; vm_compute; reflexivity.
  - pose proof (revokeFormulator_result 2 1 pid2 pid1 pids hyp nobody false hyp_acc {[alice := 5 * Amount.COIN]}
      (5 * Amount.COIN) map_to_list c0 (abs c0) hyp_ok eq_refl H1' c0_at H2 eq_refl eq_refl H4 c0_staked H3' H5 c0_bal
      (reflexivity _)) as H.
    rewrite decide_True in H by (by vm_compute). destruct H as (s' & Hd & Hdel & Hb). exists s'.
    split; [exact Hd|]. split; [exact Hdel|]. split; rewrite Hb by reflexivity; vm_compute; reflexivity.
  - assert (G1 : at_state bad0 (abs bad0)) by apply table_at.
    assert (G2 : abs_Account (abs bad0) hyp = Ok (FFormulator bad_acc)) by (vm_compute; reflexivity).
    assert (G3 : staked 2 hyp {[alice := 5 * Amount.COIN]} (abs bad0))
      by (eapply staked_frame; [exact c0_staked|]; intros n _; reflexivity).
    assert (G4 : heritor_alive (abs bad0) bob true) by (left; vm_compute; reflexivity).
    assert (G5 : 0 ≤ 6 * Amount.COIN) by (by vm_compute).
    assert (G6 : 0 ≤ fr_Amount bad_acc) by (by vm_compute).
    pose proof (revokeFormulator_result 2 1 pid2 pid1 pids hyp bob true bad_acc {[alice := 5 * Amount.COIN]}
      (6 * Amount.COIN) map_to_list bad0 (abs bad0) hyp_ok eq_refl H1 G1 G2 eq_refl eq_refl G5 G3 G4 G6 c0_bal
      (reflexivity _)) as H.
    rewrite decide_False in H by (by vm_compute). exact H.
Defined.

Lemma genCount_refines_witness :
  (∃ s', does (addGenCount 2 hyp) c0 (Ok tt) s' ∧ counted 2 (<[hyp := 3]> {[hyp := 2]}) s') ∧
  (∃ s', does (flushGenCountMap 2) c0 (Ok {[hyp := 2]}) s' ∧ counted 2 ∅ s').
Proof. exact (genCount_refines 2 pid2 {[hyp := 2]} hyp c0 (abs c0) hyp_ok c0_at c0_counted ltac:(by vm_compute)). Defined.

(** The orders of the loops. *)
Definition rg : Ranges := mkRanges map_to_list (λ _, map_to_list) (λ _, map_to_list) map_to_list map_to_list (λ _, map_to_list).
Definition ev0 : RewardEvent := mkRewardEvent 5 65535 0 ∅ ∅ ∅ ∅ ∅ ∅.
Definition pw0 : Powers := mkPowers ev0 ∅ (105 * Amount.COIN) {[hyp := 100 * Amount.COIN]} {[hyp := 5 * Amount.COIN]} [hyp_acc].

Lemma pw0_ok : powers_ok pw0 (abs c0).
Proof.
  split; cbn [pw0 pw_RewardPowerMap pw_StakingRewardPowerMap pw_Sum].
  - intros a p Ha. apply lookup_singleton_Some in Ha as [<- <-]. by vm_compute.
  - intros a p Ha. apply lookup_singleton_Some in Ha as [<- <-]. by vm_compute.
  - vm_compute. reflexivity.
Qed.

Lemma pay_rewards_bounded_witness :
  ∃ SM' ev' s', does (pay_rewards 1 rg (mkReward Amount.COIN 3 1000 1000 1000 1000 1000) 5 2 pw0) c0 (Ok (SM', ev')) s' ∧
    parts (ratio_of (Amount.COIN * 3 + fees 1 (abs c0)) (105 * Amount.COIN)) (map_to_list {[hyp := 100 * Amount.COIN]})
      + (map_sum SM' - map_sum ∅) ≤ Amount.COIN * 3 + fees 1 (abs c0).
Proof.
  destruct (pay_rewards_bounded 1 rg pid1 (mkReward Amount.COIN 3 1000 1000 1000 1000 1000) 5 2 pw0 c0 (abs c0) c0_at pw0_ok)
    as (SM' & ev' & s' & H1 & _ & _ & _ & _ & H2);
    [by vm_compute|by vm_compute|exact c0_bal|reflexivity|reflexivity|by vm_compute|].
  exists SM', ev', s'. split; [exact H1|exact H2].
Defined.

(** ** Runs *)

Abbreviation stake_of c := ((GetStakingAmount 2 hyp alice c).1).

Example revert_twice :
  let c1 := (Unstaking_Execute 2 1 alice hyp (3 * Amount.COIN) c0).2 in
  let r2 := (RevertUnstaking_Validate 2 alice hyp 15 (3 * Amount.COIN) [[1]] ;; RevertUnstaking_Execute 2 1 alice hyp 15 (3 * Amount.COIN)) c1 in
  let r3 := (RevertUnstaking_Validate 2 alice hyp 15 (3 * Amount.COIN) [[1]] ;; RevertUnstaking_Execute 2 1 alice hyp 15 (3 * Amount.COIN)) r2.2 in
  (r2.1, r3.1, stake_of c0, stake_of r3.2) = (Ok tt, Ok tt, Ok (5 * Amount.COIN), Ok (8 * Amount.COIN)).
Proof. vm_compute. reflexivity. Qed.

(** A revoked alpha formulator can be merged into a sigma formulator, which
    deletes its account; at the height at which it is due the payout fails,
    and with it every block at that height. *)
Example revoked_and_merged :
  let c1 := Revoke_Execute 2 1 alpha1 bob c0 in
  let c2 := (CreateSigma_Validate 2 1 alpha2 [alpha2; alpha1] [[7]; [7]] ;;
             CreateSigma_Execute 2 1 alpha2 [alpha2; alpha1]) c1.2 in
  (c1.1, c2.1, (settle_revoked 2 1 rg 15 c2.2).1) = (Ok tt, Ok tt, Err ErrDeletedAccount).
Proof. vm_compute. reflexivity. Qed.

(** A reward that is staked again enters the stakes but not the field of the
    account; revoking the hyper formulator then fails. *)
Example auto_staking_breaks_the_sum :
  let r := (setUserAutoStaking 2 hyp alice true ;;
            staker_step 2 1 hyp (mkValidator 0 0 1) Amount.COIN (0, ev0) (alice, 2 * Amount.COIN)) c0 in
  (stake_of r.2, (revokeFormulator 2 1 map_to_list hyp bob r.2).1)
  = (Ok (7 * Amount.COIN), Err ErrCriticalStakingAmount).
Proof. vm_compute. reflexivity. Qed.

(** Moving the whole stake from a hyper formulator to the same one loses it:
    the new stake is written in the scope of the fee, above the deletion mark
    of the old one, and the commit drops it.  The field of the account keeps
    the amount. *)
Example change_staking_to_itself :
  let r := (ChangeStaking_Validate 2 alice hyp hyp (5 * Amount.COIN) [[1]] ;;
            ChangeStaking_Execute 2 1 alice hyp hyp (5 * Amount.COIN)) c0 in
  (r.1, stake_of r.2, (GetStakingAmountMap 2 hyp r.2).1,
   ((frAcc ← Formulator_must hyp; lift (StakingAmount frAcc)) r.2).1)
  = (Ok tt, Ok 0, Ok ∅, Ok (5 * Amount.COIN)).
Proof. vm_compute. reflexivity. Qed.

End FormulatorExamples.
