(* ===== verification/VaultLocked.v ===== *)
(** * process/vault: locked balances

    A locked balance is due at a height.  For each height the vault keeps a
    little table in its process data: the number of addresses, the address
    of each number, the number of each address, and the amount of each
    address.  [AddLockedBalance] enters or increases an amount,
    [flushLockedBalanceMap] empties the table of a height into a map, and
    [AfterExecuteTransactions] pays that map out, in whatever order the map
    is iterated. *)

From S2P Require Import Prelude Amount Common Context ContextSpec ContextTrace Vault VaultSpec DataRun VaultRun.

Section VaultLocked.
Context {A E : Type} `{AI : AccountI A} `{EI : EventI E} `{B58 : Base58}.
Context `{VA : !VaultAccounts A} `{PC : PolicyCodec}.
Context (pid admin_pid magic : Z) (Hpid : valid_pid pid).
Implicit Types (c : Ctx A E) (s : Abs (A:=A)).

Local Abbreviation pget := (DataRun.pget pid).
Local Abbreviation pset := (DataRun.pset pid).
Local Abbreviation aget := (DataRun.aget pid).
Local Abbreviation aset := (DataRun.aset pid).

(** ** The table of a height *)

Section Height.
Context (h : Z) (Hh : is_u32 h).

Definition lk s (a : Address) : Z := amount_of (pget s (toLockedBalanceKey h a)).
Definition lsum s (a : Address) : Z := amount_of (aget s a tagLockedBalanceSum).

(** [L] lists the addresses in the table, by number. *)
Record table (L : list Address) s : Prop := {
  tb_valid : Forall valid_addr L;
  tb_nodup : NoDup L;
  tb_count : pget s (toLockedBalanceCountKey h)
             = if decide (L = []) then [] else LittleEndian_Uint32ToBytes (Z.of_nat (length L));
  tb_reverse : ∀ i a, L !! i = Some a → pget s (toLockedBalanceReverseKey h (Z.of_nat i)) = a;
  tb_number : ∀ i a, L !! i = Some a →
    pget s (toLockedBalanceNumberKey h a) = LittleEndian_Uint32ToBytes (Z.of_nat i);
  tb_absent : ∀ a, valid_addr a → a ∉ L →
    pget s (toLockedBalanceNumberKey h a) = [] ∧ pget s (toLockedBalanceKey h a) = [];
}.

(** The four kinds of keys do not collide. *)
Lemma key_lk_inj a b : toLockedBalanceKey h a = toLockedBalanceKey h b → a = b.
Proof. unfold toLockedBalanceKey. by intros ?%app_inv_head%app_inv_head. Qed.
Lemma key_num_inj a b : toLockedBalanceNumberKey h a = toLockedBalanceNumberKey h b → a = b.
Proof. unfold toLockedBalanceNumberKey. by intros ?%app_inv_head%app_inv_head. Qed.
Lemma key_rev_inj i j :
  is_u32 i → is_u32 j → toLockedBalanceReverseKey h i = toLockedBalanceReverseKey h j → i = j.
Proof.
  unfold toLockedBalanceReverseKey. intros Hi Hj E0%app_inv_head%app_inv_head.
  by apply BigEndian_Uint32ToBytes_inj in E0.
Qed.
Lemma keys_differ a b i :
  toLockedBalanceKey h a ≠ toLockedBalanceNumberKey h b ∧
  toLockedBalanceKey h a ≠ toLockedBalanceReverseKey h i ∧
  toLockedBalanceKey h a ≠ toLockedBalanceCountKey h ∧
  toLockedBalanceNumberKey h a ≠ toLockedBalanceReverseKey h i ∧
  toLockedBalanceNumberKey h a ≠ toLockedBalanceCountKey h ∧
  toLockedBalanceReverseKey h i ≠ toLockedBalanceCountKey h.
Proof. by split_and!. Qed.

Local Ltac solve_keys :=
  repeat match goal with
  | |- context [decide (?k1 = ?k2)] =>
      first [ rewrite (decide_True (P:=k1 = k2)) by reflexivity
            | rewrite (decide_False (P:=k1 = k2)) by (first [discriminate | congruence]) ]
  end.

(** The table after entering [a] under number [length L]. *)
Definition enter (L : list Address) (a : Address) s : Abs :=
  pset (toLockedBalanceCountKey h) (LittleEndian_Uint32ToBytes (Z.of_nat (S (length L))))
    (pset (toLockedBalanceReverseKey h (Z.of_nat (length L))) a
      (pset (toLockedBalanceNumberKey h a) (LittleEndian_Uint32ToBytes (Z.of_nat (length L))) s)).

Lemma table_enter L a s :
  table L s → valid_addr a → a ∉ L → Z.of_nat (length L) + 1 < 2 ^ 32 → table (L ++ [a]) (enter L a s).
Proof.
  intros [Hv Hnd Hc Hr Hn Ha] Hva Hna Hlen.
  assert (Hu : ∀ i x, (L ++ [a]) !! i = Some x → is_u32 (Z.of_nat i)).
  { intros i x Hi. apply lookup_lt_Some in Hi. rewrite length_app in Hi. simpl in Hi.
    unfold is_u32. lia. }
  assert (Hul : is_u32 (Z.of_nat (length L))) by (unfold is_u32; lia).
  unfold enter. split.
  - apply Forall_app. auto.
  - apply NoDup_app. split_and!; [done| |apply NoDup_singleton].
    intros x Hx ->%list_elem_of_singleton. done.
  - rewrite pget_pset, decide_True by done. rewrite decide_False by (by destruct L).
    rewrite length_app. simpl. do 2 f_equal. lia.
  - intros i x Hi. pose proof (Hu i x Hi) as Hui. rewrite !pget_pset. solve_keys.
    destruct (decide (i = length L)) as [->|Hne].
    + rewrite decide_True by done. by rewrite list_lookup_middle in Hi; simplify_eq.
    + rewrite decide_False.
      * apply Hr. apply lookup_app_Some in Hi as [Hi|[Hle Hi]]; [done|].
        apply list_lookup_singleton_Some in Hi as [Hi _]. lia.
      * intros E0%key_rev_inj; [lia|done|done].
  - intros i x Hi. rewrite !pget_pset. solve_keys.
    apply lookup_app_Some in Hi as [Hi|[Hle Hi]].
    + rewrite decide_False; [by apply Hn|]. intros ->%key_num_inj.
      by destruct Hna; eapply list_elem_of_lookup_2.
    + apply list_lookup_singleton_Some in Hi as [Hi <-]. rewrite decide_True by done.
      do 2 f_equal. lia.
  - intros x Hx Hnx. rewrite not_elem_of_app, list_elem_of_singleton in Hnx. destruct Hnx as [Hnx Hxa].
    rewrite !pget_pset. solve_keys. rewrite decide_False by (by intros ->%key_num_inj). by apply Ha.
Qed.

(** Changing the amount of an address in the table. *)
Lemma table_amount L a v s :
  table L s → a ∈ L → table L (pset (toLockedBalanceKey h a) v s).
Proof.
  intros [Hv Hnd Hc Hr Hn Ha] Hin. split; try done.
  - rewrite pget_pset. solve_keys. done.
  - intros. rewrite pget_pset. solve_keys. auto.
  - intros. rewrite pget_pset. solve_keys. auto.
  - intros x Hx Hnx. rewrite !pget_pset. solve_keys.
    rewrite decide_False by (by intros ->%key_lk_inj). by apply Ha.
Qed.

Lemma table_aset L a n v s : table L s → table L (aset a n v s).
Proof. intros []. by split. Qed.

Lemma does_AddLockedBalance L a am c s :
  at_state c s → table L s → valid_addr a → 0 ≤ am → Z.of_nat (length L) + 1 < 2 ^ 32 →
  0 ≤ lk s a → 0 ≤ lsum s a →
  ∃ s', does (AddLockedBalance pid a h am) c (Ok tt) s' ∧
    table (if decide (a ∈ L) then L else L ++ [a]) s' ∧
    (∀ b, lk s' b = lk s b + if decide (b = a) then am else 0) ∧
    (∀ b, lsum s' b = lsum s b + if decide (b = a) then am else 0) ∧
    (∀ b, bal pid s' b = bal pid s b) ∧ (∀ b, abs_HasAccount s' b = abs_HasAccount s b).
Proof using Hpid Hh.
  intros Hat Htb Ha Ham Hlen Hlk Hls.
  set (s1 := if decide (a ∈ L) then s else enter L a s).
  set (s2 := pset (toLockedBalanceKey h a) (Amount.Bytes (lk s a + am)) s1).
  set (s3 := aset a tagLockedBalanceSum (Amount.Bytes (lsum s a + am)) s2).
  assert (Hlk1 : ∀ b, lk s1 b = lk s b).
  { intros b. unfold s1. case_decide; [done|]. unfold lk, enter. rewrite !pget_pset. solve_keys. done. }
  assert (Htb1 : table (if decide (a ∈ L) then L else L ++ [a]) s1).
  { unfold s1. case_decide; [done|]. by apply table_enter. }
  exists s3. split_and!.
  - unfold AddLockedBalance.
    assert (Amount.Less am (Amount.NewCoinAmount 0 0) = false) as ->.
    { unfold Amount.Less. change (Amount.NewCoinAmount 0 0) with 0. apply Z.ltb_ge. lia. }
    eapply does_bind; [by apply does_guard_false|]. intros c1 Hc1.
    eapply does_bind; [by apply does_ProcessData|]. intros c2 Hc2.
    eapply (does_bind _ _ _ tt _ s1).
    { unfold s1. destruct (decide (a ∈ L)) as [Hin|Hnin].
      - apply list_elem_of_lookup_1 in Hin as [i Hi]. rewrite (tb_number _ _ Htb _ _ Hi).
        unfold LittleEndian_Uint32ToBytes. rewrite length_le_bytes. by apply does_ret.
      - destruct (tb_absent _ _ Htb a Ha Hnin) as [Hz _]. rewrite Hz. simpl length. cbv iota.
        change (0 =? 0)%nat with true. cbv iota.
        eapply does_bind; [by apply does_ProcessData|]. intros c3 Hc3.
        eapply (does_bind _ _ _ (Z.of_nat (length L)) _ s).
        { eapply eq_ind_r with (P := λ r, does (lift r) c3 (Ok _) s); [by apply does_lift|]. rewrite (tb_count _ _ Htb). destruct (decide (L = [])) as [->|Hne]; [done|].
          unfold nonempty, LittleEndian_Uint32ToBytes. rewrite length_le_bytes. simpl.
          apply LittleEndian_Uint32_roundtrip. unfold is_u32. lia. }
        intros c4 Hc4. unfold enter.
        eapply does_bind; [by apply does_SetProcessData|]. intros c5 Hc5.
        eapply does_bind; [by apply does_SetProcessData|]. intros c6 Hc6.
        replace (u32 (Z.of_nat (length L) + 1)) with (Z.of_nat (S (length L)))
          by (rewrite u32_small by (unfold is_u32; lia); lia).
        by apply does_SetProcessData. }
    intros c3 Hc3. eapply does_bind; [by apply does_map, does_ProcessData|]. intros c4 Hc4.
    fold (lk s1 a). rewrite Hlk1. unfold Amount.Add.
    eapply does_bind; [by apply does_SetProcessData|]. intros c5 Hc5.
    eapply does_bind; [by apply does_map, does_AccountData|]. intros c6 Hc6.
    assert (Hls2 : amount_of (aget (pset (toLockedBalanceKey h a) (Amount.Bytes (lk s a + am)) s1) a
      tagLockedBalanceSum) = lsum s a).
    { rewrite aget_pset. unfold s1. by case_decide. }
    rewrite Hls2. by apply does_SetAccountData.
  - unfold s3, s2. apply table_aset, table_amount; [done|]. case_decide; [done|].
    apply elem_of_app. right. by apply list_elem_of_singleton.
  - intros b. unfold s3, s2, lk in *. rewrite pget_aset, pget_pset. destruct (decide (b = a)) as [->|Hne].
    + rewrite decide_True by done. apply amount_of_Bytes. lia.
    + rewrite decide_False by (by intros ?%key_lk_inj). rewrite Z.add_0_r. apply Hlk1.
  - intros b. unfold s3, lsum in *. rewrite aget_aset. destruct (decide (b = a)) as [->|Hne].
    + rewrite decide_True by done. apply amount_of_Bytes. lia.
    + rewrite decide_False by naive_solver. rewrite Z.add_0_r. unfold s2, s1. by case_decide.
  - intros b. unfold s3, bal. fold (aget (aset a tagLockedBalanceSum (Amount.Bytes (lsum s a + am)) s2) b tagBalance).
    rewrite aget_aset, decide_False by (intros [_ [=]]). unfold s2, s1. by case_decide.
  - intros b. unfold s3, s2, s1. by case_decide.
Qed.

(** Locking an amount.  [AddLockedBalance] keeps the table of the height
    consistent: a new address gets the next number, a known one keeps its
    number; the amount due at the height and the locked sum of the address
    grow by the locked amount; no other address is affected. *)
Theorem AddLockedBalance_table L a am c s :
  at_state c s → table L s → valid_addr a → 0 ≤ am → Z.of_nat (length L) + 1 < 2 ^ 32 →
  0 ≤ lk s a → 0 ≤ lsum s a →
  ∃ s', does (AddLockedBalance pid a h am) c (Ok tt) s' ∧
    table (if decide (a ∈ L) then L else L ++ [a]) s' ∧
    (∀ b, lk s' b = lk s b + if decide (b = a) then am else 0) ∧
    (∀ b, lsum s' b = lsum s b + if decide (b = a) then am else 0) ∧
    (∀ b, bal pid s' b = bal pid s b).
Proof using Hpid Hh.
  intros. destruct (does_AddLockedBalance L a am c s) as (s' & ? & ? & ? & ? & ? & _); try done.
  by exists s'.
Qed.

(** ** Flushing *)

Definition clear (a : Address) (i : nat) s : Abs :=
  pset (toLockedBalanceReverseKey h (Z.of_nat i)) []
    (pset (toLockedBalanceNumberKey h a) [] (pset (toLockedBalanceKey h a) [] s)).
Fixpoint clear_all (k : nat) (L : list Address) s : Abs :=
  match L with [] => s | a :: L => clear_all (S k) L (clear a k s) end.

Lemma foldl_insert_ext (f g : Address → Z) (L : list Address) (m : gmap Address Z) :
  (∀ a, a ∈ L → f a = g a) →
  foldl (λ m a, <[a := f a]> m) m L = foldl (λ m a, <[a := g a]> m) m L.
Proof.
  revert m. induction L as [|a L IH]; intros m H; simpl; [done|].
  rewrite (H a) by constructor. apply IH. intros b Hb. apply H. by constructor.
Qed.

Lemma foldl_insert_lookup (f : Address → Z) (L : list Address) (m : gmap Address Z) a :
  foldl (λ m a, <[a := f a]> m) m L !! a = if decide (a ∈ L) then Some (f a) else m !! a.
Proof.
  revert m. induction L as [|b L IH]; intros m; simpl; [done|]. rewrite IH.
  destruct (decide (a ∈ L)) as [Hin|Hnin].
  - rewrite decide_True by (by constructor). done.
  - destruct (decide (a = b)) as [->|Hne].
    + rewrite lookup_insert_eq, decide_True by constructor. done.
    + rewrite lookup_insert_ne, decide_False; try done. by intros [->|]%elem_of_cons.
Qed.

Lemma lk_clear a k s b : lk (clear a k s) b = if decide (b = a) then 0 else lk s b.
Proof.
  unfold lk, clear. rewrite !pget_pset. solve_keys. destruct (decide (b = a)) as [->|Hne].
  - by rewrite decide_True.
  - by rewrite decide_False by (by intros ?%key_lk_inj).
Qed.

Lemma does_flush_fold (L : list Address) (k : nat) (m : gmap Address Z) c s :
  at_state c s → NoDup L → Forall valid_addr L → Z.of_nat (k + length L) ≤ 2 ^ 32 →
  (∀ i a, L !! i = Some a → pget s (toLockedBalanceReverseKey h (Z.of_nat (k + i))) = a) →
  does (fold_m (flush_step pid h) m (seq k (length L))) c
    (Ok (foldl (λ m a, <[a := lk s a]> m) m L)) (clear_all k L s).
Proof using Hpid Hh.
  revert k m c s. induction L as [|a L IH]; intros k m c s Hat Hnd Hv Hlen Hrev; simpl.
  { by apply does_ret. }
  apply NoDup_cons in Hnd as [Hna Hnd]. apply Forall_cons in Hv as [Hva Hv].
  rewrite (foldl_insert_ext (lk s) (lk (clear a k s))).
  2: { intros b Hb. rewrite lk_clear, decide_False; [done|]. by intros ->. }
  eapply (does_bind _ _ _ (<[a := lk s a]> m) _ (clear a k s)).
  - unfold flush_step. eapply does_bind; [by apply does_ProcessData|]. intros c1 Hc1.
    assert (Ha : pget s (toLockedBalanceReverseKey h (Z.of_nat k)) = a).
    { specialize (Hrev 0%nat a eq_refl). by rewrite Nat.add_0_r in Hrev. }
    rewrite Ha, copy_addr by done.
    eapply does_bind; [by apply does_map, does_ProcessData|]. intros c2 Hc2.
    eapply does_bind; [by apply does_SetProcessData|]. intros c3 Hc3.
    eapply does_bind; [by apply does_SetProcessData|]. intros c4 Hc4.
    eapply does_bind; [by apply does_SetProcessData|]. intros c5 Hc5. by apply does_ret.
  - intros c1 Hc1. apply IH; try done; [simpl in Hlen; lia|].
    intros i b Hi. unfold clear. rewrite !pget_pset. solve_keys. rewrite decide_False.
    + rewrite <- (Hrev (S i) b Hi). do 2 f_equal. lia.
    + intros E0%key_rev_inj; [lia|unfold is_u32..]; apply lookup_lt_Some in Hi; simpl in Hlen; lia.
Qed.

Lemma if_elem_cons {X} (a b : Address) (L : list Address) (x y : X) :
  (if decide (b ∈ L) then x else if decide (b = a) then x else y)
  = if decide (b ∈ a :: L) then x else y.
Proof.
  destruct (decide (b ∈ a :: L)) as [Hin|Hin].
  - apply elem_of_cons in Hin as [->|Hin]; [rewrite (decide_True (P:=a = a)) by done; by case_match|].
    by rewrite decide_True.
  - apply not_elem_of_cons in Hin as [? ?]. by rewrite !decide_False.
Qed.

Lemma decide_inj {X} (f : Address → bytes) (a b : Address) (x y : X) :
  (∀ a b, f a = f b → a = b) →
  (if decide (f b = f a) then x else y) = if decide (b = a) then x else y.
Proof.
  intros Hf. destruct (decide (b = a)) as [->|Hne]; [by rewrite decide_True|].
  rewrite decide_False; [done|]. by intros ?%Hf.
Qed.

Lemma clear_all_spec (L : list Address) (k : nat) s :
  (∀ b, lk (clear_all k L s) b = if decide (b ∈ L) then 0 else lk s b) ∧
  (∀ b, pget (clear_all k L s) (toLockedBalanceKey h b)
        = if decide (b ∈ L) then [] else pget s (toLockedBalanceKey h b)) ∧
  (∀ b, pget (clear_all k L s) (toLockedBalanceNumberKey h b)
        = if decide (b ∈ L) then [] else pget s (toLockedBalanceNumberKey h b)) ∧
  pget (clear_all k L s) (toLockedBalanceCountKey h) = pget s (toLockedBalanceCountKey h) ∧
  (∀ b n, aget (clear_all k L s) b n = aget s b n) ∧
  (∀ b, abs_HasAccount (clear_all k L s) b = abs_HasAccount s b).
Proof.
  revert k s. induction L as [|a L IH]; intros k s; simpl; [done|].
  destruct (IH (S k) (clear a k s)) as (H1 & H2 & H3 & H4 & H5 & H6).
  split_and!; intros; rewrite ?H1, ?H2, ?H3, ?H4, ?H5, ?H6; try done.
  - rewrite lk_clear. apply if_elem_cons.
  - unfold clear. rewrite !pget_pset. solve_keys.
    rewrite (decide_inj (toLockedBalanceKey h)) by apply key_lk_inj. apply if_elem_cons.
  - unfold clear. rewrite !pget_pset. solve_keys.
    rewrite (decide_inj (toLockedBalanceNumberKey h)) by apply key_num_inj. apply if_elem_cons.
  - unfold clear. rewrite !pget_pset. solve_keys. done.
Qed.

(** Flushing answers with the amounts of the table and leaves it empty. *)
Lemma does_flush L c s :
  at_state c s → table L s → Z.of_nat (length L) < 2 ^ 32 →
  ∃ m s', does (flushLockedBalanceMap pid h) c (Ok m) s' ∧ table [] s' ∧
    (∀ a, m !! a = if decide (a ∈ L) then Some (lk s a) else None) ∧
    (∀ a n, aget s' a n = aget s a n) ∧ (∀ a, abs_HasAccount s' a = abs_HasAccount s a).
Proof using Hpid Hh.
  intros Hat Htb Hlen. unfold flushLockedBalanceMap.
  destruct (decide (L = [])) as [->|Hne].
  - exists ∅, s. split_and!; try done. eapply does_bind; [by apply does_ProcessData|].
    intros c1 Hc1. rewrite (tb_count _ _ Htb). simpl. by apply does_ret.
  - exists (foldl (λ m a, <[a := lk s a]> m) ∅ L), (pset (toLockedBalanceCountKey h) [] (clear_all 0 L s)).
    destruct (clear_all_spec L 0 s) as (H1 & H2 & H3 & H4 & H5 & H6). split_and!.
    + eapply does_bind; [by apply does_ProcessData|]. intros c1 Hc1.
      rewrite (tb_count _ _ Htb), decide_False by done.
      change (nonempty (LittleEndian_Uint32ToBytes _)) with true. cbv iota.
      eapply (does_bind _ _ _ (Z.of_nat (length L)) _ s).
      { eapply eq_ind_r with (P := λ r, does (lift r) c1 (Ok _) s); [by apply does_lift|].
        apply LittleEndian_Uint32_roundtrip. unfold is_u32. lia. }
      intros c2 Hc2. rewrite Nat2Z.id.
      eapply does_bind.
      { apply does_flush_fold; try done; [apply Htb|apply Htb|simpl; lia|apply Htb]. }
      intros c3 Hc3. eapply does_bind; [by apply does_SetProcessData|]. intros c4 Hc4. by apply does_ret.
    + split; [done|apply NoDup_nil_2|by rewrite pget_pset, decide_True|done|done|].
      intros a Ha _. rewrite !pget_pset. solve_keys. rewrite H2, H3.
      destruct (decide (a ∈ L)); [done|]. by apply Htb.
    + intros a. rewrite foldl_insert_lookup. by case_decide.
    + done.
    + done.
Qed.

End Height.

(** ** Paying out *)

(** The effect of one payment. *)
Definition paid (e : Address * Z) s : Abs :=
  match abs_HasAccount s e.1 with
  | Ok true =>
      let s := set_bal pid e.1 (bal pid s e.1 + e.2) s in
      aset e.1 tagLockedBalanceSum (Amount.Bytes (lsum s e.1 - e.2)) s
  | _ => aset e.1 tagLockedBalanceSum [] s
  end.

Lemma does_settle e c s b :
  valid_addr e.1 → at_state c s → 0 ≤ e.2 → abs_HasAccount s e.1 = Ok b →
  does (settle pid e) c (Ok tt) (paid e s).
Proof using Hpid.
  intros Ha Hat He Hb. unfold settle, paid. destruct e as [a am]. simpl in *.
  eapply does_bind; [by apply does_try; eapply does_HasAccount|]. intros c1 Hc1. rewrite ?Hb.
  destruct b; [|by apply does_SetAccountData].
  eapply does_bind; [by apply does_AddBalance|]. intros c2 Hc2.
  eapply does_bind; [by apply does_map, does_AccountData|]. intros c3 Hc3.
  fold (lsum (set_bal pid a (bal pid s a + am) s) a). unfold Amount.Sub, Amount.IsZero.
  destruct (Z.eqb_spec (lsum (set_bal pid a (bal pid s a + am) s) a - am) 0) as [Hz|Hz]; simpl.
  - rewrite Hz. by apply does_SetAccountData.
  - by apply does_SetAccountData.
Qed.

Definition has_account s (a : Address) : bool := bool_decide (abs_HasAccount s a = Ok true).

Lemma bal_aset_sum a v s b : bal pid (aset a tagLockedBalanceSum v s) b = bal pid s b.
Proof.
  unfold bal. fold (aget (aset a tagLockedBalanceSum v s) b tagBalance).
  by rewrite aget_aset, decide_False by (intros [_ [=]]).
Qed.

Lemma lsum_set_bal a x s b : lsum (set_bal pid a x s) b = lsum s b.
Proof.
  unfold lsum, set_bal. fold (aset a tagBalance (Amount.Bytes x) s).
  by rewrite aget_aset, decide_False by (intros [_ [=]]).
Qed.

Lemma HasAccount_paid e s a : abs_HasAccount (paid e s) a = abs_HasAccount s a.
Proof. unfold paid. by repeat case_match. Qed.

Lemma bal_paid e s b :
  0 ≤ e.2 → 0 ≤ bal pid s e.1 →
  bal pid (paid e s) b
  = bal pid s b + (if decide (b = e.1) then if has_account s e.1 then e.2 else 0 else 0).
Proof.
  intros H2 Hb. unfold paid, has_account. case_bool_decide as Hh.
  - rewrite Hh. rewrite bal_aset_sum, bal_set_bal by lia. case_decide; subst; lia.
  - assert (Hp : bal pid (match abs_HasAccount s e.1 with
      | Ok true => aset e.1 tagLockedBalanceSum (Amount.Bytes (lsum (set_bal pid e.1 (bal pid s e.1 + e.2) s) e.1 - e.2))
          (set_bal pid e.1 (bal pid s e.1 + e.2) s)
      | _ => aset e.1 tagLockedBalanceSum [] s end) b = bal pid s b).
    { repeat case_match; try done; apply bal_aset_sum. }
    cbv zeta. rewrite Hp. case_decide; lia.
Qed.

Lemma lsum_paid e s b :
  0 ≤ e.2 ≤ lsum s e.1 →
  lsum (paid e s) b
  = if decide (b = e.1) then if has_account s e.1 then lsum s b - e.2 else 0 else lsum s b.
Proof.
  intros H2. unfold paid, has_account. case_bool_decide as Hh.
  - rewrite Hh. unfold lsum at 1. rewrite aget_aset. destruct (decide (b = e.1)) as [->|Hne].
    + rewrite decide_True, lsum_set_bal by done. apply amount_of_Bytes. lia.
    + rewrite decide_False by naive_solver. apply lsum_set_bal.
  - assert (Hp : lsum (aset e.1 tagLockedBalanceSum [] s) b = if decide (b = e.1) then 0 else lsum s b).
    { unfold lsum. rewrite aget_aset. destruct (decide (b = e.1)) as [->|Hne].
      - by rewrite decide_True.
      - by rewrite decide_False by naive_solver. }
    by repeat case_match.
Qed.

Lemma table_paid h L e s : table h L s → table h L (paid e s).
Proof. intros H. unfold paid. repeat case_match; by repeat apply table_aset. Qed.

Lemma does_settle_all l c s :
  at_state c s →
  Forall (λ e, valid_addr e.1 ∧ 0 ≤ e.2 ∧ ∃ b, abs_HasAccount s e.1 = Ok b) l →
  does (for_each (settle pid) l) c (Ok tt) (foldl (λ s e, paid e s) s l).
Proof using Hpid.
  revert c s. induction l as [|e l IH]; intros c s Hat Hl; simpl; [by apply does_ret|].
  apply Forall_cons in Hl as [(Hv & He & b & Hb) Hl].
  eapply does_bind; [by eapply does_settle|]. intros c1 Hc1. apply IH; [done|].
  eapply Forall_impl; [exact Hl|]. intros e' (? & ? & b' & Hb'). split_and!; try done.
  exists b'. by rewrite HasAccount_paid.
Qed.

(** The sum of the payments to one address. *)
Lemma paid_all l s a :
  NoDup l.*1 →
  Forall (λ e, 0 ≤ e.2 ≤ lsum s e.1 ∧ 0 ≤ bal pid s e.1) l →
  let s' := foldl (λ s e, paid e s) s l in
  bal pid s' a = bal pid s a +
    match (list_to_map l : gmap Address Z) !! a with
    | Some am => if has_account s a then am else 0
    | None => 0
    end ∧
  lsum s' a =
    match (list_to_map l : gmap Address Z) !! a with
    | Some am => if has_account s a then lsum s a - am else 0
    | None => lsum s a
    end.
Proof.
  revert s. induction l as [|[a0 am] l IH]; intros s Hnd Hl; csimpl in *; [by rewrite lookup_empty; lia|].
  apply NoDup_cons in Hnd as [Hna Hnd]. apply Forall_cons in Hl as [[H1 H2] Hl]. simpl in H1, H2.
  destruct (IH (paid (a0, am) s) Hnd) as [IHb IHl].
  { rewrite Forall_forall in *. intros [b bm] Hin. destruct (Hl _ Hin) as [G1 G2]. simpl in *.
    assert (b ≠ a0). { intros ->. apply Hna. rewrite list_elem_of_fmap. by exists (a0, bm). }
    rewrite lsum_paid, bal_paid by (simpl; lia). simpl. by rewrite !decide_False, Z.add_0_r. }
  assert (Hhp : ∀ b, has_account (paid (a0, am) s) b = has_account s b).
  { intros b. unfold has_account. by rewrite HasAccount_paid. }
  rewrite IHb, IHl, bal_paid, lsum_paid, !Hhp by (simpl; lia). simpl. clear IHb IHl.
  destruct (decide (a = a0)) as [->|Hne].
  - rewrite lookup_insert_eq, (not_elem_of_list_to_map_1 l a0) by done. split; lia.
  - rewrite lookup_insert_ne by done. split; lia.
Qed.

(** C28. Paying out.  At the end of the block of height [h] every address of
    the table of [h] that has an account is credited with exactly the amount
    due, once; its locked sum decreases by it; the table is empty afterwards;
    no other balance changes.  This holds for every order in which Go may
    iterate the map of due amounts.  The addresses of the table are not
    deleted accounts (such an account is the error [ErrDeletedAccount]) and
    no amount due is above the locked sum of its address. *)
Theorem AfterExecuteTransactions_pays (range : gmap Address Z → list (Address * Z)) h L c s :
  (∀ m, range m ≡ₚ map_to_list m) → is_u32 h →
  at_state c s → table h L s → Z.of_nat (length L) < 2 ^ 32 →
  (∀ a, a ∈ L → (∃ b, abs_HasAccount s a = Ok b) ∧ 0 ≤ lk h s a ≤ lsum s a ∧ 0 ≤ bal pid s a) →
  ∃ s', does (AfterExecuteTransactions pid range h) c (Ok tt) s' ∧ table h [] s' ∧
    (∀ a, bal pid s' a = bal pid s a
       + (if decide (a ∈ L) then if has_account s a then lk h s a else 0 else 0)) ∧
    (∀ a, lsum s' a =
       if decide (a ∈ L) then if has_account s a then lsum s a - lk h s a else 0 else lsum s a).
Proof using Hpid.
  intros Hrange Hh Hat Htb Hlen HL.
  destruct (does_flush h Hh L c s Hat Htb Hlen) as (m & s1 & Hfl & Htb1 & Hm & Hag & Hha).
  assert (Hb1 : ∀ a, bal pid s1 a = bal pid s a) by (intros a; unfold bal; f_equal; apply Hag).
  assert (Hl1 : ∀ a, lsum s1 a = lsum s a) by (intros a; unfold lsum; f_equal; apply Hag).
  assert (Hhas : ∀ a, has_account s1 a = has_account s a) by (intros a; unfold has_account; by rewrite Hha).
  assert (Hin : ∀ e, e ∈ range m → e.1 ∈ L ∧ e.2 = lk h s e.1).
  { intros [a am] He. rewrite (Hrange m), elem_of_map_to_list in He. simpl in *. rewrite Hm in He.
    case_decide; simplify_eq. done. }
  assert (Hnd : NoDup (range m).*1) by (rewrite (Hrange m); apply NoDup_fst_map_to_list).
  assert (Hlm : ∀ a, (list_to_map (range m) : gmap Address Z) !! a = m !! a).
  { intros a. rewrite (list_to_map_proper (range m) (map_to_list m)); [by rewrite list_to_map_to_list|done|done]. }
  exists (foldl (λ s e, paid e s) s1 (range m)). split_and!.
  - eapply does_bind; [exact Hfl|]. intros c1 Hc1. apply does_settle_all; [done|].
    apply Forall_forall. intros e He. destruct (Hin e He) as [H1 H2].
    destruct (HL e.1 H1) as ((b & Hb) & Hlk & _). split_and!.
    + pose proof (tb_valid _ _ _ Htb) as Hv. rewrite Forall_forall in Hv. by apply Hv.
    + lia.
    + exists b. by rewrite Hha.
  - clear -Htb1. revert s1 Htb1. induction (range m) as [|e l IH]; intros s1 H; simpl; [done|].
    by apply IH, table_paid.
  - intros a. destruct (paid_all (range m) s1 a Hnd) as [-> _].
    { apply Forall_forall. intros e He. destruct (Hin e He) as [H1 H2].
      destruct (HL e.1 H1) as (_ & Hlk & Hbn). rewrite Hl1, Hb1, H2. lia. }
    rewrite Hb1, Hlm, Hm, Hhas. by repeat case_decide.
  - intros a. destruct (paid_all (range m) s1 a Hnd) as [_ ->].
    { apply Forall_forall. intros e He. destruct (Hin e He) as [H1 H2].
      destruct (HL e.1 H1) as (_ & Hlk & Hbn). rewrite Hl1, Hb1, H2. lia. }
    rewrite Hl1, Hlm, Hm, Hhas. by repeat case_decide.
Qed.

End VaultLocked.
