(* ===== verification/Payment.v ===== *)
(** * process/payment

    Topics, payments that the administrator of the process requests and the
    payer accepts or declines, and subscriptions that the administrator bills
    up to an amount.  The balances are those of the vault. *)

From S2P Require Import Prelude Tokens Amount Common Context Vault.

Definition tagRequestPayment : bytes := [1; 0].
Definition tagTopic : bytes := [2; 0].

Definition toRequestPaymentKey (TXID : bytes) : bytes := tagRequestPayment ++ TXID.
Definition toTopicKey (topic : Z) : bytes := tagTopic ++ BigEndian_Uint64ToBytes topic.

Definition payment_Name : bytes := str "fleta.payment".

(** [Topic]: the first eight bytes of a hash. *)
Definition Topic `{HashFn} (Name : bytes) : res Z :=
  LittleEndian_Uint64 (Hash (str "fleta.payment#Topic#" ++ Name)).

(** A request as it is stored; the other transactions are given by their
    fields. *)
Record Request := mkRequest {
  rq_Timestamp : Z;
  rq_From : Address;
  rq_Topic : Z;
  rq_To : Address;
  rq_Amount : Z;
  rq_Content : bytes;
}.

Inductive payment_tx :=
  | AddTopic (Timestamp : Z) (From : Address) (topic : Z) (TopicName : bytes)
  | RemoveTopic (Timestamp : Z) (From : Address) (topic : Z) (TopicName : bytes)
  | RequestPayment (tx : Request)
  | ResponsePayment (Timestamp : Z) (From : Address) (TXID : bytes) (Amount : Z) (IsAccept : bool)
  | Subscribe (Timestamp : Z) (From : Address) (topic : Z) (Amount : Z)
  | Unsubscribe (Timestamp : Z) (From : Address) (topic : Z)
  | Billing (Timestamp : Z) (From : Address) (topic : Z) (To : Address) (Amount : Z) (Content : bytes).

Definition ptx_Timestamp (tx : payment_tx) : Z :=
  match tx with
  | AddTopic t _ _ _ | RemoveTopic t _ _ _ | ResponsePayment t _ _ _ _ | Subscribe t _ _ _
  | Unsubscribe t _ _ | Billing t _ _ _ _ _ => t
  | RequestPayment tx => rq_Timestamp tx
  end.

Definition ptx_From (tx : payment_tx) : Address :=
  match tx with
  | AddTopic _ f _ _ | RemoveTopic _ f _ _ | ResponsePayment _ f _ _ _ | Subscribe _ f _ _
  | Unsubscribe _ f _ | Billing _ f _ _ _ _ => f
  | RequestPayment tx => rq_From tx
  end.

Section Payment.
Context {A E : Type} `{AI : AccountI A} `{EI : EventI E} `{B58 : Base58} `{HF : HashFn}.
Context `{RC : !Codec Request}.
(** The identifiers of this process, of the vault and of the admin process. *)
Context (pid vault_pid admin_pid : Z).

Abbreviation ctxM := (M (Ctx A E)).

(** ** Methods *)

(** The pointer that the decoder leaves is returned as it is. *)
Definition getRequestPayment (TXID : bytes) : ctxM (option Request) :=
  bs ← ProcessData pid (toRequestPaymentKey TXID);
  if nonempty bs then lift (unmarshal bs) else fail ErrNotExistRequestPayment.

Definition addRequestPayment (TXID : bytes) (tx : Request) : ctxM unit :=
  body ← lift (marshal (Some tx));
  SetProcessData pid (toRequestPaymentKey TXID) body.

Definition removeRequestPayment (TXID : bytes) : ctxM unit :=
  SetProcessData pid (toRequestPaymentKey TXID) [].

Definition GetTopicName (topic : Z) : ctxM bytes :=
  bs ← ProcessData pid (toTopicKey topic);
  if nonempty bs then mret bs else fail ErrNotExistTopic.

Definition addTopic (topic : Z) (Name : bytes) : ctxM unit :=
  bs ← ProcessData pid (toTopicKey topic);
  guard_err (nonempty bs) ErrExistTopic ;;
  SetProcessData pid (toTopicKey topic) Name.

Definition removeTopic (topic : Z) : ctxM unit := SetProcessData pid (toTopicKey topic) [].

Definition getSubscribe (topic : Z) (addr : Address) : ctxM Z :=
  bs ← AccountData addr pid (toTopicKey topic);
  if nonempty bs then mret (Amount.NewAmountFromBytes bs) else fail ErrNotExistSubscribe.

Definition addSubscribe (topic : Z) (addr : Address) (am : Z) : ctxM unit :=
  bs ← AccountData addr pid (toTopicKey topic);
  guard_err (nonempty bs) ErrExistSubscribe ;;
  SetAccountData addr pid (toTopicKey topic) (Amount.Bytes am).

Definition removeSubscribe (topic : Z) (addr : Address) : ctxM unit :=
  SetAccountData addr pid (toTopicKey topic) [].

(** ** The process *)

Definition InitTopics (TopicNames : list bytes) : ctxM unit :=
  for_each (λ name, topic ← lift (Topic name); addTopic topic name) TopicNames.

Definition payment_OnLoadChain : ctxM unit := AdminAddress admin_pid payment_Name ;; mret tt.

(** ** Transactions *)

Definition payment_admin (from : Address) : ctxM unit :=
  adm ← AdminAddress admin_pid payment_Name;
  guard_err (negb (bool_decide (from = adm))) ErrUnauthorizedTransaction.

Definition dust : ctxM Z := lift (Amount.DivC Amount.COIN 10).

(** [AddTopic] and [RemoveTopic] have the same [Validate]. *)
Definition AddTopic_Validate (from : Address) (topic : Z) (TopicName : bytes) (signers : list PublicHash)
    : ctxM unit :=
  payment_admin from ;;
  t ← lift (Topic TopicName);
  guard_err (negb (topic =? t)) ErrInvalidTopicName ;;
  validate_signers from signers.

(** The error of [addTopic] is dropped. *)
Definition AddTopic_Execute (topic : Z) (TopicName : bytes) : ctxM unit :=
  try (addTopic topic TopicName) ;; mret tt.

Definition RemoveTopic_Validate (from : Address) (topic : Z) (TopicName : bytes) (signers : list PublicHash)
    : ctxM unit :=
  payment_admin from ;;
  t ← lift (Topic TopicName);
  guard_err (negb (topic =? t)) ErrInvalidTopicName ;;
  validate_signers from signers.

Definition RemoveTopic_Execute (topic : Z) : ctxM unit := removeTopic topic.

Definition RequestPayment_Validate (tx : Request) (signers : list PublicHash) : ctxM unit :=
  payment_admin (rq_From tx) ;;
  min ← dust;
  guard_err (Amount.Less (rq_Amount tx) min) ErrDustAmount ;;
  guard_err (255 <? length (rq_Content tx))%nat ErrExceedContentSize ;;
  GetTopicName (rq_Topic tx) ;;
  must_exist (rq_To tx) ;;
  validate_signers (rq_From tx) signers.

Definition RequestPayment_Execute (tx : Request) (index : Z) : ctxM unit :=
  h ← TargetHeight;
  addRequestPayment (TransactionID h index) tx.

Definition ResponsePayment_Validate (from : Address) (TXID : bytes) (am : Z) (IsAccept : bool)
    (signers : list PublicHash) : ctxM unit :=
  min ← dust;
  guard_err (Amount.Less am min) ErrDustAmount ;;
  adminAddr ← AdminAddress admin_pid payment_Name;
  req ← getRequestPayment TXID;
  req ← lift (of_option req);
  guard_err (negb (bool_decide (rq_From req = adminAddr))) ErrUnauthorizedTransaction ;;
  guard_err (negb (bool_decide (rq_To req = from))) ErrInvalidRequestPayment ;;
  guard_err (negb (rq_Amount req =? am)) ErrInvalidPaymentAmount ;;
  GetTopicName (rq_Topic req) ;;
  must_exist adminAddr ;;
  validate_signers from signers ;;
  if IsAccept then
    b ← Balance vault_pid from;
    guard_err (Amount.Less b am) ErrInsufficientBalance
  else mret tt.

Definition ResponsePayment_Execute (from : Address) (TXID : bytes) (am : Z) (IsAccept : bool) : ctxM unit :=
  (if IsAccept then
     SubBalance vault_pid from am ;;
     adminAddr ← AdminAddress admin_pid payment_Name;
     AddBalance vault_pid adminAddr am
   else mret tt) ;;
  removeRequestPayment TXID.

(** The first signature is the administrator's, the others the sender's. *)
Definition both_signed (from : Address) (signers : list PublicHash) : ctxM unit :=
  guard_err (length signers <=? 1)%nat ErrUnauthorizedTransaction ;;
  adminAddr ← AdminAddress admin_pid payment_Name;
  validate_signers adminAddr (take 1 signers) ;;
  validate_signers from (drop 1 signers).

Definition Subscribe_Validate (from : Address) (topic am : Z) (signers : list PublicHash) : ctxM unit :=
  min ← dust;
  guard_err (negb (Amount.IsZero am) && Amount.Less am min) ErrDustAmount ;;
  GetTopicName topic ;;
  both_signed from signers.

Definition Subscribe_Execute (from : Address) (topic am : Z) : ctxM unit := addSubscribe topic from am.

Definition Unsubscribe_Validate (from : Address) (signers : list PublicHash) : ctxM unit :=
  both_signed from signers.

Definition Unsubscribe_Execute (from : Address) (topic : Z) : ctxM unit := removeSubscribe topic from.

Definition Billing_Validate (from : Address) (topic : Z) (to : Address) (am : Z) (content : bytes)
    (signers : list PublicHash) : ctxM unit :=
  payment_admin from ;;
  guard_err (255 <? length content)%nat ErrExceedContentSize ;;
  GetTopicName topic ;;
  must_exist to ;;
  limit ← getSubscribe topic to;
  guard_err (negb (Amount.IsZero limit) && Amount.Less limit am) ErrInvalidBillingAmount ;;
  validate_signers from signers.

Definition Billing_Execute (to : Address) (am : Z) : ctxM unit :=
  SubBalance vault_pid to am ;;
  adminAddr ← AdminAddress admin_pid payment_Name;
  AddBalance vault_pid adminAddr am.

(** The methods of a transaction. *)
Definition payment_Validate (tx : payment_tx) (signers : list PublicHash) : ctxM unit :=
  match tx with
  | AddTopic _ from topic name => AddTopic_Validate from topic name signers
  | RemoveTopic _ from topic name => RemoveTopic_Validate from topic name signers
  | RequestPayment tx => RequestPayment_Validate tx signers
  | ResponsePayment _ from txid am acc => ResponsePayment_Validate from txid am acc signers
  | Subscribe _ from topic am => Subscribe_Validate from topic am signers
  | Unsubscribe _ from _ => Unsubscribe_Validate from signers
  | Billing _ from topic to am content => Billing_Validate from topic to am content signers
  end.

Definition payment_Execute (tx : payment_tx) (index : Z) : ctxM unit :=
  match tx with
  | AddTopic _ _ topic name => AddTopic_Execute topic name
  | RemoveTopic _ _ topic _ => RemoveTopic_Execute topic
  | RequestPayment tx => RequestPayment_Execute tx index
  | ResponsePayment _ from txid am acc => ResponsePayment_Execute from txid am acc
  | Subscribe _ from topic am => Subscribe_Execute from topic am
  | Unsubscribe _ from topic => Unsubscribe_Execute from topic
  | Billing _ _ _ to am _ => Billing_Execute to am
  end.

End Payment.
