(* ===== verification/PaymentSpec.v ===== *)
(** * process/payment: what the transactions do

    A requested payment is made once, for the amount that was requested; a
    subscription limits what the administrator can bill. *)

From S2P Require Import Prelude Tokens Amount Common Context ContextSpec ContextTrace Vault VaultSpec DataRun VaultRun Payment.

Lemma topic_key_ne_request topic TXID : toTopicKey topic ≠ toRequestPaymentKey TXID.
Proof. done. Qed.

Section PaymentSpec.
Context {A E : Type} `{AI : AccountI A} `{EI : EventI E} `{B58 : Base58} `{HF : HashFn}.
Context `{RC : !Codec Request} (ok : Request → Prop) `{RL : !CodecLaws Request ok}.
Context (pid vault_pid admin_pid : Z).
Context (Hpid : valid_pid pid) (Hvault : valid_pid vault_pid) (Hadmin : valid_pid admin_pid).
Context (Hva : pid ≠ vault_pid) (Had : pid ≠ admin_pid).
Implicit Types (c : Ctx A E) (s : Abs (A:=A)).

Abbreviation dust_limit := (Amount.COIN / 10).

(** What the transactions find: the administrator of the process and a
    topic. *)
Record payment_state (adm : Address) (topic : Z) s : Prop := {
  ps_admin : pget admin_pid s (toAdminAddressKey payment_Name) = adm;
  ps_valid : valid_addr adm;
  ps_account : abs_HasAccount s adm = Ok true;
  ps_topic : pget pid s (toTopicKey topic) ≠ [];
}.

Lemma does_payment_admin adm topic c s :
  payment_state adm topic s → at_state c s → does (AdminAddress admin_pid payment_Name) c (Ok adm) s.
Proof using Hadmin. intros Hp Hat. apply does_AdminAddress; [done|done|apply Hp|apply Hp]. Qed.

Lemma does_dust c s : at_state c s → does dust c (Ok dust_limit) s.
Proof. intros Hat. by apply does_lift. Qed.

Lemma does_GetTopicName adm topic c s :
  payment_state adm topic s → at_state c s → does (GetTopicName pid topic) c (Ok (pget pid s (toTopicKey topic))) s.
Proof using Hpid.
  intros Hp Hat. unfold GetTopicName. run @does_ProcessData. pose proof (ps_topic _ _ _ Hp).
  destruct (pget pid s (toTopicKey topic)); [done|]. by apply does_ret.
Qed.

(** ** Requests *)

(** The request that is stored under an identifier. *)
Definition requested (TXID : bytes) (rq : Request) s : Prop :=
  pget pid s (toRequestPaymentKey TXID) ≠ [] ∧ unmarshal (pget pid s (toRequestPaymentKey TXID)) = Ok (Some rq).

Lemma does_getRequestPayment TXID rq c s :
  requested TXID rq s → at_state c s → does (getRequestPayment pid TXID) c (Ok (Some rq)) s.
Proof using Hpid.
  intros [Hne Hu] Hat. unfold getRequestPayment. run @does_ProcessData.
  destruct (pget pid s _) as [|b bs]; [done|]. simpl nonempty. cbv iota. rewrite Hu. by apply does_lift.
Qed.

Lemma does_RequestPayment_Execute rq index c s :
  at_state c s → ok rq →
  ∃ body, does (RequestPayment_Execute pid rq index) c (Ok tt)
    (pset pid (toRequestPaymentKey (TransactionID (genTargetHeight c) index)) body s) ∧
    body ≠ [] ∧ unmarshal body = Ok (Some rq).
Proof using Hpid RL.
  intros Hat Hok. destruct (marshal_reads_back rq Hok) as (body & Hm & Hne & Hu). exists body. split; [|done].
  unfold RequestPayment_Execute. eapply does_bind; [by apply does_TargetHeight|]. intros c1 Hc1.
  unfold addRequestPayment. rewrite Hm. eapply does_bind; [by apply does_lift|]. intros c2 Hc2. by apply does_SetProcessData.
Qed.

(** The checks of an answer, in their order. *)
Lemma does_ResponsePayment_Validate TXID rq accept signers acc r c s :
  at_state c s → payment_state (rq_From rq) (rq_Topic rq) s → requested TXID rq s → valid_addr (rq_To rq) →
  dust_limit ≤ rq_Amount rq → abs_Account s (rq_To rq) = Ok acc → acc_Validate acc signers = r →
  does (ResponsePayment_Validate pid vault_pid admin_pid (rq_To rq) TXID (rq_Amount rq) accept signers) c
    (r ;; if (accept : bool) && bool_decide (bal vault_pid s (rq_To rq) < rq_Amount rq)
          then Err ErrInsufficientBalance else Ok tt) s.
Proof using Hpid Hvault Hadmin.
  intros Hat Hp Hrq Hto Ham Hacc Hr. unfold ResponsePayment_Validate, Amount.Less.
  eapply does_bind; [by apply does_dust|]. intros c1 Hc1. rewrite (proj2 (Z.ltb_ge _ _)) by lia.
  eapply does_bind; [by apply does_guard_false|]. intros c2 Hc2.
  eapply does_bind; [by eapply does_payment_admin|]. intros c3 Hc3.
  eapply does_bind; [by apply does_getRequestPayment|]. intros c4 Hc4. cbn [of_option].
  eapply does_bind; [by apply (does_lift _ (Ok rq))|]. intros c5 Hc5.
  rewrite !bool_decide_eq_true_2, Z.eqb_refl by done. cbn [negb].
  do 3 (eapply does_bind; [by apply does_guard_false|]; intros ? ?).
  eapply does_bind; [by eapply does_GetTopicName|]. intros c6 Hc6.
  eapply does_bind; [apply does_must_exist; [done|apply Hp]|]. intros c7 Hc7.
  assert (Hv : ∀ c, at_state c s → does (validate_signers (rq_To rq) signers) c r s) by (intros; by eapply does_validate_signers).
  destruct r as [[]|e|].
  - eapply does_bind; [by apply Hv|]. intros c8 Hc8. destruct accept; cbn [andb]; [|by apply does_ret].
    eapply does_bind; [by apply does_Balance|]. intros c9 Hc9.
    unfold bool_decide. destruct (Z.ltb_spec (bal vault_pid s (rq_To rq)) (rq_Amount rq)); case_decide; try lia;
      [by apply does_guard_true|by apply does_guard_false].
  - by apply does_Err, Hv.
  - destruct (Hv c7 Hc7) as (c8 & Hr8 & Hl & Hat8). exists c8. split; [|done]. unfold mbind, M_bind. by rewrite Hr8.
Qed.

(** An accepted answer moves the amount. *)
Lemma does_ResponsePayment_Execute from TXID am accept adm c s :
  at_state c s → valid_addr from → valid_addr adm → pget admin_pid s (toAdminAddressKey payment_Name) = adm →
  (accept = true → 0 ≤ am ≤ bal vault_pid s from) →
  does (ResponsePayment_Execute pid vault_pid admin_pid from TXID am accept) c (Ok tt)
    (pset pid (toRequestPaymentKey TXID) [] (if (accept : bool) then move vault_pid from adm am s else s)).
Proof using Hpid Hvault Hadmin.
  intros Hat Hf Ha Hadm Ham. unfold ResponsePayment_Execute, removeRequestPayment. destruct accept.
  - specialize (Ham eq_refl). eapply does_bind; [|intros c1 Hc1; by apply does_SetProcessData].
    eapply does_bind; [apply does_SubBalance; [done..|lia]|]. intros c1 Hc1.
    eapply does_bind; [by eapply does_AdminAddress|]. intros c2 Hc2. by apply does_AddBalance; [..|lia].
  - eapply does_bind; [by apply does_ret|]. intros c1 Hc1. by apply does_SetProcessData.
Qed.

(** After the answer there is no request any more. *)
Lemma does_ResponsePayment_again from TXID am accept adm signers c s :
  at_state c s → valid_addr adm → pget admin_pid s (toAdminAddressKey payment_Name) = adm →
  pget pid s (toRequestPaymentKey TXID) = [] → dust_limit ≤ am →
  does (ResponsePayment_Validate pid vault_pid admin_pid from TXID am accept signers) c (Err ErrNotExistRequestPayment) s.
Proof using Hpid Hadmin.
  intros Hat Ha Hadm Hnone Ham. unfold ResponsePayment_Validate, Amount.Less.
  eapply does_bind; [by apply does_dust|]. intros c1 Hc1. rewrite (proj2 (Z.ltb_ge _ _)) by lia.
  eapply does_bind; [by apply does_guard_false|]. intros c2 Hc2.
  eapply does_bind; [by eapply does_AdminAddress|]. intros c3 Hc3. apply does_Err.
  unfold getRequestPayment. eapply does_bind; [by apply does_ProcessData|]. intros c4 Hc4. rewrite Hnone. by apply does_fail.
Qed.

Lemma payment_state_frame adm topic s s' :
  payment_state adm topic s → (∀ a, abs_HasAccount s' a = abs_HasAccount s a) →
  (∀ n, pget admin_pid s' n = pget admin_pid s n) → (∀ t, pget pid s' (toTopicKey t) = pget pid s (toTopicKey t)) →
  payment_state adm topic s'.
Proof. intros [H1 H2 H3 H4] Hh Ha Ht. split; by rewrite ?Ha, ?Hh, ?Ht. Qed.

(** C18. A requested payment is made at most once, for the requested amount.
    After [RequestPayment], an answer of the payer under the identifier of the
    request passes [Validate] exactly when the payer signed and, to accept,
    has the amount; executing it moves that amount from the payer to the
    administrator when it accepts, and nothing when it declines; in the state
    after that, whoever answers the same request with a valid amount is
    refused, because the request is gone. *)
Theorem request_paid_once rq index acc c s :
  let TXID := TransactionID (genTargetHeight c) index in
  at_state c s → ok rq → payment_state (rq_From rq) (rq_Topic rq) s → valid_addr (rq_To rq) →
  dust_limit ≤ rq_Amount rq → abs_Account s (rq_To rq) = Ok acc → 0 ≤ bal vault_pid s (rq_From rq) →
  ∃ s1, does (RequestPayment_Execute pid rq index) c (Ok tt) s1 ∧
    (∀ b, bal vault_pid s1 b = bal vault_pid s b) ∧
    ∀ accept signers c1, at_state c1 s1 →
      does (ResponsePayment_Validate pid vault_pid admin_pid (rq_To rq) TXID (rq_Amount rq) accept signers) c1
        (acc_Validate acc signers ;;
         if (accept : bool) && bool_decide (bal vault_pid s (rq_To rq) < rq_Amount rq)
         then Err ErrInsufficientBalance else Ok tt) s1 ∧
      ((accept = true → rq_Amount rq ≤ bal vault_pid s (rq_To rq)) →
       ∃ s2, does (ResponsePayment_Execute pid vault_pid admin_pid (rq_To rq) TXID (rq_Amount rq) accept) c1 (Ok tt) s2 ∧
         (∀ b, bal vault_pid s2 b = bal vault_pid s b + if (accept : bool) then
              (if decide (b = rq_From rq) then rq_Amount rq else 0) - (if decide (b = rq_To rq) then rq_Amount rq else 0)
            else 0) ∧
         ∀ from am accept' signers' c2, at_state c2 s2 → dust_limit ≤ am →
           does (ResponsePayment_Validate pid vault_pid admin_pid from TXID am accept' signers') c2
             (Err ErrNotExistRequestPayment) s2).
Proof using Hpid Hvault Hadmin Hva Had RL.
  intros TXID Hat Hok Hp Hto Ham Hacc Hbf.
  destruct (does_RequestPayment_Execute rq index c s Hat Hok) as (body & Hd & Hne & Hu). fold TXID in Hd.
  set (s1 := pset pid (toRequestPaymentKey TXID) body s) in *.
  assert (Hp1 : payment_state (rq_From rq) (rq_Topic rq) s1).
  { eapply payment_state_frame; [done|done|intros; by apply pget_pset_ne|intros t]. unfold s1.
    by rewrite pget_pset, decide_False. }
  exists s1. split; [done|]. split; [done|]. intros accept signers c1 Hc1. split.
  - change (bal vault_pid s (rq_To rq)) with (bal vault_pid s1 (rq_To rq)).
    apply (does_ResponsePayment_Validate TXID rq accept signers acc (acc_Validate acc signers) c1 s1); try done.
    unfold requested, s1. by rewrite pget_pset, decide_True.
  - intros Hacc'. eexists. split; [eapply does_ResponsePayment_Execute; [done|done|apply Hp1|apply Hp1|]|].
    { intros Ht. specialize (Hacc' Ht). change (bal vault_pid s1 (rq_To rq)) with (bal vault_pid s (rq_To rq)).
      split; [|done]. change dust_limit with 100000000000000000 in Ham. lia. }
    split.
    + intros b. change dust_limit with 100000000000000000 in Ham. destruct accept; [|by rewrite Z.add_0_r].
      specialize (Hacc' eq_refl). etransitivity; [apply (bal_move vault_pid (rq_To rq) (rq_From rq) (rq_Amount rq) s1)|].
      * change (bal vault_pid s1 (rq_To rq)) with (bal vault_pid s (rq_To rq)). lia.
      * done.
      * change (bal vault_pid s1 b) with (bal vault_pid s b). lia.
    + intros from am accept' signers' c2 Hc2 Ham2. eapply does_ResponsePayment_again; [done|apply Hp| | |done].
      * rewrite pget_pset_ne by done. rewrite <- (ps_admin _ _ _ Hp1). by destruct accept.
      * by rewrite pget_pset, decide_True.
Qed.

(** ** Subscriptions *)

(** The limit of a subscription as [Billing] applies it. *)
Definition billable (bs : bytes) (am : Z) : res unit :=
  if nonempty bs then
    let limit := Amount.NewAmountFromBytes bs in
    if negb (limit =? 0) && (limit <? am) then Err ErrInvalidBillingAmount else Ok tt
  else Err ErrNotExistSubscribe.

Lemma does_Billing_Validate adm topic to am content signers acc c s :
  at_state c s → payment_state adm topic s → valid_addr to → abs_HasAccount s to = Ok true →
  (length content ≤ 255)%nat → abs_Account s adm = Ok acc → acc_Validate acc signers = Ok tt →
  does (Billing_Validate pid admin_pid adm topic to am content signers) c
    (billable (aget pid s to (toTopicKey topic)) am) s.
Proof using Hpid Hadmin.
  intros Hat Hp Hto Hhas Hlen Hacc Hsig. unfold Billing_Validate, payment_admin.
  eapply does_bind.
  { eapply does_bind; [by eapply does_payment_admin|]. intros c1 Hc1.
    rewrite bool_decide_eq_true_2 by done. by apply does_guard_false. }
  intros c1 Hc1. rewrite (proj2 (Nat.ltb_ge _ _)) by done.
  eapply does_bind; [by apply does_guard_false|]. intros c2 Hc2.
  eapply does_bind; [by eapply does_GetTopicName|]. intros c3 Hc3.
  eapply does_bind; [by apply does_must_exist|]. intros c4 Hc4.
  unfold getSubscribe, billable. destruct (nonempty (aget pid s to (toTopicKey topic))) eqn:Hb.
  - eapply does_bind; [eapply does_bind; [by apply does_AccountData|]; intros c5 Hc5; rewrite Hb; by apply does_ret|].
    intros c5 Hc5. unfold Amount.IsZero, Amount.Less.
    destruct (negb _ && _); [by apply does_Err, does_guard_true|].
    eapply does_bind; [by apply does_guard_false|]. intros c6 Hc6. by eapply does_validate_signers.
  - apply does_Err. eapply does_bind; [by apply does_AccountData|]. intros c5 Hc5. rewrite Hb. by apply does_fail.
Qed.

(** A subscription limits what is billed.  After [Subscribe] with a
    positive amount the administrator can bill the account up to that amount
    per billing, and the billed amount moves from the account to the
    administrator; [Unsubscribe] ends it.  A subscription with the amount
    zero, which [Validate] allows and [Billing] would take as unlimited, is
    stored as an empty value and so not at all: it can not be billed. *)
Theorem subscription_limits adm topic from am bill content signers acc c s :
  at_state c s → payment_state adm topic s → valid_addr from → abs_HasAccount s from = Ok true →
  aget pid s from (toTopicKey topic) = [] → 0 ≤ am → 0 ≤ bill ≤ bal vault_pid s from → 0 ≤ bal vault_pid s adm →
  (length content ≤ 255)%nat → abs_Account s adm = Ok acc → acc_Validate acc signers = Ok tt →
  let bill_tx := Billing_Validate pid admin_pid adm topic from bill content signers in
  ∃ s1, does (Subscribe_Execute pid from topic am) c (Ok tt) s1 ∧
    (∀ c1, at_state c1 s1 →
       does bill_tx c1 (if am =? 0 then Err ErrNotExistSubscribe
                        else if am <? bill then Err ErrInvalidBillingAmount else Ok tt) s1 ∧
       (∃ s2, does (Billing_Execute vault_pid admin_pid from bill) c1 (Ok tt) s2 ∧
          (∀ b, bal vault_pid s2 b = bal vault_pid s b
             + (if decide (b = adm) then bill else 0) - (if decide (b = from) then bill else 0))) ∧
       (∃ s3, does (Unsubscribe_Execute pid from topic) c1 (Ok tt) s3 ∧
          ∀ c3, at_state c3 s3 → does bill_tx c3 (Err ErrNotExistSubscribe) s3)).
Proof using Hpid Hvault Hadmin Hva.
  intros Hat Hp Hf Hhas Hnone Ham Hbill Hadm Hlen Hacc Hsig bill_tx.
  set (key := toTopicKey topic) in *. set (s1 := aset pid from key (Amount.Bytes am) s).
  exists s1. split.
  { unfold Subscribe_Execute, addSubscribe. eapply does_bind; [by apply does_AccountData|]. intros c1 Hc1.
    fold key. rewrite Hnone. eapply does_bind; [by apply does_guard_false|]. intros c2 Hc2. by apply does_SetAccountData. }
  assert (Hbal : ∀ b, bal vault_pid s1 b = bal vault_pid s b).
  { intros b. unfold bal. fold (aget vault_pid s1 b tagBalance) (aget vault_pid s b tagBalance). unfold s1.
    by rewrite aget_aset_ne. }
  assert (Hframe : ∀ v, payment_state adm topic (aset pid from key v s)) by (intros v; by eapply payment_state_frame).
  intros c1 Hc1. split_and!.
  - eapply eq_ind with (P := λ r, does bill_tx c1 r s1); [by eapply does_Billing_Validate; eauto; apply Hframe|].
    unfold s1. fold key. rewrite aget_aset, decide_True by done. unfold billable.
    rewrite nonempty_Bytes, Amount.NewAmountFromBytes_Bytes, Z.abs_eq by done.
    destruct (am =? 0); [done|]. cbn [negb andb]. by destruct (am <? bill).
  - eexists. split.
    + unfold Billing_Execute. eapply does_bind; [apply does_SubBalance; [done|done|done|rewrite Hbal; lia]|]. intros c2 Hc2.
      eapply does_bind; [eapply does_AdminAddress; [done|done|apply Hp|apply Hp]|]. intros c3 Hc3.
      apply does_AddBalance; [done|apply Hp|done|lia].
    + intros b. etransitivity; [apply (bal_move vault_pid from adm bill s1); rewrite Hbal; lia|]. rewrite Hbal. lia.
  - eexists. split; [by apply does_SetAccountData|]. intros c3 Hc3. fold key in Hc3.
    eapply eq_ind with (P := λ r, does bill_tx c3 r _); [eapply does_Billing_Validate; eauto|].
    + eapply payment_state_frame; [apply (Hframe (Amount.Bytes am))|done..].
    + fold key. by rewrite aget_aset, decide_True.
Qed.

End PaymentSpec.
