(* ===== verification/Gateway.v ===== *)
(** * process/gateway

    The gateway to an ERC20 token: coins enter on the word of the
    administrator of the process, once per transaction of the other chain, and
    leave with a fee.  The balances are those of the vault. *)

From S2P Require Import Prelude Tokens Amount Common Context Vault.

(** ** Addresses of the other chain *)

Definition ERC20AddressSize : nat := 20.
Abbreviation ERC20Address := (list Z) (only parsing).

Definition ERC20_String (addr : ERC20Address) : bytes := str "0x" ++ hex_encode addr.

Definition ParseERC20Address (s : bytes) : res ERC20Address :=
  if negb (bool_decide (str "0x" `prefix_of` s)) then Err ErrInvalidERC20AddressFormat
  else if negb (length s =? ERC20AddressSize * 2 + 2)%nat then Err ErrInvalidERC20AddressFormat
  else match hex_decode (drop 2 s) with
       | None => Err (ErrExternal 0)
       | Some bs =>
           if negb (length bs =? ERC20AddressSize)%nat then Err ErrInvalidERC20AddressFormat
           else Ok (copy (replicate ERC20AddressSize 0) bs)
       end.

Definition MustParseERC20Address (s : bytes) : res ERC20Address :=
  match ParseERC20Address s with Ok a => Ok a | _ => Panic end.

(** The text form in quotes. *)
Definition ERC20_MarshalJSON (addr : ERC20Address) : bytes := [34] ++ ERC20_String addr ++ [34].

Definition ERC20_UnmarshalJSON (bs : bytes) : res ERC20Address :=
  if (length bs <? 3)%nat then Err ErrInvalidERC20AddressFormat
  else if negb (bool_decide (head bs = Some 34)) || negb (bool_decide (last bs = Some 34))
       then Err ErrInvalidERC20AddressFormat
  else ParseERC20Address (take (length bs - 2) (drop 1 bs)).

(** ** Keys and policy *)

Definition tagERC20TXID : bytes := [1; 0].
Definition tagOutTXID : bytes := [1; 1].
Definition gateway_tagPolicy : bytes := [2; 0].

Definition toERC20TXIDKey (h : Hash256) : bytes := tagERC20TXID ++ h.
Definition toOutTXIDKey (TXID : bytes) : bytes := tagOutTXID ++ TXID.

Definition gateway_Name : bytes := str "fleta.gateway".

Record GatewayPolicy := mkGatewayPolicy { WithdrawFee : Z }.

Inductive gateway_tx :=
  | TokenIn (Timestamp : Z) (From : Address) (ERC20TXID : Hash256) (ERC20From : ERC20Address)
      (ToAddresses : list Address) (Amounts : list Z)
  | TokenOut (Timestamp : Z) (From : Address) (ERC20To : ERC20Address) (Amount : Z)
  | TokenLeave (Timestamp : Z) (From : Address) (CoinTXID : bytes) (CoinFrom : Address)
      (ERC20TXID : Hash256) (ERC20To : ERC20Address) (Amount : Z)
  | GatewayUpdatePolicy (Timestamp : Z) (From : Address) (policy : option GatewayPolicy).

Definition gtx_Timestamp (tx : gateway_tx) : Z :=
  match tx with
  | TokenIn t _ _ _ _ _ | TokenOut t _ _ _ | TokenLeave t _ _ _ _ _ _ | GatewayUpdatePolicy t _ _ => t
  end.

Definition gtx_From (tx : gateway_tx) : Address :=
  match tx with
  | TokenIn _ f _ _ _ _ | TokenOut _ f _ _ | TokenLeave _ f _ _ _ _ _ | GatewayUpdatePolicy _ f _ => f
  end.

Section Gateway.
Context {A E : Type} `{AI : AccountI A} `{EI : EventI E} `{B58 : Base58}.
Context `{GC : !Codec GatewayPolicy}.
(** The identifiers of this process, of the vault and of the admin process. *)
Context (pid vault_pid admin_pid : Z).

Abbreviation ctxM := (M (Ctx A E)).

(** ** Methods *)

Definition HasERC20TXID (ERC20TXID : Hash256) : ctxM bool :=
  bs ← ProcessData pid (toERC20TXIDKey ERC20TXID);
  mret (nonempty bs).
Definition setERC20TXID (ERC20TXID : Hash256) : ctxM unit :=
  SetProcessData pid (toERC20TXIDKey ERC20TXID) [1].
Definition HasOutTXID (CoinTXID : bytes) : ctxM bool :=
  bs ← ProcessData pid (toOutTXIDKey CoinTXID);
  mret (nonempty bs).
Definition setOutTXID (CoinTXID : bytes) : ctxM unit :=
  SetProcessData pid (toOutTXIDKey CoinTXID) [1].

(** ** The process *)

Definition gateway_InitPolicy (policy : option GatewayPolicy) : ctxM unit :=
  bs ← lift (marshal policy);
  SetProcessData pid gateway_tagPolicy bs.

Definition gateway_OnLoadChain : ctxM unit :=
  AdminAddress admin_pid gateway_Name ;;
  bs ← ProcessData pid gateway_tagPolicy;
  guard_err (length bs =? 0)%nat ErrGatewayPolicyShouldBeSetup.

(** ** Transactions *)

Definition gateway_admin (from : Address) : ctxM unit :=
  adm ← AdminAddress admin_pid gateway_Name;
  guard_err (negb (bool_decide (from = adm))) ErrUnauthorizedTransaction.

(** The dust limit is computed for every amount. *)
Definition not_dust (am : Z) : ctxM unit :=
  min ← lift (Amount.DivC Amount.COIN 10);
  guard_err (Amount.Less am min) ErrDustAmount.

Definition TokenIn_Validate (from : Address) (ERC20TXID : Hash256) (ToAddresses : list Address)
    (Amounts : list Z) (signers : list PublicHash) : ctxM unit :=
  gateway_admin from ;;
  guard_err (negb (length Amounts =? length ToAddresses)%nat) ErrInvalidAddressCount ;;
  for_each not_dust Amounts ;;
  has ← HasERC20TXID ERC20TXID;
  guard_err has ErrProcessedERC20TXID ;;
  for_each must_exist ToAddresses ;;
  validate_signers from signers.

(** One round of the loop; the address of the round is looked up after the
    sender was charged. *)
Definition token_step (from : Address) (ToAddresses : list Address) (e : nat * Z) : ctxM unit :=
  SubBalance vault_pid from e.2 ;;
  to ← lift (of_option (ToAddresses !! e.1));
  AddBalance vault_pid to e.2.

Definition TokenIn_Execute (from : Address) (ERC20TXID : Hash256) (ToAddresses : list Address)
    (Amounts : list Z) : ctxM unit :=
  for_each (token_step from ToAddresses) (imap pair Amounts) ;;
  setERC20TXID ERC20TXID.

(** The policy, read and dereferenced. *)
Definition gateway_policy : ctxM GatewayPolicy :=
  bs ← ProcessData pid gateway_tagPolicy;
  lift (unmarshal_deref bs).

Definition TokenOut_Validate (from : Address) (am : Z) (signers : list PublicHash) : ctxM unit :=
  not_dust am ;;
  adm ← AdminAddress admin_pid gateway_Name;
  must_exist adm ;;
  validate_signers from signers ;;
  policy ← gateway_policy;
  CheckFeePayableWith vault_pid from (GetDefaultFee vault_pid) (Some (Amount.Add am (WithdrawFee policy))).

Definition TokenOut_fn (from : Address) (am : Z) : ctxM unit :=
  policy ← gateway_policy;
  SubBalance vault_pid from (WithdrawFee policy) ;;
  SubBalance vault_pid from am ;;
  adm ← AdminAddress admin_pid gateway_Name;
  AddBalance vault_pid adm (WithdrawFee policy) ;;
  AddBalance vault_pid adm am.

Definition TokenOut_Execute (from : Address) (am : Z) : ctxM unit :=
  WithFee vault_pid from (GetDefaultFee vault_pid) (TokenOut_fn from am).

Definition TokenLeave_Validate (from : Address) (CoinTXID : bytes) (am : Z) (signers : list PublicHash)
    : ctxM unit :=
  gateway_admin from ;;
  not_dust am ;;
  lift (ParseTransactionID CoinTXID) ;;
  has ← HasOutTXID CoinTXID;
  guard_err has ErrProcessedOutTXID ;;
  validate_signers from signers.

Definition TokenLeave_Execute (CoinTXID : bytes) : ctxM unit := setOutTXID CoinTXID.

Definition GatewayUpdatePolicy_Validate (from : Address) (policy : option GatewayPolicy)
    (signers : list PublicHash) : ctxM unit :=
  gateway_admin from ;;
  guard_err (match policy with None => true | Some _ => false end) ErrGatewayInvalidPolicy ;;
  validate_signers from signers.

Definition GatewayUpdatePolicy_Execute (policy : option GatewayPolicy) : ctxM unit :=
  bs ← lift (marshal policy);
  SetProcessData pid gateway_tagPolicy bs.

(** The methods of a transaction. *)
Definition gateway_Validate (tx : gateway_tx) (signers : list PublicHash) : ctxM unit :=
  match tx with
  | TokenIn _ from txid _ tos ams => TokenIn_Validate from txid tos ams signers
  | TokenOut _ from _ am => TokenOut_Validate from am signers
  | TokenLeave _ from txid _ _ _ am => TokenLeave_Validate from txid am signers
  | GatewayUpdatePolicy _ from policy => GatewayUpdatePolicy_Validate from policy signers
  end.

Definition gateway_Execute (tx : gateway_tx) : ctxM unit :=
  match tx with
  | TokenIn _ from txid _ tos ams => TokenIn_Execute from txid tos ams
  | TokenOut _ from _ am => TokenOut_Execute from am
  | TokenLeave _ _ txid _ _ _ _ => TokenLeave_Execute txid
  | GatewayUpdatePolicy _ _ policy => GatewayUpdatePolicy_Execute policy
  end.

End Gateway.
