(* ===== verification/KeptData.v ===== *)
(** * A datum of a process that stays

    A process marks what it has done by writing a value under a key of its
    own.  [stands]: the value is read there; [upholds m]: whatever the
    program [m] answers, the value is still read after it, unless the program
    ended in a panic.  Programs that do not write the key uphold it, through
    snapshots, commits and reverts. *)

From S2P Require Import Prelude Tokens Amount Common Context ContextSpec ContextTrace Vault VaultSpec DataRun.

Section KeptData.
Context {A E : Type} `{AI : AccountI A} `{EI : EventI E} `{B58 : Base58}.
Context (pid : Z) (name value : bytes) (Hpid : valid_pid pid) (Hvalue : nonempty value = true).
Implicit Types c : Ctx A E.

Definition stands c : Prop := wf c ∧ view_ProcessData c pid name = Ok value.
Definition upholds {V} (m : M (Ctx A E) V) : Prop :=
  ∀ c r c', stands c → m c = (r, c') → r ≠ Panic → top_step c c' ∧ stands c'.

Lemma upholds_same {V} (m : M (Ctx A E) V) : (∀ c, (m c).2 = c) → upholds m.
Proof. intros Hm c r c' Hs Hr _. specialize (Hm c). rewrite Hr in Hm. simpl in Hm. subst. split; [apply top_step_refl, Hs|done]. Qed.
Lemma upholds_ret {V} (a : V) : upholds (mret a).
Proof. by apply upholds_same. Qed.
Lemma upholds_fail {V} e : upholds (fail e : M _ V).
Proof. by apply upholds_same. Qed.
Lemma upholds_lift {V} (r : res V) : upholds (lift r).
Proof. by apply upholds_same. Qed.
Lemma upholds_panic {V} : upholds (panic : M _ V).
Proof. by apply upholds_same. Qed.
Lemma upholds_guard b e : upholds (guard_err b e).
Proof. destruct b; by apply upholds_same. Qed.

(** What is known of the answer. *)
Lemma upholds_bind_post {V X} (Q : V → Prop) (m : M (Ctx A E) V) (f : V → M (Ctx A E) X) :
  upholds m → (∀ c a c', m c = (Ok a, c') → Q a) → (∀ a, Q a → upholds (f a)) → upholds (m ≫= f).
Proof.
  intros Hm HQ Hf c r c' Hs Hr Hp. unfold mbind, M_bind in Hr. destruct (m c) as [[a|e|] c1] eqn:E0.
  - destruct (Hm c _ c1 Hs E0) as [H1 Hs1]; [done|]. destruct (Hf a (HQ _ _ _ E0) c1 r c' Hs1 Hr Hp) as [H2 Hs2].
    split; [by eapply top_step_trans|done].
  - injection Hr as <- <-. by apply (Hm c (Err e)).
  - injection Hr as <- <-. done.
Qed.
Lemma upholds_bind {V X} (m : M (Ctx A E) V) (f : V → M (Ctx A E) X) :
  upholds m → (∀ a, upholds (f a)) → upholds (m ≫= f).
Proof. intros Hm Hf. by apply (upholds_bind_post (λ _, True)). Qed.
Lemma upholds_try {V} (m : M (Ctx A E) V) : upholds m → upholds (try m).
Proof.
  intros Hm c r c' Hs Hr Hp. unfold try in Hr. destruct (m c) as [[a|e|] c1] eqn:E0; injection Hr as <- <-; [..|done];
    by eapply (Hm c).
Qed.
Lemma upholds_for_each {V} (f : V → M (Ctx A E) unit) l : (∀ x, x ∈ l → upholds (f x)) → upholds (for_each f l).
Proof.
  induction l as [|x l IH]; intros Hf; [apply upholds_ret|]. cbn [for_each].
  apply upholds_bind; [apply Hf; constructor|intros ?]. apply IH. intros y Hy. apply Hf. by constructor.
Qed.

(** Reads leave an equivalent context. *)
Lemma upholds_reads {V} (m : M (Ctx A E) V) v : reads m v → upholds m.
Proof using Hpid.
  intros Hm c r c' [Hwf Hs] Hr _. destruct (Hm c Hwf) as (c1 & Hr1 & Ht & He). rewrite Hr in Hr1. injection Hr1 as -> <-.
  split; [done|]. split; [apply Ht|]. rewrite <- Hs. destruct He as [_ _ _ _ [] _]. by apply eq_ProcessData.
Qed.
Lemma upholds_ProcessData p k : valid_pid p → upholds (ProcessData p k).
Proof using Hpid. intros Hp. by eapply upholds_reads, read_ProcessData. Qed.
Lemma upholds_AccountData a p k : valid_addr a → valid_pid p → upholds (AccountData a p k).
Proof using Hpid. intros Ha Hp. by eapply upholds_reads, read_AccountData. Qed.

(** Writes of other keys, and of the value itself. *)
Lemma upholds_SetAccountData a p k v : valid_addr a → valid_pid p → upholds (SetAccountData a p k v).
Proof using Hpid.
  intros Ha Hp c r c' [Hwf Hs] Hr _. destruct (trace_SetAccountData c a p k v Ha Hp Hwf) as (c1 & Hr1 & He & Ht).
  rewrite Hr in Hr1. injection Hr1 as -> <-. split; [apply Ht|]. split; [apply Ht|]. rewrite <- Hs.
  destruct He. by apply eq_ProcessData.
Qed.
Lemma upholds_SetProcessData p k v :
  valid_pid p → (p = pid → k = name → v = value) → upholds (SetProcessData p k v).
Proof using Hpid.
  intros Hp Hk c r c' [Hwf Hs] Hr _. destruct (trace_SetProcessData c p k v Hp Hwf) as (c1 & Hr1 & He & Ht).
  rewrite Hr in Hr1. injection Hr1 as -> <-. split; [apply Ht|]. split; [apply Ht|].
  destruct He as [_ _ _ _ _ Hd _ _]. specialize (Hd pid name Hpid). cbn [abs abs_ProcessData abs_set_process_data] in Hd.
  rewrite Hd. case_decide as Hc; [|done]. destruct Hc as [-> ->]. by rewrite Hk.
Qed.

(** A layer that answers with a value has no deletion mark. *)
Lemma stands_not_deleted c d st : stands c → stack c = d :: st → ov_del (ProcessDataOv d) !! processDataKey pid name = None.
Proof using Hvalue.
  intros [_ Hs] Hst. destruct (ov_del (ProcessDataOv d) !! _) eqn:E0; [|done].
  unfold view_ProcessData, view in Hs. rewrite Hst in Hs. simpl in Hs. unfold hit_ProcessData at 1, ov_hit in Hs.
  rewrite E0 in Hs. injection Hs as <-. done.
Qed.

Lemma upholds_scope fn : upholds fn → upholds (scope fn).
Proof using Hpid Hvalue.
  intros Hfn c r c' Hst Hr Hp. pose proof Hst as [Hwf Hs].
  destruct (scope_enter c Hwf) as (c1 & Hsn & Hwf1 & Hl & Hh & Hlh & Hts & (d & st & Hs0 & Hs1) & He1 & _).
  assert (Hst1 : stands c1).
  { split; [done|]. rewrite <- Hs. destruct He1. by apply eq_ProcessData. }
  unfold scope in Hr. rewrite (bind_Ok _ _ _ _ _ Hsn) in Hr. unfold try, mbind at 1, M_bind in Hr.
  destruct (fn c1) as [[a|e|] c2] eqn:E0; [| |by injection Hr as <- <-].
  - destruct (Hfn c1 _ c2 Hst1 E0) as [Ht Hst2]; [done|].
    destruct (wf_top c2 (ts_wf _ _ Ht)) as (u & st2 & Hs2 & Hf2).
    pose proof (ts_below _ _ Ht) as Hb. rewrite Hs2, Hs1 in Hb. simpl in Hb. subst st2.
    destruct (Commit_merges c2 u (set_isTop false d) st (ts_wf _ _ Ht) Hs2) as [Hc _].
    destruct (Commit_views c2 u (set_isTop false d) st (ts_wf _ _ Ht) Hs2) as (c3 & Hc3 & Hwf3 & Hst3 & _ & _ & _ & HP & _).
    assert (Hlen : S (length (stack c)) = length (stack c2)) by (by rewrite Hs0, Hs2).
    rewrite Hlen, Hc3 in Hr. injection Hr as <- <-. rewrite Hc in Hc3. injection Hc3 as Hc3.
    assert (Hlost : lost_data (processDataKey pid name) (ProcessDataOv u) (ProcessDataOv (set_isTop false d)) = false).
    { unfold lost_data, lost. change (ProcessDataOv (set_isTop false d)) with (ProcessDataOv d).
      rewrite (stands_not_deleted c d st Hst Hs0). by repeat case_match. }
    split; [|split; [done|rewrite HP, Hlost; apply Hst2]].
    destruct Ht as [_ T1 T2 T3 T4 _ _ _].
    split; try (subst c3; cbn; congruence); [by rewrite Hst3, Hs0|].
    intros t k. unfold top_slot. rewrite Hs0, Hst3. cbn [TimeSlotMap set_isTop merge_layer].
    rewrite slot_has_merge. intros Hk. cbn [TimeSlotMap set_isTop]. by rewrite Hk, orb_true_r.
  - destruct (Hfn c1 _ c2 Hst1 E0) as [Ht _]; [done|].
    destruct (wf_top c2 (ts_wf _ _ Ht)) as (u & st2 & Hs2 & Hf2).
    destruct Ht as [Hwf2 T1 T2 T3 T4 Hb _ _]. rewrite Hs2, Hs1 in Hb. simpl in Hb. subst st2.
    rewrite Hs0 in Hr. change (length (d :: st)) with (length (set_isTop false d :: st)) in Hr.
    rewrite (bind_Ok _ _ _ _ _ (Revert_spec c2 [u] (set_isTop false d) st Hs2 ltac:(done))) in Hr.
    injection Hr as <- <-. apply Forall_cons in Hf2 as [_ Hf2].
    assert (Hwf3 : wf (set_stack (set_isTop true (set_isTop false d) :: st) (dirty c2)))
      by (split; [by eexists _, _|apply Hwf2|apply Hwf2]).
    split; [split; simpl; try congruence; [by rewrite Hs0|done|by unfold top_slot; simpl; rewrite Hs0]|].
    split; [done|]. rewrite <- Hs. unfold view_ProcessData. cbn [stack loader set_stack dirty set_latest]. by rewrite Hs0, T1, Hl.
Qed.
End KeptData.

Create HintDb upholds.
#[export] Hint Resolve upholds_ret upholds_fail upholds_lift upholds_panic upholds_guard upholds_try upholds_ProcessData
  upholds_AccountData upholds_SetAccountData upholds_scope : upholds.
Ltac uphold := repeat first [solve [auto 2 with upholds] | apply upholds_bind; [|intros ?] | case_match].

(** The methods of the vault, as part of another process. *)
Section VaultKept.
Context {A E : Type} `{AI : AccountI A} `{EI : EventI E} `{B58 : Base58}.
Context (pid : Z) (name value : bytes) (Hpid : valid_pid pid) (Hvalue : nonempty value = true).
Context (vault_pid : Z) (Hvault : valid_pid vault_pid) (Hne : vault_pid ≠ pid).
Abbreviation upholding := (upholds (A:=A) (E:=E) pid name value).

Lemma upholds_Balance a : valid_addr a → upholding (Balance vault_pid a).
Proof using Hpid Hvault. intros Ha. unfold Balance. uphold. Qed.
Lemma upholds_AddBalance a am : valid_addr a → upholding (AddBalance vault_pid a am).
Proof using Hpid Hvault. intros Ha. unfold AddBalance. pose proof upholds_Balance. uphold. Qed.
Lemma upholds_SubBalance a am : valid_addr a → upholding (SubBalance vault_pid a am).
Proof using Hpid Hvault. intros Ha. unfold SubBalance, RemoveBalance. pose proof upholds_Balance. uphold. Qed.
Lemma upholds_WithFee a fee fn : valid_addr a → upholding fee → upholding fn → upholding (WithFee vault_pid a fee fn).
Proof using Hpid Hvalue Hvault Hne.
  intros Ha Hfee Hfn. change (WithFee vault_pid a fee fn) with
    (fee0 ← fee; SubBalance vault_pid a fee0 ;; f ← CollectedFee vault_pid;
     SetProcessData vault_pid tagCollectedFee (Amount.Bytes (Amount.Add f fee0)) ;; scope fn).
  apply upholds_bind; [done|intros fee0]. apply upholds_bind; [by apply upholds_SubBalance|intros ?].
  apply upholds_bind; [unfold CollectedFee; uphold|intros f]. apply upholds_bind; [|intros ?; by apply upholds_scope].
  by apply upholds_SetProcessData.
Qed.
Lemma upholds_GetDefaultFee : upholding (GetDefaultFee vault_pid).
Proof using Hpid Hvault. unfold GetDefaultFee. uphold. Qed.

Lemma upholds_AdminAddress {X} admin_pid n (f : Address → M (Ctx A E) X) :
  valid_pid admin_pid → (∀ adm, valid_addr adm → upholding (f adm)) → upholding (AdminAddress admin_pid n ≫= f).
Proof using Hpid.
  intros Hadm Hf. apply (upholds_bind_post _ _ _ valid_addr); [unfold AdminAddress; uphold| |done].
  intros c a c'. unfold AdminAddress, mbind, M_bind. destruct (ProcessData admin_pid _ c) as [[bs|e|] c1]; [|done..].
  case_match; [done|]. intros [= <- _]. unfold valid_addr. by rewrite length_copy.
Qed.

End VaultKept.
