(* ===== verification/GatewaySpec.v ===== *)
(** * process/gateway: what the transactions do *)

From S2P Require Import Prelude Tokens Amount Common Context ContextSpec ContextTrace Vault VaultSpec DataRun VaultRun KeptData Gateway.

(** ** Addresses of the other chain *)

Definition valid_erc20 (a : ERC20Address) : Prop := length a = ERC20AddressSize ∧ Forall is_byte a.

(** The text form of an ERC20 address reads back: [ParseERC20Address] of
    [String] gives the address, and so does [UnmarshalJSON] of [MarshalJSON]. *)
Theorem ERC20Address_roundtrip a :
  valid_erc20 a → ParseERC20Address (ERC20_String a) = Ok a ∧ ERC20_UnmarshalJSON (ERC20_MarshalJSON a) = Ok a.
Proof.
  intros [Hl Hb].
  assert (Hp : ParseERC20Address (ERC20_String a) = Ok a).
  { unfold ParseERC20Address, ERC20_String. rewrite bool_decide_eq_true_2 by (by eexists). cbn [negb].
    rewrite length_app, length_hex_encode, Hl. change (drop 2 (str "0x" ++ hex_encode a)) with (hex_encode a).
    rewrite hex_roundtrip by done. cbv iota beta. rewrite Hl. cbv iota beta. f_equal.
    apply copy_same_length. by rewrite length_replicate, Hl. }
  split; [done|]. unfold ERC20_UnmarshalJSON, ERC20_MarshalJSON.
  assert (Hlen : length ([34] ++ ERC20_String a ++ [34]) = (length (ERC20_String a) + 2)%nat) by (rewrite !length_app; simpl; lia).
  rewrite Hlen. destruct (Nat.ltb_spec (length (ERC20_String a) + 2) 3) as [Hlt|_].
  { unfold ERC20_String in Hlt. rewrite length_app in Hlt. simpl in Hlt. lia. }
  assert (Hlast : last ([34] ++ ERC20_String a ++ [34]) = Some 34) by (rewrite app_assoc; apply last_snoc).
  rewrite Hlast, !bool_decide_eq_true_2 by done. cbn [negb orb].
  rewrite Nat.add_sub. change (drop 1 ([34] ++ ERC20_String a ++ [34])) with (ERC20_String a ++ [34]). by rewrite take_app_length.
Qed.

Lemma ERC20Address_roundtrip_witness :
  ParseERC20Address (ERC20_String (replicate 20 171)) = Ok (replicate 20 171).
Proof. apply ERC20Address_roundtrip. split; [done|]. apply Forall_replicate. unfold is_byte. lia. Defined.

Section GatewaySpec.
Context {A E : Type} `{AI : AccountI A} `{EI : EventI E} `{B58 : Base58}.
Context `{GC : !Codec GatewayPolicy}.
Context (pid vault_pid admin_pid : Z).
Context (Hpid : valid_pid pid) (Hvault : valid_pid vault_pid) (Hadmin : valid_pid admin_pid).
Context (Hva : pid ≠ vault_pid) (Had : pid ≠ admin_pid).
Implicit Types (c : Ctx A E) (s : Abs (A:=A)).

Abbreviation dust_limit := (Amount.COIN / 10).

Lemma does_not_dust am c s : at_state c s → dust_limit ≤ am → does (not_dust am) c (Ok tt) s.
Proof.
  intros Hat Ham. unfold not_dust, Amount.Less. eapply does_bind; [by apply (does_lift _ (Ok dust_limit))|]. intros c1 Hc1.
  rewrite (proj2 (Z.ltb_ge _ _)) by lia. by apply does_guard_false.
Qed.

Lemma does_not_dust_all ams c s :
  at_state c s → Forall (λ am, dust_limit ≤ am) ams → does (for_each not_dust ams) c (Ok tt) s.
Proof.
  intros Hat Hd. revert c Hat. induction Hd as [|am ams Ham _ IH]; intros c Hat; [by apply does_ret|].
  eapply does_bind; [by apply does_not_dust|]. intros c1 Hc1. by apply IH.
Qed.

Lemma does_gateway_admin adm c s :
  at_state c s → pget admin_pid s (toAdminAddressKey gateway_Name) = adm → valid_addr adm →
  does (gateway_admin admin_pid adm) c (Ok tt) s.
Proof using Hadmin.
  intros Hat Ha Hv. unfold gateway_admin. eapply does_bind; [by eapply does_AdminAddress|]. intros c1 Hc1.
  rewrite bool_decide_eq_true_2 by done. by apply does_guard_false.
Qed.

(** ** Coins that enter *)

Definition sum_of (l : list (nat * Z)) : Z := foldr (λ e n, e.2 + n) 0 l.

Lemma does_token_steps from tos l c s :
  valid_addr from → at_state c s → (∀ a, 0 ≤ bal vault_pid s a) →
  Forall (λ e, 0 ≤ e.2 ∧ ∃ to, tos !! e.1 = Some to ∧ valid_addr to) l → sum_of l ≤ bal vault_pid s from →
  ∃ s', does (for_each (token_step vault_pid from tos) l) c (Ok tt) s' ∧ ledger_only vault_pid s s' ∧
    ∀ b, bal vault_pid s' b = bal vault_pid s b + received (λ e, default [] (tos !! e.1)) snd b l
      - if decide (b = from) then sum_of l else 0.
Proof using Hvault.
  intros Hf. revert c s. induction l as [|[i am] l IH]; intros c s Hat Hb Hl Hsum.
  - exists s. split; [by apply does_ret|]. split; [apply ledger_only_refl|]. intros b. simpl. case_decide; lia.
  - apply Forall_cons in Hl as [(Ham & to & Hto & Hv) Hl]. cbn [fst snd sum_of foldr] in *.
    assert (0 ≤ sum_of l) as Hs0 by (clear -Hl; induction Hl as [|e l [H _] _ IH]; simpl in *; [done|lia]).
    unfold sum_of in Hs0. set (s1 := move vault_pid from to am s).
    assert (Hb1 : ∀ b, bal vault_pid s1 b = bal vault_pid s b - (if decide (b = from) then am else 0) + (if decide (b = to) then am else 0))
      by (intros b; apply bal_move; [lia|done]).
    assert (Hd1 : does (token_step vault_pid from tos (i, am)) c (Ok tt) s1).
    { unfold token_step. cbn [fst snd]. eapply does_bind; [apply does_SubBalance; [done..|lia]|]. intros c1 Hc1.
      rewrite Hto. eapply does_bind; [by apply (does_lift _ (Ok to))|]. intros c2 Hc2. by apply does_AddBalance. }
    destruct Hd1 as (c1 & Hr1 & Hl1 & Hat1). destruct (IH c1 s1) as (s2 & (c2 & Hr2 & Hl2 & Hat2) & Hlo & Hb2); try done.
    { intros a. rewrite Hb1. pose proof (Hb a). repeat case_decide; subst; lia. }
    { rewrite Hb1. rewrite decide_True by done. unfold sum_of. pose proof (Hb to). case_decide; lia. }
    exists s2. split; [|split].
    + exists c2. split; [|split; [chain|done]]. cbn [for_each]. by rewrite (bind_Ok _ _ _ _ _ Hr1).
    + eapply ledger_only_trans; [apply ledger_only_move|done].
    + intros b. rewrite Hb2, Hb1. cbn [received foldr fst snd]. rewrite Hto. cbn [default].
      fold (received (λ e, default [] (tos !! e.1)) snd b l). unfold sum_of. repeat case_decide; subst; try done; lia.
Qed.

(** The rounds of the loop are the entries of the two slices. *)
Lemma received_imap b k tos tos' ams :
  tos' = drop k tos → length ams = length tos' →
  received (λ e : nat * Z, default [] (tos !! e.1)) snd b (imap (λ i am, ((k + i)%nat, am)) ams)
  = received fst snd b (zip tos' ams).
Proof.
  revert k tos'. induction ams as [|am ams IH]; intros k [|to tos'] Hd Hl; try done. injection Hl as Hl.
  assert (Hto : tos !! k = Some to) by (by rewrite <- (Nat.add_0_r k), <- lookup_drop, <- Hd).
  cbn [imap zip zip_with received foldr fst snd]. rewrite Nat.add_0_r, Hto. cbn [default].
  assert (Hd' : tos' = drop (S k) tos) by (by rewrite <- (Nat.add_1_r k), <- drop_drop, <- Hd).
  f_equal. etransitivity; [|exact (IH (S k) tos' Hd' Hl)].
  unfold received. f_equal. apply imap_ext. intros i x _. cbn. f_equal. lia.
Qed.

Lemma sum_imap k ams : sum_of (imap (λ i am, ((k + i)%nat, am)) ams) = foldr Z.add 0 ams.
Proof.
  revert k. induction ams as [|am ams IH]; intros k; [done|]. cbn [imap sum_of foldr snd]. f_equal.
  etransitivity; [|exact (IH (S k))]. unfold sum_of. f_equal. apply imap_ext. intros i x _. cbn. f_equal. lia.
Qed.

Lemma does_HasERC20TXID h c s :
  at_state c s → does (HasERC20TXID pid h) c (Ok (nonempty (pget pid s (toERC20TXIDKey h)))) s.
Proof using Hpid. intros Hat. eapply does_bind; [by apply does_ProcessData|]. intros c1 Hc1. by apply does_ret. Qed.

(** *** The mark of an identifier stays *)

(** The addresses of a transaction have their size. *)
Definition gtx_sized (tx : gateway_tx) : Prop :=
  valid_addr (gtx_From tx) ∧ match tx with TokenIn _ _ _ _ tos _ => Forall valid_addr tos | _ => True end.

Lemma upholds_gateway_Execute txid tx :
  gtx_sized tx → upholds pid (toERC20TXIDKey txid) [1] (gateway_Execute pid vault_pid admin_pid tx : M (Ctx A E) unit).
Proof using Hpid Hvault Hadmin Hva.
  intros [Hf Htx]. destruct tx as [t from h e tos ams|t from e am|t from id co h e am|t from policy];
    cbn [gateway_Execute gtx_From] in *.
  - apply upholds_bind; [|intros ?; by apply upholds_SetProcessData].
    apply upholds_for_each. intros [i am] _. unfold token_step. cbn [fst snd].
    apply upholds_bind; [by apply upholds_SubBalance|intros ?].
    apply (upholds_bind_post _ _ _ valid_addr); [apply upholds_lift| |intros to Hto; by apply upholds_AddBalance].
    intros c to c' [= Hto _]. destruct (tos !! i) as [x|] eqn:Ei; [|done]. injection Hto as <-.
    rewrite Forall_lookup in Htx. by eapply Htx.
  - apply upholds_WithFee; [done|done|done|by apply not_eq_sym|done|by apply upholds_GetDefaultFee|]. unfold TokenOut_fn, gateway_policy.
    apply upholds_bind; [uphold|intros policy]. apply upholds_bind; [by apply upholds_SubBalance|intros ?].
    apply upholds_bind; [by apply upholds_SubBalance|intros ?]. apply upholds_AdminAddress; [done|done|]. intros adm Hadm'.
    apply upholds_bind; [by apply upholds_AddBalance|intros ?]. by apply upholds_AddBalance.
  - by apply upholds_SetProcessData.
  - apply upholds_bind; [uphold|intros bs]. by apply upholds_SetProcessData.
Qed.

(** What can follow: transactions of the gateway, whether they succeed or
    fail, and anything else that leaves the process data of the gateway as it
    is, such as the transactions of other processes, the snapshots and commits
    of the chain and the step to the next block. *)
Inductive later c : Ctx A E → Prop :=
  | later_same : later c c
  | later_tx tx c1 r c2 : later c c1 → gtx_sized tx → gateway_Execute pid vault_pid admin_pid tx c1 = (r, c2) → r ≠ Panic → later c c2
  | later_other c1 c2 : later c c1 → wf c2 → (∀ n, view_ProcessData c2 pid n = view_ProcessData c1 pid n) → later c c2.

(** For instance a withdrawal that is settled, and the next block. *)
Lemma later_leave_next id h t c : wf c → later c (NextContext h t (TokenLeave_Execute pid id c).2).
Proof using Hpid.
  intros Hwf. destruct (trace_SetProcessData c pid (toOutTXIDKey id) [1] Hpid Hwf) as (c2 & Hr & _ & Ht).
  destruct (NextContext_views c2 h t (ts_wf _ _ (tr_step _ _ _ _ Ht))) as (Hwf2 & _ & _ & _ & He).
  unfold TokenLeave_Execute, setOutTXID. rewrite Hr. cbn [snd].
  apply (later_other c c2); [|done|intros n; destruct He; by apply eq_ProcessData].
  apply (later_tx c (TokenLeave 0 emptyAddr id emptyAddr [] [] 0) c (Ok tt) c2 (later_same c)); [done|exact Hr|done].
Qed.

Lemma later_stands txid c c' :
  later c c' → stands pid (toERC20TXIDKey txid) [1] c → stands pid (toERC20TXIDKey txid) [1] c'.
Proof using Hpid Hvault Hadmin Hva.
  induction 1 as [|tx c1 r c2 _ IH Hs Hr Hp|c1 c2 _ IH Hwf Hv]; intros Hc; [done| |].
  - by apply (upholds_gateway_Execute txid tx Hs c1 r c2 (IH Hc) Hr Hp).
  - split; [done|]. rewrite Hv. by apply IH.
Qed.

(** A marked identifier is refused, to whoever asks. *)
Lemma TokenIn_Validate_refuses from txid tos ams signers c r c' :
  stands pid (toERC20TXIDKey txid) [1] c → TokenIn_Validate pid admin_pid from txid tos ams signers c = (r, c') → r ≠ Ok tt.
Proof using Hpid Hadmin.
  intros Hs Hr ->. unfold TokenIn_Validate in Hr.
  apply bind_inv_Ok in Hr as (u1 & c1 & H1 & Hr). apply bind_inv_Ok in Hr as (u2 & c2 & H2 & Hr).
  apply bind_inv_Ok in Hr as (u3 & c3 & H3 & Hr). apply bind_inv_Ok in Hr as (has & c4 & H4 & Hr).
  apply bind_inv_Ok in Hr as (u5 & c5 & H5 & _).
  assert (Ha : upholds pid (toERC20TXIDKey txid) [1] (gateway_admin admin_pid from : M (Ctx A E) unit))
    by (apply upholds_AdminAddress; [done..|intros adm _; apply upholds_guard]).
  assert (Hd : upholds pid (toERC20TXIDKey txid) [1] (for_each not_dust ams : M (Ctx A E) unit))
    by (apply upholds_for_each; intros am _; unfold not_dust; uphold).
  destruct (Ha _ _ _ Hs H1) as [_ S1]; [done|]. destruct (upholds_guard _ _ _ _ _ _ _ _ S1 H2) as [_ S2]; [done|].
  destruct (Hd _ _ _ S2 H3) as [_ [Hwf Hv]]; [done|].
  unfold HasERC20TXID in H4. apply bind_inv_Ok in H4 as (bs & c6 & H4 & H6).
  destruct (read_ProcessData pid (toERC20TXIDKey txid) Hpid c3 Hwf) as (c7 & H7 & _).
  change (ctd_ProcessData pid (toERC20TXIDKey txid) c3) with (ProcessData pid (toERC20TXIDKey txid) c3) in H7.
  rewrite H4 in H7. injection H7 as H7 _. rewrite Hv in H7. injection H7 as ->. injection H6 as <- <-. done.
Qed.

(** C19. Coins enter once per transaction of the other chain.  [TokenIn]
    moves each amount from the administrator to the address at the same
    place, creates and loses nothing, and marks the identifier.  After it,
    and after any further transactions of the gateway (which may fail, but
    not panic) and any other steps that leave the process data of the gateway
    alone (those of other processes, commits, the next blocks), no [TokenIn]
    with that identifier is valid, whoever sends it, whatever its addresses
    and amounts; one of the administrator with as many amounts as addresses
    and no dust is refused with [ErrProcessedERC20TXID]. *)
Theorem TokenIn_once adm txid tos ams c s :
  at_state c s → valid_addr adm → pget admin_pid s (toAdminAddressKey gateway_Name) = adm →
  (∀ a, 0 ≤ bal vault_pid s a) → Forall valid_addr tos → length ams = length tos → Forall (λ am, 0 ≤ am) ams →
  foldr Z.add 0 ams ≤ bal vault_pid s adm →
  ∃ c1 s', TokenIn_Execute pid vault_pid adm txid tos ams c = (Ok tt, c1) ∧ at_state c1 s' ∧
    (∀ b, bal vault_pid s' b = bal vault_pid s b + received fst snd b (zip tos ams)
       - if decide (b = adm) then foldr Z.add 0 ams else 0) ∧
    ∀ c2, later c1 c2 → ∀ from' tos' ams' signers,
      (∀ r c3, TokenIn_Validate pid admin_pid from' txid tos' ams' signers c2 = (r, c3) → r ≠ Ok tt) ∧
      (∀ s2, at_state c2 s2 → valid_addr from' → pget admin_pid s2 (toAdminAddressKey gateway_Name) = from' →
         length ams' = length tos' → Forall (λ am, dust_limit ≤ am) ams' →
         does (TokenIn_Validate pid admin_pid from' txid tos' ams' signers) c2 (Err ErrProcessedERC20TXID) s2).
Proof using Hpid Hvault Hadmin Hva.
  clear Had. intros Hat Hadm Ha Hb Htos Hlen Hams Hsum. pose proof (sum_imap 0 ams : sum_of (imap pair ams) = _) as Hsi.
  destruct (does_token_steps adm tos (imap pair ams) c s) as (s1 & (c1 & Hr1 & Hl1 & Hat1) & Hlo & Hb1); try done.
  { apply Forall_lookup. intros i e He. rewrite list_lookup_imap in He.
    destruct (ams !! i) as [am|] eqn:Hi; [|done]. injection He as <-. cbn [fst snd].
    rewrite Forall_lookup in Hams. rewrite Forall_lookup in Htos. split; [by eapply Hams|].
    destruct (lookup_lt_is_Some_2 tos i) as [to Hto]; [rewrite <- Hlen; by eapply lookup_lt_Some|]. eauto. }
  { by rewrite Hsi. }
  destruct (trace_SetProcessData c1 pid (toERC20TXIDKey txid) [1] Hpid (at_wf _ _ Hat1)) as (c2 & Hr2 & He2 & Ht2).
  assert (Hset : does (setERC20TXID pid txid) c1 (Ok tt) (pset pid (toERC20TXIDKey txid) [1] s1)) by by apply does_SetProcessData.
  destruct Hset as (c2' & Hr2' & _ & Hat2). unfold setERC20TXID in Hr2'. rewrite Hr2 in Hr2'. injection Hr2' as <-.
  assert (Hst : stands pid (toERC20TXIDKey txid) [1] c2).
  { split; [apply Hat2|]. destruct He2 as [_ _ _ _ _ Hd _ _]. specialize (Hd pid (toERC20TXIDKey txid) Hpid).
    cbn [abs abs_ProcessData abs_set_process_data] in Hd. by rewrite Hd, decide_True. }
  exists c2, (pset pid (toERC20TXIDKey txid) [1] s1). split_and!; [|done| |].
  - unfold TokenIn_Execute. by rewrite (bind_Ok _ _ _ _ _ Hr1).
  - intros b. change (bal vault_pid (pset pid (toERC20TXIDKey txid) [1] s1) b) with (bal vault_pid s1 b).
    rewrite Hb1, Hsi. by rewrite <- (received_imap b 0 tos tos ams).
  - intros c3 Hc3%(later_stands txid); [|done]. intros from' tos' ams' signers. split; [intros r c4; by apply TokenIn_Validate_refuses|].
    intros s3 Hat3 Hf' Hfa Hlen' Hd'. unfold TokenIn_Validate.
    eapply does_bind; [by apply does_gateway_admin|]. intros c4 Hc4. rewrite Hlen', Nat.eqb_refl.
    eapply does_bind; [by apply does_guard_false|]. intros c5 Hc5.
    eapply does_bind; [by apply does_not_dust_all|]. intros c6 Hc6.
    eapply does_bind; [by apply does_HasERC20TXID|]. intros c7 Hc7.
    assert (Hmark : pget pid s3 (toERC20TXIDKey txid) = [1]).
    { destruct Hc3 as [_ Hv]. destruct (at_abs _ _ Hat3). unfold pget. cbn in eq_ProcessData. by rewrite <- eq_ProcessData, Hv. }
    rewrite Hmark. by apply does_Err, does_guard_true.
Qed.

(** ** Coins that leave *)

(** Coins leave with their fees.  [TokenOut] takes the amount, the
    withdrawal fee of the policy and the fee of the chain from the sender;
    the first two go to the administrator, the last is collected. *)
Theorem TokenOut_executes adm from policy am c s :
  let fee := dfee vault_pid s in
  let total := am + WithdrawFee policy in
  at_state c s → unmarked c → valid_addr from → valid_addr adm →
  pget admin_pid s (toAdminAddressKey gateway_Name) = adm → vault_pid ≠ admin_pid →
  unmarshal_deref (pget pid s gateway_tagPolicy) = Ok policy → 0 < am → 0 ≤ WithdrawFee policy →
  0 < fee → 0 ≤ fees vault_pid s → total + fee ≤ bal vault_pid s from → 0 ≤ bal vault_pid s adm →
  ∃ s', does (TokenOut_Execute pid vault_pid admin_pid from am) c (Ok tt) s' ∧
    (∀ b, bal vault_pid s' b = bal vault_pid s b - (if decide (b = from) then total + fee else 0)
       + (if decide (b = adm) then total else 0)) ∧
    fees vault_pid s' = fees vault_pid s + fee.
Proof using Hpid Hvault Hadmin Hva.
  clear Had. intros fee total Hat Hu Hf Hadm Ha Hne Hpol Ham Hw Hfee Hfees Hle Hb.
  set (s0 := charge vault_pid from fee s).
  assert (Hb0 : ∀ b, bal vault_pid s0 b = bal vault_pid s b - if decide (b = from) then fee else 0)
    by (intros b; unfold s0; apply bal_charge; lia).
  assert (Hp0 : ∀ q n, q ≠ vault_pid → pget q s0 n = pget q s n)
    by (intros q n Hq; etransitivity; [by apply (pget_pset_ne vault_pid q tagCollectedFee)|done]).
  set (s1 := set_bal vault_pid from (bal vault_pid s0 from - WithdrawFee policy) s0).
  set (s2 := set_bal vault_pid from (bal vault_pid s1 from - am) s1).
  set (s3 := set_bal vault_pid adm (bal vault_pid s2 adm + WithdrawFee policy) s2).
  set (s4 := set_bal vault_pid adm (bal vault_pid s3 adm + am) s3).
  assert (Hb1 : ∀ b, bal vault_pid s1 b = if decide (b = from) then bal vault_pid s0 from - WithdrawFee policy else bal vault_pid s0 b)
    by (intros b; apply bal_set_bal; rewrite Hb0, decide_True by done; lia).
  assert (Hb2 : ∀ b, bal vault_pid s2 b = if decide (b = from) then bal vault_pid s1 from - am else bal vault_pid s1 b)
    by (intros b; apply bal_set_bal; rewrite Hb1, Hb0, !decide_True by done; lia).
  assert (Hadm2 : 0 ≤ bal vault_pid s2 adm)
    by (rewrite Hb2, !Hb1, !Hb0; destruct (decide (adm = from)) as [->|]; rewrite ?decide_True by done; lia).
  assert (Hb3 : ∀ b, bal vault_pid s3 b = if decide (b = adm) then bal vault_pid s2 adm + WithdrawFee policy else bal vault_pid s2 b)
    by (intros b; apply bal_set_bal; lia).
  assert (Hb4 : ∀ b, bal vault_pid s4 b = if decide (b = adm) then bal vault_pid s3 adm + am else bal vault_pid s3 b)
    by (intros b; apply bal_set_bal; rewrite Hb3, decide_True by done; lia).
  destruct (does_WithFee vault_pid Hvault from (TokenOut_fn pid vault_pid admin_pid from am) (eq s4) c s)
    as (s' & Hd & <-); try done; [lia| |].
  { intros c0 Hc0 _. fold fee s0 in Hc0. exists s4. split; [|done]. unfold TokenOut_fn, gateway_policy.
    eapply does_bind; [eapply does_bind; [by apply does_ProcessData|]; intros c1 Hc1; rewrite Hp0, Hpol by done; by apply does_lift|].
    intros c2 Hc2. eapply does_bind; [apply does_SubBalance; [done..|rewrite Hb0, decide_True by done; lia]|]. intros c3 Hc3.
    eapply does_bind; [apply does_SubBalance; [done..|fold s1; rewrite Hb1, Hb0, !decide_True by done; lia]|]. intros c4 Hc4.
    eapply does_bind; [eapply (does_AdminAddress admin_pid gateway_Name adm); [done|done| |done]|].
    { etransitivity; [|exact Ha]. etransitivity; [|apply (Hp0 admin_pid), not_eq_sym, Hne]. done. }
    intros c5 Hc5. eapply does_bind; [by apply does_AddBalance|]. intros c6 Hc6. apply does_AddBalance; [done|done|done|lia]. }
  exists s4. split; [done|]. split.
  - intros b. rewrite Hb4, !Hb3, !Hb2, !Hb1, !Hb0. unfold total. repeat case_decide; subst; try done; lia.
  - change (fees vault_pid s4) with (fees vault_pid s0). unfold s0. apply fees_charge. lia.
Qed.

Lemma does_HasOutTXID txid c s :
  at_state c s → does (HasOutTXID pid txid) c (Ok (nonempty (pget pid s (toOutTXIDKey txid)))) s.
Proof using Hpid. intros Hat. eapply does_bind; [by apply does_ProcessData|]. intros c1 Hc1. by apply does_ret. Qed.

Lemma toOutTXIDKey_inj t t' : toOutTXIDKey t = toOutTXIDKey t' → t = t'.
Proof. by intros [= ->]. Qed.

(** A withdrawal is settled once per spelling of its identifier.  After
    [TokenLeave] the same text is refused; another text of the same
    transaction identifier, such as its upper-case form, passes again unless
    it was used too. *)
Theorem TokenLeave_spelling adm txid txid' am signers acc c s :
  at_state c s → valid_addr adm → pget admin_pid s (toAdminAddressKey gateway_Name) = adm →
  dust_limit ≤ am → ParseTransactionID txid' = ParseTransactionID txid → (∃ v, ParseTransactionID txid = Ok v) →
  abs_Account s adm = Ok acc → acc_Validate acc signers = Ok tt → pget pid s (toOutTXIDKey txid') = [] →
  ∃ s', does (TokenLeave_Execute pid txid) c (Ok tt) s' ∧
    ∀ c', at_state c' s' →
      does (TokenLeave_Validate pid admin_pid adm txid' am signers) c'
        (if decide (txid' = txid) then Err ErrProcessedOutTXID else Ok tt) s'.
Proof using Hpid Hadmin Had.
  intros Hat Hadm Ha Ham Hpe [v Hv] Hacc Hsig Hnone. exists (pset pid (toOutTXIDKey txid) [1] s).
  split; [by apply does_SetProcessData|]. intros c' Hc'. unfold TokenLeave_Validate.
  eapply does_bind; [apply does_gateway_admin; [done|by rewrite pget_pset_ne by done|done]|]. intros c1 Hc1.
  eapply does_bind; [by apply does_not_dust|]. intros c2 Hc2. rewrite Hpe, Hv.
  eapply does_bind; [by apply (does_lift _ (Ok v))|]. intros c3 Hc3.
  eapply does_bind; [by apply does_HasOutTXID|]. intros c4 Hc4. rewrite pget_pset.
  destruct (decide (txid' = txid)) as [->|Hne]; [rewrite decide_True by done; by apply does_Err, does_guard_true|].
  rewrite decide_False by (intros Hk; by apply toOutTXIDKey_inj in Hk). rewrite Hnone.
  eapply does_bind; [by apply does_guard_false|]. intros c5 Hc5. by eapply does_validate_signers.
Qed.

End GatewaySpec.
