(* ===== verification/PaymentExamples.v ===== *)
(** * process/payment and process/gateway: the theorems at work

    A chain state with an administrator and two users.  The vault runs under
    process identifier 1, the payment process under 3, the gateway under 4,
    the admin process under 5. *)

From S2P Require Import Prelude Tokens Amount Common Context ContextSpec ContextTrace Vault VaultSpec DataRun VaultRun ExampleState Payment PaymentSpec Gateway GatewaySpec.

Module PaymentExamples.

#[local] Instance number_event : EventI Z.
Proof. by refine {| ev_N e := e; ev_SetN n _ := n |}. Defined.
#[local] Existing Instance toy_base58.

(** A request as the list of its fields, the two addresses in front. *)
#[local] Instance request_codec : Codec Request := list_codec
  (λ r, [rq_Timestamp r; rq_Topic r; rq_Amount r] ++ rq_From r ++ rq_To r ++ rq_Content r)
  (λ l, match l with
        | t :: topic :: am :: l => Some (mkRequest t (take 14 l) topic (take 14 (drop 14 l)) am (drop 28 l))
        | _ => None
        end).
Definition request_ok (r : Request) : Prop := valid_addr (rq_From r) ∧ valid_addr (rq_To r).
#[local] Instance request_laws : CodecLaws Request request_ok.
Proof.
  intros [t f topic to am ct] [Hf Ht]. eexists. split; [reflexivity|]. split; [done|].
  cbn [unmarshal request_codec list_codec rq_Timestamp rq_Topic rq_Amount rq_From rq_To rq_Content app] in *.
  rewrite take_app_length' by done. rewrite drop_app_length' by done. rewrite take_app_length' by done.
  change 28%nat with (14 + 14)%nat. rewrite <- drop_drop. by rewrite !drop_app_length' by done.
Qed.
#[local] Instance policy_codec : Codec GatewayPolicy :=
  list_codec (λ p, [WithdrawFee p]) (λ l, match l with [a] => Some (mkGatewayPolicy a) | _ => None end).

Definition adm : Address := NewAddress 1 0 77.
Definition alice : Address := NewAddress 1 1 77.
Definition bob : Address := NewAddress 1 2 77.

Definition accounts : list (Address * account) := [
  (adm, ASingle (mkSingle adm (str "admin") [9])); (alice, ASingle (mkSingle alice (str "alice") [1]));
  (bob, ASingle (mkSingle bob (str "bob") [2]))].
Definition account_data : list ((Address * Z * bytes) * bytes) := [
  ((adm, 1, tagBalance), Amount.Bytes (100 * Amount.COIN)); ((alice, 1, tagBalance), Amount.Bytes (10 * Amount.COIN))].
Definition process_data : list ((Z * bytes) * bytes) := [
  ((5, toAdminAddressKey payment_Name), adm); ((5, toAdminAddressKey gateway_Name), adm);
  ((3, toTopicKey 77), str "rent"); ((4, gateway_tagPolicy), [Amount.COIN])].

Definition ld : Loader account := table_loader 5 accounts account_data process_data.
Abbreviation c0 := (NewContext (A:=account) (E:=Z) ld).

Lemma till_at : at_state c0 (abs c0).
Proof. apply table_at. Qed.
Lemma till_unmarked : unmarked c0.
Proof. intros [x|x|x|x]; vm_compute; intros [=]. Qed.

Definition pid1 : valid_pid 1 := conj (bool_decide_unpack (0 ≤ 1) I) (bool_decide_unpack (1 < 256) I).
Definition pid3 : valid_pid 3 := conj (bool_decide_unpack (0 ≤ 3) I) (bool_decide_unpack (3 < 256) I).
Definition pid4 : valid_pid 4 := conj (bool_decide_unpack (0 ≤ 4) I) (bool_decide_unpack (4 < 256) I).
Definition pid5 : valid_pid 5 := conj (bool_decide_unpack (0 ≤ 5) I) (bool_decide_unpack (5 < 256) I).

Lemma till_bal a : 0 ≤ bal 1 (abs c0) a.
Proof.
  change (0 ≤ amount_of (default [] (assoc (a, 1, tagBalance) account_data))). unfold account_data.
  destruct (decide (a = adm)) as [->|H1]; [by vm_compute|].
  destruct (decide (a = alice)) as [->|H2]; [by vm_compute|].
  rewrite !assoc_ne by (let H := fresh in intros H; injection H; congruence). done.
Qed.

Lemma c0_payment : payment_state 3 5 adm 77 (abs c0).
Proof. split; vm_compute; try reflexivity. intros [=]. Qed.

(** ** Payment *)

Definition rent : Request := mkRequest 0 adm 77 alice (2 * Amount.COIN) (str "rent").

Lemma request_paid_once_witness :
  ∃ s1, does (RequestPayment_Execute 3 rent 0) c0 (Ok tt) s1 ∧
    ∀ c1 : Ctx account Z, at_state c1 s1 →
      does (ResponsePayment_Validate 3 1 5 alice (TransactionID 5 0) (2 * Amount.COIN) true [[1]]) c1 (Ok tt) s1 ∧
      ∃ s2, does (ResponsePayment_Execute 3 1 5 alice (TransactionID 5 0) (2 * Amount.COIN) true) c1 (Ok tt) s2 ∧
        bal 1 s2 alice = 8 * Amount.COIN ∧ bal 1 s2 adm = 102 * Amount.COIN.
Proof.
  destruct (request_paid_once request_ok 3 1 5 pid3 pid1 pid5 ltac:(done) ltac:(done) rent 0
    (ASingle (mkSingle alice (str "alice") [1])) c0 (abs c0)) as (s1 & Hd & _ & H).
  - exact till_at.
  - by split.
  - exact c0_payment.
  - done.
  - by vm_compute.
  - vm_compute. reflexivity.
  - apply till_bal.
  - exists s1. split; [exact Hd|]. intros c1 Hc1. destruct (H true [[1]] c1 Hc1) as [Hv Hx]. split.
    + eapply eq_ind with (P := λ r, does _ c1 r s1); [exact Hv|vm_compute; reflexivity].
    + destruct Hx as (s2 & Hd2 & Hb & _); [by vm_compute|]. exists s2. split; [exact Hd2|].
      split; [rewrite (Hb alice)|rewrite (Hb adm)]; vm_compute; reflexivity.
Defined.

Lemma subscription_limits_witness :
  ∃ s1, does (Subscribe_Execute 3 alice 77 (3 * Amount.COIN)) c0 (Ok tt) s1 ∧
    ∀ c1 : Ctx account Z, at_state c1 s1 →
      does (Billing_Validate 3 5 adm 77 alice (4 * Amount.COIN) [] [[9]]) c1 (Err ErrInvalidBillingAmount) s1.
Proof.
  destruct (subscription_limits 3 1 5 pid3 pid1 pid5 ltac:(done) adm 77 alice (3 * Amount.COIN) (4 * Amount.COIN) [] [[9]]
    (ASingle (mkSingle adm (str "admin") [9])) c0 (abs c0)) as (s1 & Hd & H).
  - exact till_at.
  - exact c0_payment.
  - done.
  - vm_compute. reflexivity.
  - vm_compute. reflexivity.
  - by vm_compute.
  - by vm_compute.
  - apply till_bal.
  - simpl. lia.
  - vm_compute. reflexivity.
  - vm_compute. reflexivity.
  - exists s1. split; [exact Hd|]. intros c1 Hc1. destruct (H c1 Hc1) as [Hv _]. exact Hv.
Defined.

(** An unlimited subscription is accepted and leaves no trace. *)
Example unlimited_subscription_lost :
  let r := (Subscribe_Validate 3 5 alice 77 0 [[9]; [1]] ;; Subscribe_Execute 3 alice 77 0) c0 in
  (r.1, (Billing_Validate 3 5 adm 77 alice Amount.COIN [] [[9]] r.2).1) = (Ok tt, Err ErrNotExistSubscribe).
Proof. vm_compute. reflexivity. Qed.

(** ** Gateway *)

(** After the coins entered, a withdrawal is settled and the next block
    begins; the identifier is still refused. *)
Lemma TokenIn_once_witness :
  ∃ c1 s', TokenIn_Execute 4 1 adm (replicate 32 7) [alice; bob] [Amount.COIN; 2 * Amount.COIN] c0 = (Ok tt, c1) ∧
    bal 1 s' adm = 97 * Amount.COIN ∧ bal 1 s' bob = 2 * Amount.COIN ∧
    does (TokenIn_Validate 4 5 adm (replicate 32 7) [bob] [Amount.COIN] [[9]]) c1 (Err ErrProcessedERC20TXID) s' ∧
    ∀ from tos ams signers r c3,
      TokenIn_Validate 4 5 from (replicate 32 7) tos ams signers (NextContext [1] 5 (TokenLeave_Execute 4 (str "x") c1).2) = (r, c3) →
      r ≠ Ok tt.
Proof.
  destruct (TokenIn_once 4 1 5 pid4 pid1 pid5 ltac:(done) adm (replicate 32 7) [alice; bob]
    [Amount.COIN; 2 * Amount.COIN] c0 (abs c0)) as (c1 & s' & Hr & Hat & Hb & H).
  - exact till_at.
  - done.
  - vm_compute. reflexivity.
  - exact till_bal.
  - by repeat constructor.
  - reflexivity.
  - by repeat constructor.
  - by vm_compute.
  - exists c1, s'. split; [exact Hr|]. split; [rewrite (Hb adm); vm_compute; reflexivity|].
    split; [rewrite (Hb bob); vm_compute; reflexivity|]. split.
    + destruct (H c1 (later_same 4 1 5 c1) adm [bob] [Amount.COIN] [[9]]) as [_ Hx].
      apply (Hx s' Hat eq_refl); [|reflexivity|by repeat constructor].
      destruct Hat as [_ _ [_ _ _ _ _ Hd _ _]]. unfold pget. specialize (Hd 5 (toAdminAddressKey gateway_Name) pid5).
      cbn [noslot abs_ProcessData] in Hd. rewrite <- Hd.
      assert (Hc1 : c1 = (TokenIn_Execute 4 1 adm (replicate 32 7) [alice; bob] [Amount.COIN; 2 * Amount.COIN] c0).2)
        by (by rewrite Hr).
      clear - Hc1. subst c1. vm_compute. reflexivity.
    + intros from tos ams signers.
      apply (H _ (later_leave_next 4 1 5 pid4 (str "x") [1] 5 c1 (at_wf _ _ Hat)) from tos ams signers).
Defined.

Lemma TokenOut_executes_witness :
  ∃ s', does (TokenOut_Execute 4 1 5 alice (3 * Amount.COIN)) c0 (Ok tt) s' ∧
    bal 1 s' alice = 6 * Amount.COIN - Amount.COIN / 10 ∧ bal 1 s' adm = 104 * Amount.COIN.
Proof.
  destruct (TokenOut_executes 4 1 5 pid4 pid1 pid5 ltac:(done) adm alice (mkGatewayPolicy Amount.COIN) (3 * Amount.COIN) c0 (abs c0))
    as (s' & Hd & Hb & _).
  - exact till_at.
  - exact till_unmarked.
  - done.
  - done.
  - vm_compute. reflexivity.
  - discriminate.
  - vm_compute. reflexivity.
  - by vm_compute.
  - by vm_compute.
  - by vm_compute.
  - by vm_compute.
  - by vm_compute.
  - apply till_bal.
  - exists s'. split; [exact Hd|]. split; [rewrite (Hb alice)|rewrite (Hb adm)]; vm_compute; reflexivity.
Defined.

Lemma TokenLeave_spelling_witness :
  ∃ s', does (TokenLeave_Execute 4 (str "0000000a0000")) c0 (Ok tt) s' ∧
    ∀ c' : Ctx account Z, at_state c' s' →
      does (TokenLeave_Validate 4 5 adm (str "0000000A0000") Amount.COIN [[9]]) c' (Ok tt) s'.
Proof.
  destruct (TokenLeave_spelling 4 5 pid4 pid5 ltac:(done) adm (str "0000000a0000") (str "0000000A0000") Amount.COIN [[9]]
    (ASingle (mkSingle adm (str "admin") [9])) c0 (abs c0)) as (s' & Hd & H).
  - exact till_at.
  - done.
  - vm_compute. reflexivity.
  - by vm_compute.
  - vm_compute. reflexivity.
  - exists (10, 0). vm_compute. reflexivity.
  - vm_compute. reflexivity.
  - vm_compute. reflexivity.
  - vm_compute. reflexivity.
  - exists s'. split; [exact Hd|]. intros c' Hc'. exact (H c' Hc').
Defined.

End PaymentExamples.
