(* ===== verification/VaultExamples.v ===== *)
(** * process/vault: the theorems at work

    A small chain state: two accounts, the vault under process identifier 1,
    events that are their own number.  The witnesses instantiate the vault
    theorems there; the last example follows a payment that is lost because
    the receiver's balance was emptied earlier in the same layer. *)

From S2P Require Import Prelude Amount Common Context ContextSpec ContextTrace Vault VaultSpec DataRun VaultLocked.

Module VaultExamples.

#[local] Instance number_event : EventI Z.
Proof. by refine {| ev_N e := e; ev_SetN n _ := n |}. Defined.
#[local] Existing Instance toy_base58.

(** A policy codec: the bytes of the creation amount, after a marker. *)
#[local] Instance toy_codec : PolicyCodec := {|
  marshal_policy p := match p with Some p => Ok (7 :: Amount.Bytes (AccountCreationAmount p)) | None => Ok [0] end;
  unmarshal_policy bs :=
    match bs with
    | 7 :: bs => Ok (Some (mkPolicy (Amount.NewAmountFromBytes bs)))
    | [0] => Ok None
    | _ => Err (ErrExternal 1)
    end |}.

Definition ld0 : Loader account := {|
  ld_ChainID := 1; ld_Name := []; ld_Version := 1; ld_TargetHeight := 5;
  ld_LastHash := []; ld_LastTimestamp := 0;
  ld_Account _ := Err ErrNotExistAccount; ld_AddressByName _ := Err ErrNotExistAccount;
  ld_HasAccount _ := Ok false; ld_HasAccountName _ := Ok false; ld_AccountData _ _ _ := [];
  ld_HasUTXO _ := Ok false; ld_UTXO _ := Err ErrNotExistUTXO;
  ld_ProcessData _ _ := []; ld_HasTimeSlot _ _ := false |}.

Abbreviation c0 := (NewContext (A:=account) (E:=Z) ld0).
Lemma c0_wf : wf c0.
Proof. apply NewContext_wf. by split. Qed.

Definition alice : Address := NewAddress 1 0 77.
Definition bob : Address := NewAddress 1 1 77.
Definition pid1 : valid_pid 1 := conj (bool_decide_unpack (0 ≤ 1) I) (bool_decide_unpack (1 < 256) I).

(** Alice has ten coins; the policy asks one coin for an account. *)
Definition c1 : Ctx account Z :=
  (SetProcessData 1 tagPolicy (7 :: Amount.Bytes Amount.COIN)
    (SetAccountData alice 1 tagBalance (Amount.Bytes (10 * Amount.COIN)) c0).2).2.

Lemma c1_spec :
  wf c1 ∧ abs c1 ≡ abs_set_process_data 1 tagPolicy (7 :: Amount.Bytes Amount.COIN)
                     (set_bal 1 alice (10 * Amount.COIN) (abs c0)).
Proof.
  unfold c1.
  destruct (trace_SetAccountData c0 alice 1 tagBalance (Amount.Bytes (10 * Amount.COIN)) eq_refl pid1 c0_wf)
    as (c' & Hr & He & Ht). rewrite Hr. simpl.
  destruct (trace_SetProcessData c' 1 tagPolicy (7 :: Amount.Bytes Amount.COIN) pid1
    (ts_wf _ _ (tr_step _ _ _ _ Ht))) as (c2 & Hr2 & He2 & Ht2). rewrite Hr2.
  split; [apply Ht2|]. simpl. by rewrite He2, He.
Qed.

Lemma c1_bal a : valid_addr a → bal 1 (abs c1) a = if decide (a = alice) then 10 * Amount.COIN else 0.
Proof.
  intros Ha. destruct c1_spec as [_ He].
  rewrite (bal_proper 1 pid1 _ (abs_set_process_data 1 tagPolicy (7 :: Amount.Bytes Amount.COIN)
    (set_bal 1 alice (10 * Amount.COIN) (abs c0))) a Ha) by (by rewrite He).
  change (bal 1 (set_bal 1 alice (10 * Amount.COIN) (abs c0)) a =
    (if decide (a = alice) is left _ then 10 * Amount.COIN else 0)).
  rewrite bal_set_bal by (by vm_compute). by case_decide.
Qed.

Lemma c1_ledger : ledger_ok 1 (abs c1).
Proof.
  split.
  - intros a Ha. rewrite c1_bal by done. case_decide; by vm_compute.
  - by vm_compute.
  - by vm_compute.
Qed.

Lemma c1_fee : dfee 1 (abs c1) = tenth.
Proof. by vm_compute. Qed.

Lemma alice_bal : bal 1 (abs c1) alice = 10 * Amount.COIN.
Proof. by rewrite c1_bal. Qed.

Lemma Transfer_executes_witness :
  ∃ c', vault_Execute 1 77 (Transfer 0 alice bob (3 * Amount.COIN)) 0 c1 = (Ok tt, c') ∧ wf c' ∧
    transferred 1 alice bob (3 * Amount.COIN) (dfee 1 (abs c1)) (abs c1) (abs c').
Proof.
  apply (Transfer_executes 1 77 pid1).
  - apply c1_spec.
  - apply c1_ledger.
  - reflexivity.
  - reflexivity.
  - by vm_compute.
  - rewrite alice_bal, c1_fee. by vm_compute.
  - by vm_compute.
Defined.

Lemma Transfer_refused_witness :
  ∃ c', vault_Execute 1 77 (Transfer 0 alice bob (10 * Amount.COIN)) 0 c1 = (Err ErrMinusBalance, c') ∧ wf c' ∧
    noslot (abs c') ≡ noslot (if bool_decide (bal 1 (abs c1) alice < dfee 1 (abs c1)) then abs c1
                              else charge 1 alice (dfee 1 (abs c1)) (abs c1)).
Proof.
  apply (Transfer_refused 1 77 pid1).
  - apply c1_spec.
  - reflexivity.
  - reflexivity.
  - rewrite alice_bal, c1_fee. by vm_compute.
  - by vm_compute.
Defined.

(** Alice can pay three coins, and can not pay twelve. *)
Lemma Transfer_conserves_witness :
  (∃ c', vault_Execute 1 77 (Transfer 0 alice bob (3 * Amount.COIN)) 0 c1 = (Ok tt, c') ∧
    total 1 (abs c') [alice; bob] + fees 1 (abs c') = total 1 (abs c1) [alice; bob] + fees 1 (abs c1)) ∧
  (∃ c', vault_Execute 1 77 (Transfer 0 alice bob (12 * Amount.COIN)) 0 c1 = (Err ErrMinusBalance, c') ∧
    total 1 (abs c') [alice; bob] + fees 1 (abs c') = total 1 (abs c1) [alice; bob] + fees 1 (abs c1)).
Proof.
  assert (Hnd : NoDup [alice; bob]) by (apply (bool_decide_unpack _); by vm_compute).
  assert (Hv : Forall valid_addr [alice; bob]) by by repeat constructor.
  assert (Hm : ¬ marked (bkey 1 bob) c1) by by vm_compute.
  split.
  - refine (Transfer_conserves 1 77 pid1 0 alice bob (3 * Amount.COIN) 0 c1 [alice; bob] (proj1 c1_spec) c1_ledger
      eq_refl eq_refl _ Hm Hnd Hv _ _); [by vm_compute|constructor|right; constructor].
  - refine (Transfer_conserves 1 77 pid1 0 alice bob (12 * Amount.COIN) 0 c1 [alice; bob] (proj1 c1_spec) c1_ledger
      eq_refl eq_refl _ Hm Hnd Hv _ _); [by vm_compute|constructor|right; constructor].
Defined.

(** Bob has a coin and sends it away, and the mark stays in the layer; then
    Alice sends him three coins, which are gone. *)
Example transfer_to_emptied :
  let c2 := (SubBalance 1 bob Amount.COIN (AddBalance 1 bob Amount.COIN c1).2).2 in
  let '(r, c3) := vault_Execute 1 77 (Transfer 0 alice bob (3 * Amount.COIN)) 0 c2 in
  r = Ok tt ∧
  total 1 (abs c3) [alice; bob] + fees 1 (abs c3) = total 1 (abs c2) [alice; bob] + fees 1 (abs c2) - 3 * Amount.COIN.
Proof. vm_compute. split; reflexivity. Qed.

Lemma CreateAccount_executes_witness :
  ∃ c', vault_Execute 1 77 (TxCreateAccount 0 alice (str "carol") [9]) 4 c1 = (Ok tt, c') ∧ wf c' ∧
    view_Account c' (NewAddress 5 4 77) = Ok (ASingle (mkSingle (NewAddress 5 4 77) (str "carol") [9])) ∧
    fees 1 (abs c') = fees 1 (abs c1) + dfee 1 (abs c1) + Amount.COIN.
Proof.
  destruct (CreateAccount_executes 1 77 pid1 0 alice (str "carol") [9] 4 (mkPolicy Amount.COIN) c1)
    as (c' & Hr & Hwf & HA & _ & _ & Hf).
  - apply c1_spec.
  - apply c1_ledger.
  - reflexivity.
  - vm_compute. reflexivity.
  - by vm_compute.
  - by vm_compute.
  - rewrite alice_bal, c1_fee. by vm_compute.
  - by vm_compute.
  - vm_compute. reflexivity.
  - vm_compute. reflexivity.
  - vm_compute. reflexivity.
  - by vm_compute.
  - exists c'. split; [exact Hr|]. split; [exact Hwf|]. split; [|exact Hf].
    rewrite HA. change (genTargetHeight c1) with 5. by rewrite decide_True.
Defined.

(** Alice's address carries the magic number 77: its transfers do not survive
    the wire. *)
Lemma Transfer_wire_roundtrip_witness :
  Transfer_decode (Transfer_encode 0 alice bob 5) ≠ Transfer 0 alice bob 5.
Proof.
  intros H. apply (Transfer_wire_roundtrip 0 alice bob 5) in H as [H _];
    [by vm_compute in H|reflexivity|reflexivity|by vm_compute].
Defined.

(** An account with two required signatures of three owners. *)
Lemma multi_Validate_exact_witness :
  multi_Validate (mkMulti bob (str "m") 2 [[1]; [2]; [3]]) [[1]; [2]; [3]] = Err ErrInvalidAccountSigner ∧
  multi_Validate (mkMulti bob (str "m") 2 [[1]; [2]; [3]]) [[1]; [2]; [9]] = Ok tt.
Proof.
  split.
  - apply (multi_Validate_exact (mkMulti bob (str "m") 2 [[1]; [2]; [3]])); [reflexivity|by vm_compute].
  - apply (multi_Validate_exact (mkMulti bob (str "m") 2 [[1]; [2]; [3]])). split; vm_compute; reflexivity.
Defined.

(** ** Locked balances *)

Definition range0 (m : gmap Address Z) : list (Address * Z) := map_to_list m.

(** Bob is an account; nothing is locked at height 5. *)
Definition ld1 : Loader account := {|
  ld_ChainID := 1; ld_Name := []; ld_Version := 1; ld_TargetHeight := 5;
  ld_LastHash := []; ld_LastTimestamp := 0;
  ld_Account a := if decide (a = bob) then Ok (ASingle (mkSingle bob (str "bob") [2])) else Err ErrNotExistAccount;
  ld_AddressByName _ := Err ErrNotExistAccount;
  ld_HasAccount a := Ok (bool_decide (a = bob)); ld_HasAccountName _ := Ok false;
  ld_AccountData _ _ _ := [];
  ld_HasUTXO _ := Ok false; ld_UTXO _ := Err ErrNotExistUTXO;
  ld_ProcessData _ _ := []; ld_HasTimeSlot _ _ := false |}.
Abbreviation c2 := (NewContext (A:=account) (E:=Z) ld1).

Lemma c2_at : at_state c2 (abs c2).
Proof.
  split; [|done|done]. apply NewContext_wf. split; simpl; intros; [|done].
  case_decide; simplify_eq. by rewrite bool_decide_eq_true_2.
Qed.

Lemma c2_table : table 1 5 [] (abs c2).
Proof. split; try done. apply NoDup_nil_2. Qed.

Lemma u32_5 : is_u32 5.
Proof. by split. Qed.

Lemma AddLockedBalance_table_witness :
  ∃ s', does (AddLockedBalance 1 bob 5 12) c2 (Ok tt) s' ∧ table 1 5 [bob] s' ∧
    (∀ b, lk 1 5 s' b = lk 1 5 (abs c2) b + if decide (b = bob) then 12 else 0).
Proof.
  destruct (AddLockedBalance_table 1 pid1 5 u32_5 [] bob 12 c2 (abs c2) c2_at c2_table)
    as (s' & H1 & H2 & H3 & _); [reflexivity|done|by vm_compute|by vm_compute|by vm_compute|].
  by exists s'.
Defined.

Lemma AfterExecuteTransactions_pays_witness :
  ∃ s', does (AddLockedBalance 1 bob 5 12 ;; AfterExecuteTransactions 1 range0 5) c2 (Ok tt) s' ∧
    bal 1 s' bob = 12.
Proof.
  destruct (does_AddLockedBalance 1 pid1 5 u32_5 [] bob 12 c2 (abs c2) c2_at c2_table)
    as (s1 & H1 & Htb & Hlk & Hls & Hb & Hha); [reflexivity|done|by vm_compute|by vm_compute|by vm_compute|].
  assert (Hh : abs_HasAccount s1 bob = Ok true) by (rewrite Hha; by vm_compute).
  destruct H1 as (c' & Hr & Hl & Hat).
  destruct (AfterExecuteTransactions_pays 1 pid1 range0 5 [bob] c' s1) as (s' & H2 & _ & Hbal & _).
  - done.
  - exact u32_5.
  - done.
  - exact Htb.
  - by vm_compute.
  - intros a ->%list_elem_of_singleton. rewrite Hlk, Hls, Hb. split_and!; [|by vm_compute..].
    exists true. exact Hh.
  - exists s'. destruct H2 as (c3 & Hr3 & Hl3 & H3). split.
    + exists c3. split; [|split; [by eapply leads_trans|done]]. unfold mbind, M_bind. by rewrite Hr.
    + rewrite Hbal, decide_True by constructor. rewrite Hlk, Hb. unfold has_account. by rewrite Hh.
Defined.

End VaultExamples.
