(* ===== verification/Queue.v ===== *)
(** * common/queue: the paged queue

    queue.go: a queue of pages, each a ring of 1024 places.  A page comes from
    a [sync.Pool], which returns either a new page or one that was put back;
    the page that [Push] may take is an argument.  The theorem shows that the
    pages are a plain first-in-first-out list. *)

From S2P Require Import Prelude.

Section Queue.
Context {V : Type}.

(** A value of [interface{}]: [None] is [nil]. *)
Abbreviation item := (option V).

Definition page_cap : nat := 1024.

Record queuePage := mkPage {
  pg_queue : list item;
  pg_head : nat;
  pg_tail : nat;
  pg_size : nat;
}.
Definition new_page : queuePage := mkPage (replicate page_cap None) 0 0 0.

(** An array index out of range is a panic in Go; the ring stays in range. *)
Definition slot_at (p : queuePage) (i : nat) : item := default None (pg_queue p !! i).

Definition page_push (x : item) (p : queuePage) : res unit * queuePage :=
  if (page_cap <=? pg_size p)%nat then (Err ErrFullQueue, p)
  else (Ok tt, mkPage (<[pg_tail p := x]> (pg_queue p)) (pg_head p) ((pg_tail p + 1) mod page_cap) (S (pg_size p))).

Definition page_peek (p : queuePage) : item :=
  if (pg_size p =? 0)%nat then None else slot_at p (pg_head p).

Definition page_pop (p : queuePage) : item * queuePage :=
  if (pg_size p =? 0)%nat then (None, p)
  else (slot_at p (pg_head p), mkPage (pg_queue p) ((pg_head p + 1) mod page_cap) (pg_tail p) (pg_size p - 1)).

(** The values that [iter] passes to the callback, in order. *)
Definition page_iter (p : queuePage) : list item :=
  (λ i, slot_at p ((pg_head p + i) mod page_cap)) <$> seq 0 (pg_size p).

Record Queue := mkQueue { q_pages : list queuePage; q_size : nat }.
Definition NewQueue : Queue := mkQueue [] 0.

(** The error of [page.push] is ignored by the code. *)
Definition Push (pool : queuePage) (x : item) (q : Queue) : Queue :=
  match last (q_pages q) with
  | None => mkQueue [(page_push x pool).2] (S (q_size q))
  | Some page =>
      if (pg_size page =? page_cap)%nat
      then mkQueue (q_pages q ++ [(page_push x pool).2]) (S (q_size q))
      else mkQueue (removelast (q_pages q) ++ [(page_push x page).2]) (S (q_size q))
  end.

Definition Peek (q : Queue) : item :=
  match q_pages q with [] => None | page :: _ => page_peek page end.

(** The item, the page that goes back to the pool, and the queue. *)
Definition Pop (q : Queue) : item * option queuePage * Queue :=
  match q_pages q with
  | [] => (None, None, q)
  | page :: pages =>
      let '(x, page) := page_pop page in
      match x with
      | None => (None, None, mkQueue (page :: pages) (q_size q))
      | Some _ =>
          if (pg_size page =? 0)%nat && (1 <? length (q_pages q))%nat
          then (x, Some page, mkQueue pages (q_size q - 1))
          else (x, None, mkQueue (page :: pages) (q_size q - 1))
      end
  end.

Definition Size (q : Queue) : nat := q_size q.
Definition Iter (q : Queue) : list item := q_pages q ≫= page_iter.

(** ** Pages *)

Record page_ok (p : queuePage) : Prop := {
  po_length : length (pg_queue p) = page_cap;
  po_head : (pg_head p < page_cap)%nat;
  po_tail : pg_tail p = ((pg_head p + pg_size p) mod page_cap)%nat;
  po_size : (pg_size p ≤ page_cap)%nat;
}.

Lemma cap_pos : (0 < page_cap)%nat.
Proof. unfold page_cap. lia. Qed.

Lemma new_page_ok : page_ok new_page.
Proof.
  split; cbn [new_page pg_queue pg_head pg_tail pg_size].
  - apply length_replicate.
  - apply cap_pos.
  - symmetry. apply Nat.Div0.mod_0_l.
  - apply Nat.le_0_l.
Qed.

Lemma ring_inj h i j : (i < page_cap)%nat → (j < page_cap)%nat →
  ((h + i) mod page_cap = (h + j) mod page_cap)%nat → i = j.
Proof.
  intros Hi Hj He. pose proof cap_pos as Hc.
  pose proof (Nat.div_mod (h + i) page_cap ltac:(lia)) as D1.
  pose proof (Nat.div_mod (h + j) page_cap ltac:(lia)) as D2. rewrite He in D1.
  set (a := ((h + i) / page_cap)%nat) in *. set (b := ((h + j) / page_cap)%nat) in *. clearbody a b.
  generalize dependent page_cap. intros c Hi Hj He Hc D1 D2.
  destruct (Nat.lt_total a b) as [Hlt|[->|Hlt]]; [nia|lia|nia].
Qed.

Lemma page_push_ok x p : page_ok p → (pg_size p < page_cap)%nat →
  page_ok (page_push x p).2 ∧ page_iter (page_push x p).2 = page_iter p ++ [x].
Proof.
  intros [Hl Hh Ht Hs] Hlt. pose proof cap_pos as Hc. unfold page_push.
  destruct (Nat.leb_spec page_cap (pg_size p)); [lia|]. cbn [snd]. split.
  - split; cbn [pg_queue pg_head pg_tail pg_size]; [by rewrite length_insert|done| |lia].
    rewrite Ht. rewrite Nat.Div0.add_mod_idemp_l. f_equal. lia.
  - unfold page_iter. cbn [pg_head pg_size]. rewrite seq_S, fmap_app. cbn [fmap list_fmap].
    assert (Htl : (pg_tail p < length (pg_queue p))%nat) by (rewrite Hl, Ht; apply Nat.mod_upper_bound; lia).
    f_equal.
    + apply list_fmap_ext. intros k i [-> Hi]%lookup_seq. unfold slot_at. cbn [pg_queue].
      rewrite list_lookup_insert_ne; [done|]. rewrite Ht. intros He. apply ring_inj in He; lia.
    + unfold slot_at. cbn [pg_queue]. rewrite Nat.add_0_l, <- Ht. by rewrite list_lookup_insert_eq.
Qed.

Lemma page_iter_length p : length (page_iter p) = pg_size p.
Proof. unfold page_iter. by rewrite length_fmap, length_seq. Qed.

Lemma page_iter_head p : page_ok p → (0 < pg_size p)%nat →
  page_iter p = slot_at p (pg_head p) :: page_iter (page_pop p).2 ∧ page_ok (page_pop p).2 ∧
  (page_pop p).1 = slot_at p (pg_head p) ∧ pg_size (page_pop p).2 = (pg_size p - 1)%nat.
Proof.
  intros [Hl Hh Ht Hs] Hpos. pose proof cap_pos as Hc. unfold page_pop.
  destruct (Nat.eqb_spec (pg_size p) 0) as [?|_]; [lia|]. cbn [fst snd]. split_and!; [|split|done|done].
  - unfold page_iter. cbn [pg_head pg_size]. destruct (pg_size p) as [|k] eqn:En; [lia|].
    cbn [seq fmap list_fmap]. f_equal; [by rewrite Nat.add_0_r, Nat.mod_small|].
    rewrite Nat.sub_succ, Nat.sub_0_r, <- fmap_S_seq, <- list_fmap_compose. apply list_fmap_ext. intros j i _.
    unfold compose, slot_at. cbn [pg_queue]. rewrite Nat.Div0.add_mod_idemp_l. by replace (pg_head p + 1 + i)%nat with (pg_head p + S i)%nat by lia.
  - done.
  - cbn [pg_head]. apply Nat.mod_upper_bound. lia.
  - cbn [pg_tail pg_head pg_size]. rewrite Ht, Nat.Div0.add_mod_idemp_l. f_equal. lia.
  - cbn [pg_size]. lia.
Qed.

(** ** The queue *)

(** Pages the pool may return. *)
Definition pooled (p : queuePage) : Prop := page_ok p ∧ pg_size p = 0%nat.

Record queue_ok (q : Queue) : Prop := {
  qo_pages : Forall page_ok (q_pages q);
  qo_filled : (length (q_pages q) ≤ 1)%nat ∨ Forall (λ p, (0 < pg_size p)%nat) (q_pages q);
  qo_size : q_size q = length (Iter q);
}.

Lemma NewQueue_ok : queue_ok NewQueue.
Proof. split; [done|left; simpl; lia|done]. Qed.

Lemma pooled_push x p : pooled p →
  page_ok (page_push x p).2 ∧ page_iter (page_push x p).2 = [x] ∧ pg_size (page_push x p).2 = 1%nat.
Proof.
  intros [Hok Hs]. pose proof cap_pos as Hc. destruct (page_push_ok x p Hok) as [H1 H2]; [lia|].
  assert (page_iter p = []) as E by (apply nil_length_inv; by rewrite page_iter_length). rewrite E in H2.
  split_and!; [done|done|]. rewrite <- page_iter_length, H2. done.
Qed.

Lemma Push_spec pool x q :
  queue_ok q → pooled pool → queue_ok (Push pool x q) ∧ Iter (Push pool x q) = Iter q ++ [x].
Proof.
  intros [Hp Hf Hs] Hpool. destruct (pooled_push x pool Hpool) as (N1 & N2 & N3). pose proof cap_pos as Hc.
  unfold Push. destruct (snoc_view (q_pages q)) as [Eq|(ps & p0 & Eq)].
  { assert (EI : Iter q = []) by (unfold Iter; by rewrite Eq). rewrite Eq. cbn [last].
    assert (EJ : Iter (mkQueue [(page_push x pool).2] (S (q_size q))) = [x]).
    { unfold Iter. cbn [q_pages]. rewrite bind_cons, N2. done. }
    split; [|by rewrite EI, EJ]. split; cbn [q_pages q_size].
    - by apply Forall_singleton.
    - left. simpl. lia.
    - by rewrite EJ, Hs, EI. }
  rewrite Eq in *.
  rewrite last_snoc. apply Forall_app in Hp as [Hps Hp0]. rewrite Forall_singleton in Hp0.
  assert (EI : Iter q = (ps ≫= page_iter) ++ page_iter p0).
  { unfold Iter. by rewrite Eq, bind_app, bind_cons, app_nil_r. }
  destruct (Nat.eqb_spec (pg_size p0) page_cap) as [Hfull|Hfull].
  - assert (EJ : Iter (mkQueue ((ps ++ [p0]) ++ [(page_push x pool).2]) (S (q_size q))) = Iter q ++ [x]).
    { unfold Iter at 1. cbn [q_pages]. rewrite !bind_app, !bind_cons, !app_nil_r, N2, EI. done. }
    split; [|done]. split; cbn [q_pages q_size].
    + rewrite !Forall_app, !Forall_singleton.
      by split_and!.
    + right. apply Forall_app. split; [|apply Forall_singleton; rewrite N3; lia].
      destruct Hf as [Hl|Hf]; [|done]. rewrite length_app in Hl. destruct ps; [|simpl in Hl; lia].
      apply Forall_singleton. lia.
    + rewrite EJ, length_app, Hs. simpl. lia.
  - assert (Hlt : (pg_size p0 < page_cap)%nat) by (pose proof (po_size _ Hp0); lia).
    destruct (page_push_ok x p0 Hp0 Hlt) as [M1 M2].
    replace (removelast (ps ++ [p0])) with ps by (by rewrite removelast_app, app_nil_r).
    assert (EJ : Iter (mkQueue (ps ++ [(page_push x p0).2]) (S (q_size q))) = Iter q ++ [x]).
    { unfold Iter at 1. cbn [q_pages]. rewrite bind_app, bind_cons, app_nil_r, M2, EI. by rewrite app_assoc. }
    split; [|done]. split; cbn [q_pages q_size].
    + apply Forall_app_2; [done|by apply Forall_singleton].
    + destruct Hf as [Hl|Hf]; [left; by rewrite length_app in *|right].
      apply Forall_app in Hf as [Hf _]. apply Forall_app_2; [done|]. apply Forall_singleton.
      rewrite <- page_iter_length, M2, length_app. simpl. lia.
    + rewrite EJ, length_app, Hs. simpl. lia.
Qed.

Lemma Pop_empty q : queue_ok q → Iter q = [] → (Pop q).1 = (None, None) ∧ queue_ok (Pop q).2 ∧ Iter (Pop q).2 = [].
Proof.
  intros Hok HI. pose proof Hok as [Hp Hf Hs]. unfold Pop. destruct (q_pages q) as [|p ps] eqn:Eq; [done|].
  unfold Iter in HI. rewrite Eq, bind_cons in HI. apply app_eq_nil in HI as [HI1 HI2].
  assert (pg_size p = 0%nat) as E0 by (by rewrite <- page_iter_length, HI1).
  unfold page_pop. rewrite E0. cbn [Nat.eqb fst snd]. split; [done|].
  replace (mkQueue (p :: ps) (q_size q)) with q by (destruct q; simpl in *; by subst).
  split; [done|]. unfold Iter. by rewrite Eq, bind_cons, HI1, HI2.
Qed.

Lemma Pop_spec q x l :
  queue_ok q → Iter q = Some x :: l →
  ∃ back q', Pop q = (Some x, back, q') ∧ queue_ok q' ∧ Iter q' = l ∧ (∀ p, back = Some p → pooled p).
Proof.
  intros [Hp Hf Hs] HI. unfold Pop. destruct (q_pages q) as [|p ps] eqn:Eq.
  { unfold Iter in HI. by rewrite Eq in HI. }
  assert (HI' : page_iter p ++ (ps ≫= page_iter) = Some x :: l) by (rewrite <- HI; unfold Iter; by rewrite Eq, bind_cons).
  apply Forall_cons in Hp as [Hp0 Hps].
  assert (Hpos : (0 < pg_size p)%nat).
  { destruct Hf as [Hl|Hf]; [|by apply Forall_inv in Hf]. destruct ps; [|simpl in Hl; lia].
    cbn in HI'. rewrite app_nil_r in HI'. rewrite <- page_iter_length, HI'. simpl. lia. }
  destruct (page_iter_head p Hp0 Hpos) as (H1 & H2 & H3 & H4). rewrite H1 in HI'. injection HI' as Hx HI'.
  destruct (page_pop p) as [y p'] eqn:Ep. cbn [fst snd] in *. rewrite H3, Hx.
  assert (Hsz : (q_size q - 1)%nat = length l) by (rewrite Hs, HI; simpl; lia).
  destruct (Nat.eqb_spec (pg_size p') 0) as [E0|E0]; cbn [andb].
  - destruct (Nat.ltb_spec 1 (length (p :: ps))) as [Hl|Hl].
    + assert (page_iter p' = []) as En by (apply nil_length_inv; by rewrite page_iter_length).
      rewrite En, app_nil_l in HI'. eexists _, _. split; [done|]. split; [|split; [done|]].
      * split; cbn [q_pages q_size]; [done| |].
        { destruct Hf as [Hf|Hf]; [simpl in *; lia|]. right. by apply Forall_inv_tail in Hf. }
        { unfold Iter. cbn [q_pages]. by rewrite HI'. }
      * intros p2 [= <-]. by split.
    + eexists _, _. split; [done|]. destruct ps; [|simpl in Hl; lia].
      split; [|split; [|done]]; [split; cbn [q_pages q_size]; [by apply Forall_singleton|left; simpl; lia|]|].
      * unfold Iter. cbn [q_pages]. rewrite bind_cons. by rewrite HI'.
      * unfold Iter. cbn [q_pages]. rewrite bind_cons. done.
  - eexists _, _. split; [done|]. split; [|split; [|done]]; [split; cbn [q_pages q_size]; [by constructor| |]|].
    + destruct Hf as [Hf|Hf]; [by left|right]. constructor; [lia|]. by apply Forall_inv_tail in Hf.
    + unfold Iter. cbn [q_pages]. rewrite bind_cons. by rewrite HI'.
    + unfold Iter. cbn [q_pages]. rewrite bind_cons. done.
Qed.

Lemma Peek_spec q : queue_ok q → Peek q = default None (head (Iter q)).
Proof.
  intros [Hp Hf _]. unfold Peek, Iter. destruct (q_pages q) as [|p ps]; [done|]. rewrite bind_cons.
  apply Forall_cons in Hp as [Hp0 Hps]. unfold page_peek.
  destruct (Nat.eqb_spec (pg_size p) 0) as [E0|E0].
  - assert (page_iter p = []) as -> by (apply nil_length_inv; by rewrite page_iter_length).
    destruct Hf as [Hl|Hf]; [|apply Forall_inv in Hf; lia]. by destruct ps; [|simpl in Hl; lia].
  - destruct (page_iter_head p Hp0) as (H1 & _); [lia|]. by rewrite H1.
Qed.

(** The paged queue is a first-in-first-out queue.  For a queue of the
    invariant with the items [l] in it, none of them nil: [Push] with any page
    of the pool appends, [Peek] and [Pop] give the first item, [Pop] removes
    it and puts only empty pages back into the pool, [Size] is the number of
    items, and the invariant is kept. *)
Theorem queue_fifo q (l : list V) :
  queue_ok q → Iter q = Some <$> l →
  Size q = length l ∧ Peek q = head l ∧
  (∀ pool x, pooled pool →
     queue_ok (Push pool (Some x) q) ∧ Iter (Push pool (Some x) q) = Some <$> (l ++ [x])) ∧
  ∃ back q', Pop q = (head l, back, q') ∧ queue_ok q' ∧ Iter q' = Some <$> tail l ∧ (∀ p, back = Some p → pooled p).
Proof.
  intros Hok HI. split_and!.
  - unfold Size. rewrite (qo_size _ Hok), HI. apply length_fmap.
  - rewrite (Peek_spec q Hok), HI. by destruct l.
  - intros pool x Hpool. destruct (Push_spec pool (Some x) q Hok Hpool) as [H1 H2]. split; [done|].
    by rewrite H2, HI, fmap_app.
  - destruct l as [|x l].
    + destruct (Pop_empty q Hok HI) as (H1 & H2 & H3). destruct (Pop q) as [[x back] q']. injection H1 as -> ->.
      by exists None, q'.
    + destruct (Pop_spec q x _ Hok HI) as (back & q' & H). exists back, q'. done.
Qed.
End Queue.

Module QueueExamples.
Definition q2 : Queue (V := Z) := Push new_page (Some 8) (Push new_page (Some 7) NewQueue).

Lemma new_page_pooled : pooled (V := Z) new_page.
Proof. split; [apply new_page_ok|done]. Qed.

Lemma q2_ok : queue_ok q2 ∧ Iter q2 = Some <$> [7; 8].
Proof.
  destruct (Push_spec new_page (Some 7) NewQueue NewQueue_ok new_page_pooled) as [H1 E1].
  destruct (Push_spec new_page (Some 8) _ H1 new_page_pooled) as [H2 E2]. split; [done|].
  unfold q2. by rewrite E2, E1.
Qed.

Lemma queue_fifo_witness :
  ∃ back q', Pop q2 = (Some 7, back, q') ∧ queue_ok q' ∧ Iter q' = [Some 8] ∧ (∀ p, back = Some p → pooled p).
Proof. apply (queue_fifo q2 [7; 8]); [exact (proj1 q2_ok)|exact (proj2 q2_ok)]. Defined.

(** A nil item is removed but still counted. *)
Example nil_counted :
  let q := Push new_page None (NewQueue (V := Z)) in
  (Pop q).1.1 = None ∧ Iter (Pop q).2 = [] ∧ Size (Pop q).2 = 1%nat.
Proof. by vm_compute. Qed.
End QueueExamples.
