(* ===== verification/LinkedQueue.v ===== *)
(** * common/queue: the linked queue

    linked.go: a doubly linked list of items with a map from keys to nodes, so
    that an item can be removed by its key.  The nodes live in a heap of the
    queue's own (no node is shared between queues), so that the updates of
    [Prev] and [Next] through pointers are written as the code has them; a nil
    pointer that is followed is a panic.

    [KeyedQueue] is the interface that the transaction pool uses, with the
    abstract queue that its laws refer to; the theorem of this file says that
    the linked list implements it, and the instance at the end hands it to the
    pool. *)

From S2P Require Import Prelude.

(** ** The interface *)

(** The abstract queue: the items in order and the items whose key is still
    occupied although they were removed. *)
Record absq (K V : Type) `{Countable K} := mkAbsq { aq_items : list (K * V); aq_removed : gmap K V }.
Arguments mkAbsq {K V _ _} _ _.
Arguments aq_items {K V _ _} _.
Arguments aq_removed {K V _ _} _.

Section Spec.
Context {K V : Type} `{Countable K}.

Definition key_of (k : K) (l : list (K * V)) : option V := snd <$> head (filter (λ e, e.1 = k) l).
Definition occupied (k : K) (a : absq K V) : bool := bool_decide (k ∈ (aq_items a).*1) || bool_decide (is_Some (aq_removed a !! k)).

Definition spec_Push (k : K) (v : V) (a : absq K V) : bool * absq K V :=
  if occupied k a then (false, a) else (true, mkAbsq (aq_items a ++ [(k, v)]) (aq_removed a)).
Definition spec_Pop (a : absq K V) : option V * absq K V :=
  match aq_items a with
  | [] => (None, a)
  | (k, v) :: l => (Some v, mkAbsq l (aq_removed a))
  end.
Definition spec_Remove (k : K) (a : absq K V) : option V * absq K V :=
  match aq_items a with
  | [] => (None, a)
  | _ =>
      match key_of k (aq_items a) with
      | Some v => (Some v, mkAbsq (filter (λ e, e.1 ≠ k) (aq_items a)) (<[k := v]> (aq_removed a)))
      | None => (aq_removed a !! k, a)
      end
  end.
Definition spec_Size (a : absq K V) : nat := (length (aq_items a) + size (aq_removed a))%nat.
End Spec.

Class KeyedQueue (K V Q : Type) := {
  kq_New : Q;
  kq_Push : K → V → M Q bool;
  kq_Pop : M Q (option V);
  kq_Remove : K → M Q (option V);
  kq_Iter : Q → list (K * V);
}.

(** What the pool relies on: each operation returns (none panics) what the
    abstract queue returns and leaves a queue that represents its result. *)
Class KeyedQueueLaws (K V Q : Type) `{Countable K} `{KeyedQueue K V Q} := {
  kq_rep : Q → absq K V → Prop;
  kq_New_rep : kq_rep kq_New (mkAbsq [] ∅);
  kq_Push_rep q a k v : kq_rep q a → ∃ q', kq_Push k v q = (Ok (spec_Push k v a).1, q') ∧ kq_rep q' (spec_Push k v a).2;
  kq_Pop_rep q a : kq_rep q a → ∃ q', kq_Pop q = (Ok (spec_Pop a).1, q') ∧ kq_rep q' (spec_Pop a).2;
  kq_Remove_rep q a k : kq_rep q a → ∃ q', kq_Remove k q = (Ok (spec_Remove k a).1, q') ∧ kq_rep q' (spec_Remove k a).2;
  kq_Iter_rep q a : kq_rep q a → kq_Iter q = aq_items a;
  kq_keys q a : kq_rep q a → NoDup (aq_items a).*1 ∧ (∀ k, k ∈ (aq_items a).*1 → aq_removed a !! k = None);
}.

(** ** The linked list *)

Section LinkedQueue.
Context {K V : Type} `{Countable K}.

(** A pointer to a node; [None] is nil. *)
Abbreviation ptr := (option nat).

Record linkedItem := mkNode { li_Prev : ptr; li_Key : K; li_Item : V; li_Next : ptr }.
Record LinkedQueue := mkLQ {
  lq_Head : ptr;
  lq_Tail : ptr;
  lq_keyMap : gmap K nat;
  lq_heap : gmap nat linkedItem;
  lq_fresh : nat;
}.
Definition NewLinkedQueue : LinkedQueue := mkLQ None None ∅ ∅ 0.

(** *** Memory *)

Definition with_Prev (x : ptr) (n : linkedItem) : linkedItem := mkNode x (li_Key n) (li_Item n) (li_Next n).
Definition with_Next (x : ptr) (n : linkedItem) : linkedItem := mkNode (li_Prev n) (li_Key n) (li_Item n) x.
Definition on_heap (f : gmap nat linkedItem → gmap nat linkedItem) (q : LinkedQueue) : LinkedQueue :=
  mkLQ (lq_Head q) (lq_Tail q) (lq_keyMap q) (f (lq_heap q)) (lq_fresh q).

Definition load (p : nat) : M LinkedQueue linkedItem := λ q, (of_option (lq_heap q !! p), q).
Definition set_Prev (p : nat) (x : ptr) : M LinkedQueue unit := modify (on_heap (alter (with_Prev x) p)).
Definition set_Next (p : nat) (x : ptr) : M LinkedQueue unit := modify (on_heap (alter (with_Next x) p)).
Definition set_Head (x : ptr) : M LinkedQueue unit :=
  modify (λ q, mkLQ x (lq_Tail q) (lq_keyMap q) (lq_heap q) (lq_fresh q)).
Definition set_Tail (x : ptr) : M LinkedQueue unit :=
  modify (λ q, mkLQ (lq_Head q) x (lq_keyMap q) (lq_heap q) (lq_fresh q)).
Definition set_keyMap (f : gmap K nat → gmap K nat) : M LinkedQueue unit :=
  modify (λ q, mkLQ (lq_Head q) (lq_Tail q) (f (lq_keyMap q)) (lq_heap q) (lq_fresh q)).
Definition alloc (n : linkedItem) : M LinkedQueue nat := λ q,
  (Ok (lq_fresh q), mkLQ (lq_Head q) (lq_Tail q) (lq_keyMap q) (<[lq_fresh q := n]> (lq_heap q)) (S (lq_fresh q))).
(** [if x != nil { ... }] and a pointer that is followed without a test. *)
Definition if_ptr (x : ptr) (f : nat → M LinkedQueue unit) : M LinkedQueue unit :=
  match x with Some p => f p | None => mret tt end.
Definition follow (x : ptr) : M LinkedQueue nat := lift (of_option x).

(** *** Operations *)

Definition lq_Size (q : LinkedQueue) : nat := size (lq_keyMap q).
Definition lq_Has (Key : K) (q : LinkedQueue) : bool := bool_decide (is_Some (lq_keyMap q !! Key)).

Definition lq_Push (Key : K) (item : V) : M LinkedQueue bool :=
  q ← get;
  match lq_keyMap q !! Key with
  | Some _ => mret false
  | None =>
      nd ← alloc (mkNode None Key item None);
      match lq_Head q with
      | None => set_Head (Some nd) ;; set_Tail (Some nd)
      | Some _ =>
          set_Prev nd (lq_Tail q) ;;
          tail ← follow (lq_Tail q);
          set_Next tail (Some nd) ;;
          set_Tail (Some nd)
      end ;;
      set_keyMap <[Key := nd]> ;;
      mret true
  end.

Definition lq_Pop : M LinkedQueue (option V) :=
  q ← get;
  match lq_Head q with
  | None => mret None
  | Some nd =>
      (if bool_decide (lq_Tail q = Some nd) then set_Head None ;; set_Tail None
       else
         n ← load nd;
         set_Head (li_Next n) ;;
         if_ptr (li_Next n) (λ h, set_Prev h None) ;;
         next ← follow (li_Next n);
         set_Prev next None) ;;
      set_Prev nd None ;;
      set_Next nd None ;;
      n ← load nd;
      set_keyMap (delete (li_Key n)) ;;
      mret (Some (li_Item n))
  end.

Definition lq_Remove (Key : K) : M LinkedQueue (option V) :=
  q ← get;
  match lq_Head q with
  | None => mret None
  | Some _ =>
      match lq_keyMap q !! Key with
      | None => mret None
      | Some nd =>
          n ← load nd;
          if_ptr (li_Next n) (λ x, set_Prev x (li_Prev n)) ;;
          n ← load nd;
          if_ptr (li_Prev n) (λ x, set_Next x (li_Next n)) ;;
          q ← get;
          (if bool_decide (lq_Head q = Some nd) then
             n ← load nd;
             set_Head (li_Next n) ;;
             if_ptr (li_Next n) (λ h, set_Prev h None)
           else mret tt) ;;
          q ← get;
          (if bool_decide (lq_Tail q = Some nd) then
             n ← load nd;
             set_Tail (li_Prev n) ;;
             if_ptr (li_Prev n) (λ t, set_Next t None)
           else mret tt) ;;
          set_Prev nd None ;;
          set_Next nd None ;;
          n ← load nd;
          mret (Some (li_Item n))
      end
  end.

(** The pairs that [Iter] passes to the callback.  The nodes of the list are
    distinct cells of the heap, so its size is enough fuel. *)
Fixpoint iter_from (fuel : nat) (cur : ptr) (h : gmap nat linkedItem) : list (K * V) :=
  match fuel, cur with
  | S fuel, Some p =>
      match h !! p with
      | Some n => (li_Key n, li_Item n) :: iter_from fuel (li_Next n) h
      | None => []
      end
  | _, _ => []
  end.
Definition lq_Iter (q : LinkedQueue) : list (K * V) := iter_from (size (lq_heap q)) (lq_Head q) (lq_heap q).
End LinkedQueue.
Arguments linkedItem K V : clear implicits.
Arguments LinkedQueue K V {_ _}.

(** ** Doubly linked segments *)

Section Segments.
Context {K V : Type} `{Countable K}.
Abbreviation cell := (nat * (K * V))%type.
Implicit Types (h : gmap nat (linkedItem K V)) (cs a b : list cell) (prev nxt x : option nat).

Definition first cs nxt : option nat := match cs with c :: _ => Some c.1 | [] => nxt end.
Definition final prev cs : option nat := match last cs with Some c => Some c.1 | None => prev end.

(** The cells [cs] are linked in both directions; the node before them is
    [prev] and the one after them is [nxt]. *)
Fixpoint dll h prev cs nxt : Prop :=
  match cs with
  | [] => True
  | (p, (k, v)) :: cs' => h !! p = Some (mkNode prev k v (first cs' nxt)) ∧ dll h (Some p) cs' nxt
  end.

Lemma first_app a b nxt : first (a ++ b) nxt = first a (first b nxt).
Proof. by destruct a. Qed.
Lemma final_cons prev c cs : final prev (c :: cs) = final (Some c.1) cs.
Proof. unfold final. destruct cs as [|d cs]; [done|]. change (last (c :: d :: cs)) with (last (d :: cs)). by destruct (last (d :: cs)) eqn:E; [|apply last_None in E]. Qed.
Lemma final_app prev a b : final prev (a ++ b) = final (final prev a) b.
Proof. revert prev. induction a as [|c a IH]; intros prev; [done|]. cbn [app]. by rewrite !final_cons, IH. Qed.

Lemma dll_app h prev a b nxt : dll h prev (a ++ b) nxt ↔ dll h prev a (first b nxt) ∧ dll h (final prev a) b nxt.
Proof.
  revert prev. induction a as [|[p [k v]] a IH]; intros prev; cbn [app dll]; [unfold final; simpl; tauto|].
  rewrite IH, final_cons, first_app. cbn [fst]. tauto.
Qed.

Lemma dll_ext h h' prev cs nxt : (∀ p, p ∈ cs.*1 → h' !! p = h !! p) → dll h prev cs nxt → dll h' prev cs nxt.
Proof.
  revert prev. induction cs as [|[p [k v]] cs IH]; intros prev Hext; cbn [dll]; [done|]. intros [Hp Hd]. split.
  - rewrite Hext; [done|]. by left.
  - apply IH; [|done]. intros p' Hp'. apply Hext. by right.
Qed.

(** The update of a node through a pointer that may be nil. *)
Definition hset (f : linkedItem K V → linkedItem K V) x h := match x with Some p => alter f p h | None => h end.

Lemma hset_ne f x h p : x ≠ Some p → hset f x h !! p = h !! p.
Proof. destruct x as [p'|]; cbn [hset]; [|done]. intros Hne. apply lookup_alter_ne. congruence. Qed.

Lemma hset_dom f x h p : is_Some (hset f x h !! p) ↔ is_Some (h !! p).
Proof. destruct x as [p'|]; cbn [hset]; [|done]. rewrite lookup_alter_is_Some. done. Qed.

Lemma hset_twice f x h : (∀ n, f (f n) = f n) → hset f x (hset f x h) = hset f x h.
Proof.
  intros Hf. destruct x as [p|]; cbn [hset]; [|done]. rewrite alter_alter_eq. apply alter_ext. intros n _. apply Hf.
Qed.

Lemma first_elem cs p : first cs None = Some p → p ∈ cs.*1.
Proof. destruct cs as [|c cs]; [done|]. intros [= <-]. by left. Qed.
Lemma final_elem cs p : final None cs = Some p → p ∈ cs.*1.
Proof.
  unfold final. destruct (last cs) as [c|] eqn:E; [|done]. intros [= <-]. apply last_Some in E as [cs' ->].
  rewrite fmap_app. apply elem_of_app. right. by left.
Qed.

Lemma dll_prev h prev cs nxt x :
  NoDup cs.*1 → dll h prev cs nxt → dll (hset (with_Prev x) (first cs None) h) x cs nxt.
Proof.
  destruct cs as [|[p [k v]] cs]; [done|]. cbn [fmap list_fmap fst first hset dll].
  intros [Hp _]%NoDup_cons [Hh Hd]. split; [by rewrite lookup_alter_eq, Hh|].
  eapply dll_ext; [|exact Hd]. intros p' Hp'. apply lookup_alter_ne. by intros ->.
Qed.

Lemma dll_next h prev cs nxt x :
  NoDup cs.*1 → dll h prev cs nxt → dll (hset (with_Next x) (final None cs) h) prev cs x.
Proof.
  destruct (snoc_view cs) as [->|(cs' & [p [k v]] & ->)]; [done|]. rewrite fmap_app, !dll_app.
  intros (_ & Hne & _)%NoDup_app [Ha [Hp _]]. unfold final. rewrite last_snoc. cbn [fst hset dll first] in *. split_and!; [|by rewrite lookup_alter_eq, Hp|done].
  eapply dll_ext; [|exact Ha]. intros p' Hp'. apply lookup_alter_ne. intros ->. apply (Hne p' Hp'). by left.
Qed.

Lemma dll_lookup h prev cs nxt p k v : dll h prev cs nxt → (p, (k, v)) ∈ cs → ∃ l r, h !! p = Some (mkNode l k v r).
Proof.
  revert prev. induction cs as [|[p' [k' v']] cs IH]; intros prev; [by intros ? ?%elem_of_nil|].
  intros [Hp Hd] [[= -> -> ->]|Hin]%elem_of_cons; [by eexists _, _|by eapply IH].
Qed.

(** The neighbours of the cell [p] are linked with each other and its own
    pointers are cleared. *)
Definition detach h a (p : nat) b : gmap nat (linkedItem K V) :=
  alter (with_Next None) p (alter (with_Prev None) p
    (hset (with_Next (first b None)) (final None a) (hset (with_Prev (final None a)) (first b None) h))).

Lemma detach_spec h a p k v b :
  NoDup (a ++ (p, (k, v)) :: b).*1 → dll h None (a ++ (p, (k, v)) :: b) None →
  dll (detach h a p b) None (a ++ b) None ∧
  detach h a p b !! p = Some (mkNode None k v None) ∧
  (∀ x : nat, x ∉ (a ++ (p, (k, v)) :: b).*1 → detach h a p b !! x = h !! x) ∧
  (∀ x : nat, is_Some (detach h a p b !! x) ↔ is_Some (h !! x)).
Proof.
  rewrite fmap_app. cbn [fmap list_fmap fst]. intros (Na & Hab & [Hpb Nb]%NoDup_cons)%NoDup_app.
  rewrite dll_app. cbn [dll first fst]. intros (Da & Hp & Db). fold (fst (A := nat) (B := K * V)) in *.
  assert (Hpa : p ∉ a.*1) by (intros Hc; apply (Hab p Hc); by left).
  assert (Hba : ∀ x : nat, x ∈ b.*1 → x ∉ a.*1) by (intros x Hx Hc; apply (Hab x Hc); by right).
  assert (N1 : ∀ x : nat, x ∉ a.*1 → final None a ≠ Some x) by (by intros x Hx Hc%final_elem).
  assert (N2 : ∀ x : nat, x ∉ b.*1 → first b None ≠ Some x) by (by intros x Hx Hc%first_elem).
  set (h1 := hset (with_Prev (final None a)) (first b None) h).
  set (h2 := hset (with_Next (first b None)) (final None a) h1).
  assert (D2 : dll h2 None (a ++ b) None).
  { apply dll_app. split.
    - apply (dll_next h1 None a (Some p)); [done|]. eapply dll_ext; [|exact Da].
      intros x Hx. apply hset_ne, N2. intros Hc. by apply (Hba x Hc).
    - eapply (dll_ext h1); [|by eapply dll_prev]. intros x Hx. apply hset_ne, N1. by apply Hba. }
  assert (Hp2 : h2 !! p = h !! p) by (unfold h2, h1; rewrite !hset_ne by auto; done).
  unfold detach. fold h1. fold h2. split_and!.
  - eapply dll_ext; [|exact D2]. intros x Hx. rewrite !lookup_alter_ne; [done|..];
      intros <-; rewrite fmap_app in Hx; apply elem_of_app in Hx as [|]; done.
  - rewrite !lookup_alter_eq, Hp2, Hp. done.
  - intros x. rewrite not_elem_of_app, not_elem_of_cons. intros (Hxa & Hxp & Hxb).
    rewrite !lookup_alter_ne by done. unfold h2, h1. rewrite !hset_ne by auto. done.
  - intros x. rewrite !lookup_alter_is_Some. unfold h2, h1. by rewrite !hset_dom.
Qed.

Lemma dll_iter h prev cs fuel :
  dll h prev cs None → (length cs ≤ fuel)%nat → iter_from fuel (first cs None) h = cs.*2.
Proof.
  revert prev fuel. induction cs as [|[p [k v]] cs IH]; intros prev fuel Hd Hf; [by destruct fuel|].
  destruct fuel as [|fuel]; [simpl in Hf; lia|]. destruct Hd as [Hp Hd]. cbn [first iter_from]. cbn [fst]. rewrite Hp.
  cbn [li_Key li_Item li_Next fmap list_fmap snd]. f_equal. apply (IH (Some p)); [done|]. simpl in Hf. lia.
Qed.
End Segments.

(** ** The refinement *)

Section Refinement.
Context {K V : Type} `{Countable K}.
Abbreviation cell := (nat * (K * V))%type.
Implicit Types (q : LinkedQueue K V) (a : absq K V) (cs : list cell).

(** The cells of the list and, outside of it, the nodes that the key map still
    knows although they were removed. *)
Record lq_holds q a cs : Prop := {
  ho_dll : dll (lq_heap q) None cs None;
  ho_nodup : NoDup cs.*1;
  ho_items : cs.*2 = aq_items a;
  ho_head : lq_Head q = first cs None;
  ho_tail : lq_Tail q = final None cs;
  ho_key p k v : (p, (k, v)) ∈ cs → lq_keyMap q !! k = Some p;
  ho_removed k v : aq_removed a !! k = Some v →
    ∃ p, lq_keyMap q !! k = Some p ∧ p ∉ cs.*1 ∧ lq_heap q !! p = Some (mkNode None k v None);
  ho_map k p : lq_keyMap q !! k = Some p → (∃ v, (p, (k, v)) ∈ cs) ∨ is_Some (aq_removed a !! k);
  ho_fresh p : is_Some (lq_heap q !! p) → (p < lq_fresh q)%nat;
}.
Definition lq_rep q a : Prop := ∃ cs, lq_holds q a cs.

Lemma elem_of_keys cs k : k ∈ (cs.*2).*1 ↔ ∃ p v, (p, (k, v)) ∈ cs.
Proof.
  rewrite <- list_fmap_compose, list_elem_of_fmap. split.
  - intros ([p [k' v]] & -> & Hin). by exists p, v.
  - intros (p & v & Hin). by exists (p, (k, v)).
Qed.

Lemma elem_of_ptrs cs p : p ∈ cs.*1 ↔ ∃ k v, (p, (k, v)) ∈ cs.
Proof.
  rewrite list_elem_of_fmap. split.
  - intros ([p' [k v]] & -> & Hin). by exists k, v.
  - intros (k & v & Hin). by exists (p, (k, v)).
Qed.

Lemma holds_not_removed q a cs p k v : lq_holds q a cs → (p, (k, v)) ∈ cs → aq_removed a !! k = None.
Proof.
  intros Hq Hin. destruct (aq_removed a !! k) as [w|] eqn:Hr; [|done].
  destruct (ho_removed _ _ _ Hq k w Hr) as (p' & Hk & Hp & _).
  rewrite (ho_key _ _ _ Hq p k v Hin) in Hk. injection Hk as <-. exfalso. apply Hp, elem_of_ptrs. by eexists _, _.
Qed.

Lemma holds_keys_nodup q a cs : lq_holds q a cs → NoDup (aq_items a).*1.
Proof.
  intros Hq. rewrite <- (ho_items _ _ _ Hq).
  assert (Hk : ∀ p k v, (p, (k, v)) ∈ cs → lq_keyMap q !! k = Some p) by (intros; by eapply ho_key).
  pose proof (ho_nodup _ _ _ Hq) as Hn. clear Hq. induction cs as [|[p [k v]] cs IH]; [constructor|].
  cbn in *. apply NoDup_cons in Hn as [Hp Hn]. constructor.
  - intros (p' & v' & Hin)%elem_of_keys.
    pose proof (Hk p k v ltac:(by left)) as H1. rewrite (Hk p' k v' ltac:(by right)) in H1. injection H1 as ->.
    apply Hp, elem_of_ptrs. by eexists _, _.
  - apply IH; [|done]. intros. apply (Hk _ _ v0). by right.
Qed.

Lemma holds_occupied q a cs k : lq_holds q a cs → occupied k a = bool_decide (is_Some (lq_keyMap q !! k)).
Proof.
  intros Hq. unfold occupied. rewrite <- (ho_items _ _ _ Hq). apply eq_true_iff_eq.
  rewrite orb_true_iff, !bool_decide_eq_true. split.
  - intros [(p & v & Hin)%elem_of_keys|[v Hv]].
    + exists p. by eapply ho_key.
    + destruct (ho_removed _ _ _ Hq k v Hv) as (p & Hp & _). by exists p.
  - intros [p Hp]. destruct (ho_map _ _ _ Hq k p Hp) as [[v Hin]|]; [left|by right].
    apply elem_of_keys. by eexists _, _.
Qed.

Lemma holds_iter q a cs : lq_holds q a cs → lq_Iter q = aq_items a.
Proof.
  intros Hq. unfold lq_Iter. rewrite (ho_head _ _ _ Hq), <- (ho_items _ _ _ Hq).
  eapply dll_iter; [by eapply ho_dll|]. rewrite <- (length_fmap fst), <- (size_list_to_set (C := gset nat)) by (by eapply ho_nodup).
  rewrite <- size_dom. apply subseteq_size. intros p Hp. apply elem_of_list_to_set in Hp.
  apply elem_of_ptrs in Hp as (k & v & Hin). apply elem_of_dom.
  destruct (dll_lookup _ _ _ _ _ _ _ (ho_dll _ _ _ Hq) Hin) as (x & y & Hx). by eexists.
Qed.

Lemma New_holds : lq_rep NewLinkedQueue (mkAbsq [] ∅).
Proof.
  exists []. split; cbn [NewLinkedQueue lq_heap lq_Head lq_Tail lq_keyMap lq_fresh aq_items aq_removed]; try done.
  - constructor.
  - by intros p k v ?%elem_of_nil.
  - intros p. by rewrite lookup_empty, is_Some_alt.
Qed.

Lemma holds_size q a cs : lq_holds q a cs → lq_Size q = spec_Size a.
Proof.
  intros Hq. unfold lq_Size, spec_Size. rewrite <- size_dom, <- (size_dom (aq_removed a)), <- (length_fmap fst).
  rewrite <- (size_list_to_set (C := gset K)) by (by eapply holds_keys_nodup). rewrite <- size_union.
  - f_equal. apply set_eq. intros k. rewrite elem_of_union, !elem_of_dom, elem_of_list_to_set.
    pose proof (holds_occupied q a cs k Hq) as Ho. unfold occupied in Ho.
    rewrite <- (bool_decide_eq_true (is_Some (lq_keyMap q !! k))), <- Ho.
    by rewrite orb_true_iff, !bool_decide_eq_true.
  - intros k. rewrite elem_of_list_to_set, elem_of_dom, <- (ho_items _ _ _ Hq).
    intros (p & v & Hin)%elem_of_keys [w Hw]. rewrite (holds_not_removed _ _ _ _ _ _ Hq Hin) in Hw. done.
Qed.

(** Evaluates the operations on memory. *)
Ltac lq_run :=
  cbv [mbind M_bind mret M_ret get modify gets lift load set_Prev set_Next set_Head set_Tail set_keyMap alloc
       if_ptr follow of_option on_heap];
  cbn [lq_Head lq_Tail lq_keyMap lq_heap lq_fresh].

(** *** Push *)

Lemma holds_fresh q a cs : lq_holds q a cs → lq_fresh q ∉ cs.*1.
Proof.
  intros Hq (k & v & Hin)%elem_of_ptrs.
  destruct (dll_lookup _ _ _ _ _ _ _ (ho_dll _ _ _ Hq) Hin) as (x & y & Hx).
  pose proof (ho_fresh _ _ _ Hq (lq_fresh q) ltac:(by eexists)). lia.
Qed.

(** The state after a node was added behind the cells. *)
Definition pushed q cs k v : LinkedQueue K V :=
  mkLQ (first (cs ++ [(lq_fresh q, (k, v))]) None) (Some (lq_fresh q)) (<[k := lq_fresh q]> (lq_keyMap q))
    (hset (with_Next (Some (lq_fresh q))) (final None cs)
      (<[lq_fresh q := mkNode (final None cs) k v None]> (lq_heap q))) (S (lq_fresh q)).

Lemma Push_run q a cs k v :
  lq_holds q a cs → lq_keyMap q !! k = None → lq_Push k v q = (Ok true, pushed q cs k v).
Proof.
  intros Hq Hk. unfold lq_Push. erewrite bind_Ok by reflexivity. rewrite Hk.
  unfold pushed. rewrite (ho_tail _ _ _ Hq). pose proof (ho_head _ _ _ Hq) as Hh.
  destruct (snoc_view cs) as [->|(cs' & [t [kt vt]] & ->)].
  - rewrite Hh. reflexivity.
  - assert (Hf : first ((cs' ++ [(t, (kt, vt))]) ++ [(lq_fresh q, (k, v))]) None = lq_Head q).
    { rewrite Hh, !first_app. by destruct cs'. }
    rewrite Hf, final_app. destruct (lq_Head q) as [hd|] eqn:Eh; [|by destruct cs'].
    lq_run. unfold final. cbn [last hset fst].
    lq_run. by rewrite alter_insert_eq, Eh.
Qed.

Lemma Push_holds q a cs k v :
  lq_holds q a cs → lq_keyMap q !! k = None →
  lq_holds (pushed q cs k v) (mkAbsq (aq_items a ++ [(k, v)]) (aq_removed a)) (cs ++ [(lq_fresh q, (k, v))]).
Proof.
  intros Hq Hk. pose proof (holds_fresh _ _ _ Hq) as Hfr. unfold pushed.
  assert (Hne : final None cs ≠ Some (lq_fresh q)) by (intros Hc%final_elem; done).
  split; cbn [lq_heap lq_Head lq_Tail lq_keyMap lq_fresh aq_items aq_removed].
  - apply dll_app. cbn [first fst]. split.
    + eapply dll_next; [by eapply ho_nodup|]. eapply dll_ext; [|by eapply ho_dll].
      intros p Hp. apply lookup_insert_ne. by intros <-.
    + cbn [dll]. split; [|done]. rewrite hset_ne by done. by rewrite lookup_insert_eq.
  - rewrite fmap_app. apply NoDup_app. split; [by eapply ho_nodup|]. split; [|apply NoDup_singleton].
    by intros p Hp ->%list_elem_of_singleton.
  - by rewrite fmap_app, (ho_items _ _ _ Hq).
  - done.
  - by rewrite final_app.
  - intros p k' v' [Hin|[= -> -> ->]%list_elem_of_singleton]%elem_of_app; [|by rewrite lookup_insert_eq].
    rewrite lookup_insert_ne; [by eapply ho_key|]. intros ->. by rewrite (ho_key _ _ _ Hq p k' v' Hin) in Hk.
  - intros k' v' Hr. destruct (ho_removed _ _ _ Hq k' v' Hr) as (p & Hp & Hn & Hh). exists p.
    assert (p ≠ lq_fresh q). { intros ->. pose proof (ho_fresh _ _ _ Hq (lq_fresh q) ltac:(by eexists)). lia. }
    split; [|split].
    + rewrite lookup_insert_ne; [done|]. intros ->. by rewrite Hp in Hk.
    + rewrite fmap_app, elem_of_app. by intros [?|?%list_elem_of_singleton].
    + rewrite hset_ne by (intros Hc%final_elem; done). by rewrite lookup_insert_ne.
  - intros k' p. destruct (decide (k = k')) as [<-|Hne'].
    + rewrite lookup_insert_eq. intros [= <-]. left. exists v. apply elem_of_app. right. by left.
    + rewrite lookup_insert_ne by done. intros [[v' Hin]|]%(ho_map _ _ _ Hq); [left|by right].
      exists v'. apply elem_of_app. by left.
  - intros p. rewrite hset_dom. destruct (decide (p = lq_fresh q)) as [->|Hp]; [lia|].
    rewrite lookup_insert_ne by done. intros Hs%(ho_fresh _ _ _ Hq). lia.
Qed.

(** *** Pop and Remove *)

(** The state after a cell left the list. *)
Definition detached q (a : list cell) (p : nat) (b : list cell) (km : gmap K nat) : LinkedQueue K V :=
  mkLQ (first (a ++ b) None) (final None (a ++ b)) km (detach (lq_heap q) a p b) (lq_fresh q).

Lemma detach_holds q s (a : list cell) p k v b km rem :
  lq_holds q s (a ++ (p, (k, v)) :: b) →
  (∀ k', k' ≠ k → km !! k' = lq_keyMap q !! k') → (∀ k', k' ≠ k → rem !! k' = aq_removed s !! k') →
  (km !! k = None ∧ rem !! k = None) ∨ (km !! k = Some p ∧ rem !! k = Some v) →
  lq_holds (detached q a p b km) (mkAbsq (a ++ b).*2 rem) (a ++ b).
Proof.
  intros Hq Hkm Hrem Hk. pose proof (ho_nodup _ _ _ Hq) as Hn.
  destruct (detach_spec _ _ _ _ _ _ Hn (ho_dll _ _ _ Hq)) as (D & Hp & Hfr & Hdom).
  assert (Hnin : p ∉ (a ++ b).*1 ∧ NoDup (a ++ b).*1).
  { rewrite fmap_app in Hn |- *. cbn [fmap list_fmap fst] in Hn. rewrite <- Permutation_middle in Hn.
    by apply NoDup_cons in Hn. }
  assert (Hsub : ∀ c, c ∈ a ++ b → c ∈ a ++ (p, (k, v)) :: b) by (intros c; rewrite !elem_of_app, elem_of_cons; tauto).
  assert (Hne : ∀ p' k' v', (p', (k', v')) ∈ a ++ b → k' ≠ k ∧ p' ≠ p).
  { intros p' k' v' Hin. assert (p' ≠ p) by (intros ->; apply Hnin, elem_of_ptrs; by eexists _, _). split; [|done].
    intros ->. pose proof (ho_key _ _ _ Hq p k v ltac:(apply elem_of_app; right; by left)) as E1.
    rewrite (ho_key _ _ _ Hq p' k v' (Hsub _ Hin)) in E1. congruence. }
  split; cbn [detached lq_heap lq_Head lq_Tail lq_keyMap lq_fresh aq_items aq_removed]; try done; [by destruct Hnin|..].
  - intros p' k' v' Hin. rewrite Hkm by (by eapply Hne). eapply ho_key; [done|by apply Hsub].
  - intros k' v' Hr. destruct (decide (k' = k)) as [->|Hk'].
    + destruct Hk as [[_ Hk]|[Hk1 Hk2]]; [congruence|]. exists p. split; [done|]. split; [apply Hnin|]. congruence.
    + rewrite Hrem in Hr by done. destruct (ho_removed _ _ _ Hq k' v' Hr) as (p' & H1 & H2 & H3). exists p'.
      rewrite Hkm, Hfr by done. split_and!; [done| |done]. intros (k2 & v2 & Hin)%elem_of_ptrs. apply H2, elem_of_ptrs.
      eexists _, _. by apply Hsub.
  - intros k' p' Hp'. destruct (decide (k' = k)) as [->|Hk'].
    + right. destruct Hk as [[Hk _]|[_ Hk2]]; [congruence|by eexists].
    + rewrite Hkm in Hp' by done. rewrite Hrem by done. destruct (ho_map _ _ _ Hq k' p' Hp') as [[v' Hin]|]; [left|by right].
      exists v'. apply elem_of_app in Hin as [Hin|[?|Hin]%elem_of_cons]; [|congruence|]; apply elem_of_app; tauto.
  - intros p'. rewrite Hdom. apply (ho_fresh _ _ _ Hq).
Qed.

Lemma Pop_run q s p k v b :
  lq_holds q s ((p, (k, v)) :: b) →
  lq_Pop q = (Ok (Some v), detached q [] p b (delete k (lq_keyMap q))).
Proof.
  intros Hq. pose proof (ho_nodup _ _ _ Hq) as Hn. destruct (ho_dll _ _ _ Hq) as [Hp _].
  destruct (detach_spec _ [] _ _ _ _ Hn (ho_dll _ _ _ Hq)) as (_ & Hdp & _).
  unfold lq_Pop. erewrite bind_Ok by reflexivity. rewrite (ho_head _ _ _ Hq), (ho_tail _ _ _ Hq). cbn [first fst].
  destruct b as [|[p2 [k2 v2]] b].
  - rewrite bool_decide_eq_true_2 by done. unfold detach, detached in *. cbn [app first final last hset] in *.
    lq_run. rewrite Hdp. done.
  - assert (Hne : p ≠ p2) by (intros ->; apply NoDup_cons in Hn as [Hn _]; apply Hn; by left).
    rewrite bool_decide_eq_false_2.
    2:{ rewrite final_cons. intros Hc. apply NoDup_cons in Hn as [Hn _]. apply Hn.
        apply (final_elem ((p2, (k2, v2)) :: b)). by rewrite final_cons in Hc |- *. }
    unfold detach, detached in *. cbn [app first final last hset fst] in *. lq_run. rewrite Hp. cbn [li_Next].
    pose proof (hset_twice (with_Prev None) (Some p2) (lq_heap q) ltac:(done)) as Ht. cbn [hset] in Ht.
    lq_run. rewrite Ht, Hdp. cbn [li_Key li_Item].
    by rewrite (ho_tail _ _ _ Hq).
Qed.

Lemma if_Prev Y X q : if_ptr Y (λ x, set_Prev x X) q = (Ok tt, on_heap (hset (with_Prev X) Y) q).
Proof. destruct Y; [done|by destruct q]. Qed.
Lemma if_Next Y X q : if_ptr Y (λ x, set_Next x X) q = (Ok tt, on_heap (hset (with_Next X) Y) q).
Proof. destruct Y; [done|by destruct q]. Qed.
Lemma load_eq p q n : lq_heap q !! p = Some n → load p q = (Ok n, q).
Proof. unfold load. by intros ->. Qed.

Lemma Remove_run q s (a : list cell) p k v b :
  lq_holds q s (a ++ (p, (k, v)) :: b) →
  lq_Remove k q = (Ok (Some v), detached q a p b (lq_keyMap q)).
Proof.
  intros Hq. pose proof (ho_nodup _ _ _ Hq) as Hn. pose proof (ho_dll _ _ _ Hq) as Hd.
  destruct (detach_spec _ _ _ _ _ _ Hn Hd) as (_ & Hdp & _). pose proof Hd as Hp. rewrite dll_app in Hp. destruct Hp as (_ & Hp & _).
  assert (Hk : lq_keyMap q !! k = Some p) by (eapply ho_key; [done|]; apply elem_of_app; right; by left).
  rewrite fmap_app in Hn. cbn [fmap list_fmap fst] in Hn. apply NoDup_app in Hn as (_ & Hab & [Hpb _]%NoDup_cons).
  assert (Na : final None a ≠ Some p) by (intros Hc%final_elem; apply (Hab p Hc); by left).
  assert (Nb : first b None ≠ Some p) by (by intros Hc%first_elem).
  unfold lq_Remove. erewrite bind_Ok by reflexivity.
  destruct (lq_Head q) as [hd|] eqn:Eh; [|rewrite (ho_head _ _ _ Hq) in Eh; by destruct a]. rewrite Hk.
  erewrite bind_Ok by (by apply load_eq). cbn [li_Next li_Prev]. erewrite bind_Ok by apply if_Prev.
  erewrite bind_Ok by (apply load_eq; cbn [on_heap lq_heap]; by rewrite hset_ne). cbn [li_Next li_Prev].
  erewrite bind_Ok by apply if_Next. cbn [on_heap lq_Head lq_Tail lq_keyMap lq_heap lq_fresh].
  set (h2 := hset (with_Next (first b None)) (final None a) (hset (with_Prev (final None a)) (first b None) (lq_heap q))).
  assert (H2 : h2 !! p = Some (mkNode (final None a) k v (first b None))) by (unfold h2; by rewrite !hset_ne).
  assert (Hhd : lq_Head q = Some p ↔ a = []).
  { rewrite (ho_head _ _ _ Hq). destruct a as [|c a]; [done|]. cbn [app first]. split; [|done].
    intros [= <-]. exfalso. apply (Hab c.1); left. }
  assert (Htl : lq_Tail q = Some p ↔ b = []).
  { rewrite (ho_tail _ _ _ Hq), final_app, final_cons. cbn [fst].
    destruct (snoc_view b) as [->|(b' & c & ->)]; [done|]. unfold final. rewrite last_snoc. split; [|by destruct b'].
    intros [= <-]. exfalso. apply Hpb. rewrite fmap_app. apply elem_of_app. right. by left. }
  erewrite bind_Ok by reflexivity. cbn [lq_Head].
  erewrite (bind_Ok _ _ _ tt (mkLQ (first (a ++ b) None) (lq_Tail q) (lq_keyMap q) h2 (lq_fresh q))).
  2:{ case_bool_decide as Hc; rewrite Hhd in Hc.
      - subst a. erewrite bind_Ok by (by apply load_eq). cbn [li_Next]. erewrite bind_Ok by reflexivity.
        rewrite if_Prev. unfold on_heap. cbn [lq_Head lq_Tail lq_keyMap lq_heap lq_fresh app].
        unfold h2. cbn [final last hset]. by rewrite hset_twice.
      - destruct a as [|c a]; [done|].
        unfold on_heap. cbn [lq_Head lq_Tail lq_keyMap lq_heap lq_fresh]. by rewrite (ho_head _ _ _ Hq). }
  erewrite bind_Ok by reflexivity. cbn [lq_Tail].
  erewrite (bind_Ok _ _ _ tt (mkLQ (first (a ++ b) None) (final None (a ++ b)) (lq_keyMap q) h2 (lq_fresh q))).
  2:{ case_bool_decide as Hc; rewrite Htl in Hc.
      - subst b. erewrite bind_Ok by (by apply load_eq). cbn [li_Prev]. erewrite bind_Ok by reflexivity.
        rewrite if_Next. unfold on_heap. cbn [lq_Head lq_Tail lq_keyMap lq_heap lq_fresh app].
        unfold h2. cbn [first]. by rewrite app_nil_r, hset_twice.
      - rewrite (ho_tail _ _ _ Hq), !final_app, final_cons.
        destruct (snoc_view b) as [->|(b' & c & ->)]; [done|]. by rewrite !(final_app _ b' [c]). }
  fold h2 in Hdp. unfold detached, detach in *. fold h2 in Hdp |- *. lq_run. by rewrite Hdp.
Qed.

(** A key whose item was removed before: the item is returned again and
    nothing changes. *)
Lemma Remove_again q s cs p k v :
  lq_holds q s cs → cs ≠ [] → lq_keyMap q !! k = Some p → p ∉ cs.*1 →
  lq_heap q !! p = Some (mkNode None k v None) → lq_Remove k q = (Ok (Some v), q).
Proof.
  intros Hq Hne Hk Hp Hh. unfold lq_Remove. erewrite bind_Ok by reflexivity.
  destruct (lq_Head q) as [hd|] eqn:Eh; [|rewrite (ho_head _ _ _ Hq) in Eh; by destruct cs]. rewrite Hk.
  erewrite bind_Ok by (by apply load_eq). cbn [li_Next li_Prev if_ptr].
  erewrite bind_Ok by reflexivity. erewrite bind_Ok by (by apply load_eq). cbn [li_Next li_Prev if_ptr].
  erewrite bind_Ok by reflexivity. erewrite bind_Ok by reflexivity. rewrite bool_decide_eq_false_2.
  2:{ intros Hc. rewrite (ho_head _ _ _ Hq) in Hc. by apply first_elem in Hc. }
  erewrite bind_Ok by reflexivity. erewrite bind_Ok by reflexivity. rewrite bool_decide_eq_false_2.
  2:{ intros Hc. rewrite (ho_tail _ _ _ Hq) in Hc. by apply final_elem in Hc. }
  lq_run. rewrite !(alter_id _ _ p).
  - rewrite Hh. by destruct q.
  - rewrite Hh. by intros n [= <-].
  - rewrite alter_id; rewrite Hh; by intros n [= <-].
Qed.

(** *** The operations on the representation *)

Lemma Push_rep q a k v : lq_rep q a → ∃ q', lq_Push k v q = (Ok (spec_Push k v a).1, q') ∧ lq_rep q' (spec_Push k v a).2.
Proof.
  intros [cs Hq]. unfold spec_Push. rewrite (holds_occupied q a cs k Hq). destruct (lq_keyMap q !! k) as [p|] eqn:Hk.
  - rewrite bool_decide_eq_true_2 by (by eexists). exists q. split; [|by exists cs].
    unfold lq_Push. erewrite bind_Ok by reflexivity. by rewrite Hk.
  - rewrite bool_decide_eq_false_2 by (by intros [? ?]). eexists. split; [by eapply Push_run|].
    eexists. by apply Push_holds.
Qed.

Lemma Pop_rep q a : lq_rep q a → ∃ q', lq_Pop q = (Ok (spec_Pop a).1, q') ∧ lq_rep q' (spec_Pop a).2.
Proof.
  intros [cs Hq]. unfold spec_Pop. pose proof (ho_items _ _ _ Hq) as Hi. destruct cs as [|[p [k v]] b]; cbn in Hi; rewrite <- Hi.
  - exists q. split; [|by exists []]. unfold lq_Pop. erewrite bind_Ok by reflexivity. by rewrite (ho_head _ _ _ Hq).
  - eexists. split; [by eapply Pop_run|]. exists b.
    apply (detach_holds q a [] p k v b); [done|intros; by apply lookup_delete_ne|done|left].
    split; [apply lookup_delete_eq|]. eapply holds_not_removed; [done|by left].
Qed.

Lemma key_of_split (l : list (K * V)) k v :
  NoDup l.*1 → key_of k l = Some v → ∃ l1 l2, l = l1 ++ (k, v) :: l2 ∧ filter (λ e, e.1 ≠ k) l = l1 ++ l2.
Proof.
  induction l as [|[k' v'] l IH]; [done|]. cbn [fmap list_fmap fst]. intros [Hk Hn]%NoDup_cons. unfold key_of. rewrite !filter_cons. cbn [fst].
  destruct (decide (k' = k)) as [->|Hne].
  - intros [= ->]. exists [], l. split; [done|]. rewrite decide_False by (by intros []). apply filter_all.
    apply Forall_forall. intros [k2 v2] Hin. cbn. intros ->. apply Hk. by apply (list_elem_of_fmap_2 fst) in Hin.
  - intros (l1 & l2 & E1 & E2)%IH; [|done]. exists ((k', v') :: l1), l2.
    rewrite decide_True by done. by rewrite E2, E1.
Qed.

Lemma key_of_None (l : list (K * V)) k : key_of k l = None → k ∉ l.*1.
Proof.
  unfold key_of. intros Hn ([k' v] & -> & Hin)%list_elem_of_fmap.
  assert (Hf : (k', v) ∈ filter (λ e, e.1 = k') l) by (by apply list_elem_of_filter).
  cbn [fst] in Hn. destruct (filter (λ e : K * V, e.1 = k') l); [by apply elem_of_nil in Hf|done].
Qed.

Lemma Remove_rep q a k : lq_rep q a → ∃ q', lq_Remove k q = (Ok (spec_Remove k a).1, q') ∧ lq_rep q' (spec_Remove k a).2.
Proof.
  intros [cs Hq]. unfold spec_Remove. pose proof (ho_items _ _ _ Hq) as Hi. destruct (aq_items a) as [|e l] eqn:El.
  { apply fmap_nil_inv in Hi as ->. exists q. split; [|by exists []].
    unfold lq_Remove. erewrite bind_Ok by reflexivity. by rewrite (ho_head _ _ _ Hq). }
  assert (Hne : cs ≠ []) by (by intros ->). rewrite <- El in *. clear El e l.
  destruct (key_of k (aq_items a)) as [v|] eqn:Ek.
  - destruct (key_of_split _ _ _ (holds_keys_nodup _ _ _ Hq) Ek) as (l1 & l2 & E1 & ->). rewrite E1 in Hi.
    apply fmap_app_inv in Hi as (c1 & c2 & -> & Hi2 & ->). symmetry in Hi2.
    apply fmap_cons_inv in Hi2 as ([p [k' v']] & b & [= <- <-] & -> & ->).
    eexists. split; [by eapply Remove_run|]. exists (c1 ++ b). rewrite <- fmap_app.
    eapply detach_holds; [done|done|intros; by apply lookup_insert_ne|right]. split; [|by rewrite lookup_insert_eq].
    eapply ho_key; [done|]. apply elem_of_app. right. by left.
  - exists q. split; [|by exists cs]. apply key_of_None in Ek. rewrite <- Hi in Ek.
    destruct (aq_removed a !! k) as [v|] eqn:Er; cbn [fst].
    + destruct (ho_removed _ _ _ Hq k v Er) as (p & H1 & H2 & H3). by eapply Remove_again.
    + assert (lq_keyMap q !! k = None) as E0.
      { apply eq_None_not_Some. intros [p Hp]. destruct (ho_map _ _ _ Hq k p Hp) as [[v Hin]|[v Hr]]; [|congruence].
        apply Ek, elem_of_keys. by eexists _, _. }
      unfold lq_Remove. erewrite bind_Ok by reflexivity. rewrite E0. by destruct (lq_Head q).
Qed.
End Refinement.

#[export] Instance linked_queue {K V} `{Countable K} : KeyedQueue K V (LinkedQueue K V) := {
  kq_New := NewLinkedQueue;
  kq_Push := lq_Push;
  kq_Pop := lq_Pop;
  kq_Remove := lq_Remove;
  kq_Iter := lq_Iter;
}.

#[export] Instance linked_queue_laws {K V} `{Countable K} : KeyedQueueLaws K V (LinkedQueue K V).
Proof.
  refine {| kq_rep := lq_rep; kq_New_rep := New_holds; kq_Push_rep := Push_rep; kq_Pop_rep := Pop_rep;
            kq_Remove_rep := Remove_rep |}.
  - intros q a [cs Hq]. by eapply holds_iter.
  - intros q a [cs Hq]. split; [by eapply holds_keys_nodup|]. intros k. rewrite <- (ho_items _ _ _ Hq).
    intros (p & v & Hin)%elem_of_keys. by eapply holds_not_removed.
Qed.

(** ** Theorems *)

Section Theorems.
Context {K V : Type} `{Countable K}.

(** The linked queue implements the abstract queue.  From a state that
    represents it, [Push], [Pop] and [Remove] follow no nil pointer, return
    what the abstract operations return and leave a representation of their
    result: the links stay consistent in both directions.  [Iter] visits the
    items in order and ends, [Size] and [Has] count the keys that are
    occupied. *)
Theorem linked_queue_refines (q : LinkedQueue K V) a k v :
  lq_rep q a →
  (∃ q', lq_Push k v q = (Ok (spec_Push k v a).1, q') ∧ lq_rep q' (spec_Push k v a).2) ∧
  (∃ q', lq_Pop q = (Ok (spec_Pop a).1, q') ∧ lq_rep q' (spec_Pop a).2) ∧
  (∃ q', lq_Remove k q = (Ok (spec_Remove k a).1, q') ∧ lq_rep q' (spec_Remove k a).2) ∧
  lq_Iter q = aq_items a ∧ lq_Size q = spec_Size a ∧ lq_Has k q = occupied k a.
Proof.
  intros Hq. split_and!; [by apply Push_rep|by apply Pop_rep|by apply Remove_rep|..]; destruct Hq as [cs Hq].
  - by eapply holds_iter.
  - by eapply holds_size.
  - symmetry. by eapply holds_occupied.
Qed.

(** One call on the queue. *)
Inductive lq_step : LinkedQueue K V → LinkedQueue K V → Prop :=
  | step_Push k v q q' r : lq_Push k v q = (r, q') → lq_step q q'
  | step_Pop q q' r : lq_Pop q = (r, q') → lq_step q q'
  | step_Remove k q q' r : lq_Remove k q = (r, q') → lq_step q q'.

Lemma removed_stays (a : absq K V) k v w :
  aq_removed a !! k = Some v →
  is_Some (aq_removed (spec_Push w v a).2 !! k) ∧ is_Some (aq_removed (spec_Pop a).2 !! k) ∧
  is_Some (aq_removed (spec_Remove w a).2 !! k).
Proof.
  intros Hr. unfold spec_Push, spec_Pop, spec_Remove. split_and!.
  - destruct (occupied w a); by eexists.
  - destruct (aq_items a) as [|[]]; by eexists.
  - destruct (aq_items a); [by eexists|]. destruct (key_of _ _) as [v'|]; [|by eexists]. cbn [snd aq_removed].
    destruct (decide (w = k)) as [->|]; [by rewrite lookup_insert_eq|rewrite lookup_insert_ne by done; by eexists].
Qed.

Lemma step_removed q a q' k :
  lq_rep q a → is_Some (aq_removed a !! k) → lq_step q q' → ∃ a', lq_rep q' a' ∧ is_Some (aq_removed a' !! k).
Proof.
  intros Hq [v Hr] Hs. destruct Hs as [w x q q' r Hc|q q' r Hc|w q q' r Hc].
  - destruct (Push_rep q a w x Hq) as (q2 & E2 & Hq2). rewrite E2 in Hc. injection Hc as <- <-. eexists. split; [done|].
    unfold spec_Push. destruct (occupied w a); by eexists.
  - destruct (Pop_rep q a Hq) as (q2 & E2 & Hq2). rewrite E2 in Hc. injection Hc as <- <-. eexists. split; [done|].
    by eapply (removed_stays a k v).
  - destruct (Remove_rep q a w Hq) as (q2 & E2 & Hq2). rewrite E2 in Hc. injection Hc as <- <-. eexists. split; [done|].
    by eapply (removed_stays a k v).
Qed.

(** A key that was removed can never be pushed again: [Remove] takes the
    item out of the list but not out of the key map, so that after any further
    calls [Push] with the key is refused and changes nothing, and [Has] still
    reports the key. *)
Theorem removed_key_refused (q : LinkedQueue K V) a k v w q1 q2 :
  lq_rep q a → (k, v) ∈ aq_items a → lq_Remove k q = (Ok (Some v), q1) → rtc lq_step q1 q2 →
  lq_Push k w q2 = (Ok false, q2) ∧ lq_Has k q2 = true.
Proof.
  intros Hq Hin Hr Hs.
  assert (H1 : ∃ a1, lq_rep q1 a1 ∧ is_Some (aq_removed a1 !! k)).
  { destruct (Remove_rep q a k Hq) as (q' & E & Hq'). rewrite E in Hr. injection Hr as Hv <-. eexists. split; [done|].
    revert Hv. unfold spec_Remove. destruct (aq_items a) as [|e l] eqn:El; [done|].
    destruct (key_of k (e :: l)) eqn:Ek; [intros _; cbn [snd aq_removed]; rewrite lookup_insert_eq; by eexists|].
    apply key_of_None in Ek. by apply (list_elem_of_fmap_2 fst) in Hin. }
  assert (H2 : ∃ a2, lq_rep q2 a2 ∧ is_Some (aq_removed a2 !! k)).
  { clear Hr Hq Hin. induction Hs as [|x y z Hxy _ IH]; [done|]. apply IH. destruct H1 as (a1 & Hq1 & Hr1). by eapply step_removed. }
  destruct H2 as (a2 & [cs Hq2] & Hr2).
  assert (Hk : is_Some (lq_keyMap q2 !! k)).
  { destruct Hr2 as [v2 Hv2]. destruct (ho_removed _ _ _ Hq2 k v2 Hv2) as (p & Hp & _). by eexists. }
  split; [|unfold lq_Has; by rewrite bool_decide_eq_true_2]. destruct Hk as [p Hp].
  unfold lq_Push. erewrite bind_Ok by reflexivity. by rewrite Hp.
Qed.
End Theorems.

Module LinkedQueueExamples.
Definition lq0 : LinkedQueue Z Z := NewLinkedQueue.
Definition lq3 : LinkedQueue Z Z :=
  let '(_, q) := lq_Push 1 10 lq0 in let '(_, q) := lq_Push 2 20 q in let '(_, q) := lq_Push 3 30 q in q.

Lemma lq3_rep : lq_rep lq3 (mkAbsq [(1, 10); (2, 20); (3, 30)] ∅).
Proof.
  destruct (Push_rep lq0 _ 1 10 New_holds) as (q1 & E1 & R1). destruct (Push_rep q1 _ 2 20 R1) as (q2 & E2 & R2).
  destruct (Push_rep q2 _ 3 30 R2) as (q3 & E3 & R3). unfold lq3. rewrite E1, E2, E3. exact R3.
Qed.

Lemma linked_queue_refines_witness :
  ∃ q', lq_Remove 2 lq3 = (Ok (Some 20), q') ∧ lq_rep q' (mkAbsq [(1, 10); (3, 30)] {[2 := 20]}).
Proof. exact (proj1 (proj2 (proj2 (linked_queue_refines lq3 _ 2 0 lq3_rep)))). Defined.

Definition lq3_removed : LinkedQueue Z Z := (lq_Remove 2 lq3).2.

Lemma removed_key_refused_witness :
  lq_Push 2 99 (lq_Pop lq3_removed).2 = (Ok false, (lq_Pop lq3_removed).2) ∧ lq_Has 2 (lq_Pop lq3_removed).2 = true.
Proof.
  apply (removed_key_refused lq3 (mkAbsq [(1, 10); (2, 20); (3, 30)] ∅) 2 20 99 lq3_removed).
  - exact lq3_rep.
  - cbn. right. left.
  - vm_compute. reflexivity.
  - eapply rtc_once. eapply step_Pop with (r := Ok (Some 10)). vm_compute. reflexivity.
Defined.
End LinkedQueueExamples.
