(* ===== verification/ExpireQueue.v ===== *)
(** * common/queue: the expire queue

    expire.go: items pass through groups, each with an interval; when its time
    in a group is over an item is handed to the handlers and enters the next
    group.  A round of the loop of a group collects what is due under the lock,
    calls the handlers without it, and takes the lock again to pass the items
    on: two steps between which other operations can run.  The order of a
    [range] over a map does not matter for the maps; the handlers get the items
    in that order. *)

From S2P Require Import Prelude.

Section ExpireQueue.
Context {V : Type}.

Record groupItem := mkGroupItem { gi_expiredAt : Z; gi_item : V }.
Record group := mkGroup { g_Interval : Z; g_itemMap : gmap (list Z) groupItem }.
Abbreviation ExpireQueue := (list group).
Definition NewExpireQueue : ExpireQueue := [].

Definition eq_AddGroup (interval : Z) (q : ExpireQueue) : ExpireQueue := q ++ [mkGroup interval ∅].
Definition eq_Size (q : ExpireQueue) : nat := sum_list (size ∘ g_itemMap <$> q).

Definition put_item (expiredAt : Z) (key : bytes) (item : V) (g : group) : group :=
  mkGroup (g_Interval g) (<[key := mkGroupItem expiredAt item]> (g_itemMap g)).

(** [q.groups[0]] of a queue without groups is a panic. *)
Definition eq_Push (now : Z) (key : bytes) (item : V) (q : ExpireQueue) : res ExpireQueue :=
  match q with
  | [] => Panic
  | g :: q => Ok (put_item (i64 (now + g_Interval g)) key item g :: q)
  end.

Definition eq_Remove (key : bytes) (q : ExpireQueue) : ExpireQueue :=
  (λ g, mkGroup (g_Interval g) (delete key (g_itemMap g))) <$> q.

(** What is due in a group. *)
Definition due (now : Z) (g : group) : gmap (list Z) V :=
  gi_item <$> filter (λ e, gi_expiredAt e.2 ≤ now) (g_itemMap g).

(** The first part of a round of the group [idx]. *)
Definition eq_collect (idx : nat) (now : Z) (q : ExpireQueue) : gmap (list Z) V * ExpireQueue :=
  match q !! idx with
  | None => (∅, q)
  | Some g => (due now g, <[idx := mkGroup (g_Interval g) (filter (λ e, ¬ gi_expiredAt e.2 ≤ now) (g_itemMap g))]> q)
  end.

(** The handler is told of every item and of whether it was the last group. *)
Definition is_last (idx : nat) (q : ExpireQueue) : bool := (idx + 1 =? length q)%nat.

(** The second part; [now] is read for every item. *)
Definition eq_pass (idx : nat) (now : bytes → Z) (expired : gmap (list Z) V) (q : ExpireQueue) : ExpireQueue :=
  if bool_decide (expired = ∅) || is_last idx q then q
  else alter (λ g, mkGroup (g_Interval g)
    (map_imap (λ k v, Some (mkGroupItem (i64 (now k + g_Interval g)) v)) expired ∪ g_itemMap g)) (S idx) q.

(** A round that nothing interrupts. *)
Definition eq_round (idx : nat) (now : Z) (now2 : bytes → Z) (q : ExpireQueue) : gmap (list Z) V * ExpireQueue :=
  let '(expired, q) := eq_collect idx now q in (expired, eq_pass idx now2 expired q).

(** The item of a key in a group. *)
Definition held (q : ExpireQueue) (idx : nat) (key : bytes) : option V :=
  g ← q !! idx; gi_item <$> g_itemMap g !! key.

Lemma due_lookup now g key : due now g !! key = (gi ← g_itemMap g !! key; guard (gi_expiredAt gi ≤ now);; Some (gi_item gi)).
Proof.
  unfold due. rewrite lookup_fmap, map_lookup_filter. destruct (g_itemMap g !! key) as [gi|]; [|done].
  cbn. by case_guard.
Qed.

(** What a round does.  The items of the group that are due go to the
    handlers and, unless the group is the last one, into the next group with
    the interval of that group from then; the other items of the group stay,
    and so does everything in the other groups. *)
Theorem expire_round idx now now2 q g key :
  q !! idx = Some g →
  (eq_round idx now now2 q).1 = due now g ∧
  held (eq_round idx now now2 q).2 idx key = (if due now g !! key then None else held q idx key) ∧
  held (eq_round idx now now2 q).2 (S idx) key =
    (if due now g !! key then (if is_last idx q then held q (S idx) key else due now g !! key) else held q (S idx) key) ∧
  (∀ j, j ≠ idx → j ≠ S idx → (eq_round idx now now2 q).2 !! j = q !! j).
Proof.
  intros Hg. unfold eq_round, eq_collect. rewrite Hg. cbn [fst snd].
  set (g' := mkGroup (g_Interval g) (filter (λ e, ¬ gi_expiredAt e.2 ≤ now) (g_itemMap g))).
  assert (Hlt : (idx < length q)%nat) by by apply lookup_lt_Some in Hg.
  assert (Hlast : is_last idx (<[idx := g']> q) = is_last idx q) by (unfold is_last; by rewrite length_insert).
  assert (Hkeep : gi_item <$> g_itemMap g' !! key = if due now g !! key then None else held q idx key).
  { rewrite due_lookup. unfold g', held. rewrite Hg. cbn. rewrite map_lookup_filter.
    destruct (g_itemMap g !! key) as [gi|]; [|done]. cbn. destruct (decide (gi_expiredAt gi ≤ now)).
    - rewrite option_guard_False by (intros H; by apply H). by rewrite option_guard_True.
    - rewrite option_guard_True by done. by rewrite option_guard_False. }
  unfold eq_pass. rewrite Hlast. split; [done|].
  destruct (bool_decide (due now g = ∅)) eqn:He; cbn [orb].
  { apply bool_decide_eq_true in He. rewrite He, lookup_empty in *. split_and!.
    - unfold held at 1. rewrite list_lookup_insert_eq by done. done.
    - unfold held. by rewrite list_lookup_insert_ne by lia.
    - intros j Hj _. by rewrite list_lookup_insert_ne. }
  destruct (is_last idx q) eqn:Hl.
  { split_and!.
    - unfold held at 1. by rewrite list_lookup_insert_eq.
    - unfold held. rewrite list_lookup_insert_ne by lia. by destruct (due now g !! key).
    - intros j Hj _. by rewrite list_lookup_insert_ne. }
  split_and!.
  - unfold held at 1. rewrite list_lookup_alter_ne, list_lookup_insert_eq by (done || lia). done.
  - unfold held. rewrite list_lookup_alter_eq, list_lookup_insert_ne by lia.
    unfold is_last in Hl. apply Nat.eqb_neq in Hl.
    destruct (lookup_lt_is_Some_2 q (S idx)) as [n Hn]; [lia|]. rewrite Hn. cbn.
    rewrite lookup_union, map_lookup_imap. destruct (due now g !! key) as [v|]; cbn.
    + by destruct (g_itemMap n !! key).
    + by rewrite (left_id None _).
  - intros j H1 H2. by rewrite list_lookup_alter_ne, list_lookup_insert_ne.
Qed.

(** [Remove] between the two parts of a round comes too late: the item that
    was removed is in the next group afterwards. *)
Theorem removed_returns idx now now2 q g n key v :
  q !! idx = Some g → q !! S idx = Some n → due now g !! key = Some v →
  held (eq_pass idx now2 (eq_collect idx now q).1 (eq_Remove key (eq_collect idx now q).2)) (S idx) key = Some v.
Proof.
  intros Hg Hn Hd. unfold eq_collect. rewrite Hg. cbn [fst snd]. unfold eq_pass, is_last, eq_Remove.
  rewrite length_fmap, length_insert. apply lookup_lt_Some in Hn as Hlt.
  rewrite bool_decide_eq_false_2 by (intros E; by rewrite E, lookup_empty in Hd). cbn [orb].
  destruct (Nat.eqb_spec (idx + 1) (length q)); [lia|]. unfold held.
  rewrite list_lookup_alter_eq, list_lookup_fmap, list_lookup_insert_ne, Hn by lia. cbn.
  rewrite lookup_union, map_lookup_imap, Hd. cbn. by destruct (delete key (g_itemMap n) !! key).
Qed.
End ExpireQueue.
Arguments groupItem : clear implicits.
Arguments group : clear implicits.
Abbreviation ExpireQueue V := (list (group V)).

Module ExpireExamples.
Definition q0 : ExpireQueue Z := [mkGroup 60 {[ [1] := mkGroupItem 60 7; [2] := mkGroupItem 90 8 ]}; mkGroup 600 ∅].

Lemma expire_round_witness :
  held (eq_round 0 60 (λ _, 61) q0).2 1 [1] = Some 7 ∧ held (eq_round 0 60 (λ _, 61) q0).2 0 [2] = Some 8.
Proof.
  destruct (expire_round 0 60 (λ _, 61) q0 (mkGroup 60 {[ [1] := mkGroupItem 60 7; [2] := mkGroupItem 90 8 ]}) [1] eq_refl) as (_ & _ & H1 & _).
  destruct (expire_round 0 60 (λ _, 61) q0 (mkGroup 60 {[ [1] := mkGroupItem 60 7; [2] := mkGroupItem 90 8 ]}) [2] eq_refl) as (_ & H2 & _).
  split; [rewrite H1|rewrite H2]; vm_compute; reflexivity.
Defined.

Lemma removed_returns_witness :
  held (eq_pass 0 (λ _, 61) (eq_collect 0 60 q0).1 (eq_Remove [1] (eq_collect 0 60 q0).2)) 1 [1] = Some 7.
Proof.
  apply (removed_returns 0 60 (λ _, 61) q0 (mkGroup 60 {[ [1] := mkGroupItem 60 7; [2] := mkGroupItem 90 8 ]}) (mkGroup 600 ∅) [1] 7).
  - reflexivity.
  - reflexivity.
  - vm_compute. reflexivity.
Defined.
End ExpireExamples.
