(* ===== verification/Search.v ===== *)
(** * Binary search and ordered insertion

    [sort.Search] of Go, and the insertion of an element at the position it
    finds in a list ordered by a strict total order: the rank table and the
    sorted queue keep their lists this way. *)

From S2P Require Import Prelude.

(** ** sort.Search *)

(** The loop on the interval [i, j); an iteration at least halves it, so the
    length of the list is enough fuel. *)
Fixpoint search_loop (fuel : nat) (f : nat → bool) (i j : nat) : nat :=
  match fuel with
  | O => i
  | S fuel =>
      if (i <? j)%nat then
        let h := ((i + j) / 2)%nat in
        if negb (f h) then search_loop fuel f (S h) j else search_loop fuel f i h
      else i
  end.

Definition sort_Search (n : nat) (f : nat → bool) : nat := search_loop n f 0 n.

(** [f] is false up to some index and true from there on. *)
Definition monotone (n : nat) (f : nat → bool) : Prop :=
  ∀ i j, (i ≤ j)%nat → (j < n)%nat → f i = true → f j = true.

Lemma search_loop_spec fuel f n i j :
  monotone n f → (i ≤ j ≤ n)%nat → (j - i ≤ fuel)%nat →
  (∀ k, (k < i)%nat → f k = false) → (∀ k, (j ≤ k < n)%nat → f k = true) →
  let r := search_loop fuel f i j in
  (r ≤ n)%nat ∧ (∀ k, (k < r)%nat → f k = false) ∧ (∀ k, (r ≤ k < n)%nat → f k = true).
Proof.
  intros Hm. revert i j. induction fuel as [|fuel IH]; intros i j Hij Hf Hlo Hhi; cbn [search_loop].
  { assert (i = j) as -> by lia. split_and!; [lia|done|done]. }
  destruct (Nat.ltb_spec i j) as [Hlt|Hge]; [|assert (i = j) as -> by lia; split_and!; [lia|done|done]].
  assert (Hh : (i ≤ (i + j) / 2 < j)%nat).
  { pose proof (Nat.div_mod (i + j) 2). pose proof (Nat.mod_upper_bound (i + j) 2). lia. }
  set (h := ((i + j) / 2)%nat) in *. clearbody h. destruct (f h) eqn:E; cbn [negb].
  - apply IH; [lia|lia|done|]. intros k Hk. apply (Hm h k); [lia|lia|done].
  - apply IH; [lia|lia| |done]. intros k Hk.
    destruct (f k) eqn:Ek; [|done]. rewrite <- E. symmetry. apply (Hm k h); [lia|lia|done].
Qed.

(** [sort.Search] returns the first index at which a monotone test holds. *)
Lemma sort_Search_spec n f :
  monotone n f →
  (sort_Search n f ≤ n)%nat ∧ (∀ k, (k < sort_Search n f)%nat → f k = false) ∧
  (∀ k, (sort_Search n f ≤ k < n)%nat → f k = true).
Proof. intros Hm. apply search_loop_spec; [done|lia|lia|lia|lia]. Qed.

Lemma search_loop_ext fuel n f g i j :
  (∀ k, (k < n)%nat → f k = g k) → (j ≤ n)%nat → search_loop fuel f i j = search_loop fuel g i j.
Proof.
  intros Hfg. revert i j. induction fuel as [|fuel IH]; intros i j Hj; cbn [search_loop]; [done|].
  destruct (Nat.ltb_spec i j) as [Hlt|]; [|done].
  assert (Hh : ((i + j) / 2 < j)%nat).
  { pose proof (Nat.div_mod (i + j) 2). pose proof (Nat.mod_upper_bound (i + j) 2). lia. }
  rewrite (Hfg ((i + j) / 2)%nat) by lia. destruct (negb _); apply IH; lia.
Qed.

Lemma sort_Search_ext n f g : (∀ k, (k < n)%nat → f k = g k) → sort_Search n f = sort_Search n g.
Proof. intros Hfg. by apply (search_loop_ext _ n). Qed.

(** ** Ordered insertion *)

Definition insert_at {A} (idx : nat) (x : A) (l : list A) : list A := take idx l ++ x :: drop idx l.

Lemma insert_at_Permutation {A} idx (x : A) l : insert_at idx x l ≡ₚ x :: l.
Proof. unfold insert_at. rewrite <- Permutation_middle. by rewrite take_drop. Qed.

Lemma insert_at_length {A} idx (x : A) l : length (insert_at idx x l) = S (length l).
Proof. apply (Permutation_length (insert_at_Permutation idx x l)). Qed.

Section Ordered.
Context {A : Type} (lt : A → A → bool).

(** The test of the searches: is [x] before the element at [i]? *)
Definition before (x : A) (l : list A) (i : nat) : bool :=
  match l !! i with Some y => lt x y | None => false end.
Definition position (x : A) (l : list A) : nat := sort_Search (length l) (before x l).

Abbreviation Lt := (λ x y, lt x y = true) (only parsing).
Hypothesis lt_trans : ∀ x y z, lt x y = true → lt y z = true → lt x z = true.

Lemma sorted_lookup l i j x y :
  StronglySorted Lt l → (i < j)%nat → l !! i = Some x → l !! j = Some y → lt x y = true.
Proof.
  intros Hs. revert i j. induction Hs as [|z l Hs IH Hall]; intros [|i] [|j] Hij Hx Hy; simplify_eq/=; try lia.
  - rewrite Forall_forall in Hall. by eapply Hall, list_elem_of_lookup_2.
  - eapply (IH i j); [lia|done..].
Qed.

Lemma before_monotone x l : StronglySorted Lt l → monotone (length l) (before x l).
Proof using lt_trans.
  intros Hs i j Hij Hj. unfold before.
  destruct (lookup_lt_is_Some_2 l j Hj) as [y Hy]. rewrite Hy.
  destruct (l !! i) as [z|] eqn:Hz; [|done]. intros Hxz.
  destruct (decide (i = j)) as [->|Hne]; [by simplify_eq|].
  apply (lt_trans x z y); [done|]. apply (sorted_lookup l i j); [done|lia|done|done].
Qed.

Lemma position_spec x l :
  StronglySorted Lt l →
  (position x l ≤ length l)%nat ∧
  (∀ k y, (k < position x l)%nat → l !! k = Some y → lt x y = false) ∧
  (∀ k y, (position x l ≤ k)%nat → l !! k = Some y → lt x y = true).
Proof using lt_trans.
  intros Hs. destruct (sort_Search_spec _ _ (before_monotone x l Hs)) as (H1 & H2 & H3).
  fold (position x l) in *. split; [done|]. split; intros k y Hk Hy.
  - specialize (H2 k Hk). unfold before in H2. by rewrite Hy in H2.
  - assert (Hlt : (k < length l)%nat) by (by eapply lookup_lt_Some). specialize (H3 k (conj Hk Hlt)).
    unfold before in H3. by rewrite Hy in H3.
Qed.

(** Insertion at the position found keeps the order, when the new element
    is comparable with every element of the list. *)
Lemma insert_sorted x l :
  StronglySorted Lt l → (∀ y, y ∈ l → lt x y = true ∨ lt y x = true) →
  StronglySorted Lt (insert_at (position x l) x l).
Proof using lt_trans.
  intros Hs Htot. destruct (position_spec x l Hs) as (H1 & H2 & H3).
  set (p := position x l) in *. clearbody p. unfold insert_at.
  assert (Hlo : Forall (λ y, lt y x = true) (take p l)).
  { apply Forall_forall. intros y [k Hk]%list_elem_of_lookup. apply lookup_take_Some in Hk as [Hk Hlt].
    destruct (Htot y) as [Hxy|]; [by eapply list_elem_of_lookup_2| |done]. by rewrite (H2 k y Hlt Hk) in Hxy. }
  assert (Hhi : Forall (λ y, lt x y = true) (drop p l)).
  { apply Forall_forall. intros y [k Hk]%list_elem_of_lookup. rewrite lookup_drop in Hk.
    apply (H3 (p + k)%nat y); [lia|done]. }
  clear H1 H2 H3 Htot. revert Hlo Hhi. rewrite <- (take_drop p l) in Hs.
  generalize dependent (drop p l). generalize (take p l). intros l1 l2 Hs Hlo Hhi.
  induction l1 as [|y l1 IH]; simpl in *.
  - by constructor.
  - apply StronglySorted_inv in Hs as [Hs Hall]. inversion_clear Hlo as [|?? Hy Hlo'].
    constructor; [by apply IH|]. apply Forall_app in Hall as [Ha Hb].
    apply Forall_app. split; [done|]. constructor; [done|]. apply Hb.
Qed.

Lemma sorted_take l p : StronglySorted Lt l → StronglySorted Lt (take p l).
Proof.
  intros Hs. revert p. induction Hs as [|x l Hs IH Hall]; intros [|p]; simpl; try constructor; [by apply IH|].
  by apply Forall_take.
Qed.

Lemma sorted_filter (P : A → Prop) `{∀ x, Decision (P x)} l :
  StronglySorted Lt l → StronglySorted Lt (filter P l).
Proof.
  induction 1 as [|x l Hs IH Hall]; [constructor|]. rewrite filter_cons.
  case_decide; [|done]. constructor; [done|]. apply Forall_forall. intros y [_ Hy]%list_elem_of_filter.
  rewrite Forall_forall in Hall. by apply Hall.
Qed.
End Ordered.
