(* ===== verification/SortedQueue.v ===== *)
(** * common/queue: the sorted queue

    sorted.go: items ordered by a priority, in an array of which the used part
    [head, head+size) moves: [Pop] leaves a gap before it, [insert] shifts the
    used part in the direction in which there is room, and a large array is
    compacted.  The nodes use it to put received blocks in order of height.
    The specification is a plain ordered list, and the theorem of this file
    refines it. *)

From S2P Require Import Prelude Search.

Section SortedQueue.
Context {V : Type}.

(** A value of [interface{}] is [None] for [nil], so is a nil pointer in the
    array. *)
Record sortedQueueItem := mkItem { si_value : option V; si_priority : Z }.

Record SortedQueue := mkSQ {
  sq_items : list (option sortedQueueItem);
  sq_head : nat;
  sq_size : nat;
}.
Definition NewSortedQueue : SortedQueue := mkSQ [] 0 0.

(** Go's slices: [copy(dst[i:], src)] and [l[i:j]]. *)
Definition copy {A} (dst : list A) (i : nat) (src : list A) : list A :=
  take i dst ++ take (length dst - i) src ++ drop (i + length src) dst.
Definition slice {A} (l : list A) (i j : nat) : list A := take (j - i) (drop i l).

(** The item that is read at an index.  A nil pointer or an index out of range
    is a panic; the invariant below says that there is none in the used part. *)
Definition item_at (q : SortedQueue) (i : nat) : sortedQueueItem :=
  default (mkItem None 0) (mjoin (sq_items q !! i)).

Definition sq_insert (value : option V) (Priority : Z) (q : SortedQueue) : SortedQueue :=
  let item := Some (mkItem value Priority) in
  let idx := sort_Search (sq_size q) (λ i, Priority <? si_priority (item_at q (sq_head q + i))) in
  let idx := (idx + sq_head q)%nat in
  if (sq_head q <=? idx)%nat && (idx <? sq_head q + sq_size q)%nat && (si_priority (item_at q idx) =? Priority)
  then mkSQ (<[idx := item]> (sq_items q)) (sq_head q) (sq_size q)
  else if (sq_size q =? length (sq_items q))%nat then
    let items := sq_items q ++ [item] in
    let items := copy items (idx + 1) (drop idx items) in
    mkSQ (<[idx := item]> items) (sq_head q) (S (sq_size q))
  else
    let last := (sq_head q + sq_size q)%nat in
    if (last =? length (sq_items q))%nat then
      let items := copy (sq_items q) (sq_head q - 1) (drop (sq_head q) (sq_items q)) in
      let head := (sq_head q - 1)%nat in
      let idx := (idx - 1)%nat in
      let items := if negb (idx =? last - 1)%nat then copy items (idx + 1) (slice items idx last) else items in
      mkSQ (<[idx := item]> items) head (S (sq_size q))
    else
      let items := copy (sq_items q) (idx + 1) (slice (sq_items q) idx last) in
      mkSQ (<[idx := item]> items) (sq_head q) (S (sq_size q)).

Definition peekInternal (q : SortedQueue) : option V * Z :=
  if (sq_size q =? 0)%nat then (None, 0)
  else let item := item_at q (sq_head q) in (si_value item, si_priority item).

(** The loop of [findInternal] from index [i], [n] indices to go. *)
Fixpoint find_loop (q : SortedQueue) (Priority : Z) (i n : nat) : option V :=
  match n with
  | O => None
  | S n =>
      let item := item_at q i in
      if si_priority item =? Priority then si_value item
      else if Priority <? si_priority item then None
      else find_loop q Priority (S i) n
  end.
Definition findInternal (Priority : Z) (q : SortedQueue) : option V :=
  if (sq_size q =? 0)%nat then None else find_loop q Priority (sq_head q) (sq_size q).

Definition popInternal (q : SortedQueue) : option V * SortedQueue :=
  if (sq_size q =? 0)%nat then (None, q)
  else
    let item := item_at q (sq_head q) in
    let items := <[sq_head q := None]> (sq_items q) in
    let head := S (sq_head q) in
    let size := (sq_size q - 1)%nat in
    let q' :=
      if (4096 <? length items)%nat then
        if (size <? 1024)%nat then mkSQ (copy (replicate 2048 None) 0 (slice items head (head + size))) 0 size
        else if (length items / 2 + 1 <? head)%nat then mkSQ (copy items 0 (slice items head (head + size))) 0 size
        else mkSQ items head size
      else mkSQ items head size in
    (si_value item, q').

(** The loop of [PopUntil]: an iteration that goes on removes an item, so the
    size is enough fuel. *)
Fixpoint popuntil_loop (fuel : nat) (Priority : Z) (q : SortedQueue) : option V * SortedQueue :=
  let '(item, itemPriority) := peekInternal q in
  match item with
  | None => (None, q)
  | Some _ =>
      if itemPriority <? Priority then
        match fuel with O => (None, q) | S fuel => popuntil_loop fuel Priority (popInternal q).2 end
      else if itemPriority =? Priority then (item, (popInternal q).2)
      else (None, q)
  end.

Definition sq_Insert (value : option V) (Priority : Z) (q : SortedQueue) : SortedQueue := sq_insert value Priority q.
Definition FindOrInsert (value : option V) (Priority : Z) (q : SortedQueue) : option V * SortedQueue :=
  match findInternal Priority q with
  | Some item => (Some item, q)
  | None => (None, sq_insert value Priority q)
  end.
Definition sq_Peek (q : SortedQueue) : option V * Z := peekInternal q.
Definition sq_Find (Priority : Z) (q : SortedQueue) : option V := findInternal Priority q.
Definition PopUntil (Priority : Z) (q : SortedQueue) : option V * SortedQueue := popuntil_loop (sq_size q) Priority q.
Definition sq_Pop (q : SortedQueue) : option V * SortedQueue := popInternal q.
Definition sq_Size (q : SortedQueue) : nat := sq_size q.
(** The items that [Iter] passes to the callback, in order. *)
Definition sq_Iter (q : SortedQueue) : list (option V * Z) :=
  (λ i, let item := item_at q (sq_head q + i) in (si_value item, si_priority item)) <$> seq 0 (sq_size q).

(** ** The specification: an ordered list of values with priorities *)

Abbreviation entry := (V * Z)%type.
Definition spec_insert (v : V) (p : Z) (l : list entry) : list entry :=
  filter (λ e, e.2 ≤ p) l ++ (v, p) :: filter (λ e, p < e.2) l.
Definition spec_find (p : Z) (l : list entry) : option V := fst <$> head (filter (λ e, e.2 = p) l).
Definition spec_pop_until (p : Z) (l : list entry) : option V * list entry :=
  match filter (λ e, p ≤ e.2) l with
  | (v, p') :: l' => if p' =? p then (Some v, l') else (None, (v, p') :: l')
  | [] => (None, [])
  end.

(** ** The invariant *)

Abbreviation cell := (λ e : entry, Some (mkItem (Some e.1) e.2)).

(** The used part holds the entries [l], in order of priority. *)
Record sq_holds (q : SortedQueue) (l : list entry) : Prop := {
  sh_split : ∃ pre post, sq_items q = pre ++ (cell <$> l) ++ post ∧ sq_head q = length pre;
  sh_size : sq_size q = length l;
  sh_sorted : StronglySorted (λ x y : entry, (x.2 <=? y.2) = true) l;
}.

Lemma item_at_holds q l i e : sq_holds q l → l !! i = Some e → item_at q (sq_head q + i) = mkItem (Some e.1) e.2.
Proof.
  intros [(pre & post & Hi & Hh) _ _] He. unfold item_at. rewrite Hi, Hh, lookup_app_r by lia.
  replace (length pre + i - length pre)%nat with i by lia.
  rewrite lookup_app_l by (rewrite length_fmap; by eapply lookup_lt_Some).
  rewrite list_lookup_fmap.
  by rewrite He.
Qed.

(** ** Shifts of the array *)

Lemma copy_over {A} (a b c k : list A) : length k = length b → copy (a ++ b ++ c) (length a) k = a ++ k ++ c.
Proof.
  intros Hk. unfold copy. rewrite take_app_length, drop_app, drop_ge by lia.
  replace (length a + length k - length a)%nat with (length b) by lia.
  rewrite drop_app_length, take_ge; [done|]. rewrite !length_app. lia.
Qed.

(** The items after the insertion point move one place to the right. *)
Lemma shift_insert {A} (a b c : list A) x y :
  <[length a := x]> (copy (a ++ b ++ y :: c) (length a + 1) b) = a ++ x :: b ++ c.
Proof.
  destruct (b ++ y :: c) as [|z r] eqn:Ez; [by destruct b|].
  assert (Hr : length r = length (b ++ c)).
  { apply (f_equal length) in Ez. rewrite !length_app in *. simpl in *. lia. }
  assert (Hd : drop (length b) r = c).
  { apply (f_equal (drop (S (length b)))) in Ez. rewrite drop_app, drop_ge in Ez by lia.
    replace (S (length b) - length b)%nat with 1%nat in Ez by lia. by simpl in Ez. }
  rewrite <- (take_drop (length b) r) at 1. rewrite Hd.
  change (z :: take (length b) r ++ c) with ([z] ++ take (length b) r ++ c).
  rewrite (app_assoc a). replace (length a + 1)%nat with (length (a ++ [z])) by (rewrite length_app; done).
  rewrite copy_over by (rewrite length_take; rewrite length_app in Hr; lia).
  rewrite <- app_assoc, insert_app_r_alt, Nat.sub_diag by lia. done.
Qed.

(** When the source is longer than what is left of the array, [copy] stops at its end. *)
Lemma copy_end {A} (a b e : list A) y : copy (a ++ b ++ [y]) (length a + 1) (b ++ e) = copy (a ++ b ++ [y]) (length a + 1) b.
Proof.
  unfold copy. f_equal. rewrite !length_app. cbn [length].
  replace (length a + (length b + 1) - (length a + 1))%nat with (length b) by lia.
  rewrite take_app_length, take_ge by lia. f_equal. rewrite !drop_ge; [done|rewrite !length_app; simpl; lia..].
Qed.

(** The whole used part moves one place to the left. *)
Lemma copy_left {A} (a l : list A) y : ∃ z, copy (a ++ y :: l) (length a) l = a ++ l ++ [z].
Proof.
  destruct l as [|x l] using rev_ind; [exists y; unfold copy|exists x].
  { rewrite take_app_length, take_nil, Nat.add_0_r, drop_app_length. done. }
  change (a ++ y :: l ++ [x]) with (a ++ (y :: l) ++ [x]).
  apply (copy_over a (y :: l) [x] (l ++ [x])). rewrite length_app. simpl. lia.
Qed.

(** ** Insertion *)

(** The index found by the binary search splits the entries at the priority. *)
Lemma search_splits q l p :
  sq_holds q l →
  let k := sort_Search (sq_size q) (λ i, p <? si_priority (item_at q (sq_head q + i))) in
  (k ≤ length l)%nat ∧ take k l = filter (λ e, e.2 ≤ p) l ∧ drop k l = filter (λ e, p < e.2) l.
Proof.
  intros Hq k. set (f := λ i, match l !! i with Some e => p <? e.2 | None => false end).
  assert (Ek : k = sort_Search (length l) f).
  { unfold k. rewrite (sh_size _ _ Hq). apply sort_Search_ext. intros i Hi. unfold f.
    destruct (lookup_lt_is_Some_2 l i Hi) as [e He]. by rewrite (item_at_holds q l i e Hq He), He. }
  assert (Hm : monotone (length l) f).
  { intros i j Hij Hj. unfold f. destruct (lookup_lt_is_Some_2 l j Hj) as [e He]. rewrite He.
    destruct (l !! i) as [d|] eqn:Hd; [|done]. destruct (decide (i = j)) as [->|Hne]; [by simplify_eq|].
    pose proof (sorted_lookup _ l i j d e (sh_sorted _ _ Hq) ltac:(lia) Hd He) as Hle. simpl in Hle. lia. }
  destruct (sort_Search_spec _ _ Hm) as (H1 & H2 & H3). rewrite <- Ek in *. clearbody k.
  assert (Hlo : Forall (λ e, e.2 ≤ p) (take k l)).
  { apply Forall_forall. intros e [i Hi]%list_elem_of_lookup. apply lookup_take_Some in Hi as [Hi Hlt].
    specialize (H2 i Hlt). unfold f in H2. rewrite Hi in H2. lia. }
  assert (Hhi : Forall (λ e, p < e.2) (drop k l)).
  { apply Forall_forall. intros e [i Hi]%list_elem_of_lookup. rewrite lookup_drop in Hi.
    specialize (H3 (k + i)%nat (conj (Nat.le_add_r _ _) (lookup_lt_Some _ _ _ Hi))). unfold f in H3. rewrite Hi in H3. lia. }
  rewrite <- (take_drop k l) at 3 5. rewrite !filter_app. split; [done|]. split.
  - rewrite filter_all, filter_none, app_nil_r; [done| |done]. eapply Forall_impl; [exact Hhi|]. intros e; simpl; lia.
  - rewrite filter_none, filter_all; [done|done|]. eapply Forall_impl; [exact Hlo|]. intros e; simpl; lia.
Qed.

Lemma spec_insert_sorted v p (l : list entry) :
  StronglySorted (λ x y : entry, (x.2 <=? y.2) = true) l →
  StronglySorted (λ x y : entry, (x.2 <=? y.2) = true) (spec_insert v p l).
Proof.
  induction 1 as [|e l Hs IH Hall]; unfold spec_insert in *; [by repeat constructor|].
  rewrite !filter_cons. rewrite Forall_forall in Hall. case_decide as He; [rewrite decide_False by lia|rewrite decide_True by lia].
  - cbn [app]. constructor; [done|]. apply Forall_forall. intros d.
    rewrite elem_of_app, elem_of_cons, !list_elem_of_filter. intros [[_ Hd]|[->|[_ Hd]]]; [by apply Hall| |by apply Hall].
    simpl. lia.
  - rewrite filter_none in *; [|apply Forall_forall; intros d Hd%Hall; simpl; lia..]. cbn [app] in *.
    constructor; [constructor|].
    + by apply StronglySorted_inv in IH as [? _].
    + apply Forall_forall. intros d [_ Hd]%list_elem_of_filter. by apply Hall.
    + apply Forall_forall. intros d [->|[_ Hd%Hall]%list_elem_of_filter]%elem_of_cons; simpl; lia.
Qed.

Lemma slice_mid {A} (a b c : list A) : slice (a ++ b ++ c) (length a) (length a + length b) = b.
Proof. unfold slice. rewrite drop_app_length, Nat.add_comm, Nat.add_sub. apply take_app_length. Qed.

(** The three ways of making room, each for the array [a ++ b] or [a ++ b ++ c]
    whose part [b] comes after the insertion point. *)
Lemma room_append {A} (a b : list A) x :
  <[length a := x]> (copy ((a ++ b) ++ [x]) (length a + 1) (drop (length a) ((a ++ b) ++ [x]))) = a ++ x :: b.
Proof. rewrite <- app_assoc, drop_app_length, copy_end, shift_insert. by rewrite app_nil_r. Qed.

Lemma room_right {A} (a b c : list A) x y :
  <[length a := x]> (copy (a ++ b ++ y :: c) (length a + 1) (slice (a ++ b ++ y :: c) (length a) (length a + length b))) =
  a ++ x :: b ++ c.
Proof. rewrite slice_mid. apply shift_insert. Qed.

Lemma room_left {A} (pre a b : list A) x y :
  let items := copy (pre ++ y :: a ++ b) (length pre) (a ++ b) in
  let idx := length (pre ++ a) in
  <[idx := x]> (if negb (idx =? length (pre ++ a ++ b))%nat
                then copy items (idx + 1) (slice items idx (length (pre ++ a ++ b) + 1)) else items) =
  pre ++ a ++ x :: b.
Proof.
  intros items idx. destruct (copy_left pre (a ++ b) y) as [z Hz]. fold items in Hz. clearbody items. subst items.
  replace (length (pre ++ a ++ b)) with (idx + length b)%nat by (unfold idx; rewrite !length_app; lia).
  replace (idx + length b + 1)%nat with (idx + length (b ++ [z]))%nat by (rewrite length_app; simpl; lia).
  replace (pre ++ (a ++ b) ++ [z]) with ((pre ++ a) ++ b ++ [z]) by (by rewrite <- !app_assoc).
  destruct (Nat.eqb_spec idx (idx + length b)) as [E0|E0]; cbn [negb].
  - assert (b = []) as -> by (apply nil_length_inv; lia). cbn [app].
    unfold idx. rewrite insert_app_r_alt, Nat.sub_diag by lia. by rewrite <- app_assoc.
  - pose proof (slice_mid (pre ++ a) (b ++ [z]) []) as Hs. rewrite app_nil_r in Hs. fold idx in Hs. rewrite Hs.
    unfold idx. rewrite copy_end, shift_insert. by rewrite app_nil_r, <- app_assoc.
Qed.

(** The item at the index found has a larger priority: [insert] never takes
    the branch that would replace an item of the same priority. *)
Lemma no_replacement q l p k :
  sq_holds q l → drop k l = filter (λ e, p < e.2) l →
  (sq_head q <=? k + sq_head q)%nat && (k + sq_head q <? sq_head q + sq_size q)%nat &&
    (si_priority (item_at q (k + sq_head q)) =? p) = false.
Proof.
  intros Hq Hhi. pose proof (sh_size _ _ Hq) as Hsz.
  destruct (Nat.ltb_spec (k + sq_head q) (sq_head q + sq_size q)) as [Hlt|]; [|by rewrite andb_false_r].
  destruct (lookup_lt_is_Some_2 l k) as [e He]; [lia|]. rewrite Nat.add_comm, (item_at_holds q l k e Hq He).
  assert (Hin : e ∈ drop k l) by (apply (list_elem_of_lookup_2 _ 0); by rewrite lookup_drop, Nat.add_0_r).
  rewrite Hhi, list_elem_of_filter in Hin. rewrite andb_false_iff. right. simpl. lia.
Qed.

Lemma insert_holds q l v p : sq_holds q l → sq_holds (sq_insert (Some v) p q) (spec_insert v p l).
Proof.
  intros Hq. pose proof (search_splits q l p Hq) as Hk. pose proof Hq as [(pre & post & Hi & Hh) Hsz Hso].
  unfold sq_insert. cbv zeta in *. set (k := sort_Search _ _) in *. clearbody k. destruct Hk as (Hk & Hlo & Hhi).
  rewrite (no_replacement q l p k Hq Hhi). unfold spec_insert. pose proof (spec_insert_sorted v p l Hso) as Hso'. unfold spec_insert in Hso'.
  rewrite <- Hlo, <- Hhi in *. rewrite <- (take_drop k l), fmap_app in Hi.
  assert (Ek : length (cell <$> take k l) = k) by (rewrite length_fmap, length_take; lia).
  assert (El : (length (cell <$> drop k l) = length l - k)%nat) by (rewrite length_fmap, length_drop; lia).
  assert (Hlen : S (sq_size q) = length (take k l ++ (v, p) :: drop k l)).
  { rewrite length_app, length_take. cbn [length]. rewrite length_drop. lia. }
  assert (Hc : (cell <$> (take k l ++ (v, p) :: drop k l)) = (cell <$> take k l) ++ Some (mkItem (Some v) p) :: (cell <$> drop k l)).
  { rewrite fmap_app. reflexivity. }
  set (a := cell <$> take k l) in *. set (b := cell <$> drop k l) in *. rewrite Hh.
  assert (Htot : length (sq_items q) = (length pre + length l + length post)%nat).
  { rewrite Hi, !length_app. lia. }
  destruct (Nat.eqb_spec (sq_size q) (length (sq_items q))) as [Ea|Ea].
  - assert (pre = [] ∧ post = []) as [-> ->] by (split; apply nil_length_inv; lia).
    cbn [app length] in *. rewrite app_nil_r in Hi. pose proof (room_append a b (Some (mkItem (Some v) p))) as Hr. rewrite Ek in Hr.
    rewrite Nat.add_0_r, Hi, Hr. split; [exists [], []|done|done]. cbn [sq_items sq_head app length].
    by rewrite app_nil_r, Hc.
  - destruct (Nat.eqb_spec (length pre + sq_size q) (length (sq_items q))) as [Eb|Eb].
    + assert (post = []) as -> by (apply nil_length_inv; lia). rewrite app_nil_r in Hi.
      destruct (snoc_view pre) as [->|(pre' & y & ->)]; [simpl in *; lia|].
      rewrite <- app_assoc in Hi. cbn [app] in Hi. rewrite (length_app pre' [y]) in *. cbn [length] in *.
      pose proof (room_left pre' a b (Some (mkItem (Some v) p)) y) as Hr. cbv zeta in Hr.
      replace (length (pre' ++ a)) with (k + (length pre' + 1) - 1)%nat in Hr by (rewrite length_app; lia).
      replace (length (pre' ++ a ++ b)) with (length pre' + 1 + sq_size q - 1)%nat in Hr by (rewrite !length_app; lia).
      replace (length pre' + 1 + sq_size q - 1 + 1)%nat with (length pre' + 1 + sq_size q)%nat in Hr by lia.
      replace (drop (length pre' + 1) (sq_items q)) with (a ++ b).
      2:{ rewrite Hi. change (y :: a ++ b) with ([y] ++ a ++ b). rewrite app_assoc.
          replace (length pre' + 1)%nat with (length (pre' ++ [y])) by (by rewrite length_app). by rewrite drop_app_length. }
      replace (length pre' + 1 - 1)%nat with (length pre') by lia. rewrite Hi, Hr.
      split; [exists pre', []|done|done]. cbn [sq_items sq_head]. split; [|done]. by rewrite app_nil_r, Hc.
    + destruct post as [|y post]; [simpl in *; lia|].
      pose proof (room_right (pre ++ a) b post (Some (mkItem (Some v) p)) y) as Hr. rewrite <- !app_assoc in Hr.
      replace (length (pre ++ a)) with (k + length pre)%nat in Hr by (rewrite length_app; lia).
      replace (k + length pre + length b)%nat with (length pre + sq_size q)%nat in Hr by lia.
      rewrite <- (app_assoc a) in Hi. rewrite Hi, Hr.
      split; [exists pre, post|done|done]. cbn [sq_items sq_head]. split; [|done]. by rewrite Hc, <- app_assoc.
Qed.

(** ** Reading and removal *)

Lemma Peek_holds q l : sq_holds q l → peekInternal q = match l with (v, p) :: _ => (Some v, p) | [] => (None, 0) end.
Proof.
  intros Hq. unfold peekInternal. rewrite (sh_size _ _ Hq). destruct l as [|[v p] l]; [done|]. cbn [length Nat.eqb].
  by rewrite <- (Nat.add_0_r (sq_head q)), (item_at_holds q _ 0 (v, p) Hq).
Qed.

Lemma pop_holds q e l : sq_holds q (e :: l) → (popInternal q).1 = Some e.1 ∧ sq_holds (popInternal q).2 l.
Proof.
  intros Hq. pose proof Hq as [(pre & post & Hi & Hh) Hsz Hso]. unfold popInternal.
  apply StronglySorted_inv in Hso as [Hso _]. cbn [length] in Hsz. rewrite Hsz. cbn [Nat.eqb].
  replace (item_at q (sq_head q)) with (mkItem (Some e.1) e.2) by (by rewrite <- (item_at_holds q _ 0 e Hq), Nat.add_0_r).
  cbn [fst snd si_value]. split; [done|]. cbn [Nat.sub]. rewrite Nat.sub_0_r.
  assert (Hit : <[sq_head q := None]> (sq_items q) = (pre ++ [None]) ++ (cell <$> l) ++ post).
  { rewrite Hi, Hh, insert_app_r_alt, Nat.sub_diag, <- app_assoc by lia. done. }
  assert (Hpre : S (sq_head q) = length (pre ++ [None (A := sortedQueueItem)])) by (rewrite length_app, Hh; simpl; lia).
  rewrite Hit, Hpre. set (pre' := pre ++ [None]) in *. clearbody pre'.
  assert (Hsl : slice (pre' ++ (cell <$> l) ++ post) (length pre') (length pre' + length l) = cell <$> l).
  { replace (length l) with (length (cell <$> l)) by apply length_fmap. apply slice_mid. }
  rewrite Hsl. destruct (4096 <? _)%nat; [destruct (Nat.ltb_spec (length l) 1024) as [Hlt|]; [|destruct (_ <? length pre')%nat]|].
  - split; [exists [], (drop (length l) (replicate 2048 None))|done|done]. cbn [sq_items sq_head app]. split; [|done].
    unfold copy. rewrite take_0, Nat.add_0_l, length_fmap, take_ge; [done|]. rewrite length_fmap, length_replicate. lia.
  - split; [exists [], (drop (length l) (pre' ++ (cell <$> l) ++ post))|done|done]. cbn [sq_items sq_head app]. split; [|done].
    unfold copy. rewrite take_0, Nat.add_0_l, length_fmap, take_ge; [done|]. rewrite !length_app, length_fmap. lia.
  - split; [by exists pre', post|done|done].
  - split; [by exists pre', post|done|done].
Qed.

Lemma find_loop_holds q pre l p :
  sq_holds q (pre ++ l) → find_loop q p (sq_head q + length pre) (length l) = spec_find p l.
Proof.
  revert pre. induction l as [|[v k] l IH]; intros pre Hq; [done|]. cbn [length find_loop].
  rewrite (item_at_holds q _ (length pre) (v, k) Hq) by (by rewrite lookup_app_r, Nat.sub_diag by lia).
  cbn [si_priority si_value fst snd]. unfold spec_find. rewrite filter_cons. cbn [snd].
  destruct (Z.eqb_spec k p) as [->|Hne]; [by rewrite decide_True|]. rewrite decide_False by done.
  destruct (Z.ltb_spec p k) as [Hlt|Hle].
  - pose proof (sh_sorted _ _ Hq) as Hs. rewrite filter_none; [done|]. apply Forall_forall. intros e He.
    apply list_elem_of_lookup in He as [i Hi].
    pose proof (sorted_lookup _ _ (length pre) (length pre + S i) (v, k) e Hs ltac:(lia)) as Hke. simpl in Hke.
    rewrite !lookup_app_r, Nat.sub_diag, Nat.add_comm, Nat.add_sub in Hke by lia. specialize (Hke eq_refl Hi). lia.
  - specialize (IH (pre ++ [(v, k)])). rewrite <- app_assoc in IH. specialize (IH Hq). unfold spec_find in IH.
    rewrite <- IH. f_equal. rewrite length_app. simpl. lia.
Qed.

Lemma find_holds q l p : sq_holds q l → findInternal p q = spec_find p l.
Proof.
  intros Hq. unfold findInternal. rewrite (sh_size _ _ Hq). destruct l as [|e l]; [done|]. cbn [length Nat.eqb].
  change (S (length l)) with (length (e :: l)). rewrite <- (Nat.add_0_r (sq_head q)). by apply (find_loop_holds q []).
Qed.

Lemma popuntil_holds fuel q l p :
  sq_holds q l → (length l ≤ fuel)%nat →
  (popuntil_loop fuel p q).1 = (spec_pop_until p l).1 ∧ sq_holds (popuntil_loop fuel p q).2 (spec_pop_until p l).2.
Proof.
  revert q l. induction fuel as [|fuel IH]; intros q l Hq Hf; cbn [popuntil_loop]; rewrite (Peek_holds q l Hq);
    destruct l as [|[v k] l]; try by (simpl in Hf; lia) || done.
  pose proof (pop_holds q (v, k) l Hq) as [_ Hpop]. unfold spec_pop_until. rewrite filter_cons. cbn [snd].
  destruct (Z.ltb_spec k p) as [Hlt|Hge]; [rewrite decide_False by lia|rewrite decide_True by lia].
  - apply (IH _ l); [done|]. simpl in Hf. lia.
  - assert (El : filter (λ e : entry, p ≤ e.2) l = l).
    { apply filter_all. apply Forall_forall. pose proof (sh_sorted _ _ Hq) as [_ Hall]%StronglySorted_inv.
      rewrite Forall_forall in Hall. intros e He%Hall. simpl in He. lia. }
    rewrite El. destruct (Z.eqb_spec k p); done.
Qed.

Lemma Iter_holds q l : sq_holds q l → sq_Iter q = (λ e : entry, (Some e.1, e.2)) <$> l.
Proof.
  intros Hq. unfold sq_Iter. rewrite (sh_size _ _ Hq). apply list_eq_same_length with (length l).
  { by rewrite length_fmap. } { by rewrite length_fmap, length_seq. }
  intros i x y Hi. rewrite !list_lookup_fmap, lookup_seq_lt by done. cbn [fmap option_fmap option_map].
  destruct (lookup_lt_is_Some_2 l i Hi) as [e He]. rewrite Nat.add_0_l, (item_at_holds q l i e Hq He), He.
  simpl. congruence.
Qed.

Lemma NewSortedQueue_holds : sq_holds NewSortedQueue [].
Proof. split; [by exists [], []|done|constructor]. Qed.

(** C33. The sorted queue implements an ordered list.  When the used part of the
    array holds the entries [l]: [Insert] puts the new entry after those of
    smaller or equal priority and before the larger ones, [Find] gives the
    first value of the priority, [FindOrInsert] inserts exactly when there is
    none, [Peek] and [Pop] give the first entry, [PopUntil] drops the smaller
    priorities and takes the first entry of the priority, [Size] and [Iter]
    are those of the list; and in each case the array again holds the
    resulting entries in order, none of them overwritten by a shift or a
    compaction. *)
Theorem sorted_queue_refines q l p v :
  sq_holds q l →
  sq_holds (sq_Insert (Some v) p q) (spec_insert v p l) ∧
  sq_Find p q = spec_find p l ∧
  (FindOrInsert (Some v) p q).1 = spec_find p l ∧
  sq_holds (FindOrInsert (Some v) p q).2 (if spec_find p l then l else spec_insert v p l) ∧
  sq_Peek q = match l with (w, k) :: _ => (Some w, k) | [] => (None, 0) end ∧
  (sq_Pop q).1 = fst <$> head l ∧ sq_holds (sq_Pop q).2 (tail l) ∧
  (PopUntil p q).1 = (spec_pop_until p l).1 ∧ sq_holds (PopUntil p q).2 (spec_pop_until p l).2 ∧
  sq_Size q = length l ∧ sq_Iter q = (λ e : entry, (Some e.1, e.2)) <$> l.
Proof.
  intros Hq. unfold FindOrInsert, sq_Find. rewrite (find_holds q l p Hq).
  assert (Hpop : (sq_Pop q).1 = fst <$> head l ∧ sq_holds (sq_Pop q).2 (tail l)).
  { destruct l as [|e l]; [|by apply pop_holds]. unfold sq_Pop, popInternal. by rewrite (sh_size _ _ Hq). }
  pose proof (popuntil_holds (sq_size q) q l p Hq) as Hu. rewrite (sh_size _ _ Hq) in Hu at 1.
  split_and!; try by (apply Hpop || apply Hu || apply insert_holds).
  - done.
  - by destruct (spec_find p l).
  - destruct (spec_find p l); [done|by apply insert_holds].
  - by apply Peek_holds.
  - by rewrite <- (sh_size _ _ Hq).
  - by apply Iter_holds.
Qed.
End SortedQueue.

Module SortedQueueExamples.
Definition sq3 : SortedQueue (V := Z) :=
  sq_Insert (Some 30) 3 (sq_Insert (Some 10) 1 (sq_Insert (Some 20) 2 NewSortedQueue)).

Lemma sq3_holds : sq_holds sq3 [(10, 1); (20, 2); (30, 3)].
Proof.
  pose proof (insert_holds _ _ 20 2 (NewSortedQueue_holds (V := Z))) as H1.
  pose proof (insert_holds _ _ 10 1 H1) as H2. exact (insert_holds _ _ 30 3 H2).
Qed.

Lemma sorted_queue_refines_witness :
  (PopUntil 2 sq3).1 = Some 20 ∧ sq_holds (PopUntil 2 sq3).2 [(30, 3)] ∧
  sq_holds (sq_Insert (Some 21) 2 sq3) [(10, 1); (20, 2); (21, 2); (30, 3)].
Proof.
  destruct (sorted_queue_refines sq3 _ 2 21 sq3_holds) as (H1 & _ & _ & _ & _ & _ & _ & H2 & H3 & _).
  split; [exact H2|]. split; [exact H3|exact H1].
Defined.

(** A value inserted with a priority that is already there does not replace
    the value: both stay. *)
Example insert_keeps_both :
  sq_Iter (sq_Insert (Some 21) 2 sq3) = [(Some 10, 1); (Some 20, 2); (Some 21, 2); (Some 30, 3)].
Proof. reflexivity. Qed.
End SortedQueueExamples.
