(* ===== verification/Rank.v ===== *)
(** * pof: ranks and the rank table

    rank.go and rank_table.go: the candidates for the next block, ordered by
    score, and the operations that move them. *)

From S2P Require Import Prelude Common Search.

(** ** rank.go *)

Record Rank := mkRank {
  rk_Address : Address;
  rk_PublicHash : PublicHash;
  rk_phase : Z;
  rk_hashSpace : Hash256;
  rk_score : Z;
}.

#[export] Instance Rank_eq_dec : EqDecision Rank.
Proof. solve_decision. Defined.

(** [uint64(phase)<<32 + uint64(LittleEndian.Uint32(hashSpace[:4]))]. *)
Definition score_of (phase : Z) (hashSpace : Hash256) : Z :=
  u64 (u64 (Z.shiftl phase 32) + le_val (take 4 hashSpace)).

Definition rk_update (r : Rank) : Rank :=
  mkRank (rk_Address r) (rk_PublicHash r) (rk_phase r) (rk_hashSpace r) (score_of (rk_phase r) (rk_hashSpace r)).

Definition NewRank (addr : Address) (pubhash : PublicHash) (phase : Z) (hashSpace : Hash256) : Rank :=
  rk_update (mkRank addr pubhash phase hashSpace 0).

Definition rk_Clone (r : Rank) : Rank :=
  NewRank (rk_Address r) (rk_PublicHash r) (rk_phase r) (rk_hashSpace r).

Definition rk_Less (a b : Rank) : bool :=
  (rk_score a <? rk_score b) ||
  ((rk_score a =? rk_score b) && bytes_lt (rk_Address a) (rk_Address b)).

Definition rk_Equal (a b : Rank) : bool :=
  (rk_score a =? rk_score b) && bool_decide (rk_Address a = rk_Address b).

Definition rk_IsZero (r : Rank) : bool := (rk_score r =? 0) && bool_decide (rk_Address r = emptyAddr).

Definition rk_Set (phase : Z) (hashSpace : Hash256) (r : Rank) : Rank :=
  rk_update (mkRank (rk_Address r) (rk_PublicHash r) phase hashSpace (rk_score r)).
Definition rk_SetPhase (phase : Z) (r : Rank) : Rank :=
  rk_update (mkRank (rk_Address r) (rk_PublicHash r) phase (rk_hashSpace r) (rk_score r)).
Definition rk_SetHashSpace (hashSpace : Hash256) (r : Rank) : Rank :=
  rk_update (mkRank (rk_Address r) (rk_PublicHash r) (rk_phase r) hashSpace (rk_score r)).

Definition rk_Key (r : Rank) : bytes :=
  rk_Address r ++ str "," ++ LittleEndian_Uint64ToBytes (rk_score r).

(** ** rank_table.go

    [rankMap] holds the same objects as the list of candidates.  What the
    code reads through it is whether an address has one and its public hash,
    a field that no operation changes after the object was made: the map
    below is from an address to that hash. *)
Record RankTable := mkTable {
  rt_height : Z;
  rt_candidates : list Rank;
  rt_rankMap : gmap Address PublicHash;
}.

Definition NewRankTable : RankTable := mkTable 0 [] ∅.

Definition Candidates (rt : RankTable) : list Rank := rk_Clone <$> rt_candidates rt.
Definition CandidateCount (rt : RankTable) : nat := length (rt_candidates rt).

(** A negative argument is not possible: the callers convert a [uint32]. *)
Definition TopRank (TimeoutCount : nat) (rt : RankTable) : res Rank :=
  if (length (rt_candidates rt) <=? TimeoutCount)%nat then Err ErrInsufficientCandidateCount
  else r ← of_option (rt_candidates rt !! TimeoutCount); mret (rk_Clone r).

(** A [map[common.Address]bool]; a missing address reads as false. *)
Definition flagged (FormulatorMap : gmap Address bool) (a : Address) : bool :=
  default false (FormulatorMap !! a).

Fixpoint first_in_map (FormulatorMap : gmap Address bool) (i : nat) (rs : list Rank) : res (Rank * nat) :=
  match rs with
  | [] => Err ErrInsufficientCandidateCount
  | r :: rs =>
      if flagged FormulatorMap (rk_Address r) then Ok (r, i) else first_in_map FormulatorMap (S i) rs
  end.

Definition TopRankInMap (FormulatorMap : gmap Address bool) (rt : RankTable) : res (Rank * nat) :=
  if (size FormulatorMap =? 0)%nat then Err ErrInsufficientCandidateCount
  else first_in_map FormulatorMap 0 (rt_candidates rt).

(** The loop of [RanksInMap]: it stops as soon as the list has [Limit]
    elements, which is tested after an element was added. *)
Fixpoint ranks_loop (FormulatorMap : gmap Address bool) (Limit : Z) (acc : list Rank) (rs : list Rank) : list Rank :=
  match rs with
  | [] => acc
  | r :: rs =>
      if flagged FormulatorMap (rk_Address r) then
        let acc := acc ++ [r] in
        if Limit <=? Z.of_nat (length acc) then acc else ranks_loop FormulatorMap Limit acc rs
      else ranks_loop FormulatorMap Limit acc rs
  end.

Definition RanksInMap (FormulatorMap : gmap Address bool) (Limit : Z) (rt : RankTable) : res (list Rank) :=
  if (size FormulatorMap =? 0)%nat then Err ErrInsufficientCandidateCount
  else
    let Limit := if Limit <? 1 then 1 else Limit in
    Ok (ranks_loop FormulatorMap Limit [] (rt_candidates rt)).

Definition IsFormulator (Formulator : Address) (pubhash : PublicHash) (rt : RankTable) : bool :=
  match rt_rankMap rt !! Formulator with
  | None => false
  | Some h => bool_decide (h = pubhash)
  end.

Definition smallestPhase (rt : RankTable) : Z :=
  match rt_candidates rt with [] => 0 | r :: _ => rk_phase r end.
Definition largestPhase (rt : RankTable) : Z :=
  match last (rt_candidates rt) with None => 0 | Some r => rk_phase r end.

Definition InsertRankToList (ranks : list Rank) (s : Rank) : list Rank :=
  insert_at (position rk_Less s ranks) s ranks.

Definition addRank (s : Rank) : M RankTable unit := λ rt,
  if match rt_candidates rt with r :: _ => rk_phase s <? rk_phase r | [] => false end
  then (Err ErrInvalidPhase, rt)
  else if bool_decide (is_Some (rt_rankMap rt !! rk_Address s)) then (Err ErrExistAddress, rt)
  else (Ok tt, mkTable (rt_height rt) (InsertRankToList (rt_candidates rt) s)
                 (<[rk_Address s := rk_PublicHash s]> (rt_rankMap rt))).

Definition removeRank (addr : Address) (rt : RankTable) : RankTable :=
  if bool_decide (is_Some (rt_rankMap rt !! addr)) then
    mkTable (rt_height rt) (filter (λ s, rk_Address s ≠ addr) (rt_candidates rt)) (delete addr (rt_rankMap rt))
  else rt.

(** The front candidate, changed by [f], goes to its place among the others:
    [copy(candidates, candidates[1:idx+1]); candidates[idx] = m]. *)
Definition requeue (f : Rank → Rank) (rs : list Rank) : res (list Rank) :=
  match rs with
  | [] => Panic
  | m :: rest => let m := f m in Ok (insert_at (position rk_Less m rest) m rest)
  end.

Fixpoint forward_loop (n : nat) (rs : list Rank) : res (list Rank) :=
  match n with
  | O => Ok rs
  | S n => rs ← requeue (λ m, rk_SetPhase (u32 (rk_phase m + 2)) m) rs; forward_loop n rs
  end.

Definition forwardCandidates (TimeoutCount : nat) : M RankTable unit := λ rt,
  if (length (rt_candidates rt) <=? TimeoutCount)%nat then (Err ErrExceedCandidateCount, rt)
  else match forward_loop TimeoutCount (rt_candidates rt) with
       | Ok rs => (Ok tt, mkTable (rt_height rt) rs (rt_rankMap rt))
       | _ => (Panic, rt)
       end.

Definition forwardTop (LastTableAppendHash : Hash256) : M RankTable unit := λ rt,
  match requeue (λ top, rk_Set (u32 (rk_phase top + 1)) LastTableAppendHash top) (rt_candidates rt) with
  | Ok rs => (Ok tt, mkTable (u32 (rt_height rt + 1)) rs (rt_rankMap rt))
  | _ => (Panic, rt)
  end.
