(* ===== verification/RankSpec.v ===== *)
(** * The rank table keeps its order

    The invariant of the table, that every operation keeps it, what a
    forward does to the top, and that no candidate is passed over forever. *)

From S2P Require Import Prelude Common Search Rank.

(** ** The order of ranks *)

Lemma rk_Less_trans a b c : rk_Less a b = true → rk_Less b c = true → rk_Less a c = true.
Proof.
  unfold rk_Less. rewrite !orb_true_iff, !andb_true_iff, !Z.ltb_lt, !Z.eqb_eq.
  intros [?|[? Hab]] [?|[? Hbc]]; [left; lia..|right]. split; [lia|]. by eapply bytes_lt_trans.
Qed.

Lemma rk_Less_total a b : rk_Address a ≠ rk_Address b → rk_Less a b = true ∨ rk_Less b a = true.
Proof.
  intros Hne. unfold rk_Less. rewrite !orb_true_iff, !andb_true_iff, !Z.ltb_lt, !Z.eqb_eq.
  destruct (Z.lt_total (rk_score a) (rk_score b)) as [?|[?|?]]; [by left; left| |by right; left].
  destruct (bytes_lt_total (rk_Address a) (rk_Address b)) as [?|[?|?]]; [by left; right| |by right; right].
  done.
Qed.

Definition ranked (r s : Rank) : Prop := rk_Less r s = true.

(** What every rank of a table satisfies: a phase of 32 bits, a hash, and the
    score that belongs to them. *)
Record rank_ok (r : Rank) : Prop := {
  rko_phase : is_u32 (rk_phase r);
  rko_hash : Forall is_byte (rk_hashSpace r);
  rko_score : rk_score r = score_of (rk_phase r) (rk_hashSpace r);
}.

Lemma score_of_small phase h :
  is_u32 phase → Forall is_byte h →
  ∃ x, 0 ≤ x < 2 ^ 32 ∧ score_of phase h = phase * 2 ^ 32 + x.
Proof.
  unfold is_u32. intros Hp Hh. exists (le_val (take 4 h)).
  assert (Hr : 0 ≤ le_val (take 4 h) < 2 ^ 32).
  { assert (Hl : Forall is_byte (take 4 h)) by (by apply Forall_take).
    pose proof (le_val_range (take 4 h) Hl) as H1. rewrite length_take in H1.
    split; [lia|]. eapply Z.lt_le_trans; [apply H1|]. apply Z.pow_le_mono_r; lia. }
  split; [done|]. unfold score_of. rewrite Z.shiftl_mul_pow2 by lia.
  rewrite (u64_small (phase * 2 ^ 32)) by (unfold is_u64; lia). apply u64_small. unfold is_u64. lia.
Qed.

(** A smaller phase is a smaller score. *)
Lemma phase_Less r s : rank_ok r → rank_ok s → rk_phase r < rk_phase s → rk_Less r s = true.
Proof.
  intros [P1 H1 S1] [P2 H2 S2] Hlt. destruct (score_of_small _ _ P1 H1) as (x & Hx & E1).
  destruct (score_of_small _ _ P2 H2) as (y & Hy & E2). unfold rk_Less. rewrite S1, S2, E1, E2.
  apply orb_true_iff. left. apply Z.ltb_lt. lia.
Qed.

Lemma Less_irrefl r : rk_Less r r = false.
Proof. unfold rk_Less. rewrite Z.ltb_irrefl, Z.eqb_refl, bytes_lt_irrefl. done. Qed.

Lemma Less_asym r s : rk_Less r s = true → rk_Less s r = false.
Proof.
  intros H. destruct (rk_Less s r) eqn:E; [|done]. by rewrite <- (Less_irrefl r), (rk_Less_trans r s r).
Qed.

Lemma Less_phase r s : rank_ok r → rank_ok s → rk_Less r s = true → rk_phase r ≤ rk_phase s.
Proof.
  intros Hr Hs Hl. destruct (decide (rk_phase s < rk_phase r)) as [Hlt|]; [|lia].
  apply (phase_Less s r Hs Hr) in Hlt. by rewrite (Less_asym _ _ Hl) in Hlt.
Qed.

(** ** The invariant *)

Abbreviation ordered := (StronglySorted (λ r s, rk_Less r s = true)) (only parsing).

(** A list of candidates: ordered, one rank for an address, and phases that
    are at most two apart. *)
Record ranks_ok (rs : list Rank) : Prop := {
  rs_sorted : ordered rs;
  rs_nodup : NoDup (rk_Address <$> rs);
  rs_ranks : Forall rank_ok rs;
  rs_spread : ∀ r s, r ∈ rs → s ∈ rs → rk_phase r ≤ rk_phase s + 2;
}.

Definition has_rank (rs : list Rank) (a : Address) (h : PublicHash) : Prop :=
  ∃ r, r ∈ rs ∧ rk_Address r = a ∧ rk_PublicHash r = h.

Record rt_ok (rt : RankTable) : Prop := {
  ro_ranks : ranks_ok (rt_candidates rt);
  ro_map : ∀ a h, rt_rankMap rt !! a = Some h ↔ has_rank (rt_candidates rt) a h;
}.

Lemma NewRankTable_ok : rt_ok NewRankTable.
Proof.
  split; [split; [constructor|constructor|done|]|].
  - intros r s Hr. by apply elem_of_nil in Hr.
  - intros a h. split; [done|]. intros (r & Hr & _). by apply elem_of_nil in Hr.
Qed.

Lemma head_smallest rt r : ranks_ok (rt_candidates rt) → r ∈ rt_candidates rt → smallestPhase rt ≤ rk_phase r.
Proof.
  unfold smallestPhase. intros [Hs _ Hk _] Hr. destruct (rt_candidates rt) as [|m rest]; [by apply elem_of_nil in Hr|].
  apply elem_of_cons in Hr as [->|Hr]; [lia|]. apply StronglySorted_inv in Hs as [_ Hall].
  apply Forall_cons in Hk as [Hm Hk]. rewrite Forall_forall in Hall, Hk. apply Less_phase; auto.
Qed.

(** A rank whose address is new, inserted with a phase that fits. *)
Lemma insert_ok s rs :
  ranks_ok rs → rank_ok s → rk_Address s ∉ (rk_Address <$> rs) →
  (∀ r, r ∈ rs → rk_phase r ≤ rk_phase s + 2 ∧ rk_phase s ≤ rk_phase r + 2) →
  ranks_ok (InsertRankToList rs s).
Proof.
  intros [Hs Hn Hk Hd] Ok Hnew Hfit. unfold InsertRankToList.
  pose proof (insert_at_Permutation (position rk_Less s rs) s rs) as P. split.
  - apply insert_sorted; [exact rk_Less_trans|done|]. intros y Hy. apply rk_Less_total. intros E.
    apply Hnew. rewrite E. by apply list_elem_of_fmap_2.
  - rewrite P. csimpl. by apply NoDup_cons.
  - rewrite P. by constructor.
  - intros r r' Hr Hr'. rewrite P in Hr, Hr'.
    apply elem_of_cons in Hr as [->|Hr]; apply elem_of_cons in Hr' as [->|Hr']; [lia|..].
    + by apply Hfit.
    + by apply Hfit.
    + by apply Hd.
Qed.

Lemma not_in_map rt a : rt_ok rt → ¬ is_Some (rt_rankMap rt !! a) → a ∉ (rk_Address <$> rt_candidates rt).
Proof.
  intros [_ Hm] Hno. rewrite list_elem_of_fmap. intros (r & -> & Hr). apply Hno.
  exists (rk_PublicHash r). apply Hm. by exists r.
Qed.

Lemma addRank_ok s rt :
  rt_ok rt → rank_ok s → (rt_candidates rt ≠ [] → rk_phase s ≤ smallestPhase rt + 2) → rt_ok (addRank s rt).2.
Proof.
  intros Hok Hs Hfit. unfold addRank.
  destruct (match rt_candidates rt with r :: _ => rk_phase s <? rk_phase r | [] => false end) eqn:Hp; [done|].
  case_bool_decide as Hin; [done|]. pose proof (not_in_map rt _ Hok Hin) as Hnew. destruct Hok as [Hk Hm].
  split; cbn [rt_candidates rt_rankMap snd].
  - apply insert_ok; [done|done|done|]. intros r Hr.
    assert (Hne : rt_candidates rt ≠ []) by (intros E; rewrite E in Hr; by apply elem_of_nil in Hr).
    specialize (Hfit Hne). pose proof (head_smallest rt r Hk Hr) as H1. split; [|lia].
    unfold smallestPhase in H1. destruct (rt_candidates rt) as [|m rest] eqn:E; [done|].
    pose proof (rs_spread _ Hk r m Hr) as H2. specialize (H2 (list_elem_of_here _ _)). apply Z.ltb_ge in Hp. lia.
  - intros a h. unfold InsertRankToList, has_rank.
    setoid_rewrite (insert_at_Permutation (position rk_Less s (rt_candidates rt)) s (rt_candidates rt)).
    destruct (decide (rk_Address s = a)) as [<-|Hne].
    + rewrite lookup_insert_eq. split.
      * intros [= <-]. exists s. by rewrite elem_of_cons; auto.
      * intros (r & [->|Hr]%elem_of_cons & E & <-); [done|]. exfalso. apply Hnew. rewrite <- E.
        by apply list_elem_of_fmap_2.
    + rewrite lookup_insert_ne by done. rewrite Hm. unfold has_rank. split.
      * intros (r & Hr & E). exists r. rewrite elem_of_cons. auto.
      * intros (r & [->|Hr]%elem_of_cons & E & ?); [done|]. by exists r.
Qed.

Lemma ranks_ok_filter (P : Rank → Prop) `{∀ r, Decision (P r)} rs : ranks_ok rs → ranks_ok (filter P rs).
Proof.
  intros [Hs Hn Hk Hd]. split.
  - by apply sorted_filter.
  - eapply sublist_NoDup; [done|]. apply fmap_sublist, sublist_filter.
  - apply Forall_forall. intros r [_ Hr]%list_elem_of_filter. by eapply Forall_forall in Hk.
  - intros r s [_ Hr]%list_elem_of_filter [_ Hs']%list_elem_of_filter. by apply Hd.
Qed.

Lemma removeRank_ok a rt : rt_ok rt → rt_ok (removeRank a rt).
Proof.
  intros Hok. unfold removeRank. case_bool_decide as Hin; [|done]. destruct Hok as [Hk Hm].
  split; cbn [rt_candidates rt_rankMap]; [by apply ranks_ok_filter|].
  intros b h. destruct (decide (a = b)) as [<-|Hne].
  - rewrite lookup_delete_eq. split; [done|]. by intros (r & [? _]%list_elem_of_filter & ? & _).
  - rewrite lookup_delete_ne by done. rewrite Hm. split.
    + intros (r & Hr & E & ?). exists r. rewrite list_elem_of_filter. split_and!; [congruence|done..].
    + intros (r & [_ Hr]%list_elem_of_filter & ?). by exists r.
Qed.

(** ** Forwards *)

(** A change of the front rank that keeps its owner and raises its phase by
    at most two. *)
Record forwards (f : Rank → Rank) (m : Rank) : Prop := {
  fw_addr : rk_Address (f m) = rk_Address m;
  fw_hash : rk_PublicHash (f m) = rk_PublicHash m;
  fw_ok : rank_ok (f m);
  fw_phase : rk_phase m ≤ rk_phase (f m) ≤ rk_phase m + 2;
}.

Lemma requeue_ok f m rest :
  ranks_ok (m :: rest) → forwards f m →
  let rs := InsertRankToList rest (f m) in
  requeue f (m :: rest) = Ok rs ∧ ranks_ok rs ∧ length rs = S (length rest) ∧
  (∀ a h, has_rank rs a h ↔ has_rank (m :: rest) a h).
Proof.
  intros [Hs Hn Hk Hd] [Fa Fh Fo Fp] rs. split; [done|].
  assert (P : rs ≡ₚ f m :: rest) by apply insert_at_Permutation.
  apply StronglySorted_inv in Hs as [Hs Hall]. apply NoDup_cons in Hn as [Hn1 Hn2].
  apply Forall_cons in Hk as [Hm Hk].
  split; [|split; [apply insert_at_length|]].
  - apply insert_ok; [split; [done..|]|done|by rewrite Fa|].
    + intros r s Hr Hs'. apply Hd; by right.
    + intros r Hr. pose proof (Hd r m (list_elem_of_further _ _ _ Hr) (list_elem_of_here _ _)).
      rewrite Forall_forall in Hall, Hk.
      pose proof (Less_phase m r Hm (Hk r Hr) (Hall r Hr)). lia.
  - intros a h. unfold has_rank. split; intros (r & Hr & Ha & Hh).
    + rewrite P in Hr. apply elem_of_cons in Hr as [->|Hr].
      * exists m. split; [by left|]. by rewrite <- Ha, <- Hh.
      * exists r. split; [by right|done].
    + apply elem_of_cons in Hr as [->|Hr].
      * exists (f m). rewrite P. split; [by left|]. by rewrite Fa, Fh.
      * exists r. rewrite P. split; [by right|done].
Qed.

(** Phases far enough from the end of 32 bits for [n] more steps. *)
Definition room (n : Z) (rs : list Rank) : Prop := ∀ r, r ∈ rs → rk_phase r + n < 2 ^ 32.

Lemma rank_ok_update r : is_u32 (rk_phase r) → Forall is_byte (rk_hashSpace r) → rank_ok (rk_update r).
Proof. intros H1 H2. by split. Qed.

Definition skip (m : Rank) : Rank := rk_SetPhase (u32 (rk_phase m + 2)) m.
Definition step_to (h : Hash256) (m : Rank) : Rank := rk_Set (u32 (rk_phase m + 1)) h m.

Lemma skip_forwards m : rank_ok m → rk_phase m + 2 < 2 ^ 32 → forwards skip m ∧ rk_phase (skip m) = rk_phase m + 2.
Proof.
  intros [Hp Hh _] Hr. unfold is_u32 in Hp.
  assert (E : rk_phase (skip m) = rk_phase m + 2) by (apply u32_small; unfold is_u32; lia).
  split; [|done]. split; [done|done| |lia]. apply rank_ok_update; [|done]. cbn [rk_phase rk_SetPhase].
  apply u32_range.
Qed.

Lemma step_forwards h m :
  rank_ok m → Forall is_byte h → rk_phase m + 1 < 2 ^ 32 →
  forwards (step_to h) m ∧ rk_phase (step_to h m) = rk_phase m + 1.
Proof.
  intros [Hp _ _] Hh Hr. unfold is_u32 in Hp.
  assert (E : rk_phase (step_to h m) = rk_phase m + 1) by (apply u32_small; unfold is_u32; lia).
  split; [|done]. split; [done|done| |lia]. apply rank_ok_update; [|done]. apply u32_range.
Qed.

Lemma room_requeue f m rest n k :
  forwards f m → rk_phase (f m) ≤ rk_phase m + k → 0 ≤ k → room (n + k) (m :: rest) →
  room n (InsertRankToList rest (f m)).
Proof.
  intros _ Hp Hk Hr r Hin. unfold InsertRankToList in Hin. rewrite insert_at_Permutation in Hin.
  apply elem_of_cons in Hin as [->|Hin].
  - specialize (Hr m (list_elem_of_here _ _)). lia.
  - specialize (Hr r (list_elem_of_further _ _ _ Hin)). lia.
Qed.

Lemma forward_loop_ok n k rs :
  ranks_ok rs → rs ≠ [] → 0 ≤ k → room (k + 2 * Z.of_nat n) rs →
  ∃ rs', forward_loop n rs = Ok rs' ∧ ranks_ok rs' ∧ length rs' = length rs ∧ room k rs' ∧
    ∀ a h, has_rank rs' a h ↔ has_rank rs a h.
Proof.
  revert rs. induction n as [|n IH]; intros rs Hok Hne Hk Hr.
  { exists rs. split_and!; [done|done|done| |done]. by rewrite Z.add_0_r in Hr. }
  destruct rs as [|m rest]; [done|]. cbn [forward_loop]. fold (skip m).
  pose proof (Forall_inv (rs_ranks _ Hok)) as Hm.
  assert (Hroom : rk_phase m + 2 < 2 ^ 32).
  { specialize (Hr m (list_elem_of_here _ _)). lia. }
  destruct (skip_forwards m Hm Hroom) as [Hf Hp].
  destruct (requeue_ok skip m rest Hok Hf) as (E & Hok' & Hlen & Hhas).
  change (λ m, rk_SetPhase (u32 (rk_phase m + 2)) m) with skip. rewrite E. cbn [mbind res_bind].
  destruct (IH (InsertRankToList rest (skip m))) as (rs' & E' & Ok' & L' & R' & H').
  - done.
  - intros En. by rewrite En in Hlen.
  - done.
  - apply (room_requeue skip m rest _ 2); [done|lia|lia|]. intros r Hin. specialize (Hr r Hin). lia.
  - exists rs'. split_and!; [done|done|by rewrite L', Hlen|done|]. intros a h. by rewrite H', Hhas.
Qed.

Lemma forwardCandidates_ok n k rt :
  rt_ok rt → 0 ≤ k → room (k + 2 * Z.of_nat n) (rt_candidates rt) → (n < length (rt_candidates rt))%nat →
  ∃ rt', forwardCandidates n rt = (Ok tt, rt') ∧ rt_ok rt' ∧ room k (rt_candidates rt') ∧
    length (rt_candidates rt') = length (rt_candidates rt).
Proof.
  intros [Hok Hm] Hk Hr Hn. unfold forwardCandidates.
  destruct (Nat.leb_spec (length (rt_candidates rt)) n); [lia|].
  destruct (forward_loop_ok n k (rt_candidates rt)) as (rs' & E & Ok' & L & R & H'); [done| |done|done|].
  { intros En. rewrite En in Hn. simpl in Hn. lia. }
  rewrite E. eexists. split; [done|]. split; [|done]. split; cbn [rt_candidates rt_rankMap]; [done|].
  intros a h. by rewrite H'.
Qed.

Lemma forwardTop_ok h k rt :
  rt_ok rt → Forall is_byte h → 0 ≤ k → room (k + 1) (rt_candidates rt) → rt_candidates rt ≠ [] →
  ∃ rt', forwardTop h rt = (Ok tt, rt') ∧ rt_ok rt' ∧ room k (rt_candidates rt') ∧
    length (rt_candidates rt') = length (rt_candidates rt) ∧
    ∃ m rest, rt_candidates rt = m :: rest ∧ rt_candidates rt' = InsertRankToList rest (step_to h m).
Proof.
  intros [Hok Hm] Hh Hk Hr Hne. unfold forwardTop. destruct (rt_candidates rt) as [|m rest] eqn:E; [done|].
  pose proof (Forall_inv (rs_ranks _ Hok)) as Hrk.
  assert (Hroom : rk_phase m + 1 < 2 ^ 32) by (specialize (Hr m (list_elem_of_here _ _)); lia).
  destruct (step_forwards h m Hrk Hh Hroom) as [Hf Hp].
  destruct (requeue_ok (step_to h) m rest Hok Hf) as (E' & Hok' & Hlen & Hhas).
  change (λ top, rk_Set (u32 (rk_phase top + 1)) h top) with (step_to h). rewrite E'. eexists.
  split; [done|]. cbn [rt_candidates]. split; [|split; [|split]].
  - split; cbn [rt_candidates rt_rankMap]; [done|]. intros a b. rewrite Hm, Hhas. done.
  - apply (room_requeue (step_to h) m rest _ 1); [done|lia|lia|done].
  - by rewrite Hlen.
  - by exists m, rest.
Qed.

(** ** Who is on top after a timeout *)

Lemma insert_at_lookup_lt {X} p (x : X) l n : (n < p)%nat → (n < length l)%nat → insert_at p x l !! n = l !! n.
Proof.
  intros Hn Hl. unfold insert_at. rewrite lookup_app_l by (rewrite length_take; lia). by apply lookup_take_lt.
Qed.

Lemma later_phase rs i j r s :
  ranks_ok rs → (i ≤ j)%nat → rs !! i = Some r → rs !! j = Some s → rk_phase r ≤ rk_phase s.
Proof.
  intros [Hs _ Hk _] Hij Hi Hj. destruct (decide (i = j)) as [->|Hne]; [by simplify_eq|].
  rewrite Forall_forall in Hk.
  apply Less_phase; [by eapply Hk, list_elem_of_lookup_2..|].
  apply (sorted_lookup _ rs i j); [done|lia|done|done].
Qed.

Lemma forward_loop_top n rs g rs' :
  ranks_ok rs → room (2 * Z.of_nat n) rs → rs !! n = Some g →
  (∀ m, head rs = Some m → rk_phase g ≤ rk_phase m + 1) →
  forward_loop n rs = Ok rs' → head rs' = Some g.
Proof.
  revert rs. induction n as [|n IH]; intros rs Hok Hr Hg Hp E.
  { injection E as <-. by destruct rs. }
  destruct rs as [|m rest]; [done|]. cbn [forward_loop] in E.
  change (λ m, rk_SetPhase (u32 (rk_phase m + 2)) m) with skip in E.
  pose proof (Forall_inv (rs_ranks _ Hok)) as Hm.
  assert (Hroom : rk_phase m + 2 < 2 ^ 32) by (specialize (Hr m (list_elem_of_here _ _)); lia).
  destruct (skip_forwards m Hm Hroom) as [Hf Hph].
  destruct (requeue_ok skip m rest Hok Hf) as (E' & Hok' & Hlen & _). rewrite E' in E. cbn [mbind res_bind] in E.
  simpl in Hg. specialize (Hp m eq_refl).
  assert (Hlt : (n < position rk_Less (skip m) rest)%nat).
  { apply Nat.nle_gt. intros Hle. destruct Hok as [Hs Hn Hk Hd]. apply StronglySorted_inv in Hs as [Hs _].
    destruct (position_spec rk_Less rk_Less_trans (skip m) rest Hs) as (_ & _ & H3).
    specialize (H3 n g Hle Hg). apply Forall_cons in Hk as [_ Hk]. rewrite Forall_forall in Hk.
    apply Less_phase in H3; [lia|apply Hf|]. by eapply Hk, list_elem_of_lookup_2. }
  pose proof (lookup_lt_Some _ _ _ Hg) as Hgl.
  eapply (IH (InsertRankToList rest (skip m))); [done| | |  |done].
  - apply (room_requeue skip m rest _ 2); [done|lia|lia|]. intros r Hin. specialize (Hr r Hin). lia.
  - unfold InsertRankToList. by rewrite insert_at_lookup_lt.
  - intros m1 Hm1. destruct rest as [|r0 rest]; [done|].
    assert (Some m1 = Some r0) as [= ->].
    { rewrite <- Hm1, head_lookup. unfold InsertRankToList. rewrite insert_at_lookup_lt; [done|lia|simpl; lia]. }
    pose proof (later_phase _ 0 1 m r0 Hok) as H01. specialize (H01 ltac:(lia) eq_refl eq_refl). lia.
Qed.

Lemma rk_Clone_id r : rank_ok r → rk_Clone r = r.
Proof. intros [_ _ Hs]. destruct r as [a p ph hs sc]. unfold rk_Clone, NewRank, rk_update. simpl in *. by rewrite Hs. Qed.

Lemma TopRank_lookup n rt r : rt_ok rt → TopRank n rt = Ok r ↔ rt_candidates rt !! n = Some r.
Proof.
  intros [Hok _]. unfold TopRank. destruct (Nat.leb_spec (length (rt_candidates rt)) n) as [Hle|Hlt].
  { split; [done|]. intros Hr%lookup_lt_Some. lia. }
  destruct (lookup_lt_is_Some_2 _ _ Hlt) as [r' Hr']. rewrite Hr'. cbn [of_option mbind res_bind mret res_ret].
  assert (Hk : rank_ok r') by (eapply Forall_lookup_1; [apply (rs_ranks _ Hok)|done]).
  rewrite (rk_Clone_id r' Hk). split; by intros [= ->].
Qed.

(** The generator of a block that follows [n] timeouts is the candidate of
    rank [n], and the table that the block leaves has that candidate on top,
    provided its phase is at most one above the smallest: it is then the one
    that [forwardTop] moves when its turn is over.  (A candidate two phases
    above the smallest can be overtaken by one that the timeouts moved.) *)
Theorem timeout_top n rt g :
  rt_ok rt → room (2 * Z.of_nat n) (rt_candidates rt) → TopRank n rt = Ok g →
  rk_phase g ≤ smallestPhase rt + 1 →
  ∃ rt', forwardCandidates n rt = (Ok tt, rt') ∧ rt_ok rt' ∧ TopRank 0 rt' = Ok g.
Proof.
  intros Hok Hr Hg Hp. apply TopRank_lookup in Hg; [|done]. pose proof (lookup_lt_Some _ _ _ Hg) as Hn.
  destruct (forwardCandidates_ok n 0 rt Hok) as (rt' & E & Hok' & _ & _); [lia|done|done|].
  exists rt'. split; [done|]. split; [done|]. apply TopRank_lookup; [done|].
  unfold forwardCandidates in E. destruct (Nat.leb_spec (length (rt_candidates rt)) n); [lia|].
  destruct (forward_loop n (rt_candidates rt)) as [rs'|e|] eqn:El; [|done..]. injection E as <-.
  cbn [rt_candidates]. rewrite <- head_lookup. eapply forward_loop_top; [apply Hok|done|done| |done].
  intros m Hm. unfold smallestPhase in Hp. destruct (rt_candidates rt) as [|m' rest]; [done|]. by injection Hm as ->.
Qed.

(** ** No candidate waits forever *)

(** What is left to do before a rank of phase [q] is on top: the steps that
    the others can make in front of it. *)
Definition ahead (q : Z) (rs : list Rank) : nat := sum_list_with (λ r, Z.to_nat (q + 1 - rk_phase r)) rs.

Lemma ahead_le q rs : (∀ r, r ∈ rs → q ≤ rk_phase r + 2) → (ahead q rs ≤ 3 * length rs)%nat.
Proof.
  unfold ahead. induction rs as [|r rs IH]; intros H; [done|]. cbn [sum_list_with length].
  pose proof (H r (list_elem_of_here _ _)). specialize (IH (λ s Hs, H s (list_elem_of_further _ _ _ Hs))). lia.
Qed.

Definition on_top (c : Rank) (rt : RankTable) : Prop := head (rt_candidates rt) = Some c.

Lemma reaches c hs rt :
  rt_ok rt → Forall (Forall is_byte) hs → room (Z.of_nat (length hs)) (rt_candidates rt) →
  c ∈ rt_candidates rt → (ahead (rk_phase c) (rt_candidates rt) ≤ length hs)%nat →
  ∃ k rt', (k ≤ length hs)%nat ∧ for_each forwardTop (take k hs) rt = (Ok tt, rt') ∧ rt_ok rt' ∧ on_top c rt'.
Proof.
  revert rt. induction hs as [|h hs IH]; intros rt Hok Hh Hr Hc Ha.
  { exfalso. pose proof (sum_list_with_in c (λ r, Z.to_nat (rk_phase c + 1 - rk_phase r)) _ Hc) as H1.
    simpl in Ha. unfold ahead in Ha. simpl in H1. lia. }
  apply Forall_cons in Hh as [Hh Hhs]. rewrite length_cons in Hr, Ha.
  assert (Hne : rt_candidates rt ≠ []) by (intros E; rewrite E in Hc; by apply elem_of_nil in Hc).
  destruct (forwardTop_ok h (Z.of_nat (length hs)) rt Hok Hh) as (rt1 & E & Hok1 & Hr1 & _ & m & rest & Em & Er);
    [lia|intros r Hin; specialize (Hr r Hin); lia|done|].
  destruct (decide (m = c)) as [->|Hne'].
  { exists 0%nat, rt. split; [lia|]. split; [done|]. split; [done|]. unfold on_top. by rewrite Em. }
  rewrite Em in Hc, Ha. apply elem_of_cons in Hc as [->|Hc]; [done|].
  destruct (IH rt1) as (k & rt' & Hk & Ek & Ok' & Ht); [done|done|done| | |].
  - rewrite Er. unfold InsertRankToList. rewrite insert_at_Permutation. by right.
  - rewrite Er. unfold InsertRankToList, ahead. rewrite insert_at_Permutation. cbn [sum_list_with].
    unfold ahead in Ha. cbn [sum_list_with] in Ha. destruct Hok as [[Hs Hn Hkk Hd] _]. rewrite Em in Hs, Hkk.
    pose proof (Forall_inv Hkk) as Hm. apply StronglySorted_inv in Hs as [_ Hall].
    apply Forall_cons in Hkk as [_ Hkk]. rewrite Forall_forall in Hall, Hkk.
    pose proof (Less_phase m c Hm (Hkk c Hc) (Hall c Hc)) as Hle.
    assert (Hroom : rk_phase m + 1 < 2 ^ 32).
    { specialize (Hr m). rewrite Em in Hr. specialize (Hr (list_elem_of_here _ _)). lia. }
    destruct (step_forwards h m Hm Hh Hroom) as [_ Hp]. rewrite Hp. lia.
  - exists (S k), rt'. split; [simpl; lia|]. split; [|by split]. cbn [take for_each].
    by rewrite (bind_Ok (forwardTop h) _ rt tt rt1 E).
Qed.

(** C27. No candidate waits forever: whatever hashes the blocks have, every
    candidate of a table of [n] candidates is on top after at most [3 n] turns
    of others. *)
Theorem every_candidate_leads c hs rt :
  rt_ok rt → Forall (Forall is_byte) hs → room (Z.of_nat (length hs)) (rt_candidates rt) →
  c ∈ rt_candidates rt → (3 * length (rt_candidates rt) ≤ length hs)%nat →
  ∃ k rt', (k ≤ 3 * length (rt_candidates rt))%nat ∧ for_each forwardTop (take k hs) rt = (Ok tt, rt') ∧
    TopRank 0 rt' = Ok c.
Proof.
  intros Hok Hh Hr Hc Hl. set (N := (3 * length (rt_candidates rt))%nat) in *.
  assert (Ha : (ahead (rk_phase c) (rt_candidates rt) ≤ N)%nat).
  { apply ahead_le. intros r Hin. by apply (rs_spread _ (ro_ranks _ Hok)). }
  clearbody N. destruct (reaches c (take N hs) rt) as (k & rt' & Hk & E & Hok' & Ht).
  - done.
  - by apply Forall_take.
  - intros r Hin. specialize (Hr r Hin). rewrite length_take. lia.
  - done.
  - rewrite length_take. lia.
  - rewrite length_take in Hk. rewrite take_take in E. exists k, rt'. split; [lia|].
    replace (k `min` N)%nat with k in E by lia. split; [done|].
    apply TopRank_lookup; [done|]. by rewrite <- head_lookup.
Qed.

Module RankExamples.

Definition zeros (n : nat) (b : Z) : bytes := b :: replicate n 0.
Definition rank (a ph h : Z) : Rank := NewRank (zeros 13 a) [a] ph (zeros 31 h).
Definition table (rs : list Rank) : RankTable :=
  mkTable 0 rs (list_to_map ((λ r, (rk_Address r, rk_PublicHash r)) <$> rs)).

(** [rt_ok] for tables given by their list of candidates. *)
Definition rank_check (r : Rank) : bool :=
  bool_decide (is_u32 (rk_phase r)) && bool_decide (Forall is_byte (rk_hashSpace r)) &&
  (rk_score r =? score_of (rk_phase r) (rk_hashSpace r)).
Fixpoint ordered_check (rs : list Rank) : bool :=
  match rs with [] => true | r :: rs => forallb (rk_Less r) rs && ordered_check rs end.
Definition table_check (rs : list Rank) : bool :=
  ordered_check rs && bool_decide (NoDup (rk_Address <$> rs)) && forallb rank_check rs &&
  forallb (λ r, forallb (λ s, rk_phase r <=? rk_phase s + 2) rs) rs.

Lemma ordered_check_spec rs : ordered_check rs = true → ordered rs.
Proof.
  induction rs as [|r rs IH]; [constructor|]. cbn [ordered_check]. rewrite andb_true_iff. intros [H1 H2].
  constructor; [by apply IH|]. apply Forall_forall. intros s Hs. rewrite forallb_forall in H1.
  by apply H1, list_elem_of_In.
Qed.

Lemma table_ok rs : table_check rs = true → rt_ok (table rs).
Proof.
  unfold table_check. rewrite !andb_true_iff. intros [[[H1 H2] H3] H4].
  apply bool_decide_eq_true in H2. rewrite forallb_forall in H3, H4. split; [split|].
  - by apply ordered_check_spec.
  - done.
  - apply Forall_forall. intros r Hr%list_elem_of_In. specialize (H3 r Hr). unfold rank_check in H3.
    rewrite !andb_true_iff, !bool_decide_eq_true, Z.eqb_eq in H3. destruct H3 as [[? ?] ?]. by split.
  - intros r s Hr%list_elem_of_In Hs%list_elem_of_In. specialize (H4 r Hr). rewrite forallb_forall in H4.
    specialize (H4 s Hs). lia.
  - intros a h. cbn [table rt_rankMap rt_candidates]. rewrite <- elem_of_list_to_map.
    + rewrite list_elem_of_fmap. unfold has_rank. naive_solver.
    + rewrite <- list_fmap_compose. done.
Qed.

Definition rs1 : list Rank := [rank 1 5 3; rank 2 5 9; rank 3 6 1].
Lemma rs1_room n : 0 ≤ n ≤ 1000 → room n rs1.
Proof.
  intros Hn r Hr. unfold rs1 in Hr. rewrite !elem_of_cons, elem_of_nil in Hr.
  destruct Hr as [->|[->|[->|[]]]]; cbn [rank NewRank rk_update rk_phase]; lia.
Qed.

Lemma timeout_top_witness :
  ∃ rt', forwardCandidates 2 (table rs1) = (Ok tt, rt') ∧ rt_ok rt' ∧ TopRank 0 rt' = Ok (rank 3 6 1).
Proof.
  apply (timeout_top 2 (table rs1) (rank 3 6 1)).
  - apply table_ok. reflexivity.
  - apply rs1_room. lia.
  - reflexivity.
  - vm_compute. intros [=].
Defined.

Lemma every_candidate_leads_witness :
  ∃ k rt', (k ≤ 9)%nat ∧ for_each forwardTop (take k (replicate 9 (zeros 31 7))) (table rs1) = (Ok tt, rt') ∧
    TopRank 0 rt' = Ok (rank 3 6 1).
Proof.
  apply (every_candidate_leads (rank 3 6 1) (replicate 9 (zeros 31 7)) (table rs1)).
  - apply table_ok. reflexivity.
  - repeat constructor; compute; intros [=].
  - apply rs1_room. simpl. lia.
  - by repeat constructor.
  - simpl. lia.
Defined.

(** A candidate two phases above the smallest: after one timeout the block of
    the second candidate is accepted, but the first one, moved by two phases,
    is still before it. *)
Definition rs2 : list Rank := [rank 1 5 3; rank 2 7 9].
Example timeout_overtaken :
  table_check rs2 = true ∧ TopRank 1 (table rs2) = Ok (rank 2 7 9) ∧
  TopRank 0 (forwardCandidates 1 (table rs2)).2 = Ok (rank 1 7 3).
Proof. by vm_compute. Qed.
End RankExamples.
