(* ===== verification/LevelRoot.v ===== *)
(** * core/chain/util.go: the level root of a block

    The hashes of the transactions of a block are hashed in groups of sixteen
    over four levels; the root is part of the block header. *)

From S2P Require Import Prelude Common.

Definition hashPerLevel : nat := 16.
Definition levelHashAppender : bytes := str "fletablockchain".
Definition EmptyHash : Hash256 := replicate Hash256Size 0.

Section LevelRoot.
Context `{HashFn}.

(** What the loop of [hash16] writes in round [i]. *)
Definition hash16_round (hashes : list Hash256) (i : nat) : bytes :=
  default EmptyHash (hashes !! i) ++
  match levelHashAppender !! i with Some c => [c] | None => [] end.

Definition hash16_buffer (hashes : list Hash256) : bytes :=
  concat (hash16_round hashes <$> seq 0 hashPerLevel).

Definition hash16 (hashes : list Hash256) : res Hash256 :=
  if (hashPerLevel <? length hashes)%nat then Err ErrExceedHashCount
  else Ok (DoubleHash (hash16_buffer hashes)).

(** [hashes[i*hashPerLevel : last]] with [last] cut at the length. *)
Definition level_group (hashes : list Hash256) (i : nat) : list Hash256 :=
  take hashPerLevel (drop (i * hashPerLevel) hashes).

Definition level_count (n : nat) : nat :=
  (n / hashPerLevel + if negb (n mod hashPerLevel =? 0)%nat then 1 else 0)%nat.

Fixpoint mapM_res {X Y} (f : X → res Y) (l : list X) : res (list Y) :=
  match l with
  | [] => Ok []
  | x :: l => y ← f x; ys ← mapM_res f l; mret (y :: ys)
  end.

Definition buildLevel (hashes : list Hash256) : res (list Hash256) :=
  mapM_res (λ i, hash16 (level_group hashes i)) (seq 0 (level_count (length hashes))).

Definition BuildLevelRoot (hashes : list Hash256) : res Hash256 :=
  if 65536 <? Z.of_nat (length hashes) then Err ErrExceedHashCount
  else if (length hashes =? 0)%nat then Err ErrInvalidHashCount
  else
    lv3 ← buildLevel hashes;
    lv2 ← buildLevel lv3;
    lv1 ← buildLevel lv2;
    hash16 lv1.

(** ** The root binds the hashes *)

Definition hash_list (l : list Hash256) : Prop := Forall (λ h, length h = Hash256Size) l.

Lemma length_round hs i : hash_list hs → length (default EmptyHash (hs !! i)) = Hash256Size.
Proof.
  intros Hf. destruct (hs !! i) as [h|] eqn:E0; [|done].
  simpl. eapply Forall_lookup_1 in Hf; [|done]. done.
Qed.

(** Two buffers that agree were written from lists that agree, padding
    included. *)
Lemma hash16_buffer_inj hs hs' :
  hash_list hs → hash_list hs' → hash16_buffer hs = hash16_buffer hs' →
  ∀ i, (i < hashPerLevel)%nat → default EmptyHash (hs !! i) = default EmptyHash (hs' !! i).
Proof.
  intros Hf Hf'. unfold hash16_buffer. generalize hashPerLevel as n. intros n.
  assert (G : ∀ l, concat (hash16_round hs <$> l) = concat (hash16_round hs' <$> l) →
    Forall (λ i, default EmptyHash (hs !! i) = default EmptyHash (hs' !! i)) l).
  { induction l as [|i l IH]; intros E0; [constructor|]. csimpl in E0. unfold hash16_round in E0 at 1 3.
    rewrite <- !app_assoc in E0. apply app_inj_1 in E0 as [Hi E0]; [|by rewrite !length_round].
    apply app_inv_head in E0. constructor; auto. }
  intros E0 i Hi. apply G in E0. rewrite Forall_forall in E0. apply E0.
  apply elem_of_seq. lia.
Qed.

Lemma hash16_buffer_eq hs hs' :
  hash_list hs → hash_list hs' → length hs = length hs' → (length hs ≤ hashPerLevel)%nat →
  hash16_buffer hs = hash16_buffer hs' → hs = hs'.
Proof.
  intros Hf Hf' Hl Hn E0. apply list_eq. intros i.
  destruct (decide (i < length hs)%nat) as [Hi|Hi].
  - pose proof (hash16_buffer_inj hs hs' Hf Hf' E0 i ltac:(lia)) as Hd.
    destruct (lookup_lt_is_Some_2 hs i Hi) as [x Hx], (lookup_lt_is_Some_2 hs' i ltac:(lia)) as [y Hy].
    rewrite Hx, Hy in *. by f_equal.
  - by rewrite !lookup_ge_None_2 by lia.
Qed.

(** A collision of the hash function. *)
Definition collision : Prop := ∃ x y, x ≠ y ∧ DoubleHash x = DoubleHash y.

Lemma hash16_bind hs hs' h :
  hash_list hs → hash_list hs' → length hs = length hs' →
  hash16 hs = Ok h → hash16 hs' = Ok h → hs = hs' ∨ collision.
Proof.
  intros Hf Hf' Hl. unfold hash16. rewrite <- Hl.
  destruct (Nat.ltb_spec hashPerLevel (length hs)); [done|]. intros [= H1] [= H2].
  destruct (decide (hash16_buffer hs = hash16_buffer hs')) as [E0|Hne].
  - left. by apply hash16_buffer_eq.
  - right. exists (hash16_buffer hs), (hash16_buffer hs'). by rewrite H1.
Qed.

Lemma mapM_res_Ok {X Y} (f : X → res Y) l ys :
  mapM_res f l = Ok ys → Forall2 (λ x y, f x = Ok y) l ys.
Proof.
  revert ys. induction l as [|x l IH]; intros ys; simpl; [intros [= <-]; constructor|].
  destruct (f x) eqn:Hx; simpl; [|done..]. destruct (mapM_res f l) eqn:Hl; simpl; [|done..].
  intros [= <-]. constructor; auto.
Qed.

Lemma level_count_covers n : (n ≤ level_count n * hashPerLevel)%nat.
Proof.
  unfold level_count, hashPerLevel. pose proof (Nat.div_mod n 16 ltac:(lia)).
  pose proof (Nat.mod_upper_bound n 16 ltac:(lia)).
  destruct (Nat.eqb_spec (n mod 16) 0); cbn [negb]; lia.
Qed.

(** The groups determine the list. *)
Lemma groups_eq (hs hs' : list Hash256) :
  length hs = length hs' →
  (∀ i, (i < level_count (length hs))%nat → level_group hs i = level_group hs' i) → hs = hs'.
Proof.
  intros Hl Hg. apply list_eq. intros j. destruct (decide (j < length hs)%nat) as [Hj|Hj].
  2: { by rewrite !lookup_ge_None_2 by lia. }
  set (i := (j / 16)%nat). pose proof (Nat.div_mod j 16 ltac:(lia)) as Hd. fold i in Hd.
  pose proof (Nat.mod_upper_bound j 16 ltac:(lia)) as Hm.
  pose proof (level_count_covers (length hs)) as Hc. unfold hashPerLevel in Hc.
  assert (Hi : (i < level_count (length hs))%nat) by nia.
  specialize (Hg i Hi). unfold level_group, hashPerLevel in Hg.
  apply (f_equal (λ l, l !! (j mod 16)%nat)) in Hg.
  rewrite !lookup_take_lt, !lookup_drop in Hg by lia.
  by replace (i * 16 + j mod 16)%nat with j in Hg by lia.
Qed.

Lemma buildLevel_bind hs hs' r r' :
  hash_list hs → hash_list hs' → length hs = length hs' →
  buildLevel hs = Ok r → buildLevel hs' = Ok r' → r = r' → hs = hs' ∨ collision.
Proof.
  intros Hf Hf' Hl H1%mapM_res_Ok H2%mapM_res_Ok <-. rewrite <- Hl in H2.
  assert (G : (∀ i, (i < level_count (length hs))%nat → level_group hs i = level_group hs' i) ∨ collision).
  { assert (Hg : Forall (λ i, level_group hs i = level_group hs' i ∨ collision)
                   (seq 0 (level_count (length hs)))).
    { revert H1 H2. generalize (seq 0 (level_count (length hs))) as l. intros l H1. revert H1.
      induction 1 as [|i h l r Hi _ IH]; intros H2; [constructor|].
      inversion H2 as [|? ? ? ? Hi2 Hl2]; subst. constructor; [|by apply IH].
      eapply hash16_bind; [..|done|done]; unfold level_group, hash_list.
      - by apply Forall_take, Forall_drop.
      - by apply Forall_take, Forall_drop.
      - rewrite !length_take, !length_drop. lia. }
    clear H1 H2. revert Hg. generalize (level_count (length hs)) as n. intros n Hg.
    induction n as [|n IH]; [left; intros i Hi; lia|]. rewrite seq_S in Hg. apply Forall_app in Hg as [Hg Hn].
    rewrite Forall_singleton in Hn. destruct (IH Hg) as [IHg|]; [|by right]. destruct Hn as [Hn|]; [|by right].
    left. intros i Hi. destruct (decide (i = n)) as [->|]; [done|]. apply IHg. lia. }
  destruct G as [G|]; [left; by apply groups_eq|by right].
Qed.

Lemma buildLevel_length hs r : buildLevel hs = Ok r → length r = level_count (length hs).
Proof. intros H1%mapM_res_Ok. apply Forall2_length in H1. by rewrite length_seq in H1. Qed.

Lemma buildLevel_hashes hs r :
  buildLevel hs = Ok r → hash_list r.
Proof.
  intros H1%mapM_res_Ok. induction H1 as [|i h l r Hi _ IH]; [constructor|].
  constructor; [|done]. unfold hash16 in Hi. destruct (_ <? _)%nat; [done|]. injection Hi as <-.
  unfold DoubleHash, Hash. by rewrite length_copy, length_replicate.
Qed.

(** C34. The level root binds the transactions: two different lists of the
    same number of transaction hashes with the same root exhibit a collision
    of the (double) hash function. *)
Theorem BuildLevelRoot_binds hs hs' r :
  hash_list hs → hash_list hs' → length hs = length hs' →
  BuildLevelRoot hs = Ok r → BuildLevelRoot hs' = Ok r → hs ≠ hs' → collision.
Proof.
  intros Hf Hf' Hl H1 H2 Hne. unfold BuildLevelRoot in *. rewrite <- Hl in H2.
  destruct (65536 <? Z.of_nat (length hs)); [done|]. destruct (length hs =? 0)%nat; [done|].
  destruct (buildLevel hs) as [a3|e|] eqn:E3; simpl in H1; [|done..].
  destruct (buildLevel hs') as [b3|e|] eqn:F3; simpl in H2; [|done..].
  destruct (buildLevel a3) as [a2|e|] eqn:E2; simpl in H1; [|done..].
  destruct (buildLevel b3) as [b2|e|] eqn:F2; simpl in H2; [|done..].
  destruct (buildLevel a2) as [a1|e|] eqn:E1; simpl in H1; [|done..].
  destruct (buildLevel b2) as [b1|e|] eqn:F1; simpl in H2; [|done..].
  assert (L3 : length a3 = length b3)
    by (rewrite (buildLevel_length _ _ E3), (buildLevel_length _ _ F3); congruence).
  assert (L2 : length a2 = length b2)
    by (rewrite (buildLevel_length _ _ E2), (buildLevel_length _ _ F2); congruence).
  assert (L1 : length a1 = length b1)
    by (rewrite (buildLevel_length _ _ E1), (buildLevel_length _ _ F1); congruence).
  destruct (hash16_bind a1 b1 r) as [Q1|]; eauto using buildLevel_hashes.
  destruct (buildLevel_bind a2 b2 a1 b1) as [Q2|]; eauto using buildLevel_hashes.
  destruct (buildLevel_bind a3 b3 a2 b2) as [Q3|]; eauto using buildLevel_hashes.
  destruct (buildLevel_bind hs hs' a3 b3) as [Q4|]; eauto. done.
Qed.

(** A block has up to 65535 transactions and the previous hash: the four
    levels always suffice. *)
Lemma BuildLevelRoot_total hs :
  0 < Z.of_nat (length hs) ≤ 65536 → ∃ r, BuildLevelRoot hs = Ok r.
Proof.
  intros Hn.
  assert (Hb : ∀ l : list Hash256, ∃ r, buildLevel l = Ok r).
  { intros l. unfold buildLevel. induction (seq 0 (level_count (length l))) as [|i k IH]; simpl; [eauto|].
    assert (Hg : (length (level_group l i) ≤ hashPerLevel)%nat)
      by (unfold level_group; rewrite length_take; lia).
    destruct IH as [r ->]. unfold hash16.
    destruct (Nat.ltb_spec hashPerLevel (length (level_group l i))); [lia|]. simpl. eauto. }
  assert (Hc : ∀ n k, (n ≤ k * 16 → level_count n ≤ k)%nat).
  { intros n k Hk. unfold level_count, hashPerLevel. pose proof (Nat.div_mod n 16 ltac:(lia)).
    pose proof (Nat.mod_upper_bound n 16 ltac:(lia)). destruct (Nat.eqb_spec (n mod 16) 0); cbn [negb]; lia. }
  unfold BuildLevelRoot.
  destruct (Z.ltb_spec 65536 (Z.of_nat (length hs))); [lia|]. destruct (Nat.eqb_spec (length hs) 0); [lia|].
  destruct (Hb hs) as [a3 E3]. rewrite E3. simpl. destruct (Hb a3) as [a2 E2]. rewrite E2. simpl.
  destruct (Hb a2) as [a1 E1]. rewrite E1. simpl.
  apply buildLevel_length in E1, E2, E3.
  assert (length a1 ≤ 16)%nat.
  { rewrite E1. apply Hc. rewrite E2. apply Hc. rewrite E3. apply Hc. lia. }
  unfold hash16, hashPerLevel. destruct (Nat.ltb_spec 16 (length a1)); [lia|]. eauto.
Qed.

(** Padding is by empty hashes: a list and the same list with an empty hash
    at the end have one root, unless the list fills its last group. *)
Lemma hash16_pad hs : (length hs < hashPerLevel)%nat → hash16 (hs ++ [EmptyHash]) = hash16 hs.
Proof.
  intros Hn. unfold hash16. rewrite length_app. simpl.
  destruct (Nat.ltb_spec hashPerLevel (length hs + 1)), (Nat.ltb_spec hashPerLevel (length hs)); try lia.
  do 2 f_equal. unfold hash16_buffer. f_equal. apply list_fmap_ext. intros i j _.
  unfold hash16_round. f_equal. destruct (decide (j < length hs)%nat).
  - by rewrite lookup_app_l.
  - rewrite (lookup_ge_None_2 hs) by lia. rewrite lookup_app_r by lia.
    by destruct (j - length hs)%nat as [|[|k]].
Qed.

End LevelRoot.

(** A hash function with collisions: the last 32 bytes of the input, padded. *)
Definition toy_hash : HashFn := λ d, take 32 (rev d ++ replicate 32 0).

Lemma BuildLevelRoot_binds_witness : @collision toy_hash.
Proof.
  apply (@BuildLevelRoot_binds toy_hash
    (replicate 3 (replicate 32 1)) (replicate 3 (replicate 32 2)) (replicate 32 0)).
  - by repeat constructor.
  - by repeat constructor.
  - reflexivity.
  - vm_compute. reflexivity.
  - vm_compute. reflexivity.
  - vm_compute. discriminate.
Defined.
