(* ===== verification/Block.v ===== *)
(** * core/types: blocks and transactions

    The header and the block, the interface of transactions, and the encoder
    of a block as the sequence of the values it hands to the codec.  The
    codec itself (msgpack, reached through the encoding package) is a
    parameter: a token per value. *)

From S2P Require Import Prelude Common Context.

(** ** block_header.go, block.go *)

Record Header := mkHeader {
  ChainID : Z;
  Version : Z;
  HHeight : Z;
  PrevHash : Hash256;
  LevelRootHash : Hash256;
  ContextHash : Hash256;
  HTimestamp : Z;
  Generator : Address;
  ConsensusData : bytes;
}.

Record Block (T : Type) := mkBlock {
  BHeader : Header;
  TransactionTypes : list Z;
  Transactions : list T;
  TransactionSignatures : list (list Signature);
  Signatures : list Signature;
}.
Arguments mkBlock {T} _ _ _ _ _.
Arguments BHeader {T} _.
Arguments TransactionTypes {T} _.
Arguments Transactions {T} _.
Arguments TransactionSignatures {T} _.
Arguments Signatures {T} _.

(** ** transaction.go: what the chain uses of a transaction

    [tx_Validate] and [tx_Execute] take the process the chain found for the
    type of the transaction by its identifier. *)
Class TransactionI (T A E : Type) := {
  tx_Timestamp : T → Z;
  tx_Validate : T → Z → list PublicHash → M (Ctx A E) unit;
  tx_Execute : T → Z → Z → M (Ctx A E) unit;
}.

(** ** util.go *)

(** The codec of transactions: the type of a transaction in the factory and
    the bytes of [EncodeTransaction]. *)
Class TxCodec (T : Type) := {
  tx_TypeOf : T → res Z;
  EncodeTransaction : Z → Z → T → res bytes;
}.

Definition HashTransactionByType {T} `{HashFn} `{TxCodec T} (chain t : Z) (tx : T) : res Hash256 :=
  match EncodeTransaction chain t tx with
  | Ok bs => Ok (Hash bs)
  | _ => Panic
  end.

Definition HashTransaction {T} `{HashFn} `{TxCodec T} (chain : Z) (tx : T) : res Hash256 :=
  match tx_TypeOf tx with
  | Ok t => HashTransactionByType chain t tx
  | _ => Panic
  end.

(** ** The encoder of a block *)

Inductive token (T : Type) :=
  | TkHeader (h : Header)
  | TkTx (tx : T)
  | TkUint16 (n : Z)
  | TkArrayLen (n : nat)
  | TkBytes (bs : bytes).
Arguments TkHeader {T} h.
Arguments TkTx {T} tx.
Arguments TkUint16 {T} n.
Arguments TkArrayLen {T} n.
Arguments TkBytes {T} bs.

Definition SignatureSize : nat := 65.

Section BlockCodec.
Context {T : Type}.
(** The factory makes an object of a type, and the codec decodes into it the
    bytes that were written for a transaction, of whatever type. *)
Context (fc_Create : Z → res T) (decode_into : T → T → res T).

(** The type is in the factory, and the codec of the type reads the
    transaction back. *)
Definition registered (t : Z) (tx : T) : Prop := ∃ new, fc_Create t = Ok new ∧ decode_into new tx = Ok tx.

Definition encode_sigs (sigs : list Signature) : list (token T) :=
  TkArrayLen (length sigs) :: (TkBytes <$> sigs).

(** The loop over the transactions by index: an index outside a list is a
    panic. *)
Definition encode_tx_at (item : Block T) (i : nat) : res (list (token T)) :=
  t ← of_option (TransactionTypes item !! i);
  tx ← of_option (Transactions item !! i);
  sigs ← of_option (TransactionSignatures item !! i);
  mret (TkUint16 t :: TkTx tx :: encode_sigs sigs).

Fixpoint encode_txs (item : Block T) (i n : nat) : res (list (token T)) :=
  match n with
  | O => mret []
  | S n => x ← encode_tx_at item i; xs ← encode_txs item (S i) n; mret (x ++ xs)
  end.

Definition Block_encode (item : Block T) : res (list (token T)) :=
  let n := length (TransactionTypes item) in
  if 65535 <=? Z.of_nat n then Err ErrInvalidTransactionCount
  else if negb (n =? length (Transactions item))%nat then Err ErrInvalidTransactionCount
  else if negb (n =? length (TransactionSignatures item))%nat then Err ErrInvalidTransactionCount
  else
    let Len := length (Transactions item) in
    txs ← encode_txs item 0 Len;
    mret (TkHeader (BHeader item) :: TkArrayLen Len :: txs ++ encode_sigs (Signatures item)).

(** Decoding reads the same tokens; a token of another kind is an error of
    the codec. *)
Definition codec_error : error := ErrExternal 1.

Fixpoint decode_bytes (n : nat) (ts : list (token T)) : res (list Signature * list (token T)) :=
  match n, ts with
  | O, _ => mret ([], ts)
  | S n, TkBytes bs :: ts =>
      let sig := copy (replicate SignatureSize 0) bs in
      '(sigs, ts) ← decode_bytes n ts; mret (sig :: sigs, ts)
  | _, _ => Err codec_error
  end.

Definition decode_sigs (ts : list (token T)) : res (list Signature * list (token T)) :=
  match ts with
  | TkArrayLen n :: ts => decode_bytes n ts
  | _ => Err codec_error
  end.

Fixpoint decode_txs (n : nat) (ts : list (token T))
    : res (list Z * list T * list (list Signature) * list (token T)) :=
  match n with
  | O => mret ([], [], [], ts)
  | S n =>
      match ts with
      | TkUint16 t :: TkTx tx :: ts =>
          new ← fc_Create t;
          tx ← decode_into new tx;
          '(sigs, ts) ← decode_sigs ts;
          '(tys, txs, sgs, ts) ← decode_txs n ts;
          mret (t :: tys, tx :: txs, sigs :: sgs, ts)
      | _ => Err codec_error
      end
  end.

Definition Block_decode (ts : list (token T)) : res (Block T * list (token T)) :=
  match ts with
  | TkHeader h :: TkArrayLen TxLen :: ts =>
      if 65535 <=? Z.of_nat TxLen then Err ErrInvalidTransactionCount
      else
        '(tys, txs, sgs, ts) ← decode_txs TxLen ts;
        '(sigs, ts) ← decode_sigs ts;
        mret (mkBlock h tys txs sgs sigs, ts)
  | _ => Err codec_error
  end.

(** *** Round trip *)

Definition sig_ok (s : Signature) : Prop := length s = SignatureSize.

Lemma decode_sigs_encode sigs rest :
  Forall sig_ok sigs → decode_sigs (encode_sigs sigs ++ rest) = Ok (sigs, rest).
Proof.
  unfold encode_sigs, decode_sigs. cbn [app]. induction 1 as [|s sigs Hs _ IH]; [done|].
  rewrite fmap_cons. cbn [length app decode_bytes]. rewrite IH.
  by rewrite copy_same_length by (by rewrite Hs, length_replicate).
Qed.

Lemma encode_tx_at_cons h t tys tx txs sg sgs sigs i :
  encode_tx_at (mkBlock h (t :: tys) (tx :: txs) (sg :: sgs) sigs) (S i)
  = encode_tx_at (mkBlock h tys txs sgs sigs) i.
Proof. done. Qed.

Lemma encode_txs_cons h t tys tx txs sg sgs sigs i n :
  encode_txs (mkBlock h (t :: tys) (tx :: txs) (sg :: sgs) sigs) (S i) n
  = encode_txs (mkBlock h tys txs sgs sigs) i n.
Proof. revert i. induction n as [|n IH]; intros i; [done|]. cbn [encode_txs]. by rewrite encode_tx_at_cons, IH. Qed.

Lemma decode_txs_encode h sigs tys txs sgs rest :
  length tys = length txs → length tys = length sgs →
  Forall2 registered tys txs → Forall (Forall sig_ok) sgs →
  ∃ out, encode_txs (mkBlock h tys txs sgs sigs) 0 (length txs) = Ok out ∧
         decode_txs (length txs) (out ++ rest) = Ok (tys, txs, sgs, rest).
Proof.
  intros H1 H2 Hr Hs. revert sgs H1 H2 Hs. induction Hr as [|t tx tys txs Ht Hr IH]; intros sgs H1 H2 Hs.
  { destruct sgs; [|done]. by exists []. }
  destruct sgs as [|sg sgs]; [done|]. apply Forall_cons in Hs as [Hsg Hs].
  destruct (IH sgs) as (out & Ho & Hd); [simpl in *; lia..|done|].
  exists (TkUint16 t :: TkTx tx :: encode_sigs sg ++ out). split.
  - cbn [length encode_txs]. rewrite encode_txs_cons, Ho. done.
  - destruct Ht as (new & Hnew & Hdec). cbn [length decode_txs app]. rewrite Hnew. cbn [mbind res_bind]. rewrite Hdec.
    cbn [mbind res_bind]. rewrite <- app_assoc. rewrite decode_sigs_encode by done. cbn [mbind res_bind mret]. by rewrite Hd.
Qed.

(** C35. A block of fewer than 65535 transactions whose three lists have one
    length is written and read back unchanged, whatever follows it on the
    wire, when its signatures have 65 bytes and the type that stands before
    each transaction is one of the factory whose codec reads that transaction
    back. *)
Theorem Block_roundtrip (b : Block T) rest :
  Z.of_nat (length (Transactions b)) < 65535 →
  length (TransactionSignatures b) = length (Transactions b) →
  Forall2 registered (TransactionTypes b) (Transactions b) →
  Forall (Forall sig_ok) (TransactionSignatures b) → Forall sig_ok (Signatures b) →
  ∃ out, Block_encode b = Ok out ∧ Block_decode (out ++ rest) = Ok (b, rest).
Proof.
  intros Hn Hg Hr Hs Hsig. destruct b as [h tys txs sgs sigs]. simpl in *.
  pose proof (Forall2_length _ _ _ Hr) as Ht.
  destruct (decode_txs_encode h sigs tys txs sgs (encode_sigs sigs ++ rest)) as (out & Ho & Hd);
    [done|congruence|done|done|].
  exists (TkHeader h :: TkArrayLen (length txs) :: out ++ encode_sigs sigs). split.
  - unfold Block_encode. simpl. rewrite Ht, Hg, Nat.eqb_refl. simpl.
    destruct (Z.leb_spec 65535 (Z.of_nat (length txs))); [lia|]. by rewrite Ho.
  - cbn [app Block_decode]. destruct (Z.leb_spec 65535 (Z.of_nat (length txs))); [lia|].
    rewrite <- app_assoc, Hd. cbn [mbind res_bind mret]. by rewrite decode_sigs_encode.
Qed.

(** What does not fit is refused by the encoder. *)
Lemma Block_encode_refuses (b : Block T) :
  65535 ≤ Z.of_nat (length (TransactionTypes b)) ∨
  length (TransactionTypes b) ≠ length (Transactions b) ∨
  length (TransactionTypes b) ≠ length (TransactionSignatures b) →
  Block_encode b = Err ErrInvalidTransactionCount.
Proof.
  intros Hb. unfold Block_encode.
  destruct (Z.leb_spec 65535 (Z.of_nat (length (TransactionTypes b)))); [done|].
  destruct (Nat.eqb_spec (length (TransactionTypes b)) (length (Transactions b))); [|done].
  destruct (Nat.eqb_spec (length (TransactionTypes b)) (length (TransactionSignatures b))); [|done].
  simpl. lia.
Qed.
End BlockCodec.

Module BlockExamples.
Definition example_header : Header :=
  mkHeader 1 1 1 (replicate 32 0) (replicate 32 1) (replicate 32 2) 7 (replicate 14 3) [].
Definition example_block : Block Z :=
  mkBlock example_header [256; 257] [10; 20] [[replicate 65 9]; []] [replicate 65 8; replicate 65 7].

(** Two types are registered. *)
Definition create (t : Z) : res Z := if (t =? 256) || (t =? 257) then Ok 0 else Err codec_error.

Lemma Block_roundtrip_witness :
  ∃ out, Block_encode example_block = Ok out ∧
         Block_decode create (λ _ tx, Ok tx) (out ++ [TkUint16 5]) = Ok (example_block, [TkUint16 5]).
Proof.
  apply (Block_roundtrip create (λ _ tx, Ok tx) example_block [TkUint16 5]).
  - reflexivity.
  - reflexivity.
  - repeat constructor; by exists 0.
  - by repeat constructor.
  - by repeat constructor.
Defined.
End BlockExamples.
