(* ===== verification/Store.v ===== *)
(** * core/chain/store.go, util_key.go: the chain store

    The store keeps the state in a key-value database, the blocks in a pile
    (core/pile) and the recently used time slots in memory.  It is the
    loader of the context of the next block, and [StoreBlock] writes that
    context back.

    The database is a map; [Update] is a transaction, rolled back on an
    error.  The pile and the codecs are interfaces. *)

From S2P Require Import Prelude Common Context Block.

(** ** Interfaces *)

(** core/pile, as the store uses it. *)
Class PileI (P : Type) := {
  pile_Init : Hash256 → M P unit;
  pile_AppendData : Z → Hash256 → list bytes → M P unit;
  pile_GetHash : Z → P → res Hash256;
  pile_GetData : Z → nat → P → res bytes;
  pile_GetDatas : Z → nat → nat → P → res bytes;
}.

(** The encoding package: the type code and the bytes of an account, of an
    output, of a header, of a block and of an event list. *)
Class StoreCodec (A E T : Type) := {
  acc_TypeOf : A → res Z;
  acc_Marshal : A → res bytes;
  acc_Unmarshal : Z → bytes → res A;          (* fc.Create, then Unmarshal *)
  txout_Marshal : TxOut → res bytes;
  txout_Unmarshal : bytes → res TxOut;
  header_Marshal : Header → res bytes;
  header_Unmarshal : bytes → res Header;
  header_Hash : Header → Hash256;
  block_Marshal : Block T → res bytes;
  block_Unmarshal : bytes → res (Block T);
  enc_ArrayLen : nat → bytes;
  enc_Uint16 : Z → bytes;
  ev_TypeOf : E → res Z;
  ev_Encode : E → res bytes;
}.

(** ** util_key.go *)

Definition tagHeight : bytes := [1; 0].
Definition tagHeightHash : bytes := [1; 1].
Definition tagAccount : bytes := [2; 0].
Definition tagAccountName : bytes := [2; 1].
Definition tagAccountData : bytes := [2; 3].
Definition tagUTXO : bytes := [3; 0].
Definition tagProcessData : bytes := [4; 0].

Definition toHeightHashKey (height : Z) : bytes := tagHeightHash ++ be_bytes 4 height.
Definition toAccountKey (addr : Address) : bytes := tagAccount ++ copy (replicate AddressSize 0) addr.
Definition toAccountNameKey (Name : bytes) : bytes := tagAccountName ++ Name.
Definition toAccountDataKey (key : bytes) : bytes := tagAccountData ++ key.
Definition toUTXOKey (id : Z) : bytes := tagUTXO ++ be_bytes 8 id.
Definition toProcessDataKey (key : bytes) : bytes := tagProcessData ++ key.

(** ** The database *)

Abbreviation db := (gmap (list Z) (list Z)).

Definition db_Get (key : bytes) (d : db) : res bytes :=
  match d !! key with Some v => Ok v | None => Err ErrNotExistKey end.
Definition db_Set (key value : bytes) : M db unit := modify (<[key := value]>).
Definition db_Delete (key : bytes) : M db unit := modify (delete key).
(** The keys [Iterate] visits. *)
Definition db_keys (prefix : bytes) (d : db) : list bytes :=
  filter (λ k, prefix `prefix_of` k) (sorted_entries d).*1.

Definition not_exist_as {V} (e : error) (r : res V) : res V :=
  match r with
  | Err ErrNotExistKey => Err e
  | r => r
  end.

Section Store.
Context {A E T P : Type} `{AI : AccountI A} `{EI : EventI E} `{B58 : Base58} `{HF : HashFn}.
Context `{SC : !StoreCodec A E T} `{PI : !PileI P} `{TC : !TxCodec T}.

(** ** State *)

Record storecache := mkStoreCache {
  sc_cached : bool;
  sc_height : Z;
  sc_heightHash : Hash256;
  sc_heightBlock : option (Block T);
}.

Record Store := mkStore {
  st_db : db;
  st_cdb : P;
  st_chainID : Z;
  st_symbol : bytes;
  st_usage : bytes;
  st_magicNumber : Z;
  st_version : Z;
  st_cache : storecache;
  st_isClose : bool;
  st_timeSlotMap : gmap Z (gmap bytes bool);
}.

Definition st_set_db (d : db) (st : Store) : Store :=
  mkStore d (st_cdb st) (st_chainID st) (st_symbol st) (st_usage st) (st_magicNumber st)
    (st_version st) (st_cache st) (st_isClose st) (st_timeSlotMap st).
Definition st_set_cdb (p : P) (st : Store) : Store :=
  mkStore (st_db st) p (st_chainID st) (st_symbol st) (st_usage st) (st_magicNumber st)
    (st_version st) (st_cache st) (st_isClose st) (st_timeSlotMap st).
Definition st_set_cache (c : storecache) (st : Store) : Store :=
  mkStore (st_db st) (st_cdb st) (st_chainID st) (st_symbol st) (st_usage st) (st_magicNumber st)
    (st_version st) c (st_isClose st) (st_timeSlotMap st).
Definition st_set_slots (m : gmap Z (gmap bytes bool)) (st : Store) : Store :=
  mkStore (st_db st) (st_cdb st) (st_chainID st) (st_symbol st) (st_usage st) (st_magicNumber st)
    (st_version st) (st_cache st) (st_isClose st) m.

(** *** setupMagicNumber *)

Definition isCapitalAndNumber (Name : bytes) : bool :=
  forallb (λ c, ((48 <=? c) && (c <=? 57)) || ((65 <=? c) && (c <=? 90))) Name.
Definition isAlphabetAndNumber (Name : bytes) : bool :=
  forallb (λ c, ((48 <=? c) && (c <=? 57)) || ((97 <=? c) && (c <=? 122)) || ((65 <=? c) && (c <=? 90))) Name.

(** The two bytes of [base] are xored with every pair of bytes of the hash. *)
Fixpoint fold_pairs (b0 b1 : Z) (ls : bytes) : Z * Z :=
  match ls with
  | x :: y :: ls => fold_pairs (Z.lxor b0 x) (Z.lxor b1 y) ls
  | [x] => (Z.lxor b0 x, Z.lxor b1 0)
  | [] => (b0, b1)
  end.

Definition setupMagicNumber (symbol usage : bytes) : res Z :=
  if (length symbol <? 3)%nat then Panic
  else if (5 <? length symbol)%nat then Panic
  else if negb (isCapitalAndNumber symbol) then Panic
  else if (length usage <? 4)%nat then Panic
  else if (16 <? length usage)%nat then Panic
  else if negb (isAlphabetAndNumber usage) then Panic
  else
    let ls := Hash (symbol ++ str "@" ++ usage ++ str "@" ++ str "PoweredByFLETABlockchain") in
    let '(b0, b1) := fold_pairs 243 133 ls in
    let tbs := replicate 6 0 in
    let tbs := if negb (b0 =? 0) || negb (b1 =? 0) then copy tbs symbol else tbs in
    Ok (be_val ([b0; b1] ++ xor_pairs b0 b1 tbs)).

Definition NewStore (d : db) (cdb : P) (ChainID : Z) (symbol usage : bytes) (version : Z) : res Store :=
  magic ← setupMagicNumber symbol usage;
  mret (mkStore d cdb ChainID symbol usage magic version
          (mkStoreCache false 0 (replicate Hash256Size 0) None) false ∅).

Definition st_Name (st : Store) : bytes := st_symbol st ++ str " " ++ st_usage st.

(** *** Blocks *)

Definition cache_hit (height : Z) (st : Store) : bool :=
  sc_cached (st_cache st) && (sc_height (st_cache st) =? height).

Definition st_Hash (height : Z) (st : Store) : res Hash256 :=
  if st_isClose st then Err ErrStoreClosed
  else if cache_hit height st then Ok (sc_heightHash (st_cache st))
  else match pile_GetHash height (st_cdb st) with
       | Err ErrPileInvalidHeight => Err ErrNotExistKey
       | r => r
       end.

(** The cached block; Go dereferences the pointer. *)
Definition cached_block (st : Store) : res (Block T) := of_option (sc_heightBlock (st_cache st)).

Definition st_Header (height : Z) (st : Store) : res Header :=
  if st_isClose st then Err ErrStoreClosed
  else if height <? 1 then Err ErrNotExistKey
  else if cache_hit height st then b ← cached_block st; mret (BHeader b)
  else match pile_GetData height 0 (st_cdb st) with
       | Err ErrPileInvalidHeight => Err ErrNotExistKey
       | Ok value => header_Unmarshal value
       | Err e => Err e
       | Panic => Panic
       end.

Definition st_Block (height : Z) (st : Store) : res (Block T) :=
  if st_isClose st then Err ErrStoreClosed
  else if height <? 1 then Err ErrNotExistKey
  else if cache_hit height st then cached_block st
  else match pile_GetDatas height 0 2 (st_cdb st) with
       | Err ErrPileInvalidHeight => Err ErrNotExistKey
       | Ok value => block_Unmarshal value
       | Err e => Err e
       | Panic => Panic
       end.

Definition st_Height (st : Store) : res Z :=
  if st_isClose st then Ok 0
  else if sc_cached (st_cache st) then Ok (sc_height (st_cache st))
  else match db_Get tagHeight (st_db st) with
       | Ok value => LittleEndian_Uint32 value
       | _ => Ok 0
       end.

Definition st_LastStatus (st : Store) : res (Z * Hash256) :=
  height ← st_Height st;
  match st_Hash height st with
  | Ok h => Ok (if height =? 0 then 0 else height, h)
  | _ => Panic
  end.

Definition st_LastHash (st : Store) : res Hash256 :=
  height ← st_Height st;
  match st_Hash height st with
  | Ok h => Ok h
  | Err ErrStoreClosed => Ok (replicate Hash256Size 0)
  | _ => Panic
  end.

Definition st_LastTimestamp (st : Store) : res Z :=
  height ← st_Height st;
  if height =? 0 then Ok 0
  else if cache_hit height st then b ← cached_block st; mret (HTimestamp (BHeader b))
  else match st_Header height st with
       | Ok bh => Ok (HTimestamp bh)
       | Err ErrStoreClosed => Ok 0
       | _ => Panic
       end.

Definition st_TargetHeight (st : Store) : res Z :=
  height ← st_Height st;
  mret (u32 (height + 1)).

(** *** The loader *)

(** The marker of a deleted account. *)
Definition is_deleted (value : bytes) : bool := bool_decide (value = [0]).

Definition st_Account (addr : Address) (st : Store) : res A :=
  if st_isClose st then Err ErrStoreClosed
  else not_exist_as ErrNotExistAccount (
    value ← db_Get (toAccountKey addr) (st_db st);
    if is_deleted value then Err ErrDeletedAccount
    else
      t ← LittleEndian_Uint16 value;
      acc_Unmarshal t (drop 2 value)).

(** The address under a name and the test that its account is there. *)
Definition named_address (Name : bytes) (d : db) : res Address :=
  value ← db_Get (toAccountNameKey Name) d;
  let addr := copy emptyAddr value in
  value ← db_Get (toAccountKey addr) d;
  if is_deleted value then Err ErrDeletedAccount else mret addr.

Definition st_AddressByName (Name : bytes) (st : Store) : res Address :=
  if st_isClose st then Err ErrStoreClosed
  else not_exist_as ErrNotExistAccount (named_address Name (st_db st)).

Definition st_HasAccount (addr : Address) (st : Store) : res bool :=
  if st_isClose st then Err ErrStoreClosed
  else match db_Get (toAccountKey addr) (st_db st) with
       | Ok value => if is_deleted value then Err ErrDeletedAccount else Ok true
       | _ => Ok false
       end.

Definition st_HasAccountName (Name : bytes) (st : Store) : res bool :=
  if st_isClose st then Err ErrStoreClosed
  else if bool_decide (is_Some (ParseAddress Name)) then Err ErrChainInvalidAccountName
  else match named_address Name (st_db st) with
       | Ok _ => Ok true
       | Err ErrNotExistKey => Ok false
       | Err e => Err e
       | Panic => Panic
       end.

Definition st_AccountData (addr : Address) (pid : Z) (name : bytes) (st : Store) : bytes :=
  if st_isClose st then []
  else default [] (st_db st !! toAccountDataKey (accountDataKey addr pid name)).

Definition st_HasUTXO (id : Z) (st : Store) : res bool :=
  if st_isClose st then Err ErrStoreClosed
  else match db_Get (toUTXOKey id) (st_db st) with
       | Ok value => Ok (nonempty value)
       | _ => Ok false
       end.

Definition st_UTXO (id : Z) (st : Store) : res UTXO :=
  if st_isClose st then Err ErrStoreClosed
  else not_exist_as ErrNotExistUTXO (
    value ← db_Get (toUTXOKey id) (st_db st);
    out ← txout_Unmarshal value;
    mret (mkUTXO (NewTxIn id) out)).

Definition st_ProcessData (pid : Z) (name : bytes) (st : Store) : bytes :=
  if st_isClose st then []
  else default [] (st_db st !! toProcessDataKey (processDataKey pid name)).

(** [tm[key]] is [false] for a missing key. *)
Definition st_HasTimeSlot (slot : Z) (key : bytes) (st : Store) : bool :=
  match st_timeSlotMap st !! slot with
  | Some tm => default false (tm !! key)
  | None => false
  end.

Definition or_zero (r : res Z) : Z := match r with Ok z => z | _ => 0 end.

(** The store as the loader of a context.  The three header fields are read
    once, when the context is made. *)
Definition store_loader (st : Store) : Loader A := {|
  ld_ChainID := st_chainID st;
  ld_Name := st_Name st;
  ld_Version := st_version st;
  ld_TargetHeight := or_zero (st_TargetHeight st);
  ld_LastHash := match st_LastHash st with Ok h => h | _ => replicate Hash256Size 0 end;
  ld_LastTimestamp := or_zero (st_LastTimestamp st);
  ld_Account addr := st_Account addr st;
  ld_AddressByName Name := st_AddressByName Name st;
  ld_HasAccount addr := st_HasAccount addr st;
  ld_HasAccountName Name := st_HasAccountName Name st;
  ld_AccountData addr pid name := st_AccountData addr pid name st;
  ld_HasUTXO id := st_HasUTXO id st;
  ld_UTXO id := st_UTXO id st;
  ld_ProcessData pid name := st_ProcessData pid name st;
  ld_HasTimeSlot slot key := st_HasTimeSlot slot key st;
|}.

(** *** Writing back *)

Definition apply_account (e : Address * A) : M db unit :=
  let '(addr, acc) := e in
  t ← lift (acc_TypeOf acc);
  data ← lift (acc_Marshal acc);
  db_Set (toAccountKey addr) (LittleEndian_Uint16ToBytes t ++ data) ;;
  db_Set (toAccountNameKey (acc_Name acc)) addr.

(** A deleted account keeps a marker; its data is removed by prefix. *)
Definition apply_deleted_account (e : Address * A) : M db unit :=
  let addr := e.1 in
  db_Set (toAccountKey addr) [0] ;;
  Deletes ← gets (db_keys (toAccountDataKey addr));
  for_each db_Delete Deletes.

Definition apply_utxo (e : Z * UTXO) : M db unit :=
  let '(id, utxo) := e in
  guard_err (negb (TxIn_ID (utxo_TxIn utxo) =? id)) ErrInvalidTxInKey ;;
  data ← lift (txout_Marshal (utxo_TxOut utxo));
  db_Set (toUTXOKey id) data.

Definition apply_created (e : Z * TxOut) : M db unit :=
  data ← lift (txout_Marshal e.2);
  db_Set (toUTXOKey e.1) data.

Definition applyContextData (ctd : ContextData A E) : M db unit :=
  for_each apply_account (sorted_entries (AccountMap ctd)) ;;
  for_each (λ e, db_Set (toAccountDataKey e.1) e.2) (sorted_entries (ov_map (AccountDataOv ctd))) ;;
  for_each apply_deleted_account (sorted_entries (DeletedAccountMap ctd)) ;;
  for_each (λ e, db_Delete (toAccountDataKey e.1)) (sorted_entries (ov_del (AccountDataOv ctd))) ;;
  for_each apply_utxo (sorted_entries (UTXOMap ctd)) ;;
  for_each apply_created (sorted_entries (CreatedUTXOMap ctd)) ;;
  for_each (λ e, db_Delete (toUTXOKey e.1)) (sorted_entries (DeletedUTXOMap ctd)) ;;
  for_each (λ e, db_Set (toProcessDataKey e.1) e.2) (sorted_entries (ov_map (ProcessDataOv ctd))) ;;
  for_each (λ e, db_Delete (toProcessDataKey e.1)) (sorted_entries (ov_del (ProcessDataOv ctd))).

(** [db.Update]. *)
Definition db_Update (f : M db unit) : M Store unit := λ st,
  match f (st_db st) with
  | (Ok u, d) => (Ok u, st_set_db d st)
  | (Err e, _) => (Err e, st)
  | (Panic, _) => (Panic, st)
  end.

Definition on_pile (f : M P unit) : M Store unit := λ st,
  let '(r, p) := f (st_cdb st) in (r, st_set_cdb p st).

(** The error the store ignores: the pile is ahead of the database, as it is
    when a node stopped between the two writes. *)
Definition ignoring (e : error) (m : M Store unit) : M Store unit :=
  r ← try m;
  match r with
  | inr e' => guard_err (negb (bool_decide (e' = e))) e'
  | inl _ => mret tt
  end.

Definition StoreGenesis (genHash : Hash256) (ctd : ContextData A E) : M Store unit :=
  st ← get;
  guard_err (st_isClose st) ErrStoreClosed ;;
  height ← lift (st_Height st);
  guard_err (0 <? height) ErrAlreadyGenesised ;;
  ignoring ErrAlreadyInitialized (on_pile (pile_Init genHash)) ;;
  db_Update (db_Set (toHeightHashKey 0) genHash ;;
             db_Set tagHeight (LittleEndian_Uint32ToBytes 0) ;;
             applyContextData ctd) ;;
  modify (st_set_cache (mkStoreCache true 0 genHash None)).

Fixpoint encode_events (evs : list E) : res bytes :=
  match evs with
  | [] => Ok []
  | ev :: evs =>
      t ← ev_TypeOf ev;
      data ← ev_Encode ev;
      rest ← encode_events evs;
      mret (enc_Uint16 t ++ data ++ rest)
  end.

(** The time slots of the context join those of the store, then the slots no
    later block can use are dropped. *)
Definition join_slots (ctd m : gmap Z (gmap bytes bool)) : gmap Z (gmap bytes bool) :=
  EachAll (λ key mp m,
    <[key := EachAll (λ k _ smp, <[k := true]> smp) mp (default ∅ (m !! key))]> m) ctd m.

Definition drop_slots (currentSlot : Z) (m : gmap Z (gmap bytes bool)) : gmap Z (gmap bytes bool) :=
  foldr (λ slot m, delete slot m) m
    (filter (λ slot, slot < u32 (currentSlot - 1)) (map_to_list m).*1).

Definition StoreBlock (b : Block T) (ctd : ContextData A E) : M Store unit :=
  st ← get;
  guard_err (st_isClose st) ErrStoreClosed ;;
  let DataHash := header_Hash (BHeader b) in
  d0 ← lift (header_Marshal (BHeader b));
  d1 ← lift (block_Marshal b);
  d1 ← (if (length d1 <? length d0)%nat then panic else mret (drop (length d0) d1));
  evs ← (if (0 <? length (Events ctd))%nat
         then bs ← lift (encode_events (Events ctd)); mret [enc_ArrayLen (length (Events ctd)) ++ bs]
         else mret []);
  ignoring ErrInvalidAppendHeight
    (on_pile (pile_AppendData (HHeight (BHeader b)) DataHash ([d0; d1] ++ evs))) ;;
  db_Update (db_Set tagHeight (LittleEndian_Uint32ToBytes (HHeight (BHeader b))) ;;
             applyContextData ctd) ;;
  modify (λ st, st_set_slots (drop_slots (ToTimeSlot (HTimestamp (BHeader b)))
                                (join_slots (TimeSlotMap ctd) (st_timeSlotMap st))) st) ;;
  modify (st_set_cache (mkStoreCache true (HHeight (BHeader b)) DataHash (Some b))).

(** *** IterBlockAfterContext *)

(** The rebuild writes into the slot map as it goes. *)
Abbreviation slotM := (M (gmap Z (gmap (list Z) bool))).

(** The slots of one block; the type of a transaction is read for those that
    are entered. *)
Fixpoint block_slots (cid cur : Z) (tys : list Z) (txs : list T) (stamp : T → Z) : slotM unit :=
  match txs with
  | [] => mret tt
  | tx :: txs =>
      let slot := ToTimeSlot (stamp tx) in
      (if u32 (cur - 1) <=? slot then
         t ← lift (of_option (head tys));
         h ← lift (HashTransactionByType cid t tx);
         modify (λ m, slot_put m slot h)
       else mret tt) ;;
      block_slots cid cur (tail tys) txs stamp
  end.

(** [for h := Height; h >= 1; h--]. *)
Fixpoint rebuild_slots (stamp : T → Z) (lastSlot : Z) (h : nat) (st : Store) : slotM unit :=
  match h with
  | O => mret tt
  | S h' =>
      b ← lift (st_Block (Z.of_nat h) st);
      let cur := ToTimeSlot (HTimestamp (BHeader b)) in
      if cur <? u32 (lastSlot - 1) then mret tt
      else
        block_slots (st_chainID st) cur (TransactionTypes b) (Transactions b) stamp ;;
        rebuild_slots stamp lastSlot h' st
  end.

Definition on_slots (f : slotM unit) : M Store unit := λ st,
  let '(r, m) := f (st_timeSlotMap st) in (r, st_set_slots m st).

(** The first loop replays the blocks the pile has beyond the database with
    [fn]; [fuel] bounds the number of blocks, and running out of it is a
    panic. *)
Fixpoint replay_blocks (fn : Block T → M Store unit) (fuel : nat) (h : Z) : M Store unit :=
  match fuel with
  | O => panic
  | S fuel =>
      st ← get;
      match st_Block h st with
      | Err ErrNotExistKey => mret tt
      | Err e => fail e
      | Panic => panic
      | Ok b => fn b ;; replay_blocks fn fuel (u32 (h + 1))
      end
  end.

Definition IterBlockAfterContext (stamp : T → Z) (fuel : nat) (fn : Block T → M Store unit) : M Store unit :=
  st ← get;
  height ← lift (st_Height st);
  replay_blocks fn fuel (u32 (height + 1)) ;;
  st ← get;
  Height ← lift (st_Height st);
  if 0 <? Height then
    bh ← lift (st_Header Height st);
    on_slots (rebuild_slots stamp (ToTimeSlot (HTimestamp bh)) (Z.to_nat Height) st)
  else mret tt.

End Store.

Arguments storecache : clear implicits.
Arguments Store : clear implicits.
