(* ===== verification/StoreSpec.v ===== *)
(** * The chain store: what is written is what is read

    [applyContextData] writes the one remaining layer of the context of a
    block; the theorems say what every read of the store answers afterwards,
    in terms of that layer and of the store before.  The second part is the
    memory of used time slots: across blocks, and across a restart. *)

From S2P Require Import Prelude Common Context ContextSpec Block Store.

(** ** The laws of the codecs *)
Class StoreCodecLaws (A E T : Type) `{!StoreCodec A E T} : Prop := {
  acc_codec : ∀ a t bs, acc_TypeOf a = Ok t → acc_Marshal a = Ok bs →
    is_u16 t ∧ acc_Unmarshal t bs = Ok a;
  txout_codec : ∀ o bs, txout_Marshal o = Ok bs → txout_Unmarshal bs = Ok o;
}.

(** ** Writing phases *)

Definition tag (k : bytes) : bytes := take 2 k.

Section Phases.
Context {X : Type} (f : X → M db unit).

(** A phase leaves alone the keys outside its tags. *)
Definition writes_tags (tags : list bytes) : Prop :=
  ∀ x d k, tag k ∉ tags → (f x d).2 !! k = d !! k.

Lemma phase_frame tags l d k :
  writes_tags tags → tag k ∉ tags → (for_each f l d).2 !! k = d !! k.
Proof.
  intros Hf Hk. revert d. induction l as [|x l IH]; intros d; [done|].
  cbn [for_each]. unfold mbind, M_bind. specialize (Hf x d k Hk).
  destruct (f x d) as [[u|e|] d']; simpl in *; [|done..]. by rewrite IH.
Qed.

Lemma phase_frame_Ok tags l d u d' k :
  writes_tags tags → for_each f l d = (Ok u, d') → tag k ∉ tags → d' !! k = d !! k.
Proof. intros Hf Hr Hk. by rewrite <- (phase_frame tags l d k Hf Hk), Hr. Qed.

Context (key : X → bytes) (R : X → option bytes → Prop) (Q : bytes → Prop).
(** Among the keys [Q], entry [x] writes the key of [x] only. *)
Hypothesis Hwrite : ∀ x d u d', f x d = (Ok u, d') → R x (d' !! key x).
Hypothesis Hframe : ∀ x d u d' k, f x d = (Ok u, d') → Q k → k ≠ key x → d' !! k = d !! k.

Lemma phase_skip l d u d' k :
  for_each f l d = (Ok u, d') → Q k → k ∉ key <$> l → d' !! k = d !! k.
Proof using Hframe.
  revert d. induction l as [|x l IH]; intros d Hr HQ Hk; [by injection Hr as _ <-|].
  apply bind_inv_Ok in Hr as ([] & d1 & H1 & H2). rewrite fmap_cons, not_elem_of_cons in Hk.
  rewrite (IH d1) by naive_solver. eapply Hframe; naive_solver.
Qed.

Lemma phase_hit l d u d' x :
  NoDup (key <$> l) → for_each f l d = (Ok u, d') → x ∈ l → Q (key x) → R x (d' !! key x).
Proof using Hframe Hwrite.
  revert d. induction l as [|y l IH]; intros d Hnd Hr Hx HQ; [by apply elem_of_nil in Hx|].
  apply bind_inv_Ok in Hr as ([] & d1 & H1 & H2). rewrite fmap_cons in Hnd.
  apply NoDup_cons in Hnd as [Hy Hnd]. apply elem_of_cons in Hx as [->|Hx]; [|by eapply IH].
  rewrite (phase_skip l d1 u d') by done. by eapply Hwrite.
Qed.
End Phases.

(** An iteration that changes the entry of each key it visits. *)
Lemma EachAll_alter {K V W} `{Countable K, KeyOrder K} (g : V → option W → W) (m : gmap K V) (t : gmap K W) k :
  EachAll (λ k v t, <[k := g v (t !! k)]> t) m t !! k =
    match m !! k with Some v => Some (g v (t !! k)) | None => t !! k end.
Proof.
  unfold EachAll. pose proof (sorted_entries_nodup m) as Hnd.
  assert (Hin : ∀ v, m !! k = Some v ↔ (k, v) ∈ sorted_entries m)
    by (intros v; by rewrite elem_of_sorted_entries).
  revert t Hnd Hin. generalize (m !! k) as o, (sorted_entries m) as l. intros o l.
  revert o. induction l as [|[j w] l IH]; intros o t Hnd Hin; csimpl in *.
  { destruct o as [v|]; [|done]. exfalso. by apply (elem_of_nil (k, v)), Hin. }
  apply NoDup_cons in Hnd as [Hj Hnd]. destruct (decide (k = j)) as [->|Hne].
  - assert (o = Some w) as -> by (apply Hin; constructor).
    rewrite (IH None) by (done || (intros v; split; [done|]; intros Hv; destruct Hj;
      apply list_elem_of_fmap; by exists (j, v))).
    by rewrite lookup_insert_eq.
  - rewrite (IH o); [|done|].
    + by rewrite lookup_insert_ne.
    + intros v. rewrite Hin, elem_of_cons. naive_solver.
Qed.

(** A phase over the entries of a map, with keys that are injective on it. *)
Lemma NoDup_entry_keys {K V} `{Countable K, KeyOrder K} (m : gmap K V) (key : K → bytes) :
  (∀ k k', is_Some (m !! k) → is_Some (m !! k') → key k = key k' → k = k') →
  NoDup ((λ e : K * V, key e.1) <$> sorted_entries m).
Proof.
  intros Hinj. pose proof (sorted_entries_nodup m) as Hnd.
  assert (Hin : ∀ k, k ∈ (sorted_entries m).*1 → is_Some (m !! k)).
  { intros k ([k' v] & -> & Hv%elem_of_sorted_entries)%list_elem_of_fmap. by exists v. }
  revert Hnd Hin. generalize (sorted_entries m) as l.
  induction l as [|[k v] l IH]; intros Hnd Hin; csimpl in *; [constructor|].
  apply NoDup_cons in Hnd as [Hk Hnd]. constructor; [|apply IH; [done|]; intros; apply Hin; by constructor].
  intros ([k' v'] & Hkk & Hl)%list_elem_of_fmap. simpl in Hkk. apply Hk.
  assert (k = k') as ->.
  { apply Hinj; [apply Hin; by constructor| |done]. apply Hin. constructor. apply list_elem_of_fmap.
    by exists (k', v'). }
  apply list_elem_of_fmap. by exists (k', v').
Qed.

Section MapPhases.
Context {K V : Type} `{Countable K, KeyOrder K}.
Context (key : K → bytes) (ok : K → Prop) (m : gmap K V).
Hypothesis Hinj : ∀ k k', ok k → ok k' → key k = key k' → k = k'.
Hypothesis Hok : ∀ k, is_Some (m !! k) → ok k.

(** Writing a phase: the entries of [m] are written, other keys stay. *)
Lemma map_phase (f : K * V → M db unit) (R : K → V → bytes → Prop) (Q : bytes → Prop) d u d' k :
  (∀ k v d u d', f (k, v) d = (Ok u, d') → ∃ bs, d' !! key k = Some bs ∧ R k v bs) →
  (∀ x d u d' k, f x d = (Ok u, d') → Q k → k ≠ key x.1 → d' !! k = d !! k) →
  for_each f (sorted_entries m) d = (Ok u, d') → Q (key k) → ok k →
  match m !! k with
  | Some v => ∃ bs, d' !! key k = Some bs ∧ R k v bs
  | None => d' !! key k = d !! key k
  end.
Proof using Hinj Hok.
  intros Hw Hf Hr HQ Hk0.
  destruct (m !! k) as [v|] eqn:Hk.
  - apply (phase_hit f (λ e, key e.1) (λ e o, ∃ bs, o = Some bs ∧ R e.1 e.2 bs) Q) with (x := (k, v))
      (l := sorted_entries m) (d := d) (u := u); try done.
    + intros [k' v'] ? ? ?. apply Hw.
    + apply NoDup_entry_keys. intros k1 k2 H1 H2. by apply Hinj; apply Hok.
    + by apply elem_of_sorted_entries.
  - eapply (phase_skip f (λ e, key e.1) Q); [..|done|done|]; [done|].
    intros ([k' v] & Hkk & Hv%elem_of_sorted_entries)%list_elem_of_fmap. simpl in *.
    assert (k' = k) as -> by (symmetry; apply Hinj; eauto). congruence.
Qed.

Lemma map_phase_set (val : V → bytes) d u d' k :
  for_each (λ e, db_Set (key e.1) (val e.2)) (sorted_entries m) d = (Ok u, d') → ok k →
  d' !! key k = match m !! k with Some v => Some (val v) | None => d !! key k end.
Proof using Hinj Hok.
  intros Hr Hk0. pose proof (map_phase (λ e, db_Set (key e.1) (val e.2)) (λ _ v bs, bs = val v)
    (λ _, True) d u d' k) as Hp. simpl in Hp.
  destruct (m !! k) as [v|].
  - destruct Hp as (bs & -> & ->); try done.
    + intros k' w ? ? ? [= _ <-]. exists (val w). by rewrite lookup_insert_eq.
    + intros x ? ? ? ? [= _ <-] _ Hne. by rewrite lookup_insert_ne.
  - apply Hp; try done.
    + intros k' w ? ? ? [= _ <-]. exists (val w). by rewrite lookup_insert_eq.
    + intros x ? ? ? ? [= _ <-] _ Hne. by rewrite lookup_insert_ne.
Qed.

Lemma map_phase_delete d u d' k :
  for_each (λ e, db_Delete (key e.1)) (sorted_entries m) d = (Ok u, d') → ok k →
  d' !! key k = match m !! k with Some _ => None | None => d !! key k end.
Proof using Hinj Hok.
  intros Hr Hk0. destruct (m !! k) as [v|] eqn:Hk.
  - apply (phase_hit (λ e : K * V, db_Delete (key e.1)) (λ e, key e.1) (λ _ o, o = None) (λ _, True))
      with (x := (k, v)) (l := sorted_entries m) (d := d) (u := u); try done.
    + intros x ? ? ? [= _ <-]. apply lookup_delete_eq.
    + intros x ? ? ? ? [= _ <-] _ Hne. by rewrite lookup_delete_ne.
    + apply NoDup_entry_keys. intros k1 k2 H1 H2. by apply Hinj; apply Hok.
    + by apply elem_of_sorted_entries.
  - eapply (phase_skip (λ e : K * V, db_Delete (key e.1)) (λ e, key e.1) (λ _, True)); [..|done|done|].
    + intros x ? ? ? ? [= _ <-] _ Hne. by rewrite lookup_delete_ne.
    + intros ([k' v] & Hkk & Hv%elem_of_sorted_entries)%list_elem_of_fmap. simpl in *.
      assert (k' = k) as -> by (symmetry; apply Hinj; eauto). congruence.
Qed.
End MapPhases.

(** ** The layer of a block written to the database *)

Section StoreSpec.
Context {A E T P : Type} `{AI : AccountI A} `{EI : EventI E} `{B58 : Base58} `{HF : HashFn}.
Context `{SC : !StoreCodec A E T} `{SL : !StoreCodecLaws A E T}.
Context `{PI : !PileI P} `{TC : !TxCodec T}.
Implicit Types (ctd : ContextData A E) (st : Store T P).

(** What the layer of a block satisfies: addresses have their size, UTXO
    identifiers are 64 bits wide, a UTXO is filed under its own identifier,
    and no account is named like an address. *)
Record layer_ok ctd : Prop := {
  lo_accounts : ∀ a, is_Some (AccountMap ctd !! a) → valid_addr a;
  lo_deleted : ∀ a, is_Some (DeletedAccountMap ctd !! a) → valid_addr a;
  lo_utxos : ∀ id, is_Some (UTXOMap ctd !! id) → is_u64 id;
  lo_created : ∀ id, is_Some (CreatedUTXOMap ctd !! id) → is_u64 id;
  lo_used : ∀ id, is_Some (DeletedUTXOMap ctd !! id) → is_u64 id;
  lo_txin : ∀ id u, UTXOMap ctd !! id = Some u → utxo_TxIn u = NewTxIn id;
  lo_names : ∀ a acc, AccountMap ctd !! a = Some acc → ParseAddress (acc_Name acc) = None;
}.

Lemma toAccountKey_valid a : valid_addr a → toAccountKey a = tagAccount ++ a.
Proof. intros Ha. unfold toAccountKey. by rewrite copy_same_length by (by rewrite length_replicate). Qed.

Lemma toAccountKey_inj a b : valid_addr a → valid_addr b → toAccountKey a = toAccountKey b → a = b.
Proof. intros Ha Hb. rewrite !toAccountKey_valid by done. by intros ?%app_inv_head. Qed.

Lemma toUTXOKey_inj i j : is_u64 i → is_u64 j → toUTXOKey i = toUTXOKey j → i = j.
Proof. intros Hi Hj Hk%app_inv_head. by eapply (be_bytes_inj 8). Qed.

(** *** The tags a phase writes *)

Lemma tag_account a : tag (toAccountKey a) = tagAccount. Proof. done. Qed.
Lemma tag_name n : tag (toAccountNameKey n) = tagAccountName. Proof. by destruct n. Qed.
Lemma tag_data k : tag (toAccountDataKey k) = tagAccountData. Proof. by destruct k. Qed.
Lemma tag_utxo i : tag (toUTXOKey i) = tagUTXO. Proof. done. Qed.
Lemma tag_process k : tag (toProcessDataKey k) = tagProcessData. Proof. by destruct k. Qed.

Lemma db_Set_frame k0 v d k : tag k ≠ tag k0 → (db_Set k0 v d).2 !! k = d !! k.
Proof. intros Hk. simpl. rewrite lookup_insert_ne; [done|]. by intros ->. Qed.

Lemma db_Delete_frame k0 d k : tag k ≠ tag k0 → (db_Delete k0 d).2 !! k = d !! k.
Proof. intros Hk. simpl. rewrite lookup_delete_ne; [done|]. by intros ->. Qed.

Lemma writes_set {X} (key val : X → bytes) t :
  (∀ x, tag (key x) = t) → writes_tags (λ x, db_Set (key x) (val x)) [t].
Proof. intros Ht x d k Hk. apply db_Set_frame. rewrite Ht. set_solver. Qed.

Lemma writes_delete {X} (key : X → bytes) t :
  (∀ x, tag (key x) = t) → writes_tags (λ x, db_Delete (key x)) [t].
Proof. intros Ht x d k Hk. apply db_Delete_frame. rewrite Ht. set_solver. Qed.

Lemma writes_account : writes_tags (apply_account (A := A)) [tagAccount; tagAccountName].
Proof.
  intros [a acc] d k Hk. unfold apply_account, mbind, M_bind, lift.
  destruct (acc_TypeOf acc) as [t|e|]; [|done..]. destruct (acc_Marshal acc) as [data|e|]; [|done..].
  cbn [db_Set modify fst snd]. rewrite !lookup_insert_ne; [done|..];
    intros <-; rewrite ?tag_account, ?tag_name in Hk; set_solver.
Qed.

Lemma db_deletes (ks : list (list Z)) (d : db) : for_each db_Delete ks d = (Ok tt, foldl (λ d k, delete k d) d ks).
Proof. revert d. induction ks as [|k ks IH]; intros d; [done|]. by cbn; rewrite <- IH. Qed.

Lemma lookup_deletes (ks : list (list Z)) (d : db) (k : bytes) :
  foldl (λ d k, delete k d) d ks !! k = if decide (k ∈ ks) then None else d !! k.
Proof.
  revert d. induction ks as [|j ks IH]; intros d; [done|]. cbn [foldl]. rewrite IH.
  destruct (decide (k ∈ ks)) as [Hk|Hk].
  - by rewrite decide_True by (by constructor).
  - destruct (decide (k = j)) as [->|Hne].
    + rewrite decide_True by constructor. apply lookup_delete_eq.
    + rewrite decide_False by (by rewrite elem_of_cons; intros [|]). by rewrite lookup_delete_ne.
Qed.

Lemma elem_of_db_keys (pre : bytes) (d : db) (k : bytes) : k ∈ db_keys pre d ↔ pre `prefix_of` k ∧ is_Some (d !! k).
Proof.
  unfold db_keys. rewrite list_elem_of_filter, list_elem_of_fmap. split.
  - intros (Hp & [k' v] & -> & Hv%elem_of_sorted_entries). eauto.
  - intros (Hp & v & Hv). split; [done|]. exists (k, v). split; [done|]. by apply elem_of_sorted_entries.
Qed.

(** One deleted account: the marker, and no data left under the address. *)
Lemma apply_deleted_lookup (e : Address * A) (d : db) (k : bytes) :
  ∃ d', apply_deleted_account e d = (Ok tt, d') ∧
    d' !! k = if decide (toAccountDataKey e.1 `prefix_of` k) then None
              else if decide (k = toAccountKey e.1) then Some [0] else d !! k.
Proof.
  unfold apply_deleted_account, mbind, M_bind. cbn [db_Set modify gets].
  rewrite db_deletes. eexists. split; [done|]. rewrite lookup_deletes.
  destruct (decide (k ∈ _)) as [Hk|Hk]; rewrite elem_of_db_keys in Hk.
  - by rewrite decide_True by apply Hk.
  - destruct (decide (k = toAccountKey e.1)) as [->|Hne].
    + rewrite lookup_insert_eq in *. destruct (decide _) as [Hp|]; [|done]. naive_solver.
    + rewrite lookup_insert_ne in * by done. destruct (decide _) as [Hp|]; [|done].
      destruct (d !! k) eqn:Hd; [naive_solver|done].
Qed.

Lemma data_prefix_tag (a k : bytes) : toAccountDataKey a `prefix_of` k → tag k = tagAccountData.
Proof. intros [r ->]. unfold toAccountDataKey. rewrite <- app_assoc. by destruct (a ++ r). Qed.

Lemma writes_deleted : writes_tags (apply_deleted_account (A := A)) [tagAccount; tagAccountData].
Proof.
  intros e d k Hk. destruct (apply_deleted_lookup e d k) as (d' & Hd & Hl). rewrite Hd. cbn [snd]. rewrite Hl.
  rewrite decide_False by (intros ?%data_prefix_tag; set_solver).
  rewrite decide_False; [done|]. intros ->. rewrite tag_account in Hk. set_solver.
Qed.

Lemma writes_utxo : writes_tags apply_utxo [tagUTXO].
Proof.
  intros [id u] d k Hk. unfold apply_utxo, guard_err, mbind, M_bind, lift.
  destruct (negb _); [done|]. cbn [mret M_ret]. destruct (txout_Marshal _) as [data|e|]; [|done..].
  apply db_Set_frame. rewrite tag_utxo. set_solver.
Qed.

Lemma writes_created : writes_tags apply_created [tagUTXO].
Proof.
  intros [id u] d k Hk. unfold apply_created, mbind, M_bind, lift. cbn [fst snd].
  destruct (txout_Marshal _) as [data|e|]; [|done..].
  apply db_Set_frame. rewrite tag_utxo. set_solver.
Qed.

(** The nine phases and the databases between them. *)
Definition phases ctd (d0 d9 : db) : Prop :=
  ∃ d1 d2 d3 d4 d5 d6 d7 d8,
    for_each apply_account (sorted_entries (AccountMap ctd)) d0 = (Ok tt, d1) ∧
    for_each (λ e, db_Set (toAccountDataKey e.1) e.2) (sorted_entries (ov_map (AccountDataOv ctd))) d1 = (Ok tt, d2) ∧
    for_each apply_deleted_account (sorted_entries (DeletedAccountMap ctd)) d2 = (Ok tt, d3) ∧
    for_each (λ e, db_Delete (toAccountDataKey e.1)) (sorted_entries (ov_del (AccountDataOv ctd))) d3 = (Ok tt, d4) ∧
    for_each apply_utxo (sorted_entries (UTXOMap ctd)) d4 = (Ok tt, d5) ∧
    for_each apply_created (sorted_entries (CreatedUTXOMap ctd)) d5 = (Ok tt, d6) ∧
    for_each (λ e, db_Delete (toUTXOKey e.1)) (sorted_entries (DeletedUTXOMap ctd)) d6 = (Ok tt, d7) ∧
    for_each (λ e, db_Set (toProcessDataKey e.1) e.2) (sorted_entries (ov_map (ProcessDataOv ctd))) d7 = (Ok tt, d8) ∧
    for_each (λ e, db_Delete (toProcessDataKey e.1)) (sorted_entries (ov_del (ProcessDataOv ctd))) d8 = (Ok tt, d9).

Lemma applyContextData_phases ctd d0 d9 : applyContextData ctd d0 = (Ok tt, d9) → phases ctd d0 d9.
Proof.
  intros H1. unfold applyContextData in H1.
  apply bind_inv_Ok in H1 as ([] & d1 & ? & H1). apply bind_inv_Ok in H1 as ([] & d2 & ? & H1).
  apply bind_inv_Ok in H1 as ([] & d3 & ? & H1). apply bind_inv_Ok in H1 as ([] & d4 & ? & H1).
  apply bind_inv_Ok in H1 as ([] & d5 & ? & H1). apply bind_inv_Ok in H1 as ([] & d6 & ? & H1).
  apply bind_inv_Ok in H1 as ([] & d7 & ? & H1). apply bind_inv_Ok in H1 as ([] & d8 & ? & H1).
  exists d1, d2, d3, d4, d5, d6, d7, d8. done.
Qed.

Local Ltac solve_tag :=
  rewrite ?tag_account, ?tag_name, ?tag_data, ?tag_utxo, ?tag_process;
  apply (bool_decide_unpack _); vm_compute; exact I.
(** Step back over a phase that does not write the key. *)
Local Ltac back H W := rewrite (phase_frame_Ok _ _ _ _ _ _ _ W H) by solve_tag.

Definition writes_data_set := writes_set (λ e : bytes * bytes, toAccountDataKey e.1) snd _ (λ e, tag_data e.1).
Definition writes_data_delete := writes_delete (λ e : bytes * bool, toAccountDataKey e.1) _ (λ e, tag_data e.1).
Definition writes_utxo_delete := writes_delete (λ e : Z * UTXO, toUTXOKey e.1) _ (λ e, tag_utxo e.1).
Definition writes_process_set := writes_set (λ e : bytes * bytes, toProcessDataKey e.1) snd _ (λ e, tag_process e.1).
Definition writes_process_delete := writes_delete (λ e : bytes * bool, toProcessDataKey e.1) _ (λ e, tag_process e.1).

Lemma phase_account (m : gmap Address A) d d' a :
  (∀ a, is_Some (m !! a) → valid_addr a) → valid_addr a →
  for_each apply_account (sorted_entries m) d = (Ok tt, d') →
  match m !! a with
  | Some acc => ∃ bs, d' !! toAccountKey a = Some bs ∧
      ∃ t data, acc_TypeOf acc = Ok t ∧ acc_Marshal acc = Ok data ∧ bs = LittleEndian_Uint16ToBytes t ++ data
  | None => d' !! toAccountKey a = d !! toAccountKey a
  end.
Proof.
  intros Hok Ha Hr.
  apply (map_phase toAccountKey valid_addr m toAccountKey_inj Hok apply_account
    (λ _ acc bs, ∃ t data, acc_TypeOf acc = Ok t ∧ acc_Marshal acc = Ok data ∧
       bs = LittleEndian_Uint16ToBytes t ++ data) (λ k, tag k = tagAccount) d tt); [| |done..].
  - intros k acc e u e' He. unfold apply_account, mbind, M_bind, lift in He.
    destruct (acc_TypeOf acc) as [t|?|] eqn:Ht; [|done..].
    destruct (acc_Marshal acc) as [data|?|] eqn:Hd; [|done..]. injection He as _ <-.
    rewrite lookup_insert_ne, lookup_insert_eq by (intros Hk%(f_equal tag); by rewrite tag_name in Hk).
    eauto 10.
  - intros [k acc] e u e' j He Hj Hne. unfold apply_account, mbind, M_bind, lift in He.
    destruct (acc_TypeOf acc) as [t|?|]; [|done..]. destruct (acc_Marshal acc) as [data|?|]; [|done..].
    injection He as _ <-. rewrite !lookup_insert_ne; [done|done|]. intros <-. by rewrite tag_name in Hj.
Qed.

Lemma phase_deleted (m : gmap Address A) d d' a :
  (∀ a, is_Some (m !! a) → valid_addr a) → valid_addr a →
  for_each apply_deleted_account (sorted_entries m) d = (Ok tt, d') →
  d' !! toAccountKey a = match m !! a with Some _ => Some [0] | None => d !! toAccountKey a end.
Proof.
  intros Hok Ha Hr.
  assert (Hmk : ∀ (e : Address * A) d k, tag k = tagAccount →
    ∃ d', apply_deleted_account e d = (Ok tt, d') ∧
          d' !! k = if decide (k = toAccountKey e.1) then Some [0] else d !! k).
  { intros e d1 k Hk. destruct (apply_deleted_lookup e d1 k) as (d2 & Hd & Hl). exists d2. split; [done|].
    rewrite Hl, decide_False; [done|]. intros Hp%data_prefix_tag. by rewrite Hk in Hp. }
  pose proof (map_phase toAccountKey valid_addr m toAccountKey_inj Hok apply_deleted_account
    (λ _ _ bs, bs = [0]) (λ k, tag k = tagAccount) d tt d' a) as G.
  assert (Hw : ∀ k (acc : A) e u e', apply_deleted_account (k, acc) e = (Ok u, e') →
    ∃ bs, e' !! toAccountKey k = Some bs ∧ bs = [0]).
  { intros k acc e u e' He. destruct (Hmk (k, acc) e (toAccountKey k)) as (e2 & He2 & Hl); [done|].
    rewrite He in He2. injection He2 as _ <-. rewrite decide_True in Hl by done. eauto. }
  assert (Hf : ∀ (x : Address * A) e u e' k, apply_deleted_account x e = (Ok u, e') → tag k = tagAccount →
    k ≠ toAccountKey x.1 → e' !! k = e !! k).
  { intros x e u e' k He Hk Hne. destruct (Hmk x e k Hk) as (e2 & He2 & Hl). rewrite He in He2.
    injection He2 as _ <-. by rewrite decide_False in Hl. }
  specialize (G Hw Hf Hr eq_refl Ha). destruct (m !! a); [by destruct G as (bs & -> & ->)|done].
Qed.

(** The data of a deleted account is gone, other data is kept. *)
Lemma phase_deleted_data (l : list (Address * A)) d d' a p n :
  Forall (λ e, valid_addr e.1) l → valid_addr a →
  for_each apply_deleted_account l d = (Ok tt, d') →
  d' !! toAccountDataKey (accountDataKey a p n) =
    if decide (a ∈ l.*1) then None else d !! toAccountDataKey (accountDataKey a p n).
Proof.
  intros Hl Ha. revert d. induction Hl as [|[b acc] l Hb Hl IH]; intros d Hr; [by injection Hr as <-|].
  apply bind_inv_Ok in Hr as ([] & d1 & H1 & H2). rewrite (IH d1 H2).
  destruct (apply_deleted_lookup (b, acc) d (toAccountDataKey (accountDataKey a p n))) as (d2 & Hd & Hk).
  rewrite H1 in Hd. injection Hd as <-. cbn [fst] in *. csimpl.
  destruct (decide (a ∈ l.*1)) as [Hin|Hin].
  { by rewrite decide_True by (by constructor). }
  rewrite Hk. destruct (decide (a = b)) as [->|Hne].
  - rewrite (decide_True (P := b ∈ _)) by constructor. rewrite decide_True; [done|].
    unfold toAccountDataKey, accountDataKey. by eexists (_ ++ _); rewrite <- app_assoc.
  - rewrite (decide_False (P := a ∈ _)) by (by rewrite elem_of_cons; intros [|]).
    rewrite decide_False, decide_False; [done|..].
    + intros Hq%(f_equal tag). by rewrite tag_data in Hq.
    + intros [r Hp]. unfold toAccountDataKey, accountDataKey in Hp. rewrite <- app_assoc in Hp.
      apply app_inv_head, app_inj_1 in Hp as [? _]; [done|]. unfold valid_addr in *. simpl in *. congruence.
Qed.

Lemma phase_utxo (m : gmap Z UTXO) d d' id :
  (∀ i, is_Some (m !! i) → is_u64 i) → is_u64 id →
  for_each apply_utxo (sorted_entries m) d = (Ok tt, d') →
  match m !! id with
  | Some u => ∃ bs, d' !! toUTXOKey id = Some bs ∧
                TxIn_ID (utxo_TxIn u) = id ∧ txout_Marshal (utxo_TxOut u) = Ok bs
  | None => d' !! toUTXOKey id = d !! toUTXOKey id
  end.
Proof.
  intros Hok Hi Hr.
  apply (map_phase toUTXOKey is_u64 m toUTXOKey_inj Hok apply_utxo
    (λ k u bs, TxIn_ID (utxo_TxIn u) = k ∧ txout_Marshal (utxo_TxOut u) = Ok bs) (λ _, True) d tt);
    [| |done..].
  - intros k u e v e' He. unfold apply_utxo, guard_err, mbind, M_bind, lift in He.
    destruct (Z.eqb_spec (TxIn_ID (utxo_TxIn u)) k); [|done]. cbn [negb mret M_ret] in He.
    destruct (txout_Marshal (utxo_TxOut u)) as [data|?|] eqn:Hm; [|done..]. injection He as _ <-.
    rewrite lookup_insert_eq. eauto.
  - intros [k u] e v e' j He _ Hne. unfold apply_utxo, guard_err, mbind, M_bind, lift in He.
    destruct (negb _); [done|]. cbn [mret M_ret] in He.
    destruct (txout_Marshal _) as [data|?|]; [|done..]. injection He as _ <-. by rewrite lookup_insert_ne.
Qed.

Lemma phase_created (m : gmap Z TxOut) d d' id :
  (∀ i, is_Some (m !! i) → is_u64 i) → is_u64 id →
  for_each apply_created (sorted_entries m) d = (Ok tt, d') →
  match m !! id with
  | Some o => ∃ bs, d' !! toUTXOKey id = Some bs ∧ txout_Marshal o = Ok bs
  | None => d' !! toUTXOKey id = d !! toUTXOKey id
  end.
Proof.
  intros Hok Hi Hr.
  apply (map_phase toUTXOKey is_u64 m toUTXOKey_inj Hok apply_created
    (λ _ o bs, txout_Marshal o = Ok bs) (λ _, True) d tt); [| |done..].
  - intros k u e v e' He. unfold apply_created, mbind, M_bind, lift in He. cbn [fst snd] in He.
    destruct (txout_Marshal u) as [data|?|] eqn:Hm; [|done..]. injection He as _ <-.
    rewrite lookup_insert_eq. eauto.
  - intros [k u] e v e' j He _ Hne. unfold apply_created, mbind, M_bind, lift in He. cbn [fst snd] in *.
    destruct (txout_Marshal _) as [data|?|]; [|done..]. injection He as _ <-. by rewrite lookup_insert_ne.
Qed.

(** *** The lookups after all nine phases *)

Lemma applied_account ctd d0 d9 a :
  layer_ok ctd → valid_addr a → phases ctd d0 d9 →
  match DeletedAccountMap ctd !! a with
  | Some _ => d9 !! toAccountKey a = Some [0]
  | None =>
      match AccountMap ctd !! a with
      | Some acc => ∃ bs, d9 !! toAccountKey a = Some bs ∧
          ∃ t data, acc_TypeOf acc = Ok t ∧ acc_Marshal acc = Ok data ∧ bs = LittleEndian_Uint16ToBytes t ++ data
      | None => d9 !! toAccountKey a = d0 !! toAccountKey a
      end
  end.
Proof.
  intros Hok Ha (d1 & d2 & d3 & d4 & d5 & d6 & d7 & d8 & H1 & H2 & H3 & H4 & H5 & H6 & H7 & H8 & H9).
  back H9 writes_process_delete. back H8 writes_process_set. back H7 writes_utxo_delete.
  back H6 writes_created. back H5 writes_utxo. back H4 writes_data_delete.
  rewrite (phase_deleted _ _ _ _ (lo_deleted _ Hok) Ha H3).
  destruct (DeletedAccountMap ctd !! a); [done|]. back H2 writes_data_set.
  apply (phase_account _ _ _ _ (lo_accounts _ Hok) Ha H1).
Qed.

Lemma toAccountDataKey_inj (x y : bytes) : toAccountDataKey x = toAccountDataKey y → x = y.
Proof. apply app_inv_head. Qed.
Lemma toProcessDataKey_inj (x y : bytes) : toProcessDataKey x = toProcessDataKey y → x = y.
Proof. apply app_inv_head. Qed.

Lemma applied_account_data ctd d0 d9 a p n :
  layer_ok ctd → valid_addr a → phases ctd d0 d9 →
  let k := accountDataKey a p n in
  d9 !! toAccountDataKey k =
    match ov_del (AccountDataOv ctd) !! k, DeletedAccountMap ctd !! a with
    | None, None => match ov_map (AccountDataOv ctd) !! k with Some v => Some v | None => d0 !! toAccountDataKey k end
    | _, _ => None
    end.
Proof.
  intros Hok Ha (d1 & d2 & d3 & d4 & d5 & d6 & d7 & d8 & H1 & H2 & H3 & H4 & H5 & H6 & H7 & H8 & H9) k.
  back H9 writes_process_delete. back H8 writes_process_set. back H7 writes_utxo_delete.
  back H6 writes_created. back H5 writes_utxo.
  rewrite (map_phase_delete toAccountDataKey (λ _, True) _ (λ x y _ _, toAccountDataKey_inj x y)
    (λ _ _, I) _ _ _ k H4 I).
  destruct (ov_del (AccountDataOv ctd) !! k); [done|].
  assert (Hl : Forall (λ e, valid_addr e.1) (sorted_entries (DeletedAccountMap ctd))).
  { apply Forall_forall. intros [b acc] Hb%elem_of_sorted_entries. eapply lo_deleted; eauto. }
  unfold k at 1. rewrite (phase_deleted_data _ d2 d3 a p n Hl Ha H3).
  destruct (DeletedAccountMap ctd !! a) as [acc|] eqn:Hd.
  - rewrite decide_True; [done|]. apply list_elem_of_fmap. exists (a, acc). split; [done|].
    by apply elem_of_sorted_entries.
  - rewrite decide_False.
    2: { intros ([b acc] & -> & Hb%elem_of_sorted_entries)%list_elem_of_fmap. simpl in Hd. congruence. }
    fold k. rewrite (map_phase_set toAccountDataKey (λ _, True) _ (λ x y _ _, toAccountDataKey_inj x y)
      (λ _ _, I) id _ _ _ k H2 I).
    destruct (ov_map (AccountDataOv ctd) !! k); [done|]. by back H1 writes_account.
Qed.

Lemma applied_process_data ctd d0 d9 k :
  phases ctd d0 d9 →
  d9 !! toProcessDataKey k =
    match ov_del (ProcessDataOv ctd) !! k with
    | Some _ => None
    | None => match ov_map (ProcessDataOv ctd) !! k with Some v => Some v | None => d0 !! toProcessDataKey k end
    end.
Proof.
  intros (d1 & d2 & d3 & d4 & d5 & d6 & d7 & d8 & H1 & H2 & H3 & H4 & H5 & H6 & H7 & H8 & H9).
  rewrite (map_phase_delete toProcessDataKey (λ _, True) _ (λ x y _ _, toProcessDataKey_inj x y)
    (λ _ _, I) _ _ _ k H9 I).
  destruct (ov_del (ProcessDataOv ctd) !! k); [done|].
  rewrite (map_phase_set toProcessDataKey (λ _, True) _ (λ x y _ _, toProcessDataKey_inj x y)
      (λ _ _, I) id _ _ _ k H8 I).
  destruct (ov_map (ProcessDataOv ctd) !! k); [done|].
  back H7 writes_utxo_delete. back H6 writes_created. back H5 writes_utxo. back H4 writes_data_delete.
  back H3 writes_deleted. back H2 writes_data_set. by back H1 writes_account.
Qed.

Lemma applied_utxo ctd d0 d9 id :
  layer_ok ctd → is_u64 id → phases ctd d0 d9 →
  match DeletedUTXOMap ctd !! id with
  | Some _ => d9 !! toUTXOKey id = None
  | None =>
      match CreatedUTXOMap ctd !! id, UTXOMap ctd !! id with
      | Some o, _ => ∃ bs, d9 !! toUTXOKey id = Some bs ∧ txout_Marshal o = Ok bs
      | None, Some u => ∃ bs, d9 !! toUTXOKey id = Some bs ∧
                          TxIn_ID (utxo_TxIn u) = id ∧ txout_Marshal (utxo_TxOut u) = Ok bs
      | None, None => d9 !! toUTXOKey id = d0 !! toUTXOKey id
      end
  end.
Proof.
  intros Hok Hi (d1 & d2 & d3 & d4 & d5 & d6 & d7 & d8 & H1 & H2 & H3 & H4 & H5 & H6 & H7 & H8 & H9).
  back H9 writes_process_delete. back H8 writes_process_set.
  rewrite (map_phase_delete toUTXOKey is_u64 _ toUTXOKey_inj (lo_used _ Hok) _ _ _ id H7 Hi).
  destruct (DeletedUTXOMap ctd !! id); [done|].
  pose proof (phase_created _ _ _ id (lo_created _ Hok) Hi H6) as G6.
  destruct (CreatedUTXOMap ctd !! id); [done|]. rewrite G6.
  pose proof (phase_utxo _ _ _ id (lo_utxos _ Hok) Hi H5) as G5.
  destruct (UTXOMap ctd !! id); [done|]. rewrite G5.
  back H4 writes_data_delete. back H3 writes_deleted. back H2 writes_data_set. by back H1 writes_account.
Qed.

(** *** What [StoreBlock] changes *)

Record stored (b : Block T) ctd st st' : Prop := {
  sd_open : st_isClose st = false;
  sd_db : phases ctd (<[tagHeight := LittleEndian_Uint32ToBytes (HHeight (BHeader b))]> (st_db st)) (st_db st');
  sd_open' : st_isClose st' = false;
  sd_chain : st_chainID st' = st_chainID st;
  sd_version : st_version st' = st_version st;
  sd_cache : st_cache st' = mkStoreCache true (HHeight (BHeader b)) (header_Hash (BHeader b)) (Some b);
  sd_slots : st_timeSlotMap st' =
    drop_slots (ToTimeSlot (HTimestamp (BHeader b))) (join_slots (TimeSlotMap ctd) (st_timeSlotMap st));
}.

(** The pile step changes the pile only. *)
Lemma ignoring_pile e (f : M P unit) st u st1 :
  ignoring e (on_pile f) st = (Ok u, st1) → st1 = st_set_cdb (st_cdb st1) st.
Proof.
  unfold ignoring, try, on_pile, mbind, M_bind. destruct (f (st_cdb st)) as [[[]|e'|] p].
  - by intros [= _ <-].
  - unfold guard_err. destruct (negb _); [done|]. by intros [= _ <-].
  - done.
Qed.

Lemma db_Update_Ok (f : M db unit) st u st1 :
  db_Update f st = (Ok u, st1) → ∃ d, f (st_db st) = (Ok u, d) ∧ st1 = st_set_db d st.
Proof. unfold db_Update. destruct (f (st_db st)) as [[[]|e'|] d]; intros [= <- <-]. eauto. Qed.

(** The steps of a successful [StoreBlock]. *)
Lemma StoreBlock_steps b ctd st st' :
  StoreBlock b ctd st = (Ok tt, st') →
  st_isClose st = false ∧ ∃ ds s1 d9,
    ignoring ErrInvalidAppendHeight (on_pile (pile_AppendData (HHeight (BHeader b)) (header_Hash (BHeader b)) ds)) st = (Ok tt, s1) ∧
    applyContextData ctd (<[tagHeight := LittleEndian_Uint32ToBytes (HHeight (BHeader b))]> (st_db s1)) = (Ok tt, d9) ∧
    st' = st_set_cache (mkStoreCache true (HHeight (BHeader b)) (header_Hash (BHeader b)) (Some b))
      (st_set_slots (drop_slots (ToTimeSlot (HTimestamp (BHeader b)))
         (join_slots (TimeSlotMap ctd) (st_timeSlotMap s1))) (st_set_db d9 s1)).
Proof.
  intros H1. unfold StoreBlock in H1.
  apply bind_inv_Ok in H1 as (? & ? & [= <- <-] & H1).
  apply bind_inv_Ok in H1 as ([] & ? & [Hc ->]%guard_err_Ok & H1).
  apply bind_inv_Ok in H1 as (d0 & s0 & [= _ <-] & H1).
  apply bind_inv_Ok in H1 as (d1 & s0 & [= _ <-] & H1).
  apply bind_inv_Ok in H1 as (d2 & s0 & Hd2 & H1).
  assert (s0 = st) as -> by (destruct (_ <? _)%nat; [done|by injection Hd2]).
  apply bind_inv_Ok in H1 as (evs & s0 & Hev & H1).
  assert (s0 = st) as ->.
  { destruct (_ <? _)%nat; [|by injection Hev]. unfold lift, mbind, M_bind in Hev.
    destruct (encode_events _); [|done..]. by injection Hev. }
  apply bind_inv_Ok in H1 as ([] & s1 & H2 & H1).
  apply bind_inv_Ok in H1 as ([] & s2 & (d9 & H3 & ->)%db_Update_Ok & H1).
  apply bind_inv_Ok in H3 as ([] & dh & [= <-] & H3).
  apply bind_inv_Ok in H1 as ([] & s3 & [= <-] & [= <-]). eauto 8.
Qed.

Lemma StoreBlock_stored b ctd st st' : StoreBlock b ctd st = (Ok tt, st') → stored b ctd st st'.
Proof.
  intros (Hc & ds & s1 & d9 & H2%ignoring_pile & H3%applyContextData_phases & ->)%StoreBlock_steps.
  rewrite H2 in *. by split.
Qed.

(** A failed [StoreBlock] leaves the database, the slots and the cache: only
    the pile may have grown. *)
Lemma StoreBlock_refused b ctd st st' r :
  StoreBlock b ctd st = (r, st') → r ≠ Ok tt →
  st_db st' = st_db st ∧ st_timeSlotMap st' = st_timeSlotMap st ∧ st_cache st' = st_cache st.
Proof.
  unfold StoreBlock, mbind, M_bind, get, lift. intros H1 Hr.
  destruct (st_isClose st); cbn [guard_err fail mret M_ret] in H1; [by injection H1 as <- <-|].
  destruct (header_Marshal (BHeader b)) as [d0|e|]; [|by injection H1 as <- <-..].
  destruct (block_Marshal b) as [d1|e|]; [|by injection H1 as <- <-..].
  destruct (_ <? _)%nat; [by injection H1 as <- <-|]. cbn [mret M_ret] in H1.
  assert (G : ∀ evs, (let (r, s') := ignoring ErrInvalidAppendHeight (on_pile (pile_AppendData
      (HHeight (BHeader b)) (header_Hash (BHeader b)) ([d0; drop (length d0) d1] ++ evs))) st in
    st_db s' = st_db st ∧ st_timeSlotMap s' = st_timeSlotMap st ∧ st_cache s' = st_cache st)).
  { intros evs. unfold ignoring, try, on_pile, mbind, M_bind.
    destruct (pile_AppendData _ _ _ (st_cdb st)) as [[[]|e|] p]; [done| |done].
    unfold guard_err. by destruct (negb _). }
  destruct (0 <? _)%nat; [destruct (encode_events _) as [bs|e|]; [|by injection H1 as <- <-..]|];
    cbn [mret M_ret] in H1;
    match type of H1 with (let (_, _) := ignoring _ (on_pile (pile_AppendData _ _ (_ ++ ?evs))) _ in _) = _ =>
      specialize (G evs) end;
    destruct (ignoring _ _ st) as [[[]|e|] s1]; try (by injection H1 as <- <-);
    unfold db_Update in H1; cbn [db_Set modify] in H1;
    destruct (applyContextData ctd _) as [[[]|e|] d]; by injection H1 as <- <-.
Qed.

(** ** The store as a loader *)

(** No account is filed under a name that reads as an address. *)
Definition store_ok st : Prop :=
  st_isClose st = false ∧
  ∀ n, is_Some (ParseAddress n) → st_db st !! toAccountNameKey n = None.

Lemma named_address_inv (n : bytes) (d : db) a :
  named_address n d = Ok a → is_Some (d !! toAccountNameKey n).
Proof. unfold named_address, db_Get. by destruct (d !! toAccountNameKey n). Qed.

Lemma st_Account_Has st a acc : st_Account a st = Ok acc → st_HasAccount a st = Ok true.
Proof.
  unfold st_Account, st_HasAccount, db_Get. destruct (st_isClose st); [done|].
  destruct (st_db st !! toAccountKey a) as [v|]; simpl; [|done].
  by destruct (is_deleted v).
Qed.

Lemma store_loader_ok st : store_ok st → loader_ok (store_loader st).
Proof.
  intros [Hc Hn]. split; cbn.
  - apply st_Account_Has.
  - intros n a. unfold st_AddressByName, st_HasAccountName. rewrite Hc.
    destruct (named_address n (st_db st)) as [b|e|] eqn:Ha; [|by destruct e|done].
    intros _. rewrite bool_decide_eq_false_2; [done|]. intros Hp. apply named_address_inv in Ha.
    rewrite Hn in Ha by done. by destruct Ha.
Qed.

(** A loader wrapped in a fresh context is a well-formed context. *)
Lemma store_context_wf st : store_ok st → wf (NewContext (store_loader st) : Ctx A E).
Proof. intros Hs. by apply NewContext_wf, store_loader_ok. Qed.


Lemma applied_name ctd d0 d9 n :
  phases ctd d0 d9 → (∀ a acc, AccountMap ctd !! a = Some acc → acc_Name acc ≠ n) →
  d9 !! toAccountNameKey n = d0 !! toAccountNameKey n.
Proof.
  intros (d1 & d2 & d3 & d4 & d5 & d6 & d7 & d8 & H1 & H2 & H3 & H4 & H5 & H6 & H7 & H8 & H9) Hn.
  back H9 writes_process_delete. back H8 writes_process_set. back H7 writes_utxo_delete.
  back H6 writes_created. back H5 writes_utxo. back H4 writes_data_delete. back H3 writes_deleted.
  back H2 writes_data_set.
  eapply (phase_skip apply_account (λ e, toAccountNameKey (acc_Name e.2)) (λ k, tag k = tagAccountName));
    [|done|apply tag_name|].
  - intros [k acc] e u e' j He Hj Hne. unfold apply_account, mbind, M_bind, lift in He.
    destruct (acc_TypeOf acc) as [t|?|]; [|done..]. destruct (acc_Marshal acc) as [data|?|]; [|done..].
    injection He as _ <-. rewrite !lookup_insert_ne; [done|by intros <-|by apply not_eq_sym].
  - intros ([a acc] & Hk%app_inv_head & Ha%elem_of_sorted_entries)%list_elem_of_fmap.
    by eapply Hn.
Qed.

Lemma stored_ok b ctd st st' : layer_ok ctd → store_ok st → stored b ctd st st' → store_ok st'.
Proof.
  intros Hl [_ Hn] Hs. split; [apply Hs|]. intros n Hp. rewrite (applied_name _ _ _ n (sd_db _ _ _ _ Hs)).
  - rewrite lookup_insert_ne; [by apply Hn|]. by destruct n.
  - intros a acc Ha <-. apply (lo_names _ Hl) in Ha. rewrite Ha in Hp. by destruct Hp.
Qed.

(** *** The reads after a block *)

Lemma Uint16_app t data :
  is_u16 t → LittleEndian_Uint16 (LittleEndian_Uint16ToBytes t ++ data) = Ok t ∧
             drop 2 (LittleEndian_Uint16ToBytes t ++ data) = data.
Proof.
  intros Ht. unfold LittleEndian_Uint16, LittleEndian_Uint16ToBytes. split; [|done].
  rewrite length_app, length_le_bytes. destruct (Nat.ltb_spec (2 + length data) 2); [lia|].
  rewrite take_app_length' by (by rewrite length_le_bytes). rewrite le_val_bytes. f_equal. by apply Z.mod_small.
Qed.

Lemma stored_account b ctd st st' a :
  layer_ok ctd → valid_addr a → stored b ctd st st' →
  st_Account a st' = default (st_Account a st) (hit_Account a ctd).
Proof.
  intros Hl Ha Hs. pose proof (applied_account _ _ _ a Hl Ha (sd_db _ _ _ _ Hs)) as Hd.
  unfold st_Account, hit_Account, db_Get. rewrite (sd_open _ _ _ _ Hs), (sd_open' _ _ _ _ Hs).
  destruct (DeletedAccountMap ctd !! a); [by rewrite Hd|].
  destruct (AccountMap ctd !! a) as [acc|].
  - destruct Hd as (bs & -> & t & data & Ht & Hm & ->). cbn [mbind res_bind default from_option id].
    destruct (acc_codec acc t data Ht Hm) as [Htr Hu].
    unfold is_deleted. rewrite bool_decide_eq_false_2 by done.
    destruct (Uint16_app t data Htr) as [-> ->]. cbn [mbind res_bind]. by rewrite Hu.
  - rewrite Hd, lookup_insert_ne by done. done.
Qed.

Lemma stored_has_account b ctd st st' a :
  layer_ok ctd → valid_addr a → stored b ctd st st' →
  st_HasAccount a st' = match DeletedAccountMap ctd !! a, AccountMap ctd !! a with
                        | Some _, _ => Err ErrDeletedAccount
                        | None, Some _ => Ok true
                        | None, None => st_HasAccount a st
                        end.
Proof.
  intros Hl Ha Hs. pose proof (applied_account _ _ _ a Hl Ha (sd_db _ _ _ _ Hs)) as Hd.
  unfold st_HasAccount, db_Get. rewrite (sd_open _ _ _ _ Hs), (sd_open' _ _ _ _ Hs).
  destruct (DeletedAccountMap ctd !! a); [by rewrite Hd|].
  destruct (AccountMap ctd !! a) as [acc|].
  - destruct Hd as (bs & -> & t & data & _ & _ & ->). unfold is_deleted.
    by rewrite bool_decide_eq_false_2 by done.
  - by rewrite Hd, lookup_insert_ne by done.
Qed.

Lemma stored_account_data b ctd st st' a p n :
  layer_ok ctd → valid_addr a → stored b ctd st st' →
  st_AccountData a p n st' =
    match DeletedAccountMap ctd !! a, hit_AccountData (accountDataKey a p n) ctd with
    | Some _, _ => []
    | None, Some (Ok v) => v
    | None, _ => st_AccountData a p n st
    end.
Proof.
  intros Hl Ha Hs. pose proof (applied_account_data _ _ _ a p n Hl Ha (sd_db _ _ _ _ Hs)) as Hd.
  unfold st_AccountData, hit_AccountData, ov_hit. rewrite (sd_open _ _ _ _ Hs), (sd_open' _ _ _ _ Hs), Hd.
  destruct (ov_del (AccountDataOv ctd) !! accountDataKey a p n), (DeletedAccountMap ctd !! a); try done.
  destruct (ov_map (AccountDataOv ctd) !! accountDataKey a p n); [done|]. by rewrite lookup_insert_ne.
Qed.

Lemma stored_process_data b ctd st st' p n :
  stored b ctd st st' →
  st_ProcessData p n st' =
    match hit_ProcessData (processDataKey p n) ctd with
    | Some (Ok v) => v
    | _ => st_ProcessData p n st
    end.
Proof.
  intros Hs. pose proof (applied_process_data _ _ _ (processDataKey p n) (sd_db _ _ _ _ Hs)) as Hd.
  unfold st_ProcessData, hit_ProcessData, ov_hit. rewrite (sd_open _ _ _ _ Hs), (sd_open' _ _ _ _ Hs), Hd.
  destruct (ov_del (ProcessDataOv ctd) !! processDataKey p n); [done|].
  destruct (ov_map (ProcessDataOv ctd) !! processDataKey p n); [done|]. by rewrite lookup_insert_ne.
Qed.

Lemma stored_utxo b ctd st st' id :
  layer_ok ctd → is_u64 id → stored b ctd st st' →
  st_UTXO id st' =
    match DeletedUTXOMap ctd !! id, CreatedUTXOMap ctd !! id, UTXOMap ctd !! id with
    | Some _, _, _ => Err ErrNotExistUTXO
    | None, Some vout, _ => Ok (mkUTXO (NewTxIn id) vout)
    | None, None, Some u => Ok u
    | None, None, None => st_UTXO id st
    end.
Proof.
  intros Hl Hi Hs. pose proof (applied_utxo _ _ _ id Hl Hi (sd_db _ _ _ _ Hs)) as Hd.
  unfold st_UTXO, db_Get. rewrite (sd_open _ _ _ _ Hs), (sd_open' _ _ _ _ Hs).
  destruct (DeletedUTXOMap ctd !! id); [by rewrite Hd|].
  destruct (CreatedUTXOMap ctd !! id) as [o|].
  { destruct Hd as (bs & -> & Hm). simpl. by rewrite (txout_codec _ _ Hm). }
  destruct (UTXOMap ctd !! id) as [u|] eqn:Hu; [|by rewrite Hd, lookup_insert_ne].
  destruct Hd as (bs & -> & _ & Hm). simpl. rewrite (txout_codec _ _ Hm). simpl.
  rewrite <- (lo_txin _ Hl id u Hu). by destruct u.
Qed.

(** ** Time slots *)

Lemma lookup_drop_slots (cur : Z) (m : gmap Z (gmap bytes bool)) (s : Z) :
  drop_slots cur m !! s = if decide (s < u32 (cur - 1)) then None else m !! s.
Proof.
  unfold drop_slots.
  assert (G : ∀ (l : list Z), foldr (λ slot m, delete slot m) m l !! s = if decide (s ∈ l) then None else m !! s).
  { induction l as [|x l IH]; [done|]. cbn [foldr]. destruct (decide (s = x)) as [->|Hne].
    - by rewrite lookup_delete_eq, decide_True by constructor.
    - rewrite lookup_delete_ne, IH by done. destruct (decide (s ∈ l)).
      + by rewrite decide_True by (by constructor).
      + by rewrite decide_False by (by rewrite elem_of_cons; intros [|]). }
  rewrite G. destruct (decide (s < u32 (cur - 1))) as [Hs|Hs].
  - destruct (decide _) as [|Hin]; [done|]. destruct (m !! s) as [mp|] eqn:Hm; [|done].
    destruct Hin. apply list_elem_of_filter. split; [done|]. apply list_elem_of_fmap.
    exists (s, mp). split; [done|]. by apply elem_of_map_to_list.
  - rewrite decide_False; [done|]. by intros [? _]%list_elem_of_filter.
Qed.

Lemma join_mark (mp tp : gmap bytes bool) (k : bytes) :
  EachAll (λ k _ smp, <[k := true]> smp) mp tp !! k = if mp !! k then Some true else tp !! k.
Proof.
  rewrite (EachAll_alter (λ _ _, true)). by destruct (mp !! k).
Qed.

Lemma slot_joined (u m : gmap Z (gmap bytes bool)) (s : Z) (k : bytes) :
  default false (default ∅ (join_slots u m !! s) !! k)
  = slot_has u s k || default false (default ∅ (m !! s) !! k).
Proof.
  unfold join_slots.
  rewrite (EachAll_alter (λ mp tp, EachAll (λ k _ smp, <[k := true]> smp) mp (default ∅ tp))).
  unfold slot_has. destruct (u !! s) as [mp|]; [|done]. cbn [default from_option id].
  rewrite join_mark. destruct (mp !! k); [by rewrite bool_decide_eq_true_2 by eauto|].
  by rewrite bool_decide_eq_false_2 by (by intros []).
Qed.

Lemma st_HasTimeSlot_default s k st :
  st_HasTimeSlot s k st = default false (default ∅ (st_timeSlotMap st !! s) !! k).
Proof. unfold st_HasTimeSlot. by destruct (st_timeSlotMap st !! s). Qed.

(** After a block, the store knows the slots of the block and those it knew,
    except those before the slot preceding the one of the block. *)
Lemma stored_slots b ctd st st' s k :
  stored b ctd st st' →
  st_HasTimeSlot s k st' =
    negb (s <? u32 (ToTimeSlot (HTimestamp (BHeader b)) - 1)) &&
    (slot_has (TimeSlotMap ctd) s k || st_HasTimeSlot s k st).
Proof.
  intros Hs. rewrite !st_HasTimeSlot_default, (sd_slots _ _ _ _ Hs), lookup_drop_slots.
  destruct (decide (s < _)) as [Hlt|Hge].
  - by apply Z.ltb_lt in Hlt as ->.
  - rewrite slot_joined. apply Z.nlt_ge, Z.ltb_ge in Hge as ->. done.
Qed.

(** ** C4. The block written is the block read.

    After [StoreBlock] the store answers every read of an account, of
    account data, of process data and of a UTXO as the context of the block
    did, with the block as its last one.  The exceptions are exactly those
    of what the block removed or created: the data of a deleted account is
    gone, its existence test is an error instead of a negative answer, a
    spent output is unknown instead of used, and an output the block created
    becomes readable. *)
Theorem StoreBlock_views b c ctd st st' :
  stack c = [ctd] → loader c = store_loader st → layer_ok ctd → store_ok st →
  1 ≤ HHeight (BHeader b) →
  StoreBlock b ctd st = (Ok tt, st') →
  store_ok st' ∧
  st_LastStatus st' = Ok (HHeight (BHeader b), header_Hash (BHeader b)) ∧
  st_LastTimestamp st' = Ok (HTimestamp (BHeader b)) ∧
  st_Block (HHeight (BHeader b)) st' = Ok b ∧
  (∀ a, valid_addr a → st_Account a st' = view_Account c a) ∧
  (∀ a, valid_addr a → st_HasAccount a st' =
     if DeletedAccountMap ctd !! a then Err ErrDeletedAccount else view_HasAccount c a) ∧
  (∀ a p n, valid_addr a → Ok (st_AccountData a p n st') =
     if DeletedAccountMap ctd !! a then Ok [] else view_AccountData c a p n) ∧
  (∀ p n, Ok (st_ProcessData p n st') = view_ProcessData c p n) ∧
  (∀ id, is_u64 id → st_UTXO id st' =
     match DeletedUTXOMap ctd !! id, CreatedUTXOMap ctd !! id with
     | Some _, _ => Err ErrNotExistUTXO
     | None, Some vout => Ok (mkUTXO (NewTxIn id) vout)
     | None, None => view_UTXO c id
     end).
Proof.
  intros Hst Hld Hl Hok Hh Hr%StoreBlock_stored.
  assert (Hhit : cache_hit (HHeight (BHeader b)) st' = true)
    by (unfold cache_hit; rewrite (sd_cache _ _ _ _ Hr); simpl; by rewrite Z.eqb_refl).
  assert (Hheight : st_Height st' = Ok (HHeight (BHeader b)))
    by (unfold st_Height; by rewrite (sd_open' _ _ _ _ Hr), (sd_cache _ _ _ _ Hr)).
  assert (Hnz : HHeight (BHeader b) ≠ 0) by lia.
  unfold view_Account, view_HasAccount, view_AccountData, view_ProcessData, view_UTXO, view.
  rewrite Hst, Hld. cbn [layers_hit store_loader ld_Account ld_HasAccount ld_AccountData ld_ProcessData ld_UTXO].
  split_and!.
  - by eapply stored_ok.
  - unfold st_LastStatus. rewrite Hheight. simpl. unfold st_Hash.
    rewrite (sd_open' _ _ _ _ Hr), Hhit, (sd_cache _ _ _ _ Hr). simpl. by destruct (Z.eqb_spec (HHeight (BHeader b)) 0).
  - unfold st_LastTimestamp, cached_block. rewrite Hheight. simpl.
    destruct (Z.eqb_spec (HHeight (BHeader b)) 0); [done|]. by rewrite Hhit, (sd_cache _ _ _ _ Hr).
  - unfold st_Block, cached_block. rewrite (sd_open' _ _ _ _ Hr).
    destruct (Z.ltb_spec (HHeight (BHeader b)) 1); [lia|]. by rewrite Hhit, (sd_cache _ _ _ _ Hr).
  - intros a Ha. rewrite (stored_account _ _ _ _ a Hl Ha Hr). by destruct (hit_Account a ctd).
  - intros a Ha. rewrite (stored_has_account _ _ _ _ a Hl Ha Hr). unfold hit_Account.
    by destruct (DeletedAccountMap ctd !! a), (AccountMap ctd !! a).
  - intros a p n Ha. rewrite (stored_account_data _ _ _ _ a p n Hl Ha Hr).
    destruct (DeletedAccountMap ctd !! a); [done|]. unfold hit_AccountData, ov_hit.
    by destruct (ov_del _ !! _); [|destruct (ov_map _ !! _)].
  - intros p n. rewrite (stored_process_data _ _ _ _ p n Hr). unfold hit_ProcessData, ov_hit.
    by destruct (ov_del _ !! _); [|destruct (ov_map _ !! _)].
  - intros id Hi. rewrite (stored_utxo _ _ _ _ id Hl Hi Hr). unfold hit_UTXO.
    by destruct (DeletedUTXOMap ctd !! id), (CreatedUTXOMap ctd !! id), (UTXOMap ctd !! id).
Qed.


(** ** The restart *)

Section Restart.
Context (stamp : T → Z).

Definition slot_of (b : Block T) : Z := ToTimeSlot (HTimestamp (BHeader b)).

(** A transaction of a block, with its hash. *)
Definition has_tx (cid : Z) (b : Block T) (tx : T) (h : Hash256) : Prop :=
  ∃ i t, Transactions b !! i = Some tx ∧ TransactionTypes b !! i = Some t ∧
         HashTransactionByType cid t tx = Ok h.

Definition hashable (cid : Z) (tys : list Z) (txs : list T) : Prop :=
  Forall2 (λ t tx, ∃ h, HashTransactionByType cid t tx = Ok h) tys txs.

(** What the slots of one block add: nothing is lost, and the recent
    transactions of the block are in. *)
Lemma block_slots_spec cid cur tys txs m :
  hashable cid tys txs →
  ∃ m', block_slots cid cur tys txs stamp m = (Ok tt, m') ∧
    (∀ s k, slot_has m s k = true → slot_has m' s k = true) ∧
    (∀ i t tx h, txs !! i = Some tx → tys !! i = Some t → HashTransactionByType cid t tx = Ok h →
       u32 (cur - 1) ≤ ToTimeSlot (stamp tx) → slot_has m' (ToTimeSlot (stamp tx)) h = true).
Proof.
  intros Hh. revert m. induction Hh as [|t tx tys txs [h0 Hh0] _ IH]; intros m.
  { exists m. split_and!; [done..|]. intros i ? ? ? Hi. by destruct i. }
  cbn [block_slots head tail]. unfold mbind, M_bind.
  set (slot := ToTimeSlot (stamp tx)).
  assert (Hput : ∀ s k, slot_has m s k = true → slot_has (slot_put m slot h0) s k = true).
  { intros s k Hs. rewrite slot_has_put. rewrite Hs. apply orb_true_r. }
  destruct (Z.leb_spec (u32 (cur - 1)) slot) as [Hle|Hlt].
  - cbn [lift of_option modify]. rewrite Hh0. cbn [lift modify].
    destruct (IH (slot_put m slot h0)) as (m' & -> & Hm & Ht). exists m'. split_and!; [done|by auto|].
    intros [|i] t' tx' h Hi Hi' Hhh Hle'; [|by eapply Ht].
    simpl in Hi, Hi'. injection Hi as <-. injection Hi' as <-. rewrite Hh0 in Hhh. injection Hhh as <-.
    apply Hm. rewrite slot_has_put. by rewrite bool_decide_eq_true_2 by done.
  - cbn [mret M_ret]. destruct (IH m) as (m' & -> & Hm & Ht). exists m'. split_and!; [done|done|].
    intros [|i] t' tx' h Hi Hi' Hhh Hle'; [|by eapply Ht]. simplify_eq/=. fold slot in Hle'. lia.
Qed.

(** After a restart the store recognises every transaction that the next
    block could repeat: the rebuilt slots contain each transaction of the
    chain whose slot is not before the one preceding the last block.  The
    blocks are those of the store, in order of their slots. *)
Theorem restart_slots st (blk : nat → Block T) (H : nat) last m :
  (∀ h, (1 ≤ h ≤ H)%nat → st_Block (Z.of_nat h) st = Ok (blk h) ∧
     hashable (st_chainID st) (TransactionTypes (blk h)) (Transactions (blk h))) →
  (∀ h h', (1 ≤ h ≤ h')%nat → (h' ≤ H)%nat → slot_of (blk h) ≤ slot_of (blk h')) →
  (∀ h, (1 ≤ h ≤ H)%nat → 1 ≤ slot_of (blk h) ≤ last) → 1 ≤ last < 2 ^ 32 →
  ∃ m', rebuild_slots stamp last H st m = (Ok tt, m') ∧
    (∀ s k, slot_has m s k = true → slot_has m' s k = true) ∧
    (∀ h tx k, (1 ≤ h ≤ H)%nat → has_tx (st_chainID st) (blk h) tx k →
       last - 1 ≤ ToTimeSlot (stamp tx) ≤ slot_of (blk h) →
       slot_has m' (ToTimeSlot (stamp tx)) k = true).
Proof.
  intros Hblk Hmono Hrange Hlast.
  assert (Hu : ∀ x, 1 ≤ x ≤ last → u32 (x - 1) = x - 1)
    by (intros x Hx; apply u32_small; unfold is_u32; lia).
  revert m. induction H as [|H IH]; intros m.
  { exists m. split_and!; [done..|]. lia. }
  cbn [rebuild_slots]. destruct (Hblk (S H) ltac:(lia)) as [Hb Hh].
  unfold lift, mbind at 1, M_bind at 1. rewrite Hb. fold (slot_of (blk (S H))).
  rewrite (Hu last) by lia.
  destruct (Z.ltb_spec (slot_of (blk (S H))) (last - 1)) as [Hlt|Hge].
  { exists m. split_and!; [done..|]. intros h tx k Hh1 _ Hs.
    pose proof (Hmono h (S H) ltac:(lia) ltac:(lia)). lia. }
  destruct (block_slots_spec (st_chainID st) (slot_of (blk (S H))) _ _ m Hh) as (m1 & Hm1 & Hk1 & Ht1).
  destruct IH with (m := m1) as (m2 & Hm2 & Hk2 & Ht2).
  { intros h Hh1. apply Hblk. lia. }
  { intros h h' Hh1 Hh2. apply Hmono; lia. }
  { intros h Hh1. apply Hrange. lia. }
  exists m2. split_and!; [by rewrite (bind_Ok _ _ _ _ _ Hm1)|by auto|].
  intros h tx k Hh1 Htx Hs. destruct (decide (h = S H)) as [->|]; [|eapply Ht2; eauto; lia].
  destruct Htx as (i & t & Hi & Ht & Hhash). apply Hk2. eapply Ht1; eauto.
  rewrite Hu by (apply Hrange; lia). pose proof (Hrange (S H) ltac:(lia)). lia.
Qed.
End Restart.

(** ** Catching up after a crash *)

Section Replay.
Context (p : P).

(** The block the pile has at a height. *)
Definition piled (h : Z) : res (Block T) :=
  match pile_GetDatas h 0 2 p with
  | Err ErrPileInvalidHeight => Err ErrNotExistKey
  | Ok value => block_Unmarshal value
  | Err e => Err e
  | Panic => Panic
  end.

(** An open store over the pile whose cache is not above a height. *)
Definition behind (h : Z) st : Prop :=
  st_isClose st = false ∧ st_cdb st = p ∧ (sc_cached (st_cache st) = true → sc_height (st_cache st) ≤ h).

Lemma behind_Block h k st : behind h st → 0 ≤ h < k → st_Block k st = piled k.
Proof.
  intros (Hc & Hp & Hh) Hk. unfold st_Block, cache_hit, piled. rewrite Hc, Hp.
  destruct (Z.ltb_spec k 1); [lia|]. destruct (sc_cached (st_cache st)); [|done].
  specialize (Hh eq_refl). destruct (Z.eqb_spec (sc_height (st_cache st)) k); [lia|done].
Qed.

(** [StoreBlock] of a block the pile has already keeps the pile. *)
Lemma StoreBlock_behind b ctd st st' :
  behind (HHeight (BHeader b) - 1) st →
  (∀ ds, pile_AppendData (HHeight (BHeader b)) (header_Hash (BHeader b)) ds p = (Err ErrInvalidAppendHeight, p)) →
  StoreBlock b ctd st = (Ok tt, st') → behind (HHeight (BHeader b)) st'.
Proof.
  intros (_ & Hp & _) Happ H1. pose proof (StoreBlock_stored _ _ _ _ H1) as Hs.
  apply StoreBlock_steps in H1 as (Hc & ds & s1 & d9 & H2 & _ & ->).
  split; [apply Hs|]. split; [|by intros _]. cbn.
  unfold ignoring, try, on_pile, mbind, M_bind in H2. rewrite Hp, Happ in H2.
  unfold guard_err in H2. rewrite bool_decide_eq_true_2 in H2 by done. by injection H2 as <-.
Qed.

(** C22. The loop that catches up ends.  The first loop of
    [IterBlockAfterContext] has no bound in the code; when the pile has the
    blocks [blks] above the height of the store and none after them, and the
    callback keeps the pile, the loop stops after exactly these blocks,
    whatever larger bound is given: it is the callback on each of them in
    order, up to the first error. *)
Theorem replay_terminates (fn : Block T → M (Store T P) unit) blks h st fuel :
  (∀ b st st', b ∈ blks → behind (HHeight (BHeader b) - 1) st → fn b st = (Ok tt, st') → behind (HHeight (BHeader b)) st') →
  (∀ i b, blks !! i = Some b → piled (h + 1 + Z.of_nat i) = Ok b ∧ HHeight (BHeader b) = h + 1 + Z.of_nat i) →
  piled (h + 1 + Z.of_nat (length blks)) = Err ErrNotExistKey →
  behind h st → 0 ≤ h → h + 1 + Z.of_nat (length blks) < 2 ^ 32 → (length blks < fuel)%nat →
  replay_blocks fn fuel (h + 1) st = for_each fn blks st.
Proof.
  intros Hfn Hin Hend Hst Hh Hlen Hf. revert h st fuel Hfn Hin Hend Hst Hh Hlen Hf.
  induction blks as [|b blks IH]; intros h st [|fuel] Hfn Hin Hend Hst Hh Hlen Hf; try lia; cbn [replay_blocks for_each length] in *.
  - rewrite Z.add_0_r in Hend. by rewrite (bind_Ok get _ st st st), (behind_Block h), Hend by (done || lia).
  - destruct (Hin 0%nat b eq_refl) as [Hb Hbh]. rewrite Z.add_0_r in Hb, Hbh.
    rewrite (bind_Ok get _ st st st), (behind_Block h), Hb by (done || lia).
    destruct (fn b st) as [[[]|e|] st'] eqn:Hr; [|by rewrite !(bind_Err _ _ _ _ _ Hr)|by unfold mbind, M_bind; rewrite Hr].
    rewrite !(bind_Ok _ _ _ _ _ Hr), u32_small by (unfold is_u32; lia).
    apply IH; try lia.
    + intros b' s s' Hb'. apply Hfn. by right.
    + intros i b' Hi. destruct (Hin (S i) b' Hi) as [H1 H2].
      replace (h + 1 + 1 + Z.of_nat i) with (h + 1 + Z.of_nat (S i)) by lia. done.
    + rewrite <- Hend. f_equal. lia.
    + rewrite <- Hbh. eapply Hfn; [left| |done]. by rewrite Hbh, Z.add_simpl_r.
Qed.
End Replay.

End StoreSpec.
