(* ===== verification/Pile.v ===== *)
(** * core/pile: the files of the chain

    pile.go and db.go: blocks are appended to chunk files.  A file starts with
    a header of [ChunkMetaSize] bytes (three copies of the head height, the
    range of heights, the genesis hash), followed by a table with the end
    offset of every block of the chunk and then the blocks themselves, each a
    hash, the number of its parts, their compressed lengths and the compressed
    parts.

    A file is a sparse map of bytes with a size and a cursor, as the calls
    [Seek], [Read], [Write] see it.  These calls do not fail, except that a
    read at the end of the file does and that a negative offset is refused.
    gzip is a parameter.  The interface [PileI] of the chain store is
    implemented at the end. *)

From S2P Require Import Prelude Common Store.

(** ** Files *)

Definition ErrEOF : error := ErrExternal 2.
Definition ErrEINVAL : error := ErrExternal 3.

(** A byte that was never written is 0.  The log has the bytes that were
    written since the file was opened, in order, with their offsets. *)
Record File := mkFile { f_data : gmap Z Z; f_size : Z; f_pos : Z; f_log : list (Z * Z) }.
Definition bytes_of (m : gmap Z Z) (off : Z) (n : nat) : bytes := (λ i, default 0 (m !! i)) <$> seqZ off (Z.of_nat n).

Fixpoint write_bytes (off : Z) (bs : bytes) (m : gmap Z Z) : gmap Z Z :=
  match bs with
  | [] => m
  | b :: bs => write_bytes (off + 1) bs (<[off := b]> m)
  end.

Definition Seek (off : Z) : M File unit := λ f,
  if off <? 0 then (Err ErrEINVAL, f) else (Ok tt, mkFile (f_data f) (f_size f) off (f_log f)).
Definition Read (n : nat) : M File bytes := λ f,
  if (n =? 0)%nat then (Ok [], f)
  else if f_size f <=? f_pos f then (Err ErrEOF, f)
  else (Ok (bytes_of (f_data f) (f_pos f) n),
        mkFile (f_data f) (f_size f) (Z.min (f_pos f + Z.of_nat n) (f_size f)) (f_log f)).
Definition Write (bs : bytes) : M File unit := λ f,
  (Ok tt, mkFile (write_bytes (f_pos f) bs (f_data f))
            (if (length bs =? 0)%nat then f_size f else Z.max (f_size f) (f_pos f + Z.of_nat (length bs)))
            (f_pos f + Z.of_nat (length bs)) (f_log f ++ imap (λ i b, (f_pos f + Z.of_nat i, b)) bs)).
(** [Sync] flushes the file: the content does not change. *)
Definition Sync : M File unit := mret tt.

(** ** consts.go *)

Definition ChunkUnit : Z := 172800 * 30.
Definition ChunkMetaSize : Z := 256.
Definition ChunkHeaderSize : Z := ChunkUnit * 8 + ChunkMetaSize.

(** ** gzip *)

Class Gzip := {
  gz : bytes → bytes;
  gunzip : bytes → res bytes;
}.
Class GzipLaws (G : Gzip) : Prop := gunzip_gz : ∀ bs, gunzip (gz bs) = Ok bs.

(** ** pile.go *)

Record Pile := mkPile {
  p_file : File;
  p_HeadHeight : Z;
  p_BeginHeight : Z;
  p_GenHash : Hash256;
}.

Definition le32 (z : Z) : bytes := le_bytes 4 z.
(** [binutil.LittleEndian.Uint32(bs[i:])]. *)
Definition Uint32_at (bs : bytes) (i : nat) : res Z :=
  let s := take 4 (drop i bs) in if (length s =? 4)%nat then Ok (le_val s) else Panic.

Definition meta_of (Head CheckA CheckB Begin End : Z) (GenHash : Hash256) : bytes :=
  le32 Head ++ le32 CheckA ++ le32 CheckB ++ le32 Begin ++ le32 End ++ GenHash.

(** The file is new and empty, [Truncate] sets its size. *)
Definition NewPile (GenHash : Hash256) (BaseHeight : Z) : res Pile :=
  if negb (BaseHeight `mod` ChunkUnit =? 0) then Err ErrInvalidChunkBeginHeight
  else
    let meta := meta_of BaseHeight BaseHeight BaseHeight BaseHeight (u32 (BaseHeight + ChunkUnit)) GenHash in
    let '(_, f) := Write (meta ++ replicate (256 - length meta) 0) (mkFile ∅ ChunkHeaderSize 0 []) in
    Ok (mkPile f BaseHeight BaseHeight GenHash).

(** The repair after a crash between the writes of the three copies. *)
Definition repair (HeadHeight CheckA CheckB : Z) : M File Z :=
  if negb (HeadHeight =? CheckA) || negb (CheckA =? CheckB) then
    if CheckA =? CheckB then
      Seek 0 ;; Write (le32 CheckA) ;; Sync ;; mret CheckA
    else if HeadHeight =? u32 (CheckB + 1) then
      Seek 4 ;; Write (le32 HeadHeight) ;; Write (le32 HeadHeight) ;; Sync ;; mret HeadHeight
    else if HeadHeight =? CheckA then
      Seek 8 ;; Write (le32 HeadHeight) ;; Sync ;; mret HeadHeight
    else fail ErrHeightCrashed
  else mret HeadHeight.

(** The end offset of the first [n] blocks of the chunk. *)
Definition read_offset (n : Z) : M File Z :=
  if 0 <? n then
    Seek (ChunkMetaSize + (n - 1) * 8) ;;
    bs ← Read 8;
    mret (i64 (le_val bs))
  else mret ChunkHeaderSize.

Definition load_file : M File (Z * Z * Hash256) :=
  Seek 0 ;;
  meta ← Read (Z.to_nat ChunkMetaSize);
  HeadHeight ← lift (Uint32_at meta 0);
  CheckA ← lift (Uint32_at meta 4);
  CheckB ← lift (Uint32_at meta 8);
  BeginHeight ← lift (Uint32_at meta 12);
  EndHeight ← lift (Uint32_at meta 16);
  let GenHash := take Hash256Size (drop 20 meta) in
  guard_err (negb (BeginHeight `mod` ChunkUnit =? 0)) ErrInvalidChunkBeginHeight ;;
  guard_err (negb (u32 (BeginHeight + ChunkUnit) =? EndHeight)) ErrInvalidChunkEndHeight ;;
  HeadHeight ← repair HeadHeight CheckA CheckB;
  Offset ← read_offset (u32 (HeadHeight - BeginHeight));
  size ← gets f_size;
  guard_err (size <? Offset) ErrInvalidFileSize ;;
  mret (HeadHeight, BeginHeight, GenHash).

Definition LoadPile (f : File) : res Pile :=
  match load_file f with
  | (Ok (head, begin, gen), f') => Ok (mkPile f' head begin gen)
  | (Err e, _) => Err e
  | (Panic, _) => Panic
  end.

Definition on_file {V} (m : M File V) : M Pile V := λ p,
  let '(r, f) := m (p_file p) in (r, mkPile f (p_HeadHeight p) (p_BeginHeight p) (p_GenHash p)).
Definition inc_HeadHeight : M Pile unit :=
  modify (λ p, mkPile (p_file p) (u32 (p_HeadHeight p + 1)) (p_BeginHeight p) (p_GenHash p)).

Section Pile.
Context `{G : Gzip}.

(** The two loops that write the compressed parts; the total length. *)
Definition write_parts (Datas : list bytes) : M File Z :=
  for_each (λ v, Write (le32 (u32 (Z.of_nat (length (gz v)))))) Datas ;;
  for_each (λ v, Write (gz v)) Datas ;;
  mret (32 + 1 + 4 * Z.of_nat (length Datas) + foldr Z.add 0 ((λ v, Z.of_nat (length (gz v))) <$> Datas)).

Definition AppendData (sync : bool) (Height : Z) (DataHash : Hash256) (Datas : list bytes) : M Pile unit :=
  p ← get;
  guard_err (negb (Height =? u32 (p_HeadHeight p + 1))) ErrInvalidAppendHeight ;;
  let FromHeight := u32 (p_HeadHeight p - p_BeginHeight p) in
  on_file (
    Offset ← read_offset FromHeight;
    Seek Offset ;;
    Write DataHash ;;
    Write [u8 (Z.of_nat (length Datas))] ;;
    totalLen ← write_parts Datas;
    Seek (ChunkMetaSize + FromHeight * 8) ;;
    Write (le_bytes 8 (u64 (Offset + totalLen))) ;;
    Seek 0 ;;
    Write (le32 (u32 (p_HeadHeight p + 1))) ;;
    (if sync then Sync else mret tt) ;;
    Seek 4 ;;
    Write (le32 (u32 (p_HeadHeight p + 1))) ;;
    (if sync then Sync else mret tt) ;;
    Seek 8 ;;
    Write (le32 (u32 (p_HeadHeight p + 1))) ;;
    (if sync then Sync else mret tt)) ;;
  inc_HeadHeight.

(** [GetHash] does not test the head height. *)
Definition GetHash (Height : Z) : M Pile Hash256 :=
  p ← get;
  let FromHeight := u32 (Height - p_BeginHeight p) in
  guard_err (u32 (p_BeginHeight p + ChunkUnit) <? Height) ErrPileInvalidHeight ;;
  on_file (
    Offset ← read_offset (FromHeight - 1);
    Seek Offset ;;
    Read 32).

(** The checks and reads that [GetData] and [GetDatas] share, for the last
    index that is needed: the lengths of the parts and the offset of the
    first one. *)
Definition read_lengths (Height : Z) (need : nat) : M Pile (bytes * Z) :=
  p ← get;
  let FromHeight := u32 (Height - p_BeginHeight p) in
  guard_err (u32 (p_BeginHeight p + ChunkUnit) <? Height) ErrPileInvalidHeight ;;
  guard_err (p_HeadHeight p <? Height) ErrPileInvalidHeight ;;
  on_file (
    Offset ← read_offset (FromHeight - 1);
    Seek (Offset + 32) ;;
    lbs ← Read 1;
    let n := nth 0 lbs 0 in
    guard_err (n <? Z.of_nat need) ErrInvalidDataIndex ;;
    zlbs ← Read (Z.to_nat (u8 (4 * n)));
    mret (zlbs, Offset + 32 + 1 + u8 (4 * n))).

(** [for i := 0; i < n; i++ { zofs += Uint32(zlbs[4*i:]) }]. *)
Fixpoint sum_lengths (zlbs : bytes) (i n : nat) : res Z :=
  match n with
  | O => Ok 0
  | S n => x ← Uint32_at zlbs (4 * i); y ← sum_lengths zlbs (S i) n; mret (x + y)
  end.

(** One part at the cursor. *)
Definition read_part (zlbs : bytes) (i : nat) : M File bytes :=
  zsize ← lift (Uint32_at zlbs (4 * i));
  zd ← Read (Z.to_nat zsize);
  lift (gunzip zd).

Definition GetData (Height : Z) (index : nat) : M Pile bytes :=
  '(zlbs, zofs) ← read_lengths Height (S index);
  on_file (
    skip ← lift (sum_lengths zlbs 0 index);
    Seek (zofs + skip) ;;
    read_part zlbs index).

Fixpoint read_parts (zlbs : bytes) (i n : nat) : M File bytes :=
  match n with
  | O => mret []
  | S n => data ← read_part zlbs i; rest ← read_parts zlbs (S i) n; mret (data ++ rest)
  end.

Definition GetDatas (Height : Z) (from count : nat) : M Pile bytes :=
  '(zlbs, zofs) ← read_lengths Height (from + count);
  on_file (
    skip ← lift (sum_lengths zlbs 0 from);
    Seek (zofs + skip) ;;
    read_parts zlbs from count).

(** ** db.go *)

(** Times are in nanoseconds. *)
Record DB := mkDB {
  db_piles : list Pile;
  db_genHash : Hash256;
  db_syncMode : bool;
  db_hasDirty : bool;
  db_lastSyncTime : Z;
}.

Fixpoint load_all (pileMap : gmap Z Pile) (MaxHeight : Z) (files : list File) : res (gmap Z Pile * Z) :=
  match files with
  | [] => Ok (pileMap, MaxHeight)
  | f :: files =>
      p ← LoadPile f;
      load_all (<[p_BeginHeight p := p]> pileMap) (if MaxHeight <? p_HeadHeight p then p_HeadHeight p else MaxHeight) files
  end.
(** The loop over the chunks from [i]. *)
Fixpoint collect (m : gmap Z Pile) (i : Z) (Count : nat) : res (list Pile) :=
  match Count with
  | O => Ok []
  | S n =>
      match m !! (i * ChunkUnit) with
      | None => Err ErrMissingPile
      | Some p => ps ← collect m (i + 1) n; mret (p :: ps)
      end
  end.
(** [files] are the files with the extension .pile, in the order of the walk. *)
Definition Open (now : Z) (files : list File) : res DB :=
  '(pileMap, MaxHeight) ← load_all ∅ 0 files;
  let Count := MaxHeight `div` ChunkUnit + 1 in
  piles ← (if 0 <? MaxHeight then collect pileMap 0 (Z.to_nat Count) else Ok []);
  mret (mkDB piles (match piles with [] => replicate Hash256Size 0 | p :: _ => p_GenHash p end) false false now).

Definition db_Init (genHash : Hash256) : M DB unit := λ db,
  match db_piles db with
  | _ :: _ => (Err ErrAlreadyInitialized, db)
  | [] =>
      match NewPile genHash 0 with
      | Ok p => (Ok tt, mkDB [p] genHash (db_syncMode db) (db_hasDirty db) (db_lastSyncTime db))
      | Err e => (Err e, db)
      | Panic => (Panic, db)
      end
  end.
Definition SetSyncMode (sync : bool) (db : DB) : DB :=
  mkDB (db_piles db) (db_genHash db) sync (db_hasDirty db) (db_lastSyncTime db).

Definition set_piles (ps : list Pile) (db : DB) : DB :=
  mkDB ps (db_genHash db) (db_syncMode db) (db_hasDirty db) (db_lastSyncTime db).

(** An operation on the pile at an index. *)
Definition on_pile {V} (i : nat) (m : M Pile V) : M DB V := λ db,
  match db_piles db !! i with
  | None => (Panic, db)
  | Some p => let '(r, p') := m p in (r, set_piles (<[i := p']> (db_piles db)) db)
  end.

Definition db_AppendData (now : Z) (Height : Z) (DataHash : Hash256) (Datas : list bytes) : M DB unit :=
  guard_err (255 <? Z.of_nat (length Datas)) ErrExeedMaximumDataArrayLength ;;
  db ← get;
  p ← lift (of_option (last (db_piles db)));
  guard_err (negb (Height =? u32 (p_HeadHeight p + 1))) ErrInvalidAppendHeight ;;
  (if ChunkUnit <=? u32 (p_HeadHeight p - p_BeginHeight p) then
     v ← lift (NewPile (db_genHash db) (u32 (p_BeginHeight p + ChunkUnit)));
     modify (λ db, set_piles (db_piles db ++ [v]) db)
   else mret tt) ;;
  db ← get;
  let sync := db_syncMode db || (1000000000 <=? db_lastSyncTime db - now) in
  on_pile (length (db_piles db) - 1) (AppendData sync Height DataHash Datas) ;;
  modify (λ db, mkDB (db_piles db) (db_genHash db) (db_syncMode db) (negb sync) (if sync then now else db_lastSyncTime db)).

(** The pile of a height. *)
Definition at_height {V} (Height : Z) (m : M Pile V) : M DB V :=
  let idx := (Height - 1) `div` ChunkUnit in
  db ← get;
  guard_err (Z.of_nat (length (db_piles db)) <=? idx) ErrPileInvalidHeight ;;
  on_pile (Z.to_nat idx) m.

Definition db_GetHash (Height : Z) : M DB Hash256 :=
  db ← get;
  if Height =? 0 then
    match db_piles db with
    | p :: _ => mret (p_GenHash p)
    | [] => fail ErrPileInvalidHeight
    end
  else at_height Height (GetHash Height).
Definition db_GetData (Height : Z) (index : nat) : M DB bytes :=
  guard_err (Height =? 0) ErrPileInvalidHeight ;; at_height Height (GetData Height index).
Definition db_GetDatas (Height : Z) (from count : nat) : M DB bytes :=
  guard_err (Height =? 0) ErrPileInvalidHeight ;; at_height Height (GetDatas Height from count).
Definition db_Close (db : DB) : DB := set_piles [] db.

(** The interface of the chain store; the reads leave the bytes of the files
    alone and only move their cursors. *)
#[export] Instance pile_db : PileI DB := {
  pile_Init := db_Init;
  pile_AppendData := db_AppendData 0;
  pile_GetHash h db := (db_GetHash h db).1;
  pile_GetData h i db := (db_GetData h i db).1;
  pile_GetDatas h i n db := (db_GetDatas h i n db).1;
}.
End Pile.
