(* ===== verification/PileSpec.v ===== *)
(** * Theorems about the files of the chain

    What was appended is read back and earlier blocks stay as they are; after a
    crash at any byte of an append the file loads with the old or the new
    head; a database that ends with a full chunk does not open; a height
    beyond the head has a hash; and 64 parts are not read back. *)

From S2P Require Import Prelude Common Store Pile.

(** ** Bytes of a file *)

Lemma length_bytes_of m off n : length (bytes_of m off n) = n.
Proof. unfold bytes_of. rewrite length_fmap, length_seqZ. lia. Qed.

Lemma bytes_of_app m off a b : bytes_of m off (a + b) = bytes_of m off a ++ bytes_of m (off + Z.of_nat a) b.
Proof. unfold bytes_of. rewrite Nat2Z.inj_add, seqZ_app, fmap_app by lia. done. Qed.

Lemma take_bytes_of m off n k : (k ≤ n)%nat → take k (bytes_of m off n) = bytes_of m off k.
Proof.
  intros Hk. replace n with (k + (n - k))%nat by lia. rewrite bytes_of_app.
  by rewrite take_app_length' by (by rewrite length_bytes_of).
Qed.

Lemma drop_bytes_of m off n k : (k ≤ n)%nat → drop k (bytes_of m off n) = bytes_of m (off + Z.of_nat k) (n - k).
Proof.
  intros Hk. replace n with (k + (n - k))%nat at 1 by lia. rewrite bytes_of_app.
  by rewrite drop_app_length' by (by rewrite length_bytes_of).
Qed.

Lemma bytes_of_ext m m' off n :
  (∀ i, off ≤ i < off + Z.of_nat n → m' !! i = m !! i) → bytes_of m' off n = bytes_of m off n.
Proof.
  intros Hext. unfold bytes_of. apply list_fmap_ext. intros k i Hi. apply lookup_seqZ in Hi as [-> Hk]. by rewrite Hext by lia.
Qed.

Lemma write_bytes_out off bs m i : (i < off ∨ off + Z.of_nat (length bs) ≤ i) → write_bytes off bs m !! i = m !! i.
Proof.
  revert off m. induction bs as [|b bs IH]; intros off m Hi; cbn [write_bytes length] in *; [done|].
  rewrite IH by lia. apply lookup_insert_ne. lia.
Qed.

Lemma bytes_of_write_other off bs m off' n :
  off' + Z.of_nat n ≤ off ∨ off + Z.of_nat (length bs) ≤ off' → bytes_of (write_bytes off bs m) off' n = bytes_of m off' n.
Proof. intros Hd. apply bytes_of_ext. intros i Hi. apply write_bytes_out. lia. Qed.

Lemma bytes_of_1 m off : bytes_of m off 1 = [default 0 (m !! off)].
Proof. unfold bytes_of. by rewrite seqZ_cons by lia. Qed.

Lemma bytes_of_write off bs m : bytes_of (write_bytes off bs m) off (length bs) = bs.
Proof.
  revert off m. induction bs as [|b bs IH]; intros off m; [done|]. cbn [length write_bytes].
  change (S (length bs)) with (1 + length bs)%nat. rewrite bytes_of_app, IH.
  rewrite bytes_of_1, write_bytes_out by lia. by rewrite lookup_insert_eq.
Qed.

Lemma write_bytes_app off a b m :
  write_bytes off (a ++ b) m = write_bytes (off + Z.of_nat (length a)) b (write_bytes off a m).
Proof.
  revert off m. induction a as [|x a IH]; intros off m; cbn [app write_bytes length]; [by rewrite Z.add_0_r|].
  rewrite IH. f_equal. lia.
Qed.

(** *** Written files *)

(** The file after writing at an offset; the cursor is left out. *)
Definition file_at (m : gmap Z Z) (sz : Z) (log : list (Z * Z)) (f : File) : Prop :=
  f_data f = m ∧ f_size f = sz ∧ f_log f = log.
Definition logged (off : Z) (bs : bytes) : list (Z * Z) := imap (λ i b, (off + Z.of_nat i, b)) bs.

Lemma logged_app off a b : logged off (a ++ b) = logged off a ++ logged (off + Z.of_nat (length a)) b.
Proof. unfold logged. rewrite imap_app. f_equal. apply imap_ext. intros i x _. cbn. f_equal. lia. Qed.

Definition wr (bs : bytes) (f : File) : File := (Write bs f).2.

Lemma wr_app a b f : wr b (wr a f) = wr (a ++ b) f.
Proof.
  unfold wr, Write. cbn [snd f_data f_size f_pos f_log]. fold (logged (f_pos f) a) (logged (f_pos f) (a ++ b)).
  fold (logged (f_pos f + Z.of_nat (length a)) b). rewrite logged_app, app_assoc, write_bytes_app, length_app.
  f_equal; [|lia]. destruct (Nat.eqb_spec (length a) 0), (Nat.eqb_spec (length b) 0), (Nat.eqb_spec (length a + length b) 0); lia.
Qed.

Lemma wr_data bs f : f_data (wr bs f) = write_bytes (f_pos f) bs (f_data f).
Proof. done. Qed.
Lemma wr_pos bs f : f_pos (wr bs f) = f_pos f + Z.of_nat (length bs).
Proof. done. Qed.
Lemma wr_log bs f : f_log (wr bs f) = f_log f ++ logged (f_pos f) bs.
Proof. done. Qed.
Lemma wr_size bs f : (0 < length bs)%nat → f_size (wr bs f) = Z.max (f_size f) (f_pos f + Z.of_nat (length bs)).
Proof. intros Hl. unfold wr, Write. cbn [snd f_size]. by destruct (Nat.eqb_spec (length bs) 0); [lia|]. Qed.

Lemma Write_wr bs f : Write bs f = (Ok tt, wr bs f).
Proof. done. Qed.

Lemma for_each_Write {V} (g : V → bytes) (l : list V) f : for_each (λ v, Write (g v)) l f = (Ok tt, wr (l ≫= g) f).
Proof.
  revert f. induction l as [|v l IH]; intros f; cbn [for_each].
  - unfold wr, Write, mret, M_ret. cbn. rewrite app_nil_r, Z.add_0_r. by destruct f.
  - rewrite (bind_Ok _ _ _ _ _ (Write_wr (g v) f)), IH, wr_app. by rewrite bind_cons.
Qed.

(** ** The layout of a chunk *)

Section Layout.
Context `{G : Gzip}.

(** A block: its hash and its parts. *)
Abbreviation blk := (Hash256 * list bytes)%type.
Implicit Types (m : gmap Z Z) (bl : list blk) (b : blk).

Definition block_bytes b : bytes :=
  b.1 ++ [u8 (Z.of_nat (length b.2))] ++
  (b.2 ≫= λ v, le32 (u32 (Z.of_nat (length (gz v))))) ++ (b.2 ≫= gz).
(** The end of the last block. *)
Definition end_off bl : Z := ChunkHeaderSize + Z.of_nat (length (bl ≫= block_bytes)).

Definition blk_ok b : Prop :=
  length b.1 = 32%nat ∧ (length b.2 ≤ 255)%nat ∧ Forall (λ v, Z.of_nat (length (gz v)) < 2 ^ 32) b.2 ∧
  Forall is_byte (block_bytes b).

Record layout m (sz : Z) bl : Prop := {
  lo_table i : (i < length bl)%nat →
    bytes_of m (ChunkMetaSize + 8 * Z.of_nat i) 8 = le_bytes 8 (end_off (take (S i) bl));
  lo_block i b : bl !! i = Some b →
    bytes_of m (end_off (take i bl)) (length (block_bytes b)) = block_bytes b;
  lo_size : end_off bl ≤ sz;
  lo_big : end_off bl < 2 ^ 63;
  lo_len : Z.of_nat (length bl) ≤ ChunkUnit;
  lo_ok : Forall blk_ok bl;
  lo_bytes i : is_byte (default 0 (m !! i));
}.

Lemma end_off_app bl b : end_off (bl ++ [b]) = end_off bl + Z.of_nat (length (block_bytes b)).
Proof. unfold end_off. rewrite bind_app, bind_cons, length_app, app_nil_r. lia. Qed.

Lemma end_off_take bl i : ChunkHeaderSize ≤ end_off (take i bl) ≤ end_off bl.
Proof.
  unfold end_off. rewrite <- (take_drop i bl) at 3. rewrite bind_app, length_app. lia.
Qed.

Lemma end_off_block bl i b :
  bl !! i = Some b → end_off (take i bl) + Z.of_nat (length (block_bytes b)) ≤ end_off bl.
Proof.
  intros Hb. rewrite <- end_off_app, <- (take_S_r _ _ _ Hb). apply end_off_take.
Qed.

Lemma header_size : ChunkHeaderSize = ChunkMetaSize + 8 * ChunkUnit ∧ 0 < ChunkUnit ∧ ChunkMetaSize = 256 ∧ ChunkUnit < 2 ^ 24.
Proof. done. Qed.
#[local] Opaque ChunkUnit ChunkHeaderSize.

Lemma block_bytes_length b : (33 ≤ length (block_bytes b))%nat ∨ length b.1 ≠ 32%nat.
Proof. destruct (decide (length b.1 = 32%nat)) as [E|]; [left|by right]. unfold block_bytes. rewrite !length_app, E. simpl. lia. Qed.

(** Whatever is outside of the table entries and the blocks may change. *)
Lemma layout_frame m m' sz sz' bl :
  layout m sz bl → sz ≤ sz' → (∀ i, is_byte (default 0 (m' !! i))) →
  (∀ i, ChunkMetaSize ≤ i < ChunkMetaSize + 8 * Z.of_nat (length bl) ∨ ChunkHeaderSize ≤ i < end_off bl → m' !! i = m !! i) →
  layout m' sz' bl.
Proof.
  intros [L1 L2 L3 L4 L5 L6 L7] Hsz Hb Hext. split; [..|done|done|done|done].
  - intros i Hi. rewrite <- L1 by done. apply bytes_of_ext. intros j Hj. apply Hext. lia.
  - intros i b Hi. rewrite <- (L2 i b Hi) at 2. apply bytes_of_ext. intros j Hj. apply Hext. right.
    pose proof (end_off_take bl i). pose proof (end_off_block bl i b Hi). lia.
  - lia.
Qed.

Lemma write_bytes_range off bs m :
  Forall is_byte bs → (∀ i, is_byte (default 0 (m !! i))) → ∀ i, is_byte (default 0 (write_bytes off bs m !! i)).
Proof.
  intros Hbs. revert off m. induction Hbs as [|b bs Hb _ IH]; intros off m Hm i; cbn [write_bytes]; [done|].
  apply IH. intros j. destruct (decide (j = off)) as [->|]; [by rewrite lookup_insert_eq|by rewrite lookup_insert_ne].
Qed.

(** ** Reading an offset *)

Definition same_file (f f' : File) : Prop := f_data f' = f_data f ∧ f_size f' = f_size f ∧ f_log f' = f_log f.
Definition sk (off : Z) (f : File) : File := mkFile (f_data f) (f_size f) off (f_log f).

Lemma Seek_ok off f : 0 ≤ off → Seek off f = (Ok tt, sk off f).
Proof. intros Ho. unfold Seek. destruct (Z.ltb_spec off 0); [lia|done]. Qed.

Lemma Read_ok n f : (0 < n)%nat → f_pos f < f_size f →
  Read n f = (Ok (bytes_of (f_data f) (f_pos f) n), sk (Z.min (f_pos f + Z.of_nat n) (f_size f)) f).
Proof.
  intros Hn Hp. unfold Read. destruct (Nat.eqb_spec n 0); [lia|]. destruct (Z.leb_spec (f_size f) (f_pos f)); [lia|done].
Qed.

Lemma read_offset_run f bl n :
  layout (f_data f) (f_size f) bl → (n ≤ length bl)%nat →
  ∃ f', read_offset (Z.of_nat n) f = (Ok (end_off (take n bl)), f') ∧ same_file f f'.
Proof.
  intros HL Hn. pose proof header_size as (Hh & Hc & Hm & _). unfold read_offset. destruct n as [|n].
  { exists f. split; [|done]. unfold end_off. cbn. by rewrite Z.add_0_r. }
  destruct (Z.ltb_spec 0 (Z.of_nat (S n))) as [_|]; [|lia].
  rewrite (bind_Ok _ _ _ _ _ (Seek_ok (ChunkMetaSize + (Z.of_nat (S n) - 1) * 8) f ltac:(lia))).
  pose proof (lo_size _ _ _ HL). pose proof (end_off_take bl 0). pose proof (lo_len _ _ _ HL).
  rewrite (bind_Ok _ _ _ _ _ (Read_ok 8 (sk (ChunkMetaSize + (Z.of_nat (S n) - 1) * 8) f) ltac:(lia) ltac:(cbn [sk f_pos f_size]; lia))).
  cbn [sk f_data f_pos f_size f_log].
  replace (ChunkMetaSize + (Z.of_nat (S n) - 1) * 8) with (ChunkMetaSize + 8 * Z.of_nat n) by lia.
  rewrite (lo_table _ _ _ HL) by lia. rewrite le_val_bytes. pose proof (end_off_take bl (S n)). pose proof (lo_big _ _ _ HL).
  rewrite Z.mod_small by (change (2 ^ (8 * Z.of_nat 8)) with (2 ^ 64); lia). rewrite i64_small by lia.
  eexists. split; [reflexivity|done].
Qed.

(** ** The invariant of a pile *)

(** The three copies of the head height, the range and the genesis hash. *)
Definition meta_ok m (h c1 c2 : bytes) (begin : Z) (gen : Hash256) : Prop :=
  bytes_of m 0 4 = h ∧ bytes_of m 4 4 = c1 ∧ bytes_of m 8 4 = c2 ∧
  bytes_of m 12 40 = le32 begin ++ le32 (begin + ChunkUnit) ++ gen.

Record pile_ok (p : Pile) bl : Prop := {
  pk_layout : layout (f_data (p_file p)) (f_size (p_file p)) bl;
  pk_begin : p_BeginHeight p `mod` ChunkUnit = 0 ∧ 0 ≤ p_BeginHeight p ∧ p_BeginHeight p + ChunkUnit < 2 ^ 32;
  pk_head : p_HeadHeight p = p_BeginHeight p + Z.of_nat (length bl);
  pk_meta : meta_ok (f_data (p_file p)) (le32 (p_HeadHeight p)) (le32 (p_HeadHeight p)) (le32 (p_HeadHeight p))
    (p_BeginHeight p) (p_GenHash p);
  pk_gen : length (p_GenHash p) = 32%nat;
}.

(** The writes of an append of [b] to [bl], in order: the block, the entry of
    the table, the three copies of the head height. *)
Definition append_writes (head : Z) bl b : list (Z * bytes) :=
  [(end_off bl, block_bytes b);
   (ChunkMetaSize + 8 * Z.of_nat (length bl), le_bytes 8 (end_off (bl ++ [b])));
   (0, le32 (head + 1)); (4, le32 (head + 1)); (8, le32 (head + 1))].

Lemma write_parts_run ds f :
  write_parts ds f =
    (Ok (33 + Z.of_nat (length ((ds ≫= λ v, le32 (u32 (Z.of_nat (length (gz v))))) ++ (ds ≫= gz)))),
     wr ((ds ≫= λ v, le32 (u32 (Z.of_nat (length (gz v))))) ++ (ds ≫= gz)) f).
Proof.
  unfold write_parts. rewrite (bind_Ok _ _ _ _ _ (for_each_Write _ ds f)), (bind_Ok _ _ _ _ _ (for_each_Write gz ds _)), wr_app.
  unfold mret, M_ret. apply f_equal2; [f_equal|done]. rewrite length_app, Nat2Z.inj_add.
  assert (E1 : Z.of_nat (length (ds ≫= λ v, le32 (u32 (Z.of_nat (length (gz v)))))) = 4 * Z.of_nat (length ds)).
  { induction ds as [|d ds IH]; [done|]. rewrite bind_cons, length_app, Nat2Z.inj_add, IH. unfold le32.
    rewrite length_le_bytes. simpl length. lia. }
  assert (E2 : foldr Z.add 0 ((λ v, Z.of_nat (length (gz v))) <$> ds) = Z.of_nat (length (ds ≫= gz))).
  { clear E1. induction ds as [|d ds IH]; [done|]. rewrite bind_cons, length_app, fmap_cons. cbn [foldr]. rewrite IH. lia. }
  rewrite E1, E2. lia.
Qed.

Lemma AppendData_run sync p bl b :
  pile_ok p bl → Z.of_nat (length bl) < ChunkUnit → blk_ok b → end_off (bl ++ [b]) < 2 ^ 63 →
  ∃ p', AppendData sync (p_HeadHeight p + 1) b.1 b.2 p = (Ok tt, p') ∧
    p_HeadHeight p' = p_HeadHeight p + 1 ∧ p_BeginHeight p' = p_BeginHeight p ∧ p_GenHash p' = p_GenHash p ∧
    f_data (p_file p') = foldl (λ m w, write_bytes w.1 w.2 m) (f_data (p_file p)) (append_writes (p_HeadHeight p) bl b) ∧
    f_size (p_file p') = Z.max (f_size (p_file p)) (end_off (bl ++ [b])) ∧
    f_log (p_file p') = f_log (p_file p) ++ (append_writes (p_HeadHeight p) bl b ≫= λ w, logged w.1 w.2).
Proof.
  intros Hp Hlen (Hh & Hn & _) Hbig. pose proof header_size as (Hhs & Hcu & Hms & _).
  pose proof (pk_layout _ _ Hp) as HL. destruct (pk_begin _ _ Hp) as (_ & Hb0 & Hb32). pose proof (pk_head _ _ Hp) as Hhd.
  assert (Eh : u32 (p_HeadHeight p + 1) = p_HeadHeight p + 1) by (apply Z.mod_small; lia).
  assert (Ef : u32 (p_HeadHeight p - p_BeginHeight p) = Z.of_nat (length bl)) by (rewrite Hhd; unfold u32; rewrite Z.mod_small; lia).
  unfold AppendData. rewrite (bind_Ok get _ p p p) by done. rewrite Eh, Z.eqb_refl. cbn [negb guard_err].
  rewrite (bind_Ok (mret tt) _ p tt p) by done. rewrite Ef.
  destruct (read_offset_run _ bl (length bl) HL) as (f1 & E1 & Hd1 & Hs1 & Hl1); [lia|]. rewrite take_ge in E1 by lia.
  pose proof (end_off_take bl 0) as He0. pose proof (lo_size _ _ _ HL) as Hsz.
  unfold on_file at 1. unfold inc_HeadHeight, modify.
  set (io := mbind _ (read_offset _)). set (B := block_bytes b).
  set (H4 := le32 (p_HeadHeight p + 1)).
  assert (Eio : io (p_file p) = (Ok tt, wr H4 (sk 8 (wr H4 (sk 4 (wr H4 (sk 0
                  (wr (le_bytes 8 (end_off (bl ++ [b]))) (sk (ChunkMetaSize + 8 * Z.of_nat (length bl))
                    (wr B (sk (end_off bl) f1))))))))))).
  { unfold io. rewrite (bind_Ok _ _ _ _ _ E1), (bind_Ok _ _ _ _ _ (Seek_ok (end_off bl) f1 ltac:(lia))).
    rewrite (bind_Ok _ _ _ _ _ (Write_wr _ _)), (bind_Ok _ _ _ _ _ (Write_wr _ _)), (bind_Ok _ _ _ _ _ (write_parts_run _ _)).
    rewrite !wr_app.
    fold (block_bytes b). fold B.
    replace (Z.of_nat (length bl) * 8) with (8 * Z.of_nat (length bl)) by lia.
    rewrite (bind_Ok _ _ _ _ _ (Seek_ok (ChunkMetaSize + 8 * Z.of_nat (length bl)) _ ltac:(lia))).
    rewrite (bind_Ok _ _ _ _ _ (Write_wr _ _)), (bind_Ok _ _ _ _ _ (Seek_ok 0 _ ltac:(lia))), (bind_Ok _ _ _ _ _ (Write_wr _ _)).
    fold H4. replace (u64 _) with (end_off (bl ++ [b])).
    2:{ assert (HB : Z.of_nat (length B) = 33 + Z.of_nat (length ((b.2 ≫= λ v, le32 (u32 (Z.of_nat (length (gz v))))) ++ (b.2 ≫= gz)))).
        { unfold B, block_bytes. rewrite length_app, Hh. cbn [app length]. lia. }
        rewrite <- HB, end_off_app. fold B. symmetry. apply u64_small. unfold is_u64. rewrite end_off_app in Hbig. fold B in Hbig. lia. }
    by destruct sync. }
  rewrite (bind_Ok _ _ p tt (mkPile (io (p_file p)).2 (p_HeadHeight p) (p_BeginHeight p) (p_GenHash p))) by (rewrite Eio; done).
  rewrite Eio. cbn [snd p_file p_HeadHeight p_BeginHeight p_GenHash]. rewrite Eh. eexists. split; [reflexivity|].
  cbn [p_file p_HeadHeight p_BeginHeight p_GenHash]. split_and!; try done.
  - unfold append_writes. cbn [foldl fst snd]. do 5 (rewrite wr_data; cbn [sk f_data f_pos]). by rewrite Hd1.
  - assert (L4 : length H4 = 4%nat) by apply length_le_bytes.
    assert (LB : (33 ≤ length B)%nat) by (destruct (block_bytes_length b); [done|congruence]).
    do 5 (rewrite wr_size by (rewrite ?L4, ?length_le_bytes; lia); cbn [sk f_size f_pos]).
    rewrite L4, length_le_bytes, Hs1, end_off_app. fold B. lia.
  - unfold append_writes. rewrite !bind_cons. cbn [fst snd]. do 5 (rewrite wr_log; cbn [sk f_log f_pos]).
    rewrite Hl1. rewrite <- !app_assoc. by rewrite app_nil_r.
Qed.

(** ** Changes of the layout *)

Lemma le32_range z : Forall is_byte (le32 z).
Proof. apply le_bytes_range. Qed.
Lemma length_le32 z : length (le32 z) = 4%nat.
Proof. apply length_le_bytes. Qed.

Lemma layout_meta m sz sz' bl off bs :
  layout m sz bl → sz ≤ sz' → Forall is_byte bs → off + Z.of_nat (length bs) ≤ ChunkMetaSize →
  layout (write_bytes off bs m) sz' bl.
Proof.
  intros HL Hsz Hb Ho. pose proof header_size as (Hhs & Hcu & Hms & _). eapply layout_frame; [done|done|..].
  - apply write_bytes_range; [done|apply HL].
  - intros i Hi. apply write_bytes_out. lia.
Qed.

Lemma layout_block m sz sz' bl b j :
  layout m sz bl → sz ≤ sz' → blk_ok b → layout (write_bytes (end_off bl) (take j (block_bytes b)) m) sz' bl.
Proof.
  intros HL Hsz (_ & _ & _ & Hb). pose proof header_size as (Hhs & Hcu & Hms & _). pose proof (end_off_take bl 0).
  pose proof (lo_len _ _ _ HL). eapply layout_frame; [done|done|..].
  - apply write_bytes_range; [by apply Forall_take|apply HL].
  - intros i Hi. apply write_bytes_out. lia.
Qed.

Lemma layout_entry m sz sz' bl e j :
  layout m sz bl → sz ≤ sz' → Z.of_nat (length bl) < ChunkUnit →
  layout (write_bytes (ChunkMetaSize + 8 * Z.of_nat (length bl)) (take j (le_bytes 8 e)) m) sz' bl.
Proof.
  intros HL Hsz Hlen. pose proof header_size as (Hhs & Hcu & Hms & _).
  assert (Hj : (length (take j (le_bytes 8 e)) ≤ 8)%nat) by (rewrite length_take, length_le_bytes; lia).
  eapply layout_frame; [done|done|..].
  - apply write_bytes_range; [apply Forall_take, le_bytes_range|apply HL].
  - intros i Hi. apply write_bytes_out. lia.
Qed.

(** The block and its entry in the table: the block belongs to the chunk_of. *)
Lemma layout_snoc m sz bl b :
  layout m sz bl → blk_ok b → Z.of_nat (length bl) < ChunkUnit → end_off (bl ++ [b]) ≤ sz → end_off (bl ++ [b]) < 2 ^ 63 →
  bytes_of m (end_off bl) (length (block_bytes b)) = block_bytes b →
  bytes_of m (ChunkMetaSize + 8 * Z.of_nat (length bl)) 8 = le_bytes 8 (end_off (bl ++ [b])) →
  layout m sz (bl ++ [b]).
Proof.
  intros HL Hb Hlen Hsz Hbig HB HE. split.
  - intros i Hi. rewrite length_app in Hi. cbn [length] in Hi. destruct (decide (i = length bl)) as [->|Hne].
    + rewrite HE. do 2 f_equal. rewrite take_ge; [done|]. rewrite length_app. simpl. lia.
    + rewrite take_app_le by lia. apply (lo_table _ _ _ HL). lia.
  - intros i b' Hi. destruct (decide (i = length bl)) as [->|Hne].
    + rewrite lookup_app_r, Nat.sub_diag in Hi by lia. injection Hi as <-. by rewrite take_app_length.
    + pose proof (lookup_lt_Some _ _ _ Hi) as Hl. rewrite length_app in Hl. cbn [length] in Hl.
      rewrite take_app_le by lia. apply (lo_block _ _ _ HL). by rewrite lookup_app_l in Hi by lia.
  - done.
  - done.
  - rewrite length_app. simpl. lia.
  - apply Forall_app_2; [apply HL|by apply Forall_singleton].
  - apply HL.
Qed.

(** ** Loading *)

Lemma Uint32_bytes_of m n i : (i + 4 ≤ n)%nat → Uint32_at (bytes_of m 0 n) i = Ok (le_val (bytes_of m (Z.of_nat i) 4)).
Proof.
  intros Hi. unfold Uint32_at. rewrite drop_bytes_of, take_bytes_of by lia. by rewrite length_bytes_of.
Qed.

Lemma le_val_le32 z : 0 ≤ z < 2 ^ 32 → le_val (le32 z) = z.
Proof. intros Hz. unfold le32. rewrite le_val_bytes. apply Z.mod_small. lia. Qed.

Definition load_tail (begin : Z) (gen : Hash256) (HeadHeight : Z) : M File (Z * Z * Hash256) :=
  Offset ← read_offset (u32 (HeadHeight - begin));
  size ← gets f_size;
  guard_err (size <? Offset) ErrInvalidFileSize ;;
  mret (HeadHeight, begin, gen).

Lemma load_file_run f h c1 c2 begin gen :
  meta_ok (f_data f) h c1 c2 begin gen → length gen = 32%nat →
  begin `mod` ChunkUnit = 0 ∧ 0 ≤ begin ∧ begin + ChunkUnit < 2 ^ 32 → 0 < f_size f →
  ∃ pos, load_file f = (repair (le_val h) (le_val c1) (le_val c2) ≫= load_tail begin gen) (sk pos f).
Proof.
  intros (M1 & M2 & M3 & M4) Hg (Hb1 & Hb2 & Hb3) Hsz. pose proof header_size as (Hhs & Hcu & Hms & _).
  unfold load_file. rewrite (bind_Ok _ _ _ _ _ (Seek_ok 0 f ltac:(lia))).
  rewrite (bind_Ok _ _ _ _ _ (Read_ok (Z.to_nat ChunkMetaSize) (sk 0 f) ltac:(lia) ltac:(cbn [sk f_pos f_size]; lia))).
  cbn [sk f_data f_pos f_size f_log]. replace (Z.to_nat ChunkMetaSize) with 256%nat by (by rewrite Hms).
  change 40%nat with (4 + (4 + 32))%nat in M4. rewrite !bytes_of_app in M4.
  apply app_inj_1 in M4 as [M4 M5]; [|by rewrite length_bytes_of, length_le32].
  apply app_inj_1 in M5 as [M5 M6]; [|by rewrite length_bytes_of, length_le32].
  pose proof (Uint32_bytes_of (f_data f) 256 0 ltac:(lia)) as U0. change (Z.of_nat 0) with 0 in U0. rewrite M1 in U0.
  pose proof (Uint32_bytes_of (f_data f) 256 4 ltac:(lia)) as U1. change (Z.of_nat 4) with 4 in U1. rewrite M2 in U1.
  pose proof (Uint32_bytes_of (f_data f) 256 8 ltac:(lia)) as U2. change (Z.of_nat 8) with 8 in U2. rewrite M3 in U2.
  pose proof (Uint32_bytes_of (f_data f) 256 12 ltac:(lia)) as U3. change (Z.of_nat 12) with 12 in U3.
  rewrite M4, le_val_le32 in U3 by lia.
  pose proof (Uint32_bytes_of (f_data f) 256 16 ltac:(lia)) as U4. change (Z.of_nat 16) with (12 + Z.of_nat 4) in U4.
  rewrite M5, le_val_le32 in U4 by lia.
  assert (U5 : take Hash256Size (drop 20 (bytes_of (f_data f) 0 256)) = gen).
  { rewrite drop_bytes_of, take_bytes_of by (unfold Hash256Size; lia). exact M6. }
  rewrite U0, U1, U2, U3, U4, U5. eexists. unfold lift. do 5 (erewrite bind_Ok by reflexivity).
  rewrite Hb1, u32_small, !Z.eqb_refl by (unfold is_u32; lia). cbn [negb guard_err].
  do 2 (erewrite (bind_Ok (mret tt)) by reflexivity). reflexivity.
Qed.

Lemma load_tail_run f bl begin gen hd :
  layout (f_data f) (f_size f) bl → 0 ≤ begin → begin + ChunkUnit < 2 ^ 32 → hd = begin + Z.of_nat (length bl) →
  ∃ f', load_tail begin gen hd f = (Ok (hd, begin, gen), f') ∧ same_file f f'.
Proof.
  intros HL Hb1 Hb2 ->. pose proof (lo_len _ _ _ HL). pose proof header_size as (_ & Hcu & _).
  unfold load_tail. replace (begin + Z.of_nat (length bl) - begin) with (Z.of_nat (length bl)) by lia.
  rewrite u32_small by (unfold is_u32; lia). destruct (read_offset_run f bl (length bl) HL) as (f' & E & Hd & Hs & Hl); [lia|].
  rewrite (bind_Ok _ _ _ _ _ E), take_ge by lia. exists f'. split; [|done].
  rewrite (bind_Ok (gets f_size) _ f' (f_size f') f') by done. rewrite Hs. pose proof (lo_size _ _ _ HL).
  destruct (Z.ltb_spec (f_size f) (end_off bl)); [lia|]. done.
Qed.

(** A write in the header of the file. *)
Lemma meta_write m off bs h c1 c2 begin gen :
  meta_ok m h c1 c2 begin gen → 0 ≤ off → off + Z.of_nat (length bs) ≤ 12 → (4 | off)%Z → length bs = 4%nat →
  meta_ok (write_bytes off bs m) (if decide (off = 0) then bs else h) (if decide (off = 4) then bs else c1)
    (if decide (off = 8) then bs else c2) begin gen.
Proof.
  intros (M1 & M2 & M3 & M4) H1 H2 [k Hk] Hl. pose proof (bytes_of_write off bs m) as Hw. rewrite Hl in Hw.
  split_and!; [case_decide as E; [rewrite <- Hw at 2; by rewrite E|]..|].
  - rewrite <- M1. apply bytes_of_write_other. lia.
  - rewrite <- M2. apply bytes_of_write_other. lia.
  - rewrite <- M3. apply bytes_of_write_other. lia.
  - rewrite <- M4. apply bytes_of_write_other. lia.
Qed.

Lemma meta_bytes m h c1 c2 begin gen :
  meta_ok m h c1 c2 begin gen → (∀ i, is_byte (default 0 (m !! i))) →
  le32 (le_val h) = h ∧ le32 (le_val c1) = c1 ∧ le32 (le_val c2) = c2.
Proof.
  intros (M1 & M2 & M3 & _) Hb.
  assert (Hr : ∀ off, le32 (le_val (bytes_of m off 4)) = bytes_of m off 4).
  { intros off. unfold le32. rewrite <- (length_bytes_of m off 4) at 1. apply le_bytes_val.
    apply Forall_fmap, Forall_forall. intros i _. apply Hb. }
  by rewrite <- M1, <- M2, <- M3, !Hr.
Qed.

(** The repair makes the three copies equal. *)
Lemma repair_run f h c1 c2 begin gen bl hd :
  meta_ok (f_data f) h c1 c2 begin gen → layout (f_data f) (f_size f) bl →
  (le_val c1 = le_val c2 ∧ hd = le_val c1) ∨
  (le_val c1 ≠ le_val c2 ∧ hd = le_val h ∧ (le_val h = u32 (le_val c2 + 1) ∨ le_val h = le_val c1)) →
  ∃ f2, repair (le_val h) (le_val c1) (le_val c2) f = (Ok hd, f2) ∧
    meta_ok (f_data f2) (le32 hd) (le32 hd) (le32 hd) begin gen ∧ layout (f_data f2) (f_size f2) bl.
Proof.
  intros HM HL Hc. destruct (meta_bytes _ _ _ _ _ _ HM (lo_bytes _ _ _ HL)) as (B1 & B2 & B3).
  pose proof header_size as (Hhs & Hcu & Hms & _). pose proof (end_off_take bl 0). pose proof (lo_size _ _ _ HL).
  assert (Hone : ∀ g off, f_data g = f_data f → f_size g = f_size f → 0 ≤ off ≤ 8 → (4 | off)%Z →
    let g' := wr (le32 hd) (sk off g) in
    f_data g' = write_bytes off (le32 hd) (f_data f) ∧ f_size g' = f_size f ∧ f_pos g' = off + 4 ∧ layout (f_data g') (f_size g') bl).
  { intros g off Hd Hs Ho Hdiv g'. unfold g'. rewrite wr_data, wr_size by (rewrite length_le32; lia).
    cbn [sk f_pos f_data f_size]. rewrite Hd, Hs, length_le32. split_and!; [done|lia|by rewrite wr_pos, length_le32|].
    eapply layout_meta; [done|lia|apply le32_range|rewrite length_le32; lia]. }
  unfold repair. destruct Hc as [[E1 E2]|(E1 & E2 & E3)].
  - rewrite E1, Z.eqb_refl. cbn [negb]. rewrite orb_false_r. destruct (Z.eqb_spec (le_val h) (le_val c2)) as [Ev|Ev]; cbn [negb].
    + exists f. rewrite Ev. assert (h = le32 hd ∧ c1 = le32 hd ∧ c2 = le32 hd) as (-> & -> & ->) by (split_and!; congruence).
      split; [|done]. unfold mret, M_ret. do 2 f_equal. congruence.
    + rewrite (bind_Ok _ _ _ _ _ (Seek_ok 0 f ltac:(lia))). rewrite <- E1, <- E2.
      rewrite (bind_Ok _ _ _ _ _ (Write_wr _ _)), (bind_Ok Sync _ _ tt _ eq_refl).
      destruct (Hone f 0 eq_refl eq_refl ltac:(lia) ltac:(by exists 0)) as (D & S & _ & L).
      eexists. split; [reflexivity|]. split; [|done]. rewrite D.
      pose proof (meta_write _ 0 (le32 hd) _ _ _ _ _ HM ltac:(lia) ltac:(rewrite length_le32; lia) ltac:(by exists 0) ltac:(by rewrite length_le32)) as HM'.
      assert (c1 = le32 hd ∧ c2 = le32 hd) as (-> & ->) by (split_and!; congruence). exact HM'.
  - destruct (Z.eqb_spec (le_val c1) (le_val c2)) as [?|_]; [done|]. cbn [negb]. rewrite orb_true_r.
    destruct (Z.eqb_spec (le_val h) (u32 (le_val c2 + 1))) as [Ev|Ev].
    + rewrite (bind_Ok _ _ _ _ _ (Seek_ok 4 f ltac:(lia))). rewrite <- E2.
      rewrite !(bind_Ok _ _ _ _ _ (Write_wr _ _)), (bind_Ok Sync _ _ tt _ eq_refl).
      destruct (Hone f 4 eq_refl eq_refl ltac:(lia) ltac:(by exists 1)) as (D & S & P & L).
      pose proof (meta_write _ 4 (le32 hd) _ _ _ _ _ HM ltac:(lia) ltac:(rewrite length_le32; lia) ltac:(by exists 1) ltac:(by rewrite length_le32)) as HM'.
      pose proof (meta_write _ 8 (le32 hd) _ _ _ _ _ HM' ltac:(lia) ltac:(rewrite length_le32; lia) ltac:(by exists 2) ltac:(by rewrite length_le32)) as HM2.
      eexists. split; [reflexivity|]. split.
      * rewrite wr_data, P, D. change (4 + 4) with 8. assert (h = le32 hd) as -> by congruence. exact HM2.
      * rewrite wr_data, wr_size, P, S by (rewrite length_le32; lia). rewrite length_le32.
        eapply (layout_meta _ (f_size f)); [rewrite <- S; exact L|lia|apply le32_range|rewrite length_le32; lia].
    + destruct E3 as [?|E3]; [done|]. rewrite E3, Z.eqb_refl. rewrite (bind_Ok _ _ _ _ _ (Seek_ok 8 f ltac:(lia))).
      rewrite <- E3, <- E2. rewrite (bind_Ok _ _ _ _ _ (Write_wr _ _)), (bind_Ok Sync _ _ tt _ eq_refl).
      destruct (Hone f 8 eq_refl eq_refl ltac:(lia) ltac:(by exists 2)) as (D & S & _ & L).
      pose proof (meta_write _ 8 (le32 hd) _ _ _ _ _ HM ltac:(lia) ltac:(rewrite length_le32; lia) ltac:(by exists 2) ltac:(by rewrite length_le32)) as HM'.
      eexists. split; [reflexivity|]. split; [|done]. rewrite D.
      assert (h = le32 hd ∧ c1 = le32 hd) as (-> & ->) by (split_and!; congruence). exact HM'.
Qed.

Lemma LoadPile_run f h c1 c2 begin gen bl :
  meta_ok (f_data f) h c1 c2 begin gen → layout (f_data f) (f_size f) bl → length gen = 32%nat →
  begin `mod` ChunkUnit = 0 ∧ 0 ≤ begin ∧ begin + ChunkUnit < 2 ^ 32 →
  (le_val c1 = le_val c2 ∧ begin + Z.of_nat (length bl) = le_val c1) ∨
  (le_val c1 ≠ le_val c2 ∧ begin + Z.of_nat (length bl) = le_val h ∧
     (le_val h = u32 (le_val c2 + 1) ∨ le_val h = le_val c1)) →
  ∃ q, LoadPile f = Ok q ∧ pile_ok q bl ∧ p_BeginHeight q = begin ∧ p_GenHash q = gen.
Proof.
  intros HM HL Hg Hb Hc. pose proof header_size as (Hhs & Hcu & Hms & _).
  pose proof (end_off_take bl 0). pose proof (lo_size _ _ _ HL).
  destruct (load_file_run f h c1 c2 begin gen HM Hg Hb ltac:(lia)) as (pos & El).
  destruct (repair_run (sk pos f) h c1 c2 begin gen bl _ HM HL Hc) as (f2 & E2 & HM2 & HL2).
  destruct (load_tail_run f2 bl begin gen _ HL2 ltac:(lia) ltac:(lia) eq_refl) as (f3 & E3 & Hd & Hs & _).
  unfold LoadPile. rewrite El, (bind_Ok _ _ _ _ _ E2), E3. eexists. split; [reflexivity|]. split; [|done].
  split; cbn [p_file p_HeadHeight p_BeginHeight p_GenHash]; [by rewrite Hd, Hs|done|done|by rewrite Hd|done].
Qed.

(** ** Appending and crashing *)

(** The file as a crash leaves it, when only the bytes [ws] were written. *)
Definition crash (f : File) (ws : list (Z * Z)) : File :=
  mkFile (foldl (λ m w, <[w.1 := w.2]> m) (f_data f) ws) (foldl (λ s w, Z.max s (w.1 + 1)) (f_size f) ws) 0 [].

Lemma replay_logged off bs m : foldl (λ m w, <[w.1 := w.2]> m) m (logged off bs) = write_bytes off bs m.
Proof.
  revert off m. induction bs as [|b bs IH]; intros off m; [done|]. change (b :: bs) with ([b] ++ bs) at 1.
  rewrite logged_app, foldl_app. cbn [length write_bytes]. rewrite <- IH. unfold logged. cbn. by rewrite Z.add_0_r.
Qed.

Lemma replay_size ws s : s ≤ foldl (λ s w, Z.max s (w.1 + 1)) s ws ∧
  (∀ w : Z * Z, w ∈ ws → w.1 + 1 ≤ foldl (λ s w, Z.max s (w.1 + 1)) s ws).
Proof.
  revert s. induction ws as [|w ws IH]; intros s; cbn [foldl]; [split; [lia|by intros w ?%elem_of_nil]|].
  destruct (IH (Z.max s (w.1 + 1))) as [H1 H2]. split; [lia|]. intros w' [->|Hw]%elem_of_cons; [lia|by apply H2].
Qed.

Lemma logged_take off bs j : take j (logged off bs) = logged off (take j bs).
Proof.
  rewrite <- (take_drop j bs) at 1. rewrite logged_app.
  destruct (Nat.le_gt_cases j (length bs)) as [Hj|Hj].
  - apply take_app_length'. unfold logged. rewrite length_imap, length_take. lia.
  - rewrite (drop_ge bs) by lia. unfold logged at 2. cbn. rewrite app_nil_r. rewrite take_ge; [done|].
    unfold logged. rewrite length_imap, length_take. lia.
Qed.

Lemma logged_size off bs s : (0 < length bs)%nat → off + Z.of_nat (length bs) ≤ foldl (λ s w, Z.max s (w.1 + 1)) s (logged off bs).
Proof.
  intros Hl. destruct (snoc_view bs) as [->|(bs' & x & ->)]; [simpl in Hl; lia|]. rewrite logged_app, foldl_app, length_app.
  unfold logged at 1. cbn. lia.
Qed.

(** A prefix of the bytes of a sequence of writes: some writes are complete,
    one is torn, the others did not happen. *)
Definition torn (ws : list (Z * bytes)) (m : gmap Z Z) (s : Z) (m' : gmap Z Z) (s' : Z) : Prop :=
  ∃ ws1 ws2 w j, ws = ws1 ++ w :: ws2 ∧
    m' = write_bytes w.1 (take j w.2) (foldl (λ m w, write_bytes w.1 w.2 m) m ws1) ∧
    s ≤ s' ∧ (∀ x, x ∈ ws1 → (0 < length x.2)%nat → x.1 + Z.of_nat (length x.2) ≤ s').

Lemma take_writes (ws : list (Z * bytes)) k m s :
  ws ≠ [] →
  torn ws m s (foldl (λ m w, <[w.1 := w.2]> m) m (take k (ws ≫= λ w, logged w.1 w.2)))
    (foldl (λ s w, Z.max s (w.1 + 1)) s (take k (ws ≫= λ w, logged w.1 w.2))).
Proof.
  revert k m s. induction ws as [|w ws IH]; intros k m s Hne; [done|]. rewrite bind_cons.
  destruct (Nat.le_gt_cases k (length (logged w.1 w.2))) as [Hk|Hk].
  - rewrite take_app_le by done. exists [], ws, w, k. split_and!; [done|by rewrite logged_take, replay_logged|apply replay_size|].
    by intros x ?%elem_of_nil.
  - rewrite take_app_ge, !foldl_app, replay_logged by lia.
    destruct (replay_size (logged w.1 w.2) s) as [Hs _]. pose proof (logged_size w.1 w.2 s) as Hw. revert Hs Hw.
    generalize (foldl (λ s w, Z.max s (w.1 + 1)) s (logged w.1 w.2)). intros s1 Hs Hw. destruct ws as [|w' ws].
    { cbn. rewrite take_nil. cbn. exists [], [], w, (length w.2). split_and!; [done|by rewrite firstn_all|done|].
      by intros x ?%elem_of_nil. }
    destruct (IH (k - length (logged w.1 w.2))%nat (write_bytes w.1 w.2 m) s1) as (ws1 & ws2 & v & j & E & -> & H1 & H2); [done|].
    exists (w :: ws1), ws2, v, j. split_and!; [by rewrite E|done|lia|].
    intros x [->|Hx]%elem_of_cons Hl; [specialize (Hw Hl); lia|by apply H2].
Qed.

(** The block and the entry were written. *)
Lemma block_written m sz sz' bl b h c1 c2 begin gen :
  layout m sz bl → meta_ok m h c1 c2 begin gen → blk_ok b → Z.of_nat (length bl) < ChunkUnit →
  end_off (bl ++ [b]) < 2 ^ 63 → sz ≤ sz' →
  let m2 := write_bytes (ChunkMetaSize + 8 * Z.of_nat (length bl)) (le_bytes 8 (end_off (bl ++ [b])))
              (write_bytes (end_off bl) (block_bytes b) m) in
  layout m2 sz' bl ∧ (end_off (bl ++ [b]) ≤ sz' → layout m2 sz' (bl ++ [b])) ∧ meta_ok m2 h c1 c2 begin gen.
Proof.
  intros HL (M1 & M2 & M3 & M4) Hb Hlen Hbig Hsz m2. pose proof header_size as (Hhs & Hcu & Hms & _).
  pose proof (end_off_take bl 0) as He0.
  assert (HL2 : layout m2 sz' bl).
  { pose proof (layout_block m sz sz' bl b (length (block_bytes b)) HL Hsz Hb) as HL1. rewrite firstn_all in HL1.
    pose proof (layout_entry _ sz' sz' bl (end_off (bl ++ [b])) 8 HL1 ltac:(lia) Hlen) as HL2.
    rewrite take_ge in HL2 by (rewrite length_le_bytes; lia). exact HL2. }
  split_and!; [done| |..].
  - intros Hs. apply layout_snoc; try done.
    + unfold m2. rewrite bytes_of_write_other by (rewrite length_le_bytes; lia). apply bytes_of_write.
    + unfold m2. rewrite <- (length_le_bytes 8 (end_off (bl ++ [b]))) at 3. apply bytes_of_write.
  - unfold m2, meta_ok. rewrite !bytes_of_write_other by (rewrite ?length_le_bytes; lia). done.
Qed.

Lemma head_bytes p bl : pile_ok p bl → le_val (le32 (p_HeadHeight p)) = p_HeadHeight p ∧
  (Z.of_nat (length bl) < ChunkUnit → le_val (le32 (p_HeadHeight p + 1)) = p_HeadHeight p + 1 ∧
     u32 (p_HeadHeight p + 1) = p_HeadHeight p + 1).
Proof.
  intros Hp. destruct (pk_begin _ _ Hp) as (_ & ? & ?). pose proof (pk_head _ _ Hp). pose proof (lo_len _ _ _ (pk_layout _ _ Hp)).
  split; [apply le_val_le32; lia|]. intros Hlen. split; [apply le_val_le32; lia|apply u32_small; unfold is_u32; lia].
Qed.

Lemma append_ok sync p bl b :
  pile_ok p bl → Z.of_nat (length bl) < ChunkUnit → blk_ok b → end_off (bl ++ [b]) < 2 ^ 63 →
  ∃ p', AppendData sync (p_HeadHeight p + 1) b.1 b.2 p = (Ok tt, p') ∧ pile_ok p' (bl ++ [b]) ∧
    p_BeginHeight p' = p_BeginHeight p ∧ p_GenHash p' = p_GenHash p ∧ p_HeadHeight p' = p_HeadHeight p + 1.
Proof.
  intros Hp Hlen Hb Hbig. destruct (AppendData_run sync p bl b Hp Hlen Hb Hbig) as (p' & E & Hh & Hbg & Hg & Hd & Hs & _).
  exists p'. split; [done|]. split_and!; try done. pose proof header_size as (Hhs & Hcu & Hms & _).
  unfold append_writes in Hd. cbn [foldl fst snd] in Hd.
  destruct (block_written _ _ (f_size (p_file p')) bl b _ _ _ _ _ (pk_layout _ _ Hp) (pk_meta _ _ Hp) Hb Hlen Hbig ltac:(lia)) as (_ & HL & HM).
  specialize (HL ltac:(lia)).
  pose proof (meta_write _ 0 (le32 (p_HeadHeight p + 1)) _ _ _ _ _ HM ltac:(lia) ltac:(rewrite length_le32; lia) ltac:(by exists 0) ltac:(by rewrite length_le32)) as HM1.
  pose proof (meta_write _ 4 (le32 (p_HeadHeight p + 1)) _ _ _ _ _ HM1 ltac:(lia) ltac:(rewrite length_le32; lia) ltac:(by exists 1) ltac:(by rewrite length_le32)) as HM2.
  pose proof (meta_write _ 8 (le32 (p_HeadHeight p + 1)) _ _ _ _ _ HM2 ltac:(lia) ltac:(rewrite length_le32; lia) ltac:(by exists 2) ltac:(by rewrite length_le32)) as HM3.
  split.
  - rewrite Hd. do 3 (eapply layout_meta; [|reflexivity|apply le32_range|rewrite length_le32; lia]). exact HL.
  - rewrite Hbg. apply (pk_begin _ _ Hp).
  - rewrite Hh, Hbg, (pk_head _ _ Hp), length_app. simpl. lia.
  - rewrite Hd, Hh, Hbg, Hg. exact HM3.
  - rewrite Hg. apply (pk_gen _ _ Hp).
Qed.

(** A torn write of one of the copies of the head height: the two others are
    as they were. *)
Lemma meta_torn m off bs j h c1 c2 begin gen :
  meta_ok m h c1 c2 begin gen → length bs = 4%nat →
  let m' := write_bytes off (take j bs) m in
  (off = 0 → ∃ x, meta_ok m' x c1 c2 begin gen) ∧ (off = 4 → ∃ x, meta_ok m' h x c2 begin gen) ∧
  (off = 8 → ∃ x, meta_ok m' h c1 x begin gen).
Proof.
  intros (M1 & M2 & M3 & M4) Hl m'.
  assert (Hj : (length (take j bs) ≤ 4)%nat) by (rewrite length_take; lia).
  split_and!; intros ->; eexists; unfold meta_ok, m'; (split_and!; [..|rewrite <- M4; apply bytes_of_write_other; lia]);
    first [reflexivity | rewrite <- M1; apply bytes_of_write_other; lia | rewrite <- M2; apply bytes_of_write_other; lia
          | rewrite <- M3; apply bytes_of_write_other; lia].
Qed.

(** Reading what a crash left: the old head, or the new one. *)
Definition recovers (p : Pile) bl b (f : File) : Prop :=
  ∃ q, LoadPile f = Ok q ∧ p_BeginHeight q = p_BeginHeight p ∧ p_GenHash q = p_GenHash p ∧ (pile_ok q bl ∨ pile_ok q (bl ++ [b])).

Lemma recovers_old p bl b m s x c1 c2 :
  pile_ok p bl → layout m s bl → meta_ok m x c1 c2 (p_BeginHeight p) (p_GenHash p) → le_val c1 = p_HeadHeight p → le_val c2 = p_HeadHeight p →
  recovers p bl b (mkFile m s 0 []).
Proof.
  intros Hp HL HM E1 E2. pose proof (pk_head _ _ Hp) as Hh.
  destruct (LoadPile_run (mkFile m s 0 []) _ _ _ _ _ bl HM HL (pk_gen _ _ Hp) (pk_begin _ _ Hp)) as (q & E & Hq & Hb & Hg).
  { left. split; congruence. }
  exists q. split_and!; auto.
Qed.

Lemma recovers_new p bl b m s h c1 c2 :
  pile_ok p bl → layout m s (bl ++ [b]) → meta_ok m h c1 c2 (p_BeginHeight p) (p_GenHash p) → le_val h = p_HeadHeight p + 1 →
  (le_val c1 = le_val c2 ∧ le_val c1 = le_val h) ∨
  (le_val c1 ≠ le_val c2 ∧ (le_val h = u32 (le_val c2 + 1) ∨ le_val h = le_val c1)) →
  recovers p bl b (mkFile m s 0 []).
Proof.
  intros Hp HL HM E1 Hc. pose proof (pk_head _ _ Hp) as Hh.
  assert (Hn : p_BeginHeight p + Z.of_nat (length (bl ++ [b])) = le_val h) by (rewrite length_app, E1, Hh; simpl; lia).
  destruct (LoadPile_run (mkFile m s 0 []) _ _ _ _ _ (bl ++ [b]) HM HL (pk_gen _ _ Hp) (pk_begin _ _ Hp)) as (q & E & Hq & Hb & Hg).
  { destruct Hc as [[E2 E3]|[E2 E3]]; [left; split; congruence|right; by split_and!]. }
  exists q. split_and!; auto.
Qed.

Lemma torn_recovers p bl b m s :
  pile_ok p bl → Z.of_nat (length bl) < ChunkUnit → blk_ok b → end_off (bl ++ [b]) < 2 ^ 63 →
  torn (append_writes (p_HeadHeight p) bl b) (f_data (p_file p)) (f_size (p_file p)) m s →
  recovers p bl b (mkFile m s 0 []).
Proof.
  intros Hp Hlen Hb Hbig (ws1 & ws2 & w & j & E & -> & Hs & Hx). pose proof header_size as (Hhs & Hcu & Hms & _).
  destruct (head_bytes p bl Hp) as [V0 V1]. destruct (V1 Hlen) as [V1' V2]. clear V1.
  pose proof (pk_layout _ _ Hp) as HL. pose proof (pk_meta _ _ Hp) as HM. pose proof (end_off_take bl 0) as He0.
  assert (LB : (33 ≤ length (block_bytes b))%nat) by (destruct (block_bytes_length b) as [|Hc]; [done|destruct Hb; congruence]).
  destruct (block_written _ _ s bl b _ _ _ _ _ HL HM Hb Hlen Hbig Hs) as (HL2 & HL3 & HM2).
  pose proof (layout_block _ _ s bl b (length (block_bytes b)) HL Hs Hb) as HL1. rewrite firstn_all in HL1.
  pose proof (λ j, layout_entry _ s s bl (end_off (bl ++ [b])) j HL1 ltac:(lia) Hlen) as HLe.
  set (H4 := le32 (p_HeadHeight p + 1)) in *. assert (L4 : length H4 = 4%nat) by apply length_le32.
  assert (R4 : Forall is_byte H4) by apply le32_range.
  unfold append_writes in E. fold H4 in E. set (E8 := le_bytes 8 (end_off (bl ++ [b]))) in *.
  assert (L8 : length E8 = 8%nat) by apply length_le_bytes. clearbody E8 H4.
  assert (Hsn : (end_off bl, block_bytes b) ∈ ws1 → end_off (bl ++ [b]) ≤ s).
  { intros Hin. specialize (Hx _ Hin). cbn [fst snd] in Hx. rewrite end_off_app. lia. }
  assert (Hlm : ∀ m' off bs bl', layout m' s bl' → off ≤ 8 → length bs = 4%nat → Forall is_byte bs → ∀ i, layout (write_bytes off (take i bs) m') s bl').
  { intros m' off bs bl' HL' Ho Hl Hf i. eapply layout_meta; [done|lia|by apply Forall_take|rewrite length_take; lia]. }
  assert (Hlf : ∀ m' off bs bl', layout m' s bl' → off ≤ 8 → length bs = 4%nat → Forall is_byte bs → layout (write_bytes off bs m') s bl').
  { intros m' off bs bl' HL' Ho Hl Hf. eapply layout_meta; [done|lia|done|lia]. }
  destruct ws1 as [|w1 [|w2 [|w3 [|w4 [|w5 ws1]]]]]; cbn [app] in E; simplify_eq; cbn [fst snd foldl];
    [| | | | |by destruct ws1].
  - apply (recovers_old p bl b _ _ (le32 (p_HeadHeight p)) (le32 (p_HeadHeight p)) (le32 (p_HeadHeight p))); try done.
    + by eapply layout_block.
    + destruct HM as (M1 & M2 & M3 & M4). unfold meta_ok. rewrite !bytes_of_write_other by lia. done.
  - apply (recovers_old p bl b _ _ (le32 (p_HeadHeight p)) (le32 (p_HeadHeight p)) (le32 (p_HeadHeight p))); try done.
    destruct HM as (M1 & M2 & M3 & M4). unfold meta_ok. rewrite !bytes_of_write_other by lia. done.
  - destruct (meta_torn _ 0 H4 j _ _ _ _ _ HM2 L4) as (Ht & _ & _). destruct (Ht eq_refl) as [x Hm].
    eapply recovers_old; [done| |exact Hm|done|done]. apply Hlm; [done|lia|done|done].
  - pose proof (meta_write _ 0 H4 _ _ _ _ _ HM2 ltac:(lia) ltac:(lia) ltac:(by exists 0) L4) as HM3.
    destruct (meta_torn _ 4 H4 j _ _ _ _ _ HM3 L4) as (_ & Ht & _). destruct (Ht eq_refl) as [x Hm].
    destruct (decide (le_val x = p_HeadHeight p)) as [Ex|Ex].
    + eapply recovers_old; [done| |exact Hm|done|done]. apply Hlm; [by apply Hlf|lia|done|done].
    + eapply recovers_new; [done| |exact Hm|done|].
      * apply Hlm; [apply Hlf; [|lia|done|done]|lia|done|done]. apply HL3, Hsn. by left.
      * right. rewrite V0. split; [done|]. left. by rewrite V1', V2.
  - pose proof (meta_write _ 0 H4 _ _ _ _ _ HM2 ltac:(lia) ltac:(lia) ltac:(by exists 0) L4) as HM3.
    pose proof (meta_write _ 4 H4 _ _ _ _ _ HM3 ltac:(lia) ltac:(lia) ltac:(by exists 1) L4) as HM4.
    destruct (meta_torn _ 8 H4 j _ _ _ _ _ HM4 L4) as (_ & _ & Ht). destruct (Ht eq_refl) as [x Hm].
    eapply recovers_new; [done| |exact Hm|done|].
    + apply Hlm; [apply Hlf; [apply Hlf; [|lia|done|done]|lia|done|done]|lia|done|done]. apply HL3, Hsn. by left.
    + destruct (decide (le_val H4 = le_val x)); [by left|right; split; [done|by right]].
Qed.

(** ** Reading a block *)

Lemma bytes_of_mid m off (x y z : bytes) :
  bytes_of m off (length (x ++ y ++ z)) = x ++ y ++ z → bytes_of m (off + Z.of_nat (length x)) (length y) = y.
Proof.
  rewrite !length_app, !bytes_of_app. intros [_ Hr]%app_inj_1; [|by rewrite length_bytes_of].
  by apply app_inj_1 in Hr as [Hr _]; [|by rewrite length_bytes_of].
Qed.

Lemma Read_has f off (bs : bytes) :
  bytes_of (f_data f) off (length bs) = bs → f_pos f = off → off + Z.of_nat (length bs) ≤ f_size f →
  ∃ f', Read (length bs) f = (Ok bs, f') ∧ same_file f f' ∧ f_pos f' = off + Z.of_nat (length bs).
Proof.
  intros Hb Hp Hs. destruct (decide (length bs = 0%nat)) as [E0|E0].
  - apply nil_length_inv in E0 as ->. exists f. split_and!; try done. rewrite Hp. cbn. lia.
  - rewrite Read_ok by lia. rewrite Hp, Hb. eexists. split; [done|]. split; [done|]. cbn. lia.
Qed.

(** The lengths of the parts, as they are stored. *)
Definition lengths (ds : list bytes) : bytes := ds ≫= λ v, le32 (u32 (Z.of_nat (length (gz v)))).
Lemma length_lengths ds : length (lengths ds) = (4 * length ds)%nat.
Proof.
  induction ds as [|d ds IH]; [done|]. unfold lengths in *. rewrite bind_cons, length_app, IH, length_le32. simpl. lia.
Qed.

Lemma Uint32_lengths ds j d :
  ds !! j = Some d → Z.of_nat (length (gz d)) < 2 ^ 32 → Uint32_at (lengths ds) (4 * j) = Ok (Z.of_nat (length (gz d))).
Proof.
  intros Hj Hd. unfold Uint32_at. pose proof (lookup_lt_Some _ _ _ Hj).
  assert (E : take 4 (drop (4 * j) (lengths ds)) = le32 (Z.of_nat (length (gz d)))).
  { rewrite <- (take_drop_middle ds j d Hj). unfold lengths. rewrite bind_app, bind_cons. fold (lengths (take j ds)).
    rewrite drop_app_length' by (rewrite length_lengths, length_take; lia).
    rewrite take_app_length' by (by rewrite length_le32). by rewrite u32_small by (unfold is_u32; lia). }
  rewrite E, length_le32. cbn [Nat.eqb]. f_equal. apply le_val_le32. lia.
Qed.

Lemma sum_lengths_run ds i n :
  Forall (λ v, Z.of_nat (length (gz v)) < 2 ^ 32) ds → (i + n ≤ length ds)%nat →
  sum_lengths (lengths ds) i n = Ok (Z.of_nat (length (take n (drop i ds) ≫= gz))).
Proof.
  intros Hall. revert i. induction n as [|n IH]; intros i Hi; [done|]. cbn [sum_lengths].
  destruct (lookup_lt_is_Some_2 ds i) as [d Hd]; [lia|].
  assert (Hz : Z.of_nat (length (gz d)) < 2 ^ 32) by (rewrite Forall_forall in Hall; by eapply Hall, list_elem_of_lookup_2).
  rewrite (Uint32_lengths ds i d Hd Hz). cbn [mbind res_bind]. rewrite IH by lia. cbn [mbind res_bind mret res_ret].
  f_equal. rewrite (drop_S _ _ _ Hd). cbn [take]. rewrite bind_cons, length_app. lia.
Qed.

(** What is known of the place of a block. *)
Record placed (f : File) (off : Z) b : Prop := {
  pl_hash : bytes_of (f_data f) off 32 = b.1;
  pl_count : bytes_of (f_data f) (off + 32) 1 = [Z.of_nat (length b.2)];
  pl_lengths : bytes_of (f_data f) (off + 33) (4 * length b.2) = lengths b.2;
  pl_part j d : b.2 !! j = Some d →
    bytes_of (f_data f) (off + 33 + 4 * Z.of_nat (length b.2) + Z.of_nat (length (take j b.2 ≫= gz))) (length (gz d)) = gz d;
  pl_size : off + Z.of_nat (length (block_bytes b)) ≤ f_size f;
  pl_ok : blk_ok b;
}.

Lemma block_bytes_split b : block_bytes b = b.1 ++ [u8 (Z.of_nat (length b.2))] ++ lengths b.2 ++ (b.2 ≫= gz).
Proof. done. Qed.

Lemma layout_placed f bl i b : layout (f_data f) (f_size f) bl → bl !! i = Some b → placed f (end_off (take i bl)) b.
Proof.
  intros HL Hi. pose proof (lo_block _ _ _ HL i b Hi) as HB. set (off := end_off (take i bl)) in *.
  assert (Hb : blk_ok b) by (pose proof (lo_ok _ _ _ HL) as Ho; rewrite Forall_forall in Ho; by eapply Ho, list_elem_of_lookup_2).
  pose proof Hb as (H32 & Hn & _ & _). rewrite block_bytes_split in HB.
  assert (Hu : u8 (Z.of_nat (length b.2)) = Z.of_nat (length b.2)) by (apply Z.mod_small; lia).
  split.
  - pose proof (bytes_of_mid (f_data f) off [] b.1 _ HB) as H0. rewrite H32 in H0. cbn in H0. by rewrite Z.add_0_r in H0.
  - pose proof (bytes_of_mid (f_data f) off b.1 [u8 (Z.of_nat (length b.2))] _ HB) as H0. rewrite H32, Hu in H0. exact H0.
  - rewrite (app_assoc b.1) in HB. pose proof (bytes_of_mid (f_data f) off _ (lengths b.2) _ HB) as H0.
    rewrite length_app, H32, length_lengths in H0. exact H0.
  - intros j d Hd.
    assert (Hgz : b.2 ≫= gz = (take j b.2 ≫= gz) ++ gz d ++ (drop (S j) b.2 ≫= gz)).
    { rewrite <- (take_drop_middle b.2 j d Hd) at 1. by rewrite bind_app, bind_cons. }
    rewrite Hgz, !app_assoc in HB. rewrite <- (app_assoc _ (gz d)) in HB.
    pose proof (bytes_of_mid (f_data f) off _ (gz d) _ HB) as H0. rewrite !length_app, H32, length_lengths in H0. cbn [length] in H0.
    rewrite <- H0 at 2. f_equal. lia.
  - unfold off. pose proof (end_off_block bl i b Hi). pose proof (lo_size _ _ _ HL). lia.
  - done.
Qed.

(** Two piles that differ in the cursor only. *)
Definition same_pile (p p' : Pile) : Prop :=
  same_file (p_file p) (p_file p') ∧ p_HeadHeight p' = p_HeadHeight p ∧ p_BeginHeight p' = p_BeginHeight p ∧
  p_GenHash p' = p_GenHash p.

Lemma same_pile_ok p p' bl : same_pile p p' → pile_ok p bl → pile_ok p' bl.
Proof.
  intros ((Hd & Hs & _) & Hh & Hb & Hg) [H1 H2 H3 H4 H5].
  split; rewrite ?Hd, ?Hs, ?Hh, ?Hb, ?Hg; done.
Qed.

Lemma on_file_run {V} (m : M File V) p r f :
  m (p_file p) = (r, f) → same_file (p_file p) f → ∃ p', on_file m p = (r, p') ∧ same_pile p p' ∧ p_file p' = f.
Proof. intros E Hf. unfold on_file. rewrite E. eexists. split; [done|]. by split_and!. Qed.

Lemma height_facts p bl i : pile_ok p bl → (i < length bl)%nat →
  let h := p_BeginHeight p + 1 + Z.of_nat i in
  u32 (h - p_BeginHeight p) - 1 = Z.of_nat i ∧ u32 (p_BeginHeight p + ChunkUnit) <? h = false ∧ p_HeadHeight p <? h = false.
Proof.
  intros Hp Hi h. destruct (pk_begin _ _ Hp) as (_ & H1 & H2). pose proof (lo_len _ _ _ (pk_layout _ _ Hp)).
  pose proof (pk_head _ _ Hp). pose proof header_size as (_ & Hcu & _).
  unfold h. rewrite !u32_small by (unfold is_u32; lia). split_and!; lia.
Qed.

Lemma GetHash_run p bl i b : pile_ok p bl → bl !! i = Some b →
  ∃ p', GetHash (p_BeginHeight p + 1 + Z.of_nat i) p = (Ok b.1, p') ∧ same_pile p p'.
Proof.
  intros Hp Hi. pose proof (lookup_lt_Some _ _ _ Hi) as Hl. destruct (height_facts p bl i Hp Hl) as (E1 & E2 & _).
  pose proof (layout_placed _ _ _ _ (pk_layout _ _ Hp) Hi) as HP.
  destruct (read_offset_run _ bl i (pk_layout _ _ Hp)) as (f1 & R1 & Hd1 & Hs1 & Hl1); [lia|].
  pose proof (end_off_take bl i). pose proof header_size as (Hhs & Hcu & Hms & _). destruct (pl_ok _ _ _ HP) as (H32 & _).
  unfold GetHash. rewrite (bind_Ok get _ p p p eq_refl), E2, E1. cbn [guard_err]. rewrite (bind_Ok (mret tt) _ p tt p eq_refl).
  destruct (Read_has (sk (end_off (take i bl)) f1) (end_off (take i bl)) b.1) as (f2 & R2 & Hf2 & _).
  { cbn [sk f_data]. rewrite Hd1, H32. apply (pl_hash _ _ _ HP). } { done. }
  { cbn [sk f_size]. rewrite Hs1. pose proof (pl_size _ _ _ HP) as Hsz. rewrite block_bytes_split, length_app in Hsz. lia. }
  rewrite H32 in R2.
  edestruct (on_file_run (V := Hash256)) as (p' & Er & Hsame & _); [| |exists p'; split; [exact Er|exact Hsame]].
  - rewrite (bind_Ok _ _ _ _ _ R1), (bind_Ok _ _ _ _ _ (Seek_ok (end_off (take i bl)) f1 ltac:(lia))). exact R2.
  - destruct Hf2 as (F1 & F2 & F3). cbn in F1, F2, F3. unfold same_file. by rewrite F1, F2, F3.
Qed.

Lemma read_lengths_run p bl i b need : pile_ok p bl → bl !! i = Some b → (length b.2 ≤ 63)%nat → (need ≤ length b.2)%nat →
  ∃ p', read_lengths (p_BeginHeight p + 1 + Z.of_nat i) need p =
      (Ok (lengths b.2, end_off (take i bl) + 33 + 4 * Z.of_nat (length b.2)), p') ∧ same_pile p p'.
Proof.
  intros Hp Hi H63 Hneed. pose proof (lookup_lt_Some _ _ _ Hi) as Hl. destruct (height_facts p bl i Hp Hl) as (E1 & E2 & E3).
  pose proof (layout_placed _ _ _ _ (pk_layout _ _ Hp) Hi) as HP.
  destruct (read_offset_run _ bl i (pk_layout _ _ Hp)) as (f1 & R1 & Hd1 & Hs1 & Hl1); [lia|].
  pose proof (end_off_take bl i). pose proof header_size as (Hhs & Hcu & Hms & _). destruct (pl_ok _ _ _ HP) as (H32 & _).
  pose proof (pl_size _ _ _ HP) as Hsz. rewrite block_bytes_split, !length_app, length_lengths, H32 in Hsz. cbn [length] in Hsz.
  set (off := end_off (take i bl)) in *.
  destruct (Read_has (sk (off + 32) f1) (off + 32) [Z.of_nat (length b.2)]) as (f2 & R2 & (D2 & S2 & L2) & P2).
  { cbn [sk f_data length]. rewrite Hd1. apply (pl_count _ _ _ HP). } { done. } { cbn [sk f_size length]. rewrite Hs1. lia. }
  destruct (Read_has f2 (off + 33) (lengths b.2)) as (f3 & R3 & (D3 & S3 & L3) & _).
  { rewrite D2. cbn [sk f_data]. rewrite Hd1, length_lengths. apply (pl_lengths _ _ _ HP). } { rewrite P2. cbn [length]. lia. }
  { rewrite S2, length_lengths. cbn [sk f_size]. rewrite Hs1. lia. }
  assert (E4 : u8 (4 * Z.of_nat (length b.2)) = 4 * Z.of_nat (length b.2)) by (apply Z.mod_small; lia).
  unfold read_lengths. rewrite (bind_Ok get _ p p p eq_refl), E2, E3, E1. cbn [guard_err].
  do 2 (rewrite (bind_Ok (mret tt) _ p tt p eq_refl)).
  edestruct (on_file_run (V := bytes * Z)) as (p' & Er & Hsame & _); [| |exists p'; split; [exact Er|exact Hsame]].
  - rewrite (bind_Ok _ _ _ _ _ R1), (bind_Ok _ _ _ _ _ (Seek_ok (off + 32) f1 ltac:(lia))), (bind_Ok _ _ _ _ _ R2). cbn [nth].
    destruct (Z.ltb_spec (Z.of_nat (length b.2)) (Z.of_nat need)); [lia|]. cbn [guard_err].
    rewrite (bind_Ok (mret tt) _ f2 tt f2 eq_refl), E4. replace (Z.to_nat (4 * Z.of_nat (length b.2))) with (length (lengths b.2)) by (rewrite length_lengths; lia).
    rewrite (bind_Ok _ _ _ _ _ R3). unfold mret, M_ret. do 3 f_equal. lia.
  - cbn in *. unfold same_file. rewrite D3, S3, L3, D2, S2, L2. by split_and!.
Qed.

Context `{!GzipLaws G}.

(** The parts from [i] on, at their place. *)
Lemma read_parts_run f off b i n :
  placed f off b → (i + n ≤ length b.2)%nat → f_pos f = off + 33 + 4 * Z.of_nat (length b.2) + Z.of_nat (length (take i b.2 ≫= gz)) →
  ∃ f', read_parts (lengths b.2) i n f = (Ok (concat (take n (drop i b.2))), f') ∧ same_file f f'.
Proof.
  revert f i. induction n as [|n IH]; intros f i HP Hi Hpos; cbn [read_parts]; [by exists f|].
  destruct (lookup_lt_is_Some_2 b.2 i) as [d Hd]; [lia|]. pose proof (pl_ok _ _ _ HP) as (H32 & _ & Hz & _).
  assert (Hzd : Z.of_nat (length (gz d)) < 2 ^ 32) by (rewrite Forall_forall in Hz; by eapply Hz, list_elem_of_lookup_2).
  assert (Hsplit : length (b.2 ≫= gz) = (length (take i b.2 ≫= gz) + length (gz d) + length (drop (S i) b.2 ≫= gz))%nat).
  { rewrite <- (take_drop_middle b.2 i d Hd) at 1. rewrite bind_app, bind_cons, !length_app. lia. }
  destruct (Read_has f _ (gz d) (pl_part _ _ _ HP i d Hd) Hpos) as (f1 & R1 & Hf1 & P1).
  { pose proof (pl_size _ _ _ HP) as Hs. rewrite block_bytes_split, !length_app, length_lengths, H32 in Hs. cbn [length] in Hs. lia. }
  assert (Rp : read_part (lengths b.2) i f = (Ok d, f1)).
  { unfold read_part, lift. rewrite (Uint32_lengths _ _ _ Hd Hzd). erewrite bind_Ok by reflexivity.
    rewrite Nat2Z.id, (bind_Ok _ _ _ _ _ R1). by rewrite gunzip_gz. }
  rewrite (bind_Ok _ _ _ _ _ Rp). destruct Hf1 as (D1 & S1 & L1).
  destruct (IH f1 (S i)) as (f2 & R2 & D2 & S2 & L2).
  - destruct HP as [P2 P3 P4 P5 P6 P7]. split; rewrite ?D1, ?S1; done.
  - lia.
  - rewrite P1, (take_S_r _ _ _ Hd), bind_app, bind_cons, !length_app. cbn. lia.
  - rewrite (bind_Ok _ _ _ _ _ R2). exists f2. split; [|unfold same_file; by rewrite D2, S2, L2].
    rewrite (drop_S _ _ _ Hd). done.
Qed.

Lemma placed_same f f' off b : same_file f f' → placed f off b → placed f' off b.
Proof. intros (D & S & _) [P1 P2 P3 P4 P5 P6]. split; rewrite ?D, ?S; done. Qed.

Lemma same_file_trans f g h : same_file f g → same_file g h → same_file f h.
Proof. intros (A1 & A2 & A3) (B1 & B2 & B3). unfold same_file. by rewrite B1, B2, B3. Qed.
Lemma same_pile_trans p q r : same_pile p q → same_pile q r → same_pile p r.
Proof.
  intros (A0 & A1 & A2 & A3) (B0 & B1 & B2 & B3). split; [by eapply same_file_trans|]. by rewrite B1, B2, B3.
Qed.

Lemma GetDatas_run p bl i b from count :
  pile_ok p bl → bl !! i = Some b → (length b.2 ≤ 63)%nat → (from + count ≤ length b.2)%nat →
  ∃ p', GetDatas (p_BeginHeight p + 1 + Z.of_nat i) from count p = (Ok (concat (take count (drop from b.2))), p') ∧ same_pile p p'.
Proof.
  intros Hp Hi H63 Hc. destruct (read_lengths_run p bl i b (from + count) Hp Hi H63 Hc) as (p1 & E1 & Hs1).
  unfold GetDatas. rewrite (bind_Ok _ _ _ _ _ E1). pose proof Hs1 as (Hf1 & _).
  pose proof (placed_same _ _ _ _ Hf1 (layout_placed _ _ _ _ (pk_layout _ _ Hp) Hi)) as HP.
  pose proof (pl_ok _ _ _ HP) as (_ & _ & Hz & _). pose proof (end_off_take bl i). pose proof header_size as (Hhs & Hcu & Hms & _).
  set (off := end_off (take i bl)) in *. set (pos := off + 33 + 4 * Z.of_nat (length b.2) + Z.of_nat (length (take from b.2 ≫= gz))).
  destruct (read_parts_run (sk pos (p_file p1)) off b from count) as (f2 & R2 & Hf2); [by eapply placed_same; [|exact HP]|lia|done|].
  edestruct (on_file_run (V := bytes)) as (p2 & Er & Hs2 & _);
    [| |exists p2; split; [exact Er|by eapply same_pile_trans; [exact Hs1|exact Hs2]]].
  - rewrite sum_lengths_run by (done || lia). rewrite drop_0. unfold lift. erewrite bind_Ok by reflexivity. fold pos.
    rewrite (bind_Ok _ _ _ _ _ (Seek_ok pos _ ltac:(lia))). exact R2.
  - exact Hf2.
Qed.

Lemma GetData_run p bl i b j d :
  pile_ok p bl → bl !! i = Some b → (length b.2 ≤ 63)%nat → b.2 !! j = Some d →
  ∃ p', GetData (p_BeginHeight p + 1 + Z.of_nat i) j p = (Ok d, p') ∧ same_pile p p'.
Proof.
  intros Hp Hi H63 Hj. pose proof (lookup_lt_Some _ _ _ Hj) as Hl.
  destruct (GetDatas_run p bl i b j 1 Hp Hi H63 ltac:(lia)) as (p' & E & Hs). exists p'. split; [|done].
  revert E. unfold GetDatas, GetData. replace (j + 1)%nat with (S j) by lia.
  destruct (read_lengths_run p bl i b (S j) Hp Hi H63 ltac:(lia)) as (p1 & E1 & _).
  rewrite !(bind_Ok _ _ _ _ _ E1).
  unfold on_file. cbn [read_parts]. unfold mbind, M_bind, lift.
  destruct (sum_lengths (lengths b.2) 0 j) as [sk0|e|]; [|by intros [=]..]. unfold Seek. destruct (_ <? 0); [by intros [=]|].
  destruct (read_part (lengths b.2) j _) as [[data|e|] f1]; [|by intros [=]..]. unfold mret, M_ret. rewrite app_nil_r.
  rewrite (drop_S _ _ _ Hj). cbn [take concat]. rewrite app_nil_r. by intros [= -> ->].
Qed.

(** ** The database: chunks of a list of blocks *)

(** The chunk size as a natural number, sealed so that no proof computes it. *)
Definition CU_seal : { n : nat | Z.of_nat n = ChunkUnit }.
Proof. exists (Z.to_nat ChunkUnit). pose proof header_size as (_ & Hcu & _). lia. Qed.
Definition CU : nat := proj1_sig CU_seal.
Definition chunk_of (i : nat) bl : list blk := take CU (drop (i * CU) bl).

Record db_holds (db : DB) bl : Prop := {
  dk_pile i p : db_piles db !! i = Some p →
    pile_ok p (chunk_of i bl) ∧ p_BeginHeight p = Z.of_nat (i * CU) ∧ p_GenHash p = db_genHash db;
  dk_some : (0 < length (db_piles db))%nat;
  dk_fits : (length bl ≤ length (db_piles db) * CU)%nat;
  dk_last : ((length (db_piles db) - 1) * CU ≤ length bl)%nat;
  dk_gen : length (db_genHash db) = 32%nat ∧ Forall is_byte (db_genHash db);
}.

(** Between two calls the last chunk_of is not empty, unless it is the only one. *)
Definition db_ok (db : DB) bl : Prop :=
  db_holds db bl ∧ (length (db_piles db) = 1%nat ∨ ((length (db_piles db) - 1) * CU < length bl)%nat).

Lemma CU_facts : Z.of_nat CU = ChunkUnit ∧ (0 < CU)%nat.
Proof. pose proof header_size as (_ & Hcu & _). unfold CU. destruct CU_seal as [n Hn]. cbn [proj1_sig]. lia. Qed.

#[local] Opaque CU.

Lemma chunk_length i bl : length (chunk_of i bl) = Nat.min CU (length bl - i * CU).
Proof. unfold chunk_of. by rewrite length_take, length_drop. Qed.

Lemma chunk_lookup bl n b : bl !! n = Some b → chunk_of (n / CU) bl !! (n mod CU)%nat = Some b.
Proof.
  intros Hn. destruct CU_facts as [_ Hcu]. pose proof (Nat.div_mod n CU ltac:(lia)) as Hd. pose proof (Nat.mod_upper_bound n CU ltac:(lia)).
  unfold chunk_of. rewrite lookup_take_lt, lookup_drop by lia. rewrite <- Hn. f_equal. lia.
Qed.

Lemma chunk_snoc_other i bl b : (S i * CU ≤ length bl)%nat → chunk_of i (bl ++ [b]) = chunk_of i bl.
Proof. intros Hi. unfold chunk_of. rewrite drop_app_le by lia. rewrite take_app_le; [done|]. rewrite length_drop. lia. Qed.

Lemma chunk_snoc_last i bl b : (i * CU ≤ length bl)%nat → (length bl < S i * CU)%nat → chunk_of i (bl ++ [b]) = chunk_of i bl ++ [b].
Proof.
  intros H1 H2. unfold chunk_of. rewrite drop_app_le by lia. rewrite !take_ge; [done|..]; rewrite ?length_app, length_drop; cbn [length]; lia.
Qed.

Lemma end_off_chunk i bl : end_off (chunk_of i bl) ≤ end_off bl.
Proof.
  unfold chunk_of, end_off. rewrite <- (take_drop (i * CU) bl) at 2. rewrite bind_app, length_app.
  rewrite <- (take_drop CU (drop (i * CU) bl)) at 2. rewrite bind_app, length_app. lia.
Qed.

Lemma NewPile_ok gen k :
  length gen = 32%nat → Forall is_byte gen → Z.of_nat (k * CU) + ChunkUnit < 2 ^ 32 →
  ∃ p, NewPile gen (Z.of_nat (k * CU)) = Ok p ∧ pile_ok p [] ∧ p_BeginHeight p = Z.of_nat (k * CU) ∧ p_GenHash p = gen ∧
       p_HeadHeight p = Z.of_nat (k * CU).
Proof.
  intros Hg Hgb Hk. destruct CU_facts as [Hc Hc0]. pose proof header_size as (Hhs & Hcu & Hms & _).
  assert (Hm : Z.of_nat (k * CU) `mod` ChunkUnit = 0) by (rewrite Nat2Z.inj_mul, Hc; apply Z.mod_mul; lia).
  unfold NewPile. rewrite Hm, Z.eqb_refl. cbn [negb]. set (base := Z.of_nat (k * CU)) in *.
  rewrite u32_small by (unfold is_u32; lia). set (meta := meta_of base base base base (base + ChunkUnit) gen).
  assert (Lm : length meta = 52%nat) by (unfold meta, meta_of; rewrite !length_app, !length_le32, Hg; done).
  set (bs := meta ++ replicate (256 - length meta) 0).
  exists (mkPile (wr bs (mkFile ∅ ChunkHeaderSize 0 [])) base base gen). split; [reflexivity|].
  split; [|cbn [p_BeginHeight p_GenHash p_HeadHeight]; by split_and!].
  assert (Lb : length bs = 256%nat) by (unfold bs; rewrite length_app, length_replicate, Lm; done).
  assert (Rb : Forall is_byte bs).
  { apply Forall_app_2; [|apply Forall_replicate; unfold is_byte; lia]. unfold meta, meta_of.
    repeat apply Forall_app_2; (apply le32_range || done). }
  assert (Hbs : bytes_of (write_bytes 0 bs ∅) 0 256 = bs) by (rewrite <- Lb at 1; apply bytes_of_write).
  assert (Hwd : f_data (wr bs (mkFile ∅ ChunkHeaderSize 0 [])) = write_bytes 0 bs ∅) by done.
  assert (Hws : f_size (wr bs (mkFile ∅ ChunkHeaderSize 0 [])) = ChunkHeaderSize).
  { rewrite wr_size by lia. cbn [f_size f_pos]. lia. }
  split; cbn [p_file p_HeadHeight p_BeginHeight p_GenHash]; rewrite ?Hwd, ?Hws.
  - assert (H0 : end_off [] = ChunkHeaderSize) by (unfold end_off; cbn [mbind list_bind length]; lia).
    split.
    + intros i Hi. cbn [length] in Hi. lia.
    + intros i b Hi. by rewrite lookup_nil in Hi.
    + rewrite H0. lia.
    + rewrite H0. lia.
    + cbn [length]. lia.
    + constructor.
    + apply write_bytes_range; [done|]. intros i. rewrite lookup_empty. cbn. unfold is_byte. lia.
  - lia.
  - cbn [length]. lia.
  - change 256%nat with (52 + 204)%nat in Hbs. rewrite bytes_of_app in Hbs. unfold bs in Hbs at 2.
    apply app_inj_1 in Hbs as [Hbs _]; [|by rewrite length_bytes_of, Lm]. unfold meta, meta_of in Hbs.
    change 52%nat with (4 + (4 + (4 + 40)))%nat in Hbs. rewrite !bytes_of_app in Hbs.
    apply app_inj_1 in Hbs as [B1 Hbs]; [|by rewrite length_bytes_of, length_le32].
    apply app_inj_1 in Hbs as [B2 Hbs]; [|by rewrite length_bytes_of, length_le32].
    apply app_inj_1 in Hbs as [B3 B4]; [|by rewrite length_bytes_of, length_le32]. by split_and!.
  - done.
Qed.

Lemma Init_ok gen db :
  db_piles db = [] → length gen = 32%nat → Forall is_byte gen → ∃ db', db_Init gen db = (Ok tt, db') ∧ db_ok db' [].
Proof.
  intros He Hg Hgb. destruct CU_facts as [Hc Hc0]. pose proof header_size as (Hhs & Hcu & Hms & Hlt).
  destruct (NewPile_ok gen 0 Hg Hgb ltac:(cbn; lia)) as (p & E & Hp & Hb & Hgn & _). unfold db_Init. rewrite He.
  rewrite Nat.mul_0_l in *. change (Z.of_nat 0) with 0 in *. rewrite E. eexists. split; [reflexivity|].
  split; [|left; reflexivity]. split; cbn [db_piles db_genHash].
  - intros [|i] q Hq; [|by rewrite lookup_cons in Hq]. injection Hq as <-. rewrite Nat.mul_0_l. split_and!; [|done|done].
    unfold chunk_of. rewrite drop_nil, take_nil. exact Hp.
  - cbn [length]. lia.
  - cbn [length]. lia.
  - cbn [length]. lia.
  - split; assumption.
Qed.

(** The heads of the piles. *)
Lemma db_head db bl i p : db_holds db bl → db_piles db !! i = Some p → p_HeadHeight p = Z.of_nat (Nat.min (S i * CU) (length bl)) ∨ (length bl < i * CU)%nat.
Proof.
  intros Hok Hi. destruct (dk_pile _ _ Hok i p Hi) as (Hp & Hb & _). destruct (decide (length bl < i * CU)%nat); [by right|left].
  rewrite (pk_head _ _ Hp), Hb, chunk_length. lia.
Qed.

Lemma db_last db bl : db_holds db bl → ∃ p, last (db_piles db) = Some p ∧ db_piles db !! (length (db_piles db) - 1)%nat = Some p ∧
  p_HeadHeight p = Z.of_nat (length bl).
Proof.
  intros Hok. pose proof (dk_some _ _ Hok) as Hs. destruct (lookup_lt_is_Some_2 (db_piles db) (length (db_piles db) - 1)) as [p Hp]; [lia|].
  exists p. rewrite last_lookup. replace (pred (length (db_piles db))) with (length (db_piles db) - 1)%nat by lia. split_and!; [done|done|].
  pose proof (dk_fits _ _ Hok) as Hf. destruct (db_head db bl _ p Hok Hp) as [->|Hlt].
  - replace (S (length (db_piles db) - 1)) with (length (db_piles db)) by lia. lia.
  - pose proof (dk_last _ _ Hok). lia.
Qed.

(** A pile replaced by one that holds the same or the next chunk_of. *)
Lemma replace_pile db bl bl' i p' :
  db_holds db bl → (i < length (db_piles db))%nat →
  pile_ok p' (chunk_of i bl') → p_BeginHeight p' = Z.of_nat (i * CU) → p_GenHash p' = db_genHash db →
  (∀ j, (j < length (db_piles db))%nat → j ≠ i → chunk_of j bl' = chunk_of j bl) →
  (length bl' ≤ length (db_piles db) * CU)%nat → (length bl ≤ length bl')%nat →
  db_holds (set_piles (<[i := p']> (db_piles db)) db) bl'.
Proof.
  intros Hok Hi Hp Hb Hg Hoth Hfit Hlen. split; cbn [set_piles db_piles db_genHash]; rewrite ?length_insert; [|apply Hok|done|..|apply Hok].
  - intros j q Hq. destruct (decide (j = i)) as [->|Hne].
    + rewrite list_lookup_insert_eq in Hq by done. by injection Hq as <-.
    + rewrite list_lookup_insert_ne in Hq by done. pose proof (lookup_lt_Some _ _ _ Hq). rewrite Hoth by done. by apply (dk_pile _ _ Hok).
  - pose proof (dk_last _ _ Hok). lia.
Qed.

Lemma with_flags_ok db bl d t : db_holds db bl → db_holds (mkDB (db_piles db) (db_genHash db) (db_syncMode db) d t) bl.
Proof. intros [H1 H2 H3 H4 H5]. by split. Qed.

(** The pile that receives the next block: the last one, or a new one. *)
Lemma db_room db bl p :
  db_holds db bl → last (db_piles db) = Some p → p_HeadHeight p = Z.of_nat (length bl) → Z.of_nat (length bl) + 2 * ChunkUnit < 2 ^ 32 →
  ∃ db1, (if ChunkUnit <=? u32 (p_HeadHeight p - p_BeginHeight p) then
            v ← lift (NewPile (db_genHash db) (u32 (p_BeginHeight p + ChunkUnit)));
            modify (λ db, set_piles (db_piles db ++ [v]) db)
          else mret tt) db = (Ok tt, db1) ∧ db_holds db1 bl ∧ db_syncMode db1 = db_syncMode db ∧ db_lastSyncTime db1 = db_lastSyncTime db ∧
    (length bl < length (db_piles db1) * CU)%nat ∧ (Z.of_nat (length (db_piles db1) * CU) ≤ Z.of_nat (length bl) + ChunkUnit).
Proof.
  intros Hok Hl Hh Hbig. destruct CU_facts as [Hc Hc0]. pose proof (dk_some _ _ Hok) as Hs. pose proof (dk_fits _ _ Hok) as Hf.
  set (n := length (db_piles db)) in *.
  assert (Hi : db_piles db !! (n - 1)%nat = Some p) by (rewrite last_lookup in Hl; by replace (n - 1)%nat with (pred n) by lia).
  destruct (dk_pile _ _ Hok _ _ Hi) as (Hp & Hb & Hg). pose proof (dk_last _ _ Hok) as Hla. fold n in Hla.
  assert (Hge : ((n - 1) * CU ≤ length bl)%nat) by exact Hla.
  rewrite Hh, Hb, u32_small by (unfold is_u32; lia).
  destruct (Z.leb_spec ChunkUnit (Z.of_nat (length bl) - Z.of_nat ((n - 1) * CU))) as [Hfull|Hfull].
  - assert (Hlen : length bl = (n * CU)%nat) by nia.
    replace (Z.of_nat ((n - 1) * CU) + ChunkUnit) with (Z.of_nat (n * CU)) by nia. rewrite u32_small by (unfold is_u32; nia).
    destruct (NewPile_ok (db_genHash db) n) as (v & Ev & Hv & Hvb & Hvg & _); [apply (dk_gen _ _ Hok)|apply (dk_gen _ _ Hok)|nia|].
    rewrite Ev. eexists. split; [reflexivity|]. cbn [set_piles db_piles db_genHash db_syncMode db_lastSyncTime].
    split; [|split; [reflexivity|split; [reflexivity|split; rewrite length_app; cbn [length]; fold n; rewrite Hlen, Nat.mul_add_distr_r; lia]]].
    split; cbn [set_piles db_piles db_genHash]; rewrite ?length_app; cbn [length]; fold n; [|lia|rewrite Hlen, Nat.mul_add_distr_r; lia|rewrite Hlen, Nat.add_sub; lia|apply Hok].
    intros i q Hq. destruct (decide (i = n)) as [->|Hne].
    + unfold n in Hq. rewrite lookup_app_r, Nat.sub_diag in Hq by lia. injection Hq as <-. split_and!; [|done|done].
      replace (chunk_of n bl) with ([] : list blk); [done|]. symmetry. apply nil_length_inv. rewrite chunk_length. lia.
    + pose proof (lookup_lt_Some _ _ _ Hq) as Hlt. rewrite length_app in Hlt. cbn [length] in Hlt. fold n in Hlt.
      rewrite lookup_app_l in Hq by (fold n; lia). by apply (dk_pile _ _ Hok).
  - exists db. split; [reflexivity|]. fold n. split; [exact Hok|]. split; [reflexivity|]. split; [reflexivity|]. split; nia.
Qed.

Lemma db_append now db bl b :
  db_holds db bl → blk_ok b → Z.of_nat (length bl) + 2 * ChunkUnit < 2 ^ 32 → end_off (bl ++ [b]) < 2 ^ 63 →
  ∃ db', db_AppendData now (Z.of_nat (length bl) + 1) b.1 b.2 db = (Ok tt, db') ∧ db_ok db' (bl ++ [b]).
Proof.
  intros Hok Hb Hbig Hend. destruct CU_facts as [Hc Hc0]. destruct (db_last db bl Hok) as (p & Hl & _ & Hh).
  unfold db_AppendData. pose proof Hb as (Hb1 & Hb2 & Hb3).
  destruct (Z.ltb_spec 255 (Z.of_nat (length b.2))); [lia|]. cbn [guard_err]. rewrite (bind_Ok (mret tt) _ db tt db eq_refl), (bind_Ok get _ db db db eq_refl).
  rewrite Hl. cbn [of_option]. rewrite (bind_Ok (lift (Ok p)) _ db p db eq_refl).
  rewrite Hh, (u32_small (Z.of_nat (length bl) + 1)), Z.eqb_refl by (unfold is_u32; lia). cbn [negb guard_err]. rewrite (bind_Ok (mret tt) _ db tt db eq_refl).
  destruct (db_room db bl p Hok Hl Hh Hbig) as (db1 & E1 & Hok1 & Hsy & Hti & Hr1 & Hr2). rewrite Hh in E1.
  rewrite (bind_Ok _ _ _ _ _ E1), (bind_Ok get _ db1 db1 db1 eq_refl).
  destruct (db_last db1 bl Hok1) as (p1 & _ & Hi1 & Hh1). set (i := (length (db_piles db1) - 1)%nat) in *.
  pose proof (dk_some _ _ Hok1) as Hs1. destruct (dk_pile _ _ Hok1 _ _ Hi1) as (Hp1 & Hbg1 & Hg1).
  assert (Hge : (i * CU ≤ length bl)%nat).
  { unfold i. apply (dk_last _ _ Hok1). }
  assert (Hci : (length (chunk_of i bl) < CU)%nat) by (rewrite chunk_length; unfold i; nia).
  assert (Hsn : chunk_of i (bl ++ [b]) = chunk_of i bl ++ [b]) by (apply chunk_snoc_last; [done|unfold i; nia]).
  destruct (append_ok (db_syncMode db1 || (1000000000 <=? db_lastSyncTime db1 - now)) p1 (chunk_of i bl) b) as (p2 & E2 & Hp2 & Hb2' & Hg2 & _);
    [exact Hp1|lia|exact Hb|rewrite <- Hsn; pose proof (end_off_chunk i (bl ++ [b])); lia|]. rewrite Hh1 in E2.
  assert (E3 : on_pile i (AppendData (db_syncMode db1 || (1000000000 <=? db_lastSyncTime db1 - now)) (Z.of_nat (length bl) + 1) b.1 b.2) db1 =
               (Ok tt, set_piles (<[i := p2]> (db_piles db1)) db1)) by (unfold on_pile; by rewrite Hi1, E2).
  rewrite (bind_Ok _ _ _ _ _ E3). eexists. split; [reflexivity|]. split.
  2:{ right. cbn [set_piles db_piles]. rewrite length_insert, length_app. cbn [length]. fold i. lia. }
  apply with_flags_ok.
  eapply replace_pile; [exact Hok1|unfold i; lia|rewrite Hsn; exact Hp2|rewrite Hb2'; exact Hbg1|rewrite Hg2; exact Hg1|..].
  - intros j Hj Hne. apply chunk_snoc_other. assert (j < i)%nat by (unfold i in *; lia). nia.
  - rewrite length_app. cbn [length]. lia.
  - rewrite length_app. lia.
Qed.

(** The pile of a height. *)
Lemma at_height_run {V} db bl n (m : M Pile V) :
  db_holds db bl → (n < length bl)%nat →
  ∃ p, pile_ok p (chunk_of (n / CU) bl) ∧ p_BeginHeight p + 1 + Z.of_nat (n mod CU) = Z.of_nat n + 1 ∧
       (at_height (Z.of_nat n + 1) m db).1 = (m p).1.
Proof.
  intros Hok Hn. destruct CU_facts as [Hc Hc0]. pose proof (dk_fits _ _ Hok) as Hf.
  pose proof (Nat.div_mod n CU ltac:(lia)) as Hdm. pose proof (Nat.mod_upper_bound n CU ltac:(lia)) as Hmu.
  assert (Hi : (n / CU < length (db_piles db))%nat) by nia.
  destruct (lookup_lt_is_Some_2 _ _ Hi) as [p Hp]. destruct (dk_pile _ _ Hok _ _ Hp) as (Hpk & Hb & _).
  exists p. split; [exact Hpk|]. split; [rewrite Hb; lia|].
  assert (Ei : (Z.of_nat n + 1 - 1) `div` ChunkUnit = Z.of_nat (n / CU)) by (rewrite Z.add_simpl_r, <- Hc, <- Nat2Z.inj_div; reflexivity).
  unfold at_height. rewrite Ei, (bind_Ok get _ db db db eq_refl).
  destruct (Z.leb_spec (Z.of_nat (length (db_piles db))) (Z.of_nat (n / CU))); [lia|]. cbn [guard_err].
  rewrite (bind_Ok (mret tt) _ db tt db eq_refl), Nat2Z.id. unfold on_pile. rewrite Hp. by destruct (m p).
Qed.

Lemma read_ok db bl n b :
  db_holds db bl → bl !! n = Some b →
  (db_GetHash (Z.of_nat n + 1) db).1 = Ok b.1 ∧
  ((length b.2 ≤ 63)%nat →
   (∀ j d, b.2 !! j = Some d → (db_GetData (Z.of_nat n + 1) j db).1 = Ok d) ∧
   (∀ from count, (from + count ≤ length b.2)%nat →
      (db_GetDatas (Z.of_nat n + 1) from count db).1 = Ok (concat (take count (drop from b.2))))).
Proof.
  intros Hok Hn. pose proof (lookup_lt_Some _ _ _ Hn) as Hlt. pose proof (chunk_lookup bl n b Hn) as Hc.
  assert (E0 : (Z.of_nat n + 1 =? 0) = false) by lia.
  split; [|intros H63; split; [intros j d Hj|intros from count Hfc]].
  - unfold db_GetHash. rewrite (bind_Ok get _ db db db eq_refl), E0.
    destruct (at_height_run db bl n (GetHash (Z.of_nat n + 1)) Hok Hlt) as (p & Hp & Hh & ->). rewrite <- Hh.
    by destruct (GetHash_run p _ _ b Hp Hc) as (p' & -> & _).
  - unfold db_GetData. rewrite E0. cbn [guard_err]. rewrite (bind_Ok (mret tt) _ db tt db eq_refl).
    destruct (at_height_run db bl n (GetData (Z.of_nat n + 1) j) Hok Hlt) as (p & Hp & Hh & ->). rewrite <- Hh.
    by destruct (GetData_run p _ _ b j d Hp Hc H63 Hj) as (p' & -> & _).
  - unfold db_GetDatas. rewrite E0. cbn [guard_err]. rewrite (bind_Ok (mret tt) _ db tt db eq_refl).
    destruct (at_height_run db bl n (GetDatas (Z.of_nat n + 1) from count) Hok Hlt) as (p & Hp & Hh & ->). rewrite <- Hh.
    by destruct (GetDatas_run p _ _ b from count Hp Hc H63 Hfc) as (p' & -> & _).
Qed.

Lemma read_lengths_beyond p h need : p_HeadHeight p <? h = true → read_lengths h need p = (Err ErrPileInvalidHeight, p).
Proof.
  intros Hh. unfold read_lengths. rewrite (bind_Ok get _ p p p eq_refl), Hh.
  destruct (u32 (p_BeginHeight p + ChunkUnit) <? h); cbn [guard_err]; [by erewrite bind_Err by reflexivity|].
  rewrite (bind_Ok (mret tt) _ p tt p eq_refl). by erewrite bind_Err by reflexivity.
Qed.

Lemma read_beyond db bl h i :
  db_holds db bl → Z.of_nat (length bl) < h < 2 ^ 32 → (db_GetData h i db).1 = Err ErrPileInvalidHeight.
Proof.
  intros Hok [Hh Hh2]. destruct CU_facts as [Hc Hc0]. unfold db_GetData.
  destruct (Z.eqb_spec h 0); [lia|]. cbn [guard_err]. rewrite (bind_Ok (mret tt) _ db tt db eq_refl).
  unfold at_height. rewrite (bind_Ok get _ db db db eq_refl).
  destruct (Z.leb_spec (Z.of_nat (length (db_piles db))) ((h - 1) `div` ChunkUnit)) as [Hge|Hlt]; [done|]. cbn [guard_err].
  rewrite (bind_Ok (mret tt) _ db tt db eq_refl). unfold on_pile.
  assert (Hk : 0 ≤ (h - 1) `div` ChunkUnit) by (apply Z.div_pos; lia).
  generalize dependent ((h - 1) `div` ChunkUnit). intros k Hlt Hk.
  destruct (lookup_lt_is_Some_2 (db_piles db) (Z.to_nat k)) as [p Hp]; [lia|]. rewrite Hp.
  assert (Hhd : p_HeadHeight p <? h = true).
  { destruct (db_head db bl _ p Hok Hp) as [->|Hbad].
    { apply Z.ltb_lt. pose proof (Nat.le_min_r (S (Z.to_nat k) * CU) (length bl)). lia. }
    pose proof (dk_last _ _ Hok).
    assert (Hle : (Z.to_nat k * CU ≤ (length (db_piles db) - 1) * CU)%nat) by (apply Nat.mul_le_mono_r; lia). lia. }
  unfold GetData. rewrite (bind_Err _ _ _ _ _ (read_lengths_beyond p h (S i) Hhd)). reflexivity.
Qed.

(** ** Opening *)

Lemma LoadPile_ok p bl : pile_ok p bl →
  ∃ q, LoadPile (p_file p) = Ok q ∧ pile_ok q bl ∧ p_BeginHeight q = p_BeginHeight p ∧ p_GenHash q = p_GenHash p ∧ p_HeadHeight q = p_HeadHeight p.
Proof.
  intros Hp. destruct (head_bytes p bl Hp) as [Hv _].
  destruct (LoadPile_run (p_file p) _ _ _ _ _ bl (pk_meta _ _ Hp) (pk_layout _ _ Hp) (pk_gen _ _ Hp) (pk_begin _ _ Hp)) as (q & E & Hq & Hb & Hg).
  { left. split; [reflexivity|]. rewrite Hv, (pk_head _ _ Hp). reflexivity. }
  exists q. split_and!; [exact E|exact Hq|exact Hb|exact Hg|]. by rewrite (pk_head _ _ Hq), (pk_head _ _ Hp), Hb.
Qed.

Section Opening.
Context (db : DB) (bl : list blk) (Hok : db_holds db bl).

Definition good (i : nat) (q : Pile) : Prop :=
  pile_ok q (chunk_of i bl) ∧ p_BeginHeight q = Z.of_nat (i * CU) ∧ p_GenHash q = db_genHash db.
Definition of_db (pm : gmap Z Pile) : Prop :=
  ∀ k q, pm !! k = Some q → ∃ i, (i < length (db_piles db))%nat ∧ k = Z.of_nat (i * CU) ∧ good i q.

Lemma load_all_run fs pm mx :
  (∀ f, f ∈ fs → ∃ i p, db_piles db !! i = Some p ∧ f = p_file p) → of_db pm → 0 ≤ mx ≤ Z.of_nat (length bl) →
  ∃ pm' mx', load_all pm mx fs = Ok (pm', mx') ∧ of_db pm' ∧ mx ≤ mx' ≤ Z.of_nat (length bl) ∧
    (∀ k, is_Some (pm !! k) → is_Some (pm' !! k)) ∧
    (∀ i p, db_piles db !! i = Some p → p_file p ∈ fs → is_Some (pm' !! Z.of_nat (i * CU)) ∧ p_HeadHeight p ≤ mx').
Proof.
  revert pm mx. induction fs as [|f fs IH]; intros pm mx Hfs Hpm Hmx; cbn [load_all].
  { exists pm, mx. split_and!; [reflexivity|exact Hpm|lia|lia|done|by intros i p _ ?%elem_of_nil]. }
  destruct (Hfs f ltac:(by left)) as (i & p & Hi & ->). destruct (dk_pile _ _ Hok i p Hi) as (Hp & Hb & Hg).
  destruct (LoadPile_ok p _ Hp) as (q & E & Hq & Hqb & Hqg & Hqh). rewrite E. cbn [mbind res_bind].
  assert (Hhd : p_HeadHeight q ≤ Z.of_nat (length bl)).
  { rewrite Hqh. destruct (db_head db bl i p Hok Hi) as [->|Hbad]; [pose proof (Nat.le_min_r (S i * CU) (length bl)); lia|].
    pose proof (lookup_lt_Some _ _ _ Hi). pose proof (dk_last _ _ Hok).
    pose proof (Nat.mul_le_mono_r i (length (db_piles db) - 1) CU ltac:(lia)). lia. }
  set (mx1 := if mx <? p_HeadHeight q then p_HeadHeight q else mx).
  assert (Hmx1 : mx ≤ mx1 ∧ p_HeadHeight q ≤ mx1 ∧ mx1 ≤ Z.of_nat (length bl)) by (unfold mx1; destruct (Z.ltb_spec mx (p_HeadHeight q)); lia).
  destruct (IH (<[p_BeginHeight q := q]> pm) mx1) as (pm' & mx' & E' & H1 & H2 & H3 & H4).
  - intros f Hf. apply Hfs. by right.
  - intros k r Hr. destruct (decide (k = p_BeginHeight q)) as [->|Hne].
    + rewrite lookup_insert_eq in Hr. injection Hr as <-. exists i. pose proof (lookup_lt_Some _ _ _ Hi).
      split; [lia|]. split; [congruence|]. split; [exact Hq|]. split; congruence.
    + rewrite lookup_insert_ne in Hr by congruence. by apply Hpm.
  - lia.
  - exists pm', mx'. split; [exact E'|]. split; [exact H1|]. split; [lia|].
    assert (Hins : ∀ k, is_Some (pm !! k) ∨ k = p_BeginHeight q → is_Some (pm' !! k)).
    { intros k Hk. apply H3. destruct (decide (k = p_BeginHeight q)) as [->|]; [rewrite lookup_insert_eq; by eexists|].
      rewrite lookup_insert_ne by congruence. by destruct Hk. }
    split; [intros k Hk; apply Hins; by left|]. intros j r Hj [Hf|Hf]%elem_of_cons; [|by apply H4].
    destruct (dk_pile _ _ Hok j r Hj) as (Hr & Hrb & _). destruct (LoadPile_ok r _ Hr) as (q2 & E2 & _ & Hb2 & _ & Hh2).
    rewrite Hf, E in E2. injection E2 as <-. split; [apply Hins; right; congruence|lia].
Qed.

Lemma collect_run pm i n :
  of_db pm → (∀ j, (i ≤ j < i + n)%nat → is_Some (pm !! Z.of_nat (j * CU))) →
  ∃ ps, collect pm (Z.of_nat i) n = Ok ps ∧ length ps = n ∧ ∀ j q, ps !! j = Some q → good (i + j) q.
Proof.
  intros Hpm. revert i. induction n as [|n IH]; intros i Hall; cbn [collect]; [by exists []|].
  destruct CU_facts as [Hc Hc0]. rewrite <- Hc, <- Nat2Z.inj_mul.
  destruct (Hall i ltac:(lia)) as [q Hq]. rewrite Hq. replace (Z.of_nat i + 1) with (Z.of_nat (S i)) by lia.
  destruct (IH (S i)) as (ps & E & Hl & Hps); [intros j Hj; apply Hall; lia|]. rewrite E. cbn [mbind res_bind mret res_ret].
  exists (q :: ps). split; [reflexivity|]. split; [cbn [length]; lia|]. intros [|j] r Hr.
  - injection Hr as <-. destruct (Hpm _ _ Hq) as (i' & _ & Hi' & Hg). rewrite Nat.add_0_r.
    assert (i' = i) as <- by (apply Nat2Z.inj, Nat.mul_cancel_r in Hi'; lia). exact Hg.
  - replace (i + S j)%nat with (S i + j)%nat by lia. by apply Hps.
Qed.

Lemma collect_S pm i n : collect pm (Z.of_nat i) (S n) =
  match pm !! Z.of_nat (i * CU) with
  | None => Err ErrMissingPile
  | Some p => ps ← collect pm (Z.of_nat (S i)) n; mret (p :: ps)
  end.
Proof.
  destruct CU_facts as [Hc _]. rewrite Nat2Z.inj_mul, Hc. replace (Z.of_nat (S i)) with (Z.of_nat i + 1) by lia. reflexivity.
Qed.

Lemma collect_missing pm i n :
  (∀ j, (i ≤ j < i + n)%nat → is_Some (pm !! Z.of_nat (j * CU))) → pm !! Z.of_nat ((i + n) * CU) = None →
  collect pm (Z.of_nat i) (S n) = Err ErrMissingPile.
Proof.
  revert i. induction n as [|n IH]; intros i Hall Hnone; rewrite collect_S.
  - rewrite Nat.add_0_r in Hnone. by rewrite Hnone.
  - destruct (Hall i ltac:(lia)) as [q Hq]. rewrite Hq, IH; [reflexivity|intros j Hj; apply Hall; lia|].
    by replace (S i + n)%nat with (i + S n)%nat by lia.
Qed.
End Opening.

(** ** Theorems *)

(** C14. The database of piles is a list of blocks.  [AppendData] of the next
    height appends a block, in a new chunk file when the last one is full; of
    any other height it is refused and changes nothing; the hash of every
    stored height and, of a block with at most 63 parts, every part and every
    range of parts is read back as it was appended; the hash of height 0 is
    the genesis hash; and data beyond the head is refused. *)
Theorem pile_db_refines db bl :
  db_ok db bl → Z.of_nat (length bl) + 2 * ChunkUnit < 2 ^ 32 →
  (∀ now b, blk_ok b → end_off (bl ++ [b]) < 2 ^ 63 →
     ∃ db', db_AppendData now (Z.of_nat (length bl) + 1) b.1 b.2 db = (Ok tt, db') ∧ db_ok db' (bl ++ [b])) ∧
  (∀ now h b, blk_ok b → h ≠ Z.of_nat (length bl) + 1 → db_AppendData now h b.1 b.2 db = (Err ErrInvalidAppendHeight, db)) ∧
  (∀ n b, bl !! n = Some b →
     (db_GetHash (Z.of_nat n + 1) db).1 = Ok b.1 ∧
     ((length b.2 ≤ 63)%nat →
      (∀ j d, b.2 !! j = Some d → (db_GetData (Z.of_nat n + 1) j db).1 = Ok d) ∧
      (∀ from count, (from + count ≤ length b.2)%nat →
         (db_GetDatas (Z.of_nat n + 1) from count db).1 = Ok (concat (take count (drop from b.2)))))) ∧
  (db_GetHash 0 db).1 = Ok (db_genHash db) ∧
  (∀ h i, Z.of_nat (length bl) < h < 2 ^ 32 → (db_GetData h i db).1 = Err ErrPileInvalidHeight).
Proof.
  intros [Hok _] Hbig. split; [|split; [|split; [|split]]].
  - intros now b Hb Hend. by apply db_append.
  - intros now h b (_ & Hb & _) Hne. destruct (db_last db bl Hok) as (p & Hl & _ & Hh). unfold db_AppendData.
    pose proof header_size as (_ & Hcu & _).
    destruct (Z.ltb_spec 255 (Z.of_nat (length b.2))); [lia|]. cbn [guard_err].
    rewrite (bind_Ok (mret tt) _ db tt db eq_refl), (bind_Ok get _ db db db eq_refl), Hl. cbn [of_option].
    rewrite (bind_Ok (lift (Ok p)) _ db p db eq_refl), Hh, (u32_small (Z.of_nat (length bl) + 1)) by (unfold is_u32; lia).
    destruct (Z.eqb_spec h (Z.of_nat (length bl) + 1)) as [?|_]; [lia|]. reflexivity.
  - intros n b Hn. exact (read_ok db bl n b Hok Hn).
  - unfold db_GetHash. rewrite (bind_Ok get _ db db db eq_refl). cbn [Z.eqb].
    pose proof (dk_some _ _ Hok) as Hs. destruct (db_piles db) as [|p ps] eqn:Ep; [cbn [length] in Hs; lia|].
    destruct (dk_pile _ _ Hok 0%nat p) as (_ & _ & Hg); [by rewrite Ep|]. rewrite <- Hg. reflexivity.
  - intros h i Hh. exact (read_beyond db bl h i Hok Hh).
Qed.

(** C13. A crash in the middle of an append loses at most the block that was
    being appended.  Let the append write its bytes in the order of the log,
    and let the crash keep any prefix of them, the last write possibly torn:
    the file that is left loads, and the loaded pile holds the old blocks or
    the old blocks and the new one. *)
Theorem pile_crash_safe sync p bl b p' k :
  pile_ok p bl → Z.of_nat (length bl) < ChunkUnit → blk_ok b → end_off (bl ++ [b]) < 2 ^ 63 →
  AppendData sync (p_HeadHeight p + 1) b.1 b.2 p = (Ok tt, p') →
  let written := drop (length (f_log (p_file p))) (f_log (p_file p')) in
  ∃ q, LoadPile (crash (p_file p) (take k written)) = Ok q ∧ p_BeginHeight q = p_BeginHeight p ∧ p_GenHash q = p_GenHash p ∧
       (pile_ok q bl ∨ pile_ok q (bl ++ [b])).
Proof.
  intros Hp Hlen Hb Hbig E written. destruct (AppendData_run sync p bl b Hp Hlen Hb Hbig) as (p2 & E2 & _ & _ & _ & _ & _ & Hlog).
  rewrite E in E2. injection E2 as <-. unfold written. rewrite Hlog, drop_app_length.
  eapply torn_recovers; [exact Hp|exact Hlen|exact Hb|exact Hbig|]. apply take_writes. done.
Qed.

(** [Open] on the files of a database, in any order, gives back its blocks,
    unless the number of blocks is a multiple of the chunk size: then the last
    chunk_of is full, the next file does not exist yet, and [Open] fails with
    [ErrMissingPile]. *)
Theorem Open_restores now db bl fs :
  db_ok db bl → bl ≠ [] → (∀ f, f ∈ fs ↔ f ∈ p_file <$> db_piles db) →
  if Z.of_nat (length bl) `mod` ChunkUnit =? 0 then Open now fs = Err ErrMissingPile
  else ∃ db', Open now fs = Ok db' ∧ db_ok db' bl.
Proof.
  intros [Hok Hst] Hne Hfs. destruct CU_facts as [Hc Hc0]. pose proof (dk_some _ _ Hok) as Hs. pose proof (dk_fits _ _ Hok) as Hf.
  pose proof (dk_last _ _ Hok) as Hla. assert (Hpos : (0 < length bl)%nat) by (destruct bl; [destruct (Hne eq_refl)|cbn [length]; lia]).
  destruct (load_all_run db bl Hok fs ∅ 0) as (pm & mx & E & Hpm & Hmx & _ & Hall).
  { intros f Hin. apply Hfs, list_elem_of_fmap in Hin as (p & -> & [i Hi]%list_elem_of_lookup). by exists i, p. }
  { intros k q Hq. by rewrite lookup_empty in Hq. } { lia. }
  assert (Hin : ∀ i p, db_piles db !! i = Some p → p_file p ∈ fs).
  { intros i p Hi. apply Hfs, list_elem_of_fmap_2. by eapply list_elem_of_lookup_2. }
  destruct (db_last db bl Hok) as (p & _ & Hi & Hh). destruct (Hall _ _ Hi (Hin _ _ Hi)) as [_ Hmx2].
  assert (mx = Z.of_nat (length bl)) as -> by lia. unfold Open. rewrite E. cbn [mbind res_bind].
  set (n := length (db_piles db)) in *. assert (Hst2 : ((n - 1) * CU < length bl)%nat) by (destruct Hst as [E1|E1]; [rewrite E1; lia|exact E1]).
  destruct (Z.ltb_spec 0 (Z.of_nat (length bl))); [|lia].
  assert (Hsome : ∀ j, (0 ≤ j < 0 + n)%nat → is_Some (pm !! Z.of_nat (j * CU))).
  { intros j Hj. destruct (lookup_lt_is_Some_2 (db_piles db) j) as [q Hq]; [fold n; lia|]. by apply (Hall j q Hq (Hin _ _ Hq)). }
  rewrite <- Hc.
  destruct (Z.eqb_spec (Z.of_nat (length bl) `mod` Z.of_nat CU) 0) as [Hm|Hm].
  - assert (Hlen : length bl = (n * CU)%nat).
    { apply Z.mod_divide in Hm as [k Hk]; [|lia].
      assert (Hlt : Z.of_nat (n - 1) * Z.of_nat CU < k * Z.of_nat CU ≤ Z.of_nat n * Z.of_nat CU) by lia.
      rewrite <- Z.mul_lt_mono_pos_r, <- Z.mul_le_mono_pos_r in Hlt by lia. assert (k = Z.of_nat n) as -> by lia. lia. }
    replace (Z.to_nat (Z.of_nat (length bl) `div` Z.of_nat CU + 1)) with (S n).
    2:{ rewrite Hlen, Nat2Z.inj_mul, Z.div_mul by lia. lia. }
    pose proof (collect_missing pm 0 n Hsome) as Em. change (Z.of_nat 0) with 0 in Em. rewrite Em; [reflexivity|]. destruct (pm !! Z.of_nat ((0 + n) * CU)) as [q|] eqn:Eq; [|reflexivity].
    destruct (Hpm _ _ Eq) as (i & Hlt & Hi' & _). fold n in Hlt. exfalso. apply Nat2Z.inj, Nat.mul_cancel_r in Hi'; lia.
  - assert (Hdiv : Z.of_nat (length bl) `div` Z.of_nat CU = Z.of_nat (n - 1)).
    { symmetry. apply (Z.div_unique_pos _ _ _ (Z.of_nat (length bl) - Z.of_nat ((n - 1) * CU))); [|lia].
      split; [lia|]. assert (length bl ≠ (n * CU)%nat).
      2:{ assert ((n * CU = (n - 1) * CU + CU)%nat) by (destruct n as [|n']; [lia|simpl; rewrite Nat.sub_0_r; lia]). lia. }
      intros El. apply Hm. rewrite El, Nat2Z.inj_mul, Z.mod_mul by lia. reflexivity. }
    rewrite Hdiv. replace (Z.to_nat (Z.of_nat (n - 1) + 1)) with n by lia.
    destruct (collect_run db bl pm 0 n Hpm Hsome) as (ps & Ec & Hl & Hps). change (Z.of_nat 0) with 0 in Ec. rewrite Ec. eexists. split; [reflexivity|].
    assert (Hhd : ∃ q ps', ps = q :: ps') by (destruct ps as [|q ps']; [cbn [length] in Hl; lia|by exists q, ps']).
    destruct Hhd as (q & ps' & Eps). destruct (Hps 0%nat q) as (_ & _ & Hg); [by rewrite Eps|].
    assert (Egen : (match ps with [] => replicate Hash256Size 0 | p :: _ => p_GenHash p end) = db_genHash db) by (by rewrite Eps).
    rewrite Egen.
    split; cbn [db_piles]; [|rewrite Hl; exact Hst].
    split; cbn [db_piles db_genHash]; rewrite ?Hl; [|lia|exact Hf|exact Hla|apply Hok].
    intros i r Hr. destruct (Hps i r Hr) as (G1 & G2 & G3). split; [exact G1|]. split; [exact G2|exact G3].
Qed.
End Layout.

Module PileExamples.
(** Data that are stored as they are. *)
#[local] Instance plain : Gzip := {| gz bs := bs; gunzip bs := Ok bs |}.
#[local] Instance plain_laws : GzipLaws plain := λ bs, eq_refl.

Definition gen0 : Hash256 := replicate 32 9.
Definition db_empty : DB := mkDB [] (replicate 32 0) true false 0.
Definition block1 : Hash256 * list bytes := (replicate 32 1, [[10; 11; 12]; [13]; []]).
Definition db0 : DB := (db_Init gen0 db_empty).2.
Definition db1 : DB := (db_AppendData 0 1 block1.1 block1.2 db0).2.
Definition pile0 : Pile := default (mkPile (mkFile ∅ 0 0 []) 0 0 []) (head (db_piles db0)).
Definition pile1 : Pile := (AppendData true 1 block1.1 block1.2 pile0).2.

Lemma gen0_ok : length gen0 = 32%nat ∧ Forall is_byte gen0.
Proof. split; [reflexivity|]. apply Forall_replicate. unfold is_byte. lia. Qed.

Lemma block1_ok : blk_ok block1.
Proof.
  split; [reflexivity|]. split; [cbn; lia|]. split; [repeat constructor|].
  apply (bool_decide_unpack _). vm_compute. exact I.
Qed.

Lemma db0_ok : db_ok db0 [].
Proof.
  destruct (Init_ok gen0 db_empty eq_refl (proj1 gen0_ok) (proj2 gen0_ok)) as (db' & E & Hok). unfold db0. rewrite E. exact Hok.
Qed.

Lemma block1_small : end_off ([] ++ [block1]) < 2 ^ 63.
Proof. vm_compute. reflexivity. Qed.

Lemma db1_ok : db_ok db1 [block1].
Proof.
  destruct (db_append 0 db0 [] block1 (proj1 db0_ok) block1_ok ltac:(vm_compute; reflexivity) block1_small) as (db' & E & Hok).
  unfold db1. change (Z.of_nat (length []) + 1) with 1 in E. rewrite E. exact Hok.
Qed.

Lemma pile_db_refines_witness :
  (db_GetHash 1 db1).1 = Ok block1.1 ∧ (db_GetData 1 1 db1).1 = Ok [13] ∧ (db_GetDatas 1 0 3 db1).1 = Ok [10; 11; 12; 13] ∧
  (db_GetData 2 0 db1).1 = Err ErrPileInvalidHeight.
Proof.
  destruct (pile_db_refines db1 [block1] db1_ok ltac:(vm_compute; reflexivity)) as (_ & _ & H3 & _ & H5).
  destruct (H3 0%nat block1 eq_refl) as [G1 G2]. destruct (G2 ltac:(cbn; lia)) as [G3 G4].
  split; [exact G1|]. split; [exact (G3 1%nat [13] eq_refl)|]. split; [exact (G4 0%nat 3%nat ltac:(cbn; lia))|].
  apply H5. split; vm_compute; reflexivity.
Defined.

Lemma pile0_ok : pile_ok pile0 [].
Proof.
  destruct (dk_pile _ _ (proj1 db0_ok) 0%nat pile0) as (Hp & _); [reflexivity|]. unfold chunk_of in Hp. by rewrite drop_nil, take_nil in Hp.
Qed.

(** A crash after 40 bytes of the append. *)
Lemma pile_crash_safe_witness :
  ∃ q, LoadPile (crash (p_file pile0) (take 40 (drop (length (f_log (p_file pile0))) (f_log (p_file pile1))))) = Ok q ∧
       p_BeginHeight q = 0 ∧ p_GenHash q = gen0 ∧ (pile_ok q [] ∨ pile_ok q [block1]).
Proof.
  apply (pile_crash_safe true pile0 [] block1 pile1 40).
  - exact pile0_ok.
  - vm_compute. reflexivity.
  - exact block1_ok.
  - exact block1_small.
  - destruct (append_ok true pile0 [] block1 pile0_ok ltac:(vm_compute; reflexivity) block1_ok block1_small) as (p' & E & _).
    change (p_HeadHeight pile0 + 1) with 1 in E |- *. unfold pile1. rewrite E. reflexivity.
Defined.

Lemma Open_restores_witness : ∃ db', Open 0 (p_file <$> db_piles db1) = Ok db' ∧ db_ok db' [block1].
Proof.
  exact (Open_restores 0 db1 [block1] (p_file <$> db_piles db1) db1_ok ltac:(discriminate) (λ f, iff_refl _)).
Defined.

(** The height after the next has a hash: the first bytes of the file. *)
Example future_height_has_hash :
  (db_GetHash 3 db1).1 = Ok (le32 1 ++ le32 1 ++ le32 1 ++ le32 0 ++ le32 5184000 ++ replicate 12 9).
Proof. vm_compute. reflexivity. Qed.

(** The length of the table of 64 parts is computed in 8 bits: nothing is read
    of it and the first part is out of range. *)
Example parts_64_lost :
  let db := (db_AppendData 0 1 (replicate 32 1) (replicate 64 [7]) db0).2 in (db_GetData 1 0 db).1 = Panic.
Proof. vm_compute. reflexivity. Qed.
End PileExamples.
