(* ===== verification/Chain.v ===== *)
(** * core/chain: executing, connecting and creating blocks

    chain.go and block_creator.go.  A block runs on a context: the hooks of
    the processes before the transactions, each transaction in a snapshot of
    its own, the hooks after them.  The creator of a block does the same one
    transaction at a time and seals the block with the hash of the context it
    ends with; whoever receives the block runs it again and compares.

    The processes, the application and the consensus are what the chain is
    given: records of the handlers the interfaces of core/types name. *)

From S2P Require Import Prelude Common Context LevelRoot Block Store.

Section Chain.
Context {A E T P CS : Type} `{AI : AccountI A} `{EI : EventI E} `{B58 : Base58} `{HF : HashFn}.
Context `{EH : !EncodingHash A E} `{SC : !StoreCodec A E T} `{PI : !PileI P} `{TC : !TxCodec T}.
Context `{TX : !TransactionI T A E} `{RC : Recover}.

Abbreviation ctxM := (M (Ctx A E)).

(** ** types.Process, chain.Consensus

    A handler gets the identifier of its context wrapper. *)
Record Process := mkProcess {
  p_ID : Z;
  p_Name : bytes;
  p_BeforeExecuteTransactions : Z → ctxM unit;
  p_AfterExecuteTransactions : Z → Block T → ctxM unit;
  p_OnSaveData : Z → Block T → ctxM unit;
}.

(** The consensus keeps a state of its own, which it updates in place:
    [cs_OnSaveData] returns it together with the error, if any. *)
Record Consensus := mkConsensus {
  cs_ValidateSignature : Header → list Signature → CS → res unit;
  cs_OnSaveData : Block T → CS → ctxM (CS * option error);
}.

Record Chain := mkChain {
  cn_isInit : bool;
  cn_app : Process;
  cn_processes : list Process;
  cn_processIDMap : gmap bytes Z;
  cn_processIndexMap : gmap Z nat;
}.

(** [NewChain] panics unless the application has the identifier 255. *)
Definition NewChain (app : Process) : res Chain :=
  if negb (p_ID app =? 255) then Panic else Ok (mkChain false app [] ∅ ∅).

Definition MustAddProcess (p : Process) (cn : Chain) : res Chain :=
  if cn_isInit cn then Panic
  else if (p_ID p =? 0) || (p_ID p =? 255) then Panic
  else if bool_decide (is_Some (cn_processIDMap cn !! p_Name p)) then Panic
  else if bool_decide (is_Some (cn_processIndexMap cn !! p_ID p)) then Panic
  else
    let idx := length (cn_processes cn) in
    Ok (mkChain (cn_isInit cn) (cn_app cn) (cn_processes cn ++ [p])
          (<[p_Name p := p_ID p]> (cn_processIDMap cn))
          (<[p_ID p := idx]> (cn_processIndexMap cn))).

(** [Process]: the index is always in range for a chain built by
    [MustAddProcess]. *)
Definition getProcess (cn : Chain) (id : Z) : res Process :=
  if id =? 255 then Ok (cn_app cn)
  else match cn_processIndexMap cn !! id with
       | None => Err ErrNotExistProcess
       | Some idx => of_option (cn_processes cn !! idx)
       end.

Definition ProcessByName (cn : Chain) (name : bytes) : res Process :=
  match cn_processIDMap cn !! name with
  | None => Err ErrNotExistProcess
  | Some id =>
      match cn_processIndexMap cn !! id with
      | None => Err ErrNotExistProcess
      | Some idx => of_option (cn_processes cn !! idx)
      end
  end.

(** [IDMap]: the index map inverted; a missing entry reads as 0. *)
Definition IDMap (cn : Chain) : gmap nat Z :=
  list_to_map ((λ e, (e.2, e.1)) <$> map_to_list (cn_processIndexMap cn)).
Definition idOf (cn : Chain) (i : nat) : Z := default 0 (IDMap cn !! i).

(** ** Hooks *)

Definition clean : ctxM unit :=
  n ← StackSize;
  guard_err (1 <? n)%nat ErrDirtyContext.

(** The hooks of the processes in order, then that of the application, each
    followed by the test that it left no snapshot open. *)
Definition run_hooks (f : Process → Z → ctxM unit) (cn : Chain) : ctxM unit :=
  for_each (λ ip, f ip.2 (idOf cn ip.1) ;; clean) (imap pair (cn_processes cn)) ;;
  f (cn_app cn) 255 ;; clean.

Definition before_hooks : Chain → ctxM unit := run_hooks p_BeforeExecuteTransactions.
Definition after_hooks (b : Block T) : Chain → ctxM unit :=
  run_hooks (λ p pid, p_AfterExecuteTransactions p pid b).
Definition save_hooks (b : Block T) : Chain → ctxM unit :=
  run_hooks (λ p pid, p_OnSaveData p pid b).

(** ** One transaction *)

(** [if err := m; err != nil { ctw.Revert(sn); return err }]. *)
Definition or_revert {V} (sn : nat) (m : ctxM V) : ctxM V :=
  r ← try m;
  match r with
  | inr e => Revert sn ;; fail e
  | inl v => mret v
  end.

(** The test that the generator still has its account. *)
Definition generator_alive (gen : Address) : ctxM unit :=
  r ← try (HasAccount gen);
  match r with
  | inr e => fail (if bool_decide (e = ErrDeletedAccount) then ErrCannotDeleteGeneratorAccount else e)
  | inl has => guard_err (negb has) ErrCannotDeleteGeneratorAccount
  end.

(** The body shared by the loop of [executeBlockOnContext] and by
    [UnsafeAddTx].  A used time slot returns without a [Revert]. *)
Definition execute_tx (gen : Address) (pid slot index : Z) (TxHash : Hash256) (tx : T)
    (signers : list PublicHash) : ctxM unit :=
  sn ← Snapshot;
  UseTimeSlot slot TxHash ;;
  or_revert sn (tx_Validate tx pid signers) ;;
  or_revert sn (tx_Execute tx pid index) ;;
  or_revert sn (generator_alive gen) ;;
  Commit sn.

(** [slot < currentSlot-1 || slot > currentSlot] on [uint32]. *)
Definition bad_slot (currentSlot slot : Z) : bool :=
  (slot <? u32 (currentSlot - 1)) || (currentSlot <? slot).

(** [uint8(t >> 8)]. *)
Definition pid_of (t : Z) : Z := u8 (Z.shiftr t 8).

(** ** validateTransactionSignatures *)

(** A provider of known signers, as the transaction pool is one: the
    signatures it has for a hash ([None] for [nil]) and their signers. *)
Definition SignerProvider : Type := Hash256 → option (list Signature) * option (list PublicHash).

Fixpoint recover_all (h : Hash256) (sigs : list Signature) : res (list PublicHash) :=
  match sigs with
  | [] => Ok []
  | sig :: sigs =>
      match recover_signer h sig with
      | None => Err (ErrExternal 1)
      | Some pubhash => hs ← recover_all h sigs; mret (pubhash :: hs)
      end
  end.

(** The signers the provider knows for exactly these signatures. *)
Definition known_signers (sp : option SignerProvider) (h : Hash256) (sigs : list Signature)
    : option (list PublicHash) :=
  match sp with
  | None => None
  | Some f =>
      match f h with
      | (Some gsg, gsn) => if bool_decide (gsg = sigs) then gsn else None
      | (None, _) => None
      end
  end.

Definition check_tx (cid : Z) (sp : option SignerProvider) (t : Z) (sigs : list Signature) (tx : T)
    : res (Hash256 * list PublicHash) :=
  TxHash ← HashTransactionByType cid t tx;
  signers ← match known_signers sp TxHash sigs with
            | Some signers => Ok signers
            | None => recover_all TxHash sigs
            end;
  mret (TxHash, signers).

(** The work of one goroutine: the transactions from index [sidx] on. *)
Fixpoint check_range (cid : Z) (sp : option SignerProvider) (b : Block T) (sidx : nat) (txs : list T)
    : res (list (Hash256 * list PublicHash)) :=
  match txs with
  | [] => Ok []
  | tx :: txs =>
      t ← of_option (TransactionTypes b !! sidx);
      sigs ← of_option (TransactionSignatures b !! sidx);
      r ← check_tx cid sp t sigs tx;
      rs ← check_range cid sp b (S sidx) txs;
      mret (r :: rs)
  end.

Definition tx_unit (n cpuCnt : nat) : nat :=
  (n / cpuCnt + if negb (n mod cpuCnt =? 0)%nat then 1 else 0)%nat.

(** The slice of worker [i]; a start beyond the end is a panic. *)
Definition chunk (txs : list T) (unit i : nat) : res (nat * list T) :=
  let lastCnt := Nat.min ((i + 1) * unit) (length txs) in
  if (lastCnt <? i * unit)%nat then Panic
  else Ok ((i * unit)%nat, take (lastCnt - i * unit) (drop (i * unit) txs)).

(** The results of the workers: a panic of any of them ends the program, an
    error of any of them is returned, which one [pick] decides (it depends on
    the schedule). *)
Fixpoint errors_of {V} (rs : list (res V)) : list error :=
  match rs with
  | [] => []
  | Err e :: rs => e :: errors_of rs
  | _ :: rs => errors_of rs
  end.
Fixpoint values_of {V} (rs : list (res V)) : list V :=
  match rs with
  | [] => []
  | Ok v :: rs => v :: values_of rs
  | _ :: rs => values_of rs
  end.
Definition is_panic {V} (r : res V) : bool := match r with Panic => true | _ => false end.

Definition join_workers {V} (pick : error → list error → error) (rs : list (res (list V))) : res (list V) :=
  if existsb is_panic rs then Panic
  else match errors_of rs with
       | e :: es => Err (pick e es)
       | [] => Ok (concat (values_of rs))
       end.

Definition check_all (cpus : nat) (pick : error → list error → error) (cid : Z)
    (sp : option SignerProvider) (b : Block T) : res (list (Hash256 * list PublicHash)) :=
  let txs := Transactions b in
  if (0 <? length txs)%nat then
    let cpuCnt := if (length txs <? 1000)%nat then 1%nat else cpus in
    let unit := tx_unit (length txs) cpuCnt in
    chunks ← mapM_res (chunk txs unit) (seq 0 cpuCnt);
    join_workers pick ((λ c, check_range cid sp b c.1 c.2) <$> chunks)
  else Ok [].

Definition validateTransactionSignatures (cpus : nat) (pick : error → list error → error) (cid : Z)
    (sp : option SignerProvider) (b : Block T) : res (list (list PublicHash) * list Hash256) :=
  rs ← check_all cpus pick cid sp b;
  h ← BuildLevelRoot (PrevHash (BHeader b) :: rs.*1);
  if negb (bool_decide (LevelRootHash (BHeader b) = h)) then Err ErrInvalidLevelRootHash
  else mret (rs.*2, rs.*1).

(** ** executeBlockOnContext *)

Definition execute_at (cn : Chain) (b : Block T) (signers : list (list PublicHash))
    (hashes : list Hash256) (i : nat) (tx : T) : ctxM unit :=
  let currentSlot := ToTimeSlot (HTimestamp (BHeader b)) in
  let slot := ToTimeSlot (tx_Timestamp tx) in
  guard_err (bad_slot currentSlot slot) ErrInvalidTransactionTimeSlot ;;
  sg ← lift (of_option (signers !! i));
  t ← lift (of_option (TransactionTypes b !! i));
  lift (getProcess cn (pid_of t)) ;;
  h ← lift (of_option (hashes !! i));
  execute_tx (Generator (BHeader b)) (pid_of t) slot (u16 (Z.of_nat i)) h tx sg.

Definition execute_txs (cn : Chain) (b : Block T) (signers : list (list PublicHash))
    (hashes : list Hash256) : ctxM unit :=
  for_each (λ it, execute_at cn b signers hashes it.1 it.2) (imap pair (Transactions b)).

Definition executeBlockOnContext (cpus : nat) (pick : error → list error → error) (cn : Chain) (cid : Z)
    (b : Block T) (sp : option SignerProvider) : ctxM unit :=
  v ← lift (validateTransactionSignatures cpus pick cid sp b);
  before_hooks cn ;;
  execute_txs cn b v.1 v.2 ;;
  clean ;;
  after_hooks b cn.

(** ** validateHeader *)

Definition validateHeader (bh : Header) (st : Store T P) : res unit :=
  '(height, lastHash) ← st_LastStatus st;
  if negb (ChainID bh =? st_chainID st) then Err ErrInvalidChainID
  else if st_version st <? Version bh then Err ErrInvalidVersion
  else if negb (bool_decide (PrevHash bh = lastHash)) then Err ErrInvalidPrevHash
  else
    ts ← st_LastTimestamp st;
    if HTimestamp bh <=? ts then Err ErrInvalidTimestamp
    else if bool_decide (Generator bh = emptyAddr) then Err ErrInvalidGenerator
    else if negb (HHeight bh =? u32 (height + 1)) then Err ErrInvalidHeight
    else if HHeight bh =? 1 then
      if Version bh <=? 0 then Err ErrInvalidVersion else mret tt
    else
      target ← st_Header height st;
      if Version bh <? Version target then Err ErrInvalidVersion
      else if negb (ChainID bh =? ChainID target) then Err ErrInvalidChainID
      else mret tt.

(** ** Connecting *)

(** A node: the store and the state of the consensus. *)
Record Node := mkNode { nd_store : Store T P; nd_cs : CS }.

(** The hash, the hooks and the top layer to store, all on the context.  What
    the consensus did to its state stays when an error follows. *)
Definition seal (cs : Consensus) (cn : Chain) (b : Block T) (s : CS) : ctxM (CS * (ContextData A E + error)) :=
  h ← Ctx_Hash;
  guard_err (negb (bool_decide (ContextHash (BHeader b) = h))) ErrInvalidContextHash ;;
  clean ;;
  save_hooks b cn ;;
  '(s, err) ← cs_OnSaveData cs b s;
  match err with
  | Some e => mret (s, inr e)
  | None =>
      n ← StackSize;
      if (1 <? n)%nat then mret (s, inr ErrDirtyContext)
      else c ← get; match stack c with top :: _ => mret (s, inl top) | [] => panic end
  end.

(** [connectBlockWithContext]; the services are told afterwards. *)
Definition connectBlockWithContext (cs : Consensus) (cn : Chain) (b : Block T) (ctx : Ctx A E) : M Node unit := λ nd,
  match (seal cs cn b (nd_cs nd) ctx).1 with
  | Ok (s, inl top) =>
      let '(r, st) := StoreBlock b top (nd_store nd) in (r, mkNode st s)
  | Ok (s, inr e) => (Err e, mkNode (nd_store nd) s)
  | Err e => (Err e, nd)
  | Panic => (Panic, nd)
  end.

(** [ConnectBlock] on an open chain. *)
Definition ConnectBlock (cpus : nat) (pick : error → list error → error) (cs : Consensus) (cn : Chain)
    (b : Block T) (sp : option SignerProvider) : M Node unit := λ nd,
  match validateHeader (BHeader b) (nd_store nd) with
  | Err e => (Err e, nd)
  | Panic => (Panic, nd)
  | Ok _ =>
      match cs_ValidateSignature cs (BHeader b) (Signatures b) (nd_cs nd) with
      | Err e => (Err e, nd)
      | Panic => (Panic, nd)
      | Ok _ =>
          let ctx := NewContext (store_loader (nd_store nd)) in
          match executeBlockOnContext cpus pick cn (st_chainID (nd_store nd)) b sp ctx with
          | (Ok _, ctx) => connectBlockWithContext cs cn b ctx nd
          | (Err e, _) => (Err e, nd)
          | (Panic, _) => (Panic, nd)
          end
      end
  end.

(** ** block_creator.go *)

Record BlockCreator := mkCreator {
  bc_ctx : Ctx A E;
  bc_txHashes : list Hash256;
  bc_b : Block T;
}.

Definition NewBlockCreator (ctx : Ctx A E) (gen : Address) (cdata : bytes) (timestamp : Z) : BlockCreator :=
  mkCreator ctx [genLastHash ctx]
    (mkBlock
       (mkHeader (ld_ChainID (loader ctx)) (ld_Version (loader ctx)) (genTargetHeight ctx) (genLastHash ctx)
          (replicate Hash256Size 0) (replicate Hash256Size 0) timestamp gen cdata)
       [] [] [] []).

(** Run on the context of the creator. *)
Definition on_ctx {V} (m : ctxM V) : M BlockCreator V := λ bc,
  let '(r, c) := m (bc_ctx bc) in (r, mkCreator c (bc_txHashes bc) (bc_b bc)).

Definition BC_Init (cn : Chain) : M BlockCreator unit := on_ctx (before_hooks cn).

(** The four appends that end [UnsafeAddTx]. *)
Definition append_tx (t : Z) (h : Hash256) (tx : T) (sigs : list Signature) (bc : BlockCreator) : BlockCreator :=
  let b := bc_b bc in
  mkCreator (bc_ctx bc) (bc_txHashes bc ++ [h])
    (mkBlock (BHeader b) (TransactionTypes b ++ [t]) (Transactions b ++ [tx])
       (TransactionSignatures b ++ [sigs]) (Signatures b)).

Definition UnsafeAddTx (cn : Chain) (gen : Address) (t : Z) (TxHash : Hash256) (tx : T)
    (sigs : list Signature) (signers : list PublicHash) : M BlockCreator unit :=
  lift (getProcess cn (pid_of t)) ;;
  bc ← get;
  let currentSlot := ToTimeSlot (HTimestamp (BHeader (bc_b bc))) in
  let slot := ToTimeSlot (tx_Timestamp tx) in
  guard_err (bad_slot currentSlot slot) ErrInvalidTransactionTimeSlot ;;
  on_ctx (execute_tx gen (pid_of t) slot (u16 (Z.of_nat (length (Transactions (bc_b bc))))) TxHash tx signers) ;;
  modify (append_tx t TxHash tx sigs).

Definition AddTx (cn : Chain) (cid : Z) (gen : Address) (tx : T) (sigs : list Signature) : M BlockCreator unit :=
  t ← lift (tx_TypeOf tx);
  TxHash ← lift (HashTransactionByType cid t tx);
  signers ← lift (recover_all TxHash sigs);
  UnsafeAddTx cn gen t TxHash tx sigs signers.

Definition set_LevelRootHash (h : Hash256) (b : Block T) : Block T :=
  let bh := BHeader b in
  mkBlock (mkHeader (ChainID bh) (Version bh) (HHeight bh) (PrevHash bh) h (ContextHash bh) (HTimestamp bh)
             (Generator bh) (ConsensusData bh))
    (TransactionTypes b) (Transactions b) (TransactionSignatures b) (Signatures b).
Definition set_ContextHash (h : Hash256) (b : Block T) : Block T :=
  let bh := BHeader b in
  mkBlock (mkHeader (ChainID bh) (Version bh) (HHeight bh) (PrevHash bh) (LevelRootHash bh) h (HTimestamp bh)
             (Generator bh) (ConsensusData bh))
    (TransactionTypes b) (Transactions b) (TransactionSignatures b) (Signatures b).
Definition modify_b (f : Block T → Block T) (bc : BlockCreator) : BlockCreator :=
  mkCreator (bc_ctx bc) (bc_txHashes bc) (f (bc_b bc)).

Definition Finalize (cn : Chain) : M BlockCreator (Block T) :=
  bc ← get;
  root ← lift (BuildLevelRoot (bc_txHashes bc));
  modify (modify_b (set_LevelRootHash root)) ;;
  on_ctx clean ;;
  bc ← get;
  on_ctx (after_hooks (bc_b bc) cn) ;;
  h ← on_ctx Ctx_Hash;
  modify (modify_b (set_ContextHash h)) ;;
  gets bc_b.

End Chain.

Arguments Process : clear implicits.
Arguments Consensus : clear implicits.
Arguments Chain : clear implicits.
Arguments Node : clear implicits.
Arguments BlockCreator : clear implicits.
