(* ===== verification/TxPool.v ===== *)
(** * core/txpool: the transaction pool

    transaction_pool.go: a queue of transactions per time slot and a map of all
    transactions by hash.  The queues are used through the [KeyedQueue]
    interface; the theorems hold for every implementation of its laws.  The
    theorems show that a queued transaction is always registered under its
    hash and sits in the queue of its own time slot, what [Pop] and [Clean]
    return, and what becomes of a transaction that is pushed again. *)

From S2P Require Import Prelude Common LinkedQueue Chain.

Section TxPool.
Context {T Q : Type} (Timestamp : T → Z).

Record PoolItem := mkItem {
  pi_TxType : Z;
  pi_TxHash : Hash256;
  pi_Transaction : T;
  pi_Signatures : list Signature;
  pi_Signers : list PublicHash;
}.

Context `{QI : KeyedQueue Hash256 PoolItem Q}.

Record TransactionPool := mkPool { tp_slotMap : gmap Z Q; tp_txhashMap : gmap Hash256 PoolItem }.
Definition NewTransactionPool : TransactionPool := mkPool ∅ ∅.

(** A queue operation on the queue of a slot: the map holds a pointer to the
    queue, so the change is one of the map's value. *)
Definition on_queue {R} (slot : Z) (q : Q) (m : M Q R) : M TransactionPool R := λ tp,
  let '(r, q') := m q in (r, mkPool (<[slot := q']> (tp_slotMap tp)) (tp_txhashMap tp)).
Definition set_txhashMap (f : gmap Hash256 PoolItem → gmap Hash256 PoolItem) : M TransactionPool unit :=
  modify (λ tp, mkPool (tp_slotMap tp) (f (tp_txhashMap tp))).

Definition IsExist (TxHash : Hash256) (tp : TransactionPool) : bool := bool_decide (is_Some (tp_txhashMap tp !! TxHash)).
Definition tp_Size (tp : TransactionPool) : nat := size (tp_txhashMap tp).

(** The result of [q.Push] is ignored by the code. *)
Definition tp_Push (t : Z) (TxHash : Hash256) (tx : T) (sigs : list Signature) (signers : list PublicHash)
    : M TransactionPool unit :=
  tp ← get;
  guard_err (IsExist TxHash tp) ErrExistTransaction ;;
  let item := mkItem t TxHash tx sigs signers in
  let slot := ToTimeSlot (Timestamp tx) in
  on_queue slot (default kq_New (tp_slotMap tp !! slot)) (kq_Push TxHash item) ;;
  set_txhashMap <[TxHash := item]>.

Definition tp_Get (TxHash : Hash256) (tp : TransactionPool) : option PoolItem := tp_txhashMap tp !! TxHash.
Definition UnsafeGetSigners (TxHash : Hash256) (tp : TransactionPool)
    : option (list Signature) * option (list PublicHash) :=
  match tp_txhashMap tp !! TxHash with
  | None => (None, None)
  | Some item => (Some (pi_Signatures item), Some (pi_Signers item))
  end.
Definition GetSigners (TxHash : Hash256) (tp : TransactionPool) := UnsafeGetSigners TxHash tp.

Definition tp_Remove (TxHash : Hash256) (tx : T) : M TransactionPool unit :=
  tp ← get;
  let slot := ToTimeSlot (Timestamp tx) in
  match tp_slotMap tp !! slot with
  | Some q => on_queue slot q (kq_Remove TxHash) ;; set_txhashMap (delete TxHash)
  | None => mret tt
  end.

(** One iteration of the second loop of [Clean]. *)
Definition clean_slot (r : list T * TransactionPool) (v : Z) : list T * TransactionPool :=
  let '(items, tp) := r in
  match tp_slotMap tp !! v with
  | Some q =>
      let l := kq_Iter q in
      (items ++ (pi_Transaction ∘ snd <$> l),
       mkPool (delete v (tp_slotMap tp)) (foldl (λ m e, delete e.1 m) (tp_txhashMap tp) l))
  | None => (items, tp)
  end.
(** [order] is the order in which the [range] over the map gives the slots. *)
Definition Clean (order : list Z) (currentSlot : Z) (tp : TransactionPool) : list T * TransactionPool :=
  let deletes := filter (λ slot, slot < u32 (currentSlot - 1)) order in
  foldl clean_slot ([], tp) deletes.

Definition UnsafePop (currentSlot : Z) : M TransactionPool (option PoolItem) :=
  tp ← get;
  match tp_slotMap tp !! u32 (currentSlot - 1) with
  | Some q => on_queue (u32 (currentSlot - 1)) q kq_Pop
  | None =>
      match tp_slotMap tp !! currentSlot with
      | Some q => on_queue currentSlot q kq_Pop
      | None => mret None
      end
  end.
Definition tp_Pop (currentSlot : Z) : M TransactionPool (option PoolItem) := UnsafePop currentSlot.

(** [order] is the order in which the [range] over the map gives the hashes. *)
Definition tp_List (order : list Hash256) (tp : TransactionPool) : list PoolItem :=
  omap (λ h, tp_txhashMap tp !! h) order.

(** The transactions that wait in a slot, in order. *)
Definition pending (slot : Z) (tp : TransactionPool) : list (Hash256 * PoolItem) :=
  from_option kq_Iter [] (tp_slotMap tp !! slot).

(** ** The invariant *)

Context `{!KeyedQueueLaws Hash256 PoolItem Q}.

Definition slot_of (item : PoolItem) : Z := ToTimeSlot (Timestamp (pi_Transaction item)).

(** What the queue of a slot holds is registered, under its own hash, and
    belongs to the slot. *)
Definition entry_ok (reg : gmap Hash256 PoolItem) (slot : Z) (e : Hash256 * PoolItem) : Prop :=
  pi_TxHash e.2 = e.1 ∧ slot_of e.2 = slot ∧ reg !! e.1 = Some e.2.
Definition tp_ok (tp : TransactionPool) : Prop :=
  ∀ slot q, tp_slotMap tp !! slot = Some q → ∃ a, kq_rep q a ∧ Forall (entry_ok (tp_txhashMap tp) slot) (aq_items a).

Lemma New_ok : tp_ok NewTransactionPool.
Proof. intros slot q Hq. cbn [NewTransactionPool tp_slotMap] in Hq. by rewrite lookup_empty in Hq. Qed.

Lemma pending_rep tp slot q a : tp_slotMap tp !! slot = Some q → kq_rep q a → pending slot tp = aq_items a.
Proof. intros Hs Hq. unfold pending. rewrite Hs. by apply kq_Iter_rep. Qed.

(** The queue that an operation on a slot starts from. *)
Lemma slot_rep tp slot : tp_ok tp →
  ∃ a, kq_rep (default kq_New (tp_slotMap tp !! slot)) a ∧ Forall (entry_ok (tp_txhashMap tp) slot) (aq_items a) ∧
       pending slot tp = aq_items a.
Proof.
  intros Hok. destruct (tp_slotMap tp !! slot) as [q|] eqn:Hs; cbn.
  - destruct (Hok slot q Hs) as (a & Hq & Ha). exists a. split_and!; [done|done|by eapply pending_rep].
  - exists (mkAbsq [] ∅). split_and!; [apply kq_New_rep|constructor|]. unfold pending. by rewrite Hs.
Qed.

(** A pool in which one queue was replaced. *)
Lemma replace_ok tp slot q a reg :
  tp_ok tp → kq_rep q a → Forall (entry_ok reg slot) (aq_items a) →
  (∀ s e, s ≠ slot → entry_ok (tp_txhashMap tp) s e → entry_ok reg s e) →
  tp_ok (mkPool (<[slot := q]> (tp_slotMap tp)) reg).
Proof.
  intros Hok Hq Ha Hreg s q' Hs. cbn in *. destruct (decide (s = slot)) as [->|Hne].
  - rewrite lookup_insert_eq in Hs. injection Hs as <-. by exists a.
  - rewrite lookup_insert_ne in Hs by done. destruct (Hok s q' Hs) as (a' & Hq' & Ha'). exists a'. split; [done|].
    eapply Forall_impl; [exact Ha'|]. intros e. by apply Hreg.
Qed.

Lemma pending_replaced tp slot q a reg s :
  kq_rep q a → pending s (mkPool (<[slot := q]> (tp_slotMap tp)) reg) = if decide (s = slot) then aq_items a else pending s tp.
Proof.
  intros Hq. unfold pending. cbn. case_decide as Hs; [subst|by rewrite lookup_insert_ne by done].
  rewrite lookup_insert_eq. by apply kq_Iter_rep.
Qed.

(** ** Push *)

Lemma Push_known t h tx sigs signers tp :
  IsExist h tp = true → tp_Push t h tx sigs signers tp = (Err ErrExistTransaction, tp).
Proof. intros He. unfold tp_Push. erewrite bind_Ok by reflexivity. by rewrite He. Qed.

Lemma Push_new t h tx sigs signers tp :
  tp_ok tp → IsExist h tp = false →
  let item := mkItem t h tx sigs signers in
  ∃ tp', tp_Push t h tx sigs signers tp = (Ok tt, tp') ∧ tp_ok tp' ∧ tp_txhashMap tp' = <[h := item]> (tp_txhashMap tp) ∧
    (∀ slot, slot ≠ slot_of item → pending slot tp' = pending slot tp) ∧
    (∀ a, kq_rep (default kq_New (tp_slotMap tp !! slot_of item)) a →
       pending (slot_of item) tp' = pending (slot_of item) tp ++ (if occupied h a then [] else [(h, item)])).
Proof.
  intros Hok He item. unfold tp_Push. erewrite bind_Ok by reflexivity. rewrite He. cbn [guard_err].
  erewrite bind_Ok by reflexivity. fold item. change (ToTimeSlot (Timestamp tx)) with (slot_of item).
  destruct (slot_rep tp (slot_of item) Hok) as (a & Hq & Ha & Hp).
  destruct (kq_Push_rep _ a h item Hq) as (q' & E & Hq').
  erewrite bind_Ok by (unfold on_queue; rewrite E; reflexivity). unfold set_txhashMap, modify. cbn [tp_slotMap tp_txhashMap].
  assert (Hreg : ∀ s e, entry_ok (tp_txhashMap tp) s e → entry_ok (<[h := item]> (tp_txhashMap tp)) s e).
  { intros s e (H1 & H2 & H3). split_and!; [done|done|]. rewrite lookup_insert_ne; [done|]. intros Hh.
    unfold IsExist in He. rewrite Hh, H3, bool_decide_eq_true_2 in He; [done|by eexists]. }
  eexists. split; [reflexivity|]. split_and!.
  - eapply replace_ok; [done|exact Hq'| |by intros s e _; apply Hreg]. unfold spec_Push.
    assert (Hold : Forall (entry_ok (<[h := item]> (tp_txhashMap tp)) (slot_of item)) (aq_items a)).
    { eapply Forall_impl; [exact Ha|]. apply Hreg. }
    destruct (occupied h a); [done|]. apply Forall_app_2; [done|]. apply Forall_singleton. split_and!; [done|done|].
    by rewrite lookup_insert_eq.
  - done.
  - intros slot Hne. rewrite (pending_replaced _ _ _ _ _ _ Hq'). by rewrite decide_False.
  - intros a2 Hq2. destruct (kq_Push_rep _ a2 h item Hq2) as (q2 & E2 & Hq2'). rewrite E2 in E. injection E as _ ->.
    rewrite (pending_replaced _ _ _ _ _ _ Hq2'), decide_True by done.
    rewrite Hp, <- (kq_Iter_rep _ _ Hq), (kq_Iter_rep _ _ Hq2).
    unfold spec_Push. destruct (occupied h a2); cbn; [by rewrite app_nil_r|done].
Qed.

(** ** Pop *)

(** The slot that [Pop] looks at: the previous one when it has a queue, even an
    empty one. *)
Definition pop_slot (currentSlot : Z) (tp : TransactionPool) : Z :=
  if tp_slotMap tp !! u32 (currentSlot - 1) then u32 (currentSlot - 1) else currentSlot.

Lemma UnsafePop_spec c tp :
  tp_ok tp →
  ∃ tp', UnsafePop c tp = (Ok (snd <$> head (pending (pop_slot c tp) tp)), tp') ∧ tp_ok tp' ∧
    tp_txhashMap tp' = tp_txhashMap tp ∧ dom (tp_slotMap tp') = dom (tp_slotMap tp) ∧
    pending (pop_slot c tp) tp' = tail (pending (pop_slot c tp) tp) ∧
    (∀ slot, slot ≠ pop_slot c tp → pending slot tp' = pending slot tp).
Proof.
  intros Hok.
  assert (Hgen : ∀ s q, tp_slotMap tp !! s = Some q →
    ∃ tp', on_queue s q kq_Pop tp = (Ok (snd <$> head (pending s tp)), tp') ∧ tp_ok tp' ∧
      tp_txhashMap tp' = tp_txhashMap tp ∧ dom (tp_slotMap tp') = dom (tp_slotMap tp) ∧
      pending s tp' = tail (pending s tp) ∧ (∀ slot, slot ≠ s → pending slot tp' = pending slot tp)).
  { intros s q Hs. destruct (Hok s q Hs) as (a & Hq & Ha). rewrite (pending_rep tp s q a Hs Hq).
    destruct (kq_Pop_rep q a Hq) as (q' & E & Hq'). unfold on_queue. rewrite E.
    assert (Hres : (spec_Pop a).1 = snd <$> head (aq_items a) ∧ aq_items (spec_Pop a).2 = tail (aq_items a)).
    { unfold spec_Pop. destruct (aq_items a) as [|[k v] l] eqn:El; [|done]. split; [done|]. cbn. by rewrite El. }
    destruct Hres as [-> Hit]. eexists. split; [done|]. split_and!.
    - eapply replace_ok; [done|exact Hq'| |done]. rewrite Hit. destruct (aq_items a); [done|by apply Forall_inv_tail in Ha].
    - done.
    - cbn. rewrite dom_insert_L. apply subseteq_union_1_L. apply singleton_subseteq_l, elem_of_dom. by eexists.
    - rewrite (pending_replaced _ _ _ _ _ _ Hq'). by rewrite decide_True.
    - intros slot Hne. rewrite (pending_replaced _ _ _ _ _ _ Hq'). by rewrite decide_False. }
  unfold UnsafePop, pop_slot. erewrite bind_Ok by reflexivity.
  destruct (tp_slotMap tp !! u32 (c - 1)) as [q|] eqn:H1; [by apply Hgen|].
  destruct (tp_slotMap tp !! c) as [q|] eqn:H2; [by apply Hgen|].
  exists tp. unfold pending at 1 3 4. rewrite H2. split_and!; try done. unfold pending. by rewrite H2.
Qed.

(** ** Remove *)

Lemma spec_Remove_items (k : Hash256) (a : absq Hash256 PoolItem) :
  aq_items (spec_Remove k a).2 = filter (λ e, e.1 ≠ k) (aq_items a).
Proof.
  unfold spec_Remove. destruct (aq_items a) as [|e l] eqn:El; [cbn [snd]; by rewrite El|].
  destruct (key_of k (e :: l)) as [v|] eqn:Ek; [done|]. cbn [snd]. rewrite El. symmetry. apply filter_all.
  apply Forall_forall. intros d Hd Hk. apply (key_of_None _ _ Ek). rewrite <- Hk. by apply list_elem_of_fmap_2.
Qed.

(** The caller removes the transaction that the pool has under the hash. *)
Definition same_tx (h : Hash256) (tx : T) (tp : TransactionPool) : Prop :=
  ∀ item, tp_txhashMap tp !! h = Some item → pi_Transaction item = tx.

Lemma Remove_present h tx tp q a :
  tp_ok tp → same_tx h tx tp → tp_slotMap tp !! ToTimeSlot (Timestamp tx) = Some q → kq_rep q a →
  ∃ q', kq_rep q' (spec_Remove h a).2 ∧
    tp_Remove h tx tp = (Ok tt, mkPool (<[ToTimeSlot (Timestamp tx) := q']> (tp_slotMap tp)) (delete h (tp_txhashMap tp))) ∧
    tp_ok (mkPool (<[ToTimeSlot (Timestamp tx) := q']> (tp_slotMap tp)) (delete h (tp_txhashMap tp))).
Proof.
  intros Hok Htx Hs Hq. destruct (kq_Remove_rep q a h Hq) as (q' & E & Hq'). exists q'. split; [done|]. split.
  { unfold tp_Remove. erewrite bind_Ok by reflexivity. rewrite Hs.
    erewrite bind_Ok by (unfold on_queue; rewrite E; reflexivity). done. }
  assert (Hreg : ∀ s e, e.1 ≠ h → entry_ok (tp_txhashMap tp) s e → entry_ok (delete h (tp_txhashMap tp)) s e).
  { intros s e Hne (H1 & H2 & H3). split_and!; [done|done|]. by rewrite lookup_delete_ne. }
  eapply replace_ok; [done|exact Hq'|..].
  - rewrite spec_Remove_items. apply Forall_forall. intros e [Hne He]%list_elem_of_filter. apply Hreg; [done|].
    pose proof (Hok _ q Hs) as (a' & Hq2 & Ha'). rewrite Forall_forall in Ha'. apply Ha'.
    by rewrite <- (kq_Iter_rep q a' Hq2), (kq_Iter_rep q a Hq).
  - intros s e Hne He. apply Hreg; [|done]. intros Hh. destruct He as (_ & H2 & H3). rewrite Hh in H3.
    apply Hne. rewrite <- H2. unfold slot_of. by rewrite (Htx _ H3).
Qed.

Lemma Remove_ok h tx tp : tp_ok tp → same_tx h tx tp → ∃ tp', tp_Remove h tx tp = (Ok tt, tp') ∧ tp_ok tp'.
Proof.
  intros Hok Htx. destruct (tp_slotMap tp !! ToTimeSlot (Timestamp tx)) as [q|] eqn:Hs.
  - destruct (Hok _ q Hs) as (a & Hq & _). destruct (Remove_present h tx tp q a) as (q' & _ & E & H2); [done..|]. by eexists.
  - exists tp. split; [|done]. unfold tp_Remove. erewrite bind_Ok by reflexivity. by rewrite Hs.
Qed.

(** ** Clean *)

Lemma foldl_delete (l : list (Hash256 * PoolItem)) (m : gmap Hash256 PoolItem) h :
  foldl (λ m e, delete e.1 m) m l !! h = if decide (h ∈ l.*1) then None else m !! h.
Proof.
  revert m. induction l as [|e l IH]; intros m; cbn [foldl fmap list_fmap].
  { by rewrite decide_False by apply not_elem_of_nil. }
  rewrite IH. destruct (decide (h ∈ l.*1)) as [Hin|Hnin]; [by rewrite decide_True by (by right)|].
  destruct (decide (h = e.1)) as [->|Hne].
  - rewrite decide_True by (by left). apply lookup_delete_eq.
  - rewrite decide_False by (by intros [?|?]%elem_of_cons). by apply lookup_delete_ne.
Qed.

Lemma pending_entry tp slot e : tp_ok tp → e ∈ pending slot tp → entry_ok (tp_txhashMap tp) slot e.
Proof.
  intros Hok. destruct (slot_rep tp slot Hok) as (a & _ & Ha & ->). rewrite Forall_forall in Ha. apply Ha.
Qed.

Lemma clean_slot_spec items tp v :
  tp_ok tp →
  ∃ tp', clean_slot (items, tp) v = (items ++ (pi_Transaction ∘ snd <$> pending v tp), tp') ∧ tp_ok tp' ∧
    tp_slotMap tp' = delete v (tp_slotMap tp) ∧
    (∀ h, tp_txhashMap tp' !! h = if decide (h ∈ (pending v tp).*1) then None else tp_txhashMap tp !! h).
Proof.
  intros Hok. unfold clean_slot. destruct (tp_slotMap tp !! v) as [q|] eqn:Hs.
  - assert (Hp : pending v tp = kq_Iter q) by (unfold pending; by rewrite Hs). rewrite <- Hp.
    eexists. split; [done|]. split_and!; [|done|intros h; apply foldl_delete].
    intros s q' Hs'. cbn in Hs'. apply lookup_delete_Some in Hs' as [Hne Hs'].
    destruct (Hok s q' Hs') as (a & Hq & Ha). exists a. split; [done|]. eapply Forall_impl; [exact Ha|].
    intros e (H1 & H2 & H3). split_and!; [done|done|]. cbn. rewrite foldl_delete, decide_False; [done|].
    intros ([k d] & E & Hd)%list_elem_of_fmap. cbn in E. subst k.
    destruct (pending_entry tp v _ Hok Hd) as (_ & H5 & H6). cbn in *. apply Hne. congruence.
  - assert (Hp : pending v tp = []) by (unfold pending; by rewrite Hs). rewrite Hp. exists tp. cbn. rewrite app_nil_r.
    split_and!; [done|done|by rewrite delete_id|]. intros h. by rewrite decide_False by apply not_elem_of_nil.
Qed.

Lemma foldl_clean items tp ds :
  tp_ok tp → NoDup ds →
  ∃ tp', foldl clean_slot (items, tp) ds = (items ++ (ds ≫= λ v, pi_Transaction ∘ snd <$> pending v tp), tp') ∧ tp_ok tp' ∧
    (∀ s, tp_slotMap tp' !! s = if decide (s ∈ ds) then None else tp_slotMap tp !! s) ∧
    (∀ h, tp_txhashMap tp' !! h =
       if decide (h ∈ ds ≫= λ v, (pending v tp).*1) then None else tp_txhashMap tp !! h).
Proof.
  revert items tp. induction ds as [|v ds IH]; intros items tp Hok Hn; cbn [foldl].
  { exists tp. cbn. rewrite app_nil_r. split_and!; [done|done|..]; intros; by rewrite decide_False by apply not_elem_of_nil. }
  apply NoDup_cons in Hn as [Hv Hn]. destruct (clean_slot_spec items tp v Hok) as (tp1 & E1 & Hok1 & Hs1 & Ht1). rewrite E1.
  destruct (IH (items ++ (pi_Transaction ∘ snd <$> pending v tp)) tp1 Hok1 Hn) as (tp2 & E2 & Hok2 & Hs2 & Ht2).
  assert (Hpen : ∀ s, s ∈ ds → pending s tp1 = pending s tp).
  { intros s Hs. unfold pending. rewrite Hs1, lookup_delete_ne; [done|]. by intros ->. }
  assert (Hb : ∀ {B} (f : list (Hash256 * PoolItem) → list B), (ds ≫= λ v, f (pending v tp1)) = ds ≫= λ v, f (pending v tp)).
  { intros B f. clear - Hpen. induction ds as [|s ds IH]; [done|]. rewrite !bind_cons, Hpen by (by left). f_equal.
    apply IH. intros s' Hs'. apply Hpen. by right. }
  exists tp2. rewrite E2, bind_cons, app_assoc. split_and!.
  - f_equal. f_equal. apply (Hb _ (λ l, pi_Transaction ∘ snd <$> l)).
  - done.
  - intros s. rewrite Hs2, Hs1. destruct (decide (s ∈ ds)) as [?|?]; [by rewrite decide_True by (by right)|].
    destruct (decide (s = v)) as [->|Hne]; [rewrite decide_True by (by left); apply lookup_delete_eq|].
    rewrite decide_False by (by intros [?|?]%elem_of_cons). by apply lookup_delete_ne.
  - intros h. rewrite Ht2, Ht1, (Hb _ (λ l, l.*1)), bind_cons.
    destruct (decide (h ∈ ds ≫= _)) as [H1|H1]; [rewrite decide_True by (apply elem_of_app; by right); done|].
    destruct (decide (h ∈ (pending v tp).*1)) as [H2|H2]; [rewrite decide_True by (apply elem_of_app; by left); done|].
    rewrite decide_False; [done|]. by intros [?|?]%elem_of_app.
Qed.

(** ** Theorems *)

(** One call on the pool.  [Remove] is called with the transaction of the
    hash, [Clean] ranges over the slots in some order. *)
Inductive tp_step : TransactionPool → TransactionPool → Prop :=
  | tp_step_Push t h tx sigs signers tp : tp_step tp (tp_Push t h tx sigs signers tp).2
  | tp_step_Pop c tp : tp_step tp (UnsafePop c tp).2
  | tp_step_Remove h tx tp : same_tx h tx tp → tp_step tp (tp_Remove h tx tp).2
  | tp_step_Clean order c tp : NoDup order → tp_step tp (Clean order c tp).2.

Lemma step_ok tp tp' : tp_ok tp → tp_step tp tp' → tp_ok tp'.
Proof.
  intros Hok Hs. destruct Hs as [t h tx sigs signers tp0|c tp0|h tx tp0 Htx|order c tp0 Hn].
  - destruct (IsExist h tp0) eqn:He; [rewrite (Push_known _ _ _ _ _ _ He); done|].
    destruct (Push_new t h tx sigs signers tp0 Hok He) as (tp1 & -> & H1 & _). done.
  - destruct (UnsafePop_spec c tp0 Hok) as (tp1 & -> & H1 & _). done.
  - destruct (Remove_ok h tx tp0 Hok Htx) as (tp1 & -> & H1). done.
  - destruct (foldl_clean [] tp0 _ Hok (NoDup_filter (λ slot, slot < u32 (c - 1)) _ Hn)) as (tp1 & E & H1 & _).
    unfold Clean. rewrite E. done.
Qed.

Lemma reachable_ok tp : rtc tp_step NewTransactionPool tp → tp_ok tp.
Proof.
  intros Hr. assert (H0 : tp_ok NewTransactionPool) by apply New_ok. revert H0.
  induction Hr as [|x y z Hxy _ IH]; [done|]. intros Hx. apply IH. by eapply step_ok.
Qed.

(** C32. In every pool that calls can produce, a transaction that waits in the
    queue of a slot is registered under its hash, belongs to that time slot,
    and waits there only once; and no call of [Push] or [Pop] panics. *)
Theorem txpool_invariant tp :
  rtc tp_step NewTransactionPool tp →
  (∀ slot h item, (h, item) ∈ pending slot tp →
     pi_TxHash item = h ∧ slot_of item = slot ∧ tp_Get h tp = Some item) ∧
  (∀ slot, NoDup (pending slot tp).*1) ∧
  (∀ t h tx sigs signers, (tp_Push t h tx sigs signers tp).1 = if IsExist h tp then Err ErrExistTransaction else Ok tt) ∧
  (∀ c, ∃ r, (tp_Pop c tp).1 = Ok r).
Proof.
  intros Hok%reachable_ok. split_and!.
  - intros slot h item Hin. exact (pending_entry tp slot _ Hok Hin).
  - intros slot. destruct (slot_rep tp slot Hok) as (a & Hq & _ & ->). by destruct (kq_keys _ _ Hq).
  - intros t h tx sigs signers. destruct (IsExist h tp) eqn:He; [rewrite (Push_known _ _ _ _ _ _ He); done|].
    destruct (Push_new t h tx sigs signers tp Hok He) as (tp1 & -> & _). done.
  - intros c. unfold tp_Pop. destruct (UnsafePop_spec c tp Hok) as (tp1 & -> & _). by eexists.
Qed.

(** [Pop] gives the transaction that has waited longest in the slot it
    looks at, removes it from the queue and leaves every other queue and the
    registrations as they are; the slot is the previous one whenever that slot
    has a queue, so that while this queue is empty the transactions of the
    current slot are not given out.  A transaction that [Pop] gives passes the
    time slot check with which the block creator and the block execution
    refuse a transaction. *)
Theorem txpool_pop c tp :
  tp_ok tp → 0 < c < 2 ^ 32 →
  let slot := if tp_slotMap tp !! (c - 1) then c - 1 else c in
  ∃ tp', tp_Pop c tp = (Ok (snd <$> head (pending slot tp)), tp') ∧ tp_ok tp' ∧
    pending slot tp' = tail (pending slot tp) ∧ (∀ s, s ≠ slot → pending s tp' = pending s tp) ∧
    tp_txhashMap tp' = tp_txhashMap tp ∧
    (∀ item, snd <$> head (pending slot tp) = Some item → bad_slot c (slot_of item) = false).
Proof.
  intros Hok Hc slot. destruct (UnsafePop_spec c tp Hok) as (tp' & E & H1 & H2 & _ & H4 & H5).
  assert (Eu : u32 (c - 1) = c - 1) by (apply Z.mod_small; lia).
  unfold pop_slot in *. rewrite Eu in *. fold slot in E, H4, H5. exists tp'. split_and!; try done.
  intros item Hi. destruct (pending slot tp) as [|[h it] l] eqn:Ep; [done|]. injection Hi as ->.
  destruct (pending_entry tp slot (h, item) Hok) as (_ & Hs & _); [rewrite Ep; by left|]. cbn in Hs. rewrite Hs.
  unfold bad_slot. rewrite Eu. unfold slot. destruct (tp_slotMap tp !! (c - 1)); lia.
Qed.

(** [Clean] drops exactly the queues of the slots before the previous one:
    it returns their transactions in order, forgets their hashes, and leaves
    every other queue and registration as it is.  A transaction that was given
    out by [Pop] waits in no queue, so it is not forgotten: it stays
    registered after its slot is gone. *)
Theorem txpool_clean order c tp :
  tp_ok tp → 0 < c < 2 ^ 32 → NoDup order → (∀ s, is_Some (tp_slotMap tp !! s) → s ∈ order) →
  let old := filter (λ s, s < c - 1) order in
  let r := Clean order c tp in
  r.1 = (old ≫= λ s, pi_Transaction ∘ snd <$> pending s tp) ∧ tp_ok r.2 ∧
  (∀ s, pending s r.2 = if decide (s < c - 1) then [] else pending s tp) ∧
  (∀ h, tp_Get h r.2 =
     if decide (h ∈ old ≫= λ s, (pending s tp).*1) then None else tp_Get h tp).
Proof.
  intros Hok Hc Hn Hall old r. assert (Eu : u32 (c - 1) = c - 1) by (apply Z.mod_small; lia).
  destruct (foldl_clean [] tp old Hok (NoDup_filter _ _ Hn)) as (tp' & E & H1 & H2 & H3).
  assert (Er : r = (old ≫= (λ s, pi_Transaction ∘ snd <$> pending s tp), tp')).
  { unfold r, Clean. rewrite Eu. exact E. }
  rewrite Er. cbn [fst snd]. split_and!; [done|done| |done].
  intros s. unfold pending at 1. rewrite H2. destruct (decide (s ∈ old)) as [Hs|Hs].
  - apply list_elem_of_filter in Hs as [Hs _]. by rewrite decide_True.
  - unfold pending. case_decide as Hlt; [|done]. destruct (tp_slotMap tp !! s) eqn:Es; [|done].
    exfalso. apply Hs, list_elem_of_filter. split; [done|]. apply Hall. by eexists.
Qed.

(** A transaction that is removed from the pool while it waits, and then
    pushed again, is lost: [Push] reports success and the hash is registered,
    so that later pushes are refused, but the queue refused the key and the
    transaction waits in no slot. *)
Theorem repush_lost tp h item t sigs signers :
  tp_ok tp → (h, item) ∈ pending (slot_of item) tp →
  ∃ tp1 tp2, tp_Remove h (pi_Transaction item) tp = (Ok tt, tp1) ∧
    tp_Push t h (pi_Transaction item) sigs signers tp1 = (Ok tt, tp2) ∧
    IsExist h tp2 = true ∧ ∀ slot, h ∉ (pending slot tp2).*1.
Proof.
  intros Hok Hin. pose proof (pending_entry tp _ _ Hok Hin) as (_ & _ & Hreg). cbn in Hreg.
  assert (Hs : ∃ q, tp_slotMap tp !! slot_of item = Some q).
  { unfold pending in Hin. destruct (tp_slotMap tp !! slot_of item); [by eexists|by apply elem_of_nil in Hin]. }
  destruct Hs as [q Hs]. destruct (Hok _ q Hs) as (a & Hq & Ha). rewrite (pending_rep tp _ q a Hs Hq) in Hin.
  assert (Htx : same_tx h (pi_Transaction item) tp) by (intros i Hi; congruence).
  destruct (Remove_present h (pi_Transaction item) tp q a Hok Htx Hs Hq) as (q' & Hq' & E1 & Hok1).
  fold (slot_of item) in E1, Hok1. set (tp1 := mkPool _ _) in E1, Hok1.
  assert (He1 : IsExist h tp1 = false).
  { unfold IsExist, tp1. cbn. rewrite lookup_delete_eq. by apply bool_decide_eq_false_2; intros [? ?]. }
  destruct (Push_new t h (pi_Transaction item) sigs signers tp1 Hok1 He1) as (tp2 & E2 & Hok2 & Hr2 & Hoth & Hnew).
  exists tp1, tp2. split_and!; [done|done| |].
  { unfold IsExist. rewrite Hr2, lookup_insert_eq. by apply bool_decide_eq_true_2. }
  set (item' := mkItem t h (pi_Transaction item) sigs signers) in *.
  assert (Eslot : slot_of item' = slot_of item) by done. rewrite Eslot in *.
  assert (Hp1 : pending (slot_of item) tp1 = filter (λ e, e.1 ≠ h) (aq_items a)).
  { unfold tp1. rewrite (pending_replaced _ _ _ _ _ _ Hq'), decide_True by done. apply spec_Remove_items. }
  assert (Hocc : occupied h (spec_Remove h a).2 = true).
  { unfold occupied, spec_Remove. destruct (aq_items a) as [|e l] eqn:El; [by apply elem_of_nil in Hin|].
    destruct (key_of h (e :: l)) eqn:Ek; [|exfalso; apply (key_of_None _ _ Ek); by apply (list_elem_of_fmap_2 fst) in Hin].
    cbn [snd aq_removed]. rewrite lookup_insert_eq, orb_true_iff. right. by apply bool_decide_eq_true_2. }
  intros slot Hh. destruct (decide (slot = slot_of item)) as [->|Hne].
  - rewrite (Hnew (spec_Remove h a).2), Hocc, app_nil_r, Hp1 in Hh.
    2:{ unfold tp1. cbn. by rewrite lookup_insert_eq. }
    apply list_elem_of_fmap in Hh as (e & -> & [Hc _]%list_elem_of_filter). done.
  - rewrite Hoth in Hh by done. apply list_elem_of_fmap in Hh as (e & -> & He).
    pose proof (pending_entry tp1 slot e Hok1 He) as (_ & _ & Hr). unfold tp1 in Hr. cbn in Hr. by rewrite lookup_delete_eq in Hr.
Qed.
End TxPool.

Module TxPoolExamples.
(** Transactions are pairs of a timestamp and a number; a time slot has
    5,000,000,000 units of time. *)
Definition Tx : Type := Z * Z.
Definition stamp (tx : Tx) : Z := tx.1.
Definition hash_of (i : Z) : Hash256 := replicate 32 i.
Definition tx_at (slot i : Z) : Tx := (slot * 5000000000 + i, i).
Abbreviation pool := (@TransactionPool Tx (LinkedQueue Hash256 (@PoolItem Tx))).
Definition add (slot i : Z) (tp : pool) : pool := (tp_Push stamp 0 (hash_of i) (tx_at slot i) [] [] tp).2.

(** Two transactions of slot 6 and one of slot 7. *)
Definition pool3 : pool := add 7 3 (add 6 2 (add 6 1 NewTransactionPool)).
(** The transactions of slot 6 were given out. *)
Definition pool1 : pool := (tp_Pop 7 (tp_Pop 7 pool3).2).2.
Definition waiting (slot : Z) (tp : pool) : list Tx := pi_Transaction ∘ snd <$> pending slot tp.

Lemma pool3_reachable : rtc (tp_step stamp) NewTransactionPool pool3.
Proof. unfold pool3, add. do 3 (eapply rtc_r; [|apply tp_step_Push]). apply rtc_refl. Qed.

Lemma pool1_reachable : rtc (tp_step stamp) NewTransactionPool pool1.
Proof. unfold pool1. do 2 (eapply rtc_r; [|apply tp_step_Pop]). apply pool3_reachable. Qed.

Lemma txpool_invariant_witness :
  NoDup (pending 6 pool3).*1 ∧ (tp_Push stamp 0 (hash_of 1) (tx_at 6 1) [] [] pool3).1 = Err ErrExistTransaction.
Proof.
  destruct (txpool_invariant stamp pool3 pool3_reachable) as (_ & H2 & H3 & _). split; [apply H2|].
  rewrite H3. replace (IsExist (hash_of 1) pool3) with true by (vm_compute; reflexivity). reflexivity.
Defined.

Lemma txpool_pop_witness : ∃ tp', tp_Pop 7 pool3 = (Ok (snd <$> head (pending 6 pool3)), tp').
Proof.
  destruct (txpool_pop stamp 7 pool3 (reachable_ok _ _ pool3_reachable) ltac:(lia)) as (tp' & E & _).
  exists tp'. exact E.
Defined.

Lemma txpool_clean_witness :
  (Clean [6; 7] 8 pool3).1 = [tx_at 6 1; tx_at 6 2] ∧ tp_Get (hash_of 1) (Clean [6; 7] 8 pool3).2 = None.
Proof.
  destruct (txpool_clean stamp [6; 7] 8 pool3 (reachable_ok _ _ pool3_reachable)) as (H1 & _ & _ & H4).
  - lia.
  - apply (bool_decide_unpack _). vm_compute. exact I.
  - intros s [q Hq%elem_of_map_to_list]. apply (list_elem_of_fmap_2 fst) in Hq. revert Hq.
    replace ((map_to_list (tp_slotMap pool3)).*1) with [7; 6] by (vm_compute; reflexivity). set_solver.
  - split; [rewrite H1; vm_compute; reflexivity|]. rewrite H4. vm_compute. reflexivity.
Defined.

Lemma repush_lost_witness :
  ∃ tp1 tp2, tp_Remove stamp (hash_of 1) (tx_at 6 1) pool3 = (Ok tt, tp1) ∧
    tp_Push stamp 0 (hash_of 1) (tx_at 6 1) [] [] tp1 = (Ok tt, tp2) ∧
    IsExist (hash_of 1) tp2 = true ∧ ∀ slot, hash_of 1 ∉ (pending slot tp2).*1.
Proof.
  apply (repush_lost stamp pool3 (hash_of 1) (mkItem 0 (hash_of 1) (tx_at 6 1) [] []) 0 [] []).
  - exact (reachable_ok _ _ pool3_reachable).
  - vm_compute. left.
Defined.

(** The queue of slot 6 is empty but there, so that nothing of slot 7 is given
    out although a transaction waits in it. *)
Example pop_blocked : (tp_Pop 7 pool1).1 = Ok None ∧ waiting 7 pool1 = [tx_at 7 3].
Proof. vm_compute. done. Qed.

(** The transactions that were given out stay registered for good. *)
Example clean_leaves_popped : let tp := (Clean [6; 7] 9 pool1).2 in tp_Size tp = 2%nat ∧ tp_slotMap tp = ∅.
Proof. vm_compute. done. Qed.
End TxPoolExamples.
