(* ===== verification/ChainSpec.v ===== *)
(** * The chain: what a proposer and a validator agree on

    The chain is proved against the interface [tame] of ContextBisim: the
    hooks of the processes and the code of the transactions read the context
    through its layers, give back the layers they found and keep the top
    layer in use.  Every program written with the context operations is such
    a program. *)

From S2P Require Import Prelude Common Context ContextSpec ContextBisim LevelRoot Block Store StoreSpec Chain.

Section ChainSpec.
Context {A E T P CS : Type} `{AI : AccountI A} `{EI : EventI E} `{B58 : Base58} `{HF : HashFn}.
Context `{EH : !EncodingHash A E} `{SC : !StoreCodec A E T} `{PI : !PileI P} `{TC : !TxCodec T}.
Context `{TX : !TransactionI T A E} `{RC : Recover}.
Implicit Types (c : Ctx A E) (cn : Chain A E T) (b : Block T) (bc : BlockCreator A E T).

(** ** The registry of processes *)

Record registry_ok cn : Prop := {
  ro_index : ∀ i p, cn_processes cn !! i = Some p → cn_processIndexMap cn !! p_ID p = Some i;
  ro_names : ∀ i p, cn_processes cn !! i = Some p → cn_processIDMap cn !! p_Name p = Some (p_ID p);
  ro_only : ∀ id i, cn_processIndexMap cn !! id = Some i → ∃ p, cn_processes cn !! i = Some p ∧ p_ID p = id;
  ro_reserved : ∀ i p, cn_processes cn !! i = Some p → p_ID p ≠ 0 ∧ p_ID p ≠ 255;
}.

Lemma NewChain_registry app cn : NewChain app = Ok cn → registry_ok cn.
Proof. unfold NewChain. destruct (negb _); [done|]. intros [= <-]. by split. Qed.

Lemma MustAddProcess_registry p cn cn' : registry_ok cn → MustAddProcess p cn = Ok cn' → registry_ok cn'.
Proof.
  intros [H1 H2 H3 H4]. unfold MustAddProcess. destruct (cn_isInit cn); [done|].
  destruct ((p_ID p =? 0) || (p_ID p =? 255)) eqn:Hr; [done|]. apply orb_false_iff in Hr as [Hr0 Hr1].
  apply Z.eqb_neq in Hr0, Hr1.
  case_bool_decide as Hn; [done|]. case_bool_decide as Hi; [done|]. intros [= <-].
  apply eq_None_not_Some in Hn, Hi.
  assert (Hnew : ∀ i q, (cn_processes cn ++ [p]) !! i = Some q →
    cn_processes cn !! i = Some q ∨ (i = length (cn_processes cn) ∧ q = p)).
  { intros i q [Hq|[Hle Hq]]%lookup_app_Some; [by left|right].
    apply list_lookup_singleton_Some in Hq as [Hz ->]. split; [lia|done]. }
  split; simpl.
  - intros i q [Hq|[-> ->]]%Hnew; [|by rewrite lookup_insert_eq].
    rewrite lookup_insert_ne; [by apply H1|]. intros E0. rewrite E0 in Hi. rewrite (H1 _ _ Hq) in Hi. done.
  - intros i q [Hq|[-> ->]]%Hnew; [|by rewrite lookup_insert_eq].
    rewrite lookup_insert_ne; [by eapply H2|]. intros E0. rewrite E0 in Hn. rewrite (H2 _ _ Hq) in Hn. done.
  - intros id i Hid. destruct (decide (id = p_ID p)) as [->|Hne].
    + rewrite lookup_insert_eq in Hid. injection Hid as <-. exists p. split; [|done].
      by rewrite lookup_app_r, Nat.sub_diag by lia.
    + rewrite lookup_insert_ne in Hid by done. apply H3 in Hid as (q & Hq & <-). exists q. split; [|done].
      by apply lookup_app_l_Some.
  - intros i q [Hq|[-> ->]]%Hnew; [by eapply H4|done].
Qed.

(** The process registered under an identifier is the one that the
    chain finds for a transaction of that identifier and whose hooks run with
    a wrapper of that identifier: registration can not mix up two
    processes. *)
Theorem registry_dispatch cn i p :
  registry_ok cn → cn_processes cn !! i = Some p →
  getProcess cn (p_ID p) = Ok p ∧ ProcessByName cn (p_Name p) = Ok p ∧ idOf cn i = p_ID p.
Proof.
  intros [H1 H2 H3 H4] Hp. pose proof (H4 i p Hp) as [_ Hr]. split_and!.
  - unfold getProcess. destruct (Z.eqb_spec (p_ID p) 255); [done|]. by rewrite (H1 i p Hp), Hp.
  - unfold ProcessByName. by rewrite (H2 i p Hp), (H1 i p Hp), Hp.
  - unfold idOf, IDMap.
    erewrite elem_of_list_to_map_1; [done|..].
    + rewrite <- list_fmap_compose. apply NoDup_fmap_2_strong; [|apply NoDup_map_to_list].
      intros [id1 j1] [id2 j2] E1%elem_of_map_to_list E2%elem_of_map_to_list. simpl. intros ->.
      apply H3 in E1 as (q1 & Hq1 & <-), E2 as (q2 & Hq2 & <-). by simplify_eq.
    + apply list_elem_of_fmap. exists (p_ID p, i). split; [done|]. apply elem_of_map_to_list. by apply H1.
Qed.

(** ** One transaction *)

Lemma or_revert_within {V} (m : M (Ctx A E) V) c d st c' :
  ready c → tame m → within c d st c' →
  match or_revert (S (length (stack c))) m c' with
  | (Ok v, c2) => m c' = (Ok v, c2) ∧ within c d st c2
  | (Err e, c2) => (m c').1 = Err e ∧ same c c2 ∧ ready c2
  | (Panic, c2) => (m c').1 = Panic
  end.
Proof.
  intros Hr Hm Hw. pose proof (within_tame m c d st c' Hm Hw) as Hw2.
  unfold or_revert, mbind, M_bind, try. destruct (m c') as [[v|e|] c2]; simpl in *; [done| |done].
  destruct (Revert_within c d st c2 Hr Hw2) as (c3 & Hc3 & Hs & Hr3). by rewrite Hc3.
Qed.

Lemma generator_alive_tame gen : tame (generator_alive gen : M (Ctx A E) unit).
Proof.
  apply tame_bind; [apply tame_try, tame_HasAccount|]. intros [h|e]; [apply tame_guard|apply tame_fail].
Qed.

Section Tx.
Context (gen : Address) (pid slot index : Z) (h : Hash256) (tx : T) (signers : list PublicHash).
Hypothesis (HV : tame (tx_Validate tx pid signers)) (HX : tame (tx_Execute tx pid index)).

Lemma execute_tx_tame : tame (execute_tx gen pid slot index h tx signers).
Proof using AI EI B58 HV HX.
  assert (Ho : ∀ V sn (m : M (Ctx A E) V), (2 ≤ sn)%nat → tame m → tame_at sn (or_revert sn m)).
  { intros V sn m Hsn Hm. apply tame_at_bind; [by apply tame_tame_at, tame_try|].
    intros [v|e]; [apply tame_tame_at, tame_ret|].
    apply tame_at_bind; [by apply tame_at_Revert|]. intros _. apply tame_tame_at, tame_fail. }
  apply tame_at_Snapshot. intros sn Hsn.
  apply tame_at_bind; [apply tame_tame_at, tame_UseTimeSlot|]. intros _.
  apply tame_at_bind; [by apply Ho|]. intros _. apply tame_at_bind; [by apply Ho|]. intros _.
  apply tame_at_bind; [apply Ho; [done|apply generator_alive_tame]|]. intros _. by apply tame_at_Commit.
Qed.

(** The three ways out: committed into the layer below; reverted, with the
    context as it was; or, for a used time slot only, with the snapshot left
    open. *)
Lemma execute_tx_spec c :
  ready c →
  match execute_tx gen pid slot index h tx signers c with
  | (Ok _, c2) => ready c2 ∧ tail (stack c2) = tail (stack c)
  | (Err e, c2) =>
      (same c c2 ∧ ready c2) ∨
      (e = ErrUsedTimeSlot ∧ ready c2 ∧ length (stack c2) = S (length (stack c)))
  | (Panic, _) => True
  end.
Proof using AI EI B58 HV HX.
  intros Hr. destruct (Snapshot_within c Hr) as (d & st & c1 & Hsn & Hw & Hs1).
  unfold execute_tx. rewrite (bind_Ok _ _ _ _ _ Hsn).
  pose proof (within_tame _ c d st c1 (tame_UseTimeSlot slot h) Hw) as Hw2.
  pose proof (write_UseTimeSlot slot h c1 (ab_wf _ _ _ (proj1 (proj2 Hw)))) as Hu.
  fold (UseTimeSlot (A := A) (E := E) slot h) in Hu. destruct (view_slot c1 slot h).
  { destruct Hu as (c2 & Hc2 & Hts & _). rewrite (bind_Err _ _ _ _ _ Hc2). rewrite Hc2 in Hw2. right.
    destruct Hw2 as (Hs & Hab & Hl). split; [done|].
    destruct (wf_top c2 (ab_wf _ _ _ Hab)) as (u & st2 & Hs2 & _).
    pose proof (ts_below _ _ Hts) as Hb. rewrite Hs2, Hs1 in Hb. simpl in Hb. subst st2.
    split; [|by rewrite Hs2, Hs]. split; [apply Hab| |done].
    apply (ts_active _ _ Hts). unfold active. by rewrite Hs1. }
  destruct Hu as (c2 & Hc2 & _). rewrite (bind_Ok _ _ _ _ _ Hc2). rewrite Hc2 in Hw2. simpl in Hw2.
  pose proof (or_revert_within (tx_Validate tx pid signers) c d st c2 Hr HV Hw2) as G.
  unfold mbind at 1, M_bind at 1. destruct (or_revert _ (tx_Validate tx pid signers) c2) as [[[]|e|] c3];
    [|left; apply G|done].
  destruct G as [_ Hw3]. pose proof (or_revert_within (tx_Execute tx pid index) c d st c3 Hr HX Hw3) as G.
  unfold mbind at 1, M_bind at 1. destruct (or_revert _ (tx_Execute tx pid index) c3) as [[[]|e|] c4];
    [|left; apply G|done].
  destruct G as [_ Hw4].
  pose proof (or_revert_within (generator_alive gen) c d st c4 Hr (generator_alive_tame gen) Hw4) as G.
  unfold mbind at 1, M_bind at 1. destruct (or_revert _ (generator_alive gen) c4) as [[[]|e|] c5];
    [|left; apply G|done].
  destruct G as [_ Hw5]. destruct (Commit_within c d st c5 Hr Hw5) as (c6 & d6 & -> & Hr6 & Hs6).
  split; [done|]. by rewrite Hs6, (proj1 Hw5).
Qed.
End Tx.

(** ** The workers that check signatures *)

Section Workers.
Context (cid : Z) (sp : option SignerProvider) (b : Block T).

Lemma check_range_app sidx l1 l2 :
  check_range cid sp b sidx (l1 ++ l2) =
    (r1 ← check_range cid sp b sidx l1; r2 ← check_range cid sp b (sidx + length l1) l2; mret (r1 ++ r2)).
Proof.
  revert sidx. induction l1 as [|tx l1 IH]; intros sidx; cbn [check_range app length].
  - rewrite Nat.add_0_r. cbn [mbind res_bind]. by destruct (check_range cid sp b sidx l2).
  - destruct (of_option (TransactionTypes b !! sidx)); cbn [mbind res_bind]; [|done..].
    destruct (of_option (TransactionSignatures b !! sidx)); cbn [mbind res_bind]; [|done..].
    destruct (check_tx _ _ _ _ _); cbn [mbind res_bind]; [|done..].
    rewrite IH. replace (S sidx + length l1)%nat with (sidx + S (length l1))%nat by lia.
    destruct (check_range cid sp b (S sidx) l1); cbn [mbind res_bind]; [|done..].
    by destruct (check_range cid sp b (sidx + S (length l1)) l2).
Qed.

Lemma join_workers_cons {V} pick (r : list V) rs l :
  join_workers pick (Ok r :: rs) = Ok l ↔ ∃ l', join_workers pick rs = Ok l' ∧ l = r ++ l'.
Proof.
  unfold join_workers. simpl. destruct (existsb is_panic rs); [naive_solver|].
  destruct (errors_of rs); naive_solver.
Qed.

Lemma join_workers_fail {V} pick (r : res (list V)) rs l :
  (∀ v, r ≠ Ok v) → join_workers pick (r :: rs) ≠ Ok l.
Proof.
  intros Hr. unfold join_workers. destruct r as [v|e|]; simpl; [by destruct (Hr v)|..|done].
  by destruct (existsb is_panic rs).
Qed.

(** Contiguous slices: the joined results are those of one pass. *)
Fixpoint contiguous (sidx : nat) (cs : list (nat * list T)) : Prop :=
  match cs with
  | [] => True
  | (i, l) :: cs => i = sidx ∧ contiguous (sidx + length l) cs
  end.

Lemma join_contiguous pick sidx cs rs :
  contiguous sidx cs →
  join_workers pick ((λ x, check_range cid sp b x.1 x.2) <$> cs) = Ok rs ↔
  check_range cid sp b sidx (concat cs.*2) = Ok rs.
Proof.
  revert sidx rs. induction cs as [|[i l] cs IH]; intros sidx rs Hc.
  { simpl. unfold join_workers. simpl. naive_solver. }
  destruct Hc as [-> Hc]. rewrite !fmap_cons. cbn [fst snd concat]. rewrite check_range_app.
  destruct (check_range cid sp b sidx l) as [r1|e|] eqn:E1; cbn [mbind res_bind].
  - rewrite join_workers_cons. setoid_rewrite (IH _ _ Hc).
    destruct (check_range cid sp b (sidx + length l) (concat cs.*2)) as [r2|e|]; cbn [mbind res_bind mret res_ret].
    + split; [intros (? & [= <-] & ->)|intros [= <-]]; eauto.
    + split; [by intros (? & ? & _)|done].
    + split; [by intros (? & ? & _)|done].
  - split; [|done]. intros Hj. by apply join_workers_fail in Hj.
  - split; [|done]. intros Hj. by apply join_workers_fail in Hj.
Qed.

Lemma chunk_ok (txs : list T) unit i :
  (i * unit ≤ length txs)%nat → chunk txs unit i = Ok ((i * unit)%nat, take unit (drop (i * unit) txs)).
Proof.
  intros Hi. unfold chunk.
  destruct (Nat.ltb_spec (((i + 1) * unit) `min` length txs) (i * unit)); [lia|]. do 2 f_equal.
  destruct (Nat.le_ge_cases ((i + 1) * unit) (length txs)) as [Hle|Hge].
  - rewrite Nat.min_l by lia. f_equal. lia.
  - rewrite Nat.min_r by lia. rewrite !take_ge; [done|rewrite length_drop; lia..].
Qed.

(** The slices of [n] workers starting with worker [i]. *)
Lemma chunks_contiguous (txs : list T) unit i n :
  (∀ j, (j < i + n)%nat → (j * unit ≤ length txs)%nat) →
  ∃ cs, mapM_res (chunk txs unit) (seq i n) = Ok cs ∧ contiguous (i * unit) cs ∧
    concat cs.*2 = take (n * unit) (drop (i * unit) txs).
Proof.
  revert i. induction n as [|n IH]; intros i Hj; [by exists []|].
  cbn [seq mapM_res]. rewrite chunk_ok by (apply Hj; lia). cbn [mbind res_bind].
  set (l := take unit (drop (i * unit) txs)).
  destruct (decide (n = 0%nat)) as [->|Hn].
  - cbn [seq mapM_res mbind res_bind mret res_ret]. eexists. split; [done|]. split; [done|].
    csimpl. by rewrite Nat.add_0_r, app_nil_r.
  - destruct (IH (S i)) as (cs & -> & Hc & Hcat); [intros; apply Hj; lia|].
    cbn [mbind res_bind mret res_ret]. eexists. split; [done|].
    assert (Hlen : length l = unit).
    { unfold l. rewrite length_take, length_drop. specialize (Hj (S i) ltac:(lia)). lia. }
    split.
    + split; [done|]. rewrite Hlen. by replace (i * unit + unit)%nat with (S i * unit)%nat by lia.
    + csimpl. rewrite Hcat. replace (S i * unit)%nat with (i * unit + unit)%nat by lia.
      unfold l. rewrite <- drop_drop, <- (take_take_drop _ unit). done.
Qed.

Lemma tx_unit_covers n k : (1 ≤ k)%nat → (n ≤ k * tx_unit n k)%nat.
Proof.
  intros Hk. unfold tx_unit. pose proof (Nat.div_mod n k ltac:(lia)).
  pose proof (Nat.mod_upper_bound n k ltac:(lia)).
  destruct (Nat.eqb_spec (n mod k) 0); cbn [negb]; nia.
Qed.

Definition workers (cpus : nat) : nat := if (length (Transactions b) <? 1000)%nat then 1%nat else cpus.

Lemma check_all_range cpus pick rs :
  (1 ≤ cpus)%nat →
  ((workers cpus - 1) * tx_unit (length (Transactions b)) (workers cpus) ≤ length (Transactions b))%nat →
  check_all cpus pick cid sp b = Ok rs ↔ check_range cid sp b 0 (Transactions b) = Ok rs.
Proof.
  intros Hc Hw. unfold check_all. fold (workers cpus).
  destruct (Nat.ltb_spec 0 (length (Transactions b))) as [Hn|Hn].
  2: { destruct (Transactions b); [|simpl in Hn; lia]. done. }
  assert (Hk : (1 ≤ workers cpus)%nat) by (unfold workers; destruct (_ <? _)%nat; lia).
  set (u := tx_unit (length (Transactions b)) (workers cpus)) in *.
  destruct (chunks_contiguous (Transactions b) u 0 (workers cpus)) as (cs & -> & Hcs & Hcat).
  { intros j Hj. assert (j ≤ workers cpus - 1)%nat by lia. nia. }
  cbn [mbind res_bind]. rewrite (join_contiguous pick 0 cs rs) by done. rewrite Hcat.
  rewrite Nat.mul_0_l, drop_0, take_ge; [done|]. by apply tx_unit_covers.
Qed.

(** The parallel check is the sequential one: for every number of
    processors for which no slice starts beyond the end (which holds up to 32
    processors), the workers together return the hashes and signers of one
    pass over the block, or fail when that pass fails, whatever the
    schedule. *)
Theorem check_all_sequential cpus pick rs :
  (1 ≤ cpus)%nat →
  ((workers cpus - 1) * tx_unit (length (Transactions b)) (workers cpus) ≤ length (Transactions b))%nat →
  check_all cpus pick cid sp b = Ok rs ↔ check_range cid sp b 0 (Transactions b) = Ok rs.
Proof. apply check_all_range. Qed.

(** Up to 32 processors every block is sliced within its bounds. *)
Lemma chunks_in_range cpus :
  (1 ≤ cpus ≤ 32)%nat →
  ((workers cpus - 1) * tx_unit (length (Transactions b)) (workers cpus) ≤ length (Transactions b))%nat.
Proof.
  intros Hc. unfold workers. destruct (Nat.ltb_spec (length (Transactions b)) 1000) as [Hn|Hn]; [lia|].
  set (n := length (Transactions b)) in *. unfold tx_unit. pose proof (Nat.div_mod n cpus ltac:(lia)).
  pose proof (Nat.mod_upper_bound n cpus ltac:(lia)).
  assert (n / cpus >= 31)%nat.
  { assert (31 * cpus ≤ n)%nat by lia. apply Nat.div_le_lower_bound; lia. }
  destruct (Nat.eqb_spec (n mod cpus) 0); cbn [negb]; nia.
Qed.

(** With more processors a large block can be sliced out of bounds. *)
Lemma check_all_panics cpus pick :
  (1000 ≤ length (Transactions b))%nat →
  (length (Transactions b) < (cpus - 1) * tx_unit (length (Transactions b)) cpus)%nat →
  check_all cpus pick cid sp b = Panic.
Proof.
  intros Hn Hw. unfold check_all.
  destruct (Nat.ltb_spec 0 (length (Transactions b))); [|lia].
  destruct (Nat.ltb_spec (length (Transactions b)) 1000); [lia|].
  set (u := tx_unit _ cpus) in *.
  assert (G : ∀ l, (cpus - 1)%nat ∈ l → mapM_res (chunk (Transactions b) u) l = Panic).
  { induction l as [|i l IH]; intros Hin; [by apply elem_of_nil in Hin|]. cbn [mapM_res].
    apply elem_of_cons in Hin as [<-|Hin].
    - unfold chunk. destruct (Nat.ltb_spec (((cpus - 1 + 1) * u) `min` length (Transactions b)) ((cpus - 1) * u)); [done|lia].
    - rewrite IH by done. unfold chunk. by destruct (_ <? _)%nat. }
  rewrite G; [done|]. apply elem_of_seq. destruct cpus; [simpl in Hw; lia|lia].
Qed.
End Workers.

End ChainSpec.
