(* ===== verification/ChainAgree.v ===== *)
(** * Proposer and validator agree

    A block built by [NewBlockCreator], [Init], any sequence of [AddTx]
    (those that fail included) and [Finalize] is accepted by
    [executeBlockOnContext] on a context with the same layers, and the
    context it ends with hashes to the context hash in the header. *)

From S2P Require Import Prelude Common Context ContextSpec ContextBisim LevelRoot Block Store Chain ChainSpec.

Section ChainAgree.
Context {A E T P CS : Type} `{AI : AccountI A} `{EI : EventI E} `{B58 : Base58} `{HF : HashFn}.
Context `{EH : !EncodingHash A E} `{TC : !TxCodec T} `{TX : !TransactionI T A E} `{RC : Recover}.
Implicit Types (c v : Ctx A E) (b : Block T) (bc : BlockCreator A E T).

(** ** The block before it is sealed

    The creator runs the hooks on the block without its context hash and
    without signatures; a hook must not look at them. *)
Definition unsealed b : Block T :=
  mkBlock (BHeader (set_ContextHash (replicate Hash256Size 0) b)) (TransactionTypes b) (Transactions b)
    (TransactionSignatures b) [].

Definition sign (sgs : list Signature) b : Block T :=
  mkBlock (BHeader b) (TransactionTypes b) (Transactions b) (TransactionSignatures b) sgs.

Definition member (cn : Chain A E T) (p : Process A E T) : Prop := p ∈ cn_processes cn ∨ p = cn_app cn.

(** What the chain relies on in its processes and in the transactions
    [okT]. *)
Record chain_tame (okT : T → Prop) (cn : Chain A E T) : Prop := {
  ct_validate : ∀ tx pid sg, okT tx → tame (tx_Validate tx pid sg);
  ct_execute : ∀ tx pid i, okT tx → tame (tx_Execute tx pid i);
  ct_before : ∀ p pid, member cn p → tame (p_BeforeExecuteTransactions p pid);
  ct_after : ∀ p pid b, member cn p → tame (p_AfterExecuteTransactions p pid b);
  ct_unsealed : ∀ p pid b b', member cn p → unsealed b = unsealed b' →
    p_AfterExecuteTransactions p pid b = p_AfterExecuteTransactions p pid b';
}.

Lemma clean_tame : tame (clean : M (Ctx A E) unit).
Proof. apply tame_bind; [apply tame_StackSize|]. intros n. apply tame_guard. Qed.

Lemma run_hooks_tame (f : Process A E T → Z → M (Ctx A E) unit) cn :
  (∀ p pid, member cn p → tame (f p pid)) → tame (run_hooks f cn).
Proof.
  intros Hf. unfold run_hooks. apply tame_bind.
  - apply tame_for_each. intros [i p] (j & q & Hj & Hp)%elem_of_lookup_imap. injection Hj as -> ->. simpl.
    apply tame_bind; [|intros _; apply clean_tame]. apply Hf. left. by eapply list_elem_of_lookup_2.
  - intros _. apply tame_bind; [|intros _; apply clean_tame]. apply Hf. by right.
Qed.

Lemma run_hooks_ext (f g : Process A E T → Z → M (Ctx A E) unit) cn :
  (∀ p pid, member cn p → f p pid = g p pid) → run_hooks f cn = run_hooks g cn.
Proof.
  intros Hf. unfold run_hooks. rewrite (Hf (cn_app cn) 255) by (by right).
  assert (G : ∀ l, (∀ i p, (i, p) ∈ l → member cn p) →
    for_each (λ ip, f ip.2 (idOf cn ip.1) ;; clean) l = for_each (λ ip, g ip.2 (idOf cn ip.1) ;; clean) l).
  { induction l as [|[i p] l IH]; intros Hl; [done|]. cbn [for_each fst snd].
    rewrite Hf by (eapply Hl; constructor). rewrite IH; [done|]. intros j q Hq. eapply Hl. by constructor. }
  rewrite G; [done|]. intros i p (j & q & Hj & Hp)%elem_of_lookup_imap. injection Hj as -> ->. left.
  by eapply list_elem_of_lookup_2.
Qed.

(** ** Entries: a transaction with everything the two sides know of it *)

Record entry := mkEntry {
  e_type : Z; e_tx : T; e_hash : Hash256; e_sigs : list Signature; e_signers : list PublicHash }.

Section Run.
Context (cn : Chain A E T) (gen : Address) (cur : Z).

Definition run_entry (i : nat) (e : entry) : M (Ctx A E) unit :=
  let slot := ToTimeSlot (tx_Timestamp (e_tx e)) in
  guard_err (bad_slot cur slot) ErrInvalidTransactionTimeSlot ;;
  lift (getProcess cn (pid_of (e_type e))) ;;
  execute_tx gen (pid_of (e_type e)) slot (u16 (Z.of_nat i)) (e_hash e) (e_tx e) (e_signers e).

Fixpoint run_entries (i : nat) (es : list entry) : M (Ctx A E) unit :=
  match es with
  | [] => mret tt
  | e :: es => run_entry i e ;; run_entries (S i) es
  end.

Lemma run_entries_snoc i es e c :
  run_entries i (es ++ [e]) c = (run_entries i es ;; run_entry (i + length es) e) c.
Proof.
  revert i c. induction es as [|e0 es IH]; intros i c; cbn [run_entries app length].
  - rewrite Nat.add_0_r. unfold mbind, M_bind, mret, M_ret. by destruct (run_entry i e c) as [[[]| |] ?].
  - rewrite bind_assoc. replace (i + S (length es))%nat with (S i + length es)%nat by lia.
    destruct (run_entry i e0 c) as [[[]| |] c1] eqn:H0.
    + by rewrite !(bind_Ok _ _ _ _ _ H0), IH.
    + by rewrite !(bind_Err _ _ _ _ _ H0).
    + unfold mbind, M_bind. by rewrite H0.
Qed.
End Run.

(** The block and the two lists of a validator, as entries. *)
Definition carries b (signers : list (list PublicHash)) (hashes : list Hash256) (es : list entry) : Prop :=
  TransactionTypes b = e_type <$> es ∧ Transactions b = e_tx <$> es ∧
  signers = e_signers <$> es ∧ hashes = e_hash <$> es.

Lemma execute_txs_entries cn b signers hashes es c :
  carries b signers hashes es →
  execute_txs cn b signers hashes c =
  run_entries cn (Generator (BHeader b)) (ToTimeSlot (HTimestamp (BHeader b))) 0 es c.
Proof.
  intros (Hty & Htx & Hsg & Hh). unfold execute_txs. rewrite Htx.
  assert (G : ∀ k l c, (∀ j e, l !! j = Some e → es !! (k + j)%nat = Some e) →
    for_each (λ it, execute_at cn b signers hashes it.1 it.2) (imap (λ i x, ((k + i)%nat, x)) (e_tx <$> l)) c
    = run_entries cn (Generator (BHeader b)) (ToTimeSlot (HTimestamp (BHeader b))) k l c).
  { intros k l. revert k. induction l as [|e l IH]; intros k c' Hl; [done|].
    rewrite fmap_cons, imap_cons. cbn [for_each run_entries fst snd].
    assert (He : es !! k = Some e) by (rewrite <- (Nat.add_0_r k); by apply Hl).
    assert (Hat : execute_at cn b signers hashes (k + 0) (e_tx e) c'
      = run_entry cn (Generator (BHeader b)) (ToTimeSlot (HTimestamp (BHeader b))) k e c').
    { unfold execute_at, run_entry. rewrite Nat.add_0_r, Hty, Hsg, Hh, !list_lookup_fmap, He. simpl.
      unfold mbind, M_bind, guard_err. by destruct (bad_slot _ _). }
    unfold mbind, M_bind. rewrite Hat. destruct (run_entry _ _ _ k e c') as [[[]| |] c1]; [|done..].
    rewrite <- IH.
    - rewrite (imap_ext _ (λ i x, ((S k + i)%nat, x))); [done|]. intros i x _. simpl. f_equal. lia.
    - intros j e' Hj. replace (S k + j)%nat with (k + S j)%nat by lia. by apply Hl. }
  rewrite <- (G 0%nat es c (λ j e Hj, Hj)). done.
Qed.

(** ** What a validator recomputes *)

Context (cid : Z) (okT : T → Prop).

Record entry_ok (e : entry) : Prop := {
  eo_tx : okT (e_tx e);
  eo_hash : HashTransactionByType cid (e_type e) (e_tx e) = Ok (e_hash e);
  eo_signers : recover_all (e_hash e) (e_sigs e) = Ok (e_signers e);
}.

(** A provider that never answers other signers than the recovered ones. *)
Definition faithful (sp : option SignerProvider) : Prop :=
  ∀ h sigs signers, known_signers sp h sigs = Some signers → recover_all h sigs = Ok signers.

Lemma check_range_entries sp b (es : list entry) :
  faithful sp → Forall entry_ok es →
  TransactionTypes b = e_type <$> es → TransactionSignatures b = e_sigs <$> es →
  check_range cid sp b 0 (e_tx <$> es) = Ok ((λ e, (e_hash e, e_signers e)) <$> es).
Proof.
  intros Hsp Hok Hty Hsg.
  assert (G : ∀ k l, Forall entry_ok l → (∀ j e, l !! j = Some e → es !! (k + j)%nat = Some e) →
    check_range cid sp b k (e_tx <$> l) = Ok ((λ e, (e_hash e, e_signers e)) <$> l)).
  { intros k l Hl. revert k. induction Hl as [|e l [_ He1 He2] _ IH]; intros k Hk; [done|].
    assert (He : es !! k = Some e) by (rewrite <- (Nat.add_0_r k); by apply Hk).
    rewrite !fmap_cons. cbn [check_range]. rewrite Hty, Hsg, !list_lookup_fmap, He.
    cbn [fmap option_fmap option_map of_option mbind res_bind]. unfold check_tx. rewrite He1.
    cbn [mbind res_bind].
    assert (Hs : match known_signers sp (e_hash e) (e_sigs e) with
      | Some signers => Ok signers | None => recover_all (e_hash e) (e_sigs e) end = Ok (e_signers e)).
    { destruct (known_signers sp (e_hash e) (e_sigs e)) as [sg|] eqn:Hk'; [|done].
      apply Hsp in Hk'. congruence. }
    rewrite Hs. cbn [mbind res_bind mret res_ret].
    rewrite IH; [done|]. intros j e' Hj. replace (S k + j)%nat with (k + S j)%nat by lia. by apply Hk. }
  by apply G.
Qed.


(** ** The creator at work *)

Section Creator.
Context (cn : Chain A E T) (Hcn : chain_tame okT cn).
(** The contexts of the creator and of the validator, the header fields. *)
Context (c0 v0 : Ctx A E) (gen : Address) (cdata : bytes) (ts : Z).

Definition bh0 : Header := BHeader (bc_b (NewBlockCreator c0 gen cdata ts : BlockCreator A E T)).
Definition cur : Z := ToTimeSlot ts.

Definition block_of (es : list entry) : Block T :=
  mkBlock bh0 (e_type <$> es) (e_tx <$> es) (e_sigs <$> es) [].

(** The validator at the point where the creator has added [es]. *)
Definition mirror (es : list entry) : M (Ctx A E) unit :=
  before_hooks cn ;; run_entries cn gen cur 0 es.

(** Either a snapshot is open for good, or the validator is in the same
    state. *)
Record building (es : list entry) bc : Prop := {
  bd_block : bc_b bc = block_of es;
  bd_hashes : bc_txHashes bc = genLastHash c0 :: (e_hash <$> es);
  bd_entries : Forall entry_ok es;
  bd_ready : ready (bc_ctx bc);
  bd_state : (2 ≤ length (stack (bc_ctx bc)))%nat ∨
    (length (stack (bc_ctx bc)) = 1%nat ∧ ∃ v, mirror es v0 = (Ok tt, v) ∧ same (bc_ctx bc) v);
}.

Lemma tame_ready {V} (m : M (Ctx A E) V) c : tame m → ready c → ready (m c).2.
Proof.
  intros Hm [Hwf Ha Hl]. destruct (tame_lively _ Hm c (conj Hwf Ha)). split; [done..|].
  apply respects_latest; [apply Hm|done|done].
Qed.

Lemma before_tame : tame (before_hooks cn).
Proof using Hcn AI EI B58. apply run_hooks_tame. intros p pid Hp. by eapply ct_before. Qed.

Lemma after_tame b : tame (after_hooks b cn).
Proof using Hcn AI EI B58. apply run_hooks_tame. intros p pid Hp. by eapply ct_after. Qed.

(** A hook phase that succeeds leaves no snapshot open. *)
Lemma run_hooks_clean (f : Process A E T → Z → M (Ctx A E) unit) c c' :
  run_hooks f cn c = (Ok tt, c') → (length (stack c') ≤ 1)%nat.
Proof.
  intros (? & c1 & _ & H1)%bind_inv_Ok. apply bind_inv_Ok in H1 as (? & c2 & _ & H1).
  apply bind_inv_Ok in H1 as (n & c3 & [= <- <-] & [Hn ->]%guard_err_Ok).
  by apply Nat.ltb_ge in Hn.
Qed.

Lemma building_init bc :
  same c0 v0 → ready c0 →
  BC_Init cn (NewBlockCreator c0 gen cdata ts) = (Ok tt, bc) → building [] bc.
Proof using Hcn AI EI B58.
  intros Hs Hr. unfold BC_Init, on_ctx, NewBlockCreator. simpl.
  destruct (before_hooks cn c0) as [r c1] eqn:Hb. intros [= -> <-].
  pose proof (tame_ready _ c0 before_tame Hr) as Hr1. rewrite Hb in Hr1.
  destruct (tame_respects _ before_tame c0 v0 Hs) as [H1 H2]. rewrite Hb in H1, H2. simpl in *.
  pose proof (run_hooks_clean _ _ _ Hb) as Hlen.
  split; simpl; try done. right. split.
  - destruct (wf_top c1 (rd_wf _ Hr1)) as (d & st & Hd & _). rewrite Hd in *. simpl in *. lia.
  - unfold mirror. destruct (before_hooks cn v0) as [[[]| |] v1] eqn:Hv; simplify_eq/=.
    exists v1. by rewrite (bind_Ok _ _ _ _ _ Hv).
Qed.

Lemma same_length c v : same c v → length (stack c) = length (stack v).
Proof. intros []. congruence. Qed.

(** A failed or successful [AddTx] keeps the correspondence. *)
Lemma building_AddTx es bc tx sigs :
  building es bc → okT tx → (AddTx cn cid gen tx sigs bc).1 ≠ Panic →
  ∃ es', building es' (AddTx cn cid gen tx sigs bc).2.
Proof using Hcn AI EI B58.
  intros Hb Htx. destruct (AddTx cn cid gen tx sigs bc) as [r bc'] eqn:Hadd. cbn [fst snd].
  unfold AddTx, UnsafeAddTx, mbind, M_bind, lift, get in Hadd.
  destruct (tx_TypeOf tx) as [t|e|] eqn:Ht; [|injection Hadd as <- <-; intros _; by exists es..].
  destruct (HashTransactionByType cid t tx) as [h|e|] eqn:Hh; [|injection Hadd as <- <-; intros _; by exists es..].
  destruct (recover_all h sigs) as [sg|e|] eqn:Hsg; [|injection Hadd as <- <-; intros _; by exists es..].
  destruct (getProcess cn (pid_of t)) as [p|e|] eqn:Hp; [|injection Hadd as <- <-; intros _; by exists es..].
  assert (Hcur : ToTimeSlot (HTimestamp (BHeader (bc_b bc))) = cur) by (by rewrite (bd_block _ _ Hb)).
  assert (Hidx : length (Transactions (bc_b bc)) = length es)
    by (rewrite (bd_block _ _ Hb); simpl; apply length_fmap).
  rewrite Hcur, Hidx in Hadd. set (slot := ToTimeSlot (tx_Timestamp tx)) in *.
  unfold guard_err, fail, mret, M_ret, on_ctx, modify in Hadd.
  destruct (bad_slot cur slot) eqn:Hslot; [injection Hadd as <- <-; intros _; by exists es|].
  pose (e := mkEntry t tx h sigs sg).
  assert (HV : tame (tx_Validate tx (pid_of t) sg)) by (by eapply ct_validate).
  assert (HX : tame (tx_Execute tx (pid_of t) (u16 (Z.of_nat (length es))))) by (by eapply ct_execute).
  pose proof (execute_tx_spec gen (pid_of t) slot (u16 (Z.of_nat (length es))) h tx sg HV HX (bc_ctx bc) (bd_ready _ _ Hb)) as G.
  destruct (execute_tx gen (pid_of t) slot (u16 (Z.of_nat (length es))) h tx sg (bc_ctx bc)) as [[[]|er|] c2] eqn:Hx;
    injection Hadd as <- <-; intros Hpanic; [| |done].
  - destruct G as [Hr2 Htail]. exists (es ++ [e]).
    assert (Hlen : length (stack c2) = length (stack (bc_ctx bc))).
    { destruct (wf_top c2 (rd_wf _ Hr2)) as (d & st & Hd & _).
      destruct (wf_top _ (rd_wf _ (bd_ready _ _ Hb))) as (d' & st' & Hd' & _). rewrite Hd, Hd' in *.
      simpl in *. by subst. }
    destruct Hb as [B1 B2 B3 B4 B5]. split; simpl.
    + rewrite B1. unfold block_of. simpl. by rewrite !fmap_app.
    + rewrite B2. by rewrite fmap_app.
    + apply Forall_app. split; [done|]. by repeat constructor.
    + done.
    + destruct B5 as [B5|(B5 & v & Hv & Hsame)]; [left; lia|right]. split; [lia|].
      destruct (tame_respects _ (execute_tx_tame gen (pid_of t) slot (u16 (Z.of_nat (length es))) h tx sg HV HX) _ _ Hsame)
        as [E1 E2]. rewrite Hx in E1, E2.
      destruct (execute_tx gen (pid_of t) slot (u16 (Z.of_nat (length es))) h tx sg v) as [[[]| |] v2] eqn:Hxv; simplify_eq/=.
      exists v2. split; [|done]. unfold mirror in *.
      apply bind_inv_Ok in Hv as ([] & v1 & Hv1 & Hv). rewrite (bind_Ok _ _ _ _ _ Hv1), run_entries_snoc.
      rewrite (bind_Ok _ _ _ _ _ Hv). unfold run_entry, e. simpl. fold slot. rewrite Hslot, Hp.
      unfold guard_err. cbn [lift]. unfold mbind, M_bind, mret, M_ret, lift. by rewrite Hxv.
  - exists es. destruct Hb as [B1 B2 B3 B4 B5]. destruct G as [[Hsame Hr2]|(-> & Hr2 & Hlen)].
    + split; simpl; try done. destruct B5 as [B5|(B5 & v & Hv & Hsv)].
      * left. by rewrite <- (same_length _ _ Hsame).
      * right. split; [by rewrite <- (same_length _ _ Hsame)|]. exists v. split; [done|].
        eapply same_trans; [by apply same_sym|done].
    + split; simpl; try done. left. destruct B5 as [|[]]; lia.
Qed.

(** The loop of a formulator: a transaction that fails is skipped, a panic
    ends it. *)
Fixpoint add_all (reqs : list (T * list Signature)) bc : option (BlockCreator A E T) :=
  match reqs with
  | [] => Some bc
  | (tx, sigs) :: reqs =>
      match AddTx cn cid gen tx sigs bc with
      | (Panic, _) => None
      | (_, bc) => add_all reqs bc
      end
  end.

Lemma building_add_all reqs es bc bc' :
  building es bc → Forall (λ r, okT r.1) reqs → add_all reqs bc = Some bc' → ∃ es', building es' bc'.
Proof using Hcn AI EI B58.
  revert es bc. induction reqs as [|[tx sigs] reqs IH]; intros es bc Hb Hok Ha; simpl in Ha.
  { injection Ha as <-. eauto. }
  apply Forall_cons in Hok as [Htx Hok]. pose proof (building_AddTx es bc tx sigs Hb Htx) as G.
  destruct (AddTx cn cid gen tx sigs bc) as [[[]|e|] bc1]; simpl in G; [..|done];
    destruct G as [es1 Hb1]; try done; by eapply IH.
Qed.

(** *** Finalize *)

Lemma Ctx_Hash_same c v :
  same c v → (Ctx_Hash c).1 = (Ctx_Hash v).1 ∧ stack (Ctx_Hash c).2 = stack c ∧ stack (Ctx_Hash v).2 = stack v.
Proof.
  intros [H1 H2 Hl Hh Hlh Hts Hs Hf1 Hf2]. unfold Ctx_Hash, ContextData_Hash. rewrite Hf1, Hf2, Hl, Hh, Hlh, Hs.
  by destruct (stack v) eqn:Hv.
Qed.

(** What [Finalize] did when it returned a block. *)
Lemma Finalize_inv bc b bc' :
  Finalize cn bc = (Ok b, bc') →
  ∃ root c1 c2 h, BuildLevelRoot (bc_txHashes bc) = Ok root ∧
    (length (stack (bc_ctx bc)) ≤ 1)%nat ∧
    after_hooks (set_LevelRootHash root (bc_b bc)) cn (bc_ctx bc) = (Ok tt, c1) ∧
    Ctx_Hash c1 = (Ok h, c2) ∧ bc_ctx bc' = c2 ∧
    b = set_ContextHash h (set_LevelRootHash root (bc_b bc)).
Proof.
  intros H. unfold Finalize in H.
  apply bind_inv_Ok in H as (? & ? & [= <- <-] & H).
  apply bind_inv_Ok in H as (root & ? & [= Hroot <-] & H).
  apply bind_inv_Ok in H as ([] & ? & [= <-] & H).
  apply bind_inv_Ok in H as ([] & bc1 & Hclean & H).
  unfold on_ctx, clean, modify_b, mbind, M_bind, StackSize, gets, guard_err in Hclean. cbn [bc_ctx] in Hclean.
  destruct (Nat.ltb_spec 1 (length (stack (bc_ctx bc)))) as [|Hlen]; [done|]. injection Hclean as <-.
  apply bind_inv_Ok in H as (? & ? & [= <- <-] & H). cbn [bc_b bc_ctx bc_txHashes] in H.
  apply bind_inv_Ok in H as ([] & bc2 & Hafter & H). unfold on_ctx in Hafter. cbn [bc_b bc_ctx bc_txHashes] in Hafter.
  destruct (after_hooks _ cn (bc_ctx bc)) as [r c1] eqn:Ha. injection Hafter as -> <-.
  apply bind_inv_Ok in H as (h & bc3 & Hhash & H). unfold on_ctx in Hhash. cbn [bc_b bc_ctx bc_txHashes] in Hhash.
  destruct (Ctx_Hash c1) as [rh c2] eqn:Hh. injection Hhash as -> <-.
  apply bind_inv_Ok in H as ([] & ? & [= <-] & [= <- <-]). by exists root, c1, c2, h.
Qed.

Lemma after_hooks_unsealed b b' : unsealed b = unsealed b' → after_hooks b cn = after_hooks b' cn.
Proof using Hcn. intros Hb. apply run_hooks_ext. intros p pid Hp. by eapply ct_unsealed. Qed.

(** The validator runs a finalised block to the state of the creator. *)
Lemma building_Finalize es bc b bc' sgs sp cpus pick :
  building es bc → Finalize cn bc = (Ok b, bc') → faithful sp → (1 ≤ cpus ≤ 32)%nat →
  ∃ v1, executeBlockOnContext cpus pick cn cid (sign sgs b) sp v0 = (Ok tt, v1) ∧
    (Ctx_Hash v1).1 = Ok (ContextHash (BHeader b)) ∧ stack v1 = stack (bc_ctx bc') ∧
    (length (stack v1) ≤ 1)%nat.
Proof using Hcn AI EI B58.
  intros [B1 B2 B3 B4 B5] (root & c1 & c2 & h & Hroot & Hlen & Hafter & Hhash & Hc2 & ->)%Finalize_inv Hsp Hcpu.
  destruct B5 as [B5|(_ & v & Hv & Hsame)]; [lia|]. rewrite B2 in Hroot.
  set (b' := sign sgs (set_ContextHash h (set_LevelRootHash root (bc_b bc)))).
  assert (Hb' : TransactionTypes b' = e_type <$> es ∧ Transactions b' = e_tx <$> es ∧
    TransactionSignatures b' = e_sigs <$> es ∧ PrevHash (BHeader b') = genLastHash c0 ∧
    LevelRootHash (BHeader b') = root ∧ Generator (BHeader b') = gen ∧ HTimestamp (BHeader b') = ts)
    by (unfold b'; rewrite B1; done).
  destruct Hb' as (T1 & T2 & T3 & T4 & T5 & T6 & T7).
  assert (Hun : after_hooks b' cn = after_hooks (set_LevelRootHash root (bc_b bc)) cn)
    by (apply after_hooks_unsealed; unfold b'; by rewrite B1).
  clearbody b'.
  (* the signatures *)
  assert (Hval : validateTransactionSignatures cpus pick cid sp b' = Ok (e_signers <$> es, e_hash <$> es)).
  { unfold validateTransactionSignatures.
    rewrite (proj2 (check_all_range cid sp b' cpus pick ((λ e, (e_hash e, e_signers e)) <$> es)
      ltac:(lia) (chunks_in_range b' cpus Hcpu))).
    2: { rewrite T2. by apply check_range_entries. }
    cbn [mbind res_bind]. rewrite T4, <- !list_fmap_compose. change (fst ∘ _) with e_hash.
    change (snd ∘ _) with e_signers. rewrite Hroot. cbn [mbind res_bind].
    rewrite bool_decide_eq_true_2 by done. done. }
  unfold mirror in Hv. apply bind_inv_Ok in Hv as ([] & v1 & Hv1 & Hv2).
  destruct (tame_respects _ (after_tame (set_LevelRootHash root (bc_b bc))) _ _ Hsame) as [E1 E2].
  rewrite Hafter in E1, E2.
  destruct (after_hooks (set_LevelRootHash root (bc_b bc)) cn v) as [[[]| |] v2] eqn:Hav; simplify_eq/=.
  exists v2. destruct (Ctx_Hash_same _ _ E2) as (Hh & Hs1 & Hs2). rewrite Hhash in Hh, Hs1. simpl in Hh, Hs1.
  split_and!.
  - unfold executeBlockOnContext.
    unfold mbind at 1, M_bind at 1, lift at 1. rewrite Hval. cbn [fst snd].
    rewrite (bind_Ok _ _ _ _ _ Hv1).
    assert (Hx : execute_txs cn b' (e_signers <$> es) (e_hash <$> es) v1 = (Ok tt, v)).
    { rewrite (execute_txs_entries cn b' _ _ es v1) by done. by rewrite T6, T7. }
    rewrite (bind_Ok _ _ _ _ _ Hx).
    assert (Hcl : clean v = (Ok tt, v)).
    { unfold clean, mbind, M_bind, StackSize, gets, guard_err. rewrite <- (same_length _ _ Hsame).
      by destruct (Nat.ltb_spec 1 (length (stack (bc_ctx bc)))); [lia|]. }
    rewrite (bind_Ok _ _ _ _ _ Hcl).
    by rewrite Hun.
  - by rewrite <- Hh.
  - by rewrite Hs1, (sm_stack _ _ E2).
  - by apply run_hooks_clean in Hav.
Qed.
End Creator.


(** C1. Proposer-validator agreement.  Take processes and transactions that
    use the context through its operations, and two contexts with the same
    layers.  A block that the creator builds on one of them, skipping the
    transactions that fail, and finalises is executed without an error on
    the other, under any signatures, any number of processors up to 32, any
    schedule and any faithful provider of signers; the validator ends with
    the layers of the creator and computes the context hash of the header. *)
Theorem creator_block_accepted cn c0 v0 gen cdata ts reqs bc1 bc2 b bc3 sgs sp cpus pick :
  chain_tame okT cn → same c0 v0 → active c0 →
  BC_Init cn (NewBlockCreator c0 gen cdata ts) = (Ok tt, bc1) →
  Forall (λ r, okT r.1) reqs → add_all cn gen reqs bc1 = Some bc2 →
  Finalize cn bc2 = (Ok b, bc3) →
  faithful sp → (1 ≤ cpus ≤ 32)%nat →
  ∃ v1, executeBlockOnContext cpus pick cn cid (sign sgs b) sp v0 = (Ok tt, v1) ∧
    (Ctx_Hash v1).1 = Ok (ContextHash (BHeader b)) ∧
    stack v1 = stack (bc_ctx bc3) ∧ (length (stack v1) ≤ 1)%nat.
Proof.
  intros Hcn Hs Ha Hi Hok Hadd Hf Hsp Hcpu.
  assert (Hr : ready c0) by (split; [apply Hs|done|apply Hs]).
  pose proof (building_init cn Hcn c0 v0 gen cdata ts bc1 Hs Hr Hi) as Hb.
  destruct (building_add_all cn Hcn c0 v0 gen cdata ts reqs [] bc1 bc2 Hb Hok Hadd) as [es Hes].
  by eapply (building_Finalize cn Hcn c0 v0 gen cdata ts es bc2).
Qed.

End ChainAgree.
