(* ===== verification/ChainConnect.v ===== *)
(** * Connecting blocks: atomicity, order and the memory of transactions

    What [ConnectBlock] checks and changes, and the replay protection across
    blocks: the time slots of the transactions of a block reach the store
    with it, stay there as long as a later block could repeat one of them,
    and a block that repeats one is refused. *)

From S2P Require Import Prelude Common Context ContextSpec ContextBisim LevelRoot Block Store StoreSpec.
From S2P Require Import Chain ChainSpec ChainAgree.

Section ChainConnect.
Context {A E T P CS : Type} `{AI : AccountI A} `{EI : EventI E} `{B58 : Base58} `{HF : HashFn}.
Context `{EH : !EncodingHash A E} `{SC : !StoreCodec A E T} `{PI : !PileI P} `{TC : !TxCodec T}.
Context `{TX : !TransactionI T A E} `{RC : Recover}.
Implicit Types (c : Ctx A E) (b : Block T) (st : Store T P) (nd : Node T P CS).

(** ** Time slots through programs *)

Lemma tame_any {V} (m : M (Ctx A E) V) c (s : Z) (k : bytes) :
  tame m → wf c → any_slot s k (slot_maps c) → any_slot s k (slot_maps (m c).2).
Proof.
  intros Hm Hwf Ha. destruct (tame_slots _ Hm (length (stack c)) s k c) as (_ & Hn & m0 & Hm0 & Hs).
  { split; [done|]. split; [done|]. by rewrite Nat.sub_diag, drop_0. }
  exists m0. split; [|done]. apply list_elem_of_lookup_1 in Hm0 as [i Hi]. rewrite lookup_drop in Hi.
  by eapply list_elem_of_lookup_2.
Qed.

Lemma tame_loader {V} (m : M (Ctx A E) V) c : tame m → wf c → loader (m c).2 = loader c.
Proof. intros Hm Hwf. by destruct (tame_frames _ Hm c [] c (wf_above c Hwf)). Qed.

Lemma UseTimeSlot_top (s : Z) (k : bytes) c c' : UseTimeSlot s k c = (Ok tt, c') → top_slot c' s k = true.
Proof.
  unfold UseTimeSlot, ctd_UseTimeSlot, top_slot. destruct (stack c) as [|d st]; [done|].
  destruct (slot_has (TimeSlotMap d) s k); [done|]. destruct (cc_HasTimeSlot _ _ _ _) as [has cc].
  destruct has; [done|]. intros [= <-]. simpl. rewrite slot_has_put. by rewrite bool_decide_eq_true_2.
Qed.

Lemma Commit_any sn c (s : Z) (k : bytes) :
  wf c → (2 ≤ sn)%nat → any_slot s k (slot_maps c) → any_slot s k (slot_maps (Commit sn c).2).
Proof.
  intros Hwf Hsn (m & Hm & Hs). destruct (wf_top c Hwf) as (d & st & Hst & _).
  destruct (Commit_slots sn c d st Hwf Hst Hsn) as (mid & rest & -> & _ & Hc).
  unfold slot_maps in *. rewrite Hc, Hst in *. change (d :: mid ++ rest) with ((d :: mid) ++ rest) in Hm.
  rewrite fmap_app in Hm. apply elem_of_app in Hm as [Hm|Hm].
  - eexists. split; [constructor|]. apply merged_slots. by exists m.
  - exists m. split; [by constructor|done].
Qed.

Lemma or_revert_Ok {V} sn (m : M (Ctx A E) V) c u c' :
  or_revert sn m c = (Ok u, c') → m c = (Ok u, c').
Proof.
  unfold or_revert, try, mbind, M_bind. destruct (m c) as [[v|e|] c1]; [done| |done].
  by destruct (Revert sn c1) as [[]].
Qed.

(** A transaction that went through had an unused slot, and has used it. *)
Lemma execute_tx_uses gen pid slot index h tx signers c c' :
  tame (tx_Validate tx pid signers) → tame (tx_Execute tx pid index) → ready c →
  execute_tx gen pid slot index h tx signers c = (Ok tt, c') →
  ld_HasTimeSlot (loader c) slot h = false ∧ any_slot slot h (slot_maps c').
Proof.
  intros HV HX Hr H1. destruct (Snapshot_within c Hr) as (d & st & c1 & Hsn & Hw & Hs1).
  unfold execute_tx in H1. rewrite (bind_Ok _ _ _ _ _ Hsn) in H1.
  assert (Hwf1 : wf c1) by apply Hw.
  assert (Hl1 : loader c1 = loader c) by apply Hw.
  apply bind_inv_Ok in H1 as ([] & c2 & Hu & H1).
  apply bind_inv_Ok in H1 as ([] & c3 & Hv%or_revert_Ok & H1).
  apply bind_inv_Ok in H1 as ([] & c4 & Hx%or_revert_Ok & H1).
  apply bind_inv_Ok in H1 as ([] & c5 & Hg%or_revert_Ok & H1).
  split.
  - pose proof (write_UseTimeSlot slot h c1 Hwf1) as G. unfold view_slot in G. rewrite Hs1, Hl1 in G.
    unfold UseTimeSlot in Hu. destruct (slot_has _ slot h || _) eqn:Hor.
    + destruct G as (? & G & _). congruence.
    + by apply orb_false_iff in Hor as [_ ?].
  - pose proof (within_tame _ c d st c1 (tame_UseTimeSlot slot h) Hw) as W2. rewrite Hu in W2. simpl in W2.
    pose proof (within_tame _ c d st c2 HV W2) as W3. rewrite Hv in W3. simpl in W3.
    pose proof (within_tame _ c d st c3 HX W3) as W4. rewrite Hx in W4. simpl in W4.
    pose proof (within_tame _ c d st c4 (generator_alive_tame gen) W4) as W5. rewrite Hg in W5. simpl in W5.
    assert (A2 : any_slot slot h (slot_maps c2)).
    { apply UseTimeSlot_top in Hu. unfold top_slot, slot_maps in *. destruct (stack c2) as [|d2 st2]; [done|].
      eexists. split; [constructor|done]. }
    pose proof (tame_any _ c2 slot h HV (ab_wf _ _ _ (proj1 (proj2 W2))) A2) as A3. rewrite Hv in A3.
    pose proof (tame_any _ c3 slot h HX (ab_wf _ _ _ (proj1 (proj2 W3))) A3) as A4. rewrite Hx in A4.
    pose proof (tame_any _ c4 slot h (generator_alive_tame gen) (ab_wf _ _ _ (proj1 (proj2 W4))) A4) as A5.
    rewrite Hg in A5. pose proof (Commit_any (S (length (stack c))) c5 slot h) as A6. rewrite H1 in A6.
    apply A6; [apply W5| |done]. destruct (wf_top c (rd_wf _ Hr)) as (? & ? & -> & _). simpl. lia.
Qed.

(** A slot the loader knows: refused, with the snapshot left open. *)
Lemma execute_tx_used gen pid slot index h tx signers c :
  ready c → ld_HasTimeSlot (loader c) slot h = true →
  ∃ c2, execute_tx gen pid slot index h tx signers c = (Err ErrUsedTimeSlot, c2) ∧ ready c2 ∧
    length (stack c2) = S (length (stack c)).
Proof.
  intros Hr Hused. destruct (Snapshot_within c Hr) as (d & st & c1 & Hsn & Hw & Hs1).
  unfold execute_tx. rewrite (bind_Ok _ _ _ _ _ Hsn).
  pose proof (within_tame _ c d st c1 (tame_UseTimeSlot slot h) Hw) as (Hs & Hab & Hl).
  pose proof (write_UseTimeSlot slot h c1 (ab_wf _ _ _ (proj1 (proj2 Hw)))) as Hu.
  assert (Hl1 : loader c1 = loader c) by apply Hw.
  unfold view_slot in Hu. rewrite Hs1, Hl1, Hused, orb_true_r in Hu. destruct Hu as (c2 & Hc2 & Hts & _).
  fold (UseTimeSlot (A := A) (E := E) slot h) in Hc2. rewrite (bind_Err _ _ _ _ _ Hc2). rewrite Hc2 in Hab, Hl.
  exists c2. split; [done|]. destruct (wf_top c2 (ab_wf _ _ _ Hab)) as (u & st2 & Hs2 & _).
  pose proof (ts_below _ _ Hts) as Hb. rewrite Hs2, Hs1 in Hb. simpl in Hb. subst st2.
  split; [|by rewrite Hs2, Hs]. split; [apply Hab| |done]. apply (ts_active _ _ Hts). unfold active. by rewrite Hs1.
Qed.

(** ** Times *)

(** The times the protocol uses: after the first slot and before the slot
    number wraps (in the year 2650), at a height that is not zero. *)
Definition timely b : Prop :=
  5000000000 ≤ HTimestamp (BHeader b) < 2 ^ 32 * 5000000000 ∧ 1 ≤ HHeight (BHeader b).

Lemma timely_slot b : timely b → slot_of b = HTimestamp (BHeader b) `div` 5000000000 ∧ 1 ≤ slot_of b < 2 ^ 32.
Proof.
  intros [Ht _]. unfold slot_of, ToTimeSlot.
  assert (1 ≤ HTimestamp (BHeader b) `div` 5000000000 < 2 ^ 32).
  { split; [apply Z.div_le_lower_bound; lia|apply Z.div_lt_upper_bound; lia]. }
  rewrite u32_small by (unfold is_u32; lia). lia.
Qed.

Lemma timely_pred b : timely b → u32 (slot_of b - 1) = slot_of b - 1.
Proof. intros Hb. apply timely_slot in Hb as [_ Hb]. apply u32_small. unfold is_u32. lia. Qed.

Lemma validateHeader_later bh st t :
  validateHeader bh st = Ok tt → st_LastTimestamp st = Ok t → t < HTimestamp bh.
Proof.
  unfold validateHeader. destruct (st_LastStatus st) as [[height last]|e|]; [|done..]. cbn [mbind res_bind].
  destruct (negb _); [done|]. destruct (_ <? _); [done|]. destruct (negb _); [done|].
  intros H1 H2. rewrite H2 in H1. cbn [mbind res_bind] in H1.
  destruct (Z.leb_spec (HTimestamp bh) t); [done|done].
Qed.

Lemma stored_last_time b ctd st st' :
  1 ≤ HHeight (BHeader b) → stored b ctd st st' → st_LastTimestamp st' = Ok (HTimestamp (BHeader b)).
Proof.
  intros Hh Hs. unfold st_LastTimestamp, st_Height, cache_hit, cached_block.
  rewrite (sd_open' _ _ _ _ Hs), (sd_cache _ _ _ _ Hs). simpl.
  destruct (Z.eqb_spec (HHeight (BHeader b)) 0); [lia|]. by rewrite Z.eqb_refl.
Qed.

(** ** The transactions of a block *)

Section Connect.
Context (okT : T → Prop) (cn : Chain A E T) (cs : Consensus A E T CS).
Context (cpus : nat) (pick : error → list error → error).

(** The chain with the handlers that run when a block is saved. *)
Record chain_saves : Prop := {
  cv_tame : chain_tame okT cn;
  cv_save : ∀ p pid b, member cn p → tame (p_OnSaveData p pid b);
  cv_consensus : ∀ b s, tame (cs_OnSaveData cs b s);
}.
Hypothesis Hcv : chain_saves.
Hypothesis Hcpus : (1 ≤ cpus ≤ 32)%nat.

(** What is known of a transaction after the block ran. *)
Definition tx_done c c' (cur : Z) (tx : T) (h : Hash256) : Prop :=
  let slot := ToTimeSlot (tx_Timestamp tx) in
  bad_slot cur slot = false ∧ ld_HasTimeSlot (loader c) slot h = false ∧ any_slot slot h (slot_maps c').

Lemma execute_txs_done b signers hashes (l : list (nat * T)) c c' :
  ready c → Forall (λ it, okT it.2) l →
  for_each (λ it, execute_at cn b signers hashes it.1 it.2) l c = (Ok tt, c') →
  ready c' ∧ loader c' = loader c ∧
  (∀ s k, any_slot s k (slot_maps c) → any_slot s k (slot_maps c')) ∧
  (∀ i tx, (i, tx) ∈ l → ∃ h, hashes !! i = Some h ∧ tx_done c c' (ToTimeSlot (HTimestamp (BHeader b))) tx h).
Proof using AI EI B58 Hcv.
  intros Hr Hl. revert c Hr. induction Hl as [|[i tx] l Htx _ IH]; intros c Hr Hrun.
  { injection Hrun as <-. split_and!; try done. intros i tx Hin. by apply elem_of_nil in Hin. }
  apply bind_inv_Ok in Hrun as ([] & c1 & H1 & H2). cbn [fst snd] in *. unfold execute_at in H1.
  apply bind_inv_Ok in H1 as ([] & ? & [Hslot ->]%guard_err_Ok & H1).
  apply bind_inv_Ok in H1 as (sg & ? & [= Hsg <-] & H1). apply bind_inv_Ok in H1 as (t & ? & [= Ht <-] & H1).
  apply bind_inv_Ok in H1 as (p & ? & [= Hp <-] & H1). apply bind_inv_Ok in H1 as (h & ? & [= Hh <-] & H1).
  set (slot := ToTimeSlot (tx_Timestamp tx)) in *.
  assert (HV : tame (tx_Validate tx (pid_of t) sg)) by (by eapply ct_validate; [apply Hcv|]).
  assert (HX : tame (tx_Execute tx (pid_of t) (u16 (Z.of_nat i)))) by (by eapply ct_execute; [apply Hcv|]).
  pose proof (execute_tx_tame (Generator (BHeader b)) (pid_of t) slot (u16 (Z.of_nat i)) h tx sg HV HX) as HT.
  pose proof (tame_ready _ c HT Hr) as Hr1. pose proof (tame_loader _ c HT (rd_wf _ Hr)) as Hl1.
  pose proof (λ s k, tame_any _ c s k HT (rd_wf _ Hr)) as Ha1. rewrite H1 in Hr1, Hl1, Ha1. simpl in *.
  destruct (execute_tx_uses _ _ _ _ _ _ _ _ _ HV HX Hr H1) as [Hun Hany].
  destruct (IH c1 Hr1 H2) as (Hr2 & Hl2 & Ha2 & Hd2).
  split_and!; [done|congruence|by auto|]. intros j tx' [Hj|Hj]%elem_of_cons.
  - injection Hj as -> ->. exists h. split; [by destruct (hashes !! i); simplify_eq/=|]. split_and!; auto.
  - destruct (Hd2 j tx' Hj) as (h' & Hh' & D1 & D2 & D3). exists h'. split; [done|].
    split_and!; [done| |done]. by rewrite <- Hl1.
Qed.

Lemma check_range_inv cid sp b k (txs : list T) rs :
  check_range cid sp b k txs = Ok rs →
  ∀ j tx, txs !! j = Some tx → ∃ t h sg, TransactionTypes b !! (k + j)%nat = Some t ∧
    HashTransactionByType cid t tx = Ok h ∧ rs !! j = Some (h, sg).
Proof.
  revert k rs. induction txs as [|tx txs IH]; intros k rs Hr j tx' Hj; [done|]. cbn [check_range] in Hr.
  destruct (TransactionTypes b !! k) as [t|] eqn:Ht; [|done]. cbn [of_option mbind res_bind] in Hr.
  destruct (TransactionSignatures b !! k) as [sg|]; [|done]. cbn [of_option mbind res_bind] in Hr.
  destruct (check_tx cid sp t sg tx) as [r|e|] eqn:Hc; [|done..]. cbn [mbind res_bind] in Hr.
  destruct (check_range cid sp b (S k) txs) as [rs'|e|] eqn:Hrs; [|done..]. injection Hr as <-.
  destruct j as [|j].
  - injection Hj as <-. rewrite Nat.add_0_r. unfold check_tx in Hc.
    destruct (HashTransactionByType cid t tx) as [h|e|] eqn:Hh; [|done..]. cbn [mbind res_bind] in Hc.
    destruct (match known_signers sp h sg with Some s => Ok s | None => recover_all h sg end) as [s|e|]; [|done..].
    injection Hc as <-. by exists t, h, s.
  - destruct (IH (S k) rs' Hrs j tx' Hj) as (t' & h & s & H1 & H2 & H3). exists t', h, s.
    by replace (k + S j)%nat with (S k + j)%nat by lia.
Qed.

(** The hash of a transaction of an accepted block. *)
Lemma executeBlock_done cid b sp c c' tx h :
  ready c → Forall okT (Transactions b) →
  executeBlockOnContext cpus pick cn cid b sp c = (Ok tt, c') → has_tx cid b tx h →
  ready c' ∧ loader c' = loader c ∧ tx_done c c' (slot_of b) tx h.
Proof using AI EI B58 Hcv Hcpus.
  intros Hr Hok H1 (i & t & Hi & Ht & Hh). unfold executeBlockOnContext in H1.
  apply bind_inv_Ok in H1 as ([sg hs] & ? & [= Hv <-] & H1). cbn [fst snd] in H1.
  apply bind_inv_Ok in H1 as ([] & c1 & Hb & H1). apply bind_inv_Ok in H1 as ([] & c2 & Hx & H1).
  apply bind_inv_Ok in H1 as ([] & c3 & Hc & H1).
  pose proof (before_tame okT cn (cv_tame Hcv)) as TB. pose proof (after_tame okT cn (cv_tame Hcv) b) as TA.
  pose proof (tame_ready _ c TB Hr) as R1. pose proof (tame_loader _ c TB (rd_wf _ Hr)) as L1.
  rewrite Hb in R1, L1. simpl in R1, L1.
  assert (Hl : Forall (λ it : nat * T, okT it.2) (imap pair (Transactions b))).
  { apply Forall_forall. intros [j x] (j' & x' & Hj & Hx')%elem_of_lookup_imap. injection Hj as -> ->.
    rewrite Forall_forall in Hok. apply Hok. by eapply list_elem_of_lookup_2. }
  destruct (execute_txs_done b sg hs _ c1 c2 R1 Hl Hx) as (R2 & L2 & A2 & D2).
  assert (c3 = c2) as ->.
  { unfold clean, mbind, M_bind, StackSize, gets, guard_err in Hc. destruct (1 <? _)%nat; [done|]. by injection Hc. }
  pose proof (tame_ready _ c2 TA R2) as R3. pose proof (tame_loader _ c2 TA (rd_wf _ R2)) as L3.
  pose proof (λ s k, tame_any _ c2 s k TA (rd_wf _ R2)) as A3. rewrite H1 in R3, L3, A3. simpl in *.
  split; [done|]. split; [congruence|].
  destruct (D2 i tx) as (h' & Hh' & D & U & N).
  { apply elem_of_lookup_imap. by exists i, tx. }
  unfold validateTransactionSignatures in Hv.
  destruct (check_all cpus pick cid sp b) as [rs|e|] eqn:Hca; [|done..]. cbn [mbind res_bind] in Hv.
  destruct (BuildLevelRoot _) as [root|e|]; [|done..]. cbn [mbind res_bind] in Hv.
  destruct (negb _); [done|]. injection Hv as <- <-.
  apply check_all_range in Hca; [|lia|by apply chunks_in_range].
  destruct (check_range_inv _ _ _ _ _ _ Hca i tx Hi) as (t' & h2 & s2 & Ht' & Hh2 & Hrs).
  rewrite list_lookup_fmap, Hrs in Hh'. injection Hh' as <-. simpl in Ht'.
  rewrite Ht in Ht'. injection Ht' as <-. rewrite Hh in Hh2. injection Hh2 as <-.
  split_and!; [done| |by auto]. by rewrite <- L1.
Qed.

(** ** One connected block *)

Record connected b sp nd nd' : Prop := {
  cd_header : validateHeader (BHeader b) (nd_store nd) = Ok tt;
  cd_run : ∃ ctx ctx' top,
    executeBlockOnContext cpus pick cn (st_chainID (nd_store nd)) b sp
      (NewContext (store_loader (nd_store nd))) = (Ok tt, ctx) ∧
    seal cs cn b (nd_cs nd) ctx = (Ok (nd_cs nd', inl top), ctx') ∧ stack ctx' = [top] ∧
    StoreBlock b top (nd_store nd) = (Ok tt, nd_store nd');
}.

Lemma clean_Ok c c' : clean c = (Ok tt, c') → c' = c ∧ (length (stack c) ≤ 1)%nat.
Proof.
  unfold clean, mbind, M_bind, StackSize, gets, guard_err.
  destruct (Nat.ltb_spec 1 (length (stack c))); [done|]. by intros [= <-].
Qed.

(** The steps of [seal]. *)
Lemma seal_inv b s c s' top c' :
  seal cs cn b s c = (Ok (s', inl top), c') →
  ∃ h c1 c2, Ctx_Hash c = (Ok h, c1) ∧ ContextHash (BHeader b) = h ∧
    save_hooks b cn c1 = (Ok tt, c2) ∧ cs_OnSaveData cs b s c2 = (Ok (s', None), c') ∧ stack c' = [top].
Proof.
  intros H1. unfold seal in H1.
  apply bind_inv_Ok in H1 as (h & c1 & Hh & H1).
  apply bind_inv_Ok in H1 as ([] & ? & [Hg ->]%guard_err_Ok & H1).
  apply bind_inv_Ok in H1 as ([] & ? & [-> _]%clean_Ok & H1).
  apply bind_inv_Ok in H1 as ([] & c2 & Hs & H1). apply bind_inv_Ok in H1 as ([s1 [e|]] & c3 & Hc & H1); [done|].
  apply bind_inv_Ok in H1 as (n & ? & [= <- <-] & H1).
  destruct (Nat.ltb_spec 1 (length (stack c3))) as [?|Hl]; [done|].
  apply bind_inv_Ok in H1 as (? & ? & [= <- <-] & H1).
  apply negb_false_iff, bool_decide_eq_true in Hg. exists h, c1, c2.
  destruct (stack c3) as [|t [|]] eqn:Hst; [done| |simpl in Hl; clear -Hl; lia]. by injection H1 as <- <- <-.
Qed.

Lemma ConnectBlock_connected b sp nd nd' :
  ConnectBlock cpus pick cs cn b sp nd = (Ok tt, nd') → connected b sp nd nd'.
Proof.
  unfold ConnectBlock. destruct (validateHeader (BHeader b) (nd_store nd)) as [[]|e|] eqn:Hh; [|done..].
  destruct (cs_ValidateSignature cs (BHeader b) (Signatures b) (nd_cs nd)) as [[]|e|]; [|done..].
  destruct (executeBlockOnContext cpus pick cn _ b sp _) as [[[]|e|] ctx] eqn:Hx; [|done..].
  unfold connectBlockWithContext. destruct (seal cs cn b (nd_cs nd) ctx) as [r ctx'] eqn:Hs. cbn [fst].
  destruct r as [[s [top|e]]|e|]; [|done..].
  destruct (StoreBlock b top (nd_store nd)) as [r st'] eqn:Hst. intros [= -> <-].
  split; [done|]. exists ctx, ctx', top. split_and!; [done|done| |done].
  by destruct (seal_inv _ _ _ _ _ _ Hs) as (h & c1 & c2 & _ & _ & _ & _ & ?).
Qed.

(** ** Across blocks *)

(** The transactions of a connected block were unknown before it and are
    known after it. *)
Lemma connected_slots b sp nd nd' tx h :
  store_ok (nd_store nd) → Forall okT (Transactions b) → connected b sp nd nd' →
  has_tx (st_chainID (nd_store nd)) b tx h →
  let slot := ToTimeSlot (tx_Timestamp tx) in
  bad_slot (slot_of b) slot = false ∧
  st_HasTimeSlot slot h (nd_store nd) = false ∧ st_HasTimeSlot slot h (nd_store nd') = true.
Proof using AI EI B58 Hcv Hcpus.
  intros Hst Hok [Hh (ctx & ctx' & top & Hx & Hs & Htop & Hsb)] Htx slot.
  assert (Hr : ready (NewContext (store_loader (nd_store nd)) : Ctx A E))
    by (split; [by apply store_context_wf|done|done]).
  destruct (executeBlock_done _ b sp _ ctx tx h Hr Hok Hx Htx) as (R1 & L1 & Hbad & Hun & Hany).
  fold slot in Hbad, Hun, Hany. split; [done|]. split; [done|].
  destruct (seal_inv _ _ _ _ _ _ Hs) as (h0 & c1 & c2 & Hhash & _ & Hsave & Hcs & _).
  assert (Hc1 : wf c1 ∧ slot_maps c1 = slot_maps ctx).
  { unfold Ctx_Hash in Hhash. rewrite (rd_latest _ R1) in Hhash.
    destruct (stack ctx) as [|d st] eqn:Hd; [done|]. injection Hhash as _ <-. destruct (rd_wf _ R1).
    split; [|done]. by split. }
  destruct Hc1 as [W1 M1]. rewrite <- M1 in Hany.
  assert (TS : tame (save_hooks b cn)) by (apply run_hooks_tame; intros; by eapply cv_save).
  pose proof (tame_any _ c1 slot h TS W1 Hany) as A2. rewrite Hsave in A2. simpl in A2.
  assert (W2 : wf c2).
  { pose proof (tame_frames _ TS c1 [] c1 (wf_above c1 W1)) as G. rewrite Hsave in G. apply G. }
  pose proof (tame_any _ c2 slot h (cv_consensus Hcv b (nd_cs nd)) W2 A2) as A3. rewrite Hcs in A3. simpl in A3.
  destruct A3 as (m & Hm & Hslot). unfold slot_maps in Hm. rewrite Htop in Hm.
  apply list_elem_of_singleton in Hm as ->. apply StoreBlock_stored in Hsb.
  rewrite (stored_slots _ _ _ _ slot h Hsb), Hslot. apply orb_false_iff in Hbad as [Hbad _].
  unfold slot_of in Hbad. by rewrite Hbad.
Qed.

(** A run of connected blocks. *)
Inductive connects : list (Block T) → Node T P CS → Node T P CS → Prop :=
  | connects_nil nd : connects [] nd nd
  | connects_cons b bs sp nd nd1 nd2 :
      store_ok (nd_store nd) → Forall okT (Transactions b) → timely b →
      ConnectBlock cpus pick cs cn b sp nd = (Ok tt, nd1) → connects bs nd1 nd2 →
      connects (b :: bs) nd nd2.

(** A used pair is in the store, or too old for any later block. *)
Definition remembered (s : Z) (h : Hash256) st : Prop :=
  ∃ t, st_LastTimestamp st = Ok t ∧ 5000000000 ≤ t < 2 ^ 32 * 5000000000 ∧
       (st_HasTimeSlot s h st = true ∨ s < t `div` 5000000000 - 1).

Lemma connected_remembers b sp nd nd' s h :
  timely b → connected b sp nd nd' → remembered s h (nd_store nd) → remembered s h (nd_store nd').
Proof.
  intros Hb [Hh (ctx & ctx' & top & _ & _ & _ & Hsb%StoreBlock_stored)] (t & Ht & Htr & Hs).
  exists (HTimestamp (BHeader b)). split; [apply (stored_last_time _ _ _ _ (proj2 Hb) Hsb)|].
  split; [apply Hb|]. pose proof (validateHeader_later _ _ _ Hh Ht) as Hlt.
  assert (t `div` 5000000000 ≤ HTimestamp (BHeader b) `div` 5000000000) by (apply Z.div_le_mono; lia).
  destruct (timely_slot b Hb) as [Hslot Hrange].
  rewrite (stored_slots _ _ _ _ s h Hsb). fold (slot_of b). rewrite (timely_pred b Hb), Hslot.
  destruct (Z.ltb_spec s (HTimestamp (BHeader b) `div` 5000000000 - 1)); [by right|].
  destruct Hs as [Hs|Hs]; [left|lia]. by rewrite Hs, orb_true_r.
Qed.

Lemma connected_chain b sp nd nd' : connected b sp nd nd' → st_chainID (nd_store nd') = st_chainID (nd_store nd).
Proof. intros [_ (ctx & ctx' & top & _ & _ & _ & Hsb%StoreBlock_stored)]. apply Hsb. Qed.

(** A remembered transaction is refused. *)
Lemma remembered_refused b sp nd nd' tx h :
  store_ok (nd_store nd) → Forall okT (Transactions b) → timely b → connected b sp nd nd' →
  remembered (ToTimeSlot (tx_Timestamp tx)) h (nd_store nd) →
  ¬ has_tx (st_chainID (nd_store nd)) b tx h.
Proof using AI EI B58 Hcv Hcpus.
  intros Hst Hok Hb Hc (t & Ht & Htr & Hs) Htx.
  destruct (connected_slots b sp nd nd' tx h Hst Hok Hc Htx) as (Hbad & Hun & _).
  destruct Hs as [Hs|Hs]; [congruence|]. unfold bad_slot in Hbad. apply orb_false_iff in Hbad as [Hbad _].
  rewrite (timely_pred b Hb) in Hbad. apply Z.ltb_ge in Hbad.
  pose proof (validateHeader_later _ _ _ (cd_header _ _ _ _ Hc) Ht).
  assert (t `div` 5000000000 ≤ HTimestamp (BHeader b) `div` 5000000000) by (apply Z.div_le_mono; lia).
  destruct (timely_slot b Hb) as [Hslot _]. lia.
Qed.

Lemma connects_refuse bs nd nd' tx h :
  connects bs nd nd' → remembered (ToTimeSlot (tx_Timestamp tx)) h (nd_store nd) →
  Forall (λ b, ¬ has_tx (st_chainID (nd_store nd)) b tx h) bs.
Proof using AI EI B58 Hcv Hcpus.
  induction 1 as [|b bs sp nd nd1 nd2 Hst Hok Hb Hc%ConnectBlock_connected _ IH]; intros Hr; [constructor|].
  constructor; [by eapply remembered_refused|].
  rewrite <- (connected_chain _ _ _ _ Hc). apply IH. by eapply connected_remembers.
Qed.
End Connect.

(** C2. No transaction is executed in two blocks.  When a block that
    contains a transaction has been connected, no block connected after it,
    however many are in between, contains the transaction again: a used pair
    of time slot and hash stays known until its slot is too old for every
    later block. *)
Theorem no_replay_across_blocks okT cn cs cpus pick b1 bs (nd nd' : Node T P CS) tx h :
  chain_saves okT cn cs → (1 ≤ cpus ≤ 32)%nat →
  connects okT cn cs cpus pick (b1 :: bs) nd nd' →
  has_tx (st_chainID (nd_store nd)) b1 tx h →
  Forall (λ b, ¬ has_tx (st_chainID (nd_store nd)) b tx h) bs.
Proof.
  intros Hcv Hcpus Hrun Htx. inversion Hrun as [|b bs' sp nd0 nd1 nd2 Hst Hok Hb Hc Hrest]; subst.
  pose proof (ConnectBlock_connected cn cs cpus pick b1 sp nd nd1 Hc) as Hc'.
  rewrite <- (connected_chain _ _ _ _ _ _ _ _ Hc').
  eapply (connects_refuse okT cn cs cpus pick Hcv Hcpus); [done|].
  destruct (connected_slots okT cn cs cpus pick Hcv Hcpus b1 sp nd nd1 tx h Hst Hok Hc' Htx) as (_ & _ & Hin).
  destruct Hc' as [_ (ctx & ctx' & top & _ & _ & _ & Hsb%StoreBlock_stored)].
  exists (HTimestamp (BHeader b1)). split; [apply (stored_last_time _ _ _ _ (proj2 Hb) Hsb)|].
  split; [apply Hb|by left].
Qed.


(** ** The header *)

(** A header is accepted exactly when it continues the chain: the chain
    identifier and the previous hash are those of the store, the timestamp is
    later than the last one, the generator is not the empty address, the
    height is the next one, and the version is not newer than the software,
    not older than that of the last block, and positive for the first
    block. *)
Theorem validateHeader_iff (bh : Header) st height last ts :
  st_LastStatus st = Ok (height, last) → st_LastTimestamp st = Ok ts →
  (∃ target, st_Header height st = Ok target) →
  validateHeader bh st = Ok tt ↔
    ChainID bh = st_chainID st ∧ PrevHash bh = last ∧ ts < HTimestamp bh ∧
    Generator bh ≠ emptyAddr ∧ HHeight bh = u32 (height + 1) ∧ Version bh ≤ st_version st ∧
    (if decide (HHeight bh = 1) then 0 < Version bh
     else ∀ target, st_Header height st = Ok target → Version target ≤ Version bh ∧ ChainID bh = ChainID target).
Proof.
  intros H1 H2 [tg Htg]. unfold validateHeader. rewrite H1. cbn [mbind res_bind].
  destruct (Z.eqb_spec (ChainID bh) (st_chainID st)); cbn [negb]; [|split; [done|naive_solver]].
  destruct (Z.ltb_spec (st_version st) (Version bh)); [split; [done|lia]|].
  case_bool_decide; cbn [negb]; [|split; [done|naive_solver]].
  rewrite H2. cbn [mbind res_bind]. destruct (Z.leb_spec (HTimestamp bh) ts); [split; [done|lia]|].
  case_bool_decide; [split; [done|naive_solver]|].
  destruct (Z.eqb_spec (HHeight bh) (u32 (height + 1))) as [Hh|]; cbn [negb]; [|split; [done|naive_solver]].
  destruct (Z.eqb_spec (HHeight bh) 1) as [E1|E1].
  - rewrite (decide_True (P := HHeight bh = 1)) by done.
    destruct (Z.leb_spec (Version bh) 0); [split; [done|lia]|]. by split.
  - rewrite (decide_False (P := HHeight bh = 1)) by done. rewrite Htg. cbn [mbind res_bind].
    destruct (Z.ltb_spec (Version bh) (Version tg)).
    { split; [done|]. intros (_ & _ & _ & _ & _ & _ & G). destruct (G tg eq_refl). lia. }
    destruct (Z.eqb_spec (ChainID bh) (ChainID tg)); cbn [negb].
    + split; [|done]. intros _. split_and!; try done. intros t [= <-]. done.
    + split; [done|]. intros (_ & _ & _ & _ & _ & _ & G). by destruct (G tg eq_refl).
Qed.

(** ** What a connected block leaves *)

Lemma validateHeader_links (bh : Header) st height last :
  validateHeader bh st = Ok tt → st_LastStatus st = Ok (height, last) →
  ChainID bh = st_chainID st ∧ PrevHash bh = last ∧ HHeight bh = u32 (height + 1).
Proof.
  intros H1 H2. unfold validateHeader in H1. rewrite H2 in H1. cbn [mbind res_bind] in H1.
  destruct (Z.eqb_spec (ChainID bh) (st_chainID st)); cbn [negb] in H1; [|done].
  destruct (_ <? _); [done|]. case_bool_decide; cbn [negb] in H1; [|done].
  destruct (st_LastTimestamp st) as [ts|er|]; [|done..]. cbn [mbind res_bind] in H1.
  destruct (_ <=? _); [done|]. case_bool_decide; [done|].
  destruct (Z.eqb_spec (HHeight bh) (u32 (height + 1))); [done|]. done.
Qed.

(** C5. A connected block extends the chain: it refers to the last block by
    its hash, has the next height, carries the hash of the context that its
    execution produced, and is the last block of the store afterwards. *)
Theorem ConnectBlock_extends cn cs cpus pick b sp (nd nd' : Node T P CS) height last :
  timely b →
  st_LastStatus (nd_store nd) = Ok (height, last) →
  ConnectBlock cpus pick cs cn b sp nd = (Ok tt, nd') →
  PrevHash (BHeader b) = last ∧ HHeight (BHeader b) = u32 (height + 1) ∧
  ChainID (BHeader b) = st_chainID (nd_store nd) ∧
  (∃ ctx, executeBlockOnContext cpus pick cn (st_chainID (nd_store nd)) b sp
            (NewContext (store_loader (nd_store nd))) = (Ok tt, ctx) ∧
          (Ctx_Hash ctx).1 = Ok (ContextHash (BHeader b))) ∧
  st_LastStatus (nd_store nd') = Ok (HHeight (BHeader b), header_Hash (BHeader b)) ∧
  st_LastTimestamp (nd_store nd') = Ok (HTimestamp (BHeader b)) ∧
  st_Block (HHeight (BHeader b)) (nd_store nd') = Ok b.
Proof.
  intros Hb Hlast Hc%ConnectBlock_connected.
  destruct Hc as [Hh (ctx & ctx' & top & Hx & Hs & _ & Hsb%StoreBlock_stored)].
  destruct (validateHeader_links _ _ _ _ Hh Hlast) as (L1 & L2 & L3).
  destruct (seal_inv _ _ _ _ _ _ _ _ Hs) as (h0 & c1 & c2 & Hhash & Heq & _).
  split_and!; try done.
  - exists ctx. split; [done|]. by rewrite Hhash, Heq.
  - unfold st_LastStatus, st_Height, st_Hash, cache_hit. rewrite (sd_open' _ _ _ _ Hsb), (sd_cache _ _ _ _ Hsb).
    simpl. rewrite Z.eqb_refl. by destruct (Z.eqb_spec (HHeight (BHeader b)) 0) as [->|].
  - apply (stored_last_time _ _ _ _ (proj2 Hb) Hsb).
  - unfold st_Block, cache_hit, cached_block. rewrite (sd_open' _ _ _ _ Hsb), (sd_cache _ _ _ _ Hsb). simpl.
    destruct Hb as [_ Hb]. destruct (Z.ltb_spec (HHeight (BHeader b)) 1); [lia|]. by rewrite Z.eqb_refl.
Qed.

(** C6. A block that is not connected changes neither the state database,
    nor the time slots, nor the last block. *)
Theorem ConnectBlock_refused cn cs cpus pick b sp (nd nd' : Node T P CS) r :
  ConnectBlock cpus pick cs cn b sp nd = (r, nd') → r ≠ Ok tt →
  st_db (nd_store nd') = st_db (nd_store nd) ∧ st_timeSlotMap (nd_store nd') = st_timeSlotMap (nd_store nd) ∧
  st_cache (nd_store nd') = st_cache (nd_store nd).
Proof.
  intros Hc Hr. unfold ConnectBlock in Hc.
  destruct (validateHeader (BHeader b) (nd_store nd)) as [[]|e|]; [|by injection Hc as <- <-..].
  destruct (cs_ValidateSignature cs (BHeader b) (Signatures b) (nd_cs nd)) as [[]|e|]; [|by injection Hc as <- <-..].
  destruct (executeBlockOnContext cpus pick cn _ b sp _) as [[[]|e|] ctx]; [|by injection Hc as <- <-..].
  unfold connectBlockWithContext in Hc.
  destruct (seal cs cn b (nd_cs nd) ctx).1 as [[s [top|e]]|e|]; [|by injection Hc as <- <-..].
  destruct (StoreBlock b top (nd_store nd)) as [r' st'] eqn:Hs. injection Hc as -> <-. simpl.
  by apply (StoreBlock_refused b top (nd_store nd) st' r).
Qed.

(** ** The creator and a used slot *)

Section Stuck.
Context (okT : T → Prop) (cn : Chain A E T) (Hcn : chain_tame okT cn) (cid : Z) (gen : Address).

Definition stuck (bc : BlockCreator A E T) : Prop :=
  ready (bc_ctx bc) ∧ (2 ≤ length (stack (bc_ctx bc)))%nat.

Lemma UnsafeAddTx_stuck t h tx sigs sg bc :
  okT tx → stuck bc → (UnsafeAddTx cn gen t h tx sigs sg bc).1 ≠ Panic →
  stuck (UnsafeAddTx cn gen t h tx sigs sg bc).2.
Proof using AI EI B58 Hcn.
  intros Htx [Hr Hl]. destruct (UnsafeAddTx cn gen t h tx sigs sg bc) as [r bc'] eqn:Hadd. cbn [fst snd].
  unfold UnsafeAddTx, mbind, M_bind, lift, get in Hadd.
  destruct (getProcess cn (pid_of t)) as [p|e|]; [|injection Hadd as <- <-; by split..].
  unfold guard_err, fail, mret, M_ret, on_ctx, modify in Hadd.
  destruct (bad_slot _ _); [injection Hadd as <- <-; by split|].
  pose proof (execute_tx_spec gen (pid_of t) (ToTimeSlot (tx_Timestamp tx))
    (u16 (Z.of_nat (length (Transactions (bc_b bc))))) h tx sg
    (ct_validate _ _ Hcn _ _ _ Htx) (ct_execute _ _ Hcn _ _ _ Htx) (bc_ctx bc) Hr) as G.
  destruct (execute_tx _ _ _ _ _ _ _ (bc_ctx bc)) as [[[]|er|] c2]; injection Hadd as <- <-; intros Hp; [| |done].
  - destruct G as [Hr2 Ht]. split; [done|]. simpl.
    destruct (wf_top c2 (rd_wf _ Hr2)) as (d & st & Hd & _).
    destruct (wf_top _ (rd_wf _ Hr)) as (d' & st' & Hd' & _). rewrite Hd, Hd' in *. simpl in *. by subst.
  - destruct G as [[Hs Hr2]|(_ & Hr2 & Hlen)]; (split; [done|]); simpl; [|lia].
    by rewrite <- (same_length _ _ Hs).
Qed.

Lemma AddTx_stuck tx sigs bc :
  okT tx → stuck bc → (AddTx cn cid gen tx sigs bc).1 ≠ Panic → stuck (AddTx cn cid gen tx sigs bc).2.
Proof using AI EI B58 Hcn.
  intros Htx Hs. unfold AddTx, mbind, M_bind, lift. destruct (tx_TypeOf tx) as [t|e|]; [|done..].
  destruct (HashTransactionByType cid t tx) as [h|e|]; [|done..].
  destruct (recover_all h sigs) as [sg|e|]; [|done..]. by apply UnsafeAddTx_stuck.
Qed.

Lemma add_all_stuck reqs bc bc' :
  Forall (λ r, okT r.1) reqs → stuck bc → add_all cid cn gen reqs bc = Some bc' → stuck bc'.
Proof using AI EI B58 Hcn.
  intros Hok. revert bc. induction Hok as [|[tx sigs] reqs Htx _ IH]; intros bc Hs Ha; simpl in Ha.
  { by injection Ha as <-. }
  pose proof (AddTx_stuck tx sigs bc Htx Hs) as G.
  destruct (AddTx cn cid gen tx sigs bc) as [[[]|e|] bc1]; simpl in G; [by apply (IH bc1); auto..|done].
Qed.
End Stuck.

(** A used slot ends the block.  A transaction whose hash the chain
    already knows for its time slot is refused by [UnsafeAddTx], but the
    snapshot stays open: whatever is added afterwards, [Finalize] never
    returns a block again, so the transactions added before are lost with
    it. *)
Theorem used_slot_blocks_Finalize okT cn cid gen t h tx sigs sg (bc : BlockCreator A E T) p :
  chain_tame okT cn → okT tx → ready (bc_ctx bc) → getProcess cn (pid_of t) = Ok p →
  bad_slot (slot_of (bc_b bc)) (ToTimeSlot (tx_Timestamp tx)) = false →
  ld_HasTimeSlot (loader (bc_ctx bc)) (ToTimeSlot (tx_Timestamp tx)) h = true →
  ∃ bc', UnsafeAddTx cn gen t h tx sigs sg bc = (Err ErrUsedTimeSlot, bc') ∧
    ∀ reqs bc2 b bc3, Forall (λ r, okT r.1) reqs → add_all cid cn gen reqs bc' = Some bc2 →
      Finalize cn bc2 ≠ (Ok b, bc3).
Proof.
  intros Hcn Htx Hr Hp Hslot Hused.
  destruct (execute_tx_used gen (pid_of t) (ToTimeSlot (tx_Timestamp tx))
    (u16 (Z.of_nat (length (Transactions (bc_b bc))))) h tx sg (bc_ctx bc) Hr Hused) as (c2 & Hrun & Hr2 & Hl2).
  eexists. split.
  - unfold UnsafeAddTx, mbind, M_bind, lift, get. rewrite Hp. unfold slot_of in Hslot. rewrite Hslot.
    unfold guard_err, mret, M_ret, on_ctx. rewrite Hrun. done.
  - intros reqs bc2 b bc3 Hok Hadd Hf.
    assert (Hs : stuck (mkCreator c2 (bc_txHashes bc) (bc_b bc))).
    { split; [done|]. simpl. rewrite Hl2. destruct (wf_top _ (rd_wf _ Hr)) as (? & ? & -> & _). simpl. lia. }
    destruct (add_all_stuck okT cn Hcn cid gen reqs _ bc2 Hok Hs Hadd) as [_ Hl].
    apply Finalize_inv in Hf as (root & c1 & c3 & hh & _ & Hlen & _). lia.
Qed.

End ChainConnect.
