(* ===== verification/VaultTame.v ===== *)
(** * process/vault behind the interface of the chain

    The handlers of the vault as a process, its transactions as the
    transactions of a chain, and the proof that they are the programs the
    chain expects. *)

From S2P Require Import Prelude Amount Common Context ContextSpec ContextBisim Block Chain ChainAgree Vault.

Section VaultTame.
Context {A E : Type} `{AI : AccountI A} `{EI : EventI E} `{B58 : Base58}.
Context `{VA : !VaultAccounts A} `{PC : PolicyCodec}.
Context (pid admin_pid magic : Z) (Hpid : valid_pid pid) (Hadmin : valid_pid admin_pid).

(** Go iterates a map in an order of its own. *)
Context (range : gmap Address Z → list (Address * Z)).
Hypothesis Hrange : ∀ m, range m ≡ₚ map_to_list m.

(** ** The process and its transactions *)

(** The vault overrides [AfterExecuteTransactions] only. *)
Definition vault_Process : Process A E vault_tx :=
  mkProcess pid vault_Name
    (λ _, mret tt)
    (λ _ b, AfterExecuteTransactions pid range (HHeight (BHeader b)))
    (λ _ _, mret tt).

Definition vault_TransactionI : TransactionI vault_tx A E := {|
  Block.tx_Timestamp := Vault.tx_Timestamp;
  tx_Validate tx _ signers := vault_Validate pid admin_pid tx signers;
  tx_Execute tx _ index := vault_Execute pid magic tx index;
|}.

(** Addresses have their size, as the wire format makes them. *)
Definition vault_tx_ok (tx : vault_tx) : Prop :=
  valid_addr (tx_From tx) ∧
  match tx with
  | Transfer _ _ to _ | TransferWithTag _ _ to _ _ => valid_addr to
  | _ => True
  end.

(** ** Methods *)

Lemma tame_Balance a : valid_addr a → tame (Balance pid a : M (Ctx A E) Z).
Proof using Hpid AI EI B58. unfold Balance. eauto with tame. Qed.

Lemma tame_AddBalance a am : valid_addr a → tame (AddBalance pid a am : M (Ctx A E) unit).
Proof using Hpid AI EI B58. pose proof tame_Balance. unfold AddBalance. eauto 10 with tame. Qed.

Lemma tame_SubBalance a am : valid_addr a → tame (SubBalance pid a am : M (Ctx A E) unit).
Proof using Hpid AI EI B58. pose proof tame_Balance. unfold SubBalance, RemoveBalance. eauto 10 with tame. Qed.

Lemma tame_LockedBalance a h : tame (LockedBalance pid a h : M (Ctx A E) Z).
Proof using Hpid AI EI B58. unfold LockedBalance. eauto with tame. Qed.

Lemma tame_TotalLockedBalance a : valid_addr a → tame (TotalLockedBalanceByAddress pid a : M (Ctx A E) Z).
Proof using Hpid AI EI B58. unfold TotalLockedBalanceByAddress. eauto with tame. Qed.

Lemma tame_CollectedFee : tame (CollectedFee pid : M (Ctx A E) Z).
Proof using Hpid AI EI B58. unfold CollectedFee. eauto with tame. Qed.

Lemma tame_AddCollectedFee am : tame (AddCollectedFee pid am : M (Ctx A E) unit).
Proof using Hpid AI EI B58. pose proof tame_CollectedFee. unfold AddCollectedFee. eauto 10 with tame. Qed.

Lemma tame_GetDefaultFee : tame (GetDefaultFee pid : M (Ctx A E) Z).
Proof using Hpid AI EI B58. unfold GetDefaultFee. eauto 10 with tame. Qed.

Lemma tame_CheckFee from (Fee : M (Ctx A E) Z) am :
  valid_addr from → tame Fee → tame (CheckFeePayableWith pid from Fee am).
Proof using Hpid AI EI B58. intros Hf HF. pose proof tame_Balance. unfold CheckFeePayableWith. eauto 12 with tame. Qed.

Lemma tame_WithFee from (Fee : M (Ctx A E) Z) fn :
  valid_addr from → tame Fee → tame fn → tame (WithFee pid from Fee fn).
Proof using Hpid AI EI B58.
  intros Hf HF Hfn. unfold WithFee.
  apply tame_bind; [done|]. intros fee. apply tame_bind; [by apply tame_SubBalance|]. intros _.
  apply tame_bind; [apply tame_CollectedFee|]. intros f. apply tame_bind; [eauto with tame|]. intros _.
  by apply tame_scope.
Qed.

(** ** The hook after the transactions *)

Lemma copy_valid bs : valid_addr (copy emptyAddr bs).
Proof. unfold valid_addr. by rewrite length_copy. Qed.

Definition keys_valid (m : gmap Address Z) : Prop := ∀ a, is_Some (m !! a) → valid_addr a.

Lemma flush_step_valid h m i (c : Ctx A E) m' c' :
  keys_valid m → flush_step pid h m i c = (Ok m', c') → keys_valid m'.
Proof.
  intros Hm H1. unfold flush_step in H1.
  apply bind_inv_Ok in H1 as (bs & ? & _ & H1). apply bind_inv_Ok in H1 as (lb & ? & _ & H1).
  apply bind_inv_Ok in H1 as (? & ? & _ & H1). apply bind_inv_Ok in H1 as (? & ? & _ & H1).
  apply bind_inv_Ok in H1 as (? & ? & _ & [= <- _]). intros a Ha.
  destruct (decide (a = copy emptyAddr bs)) as [->|Hne]; [apply copy_valid|].
  rewrite lookup_insert_ne in Ha by done. by apply Hm.
Qed.

Lemma fold_flush_valid h l m (c : Ctx A E) m' c' :
  keys_valid m → fold_m (flush_step pid h) m l c = (Ok m', c') → keys_valid m'.
Proof.
  revert m c. induction l as [|i l IH]; intros m c Hm H1; [by injection H1 as <- _|].
  apply bind_inv_Ok in H1 as (m1 & c1 & H1 & H2). eapply IH; [|done]. by eapply flush_step_valid.
Qed.

Lemma flush_valid h (c : Ctx A E) m c' : flushLockedBalanceMap pid h c = (Ok m, c') → keys_valid m.
Proof.
  assert (H0 : keys_valid ∅) by (intros a Ha; by rewrite lookup_empty in Ha; destruct Ha).
  intros H1. unfold flushLockedBalanceMap in H1. apply bind_inv_Ok in H1 as (bs & c1 & _ & H1).
  destruct (nonempty bs); [|by injection H1 as <- _].
  apply bind_inv_Ok in H1 as (n & c2 & _ & H1). apply bind_inv_Ok in H1 as (m1 & c3 & H1 & H2).
  apply bind_inv_Ok in H2 as (? & ? & _ & [= <- _]). by eapply fold_flush_valid.
Qed.

Lemma tame_flush h : tame (flushLockedBalanceMap pid h : M (Ctx A E) _).
Proof using Hpid AI EI B58.
  pose proof tame_LockedBalance. unfold flushLockedBalanceMap.
  apply tame_bind; [eauto with tame|]. intros bs. destruct (nonempty bs); [|apply tame_ret].
  apply tame_bind; [apply tame_lift|]. intros n. apply tame_bind; [|eauto with tame].
  apply tame_fold. intros m i. unfold flush_step. eauto 12 with tame.
Qed.

Lemma tame_settle e : valid_addr e.1 → tame (settle pid e : M (Ctx A E) unit).
Proof using Hpid AI EI B58.
  intros Ha. destruct e as [a am]. simpl in Ha. pose proof tame_AddBalance. pose proof tame_TotalLockedBalance.
  unfold settle. apply tame_bind; [eauto with tame|]. intros [[]|err]; eauto 12 with tame.
Qed.

Lemma tame_AfterExecuteTransactions h : tame (AfterExecuteTransactions pid range h : M (Ctx A E) unit).
Proof using Hpid Hrange AI EI B58.
  unfold AfterExecuteTransactions. apply (tame_bind_post keys_valid); [apply tame_flush|apply flush_valid|].
  intros m Hm. apply tame_for_each. intros [a am] Hin. apply tame_settle.
  rewrite Hrange in Hin. apply elem_of_map_to_list in Hin. apply Hm. eauto.
Qed.

(** ** The transactions *)

Lemma tame_validate_signers from sg : tame (validate_signers from sg : M (Ctx A E) unit).
Proof. unfold validate_signers. eauto with tame. Qed.

Lemma tame_only_admin from : tame (only_admin admin_pid from : M (Ctx A E) unit).
Proof using Hadmin AI EI B58. unfold only_admin, AdminAddress. eauto 10 with tame. Qed.

Lemma tame_read_policy : tame (read_policy pid : M (Ctx A E) Policy).
Proof using Hpid AI EI B58. unfold read_policy. eauto 10 with tame. Qed.

Lemma tame_must_exist a : tame (must_exist a : M (Ctx A E) unit).
Proof. unfold must_exist. eauto with tame. Qed.
Lemma tame_name_is_new n : tame (name_is_new n : M (Ctx A E) unit).
Proof. unfold name_is_new. eauto with tame. Qed.

Lemma vault_Validate_tame tx sg : vault_tx_ok tx → tame (vault_Validate pid admin_pid tx sg : M (Ctx A E) unit).
Proof using Hpid Hadmin AI EI B58.
  intros [Hf Ht]. pose proof tame_validate_signers. pose proof tame_only_admin. pose proof tame_read_policy.
  pose proof tame_must_exist. pose proof tame_name_is_new. pose proof tame_GetDefaultFee.
  pose proof (λ am, tame_CheckFee (tx_From tx) (GetDefaultFee pid) am Hf tame_GetDefaultFee) as HC.
  destruct tx; simpl in Hf, Ht, HC |- *; eauto 15 with tame.
Qed.

Lemma tame_pay_and_create from cost mk i :
  valid_addr from → tame (pay_and_create pid magic from cost mk i : M (Ctx A E) unit).
Proof using Hpid AI EI B58.
  intros Hf. pose proof tame_SubBalance. pose proof tame_AddCollectedFee. unfold pay_and_create.
  eauto 10 with tame.
Qed.

Lemma vault_Execute_tame tx i : vault_tx_ok tx → tame (vault_Execute pid magic tx i : M (Ctx A E) unit).
Proof using Hpid AI EI B58.
  intros [Hf Ht]. pose proof tame_GetDefaultFee. pose proof tame_SubBalance. pose proof tame_AddBalance.
  pose proof tame_read_policy. pose proof tame_pay_and_create.
  pose proof (λ fn, tame_WithFee (tx_From tx) (GetDefaultFee pid) fn Hf tame_GetDefaultFee) as HW.
  destruct tx; simpl in Hf, Ht, HW |- *; unfold transfer_fn; eauto 12 with tame.
Qed.

(** ** A chain of the vault and an application without hooks *)

Definition base_app : Process A E vault_tx := mkProcess 255 (str "app") (λ _, mret tt) (λ _ _, mret tt) (λ _ _, mret tt).

Lemma vault_is_tame (cn : Chain A E vault_tx) :
  cn_processes cn = [vault_Process] → cn_app cn = base_app →
  chain_tame (TX := vault_TransactionI) vault_tx_ok cn.
Proof using Hpid Hadmin Hrange AI EI B58.
  intros Hp Ha. assert (Hm : ∀ p, member cn p → p = vault_Process ∨ p = base_app).
  { intros p [Hin| ->]; [|by right]. rewrite Hp in Hin. left. by apply list_elem_of_singleton in Hin. }
  split.
  - intros tx i sg Hok. by apply vault_Validate_tame.
  - intros tx i j Hok. by apply vault_Execute_tame.
  - intros p i [-> | ->]%Hm; apply tame_ret.
  - intros p i b [-> | ->]%Hm; [apply tame_AfterExecuteTransactions|apply tame_ret].
  - intros p i b b' [-> | ->]%Hm Hb; [|done]. simpl.
    apply (f_equal (λ b, HHeight (BHeader b))) in Hb. simpl in Hb. by rewrite Hb.
Qed.

(** The vault is a process the chain can rely on: its transactions and
    its hook read the context through its layers only, give back the layers
    they find, keep the top layer in use and forget no time slot. *)
Theorem vault_chain_tame (cn : Chain A E vault_tx) :
  cn_processes cn = [vault_Process] → cn_app cn = base_app →
  chain_tame (TX := vault_TransactionI) vault_tx_ok cn.
Proof using Hpid Hadmin Hrange AI EI B58. apply vault_is_tame. Qed.

End VaultTame.
