(* ===== verification/Pof.v ===== *)
(** * pof: the proof-of-formulator consensus

    consensus.go and consensus_method.go: the state of the consensus, the
    check of the signatures of a block, the update of the rank table when a
    block is saved, and the form in which the state is kept in the chain. *)

From S2P Require Import Prelude Tokens Common Context Block Store Chain Search Rank.

(** formulator_account.go: what the consensus sees of an account.  [fa_is] is
    the type assertion together with [IsFormulator]. *)
Class FormulatorI (A : Type) := {
  fa_is : A → bool;
  fa_GeneratorHash : A → PublicHash;
  fa_IsActivated : A → bool;
}.

Definition PublicHashSize : nat := 31.
Definition tagState : bytes := [1].
(** ** The codecs of rank.go, rank_table.go and map_publichash_bool.go *)

Definition Rank_encode (r : Rank) : list ctoken :=
  [CtBytes (rk_Address r); CtBytes (rk_PublicHash r); CtUint32 (rk_phase r); CtBytes (rk_hashSpace r)].

(** The score is not read. *)
Definition Rank_decode (ts : list ctoken) : res (Rank * list ctoken) :=
  '(addr, ts) ← read_Bytes ts;
  '(pubhash, ts) ← read_Bytes ts;
  '(phase, ts) ← read_Uint32 ts;
  '(hs, ts) ← read_Bytes ts;
  mret (mkRank (copy emptyAddr addr) (copy (replicate PublicHashSize 0) pubhash) phase
          (copy (replicate Hash256Size 0) hs) 0, ts).

Definition RankTable_encode (rt : RankTable) : list ctoken :=
  CtUint32 (rt_height rt) :: CtArrayLen (length (rt_candidates rt)) :: (rt_candidates rt ≫= Rank_encode).

(** The loop over the ranks: each is appended and entered into the map, and
    its score computed. *)
Fixpoint decode_ranks (n : nat) (rt : RankTable) (ts : list ctoken) : res (RankTable * list ctoken) :=
  match n with
  | O => mret (rt, ts)
  | S n =>
      '(s, ts) ← Rank_decode ts;
      let s := rk_update s in
      decode_ranks n
        (mkTable (rt_height rt) (rt_candidates rt ++ [s]) (<[rk_Address s := rk_PublicHash s]> (rt_rankMap rt))) ts
  end.

Definition RankTable_decode (ts : list ctoken) : res (RankTable * list ctoken) :=
  '(height, ts) ← read_Uint32 ts;
  '(Len, ts) ← read_ArrayLen ts;
  decode_ranks Len (mkTable height [] ∅) ts.

Definition KeyMap_encode (m : gmap PublicHash bool) : list ctoken :=
  CtArrayLen (size m) :: (sorted_entries m ≫= λ e, [CtBytes e.1; CtBool e.2]).

Fixpoint decode_keys (n : nat) (m : gmap PublicHash bool) (ts : list ctoken)
    : res (gmap PublicHash bool * list ctoken) :=
  match n with
  | O => mret (m, ts)
  | S n =>
      '(bs, ts) ← read_Bytes ts;
      '(v, ts) ← read_Bool ts;
      decode_keys n (<[copy (replicate PublicHashSize 0) bs := v]> m) ts
  end.

Definition KeyMap_decode (ts : list ctoken) : res (gmap PublicHash bool * list ctoken) :=
  '(Len, ts) ← read_ArrayLen ts;
  decode_keys Len ∅ ts.

(** ** consensus.go *)

Record CState := mkCState {
  cs_max : Z;                              (* maxBlocksPerFormulator *)
  cs_blocks : Z;                           (* blocksBySameFormulator *)
  cs_observers : gmap PublicHash bool;     (* observerKeyMap *)
  cs_rt : RankTable;
}.
Definition set_blocks (n : Z) (s : CState) : CState := mkCState (cs_max s) n (cs_observers s) (cs_rt s).
Definition set_rt (rt : RankTable) (s : CState) : CState := mkCState (cs_max s) (cs_blocks s) (cs_observers s) rt.

Definition NewConsensus (MaxBlocksPerFormulator : Z) (ObserverKeys : list PublicHash) : CState :=
  mkCState MaxBlocksPerFormulator 0 (foldl (λ m pubhash, <[pubhash := true]> m) ∅ ObserverKeys) NewRankTable.

Definition on_rt {V} (m : M RankTable V) : M CState V := λ s,
  let '(r, rt) := m (cs_rt s) in (r, set_rt rt s).

Section Pof.
Context {A E T : Type} `{AI : AccountI A} `{EI : EventI E} `{B58 : Base58} `{HF : HashFn} `{RC : Recover}.
Context `{SC : StoreCodec A E T} `{FI : FormulatorI A} `{TK : TokenCodec}.
(** [encoding.Hash] of a [types.BlockSign]. *)
Context (BlockSign_Hash : Hash256 → Signature → Hash256).

Definition DecodeConsensusData (ConsensusData : bytes) : res Z :=
  '(TimeoutCount, _) ← read_Uint32 (tk_read ConsensusData); mret TimeoutCount.
Definition encodeConsensusData (TimeoutCount : Z) : bytes := tk_bytes [CtUint32 TimeoutCount].

Definition buildSaveData (s : CState) : bytes :=
  tk_bytes (CtUint32 (cs_max s) :: KeyMap_encode (cs_observers s) ++
            CtUint32 (cs_blocks s) :: RankTable_encode (cs_rt s)).

(** One account of the top layer. *)
Definition update_account (phase target : Z) (e : Address * A) : M RankTable unit :=
  let '(addr, a) := e in
  let fresh := NewRank addr (fa_GeneratorHash a) phase (DoubleHash addr) in
  if fa_is a then
    if Height (acc_Address a) =? target then
      if fa_IsActivated a then addRank fresh else mret tt
    else
      rt ← get;
      match rt_rankMap rt !! addr with
      | Some pubhash =>
          if negb (fa_IsActivated a) then modify (removeRank addr)
          else if negb (bool_decide (pubhash = fa_GeneratorHash a)) then
            modify (removeRank addr) ;; addRank fresh
          else mret tt
      | None => if fa_IsActivated a then addRank fresh else mret tt
      end
  else mret tt.

Definition update_deleted (e : Address * A) : M RankTable unit :=
  if fa_is e.2 then modify (removeRank (acc_Address e.2)) else mret tt.

Definition updateFormulatorList (top : ContextData A E) (target : Z) : M RankTable unit :=
  rt ← get;
  let phase := u32 (smallestPhase rt + 2) in
  for_each (update_account phase target) (sorted_entries (AccountMap top)) ;;
  for_each update_deleted (sorted_entries (DeletedAccountMap top)) ;;
  rt ← get;
  guard_err (CandidateCount rt =? 0)%nat ErrInsufficientCandidateCount.

(** The turn of the formulators: timeouts first, then the count of blocks of
    the one on top. *)
Definition take_turn (TimeoutCount : nat) (HeaderHash : Hash256) : M CState unit :=
  (if (0 <? TimeoutCount)%nat then on_rt (forwardCandidates TimeoutCount) ;; modify (set_blocks 0) else mret tt) ;;
  modify (λ s, set_blocks (u32 (cs_blocks s + 1)) s) ;;
  s ← get;
  if cs_max s <=? cs_blocks s then on_rt (forwardTop HeaderHash) ;; modify (set_blocks 0) else mret tt.

Definition advance (bh : Header) (top : ContextData A E) (target : Z) : M CState unit :=
  TimeoutCount ← lift (DecodeConsensusData (ConsensusData bh));
  take_turn (Z.to_nat TimeoutCount) (header_Hash bh) ;;
  on_rt (updateFormulatorList top target).

(** Run a handler of the consensus on the top layer and save its state. *)
Definition save_state (f : ContextData A E → Z → M CState unit) (s : CState) : M (Ctx A E) (CState * option error) :=
  layers ← gets stack;
  target ← TargetHeight;
  match layers with
  | [] => panic
  | top :: _ =>
      let '(r, s) := f top target s in
      match r with
      | Ok _ => SetProcessData 0 tagState (buildSaveData s) ;; mret (s, None)
      | Err e => mret (s, Some e)
      | Panic => panic
      end
  end.

Definition pof_OnSaveData (b : Block T) : CState → M (Ctx A E) (CState * option error) :=
  save_state (advance (BHeader b)).

Definition pof_InitGenesis : CState → M (Ctx A E) (CState * option error) :=
  save_state (λ top target, on_rt (updateFormulatorList top target)).

(** [OnLoadChain] on the saved data. *)
Definition pof_OnLoadChain (data : bytes) (s : CState) : res CState :=
  let ts := tk_read data in
  '(v, ts) ← read_Uint32 ts;
  if negb (cs_max s =? v) then Err ErrInvalidMaxBlocksPerFormulator
  else
    '(keys, ts) ← KeyMap_decode ts;
    if negb (size keys =? size (cs_observers s))%nat then Err ErrInvalidObserverKey
    else if existsb (λ e, negb (bool_decide (is_Some (cs_observers s !! e.1)))) (sorted_entries keys)
    then Err ErrInvalidObserverKey
    else
      '(blocks, ts) ← read_Uint32 ts;
      '(rt, _) ← RankTable_decode ts;
      mret (mkCState (cs_max s) blocks (cs_observers s) rt).

(** [sigs[0]] of an empty list is a panic. *)
Definition pof_ValidateSignature (bh : Header) (sigs : list Signature) (s : CState) : res unit :=
  TimeoutCount ← DecodeConsensusData (ConsensusData bh);
  Top ← TopRank (Z.to_nat TimeoutCount) (cs_rt s);
  if negb (bool_decide (rk_Address Top = Generator bh)) then Err ErrInvalidTopAddress
  else
    GeneratorSignature ← of_option (sigs !! 0%nat);
    match recover_signer (header_Hash bh) GeneratorSignature with
    | None => Err (ErrExternal 1)
    | Some pubhash =>
        if negb (bool_decide (rk_PublicHash Top = pubhash)) then Err ErrInvalidTopSignature
        else if negb (length sigs =? size (cs_observers s) / 2 + 2)%nat then Err ErrInvalidSignatureCount
        else ValidateSignaturesMajority (BlockSign_Hash (header_Hash bh) GeneratorSignature) (drop 1 sigs)
               (dom (cs_observers s))
    end.

Definition pof_Consensus : Consensus A E T CState :=
  mkConsensus pof_ValidateSignature pof_OnSaveData.
End Pof.
