(* ===== verification/PofSpec.v ===== *)
(** * The consensus: members, turns, signatures, saved state

    The rank table always holds exactly the active formulators; a saved state
    is restored; an accepted block was signed by the candidate whose turn it
    was and by a majority of the observers; and the handler is a client of
    the context the chain can rely on. *)

From S2P Require Import Prelude Tokens Common Context ContextSpec ContextBisim Block Store Chain ChainAgree ChainConnect.
From S2P Require Import Search Rank RankSpec Pof.

Section Members.
Context {A E T : Type} `{AI : AccountI A} `{EI : EventI E} `{B58 : Base58} `{HF : HashFn} `{RC : Recover}.
Context `{SC : StoreCodec A E T} `{FI : FormulatorI A} `{TK : TokenCodec}.
Implicit Types (rt : RankTable) (s : CState) (top : ContextData A E).

(** ** The members of the table *)

(** What an account of the layer says about its membership. *)
Definition member_of (a : A) (old : option PublicHash) : option PublicHash :=
  if fa_is a then if fa_IsActivated a then Some (fa_GeneratorHash a) else None else old.

(** The members after a block whose top layer is [top]. *)
Definition members_after top (m : gmap Address PublicHash) (b : Address) : option PublicHash :=
  let updated := match AccountMap top !! b with Some a => member_of a (m !! b) | None => m !! b end in
  match DeletedAccountMap top !! b with
  | Some a => if fa_is a then None else updated
  | None => updated
  end.

(** The table while it is updated: phases from [p] to [p + 2]. *)
Record updating (p : Z) rt : Prop := {
  up_ok : rt_ok rt;
  up_phase : ∀ r, r ∈ rt_candidates rt → p ≤ rk_phase r ≤ p + 2;
}.

Hypothesis sha256_bytes : ∀ d, Forall is_byte (sha256 d).

Lemma DoubleHash_bytes d : Forall is_byte (DoubleHash d).
Proof using sha256_bytes.
  unfold DoubleHash, Hash, copy. apply Forall_app. split; [by apply Forall_take|].
  apply Forall_drop, Forall_replicate. unfold is_byte. lia.
Qed.

Lemma fresh_ok addr h phase : is_u32 phase → rank_ok (NewRank addr h phase (DoubleHash addr)).
Proof using sha256_bytes. intros Hp. apply rank_ok_update; [done|]. apply DoubleHash_bytes. Qed.

Lemma removeRank_map addr rt b :
  rt_rankMap (removeRank addr rt) !! b = if decide (b = addr) then None else rt_rankMap rt !! b.
Proof.
  unfold removeRank. case_bool_decide as Hin; cbn [rt_rankMap].
  - destruct (decide (b = addr)) as [->|]; [apply lookup_delete_eq|by apply lookup_delete_ne].
  - destruct (decide (b = addr)) as [->|]; [|done]. by apply eq_None_not_Some.
Qed.

Lemma updating_remove p addr rt : updating p rt → updating p (removeRank addr rt).
Proof.
  intros [Hok Hp]. split; [by apply removeRank_ok|]. unfold removeRank. case_bool_decide; [|done].
  intros r [_ Hr]%list_elem_of_filter. by apply Hp.
Qed.

Lemma updating_add p addr h rt :
  updating p rt → is_u32 p → is_u32 (p + 2) → rt_rankMap rt !! addr = None →
  ∃ rt', addRank (NewRank addr h (p + 2) (DoubleHash addr)) rt = (Ok tt, rt') ∧ updating p rt' ∧
    ∀ b, rt_rankMap rt' !! b = if decide (b = addr) then Some h else rt_rankMap rt !! b.
Proof using sha256_bytes.
  intros [Hok Hp] Hu Hu2 Hnew. set (r := NewRank addr h (p + 2) (DoubleHash addr)).
  assert (Hfit : rt_candidates rt ≠ [] → rk_phase r ≤ smallestPhase rt + 2).
  { unfold smallestPhase. destruct (rt_candidates rt) as [|m rest] eqn:Ec; [done|]. intros _.
    specialize (Hp m (list_elem_of_here _ _)). change (rk_phase r) with (p + 2). lia. }
  pose proof (addRank_ok r rt Hok (fresh_ok addr h (p + 2) Hu2) Hfit) as Hok'.
  unfold addRank in *.
  assert (Eg : match rt_candidates rt with m :: _ => rk_phase r <? rk_phase m | [] => false end = false).
  { destruct (rt_candidates rt) as [|m rest]; [done|]. apply Z.ltb_ge.
    specialize (Hp m (list_elem_of_here _ _)). change (rk_phase r) with (p + 2). lia. }
  rewrite Eg in *. change (rk_Address r) with addr in *. rewrite Hnew in *. rewrite bool_decide_eq_false_2 in * by (by intros []).
  eexists. split; [done|]. split; [split; [done|]|].
  - cbn [rt_candidates]. intros x Hx. unfold InsertRankToList in Hx. rewrite insert_at_Permutation in Hx.
    apply elem_of_cons in Hx as [->|Hx]; [|by apply Hp]. change (rk_phase r) with (p + 2). lia.
  - intros b. cbn [rt_rankMap]. destruct (decide (b = addr)) as [->|]; [apply lookup_insert_eq|by apply lookup_insert_ne].
Qed.

Lemma update_account_spec p target addr a rt :
  updating p rt → is_u32 p → is_u32 (p + 2) → acc_Address a = addr →
  (Height addr = target → rt_rankMap rt !! addr = None) →
  ∃ rt', update_account (p + 2) target (addr, a) rt = (Ok tt, rt') ∧ updating p rt' ∧
    ∀ b, rt_rankMap rt' !! b = if decide (b = addr) then member_of a (rt_rankMap rt !! b) else rt_rankMap rt !! b.
Proof using sha256_bytes.
  intros Hup Hu Hu2 Ha Hnew. unfold update_account, member_of. rewrite Ha.
  assert (Hstay : (∀ b, rt_rankMap rt !! b = if decide (b = addr) then rt_rankMap rt !! b else rt_rankMap rt !! b))
    by (intros b; by destruct (decide _)).
  assert (Hremove : ∀ b, rt_rankMap (removeRank addr rt) !! b = if decide (b = addr) then None else rt_rankMap rt !! b)
    by (intros b; apply removeRank_map).
  destruct (fa_is a); [|by exists rt].
  destruct (Z.eqb_spec (Height addr) target) as [Ht|Ht].
  { specialize (Hnew Ht). destruct (fa_IsActivated a); [by apply updating_add|]. exists rt.
    split; [done|]. split; [done|]. intros b. destruct (decide (b = addr)) as [->|]; [done|done]. }
  unfold mbind, M_bind, get. destruct (rt_rankMap rt !! addr) as [old|] eqn:Hold.
  - destruct (fa_IsActivated a); cbn [negb].
    + case_bool_decide as Heq; cbn [negb].
      * exists rt. split; [done|]. split; [done|]. intros b. destruct (decide (b = addr)) as [->|]; [|done].
        by rewrite Hold, Heq.
      * unfold modify. destruct (updating_add p addr (fa_GeneratorHash a) (removeRank addr rt)) as (rt' & E1 & U & Hm);
          [by apply updating_remove|done|done| |].
        { rewrite Hremove. by rewrite decide_True. }
        exists rt'. split; [done|]. split; [done|]. intros b. rewrite Hm.
        destruct (decide (b = addr)) as [->|Hne]; [done|]. rewrite Hremove. by rewrite decide_False.
    + exists (removeRank addr rt). split; [done|]. split; [by apply updating_remove|done].
  - destruct (fa_IsActivated a); [by apply updating_add|]. exists rt. split; [done|]. split; [done|].
    intros b. destruct (decide (b = addr)) as [->|]; [done|done].
Qed.

(** The accounts of a layer, each under its own address, and in the table
    before only addresses of earlier heights. *)
Record layer_keyed top (target : Z) : Prop := {
  lk_accounts : ∀ b a, AccountMap top !! b = Some a → acc_Address a = b;
  lk_deleted : ∀ b a, DeletedAccountMap top !! b = Some a → acc_Address a = b;
  lk_heights : ∀ b a, AccountMap top !! b = Some a → Height b ≤ target;
}.
Definition ranks_before (target : Z) rt : Prop := ∀ b, is_Some (rt_rankMap rt !! b) → Height b < target.

Lemma update_accounts p target l rt :
  updating p rt → is_u32 p → is_u32 (p + 2) → NoDup l.*1 →
  (∀ b a, (b, a) ∈ l → acc_Address a = b ∧ (Height b = target → rt_rankMap rt !! b = None)) →
  ∃ rt', for_each (update_account (p + 2) target) l rt = (Ok tt, rt') ∧ updating p rt' ∧
    ∀ b, rt_rankMap rt' !! b =
      match (list_to_map l : gmap Address A) !! b with
      | Some a => member_of a (rt_rankMap rt !! b)
      | None => rt_rankMap rt !! b
      end.
Proof using sha256_bytes.
  revert rt. induction l as [|[b a] l IH]; intros rt Hup Hu Hu2 Hnd Hl.
  { exists rt. by split_and!. }
  apply NoDup_cons in Hnd as [Hb Hnd]. destruct (Hl b a (list_elem_of_here _ _)) as [Ha Hnew].
  destruct (update_account_spec p target b a rt Hup Hu Hu2 Ha Hnew) as (rt1 & E1 & U1 & M1).
  assert (Hl1 : ∀ b' a', (b', a') ∈ l → b' ≠ b).
  { intros b' a' Hin ->. apply Hb. by apply (list_elem_of_fmap_2 fst) in Hin. }
  destruct (IH rt1) as (rt2 & E2 & U2 & M2); [done|done|done|done| |].
  { intros b' a' Hin. destruct (Hl b' a') as [? Hn]; [by right|]. split; [done|]. intros Ht. rewrite M1.
    rewrite decide_False by (by eapply Hl1). auto. }
  exists rt2. split; [cbn [for_each]; by rewrite (bind_Ok _ _ _ _ _ E1)|]. split; [done|]. intros c.
  rewrite M2, M1, list_to_map_cons.
  destruct (decide (c = b)) as [->|Hne].
  - rewrite lookup_insert_eq. by rewrite (not_elem_of_list_to_map_1 l b).
  - by rewrite lookup_insert_ne by done.
Qed.

Lemma update_deleteds p l rt :
  updating p rt → (∀ b a, (b, a) ∈ l → acc_Address a = b) → NoDup l.*1 →
  ∃ rt', for_each update_deleted l rt = (Ok tt, rt') ∧ updating p rt' ∧
    ∀ b, rt_rankMap rt' !! b =
      match (list_to_map l : gmap Address A) !! b with
      | Some a => if fa_is a then None else rt_rankMap rt !! b
      | None => rt_rankMap rt !! b
      end.
Proof.
  revert rt. induction l as [|[b a] l IH]; intros rt Hup Hl Hnd.
  { exists rt. by split_and!. }
  apply NoDup_cons in Hnd as [Hb Hnd]. pose proof (Hl b a (list_elem_of_here _ _)) as Ha.
  set (rt1 := if fa_is a then removeRank b rt else rt).
  assert (E1 : update_deleted (b, a) rt = (Ok tt, rt1)).
  { unfold update_deleted, rt1. cbn [snd]. rewrite Ha. by destruct (fa_is a). }
  assert (U1 : updating p rt1) by (unfold rt1; destruct (fa_is a); [by apply updating_remove|done]).
  destruct (IH rt1) as (rt2 & E2 & U2 & M2); [done| |done|].
  { intros b' a' Hin. apply Hl. by right. }
  exists rt2. split; [cbn [for_each]; by rewrite (bind_Ok _ _ _ _ _ E1)|]. split; [done|]. intros c.
  rewrite M2. rewrite list_to_map_cons. unfold rt1.
  destruct (decide (c = b)) as [->|Hne].
  - rewrite lookup_insert_eq. rewrite (not_elem_of_list_to_map_1 l b) by done.
    destruct (fa_is a); [|done]. rewrite removeRank_map. by rewrite decide_True.
  - rewrite lookup_insert_ne by done. destruct (fa_is a); [|done]. rewrite removeRank_map. by rewrite decide_False.
Qed.

Lemma list_to_map_entries {V} (m : gmap Address V) : list_to_map (sorted_entries m) = m.
Proof.
  rewrite <- (list_to_map_to_list m) at 2. apply list_to_map_proper; [apply sorted_entries_nodup|].
  apply sorted_entries_perm.
Qed.

Lemma updateFormulatorList_spec top target rt :
  rt_ok rt → room 3 (rt_candidates rt) → ranks_before target rt → layer_keyed top target →
  ∃ r rt', updateFormulatorList top target rt = (r, rt') ∧ rt_ok rt' ∧
    (∀ q, q ∈ rt_candidates rt' → rk_phase q ≤ smallestPhase rt + 2) ∧
    (∀ b, rt_rankMap rt' !! b = members_after top (rt_rankMap rt) b) ∧
    r = (if (CandidateCount rt' =? 0)%nat then Err ErrInsufficientCandidateCount else Ok tt).
Proof using sha256_bytes.
  intros Hok Hroom Hbefore [K1 K2 K3]. set (p := smallestPhase rt).
  assert (Hu : is_u32 p ∧ p + 3 < 2 ^ 32).
  { unfold p, smallestPhase. destruct (rt_candidates rt) as [|m rest] eqn:Ec; [unfold is_u32; lia|].
    destruct (Hok) as [Hk _]. rewrite Ec in Hk. pose proof (rko_phase _ (Forall_inv (rs_ranks _ Hk))).
    specialize (Hroom m (list_elem_of_here _ _)). split; [done|lia]. }
  destruct Hu as [Hu Hroomp].
  assert (Hu2 : is_u32 (p + 2)) by (unfold is_u32 in *; lia).
  assert (Hup : updating p rt).
  { split; [done|]. intros r Hr. pose proof (head_smallest rt r (ro_ranks _ Hok) Hr). fold p in H. split; [done|].
    unfold p, smallestPhase. destruct (rt_candidates rt) as [|m rest] eqn:Ec; [by apply elem_of_nil in Hr|].
    pose proof (ro_ranks _ Hok) as Hk. rewrite Ec in Hk. by apply (rs_spread _ Hk); [|apply list_elem_of_here]. }
  destruct (update_accounts p target (sorted_entries (AccountMap top)) rt) as (rt1 & E1 & U1 & M1);
    [done|done|done|apply sorted_entries_nodup| |].
  { intros b a Hin%elem_of_sorted_entries. split; [by apply K1|]. intros Hh. apply eq_None_not_Some.
    intros Hs%Hbefore. lia. }
  destruct (update_deleteds p (sorted_entries (DeletedAccountMap top)) rt1) as (rt2 & E2 & U2 & M2);
    [done| |apply sorted_entries_nodup|].
  { intros b a Hin%elem_of_sorted_entries. by apply K2. }
  rewrite list_to_map_entries in M1, M2.
  exists (if (CandidateCount rt2 =? 0)%nat then Err ErrInsufficientCandidateCount else Ok tt), rt2.
  split_and!.
  - unfold updateFormulatorList. rewrite (bind_Ok get _ rt rt rt eq_refl). fold p. rewrite (u32_small (p + 2)) by done.
    rewrite (bind_Ok _ _ _ _ _ E1), (bind_Ok _ _ _ _ _ E2). rewrite (bind_Ok get _ rt2 rt2 rt2 eq_refl).
    by destruct (CandidateCount rt2 =? 0)%nat.
  - apply U2.
  - intros q Hq. by apply U2.
  - intros b. rewrite M2, M1. unfold members_after. done.
  - done.
Qed.

(** ** A block and the state of the consensus *)

(** The state between two blocks, the next of which has height [target]. *)
Record cs_ok (target : Z) s : Prop := {
  co_table : rt_ok (cs_rt s);
  co_some : rt_candidates (cs_rt s) ≠ [];
  co_before : ranks_before target (cs_rt s);
}.

Lemma forwardCandidates_map n rt : rt_rankMap (forwardCandidates n rt).2 = rt_rankMap rt.
Proof. unfold forwardCandidates. case_match; [done|]. by case_match. Qed.
Lemma forwardTop_map h rt : rt_rankMap (forwardTop h rt).2 = rt_rankMap rt.
Proof. unfold forwardTop. by case_match. Qed.

Lemma on_rt_Ok {V} (m : M RankTable V) s v rt : m (cs_rt s) = (Ok v, rt) → on_rt m s = (Ok v, set_rt rt s).
Proof. intros H. unfold on_rt. by rewrite H. Qed.

Lemma timeouts_ok n k s :
  rt_ok (cs_rt s) → rt_candidates (cs_rt s) ≠ [] → 0 ≤ k → room (k + 2 * Z.of_nat n) (rt_candidates (cs_rt s)) →
  (n < CandidateCount (cs_rt s))%nat →
  ∃ s', (if (0 <? n)%nat then on_rt (forwardCandidates n) ;; modify (set_blocks 0) else mret tt) s = (Ok tt, s') ∧
    rt_ok (cs_rt s') ∧ rt_candidates (cs_rt s') ≠ [] ∧ room k (rt_candidates (cs_rt s')) ∧
    rt_rankMap (cs_rt s') = rt_rankMap (cs_rt s).
Proof.
  intros Hok Hne Hk Hr Hn. destruct (Nat.ltb_spec 0 n) as [H0|H0].
  - destruct (forwardCandidates_ok n k (cs_rt s) Hok Hk Hr Hn) as (rt' & E1 & Hok' & Hr' & Hl).
    rewrite (bind_Ok _ _ _ _ _ (on_rt_Ok _ _ _ _ E1)). eexists. split; [done|]. cbn [cs_rt set_blocks set_rt].
    split_and!; [done| |done|].
    + intros En. rewrite En in Hl. simpl in Hl. destruct (rt_candidates (cs_rt s)); [done|by simpl in Hl].
    + pose proof (forwardCandidates_map n (cs_rt s)) as Hm. by rewrite E1 in Hm.
  - exists s. split; [done|]. split_and!; [done|done| |done]. intros r Hin. specialize (Hr r Hin). lia.
Qed.

Lemma take_turn_ok n h k s :
  rt_ok (cs_rt s) → rt_candidates (cs_rt s) ≠ [] → Forall is_byte h → 0 ≤ k →
  room (k + 1 + 2 * Z.of_nat n) (rt_candidates (cs_rt s)) → (n < CandidateCount (cs_rt s))%nat →
  ∃ s', take_turn n h s = (Ok tt, s') ∧
    rt_ok (cs_rt s') ∧ rt_candidates (cs_rt s') ≠ [] ∧ room k (rt_candidates (cs_rt s')) ∧
    rt_rankMap (cs_rt s') = rt_rankMap (cs_rt s).
Proof.
  intros Hok Hne Hh Hk Hr Hn.
  destruct (timeouts_ok n (k + 1) s) as (s1 & E1 & Hok1 & Hne1 & Hr1 & M1); [done|done|lia|done|done|].
  unfold take_turn. rewrite (bind_Ok _ _ _ _ _ E1). cbv [mbind M_bind get modify].
  cbn [cs_max cs_blocks set_blocks]. destruct (cs_max s1 <=? u32 (cs_blocks s1 + 1)).
  - destruct (forwardTop_ok h k (cs_rt s1) Hok1 Hh Hk Hr1 Hne1) as (rt' & E2 & Hok2 & Hr2 & Hl & _).
    unfold on_rt. cbn [cs_rt set_blocks]. rewrite E2. eexists. split; [done|]. cbn [cs_rt set_blocks set_rt].
    split_and!; [done| |done|].
    + intros En. rewrite En in Hl. destruct (rt_candidates (cs_rt s1)); [done|by simpl in Hl].
    + rewrite <- M1. pose proof (forwardTop_map h (cs_rt s1)) as Hm. by rewrite E2 in Hm.
  - eexists. split; [done|]. cbn [cs_rt set_blocks]. split_and!; [done|done| |done].
    intros r Hin. specialize (Hr1 r Hin). lia.
Qed.

Lemma advance_ok bh top target n s :
  cs_ok target s → layer_keyed top target → DecodeConsensusData (ConsensusData bh) = Ok n →
  (Z.to_nat n < CandidateCount (cs_rt s))%nat → Forall is_byte (header_Hash bh) →
  room (4 + 2 * Z.of_nat (Z.to_nat n)) (rt_candidates (cs_rt s)) →
  ∃ r s', advance bh top target s = (r, s') ∧ rt_ok (cs_rt s') ∧ ranks_before (target + 1) (cs_rt s') ∧
    (∀ b, rt_rankMap (cs_rt s') !! b = members_after top (rt_rankMap (cs_rt s)) b) ∧
    (r = Ok tt ∧ cs_ok (target + 1) s' ∨ r = Err ErrInsufficientCandidateCount ∧ rt_candidates (cs_rt s') = []).
Proof using sha256_bytes.
  intros [Hok Hne Hb] HK Hd Hn Hh Hr.
  destruct (take_turn_ok (Z.to_nat n) (header_Hash bh) 3 s) as (s1 & E1 & Hok1 & _ & Hr1 & M1); [done|done|done|lia|done|done|].
  assert (Hb1 : ranks_before target (cs_rt s1)) by (intros b Hs; rewrite M1 in Hs; by apply Hb).
  destruct (updateFormulatorList_spec top target (cs_rt s1) Hok1 Hr1 Hb1 HK) as (r & rt' & E2 & Hok2 & _ & M2 & Hres).
  rewrite M1 in M2. exists r, (set_rt rt' s1). cbn [cs_rt set_rt].
  assert (Hb2 : ranks_before (target + 1) rt').
  { intros b Hs. rewrite M2 in Hs. unfold members_after, member_of in Hs.
    destruct HK as [K1 K2 K3].
    destruct (AccountMap top !! b) as [a|] eqn:Ha; [specialize (K3 _ _ Ha); lia|].
    assert (Hold : is_Some (rt_rankMap (cs_rt s) !! b)).
    { destruct (DeletedAccountMap top !! b) as [a|]; [|done]. destruct (fa_is a); [by destruct Hs|done]. }
    specialize (Hb b Hold). lia. }
  split_and!; [|done|done|done|].
  - unfold advance. rewrite (bind_Ok _ _ _ n s) by (unfold lift; by rewrite Hd). rewrite (bind_Ok _ _ _ _ _ E1).
    unfold on_rt. by rewrite E2.
  - destruct (Nat.eqb_spec (CandidateCount rt') 0) as [E0|E0].
    + right. split; [done|]. by apply nil_length_inv.
    + left. split; [done|]. split; cbn [cs_rt set_rt]; [done| |done].
      intros En. apply E0. unfold CandidateCount. by rewrite En.
Qed.

Lemma save_state_Ok (f : ContextData A E → Z → M CState unit) s c top st r s' :
  wf c → stack c = top :: st → f top (genTargetHeight c) s = (r, s') → r ≠ Panic →
  ∃ c', save_state f s c = (Ok (s', match r with Err e => Some e | _ => None end), c') ∧ wf c' ∧
    (r = Ok tt → view_ProcessData c' 0 tagState = Ok (buildSaveData s')).
Proof.
  intros Hwf Hst Hf Hr. unfold save_state. rewrite (bind_Ok (gets stack) _ c (stack c) c eq_refl).
  rewrite (bind_Ok TargetHeight _ c (genTargetHeight c) c eq_refl). rewrite Hst, Hf.
  destruct r as [[]|e|]; [|by exists c|done].
  destruct (write_ProcessData 0 tagState (buildSaveData s') c) as (c' & E1 & Ht & He); [done|done|].
  exists c'. split; [|split; [apply Ht|]].
  - change (ctd_SetProcessData 0 tagState (buildSaveData s')) with
      (SetProcessData (A := A) (E := E) 0 tagState (buildSaveData s')) in E1. by rewrite (bind_Ok _ _ _ _ _ E1).
  - intros _. pose proof (eq_ProcessData _ _ He 0 tagState ltac:(done)) as G. cbn in G.
    by rewrite decide_True in G.
Qed.

(** C30. The members of the rank table.  When a block that follows [n] timeouts
    is saved, the table keeps its invariant, and its members are exactly the
    active formulators: an account of the block's layer that is a formulator is
    a member with its generator hash if it is active and no member otherwise, a
    deleted formulator is none, and every other membership is as before.  The
    only error is that no candidate is left; otherwise the new state is what
    the context keeps for the next start. *)
Theorem OnSaveData_members b c s top st n :
  wf c → stack c = top :: st → cs_ok (genTargetHeight c) s → layer_keyed top (genTargetHeight c) →
  DecodeConsensusData (ConsensusData (BHeader b)) = Ok n → (Z.to_nat n < CandidateCount (cs_rt s))%nat →
  Forall is_byte (header_Hash (BHeader b)) →
  room (4 + 2 * Z.of_nat (Z.to_nat n)) (rt_candidates (cs_rt s)) →
  ∃ s' e c', pof_OnSaveData b s c = (Ok (s', e), c') ∧ wf c' ∧ rt_ok (cs_rt s') ∧
    (∀ a, rt_rankMap (cs_rt s') !! a = members_after top (rt_rankMap (cs_rt s)) a) ∧
    (e = None ∧ cs_ok (genTargetHeight c + 1) s' ∧ view_ProcessData c' 0 tagState = Ok (buildSaveData s') ∨
     e = Some ErrInsufficientCandidateCount ∧ rt_candidates (cs_rt s') = []).
Proof using sha256_bytes.
  intros Hwf Hst Hcs HK Hd Hn Hh Hr.
  destruct (advance_ok (BHeader b) top (genTargetHeight c) n s Hcs HK Hd Hn Hh Hr)
    as (r & s' & E1 & Hok & _ & Hm & Hres).
  destruct (save_state_Ok (advance (BHeader b)) s c top st r s' Hwf Hst E1) as (c' & E2 & Hwf' & Hv).
  { by destruct Hres as [[-> _]|[-> _]]. }
  exists s', (match r with Err e => Some e | _ => None end), c'. split_and!; [done|done|done|done|].
  destruct Hres as [[-> Hco]|[-> Hnil]]; [left|right]; split_and!; auto.
Qed.

End Members.

(** ** Signatures *)

Section Share.
Context `{RC : Recover}.

(** Two accepted lists of signatures share a signer. *)
Lemma accepted_share (h1 : Hash256) (obs1 : list Signature) (h2 : Hash256) (obs2 : list Signature) (keys : gset PublicHash) :
  ValidateSignaturesMajority h1 obs1 keys = Ok tt → ValidateSignaturesMajority h2 obs2 keys = Ok tt →
  ∃ p, p ∈ keys ∧ signed_by h1 obs1 p ∧ signed_by h2 obs2 p.
Proof.
  intros V1 V2. destruct (majority_signers _ _ _ V1) as (S1 & HS1 & Z1 & H1).
  destruct (majority_signers _ _ _ V2) as (S2 & HS2 & Z2 & H2).
  destruct (majorities_meet _ S1 S2 HS1 HS2 Z1 Z2) as (p & P1 & P2).
  exists p. split_and!; [set_solver|by apply H1|by apply H2].
Qed.
End Share.

Section Signatures.
Context {A E T : Type} `{HF : HashFn} `{RC : Recover} `{SC : StoreCodec A E T} `{TK : TokenCodec}.
Context (BlockSign_Hash : Hash256 → Signature → Hash256).
Implicit Types (s : CState).

Lemma ValidateSignature_inv bh sigs s :
  pof_ValidateSignature BlockSign_Hash bh sigs s = Ok tt →
  ∃ n g sig obs, sigs = sig :: obs ∧ DecodeConsensusData (ConsensusData bh) = Ok n ∧
    TopRank (Z.to_nat n) (cs_rt s) = Ok g ∧ rk_Address g = Generator bh ∧
    recover_signer (header_Hash bh) sig = Some (rk_PublicHash g) ∧
    ValidateSignaturesMajority (BlockSign_Hash (header_Hash bh) sig) obs (dom (cs_observers s)) = Ok tt.
Proof.
  unfold pof_ValidateSignature. destruct (DecodeConsensusData (ConsensusData bh)) as [n|e|]; [|done..].
  cbn [mbind res_bind]. destruct (TopRank (Z.to_nat n) (cs_rt s)) as [g|e|] eqn:Hg; [|done..]. cbn [mbind res_bind].
  case_bool_decide as Ha; [|done]. cbn [negb]. destruct sigs as [|sig obs]; [done|].
  cbn [lookup list_lookup of_option mbind res_bind].
  destruct (recover_signer (header_Hash bh) sig) as [ph|] eqn:Hrec; [|done].
  case_bool_decide as Hp; [|done]. cbn [negb]. case_match; [done|]. intros Hv.
  exists n, g, sig, obs. split_and!; try done. by rewrite Hp.
Qed.

(** What it takes to fork.  A block whose signatures are accepted was
    signed by the candidate of the rank table whose turn it is after the
    timeouts it claims; and any two accepted blocks on the same state have an
    observer who signed both, so two different blocks of one height need an
    observer that signs twice. *)
Theorem accepted_blocks_share_observer bh1 sigs1 bh2 sigs2 s :
  pof_ValidateSignature BlockSign_Hash bh1 sigs1 s = Ok tt →
  pof_ValidateSignature BlockSign_Hash bh2 sigs2 s = Ok tt →
  ∃ sig1 sig2 obs1 obs2, sigs1 = sig1 :: obs1 ∧ sigs2 = sig2 :: obs2 ∧
    (∃ n g, DecodeConsensusData (ConsensusData bh1) = Ok n ∧ TopRank (Z.to_nat n) (cs_rt s) = Ok g ∧
       rk_Address g = Generator bh1 ∧ recover_signer (header_Hash bh1) sig1 = Some (rk_PublicHash g)) ∧
    (ConsensusData bh1 = ConsensusData bh2 → Generator bh1 = Generator bh2) ∧
    ∃ p, p ∈ dom (cs_observers s) ∧ signed_by (BlockSign_Hash (header_Hash bh1) sig1) obs1 p ∧
      signed_by (BlockSign_Hash (header_Hash bh2) sig2) obs2 p.
Proof.
  intros (n1 & g1 & sig1 & obs1 & -> & D1 & T1 & A1 & R1 & V1)%ValidateSignature_inv
         (n2 & g2 & sig2 & obs2 & -> & D2 & T2 & A2 & R2 & V2)%ValidateSignature_inv.
  exists sig1, sig2, obs1, obs2. split_and!; [done|done|by exists n1, g1| |].
  - intros HE. rewrite HE, D2 in D1. injection D1 as ->. rewrite T2 in T1. injection T1 as ->. by rewrite <- A1.
  - by eapply accepted_share.
Qed.

(** A block without signatures whose generator has its turn is a panic. *)
Lemma no_signatures_panic bh s n g :
  DecodeConsensusData (ConsensusData bh) = Ok n → TopRank (Z.to_nat n) (cs_rt s) = Ok g →
  rk_Address g = Generator bh → pof_ValidateSignature BlockSign_Hash bh [] s = Panic.
Proof.
  intros H1 H2 H3. unfold pof_ValidateSignature. rewrite H1. cbn [mbind res_bind]. rewrite H2. cbn [mbind res_bind].
  by rewrite bool_decide_eq_true_2.
Qed.

End Signatures.

(** ** The saved state *)

Section Saved.
Context `{TK : TokenCodec}.
Implicit Types (rt : RankTable) (s : CState).

(** Values that fit the arrays they are read into. *)
Record rank_sized (r : Rank) : Prop := {
  sz_addr : length (rk_Address r) = AddressSize;
  sz_hash : length (rk_PublicHash r) = PublicHashSize;
  sz_space : length (rk_hashSpace r) = Hash256Size;
}.

Lemma copy_all n (bs : bytes) : length bs = n → copy (replicate n 0) bs = bs.
Proof. intros <-. apply copy_same_length. by rewrite length_replicate. Qed.

Lemma Rank_decode_encode r ts :
  rank_sized r → Rank_decode (Rank_encode r ++ ts) =
    Ok (mkRank (rk_Address r) (rk_PublicHash r) (rk_phase r) (rk_hashSpace r) 0, ts).
Proof.
  intros [H1 H2 H3]. unfold Rank_decode, Rank_encode.
  cbn [app read_Bytes read_Uint32 mbind res_bind mret res_ret]. unfold emptyAddr. by rewrite !copy_all.
Qed.

Lemma decode_ranks_encode rs rt ts :
  Forall rank_sized rs → Forall rank_ok rs →
  decode_ranks (length rs) rt ((rs ≫= Rank_encode) ++ ts) =
    Ok (mkTable (rt_height rt) (rt_candidates rt ++ rs)
          (foldl (λ m r, <[rk_Address r := rk_PublicHash r]> m) (rt_rankMap rt) rs), ts).
Proof.
  intros Hs Hk. revert rt. induction rs as [|r rs IH]; intros rt.
  { cbn. rewrite app_nil_r. by destruct rt. }
  apply Forall_cons in Hs as [Hr Hs]. apply Forall_cons in Hk as [Ok Hk].
  cbn [length decode_ranks]. rewrite bind_cons, <- app_assoc, (Rank_decode_encode r _ Hr).
  cbn [mbind res_bind]. rewrite IH by done. cbn [rt_height rt_candidates rt_rankMap foldl].
  replace (rk_update _) with r; [by rewrite <- app_assoc|].
  destruct Ok as [_ _ Hsc]. destruct r. unfold rk_update. simpl in *. by rewrite Hsc.
Qed.

Lemma foldl_members (rs : list Rank) (m : gmap Address PublicHash) (a : Address) :
  NoDup (rk_Address <$> rs) →
  ∀ h : PublicHash, foldl (λ m r, <[rk_Address r := rk_PublicHash r]> m) m rs !! a = Some h ↔
    has_rank rs a h ∨ (a ∉ (rk_Address <$> rs) ∧ m !! a = Some h).
Proof.
  revert m. induction rs as [|r rs IH]; intros m Hnd h.
  { simpl. unfold has_rank. set_solver. }
  rewrite fmap_cons in *. apply NoDup_cons in Hnd as [Hr Hnd]. cbn [foldl]. rewrite IH by done.
  unfold has_rank. setoid_rewrite elem_of_cons. destruct (decide (rk_Address r = a)) as [<-|Hne].
  - rewrite lookup_insert_eq. split.
    + intros [(x & Hx & E1 & E2)|[_ [= <-]]]; [|left; eauto]. exfalso. apply Hr. rewrite <- E1.
      by apply list_elem_of_fmap_2.
    + intros [(x & [->|Hx] & E1 & <-)|[Hn _]].
      * right. done.
      * exfalso. apply Hr. rewrite <- E1. by apply list_elem_of_fmap_2.
      * exfalso. apply Hn. by left.
  - rewrite lookup_insert_ne by done. split.
    + intros [(x & Hx & E12)|[Hn Hm]]; [left; eauto|right]. split; [|done]. intros [?|?]; [congruence|done].
    + intros [(x & [->|Hx] & E1 & E2)|[Hn Hm]]; [done|left; eauto|right]. split; [|done]. intros ?. apply Hn. auto.
Qed.

Lemma RankTable_decode_encode rt ts :
  rt_ok rt → Forall rank_sized (rt_candidates rt) → RankTable_decode (RankTable_encode rt ++ ts) = Ok (rt, ts).
Proof.
  intros [Hok Hm] Hs. unfold RankTable_decode, RankTable_encode. cbn [app read_Uint32 read_ArrayLen mbind res_bind].
  rewrite decode_ranks_encode by (done || apply Hok). cbn [rt_height rt_candidates rt_rankMap app].
  destruct rt as [h rs m]. cbn [rt_height rt_candidates rt_rankMap] in *. do 3 f_equal.
  apply map_eq. intros a. apply option_eq. intros p. rewrite foldl_members by apply Hok. rewrite Hm.
  split; [intros [?|[_ [=]]]; done|by left].
Qed.

Lemma decode_keys_encode (l : list (PublicHash * bool)) (m : gmap PublicHash bool) ts :
  Forall (λ e, length e.1 = PublicHashSize) l →
  decode_keys (length l) m ((l ≫= λ e, [CtBytes e.1; CtBool e.2]) ++ ts) =
    Ok (foldl (λ m e, <[e.1 := e.2]> m) m l, ts).
Proof.
  intros Hl. revert m. induction l as [|[k v] l IH]; intros m; [done|]. apply Forall_cons in Hl as [Hk Hl].
  rewrite bind_cons. cbn [length decode_keys app read_Bytes read_Bool mbind res_bind fst snd].
  rewrite (copy_all _ k Hk). by rewrite IH.
Qed.

Lemma KeyMap_decode_encode (m : gmap PublicHash bool) ts :
  (∀ k, is_Some (m !! k) → length k = PublicHashSize) → KeyMap_decode (KeyMap_encode m ++ ts) = Ok (m, ts).
Proof.
  intros Hk. unfold KeyMap_decode, KeyMap_encode. cbn [app read_ArrayLen mbind res_bind].
  assert (Hlen : size m = length (sorted_entries m)).
  { rewrite (Permutation_length (sorted_entries_perm m)). by rewrite length_map_to_list. }
  rewrite Hlen, decode_keys_encode.
  - pose proof (EachAll_put m ∅) as HE. unfold EachAll in HE. rewrite HE. by rewrite map_union_empty.
  - apply Forall_forall. intros [k v] Hin%elem_of_sorted_entries. apply Hk. by exists v.
Qed.

(** C31. A saved state is restored.  A node that was configured with the same
    number of blocks per formulator and the same observers and loads the data
    that [buildSaveData] wrote has the state that was saved: the count of
    blocks, the candidates in order with their scores, and the map. *)
Theorem OnLoadChain_restores s s0 :
  TokenCodecLaws TK → rt_ok (cs_rt s) → Forall rank_sized (rt_candidates (cs_rt s)) →
  (∀ k, is_Some (cs_observers s !! k) → length k = PublicHashSize) →
  cs_max s0 = cs_max s → cs_observers s0 = cs_observers s →
  pof_OnLoadChain (buildSaveData s) s0 = Ok s.
Proof.
  intros HL Hok Hs Hk Hmax Hobs. unfold pof_OnLoadChain, buildSaveData. rewrite tk_roundtrip.
  cbn [read_Uint32 mbind res_bind]. rewrite Hmax, Z.eqb_refl. cbn [negb].
  rewrite (KeyMap_decode_encode _ _ Hk). cbn [mbind res_bind]. rewrite Hobs, Nat.eqb_refl. cbn [negb].
  assert (existsb (λ e, negb (bool_decide (is_Some (cs_observers s !! e.1)))) (sorted_entries (cs_observers s)) = false) as ->.
  { apply not_true_iff_false. rewrite existsb_exists. intros ([k v] & Hin & Hb).
    apply list_elem_of_In, elem_of_sorted_entries in Hin. cbn [fst] in Hb.
    rewrite bool_decide_eq_true_2 in Hb by (by exists v). done. }
  cbn [read_Uint32 mbind res_bind].
  rewrite <- (app_nil_r (RankTable_encode (cs_rt s))), (RankTable_decode_encode _ _ Hok Hs).
  by destruct s.
Qed.

End Saved.

(** ** The handler as a client of the context *)

Section Client.
Context {A E T : Type} `{AI : AccountI A} `{EI : EventI E} `{B58 : Base58} `{HF : HashFn} `{RC : Recover}.
Context `{SC : StoreCodec A E T} `{FI : FormulatorI A} `{TK : TokenCodec}.
Context (BlockSign_Hash : Hash256 → Signature → Hash256).
Implicit Types (s : CState).

Lemma tame_stack : tame (gets stack : M (Ctx A E) (list (ContextData A E))).
Proof. apply tame_pure; [|done]. intros c1 c2 H. split; [cbn; by rewrite (sm_stack _ _ H)|done]. Qed.

(** [OnSaveData] reads the layers and the height and writes one datum. *)
Lemma pof_tame b s : tame (pof_OnSaveData b s).
Proof.
  unfold pof_OnSaveData, save_state. apply tame_bind; [apply tame_stack|]. intros layers.
  apply tame_bind; [apply tame_TargetHeight|]. intros target. destruct layers as [|top layers]; [apply tame_panic|].
  destruct (advance (BHeader b) top target s) as [[[]|e|] s']; [|apply tame_ret|apply tame_panic].
  apply tame_bind; [apply tame_SetProcessData|]. intros []. apply tame_ret.
Qed.

(** A chain whose processes are tame is one for the replay protection of the
    chain when its consensus is the proof of formulator. *)
Lemma pof_saves `{TC : TxCodec T} `{TX : TransactionI T A E} (okT : T → Prop) (cn : Chain A E T) :
  chain_tame okT cn → (∀ p pid b, member cn p → tame (p_OnSaveData p pid b)) →
  chain_saves okT cn (pof_Consensus BlockSign_Hash).
Proof. intros H1 H2. split; [done|done|]. intros b s. apply pof_tame. Qed.
End Client.
