(* ===== verification/RequestTimer.v ===== *)
(** * service/p2p: the timer of requests

    requesttimer.go: the heights that were asked for, by whom they are to be
    answered and when the request expires.  The map by height and the map by
    value index the same requests. *)

From S2P Require Import Prelude.

Record requestTimerItem := mkTimerItem {
  ti_Height : Z;
  ti_ExpiredAt : Z;
  ti_Value : bytes;
}.
#[export] Instance requestTimerItem_eq_dec : EqDecision requestTimerItem.
Proof. solve_decision. Defined.

Record RequestTimer := mkTimer {
  timerMap : gmap Z requestTimerItem;
  valueMap : gmap (list Z) (gmap Z bool);
}.

Definition NewRequestTimer : RequestTimer := mkTimer ∅ ∅.

Definition rt_Exist (height : Z) (rm : RequestTimer) : bool := bool_decide (is_Some (timerMap rm !! height)).

(** [Add] at the time [now]. *)
Definition rt_Add (height t : Z) (value : bytes) (now : Z) (rm : RequestTimer) : bool * RequestTimer :=
  if bool_decide (is_Some (timerMap rm !! height)) then (false, rm)
  else
    let heightMap := default ∅ (valueMap rm !! value) in
    (true, mkTimer (<[height := mkTimerItem height (u64 (now + t)) value]> (timerMap rm))
                   (<[value := <[height := true]> heightMap]> (valueMap rm))).

Definition rt_RemovesByValue (value : bytes) (rm : RequestTimer) : RequestTimer :=
  let timers := match valueMap rm !! value with
                | Some heightMap => filter (λ e, heightMap !! e.1 = None) (timerMap rm)
                | None => timerMap rm
                end in
  mkTimer timers (delete value (valueMap rm)).

(** One entry of the loop of [Run]: an expired request is collected and leaves
    the map by value, whose entry goes when it is empty; any other stays. *)
Definition expire_entry (now : Z) (acc : list requestTimerItem * gmap Z requestTimerItem * gmap (list Z) (gmap Z bool))
    (e : Z * requestTimerItem) : list requestTimerItem * gmap Z requestTimerItem * gmap (list Z) (gmap Z bool) :=
  let '(expired, remain, values) := acc in
  let '(h, v) := e in
  if ti_ExpiredAt v <=? now then
    let values := match values !! ti_Value v with
                  | Some heightMap => <[ti_Value v := delete (ti_Height v) heightMap]> values
                  | None => values
                  end in
    let values := if bool_decide (default ∅ (values !! ti_Value v) = ∅) then delete (ti_Value v) values else values in
    (expired ++ [v], remain, values)
  else (expired, <[h := v]> remain, values).

(** One round of [Run]; [range] is the order in which the map is iterated. *)
Definition rt_expire (range : gmap Z requestTimerItem → list (Z * requestTimerItem)) (now : Z) (rm : RequestTimer)
    : list requestTimerItem * RequestTimer :=
  let '(expired, remain, values) := foldl (expire_entry now) ([], ∅, valueMap rm) (range (timerMap rm)) in
  (expired, mkTimer remain values).

(** ** The two maps agree *)

(** A request is under its own height, and in the map of its value. *)
Record timer_ok (rm : RequestTimer) : Prop := {
  to_height : ∀ h v, timerMap rm !! h = Some v → ti_Height v = h;
  to_values : ∀ x h, is_Some (valueMap rm !! x ≫= (.!! h)) ↔ ∃ v, timerMap rm !! h = Some v ∧ ti_Value v = x;
}.

Lemma timer_ok_new : timer_ok NewRequestTimer.
Proof. split; [done|]. intros x h. cbn. rewrite lookup_empty. split; [by intros []|]. intros (v & Hv & _). by rewrite lookup_empty in Hv. Qed.

Lemma timer_ok_Add height t value now rm : timer_ok rm → timer_ok (rt_Add height t value now rm).2.
Proof.
  intros [Hh Hv]. unfold rt_Add. case_bool_decide as Hin; [by split|]. rewrite <- eq_None_not_Some in Hin.
  split; cbn [snd timerMap valueMap].
  - intros h v [[<- <-]|[_ H]]%lookup_insert_Some; [done|by apply Hh].
  - intros x h. destruct (decide (x = value)) as [->|Hx].
    + rewrite lookup_insert_eq. cbn. destruct (decide (h = height)) as [->|Hne].
      * rewrite !lookup_insert_eq. split; [|by intros _]. intros _. by eexists.
      * rewrite !lookup_insert_ne by done. rewrite <- Hv. destruct (valueMap rm !! value); [done|]. cbn. by rewrite lookup_empty.
    + rewrite lookup_insert_ne by done. rewrite Hv. split; intros (v & H1 & H2).
      * exists v. split; [|done]. rewrite lookup_insert_ne; [done|]. intros ->. congruence.
      * apply lookup_insert_Some in H1 as [[-> <-]|[_ H1]]; [done|eauto].
Qed.

Lemma timer_ok_RemovesByValue value rm : timer_ok rm → timer_ok (rt_RemovesByValue value rm).
Proof.
  intros [Hh Hv]. unfold rt_RemovesByValue.
  set (timers := match valueMap rm !! value with Some _ => _ | None => _ end).
  assert (Ht : ∀ h v, timers !! h = Some v ↔ timerMap rm !! h = Some v ∧ ti_Value v ≠ value).
  { intros h v. pose proof (Hv value h) as Hvh. unfold timers. destruct (valueMap rm !! value) as [hm|] eqn:Hm; cbn in Hvh.
    - rewrite map_lookup_filter_Some. cbn [fst]. split; intros [H1 H2]; split; try done.
      + intros Hval. destruct (proj2 Hvh) as [? E]; [eauto|]. congruence.
      + apply eq_None_not_Some. intros Hs. apply Hvh in Hs as (w & Hw & Hw'). congruence.
    - split; [intros H1; split; [done|]|by intros [? _]]. intros Hval. destruct (proj2 Hvh) as [? E]; [eauto|done]. }
  split; cbn [timerMap valueMap].
  - intros h v [H _]%Ht. by apply Hh.
  - intros x h. destruct (decide (x = value)) as [->|Hx].
    + rewrite lookup_delete_eq. cbn. split; [by intros []|]. intros (v & [_ H]%Ht & H'). done.
    + rewrite lookup_delete_ne by done. rewrite Hv. split; intros (v & H1 & H2); exists v; (split; [|done]).
      * apply Ht. split; congruence.
      * by apply Ht in H1 as [? _].
Qed.

(** The loop of [Run]: the heights of the entries already visited are split
    between the collected requests and the map that remains. *)
Record expiring (now : Z) (rm : RequestTimer) (todo : list (Z * requestTimerItem))
    (acc : list requestTimerItem * gmap Z requestTimerItem * gmap (list Z) (gmap Z bool)) : Prop := {
  ex_nodup : NoDup acc.1.1;
  ex_expired : ∀ v, v ∈ acc.1.1 ↔ timerMap rm !! ti_Height v = Some v ∧ ti_ExpiredAt v ≤ now ∧ (ti_Height v, v) ∉ todo;
  ex_remain : ∀ h v, acc.1.2 !! h = Some v ↔ timerMap rm !! h = Some v ∧ now < ti_ExpiredAt v ∧ (h, v) ∉ todo;
  ex_values : ∀ x h, is_Some (acc.2 !! x ≫= (.!! h)) ↔
    ∃ v, timerMap rm !! h = Some v ∧ ti_Value v = x ∧ (now < ti_ExpiredAt v ∨ (h, v) ∈ todo);
}.

Lemma expiring_step now rm h v todo acc :
  timer_ok rm → timerMap rm !! h = Some v → (h, v) ∉ todo →
  expiring now rm ((h, v) :: todo) acc → expiring now rm todo (expire_entry now acc (h, v)).
Proof.
  intros [Hh Hv] Hin Hnt [H0 H1 H2 H3]. pose proof (Hh h v Hin) as Hhv. destruct acc as [[expired remain] values].
  cbn [fst snd] in *. unfold expire_entry. destruct (Z.leb_spec (ti_ExpiredAt v) now) as [Hle|Hgt].
  - set (vs := match values !! ti_Value v with Some _ => _ | None => _ end).
    set (vs' := if bool_decide _ then _ else _).
    assert (Hvs : ∀ x k, is_Some (vs !! x ≫= (.!! k)) ↔ is_Some (values !! x ≫= (.!! k)) ∧ ¬ (x = ti_Value v ∧ k = h)).
    { intros x k. unfold vs. destruct (values !! ti_Value v) as [hm|] eqn:Hm.
      - destruct (decide (x = ti_Value v)) as [->|Hx]; [|rewrite lookup_insert_ne by done; naive_solver].
        rewrite lookup_insert_eq, Hm, Hhv. cbn. destruct (decide (k = h)) as [->|Hk].
        + rewrite lookup_delete_eq. split; [by intros []|naive_solver].
        + rewrite lookup_delete_ne by done. naive_solver.
      - split; [|by intros [? _]]. intros Hs. split; [done|]. intros [-> ->]. rewrite Hm in Hs. by destruct Hs. }
    assert (Hvs' : ∀ x k, is_Some (vs' !! x ≫= (.!! k)) ↔ is_Some (vs !! x ≫= (.!! k))).
    { intros x k. unfold vs'. case_bool_decide as Hemp; [|done]. destruct (decide (x = ti_Value v)) as [->|Hx].
      - rewrite lookup_delete_eq. cbn. split; [by intros []|]. destruct (vs !! ti_Value v) as [hm|]; [|done].
        cbn in *. subst hm. by rewrite lookup_empty.
      - by rewrite lookup_delete_ne. }
    split; cbn [fst snd].
    + apply NoDup_app. split_and!; [done| |apply NoDup_singleton]. intros w Hw ->%list_elem_of_singleton.
      apply H1 in Hw as (_ & _ & Hw). rewrite Hhv in Hw. apply Hw. by left.
    + intros w. rewrite elem_of_app, H1, list_elem_of_singleton. rewrite not_elem_of_cons. split.
      * intros [(? & ? & _ & ?)| ->]; [done|]. by rewrite Hhv.
      * intros (Hw & Hwe & Hwt). destruct (decide (w = v)) as [->|Hne]; [by right|left]. split_and!; try done. naive_solver.
    + intros k w. rewrite H2, not_elem_of_cons. split; [naive_solver|]. intros (Hw & Hwe & Hwt). split_and!; try done.
      intros [= -> ->]. lia.
    + intros x k. rewrite Hvs', Hvs, H3. split.
      * intros [(w & Hw & Hwx & Hor) Hne]. exists w. split_and!; try done. destruct Hor as [?|[Heq|?]%elem_of_cons]; [by left| |by right].
        injection Heq as -> ->. naive_solver.
      * intros (w & Hw & Hwx & Hor). split; [exists w; split_and!; try done; destruct Hor; [by left|right; by right]|].
        intros [-> ->]. rewrite Hin in Hw. injection Hw as <-. destruct Hor as [?|?]; [lia|done].
  - split; cbn [fst snd].
    + done.
    + intros w. rewrite H1, not_elem_of_cons. split; [naive_solver|]. intros (Hw & Hwe & Hwt). split_and!; try done.
      intros Heq. injection Heq as _ ->. lia.
    + intros k w. destruct (decide (k = h)) as [->|Hk].
      * rewrite lookup_insert_eq. split; [intros [= <-]; done|]. intros (Hw & _). congruence.
      * rewrite lookup_insert_ne by done. rewrite H2, not_elem_of_cons. naive_solver.
    + intros x k. rewrite H3. split.
      * intros (w & Hw & Hwx & Hor). exists w. split_and!; try done.
        destruct Hor as [?|[Heq|?]%elem_of_cons]; [by left| |by right]. injection Heq as -> ->. by left.
      * intros (w & Hw & Hwx & Hor). exists w. split_and!; try done. destruct Hor; [by left|right; by right].
Qed.

(** Every operation keeps the two maps of the timer in step; one round of
    [Run] takes out exactly the requests that are due, and hands each of them
    to the handler once, whatever the order of iteration. *)
Theorem rt_expire_exact range now rm :
  timer_ok rm → range (timerMap rm) ≡ₚ map_to_list (timerMap rm) →
  let '(expired, rm') := rt_expire range now rm in
  timer_ok rm' ∧ NoDup expired ∧
  (∀ v, v ∈ expired ↔ timerMap rm !! ti_Height v = Some v ∧ ti_ExpiredAt v ≤ now) ∧
  (∀ h v, timerMap rm' !! h = Some v ↔ timerMap rm !! h = Some v ∧ now < ti_ExpiredAt v).
Proof.
  intros Hok Hr. unfold rt_expire.
  assert (G : ∀ l acc, NoDup l → (∀ h v, (h, v) ∈ l → timerMap rm !! h = Some v) → expiring now rm l acc →
    expiring now rm [] (foldl (expire_entry now) acc l)).
  { induction l as [|[h v] l IH]; intros acc Hnd Hl Hacc; [done|]. apply NoDup_cons in Hnd as [Hn Hnd]. cbn [foldl].
    apply IH; [done|intros; apply Hl; by right|]. apply expiring_step; try done. apply Hl. by left. }
  specialize (G (range (timerMap rm)) ([], ∅, valueMap rm)).
  destruct (foldl _ _ _) as [[expired remain] values]. destruct G as [G0 G1 G2 G3].
  - rewrite Hr. apply NoDup_map_to_list.
  - intros h v Hin. rewrite Hr in Hin. by apply elem_of_map_to_list.
  - assert (Hm : ∀ h v, (h, v) ∈ range (timerMap rm) ↔ timerMap rm !! h = Some v) by (intros; rewrite Hr; apply elem_of_map_to_list).
    split; cbn [fst snd]; [apply NoDup_nil_2|..].
    + intros v. rewrite elem_of_nil, Hm. naive_solver.
    + intros h v. rewrite lookup_empty, Hm. naive_solver.
    + intros x h. rewrite (to_values _ Hok). setoid_rewrite Hm. naive_solver.
  - cbn [fst snd] in *. setoid_rewrite elem_of_nil in G1. setoid_rewrite elem_of_nil in G2. setoid_rewrite elem_of_nil in G3.
    split_and!; [|done|naive_solver|naive_solver].
    split; cbn [timerMap valueMap].
    + intros h v (Hv & _)%G2. by apply (to_height _ Hok).
    + intros x h. rewrite G3. setoid_rewrite G2. naive_solver.
Qed.

Lemma rt_expire_exact_witness :
  let rm := (rt_Add 8 5 [1] 100 (rt_Add 7 2 [1] 100 NewRequestTimer).2).2 in
  (rt_expire map_to_list 103 rm).1 = [mkTimerItem 7 102 [1]] ∧ timer_ok (rt_expire map_to_list 103 rm).2.
Proof.
  intros rm. split; [vm_compute; reflexivity|].
  pose proof (rt_expire_exact map_to_list 103 rm) as H. destruct (rt_expire map_to_list 103 rm) as [ex rm'].
  apply H; [|reflexivity]. apply timer_ok_Add, timer_ok_Add, timer_ok_new.
Defined.
