(* ===== verification/Observer.v ===== *)
(** * pof: the observer node

    observer_node.go, observer_node_send.go, vote_round.go and messages.go:
    the state of an observer, its votes and what it sends.  The chain is an
    interface ([ObserverChain]); the signing key, the hashes of messages and
    the network are parameters.  A message that the codec read has its
    pointers set.  Printing and the locks are left out: every handler runs
    under the lock of the node. *)

From S2P Require Import Prelude Tokens Common Context Block Store Chain Search SortedQueue Rank Pof RequestTimer.

(** ** messages.go *)

Record RoundVote := mkRoundVote {
  rv_ChainID : Z; rv_LastHash : Hash256; rv_TargetHeight : Z; rv_TimeoutCount : Z;
  rv_Formulator : Address; rv_FormulatorPublicHash : PublicHash; rv_Timestamp : Z; rv_IsReply : bool }.
Record RoundVoteMessage := mkRoundVoteMessage { rvm_RoundVote : RoundVote; rvm_Signature : Signature }.

Record RoundVoteAck := mkRoundVoteAck {
  ra_ChainID : Z; ra_LastHash : Hash256; ra_TargetHeight : Z; ra_TimeoutCount : Z;
  ra_Formulator : Address; ra_FormulatorPublicHash : PublicHash; ra_PublicHash : PublicHash;
  ra_Timestamp : Z; ra_IsReply : bool }.
Record RoundVoteAckMessage := mkRoundVoteAckMessage { ram_RoundVoteAck : RoundVoteAck; ram_Signature : Signature }.

Record BlockReqMessage := mkBlockReq {
  bq_PrevHash : Hash256; bq_TargetHeight : Z; bq_TimeoutCount : Z;
  bq_Formulator : Address; bq_FormulatorPublicHash : PublicHash }.

Record BlockGenMessage (T : Type) := mkBlockGen {
  bg_Block : Block T; bg_GeneratorSignature : Signature; bg_IsReply : bool }.
Arguments mkBlockGen {T} _ _ _.
Arguments bg_Block {T} _.
Arguments bg_GeneratorSignature {T} _.
Arguments bg_IsReply {T} _.

Record BlockVote := mkBlockVote {
  bv_TargetHeight : Z; bv_Header : Header; bv_GeneratorSignature : Signature;
  bv_ObserverSignature : Signature; bv_IsReply : bool }.
Record BlockVoteMessage := mkBlockVoteMessage { bvm_BlockVote : BlockVote; bvm_Signature : Signature }.

Record BlockObSignMessage := mkBlockObSign {
  bo_TargetHeight : Z; bo_HeaderHash : Hash256; bo_GeneratorSignature : Signature; bo_ObserverSignatures : list Signature }.

Record BlockGenRequest := mkBlockGenRequest {
  gr_ChainID : Z; gr_LastHash : Hash256; gr_TargetHeight : Z; gr_TimeoutCount : Z;
  gr_Formulator : Address; gr_FormulatorPublicHash : PublicHash; gr_PublicHash : PublicHash; gr_Timestamp : Z }.
Record BlockGenRequestMessage := mkBlockGenRequestMessage { grm_BlockGenRequest : BlockGenRequest; grm_Signature : Signature }.

Record StatusMessage := mkStatus { sm_Version : Z; sm_Height : Z; sm_LastHash : Hash256 }.
Record RequestMessage := mkRequestMessage { rm_Height : Z; rm_Count : Z }.

(** What observers say to each other.  The handler of observers tests for a
    [BlockGenRequestMessage] by value, while the codec makes a pointer: these
    are two cases of the type switch. *)
Inductive obmsg (T : Type) :=
  | MRoundVote (m : RoundVoteMessage)
  | MRoundVoteAck (m : RoundVoteAckMessage)
  | MBlockGen (m : BlockGenMessage T)
  | MBlockGenRequest (m : BlockGenRequestMessage)
  | MBlockGenRequestPtr (m : BlockGenRequestMessage)
  | MBlockVote (m : BlockVoteMessage)
  | MRequest (m : RequestMessage)
  | MStatus (m : StatusMessage)
  | MBlock (Blocks : list (Block T))
  | MOther.
Arguments MRoundVote {T} _.
Arguments MRoundVoteAck {T} _.
Arguments MBlockGen {T} _.
Arguments MBlockGenRequest {T} _.
Arguments MBlockGenRequestPtr {T} _.
Arguments MBlockVote {T} _.
Arguments MRequest {T} _.
Arguments MStatus {T} _.
Arguments MBlock {T} _.
Arguments MOther {T}.

(** What it says to formulators. *)
Inductive fmsg :=
  | FBlockReq (m : BlockReqMessage)
  | FStatus (m : StatusMessage)
  | FObSign (m : BlockObSignMessage)
  | FPacket (raw : bytes).

(** ** vote_round.go *)

Definition EmptyState : Z := 0.
Definition RoundVoteState : Z := 1.
Definition RoundVoteAckState : Z := 2.
Definition BlockWaitState : Z := 3.
Definition BlockVoteState : Z := 4.

Record voteSortItem := mkVoteSort { vs_PublicHash : PublicHash; vs_Priority : Z }.
Definition voteSorter_Less (a b : voteSortItem) : bool :=
  if vs_Priority a =? vs_Priority b then bytes_lt (vs_PublicHash a) (vs_PublicHash b) else vs_Priority a <? vs_Priority b.

(** The first element of the sorted slice. *)
Fixpoint first_vote (v : voteSortItem) (l : list voteSortItem) : voteSortItem :=
  match l with
  | [] => v
  | w :: l => first_vote (if voteSorter_Less w v then w else v) l
  end.

Record BlockRound (T X : Type) := mkBlockRound {
  br_BlockVoteMap : gmap PublicHash BlockVote;
  br_BlockGenMessage : option (BlockGenMessage T);
  br_Context : option X;
  br_BlockVoteMessageWaitMap : gmap PublicHash BlockVoteMessage;
  br_BlockGenMessageWait : option (BlockGenMessage T);
  br_LastBlockGenRequestTime : Z;
}.
Arguments mkBlockRound {T X} _ _ _ _ _ _.
Arguments br_BlockVoteMap {T X} _.
Arguments br_BlockGenMessage {T X} _.
Arguments br_Context {T X} _.
Arguments br_BlockVoteMessageWaitMap {T X} _.
Arguments br_BlockGenMessageWait {T X} _.
Arguments br_LastBlockGenRequestTime {T X} _.

(** [RoundVoteWaitMap] is made and never used. *)
Record VoteRound (T X : Type) := mkVoteRound {
  vr_RoundState : Z;
  vr_TargetHeight : Z;
  vr_RoundVoteMessageMap : gmap PublicHash RoundVoteMessage;
  vr_RoundVoteAckMessageMap : gmap PublicHash RoundVoteAckMessage;
  vr_MinRoundVoteAck : option RoundVoteAck;
  vr_BlockRoundMap : gmap Z (BlockRound T X);
  vr_RoundVoteAckMessageWaitMap : gmap PublicHash RoundVoteAckMessage;
  vr_VoteFailCount : Z;
}.
Arguments mkVoteRound {T X} _ _ _ _ _ _ _ _.
Arguments vr_RoundState {T X} _.
Arguments vr_TargetHeight {T X} _.
Arguments vr_RoundVoteMessageMap {T X} _.
Arguments vr_RoundVoteAckMessageMap {T X} _.
Arguments vr_MinRoundVoteAck {T X} _.
Arguments vr_BlockRoundMap {T X} _.
Arguments vr_RoundVoteAckMessageWaitMap {T X} _.
Arguments vr_VoteFailCount {T X} _.

Section Rounds.
Context {T X : Type}.
Implicit Types (r : VoteRound T X) (br : BlockRound T X).

Definition NewBlockRound : BlockRound T X := mkBlockRound ∅ None None ∅ None 0.

(** [for i := TargetHeight; i < TargetHeight+MaxBlocksPerFormulator; i++]; no
    iteration when the bound wraps around. *)
Definition round_heights (TargetHeight Max : Z) : list Z :=
  let bound := u32 (TargetHeight + Max) in
  if TargetHeight <? bound then seqZ TargetHeight (bound - TargetHeight) else [].
Definition NewVoteRound (TargetHeight MaxBlocksPerFormulator : Z) : VoteRound T X :=
  mkVoteRound RoundVoteState TargetHeight ∅ ∅ None
    (list_to_map ((λ i, (i, NewBlockRound)) <$> round_heights TargetHeight MaxBlocksPerFormulator)) ∅ 0.

Definition set_RoundState (x : Z) r : VoteRound T X := mkVoteRound x (vr_TargetHeight r) (vr_RoundVoteMessageMap r)
  (vr_RoundVoteAckMessageMap r) (vr_MinRoundVoteAck r) (vr_BlockRoundMap r) (vr_RoundVoteAckMessageWaitMap r) (vr_VoteFailCount r).
Definition set_TargetHeight (x : Z) r : VoteRound T X := mkVoteRound (vr_RoundState r) x (vr_RoundVoteMessageMap r)
  (vr_RoundVoteAckMessageMap r) (vr_MinRoundVoteAck r) (vr_BlockRoundMap r) (vr_RoundVoteAckMessageWaitMap r) (vr_VoteFailCount r).
Definition set_RoundVotes x r : VoteRound T X := mkVoteRound (vr_RoundState r) (vr_TargetHeight r) x
  (vr_RoundVoteAckMessageMap r) (vr_MinRoundVoteAck r) (vr_BlockRoundMap r) (vr_RoundVoteAckMessageWaitMap r) (vr_VoteFailCount r).
Definition set_Acks x r : VoteRound T X := mkVoteRound (vr_RoundState r) (vr_TargetHeight r) (vr_RoundVoteMessageMap r)
  x (vr_MinRoundVoteAck r) (vr_BlockRoundMap r) (vr_RoundVoteAckMessageWaitMap r) (vr_VoteFailCount r).
Definition set_MinAck x r : VoteRound T X := mkVoteRound (vr_RoundState r) (vr_TargetHeight r) (vr_RoundVoteMessageMap r)
  (vr_RoundVoteAckMessageMap r) x (vr_BlockRoundMap r) (vr_RoundVoteAckMessageWaitMap r) (vr_VoteFailCount r).
Definition set_BlockRounds x r : VoteRound T X := mkVoteRound (vr_RoundState r) (vr_TargetHeight r) (vr_RoundVoteMessageMap r)
  (vr_RoundVoteAckMessageMap r) (vr_MinRoundVoteAck r) x (vr_RoundVoteAckMessageWaitMap r) (vr_VoteFailCount r).
Definition set_AckWaits x r : VoteRound T X := mkVoteRound (vr_RoundState r) (vr_TargetHeight r) (vr_RoundVoteMessageMap r)
  (vr_RoundVoteAckMessageMap r) (vr_MinRoundVoteAck r) (vr_BlockRoundMap r) x (vr_VoteFailCount r).
Definition set_FailCount (x : Z) r : VoteRound T X := mkVoteRound (vr_RoundState r) (vr_TargetHeight r) (vr_RoundVoteMessageMap r)
  (vr_RoundVoteAckMessageMap r) (vr_MinRoundVoteAck r) (vr_BlockRoundMap r) (vr_RoundVoteAckMessageWaitMap r) x.

Definition set_br_votes x br : BlockRound T X := mkBlockRound x (br_BlockGenMessage br) (br_Context br) (br_BlockVoteMessageWaitMap br)
  (br_BlockGenMessageWait br) (br_LastBlockGenRequestTime br).
Definition set_br_gen (g : BlockGenMessage T) (x : X) br : BlockRound T X := mkBlockRound (br_BlockVoteMap br) (Some g) (Some x)
  (br_BlockVoteMessageWaitMap br) (br_BlockGenMessageWait br) (br_LastBlockGenRequestTime br).
Definition set_br_context (x : option X) br : BlockRound T X := mkBlockRound (br_BlockVoteMap br) (br_BlockGenMessage br) x
  (br_BlockVoteMessageWaitMap br) (br_BlockGenMessageWait br) (br_LastBlockGenRequestTime br).
Definition set_br_waits x br : BlockRound T X := mkBlockRound (br_BlockVoteMap br) (br_BlockGenMessage br) (br_Context br) x
  (br_BlockGenMessageWait br) (br_LastBlockGenRequestTime br).
Definition set_br_genwait x br : BlockRound T X := mkBlockRound (br_BlockVoteMap br) (br_BlockGenMessage br) (br_Context br)
  (br_BlockVoteMessageWaitMap br) x (br_LastBlockGenRequestTime br).
Definition set_br_time (x : Z) br : BlockRound T X := mkBlockRound (br_BlockVoteMap br) (br_BlockGenMessage br) (br_Context br)
  (br_BlockVoteMessageWaitMap br) (br_BlockGenMessageWait br) x.
End Rounds.

(** ** The chain as the observer uses it

    The provider, the committer and the state of the consensus.  [X] is the
    context of an executed block. *)
Class ObserverChain (CH X T : Type) := {
  oc_ChainID : CH → Z;
  oc_Version : CH → Z;
  oc_Height : CH → res Z;
  oc_LastHash : CH → res Hash256;
  oc_LastStatus : CH → res (Z * Hash256);
  oc_Hash : Z → CH → res Hash256;
  oc_cs : CH → CState;
  oc_ValidateHeader : Header → CH → res unit;
  oc_Execute : Block T → CH → res (X * Hash256);       (* NewContext, ExecuteBlockOnContext, Hash *)
  oc_ConnectBlockWithContext : Block T → M (CH * X) unit;
  oc_ConnectBlock : Block T → M CH unit;
}.

(** [encoding.Hash] of the messages that are signed. *)
Class MessageHash := {
  hash_RoundVote : RoundVote → Hash256;
  hash_RoundVoteAck : RoundVoteAck → Hash256;
  hash_BlockVote : BlockVote → Hash256;
  hash_BlockGenRequest : BlockGenRequest → Hash256;
  hash_BlockSign : Hash256 → Signature → Hash256;
}.

(** ** observer_node.go: state *)

Record messageItem (T : Type) := mkItem {
  it_PublicHash : PublicHash;
  it_Message : obmsg T;
  it_Packet : bytes;
}.
Arguments mkItem {T} _ _ _.
Arguments it_PublicHash {T} _.
Arguments it_Message {T} _.
Arguments it_Packet {T} _.

(** What leaves the node. *)
Inductive output (T : Type) :=
  | OSendTo (to : PublicHash) (m : obmsg T)
  | OPacketTo (to : PublicHash) (packet : bytes)
  | OBroadcast (m : obmsg T)
  | OBroadcastPacket (packet : bytes)
  | OSendAnyone (m : obmsg T)
  | OFormulator (to : Address) (m : fmsg)
  | ORemovePeer (formulator : Address)
  | OSleep (nanoseconds : Z).
Arguments OSendTo {T} _ _.
Arguments OPacketTo {T} _ _.
Arguments OBroadcast {T} _.
Arguments OBroadcastPacket {T} _.
Arguments OSendAnyone {T} _.
Arguments OFormulator {T} _ _.
Arguments ORemovePeer {T} _.
Arguments OSleep {T} _.

Record ObserverNode (CH X T : Type) := mkObserver {
  ob_chain : CH;
  ob_round : VoteRound T X;
  ob_roundFirstTime : Z;
  ob_roundFirstHeight : Z;
  ob_ignoreMap : gmap Address Z;
  ob_statusMap : gmap Address Z;          (* the height of the status of a formulator *)
  ob_requestTimer : RequestTimer;
  ob_blockQ : SortedQueue (V:=Block T);
  ob_messageQueue : list (messageItem T);
  ob_reads : nat;                         (* reads of the clock so far *)
  ob_out : list (output T);
}.
Arguments mkObserver {CH X T} _ _ _ _ _ _ _ _ _ _ _.
Arguments ob_chain {CH X T} _.
Arguments ob_round {CH X T} _.
Arguments ob_roundFirstTime {CH X T} _.
Arguments ob_roundFirstHeight {CH X T} _.
Arguments ob_ignoreMap {CH X T} _.
Arguments ob_statusMap {CH X T} _.
Arguments ob_requestTimer {CH X T} _.
Arguments ob_blockQ {CH X T} _.
Arguments ob_messageQueue {CH X T} _.
Arguments ob_reads {CH X T} _.
Arguments ob_out {CH X T} _.

(** What one step finds outside the node: the clock, the connected
    formulators, the ids of the connected observers, which of them can be
    reached, the packet of blocks that [BlockPacketWithCache] builds, and the
    order in which Go iterates over a map. *)
Record Env := mkEnv {
  env_now : nat → Z;
  env_formulators : gmap Address bool;
  env_peers : list bytes;
  env_reach : PublicHash → bool;
  env_packet : RequestMessage → res bytes;
  env_range : ∀ V, gmap PublicHash V → list (PublicHash * V);
}.
Definition env_ok (env : Env) : Prop := ∀ V (m : gmap PublicHash V), env_range env V m ≡ₚ map_to_list m.

Section ObserverNode.
Context {CH X T A E : Type} `{OC : !ObserverChain CH X T} `{MH : MessageHash} `{RC : Recover}.
Context `{SC : !StoreCodec A E T} `{TK : TokenCodec}.
(** The public hash and the signature of the key of the node. *)
Context (me : PublicHash) (key_Sign : Hash256 → res Signature).
Context (env : Env).

Abbreviation Observer := (ObserverNode CH X T).
Abbreviation obM := (M (ObserverNode CH X T)).

(** *** Parts of the state *)

Definition upd_chain (x : CH) (ob : Observer) : Observer := mkObserver x (ob_round ob) (ob_roundFirstTime ob)
  (ob_roundFirstHeight ob) (ob_ignoreMap ob) (ob_statusMap ob) (ob_requestTimer ob) (ob_blockQ ob) (ob_messageQueue ob)
  (ob_reads ob) (ob_out ob).
Definition upd_round (f : VoteRound T X → VoteRound T X) (ob : Observer) : Observer := mkObserver (ob_chain ob)
  (f (ob_round ob)) (ob_roundFirstTime ob) (ob_roundFirstHeight ob) (ob_ignoreMap ob) (ob_statusMap ob)
  (ob_requestTimer ob) (ob_blockQ ob) (ob_messageQueue ob) (ob_reads ob) (ob_out ob).
Definition upd_first (time height : Z) (ob : Observer) : Observer := mkObserver (ob_chain ob) (ob_round ob) time height
  (ob_ignoreMap ob) (ob_statusMap ob) (ob_requestTimer ob) (ob_blockQ ob) (ob_messageQueue ob) (ob_reads ob) (ob_out ob).
Definition upd_ignore (f : gmap Address Z → gmap Address Z) (ob : Observer) : Observer := mkObserver (ob_chain ob)
  (ob_round ob) (ob_roundFirstTime ob) (ob_roundFirstHeight ob) (f (ob_ignoreMap ob)) (ob_statusMap ob)
  (ob_requestTimer ob) (ob_blockQ ob) (ob_messageQueue ob) (ob_reads ob) (ob_out ob).
Definition upd_status (f : gmap Address Z → gmap Address Z) (ob : Observer) : Observer := mkObserver (ob_chain ob)
  (ob_round ob) (ob_roundFirstTime ob) (ob_roundFirstHeight ob) (ob_ignoreMap ob) (f (ob_statusMap ob))
  (ob_requestTimer ob) (ob_blockQ ob) (ob_messageQueue ob) (ob_reads ob) (ob_out ob).
Definition upd_timer (x : RequestTimer) (ob : Observer) : Observer := mkObserver (ob_chain ob) (ob_round ob)
  (ob_roundFirstTime ob) (ob_roundFirstHeight ob) (ob_ignoreMap ob) (ob_statusMap ob) x (ob_blockQ ob)
  (ob_messageQueue ob) (ob_reads ob) (ob_out ob).
Definition upd_blockQ (x : SortedQueue (V:=Block T)) (ob : Observer) : Observer := mkObserver (ob_chain ob) (ob_round ob)
  (ob_roundFirstTime ob) (ob_roundFirstHeight ob) (ob_ignoreMap ob) (ob_statusMap ob) (ob_requestTimer ob) x
  (ob_messageQueue ob) (ob_reads ob) (ob_out ob).
Definition upd_queue (f : list (messageItem T) → list (messageItem T)) (ob : Observer) : Observer := mkObserver
  (ob_chain ob) (ob_round ob) (ob_roundFirstTime ob) (ob_roundFirstHeight ob) (ob_ignoreMap ob) (ob_statusMap ob)
  (ob_requestTimer ob) (ob_blockQ ob) (f (ob_messageQueue ob)) (ob_reads ob) (ob_out ob).
Definition upd_reads (n : nat) (ob : Observer) : Observer := mkObserver (ob_chain ob) (ob_round ob)
  (ob_roundFirstTime ob) (ob_roundFirstHeight ob) (ob_ignoreMap ob) (ob_statusMap ob) (ob_requestTimer ob) (ob_blockQ ob)
  (ob_messageQueue ob) n (ob_out ob).
Definition upd_out (o : output T) (ob : Observer) : Observer := mkObserver (ob_chain ob) (ob_round ob)
  (ob_roundFirstTime ob) (ob_roundFirstHeight ob) (ob_ignoreMap ob) (ob_statusMap ob) (ob_requestTimer ob) (ob_blockQ ob)
  (ob_messageQueue ob) (ob_reads ob) (ob_out ob ++ [o]).

Definition now : obM Z := λ ob, (Ok (env_now env (ob_reads ob)), upd_reads (S (ob_reads ob)) ob).
Definition emit (o : output T) : obM unit := modify (upd_out o).
(** [messageQueue.Push]. *)
Definition push (it : messageItem T) : obM unit := modify (upd_queue (.++ [it])).
(** A call whose error is not looked at. *)
Definition ignore {V} (m : obM V) : obM unit := try m ;; mret tt.
Definition on_round (f : VoteRound T X → VoteRound T X) : obM unit := modify (upd_round f).
(** A write through the pointer to the round of a height. *)
Definition on_br (h : Z) (f : BlockRound T X → BlockRound T X) : obM unit :=
  on_round (λ r, set_BlockRounds (alter f h (vr_BlockRoundMap r)) r).
Definition the_chain : obM CH := gets ob_chain.
Definition the_round : obM (VoteRound T X) := gets ob_round.
Definition rank_table : obM RankTable := gets (λ ob, cs_rt (oc_cs (ob_chain ob))).
Definition observerKeyMap : obM (gmap PublicHash bool) := gets (λ ob, cs_observers (oc_cs (ob_chain ob))).

(** [NewObserverNode] on a chain. *)
Definition NewObserverNode (ch : CH) : res Observer :=
  height ← oc_Height ch;
  mret (mkObserver ch (NewVoteRound (u32 (height + 1)) (cs_max (oc_cs ch))) 0 0 ∅ ∅ NewRequestTimer NewSortedQueue [] 0 []).

(** *** observer_node.go *)

Definition adjustFormulatorMap : obM (gmap Address bool) :=
  t ← now;
  ob ← get;
  mret (filter (λ e, ¬ (t < default 0 (ob_ignoreMap ob !! e.1))) (env_formulators env)).

Definition resetVoteRound (resetStat : bool) : obM unit :=
  ch ← the_chain;
  height ← lift (oc_Height ch);
  on_round (λ _, NewVoteRound (u32 (height + 1)) (cs_max (oc_cs ch))) ;;
  if resetStat then modify (upd_first 0 0) else mret tt.

Definition syncVoteRound : obM unit :=
  ch ← the_chain;
  height ← lift (oc_Height ch);
  let TargetHeight := u32 (height + 1) in
  r ← the_round;
  if vr_TargetHeight r <? TargetHeight then
    Top ← (λ ob, match TopRank 0 (cs_rt (oc_cs ch)) with Ok t => (Ok t, ob) | _ => (Panic, ob) end);
    let next := match vr_MinRoundVoteAck r, vr_BlockRoundMap r !! TargetHeight with
                | Some ack, Some br => if bool_decide (rk_Address Top = ra_Formulator ack) then Some br else None
                | _, _ => None
                end in
    match next with
    | Some br =>
        on_round (λ r, set_RoundState BlockWaitState (set_TargetHeight TargetHeight r)) ;;
        match br_BlockGenMessageWait br, br_BlockGenMessage br with
        | Some m, None =>
            push (mkItem [] (MBlockGen m) []) ;;
            on_br TargetHeight (set_br_genwait None)
        | _, _ => mret tt
        end
    | None => resetVoteRound false
    end
  else mret tt.

Definition addBlock (b : Block T) : obM unit :=
  ob ← get;
  height ← lift (oc_Height (ob_chain ob));
  if HHeight (BHeader b) <=? height then
    h ← lift (oc_Hash (HHeight (BHeader b)) (ob_chain ob));
    guard_err (negb (bool_decide (h = header_Hash (BHeader b)))) ErrFoundForkedBlock
  else
    let '(item, q) := FindOrInsert (Some b) (HHeight (BHeader b)) (ob_blockQ ob) in
    modify (upd_blockQ q) ;;
    match item with
    | Some old => guard_err (negb (bool_decide (header_Hash (BHeader old) = header_Hash (BHeader b)))) ErrFoundForkedBlock
    | None => mret tt
    end.

(** *** observer_node_send.go *)

Definition sendMessage (to : Address) (m : fmsg) : obM unit := emit (OFormulator to m).
(** [ms.SendTo]; the callers that look at its error are few. *)
Definition ms_SendTo (to : PublicHash) (m : obmsg T) : obM unit :=
  if env_reach env to then emit (OSendTo to m) else fail ErrNotExistObserverPeer.

Definition sendRoundVote : obM unit :=
  m ← adjustFormulatorMap;
  rt ← rank_table;
  '(Top, TimeoutCount) ← lift (TopRankInMap m rt);
  ch ← the_chain;
  '(height, lastHash) ← lift (oc_LastStatus ch);
  t ← now;
  let rv := mkRoundVote (oc_ChainID ch) lastHash (u32 (height + 1)) (u32 (Z.of_nat TimeoutCount))
              (rk_Address Top) (rk_PublicHash Top) (u64 t) false in
  ob ← get;
  (if match ob_statusMap ob !! rk_Address Top with Some h => h <? height | None => true end
   then sendMessage (rk_Address Top) (FStatus (mkStatus (oc_Version ch) height lastHash)) else mret tt) ;;
  on_round (set_FailCount 0) ;;
  sig ← lift (key_Sign (hash_RoundVote rv));
  push (mkItem me (MRoundVote (mkRoundVoteMessage rv sig)) []) ;;
  emit (OBroadcast (MRoundVote (mkRoundVoteMessage rv sig))).

Definition sendRoundVoteTo (to : PublicHash) : obM unit :=
  if bool_decide (to = me) then mret tt
  else
    ch ← the_chain;
    '(height, lastHash) ← lift (oc_LastStatus ch);
    r ← the_round;
    if vr_RoundState r =? BlockVoteState then
      match vr_RoundVoteMessageMap r !! me with
      | None => mret tt
      | Some MyMsg =>
          let v := rvm_RoundVote MyMsg in
          rv ← (if negb (rv_TargetHeight v =? u32 (height + 1)) then
                  t ← now;
                  mret (mkRoundVote (rv_ChainID v) lastHash (u32 (height + 1)) 0 (rv_Formulator v)
                          (rv_FormulatorPublicHash v) (u64 t) true)
                else mret (mkRoundVote (rv_ChainID v) (rv_LastHash v) (rv_TargetHeight v) (rv_TimeoutCount v)
                             (rv_Formulator v) (rv_FormulatorPublicHash v) (rv_Timestamp v) true));
          sig ← lift (key_Sign (hash_RoundVote rv));
          ignore (ms_SendTo to (MRoundVote (mkRoundVoteMessage rv sig)))
      end
    else
      m ← adjustFormulatorMap;
      rt ← rank_table;
      '(Top, TimeoutCount) ← lift (TopRankInMap m rt);
      t ← now;
      let rv := mkRoundVote (oc_ChainID ch) lastHash (u32 (height + 1)) (u32 (Z.of_nat TimeoutCount))
                  (rk_Address Top) (rk_PublicHash Top) (u64 t) true in
      sig ← lift (key_Sign (hash_RoundVote rv));
      ignore (ms_SendTo to (MRoundVote (mkRoundVoteMessage rv sig))).

(** The votes are collected in the order of the map and sorted; the first of
    an empty list is a panic. *)
Definition sendRoundVoteAck : obM unit :=
  r ← the_round;
  let votes := (λ e : PublicHash * RoundVoteMessage, mkVoteSort e.1 (rv_TimeoutCount (rvm_RoundVote e.2)))
                 <$> env_range env _ (vr_RoundVoteMessageMap r) in
  match votes with
  | [] => panic
  | v :: l =>
      let MinPublicHash := vs_PublicHash (first_vote v l) in
      MinMsg ← lift (of_option (vr_RoundVoteMessageMap r !! MinPublicHash));
      let mv := rvm_RoundVote MinMsg in
      t ← now;
      let ra := mkRoundVoteAck (rv_ChainID mv) (rv_LastHash mv) (rv_TargetHeight mv) (rv_TimeoutCount mv)
                  (rv_Formulator mv) (rv_FormulatorPublicHash mv) MinPublicHash (u64 t) false in
      sig ← lift (key_Sign (hash_RoundVoteAck ra));
      push (mkItem me (MRoundVoteAck (mkRoundVoteAckMessage ra sig)) []) ;;
      emit (OBroadcast (MRoundVoteAck (mkRoundVoteAckMessage ra sig)))
  end.

Definition sendRoundVoteAckTo (to : PublicHash) : obM unit :=
  if bool_decide (to = me) then mret tt
  else
    r ← the_round;
    match vr_RoundVoteAckMessageMap r !! me with
    | None => mret tt
    | Some MyMsg =>
        let v := ram_RoundVoteAck MyMsg in
        let same := mkRoundVoteAck (ra_ChainID v) (ra_LastHash v) (ra_TargetHeight v) (ra_TimeoutCount v)
                      (ra_Formulator v) (ra_FormulatorPublicHash v) (ra_PublicHash v) (ra_Timestamp v) true in
        ra ← (if vr_RoundState r =? BlockVoteState then
                ch ← the_chain;
                '(height, lastHash) ← lift (oc_LastStatus ch);
                if negb (ra_TargetHeight v =? u32 (height + 1)) then
                  t ← now;
                  mret (mkRoundVoteAck (ra_ChainID v) lastHash (u32 (height + 1)) 0 (ra_Formulator v)
                          (ra_FormulatorPublicHash v) (ra_PublicHash v) (u64 t) true)
                else mret same
              else mret same);
        sig ← lift (key_Sign (hash_RoundVoteAck ra));
        ignore (ms_SendTo to (MRoundVoteAck (mkRoundVoteAckMessage ra sig)))
    end.

(** The vote of the node for a generated block: the signature on the block,
    then the signature on the vote. *)
Definition block_vote (gen : BlockGenMessage T) (IsReply : bool) : obM BlockVoteMessage :=
  let bh := BHeader (bg_Block gen) in
  sig ← lift (key_Sign (hash_BlockSign (header_Hash bh) (bg_GeneratorSignature gen)));
  let v := mkBlockVote (HHeight bh) bh (bg_GeneratorSignature gen) sig IsReply in
  sig2 ← lift (key_Sign (hash_BlockVote v));
  mret (mkBlockVoteMessage v sig2).

Definition sendBlockVote (gen : BlockGenMessage T) : obM unit :=
  nm ← block_vote gen false;
  push (mkItem me (MBlockVote nm) []) ;;
  emit (OBroadcast (MBlockVote nm)).

Definition sendBlockGenTo (gen : BlockGenMessage T) (to : PublicHash) : obM unit :=
  if bool_decide (to = me) then mret tt else ignore (ms_SendTo to (MBlockGen gen)).

Definition sendBlockVoteTo (gen : BlockGenMessage T) (to : PublicHash) : obM unit :=
  if bool_decide (to = me) then mret tt
  else nm ← block_vote gen true; ignore (ms_SendTo to (MBlockVote nm)).

(** The request goes to any observer that voted, the first in the order of
    the map; the round is that of the height [h]. *)
Definition sendBlockGenRequest (h : Z) : obM unit :=
  r ← the_round;
  br ← lift (of_option (vr_BlockRoundMap r !! h));
  t ← now;
  if u64 t <? u64 (br_LastBlockGenRequestTime br + 1000000000) then mret tt
  else
    on_br h (set_br_time (u64 t)) ;;
    let target := match env_range env _ (br_BlockVoteMap br) with
                  | e :: _ => Some e.1
                  | [] => match env_range env _ (br_BlockVoteMessageWaitMap br) with
                          | e :: _ => Some e.1
                          | [] => None
                          end
                  end in
    ack ← lift (of_option (vr_MinRoundVoteAck r));
    t ← now;
    let gr := mkBlockGenRequest (ra_ChainID ack) (ra_LastHash ack) (ra_TargetHeight ack) (ra_TimeoutCount ack)
                (ra_Formulator ack) (ra_FormulatorPublicHash ack) (ra_PublicHash ack) (u64 t) in
    sig ← lift (key_Sign (hash_BlockGenRequest gr));
    let nm := MBlockGenRequestPtr (mkBlockGenRequestMessage gr sig) in
    match target with
    | Some p => ignore (ms_SendTo p nm)
    | None => emit (OSendAnyone nm)
    end.

Definition status_message : obM (obmsg T) :=
  ch ← the_chain;
  '(height, lastHash) ← lift (oc_LastStatus ch);
  mret (MStatus (mkStatus (oc_Version ch) height lastHash)).

Definition sendStatusTo (to : PublicHash) : obM unit :=
  if bool_decide (to = me) then mret tt
  else nm ← status_message; ignore (ms_SendTo to nm).

Definition broadcastStatus : obM unit := nm ← status_message; emit (OBroadcast nm).

Definition timer_Add (height : Z) (value : PublicHash) : obM unit :=
  t ← now;
  modify (λ ob, upd_timer (rt_Add height 2000000000 value (u64 t) (ob_requestTimer ob)).2 ob).

Definition sendRequestBlockTo (to : PublicHash) (Height Count : Z) : obM unit :=
  if bool_decide (to = me) then mret tt
  else
    ignore (ms_SendTo to (MRequest (mkRequestMessage Height Count))) ;;
    for_each (λ i, timer_Add (u32 (Height + i)) to) (seqZ 0 Count).

End ObserverNode.
