(* ===== verification/ObserverHandle.v ===== *)
(** * pof: what an observer does with a message

    observer_node_observer.go, observer_node_formulator.go and the loop of
    observer_node.go: one handler per kind of message, the three timers, and
    the steps of a node. *)

From S2P Require Import Prelude Tokens Common Context Block Store Chain Search SortedQueue Rank Pof RequestTimer Observer.

Section ObserverHandle.
Context {CH X T A E : Type} `{OC : !ObserverChain CH X T} `{MH : MessageHash} `{RC : Recover}.
Context `{SC : !StoreCodec A E T} `{TK : TokenCodec}.
Context (me : PublicHash) (key_Sign : Hash256 → res Signature).
Context (env : Env).

Abbreviation obM := (M (ObserverNode CH X T)).

(** ** Checks *)

(** The message is signed by its sender, who is an observer. *)
Definition check_signer (h : Hash256) (sig : Signature) (sender : PublicHash) : obM unit :=
  match recover_signer h sig with
  | None => fail (ErrExternal 1)
  | Some obkey =>
      guard_err (negb (bool_decide (sender = obkey))) ErrInvalidPublicHash ;;
      keys ← observerKeyMap;
      guard_err (negb (bool_decide (is_Some (keys !! obkey)))) ErrInvalidObserverKey
  end.

(** The vote is about the next block of this chain and names the candidate
    whose turn it is after the timeouts. *)
Definition check_turn (cid : Z) (lastHash : Hash256) (timeouts : Z) (formulator : Address) (pubhash : PublicHash)
    : obM unit :=
  ch ← the_chain;
  guard_err (negb (cid =? oc_ChainID ch)) ErrInvalidVote ;;
  h ← lift (oc_LastHash ch);
  guard_err (negb (bool_decide (lastHash = h))) ErrInvalidVote ;;
  rt ← rank_table;
  Top ← lift (TopRank (Z.to_nat timeouts) rt);
  guard_err (negb (bool_decide (formulator = rk_Address Top))) ErrInvalidVote ;;
  guard_err (negb (bool_decide (pubhash = rk_PublicHash Top))) ErrInvalidVote.

(** A vote for another height is refused; the sender of an old one is told
    the status. *)
Definition check_height (height : Z) (reply : bool) (sender : PublicHash) : obM unit :=
  r ← the_round;
  if negb (height =? vr_TargetHeight r) then
    (if (height <? vr_TargetHeight r) && negb reply && negb (bool_decide (sender = me))
     then ignore (sendStatusTo me env sender) else mret tt) ;;
    fail ErrInvalidVote
  else mret tt.

(** The block of the round, when the node votes for one. *)
Definition sendRoundBlockVoteTo (height : Z) (to : PublicHash) : obM unit :=
  r ← the_round;
  if vr_RoundState r =? BlockVoteState then
    match vr_BlockRoundMap r !! height with
    | Some br => gen ← lift (of_option (br_BlockGenMessage br)); ignore (sendBlockVoteTo me key_Sign env gen to)
    | None => mret tt
    end
  else mret tt.

Definition push_all {V} (f : V → obmsg T) (l : list (PublicHash * V)) : obM unit :=
  for_each (λ e, push (mkItem e.1 (f e.2) [])) l.

(** ** RoundVoteMessage *)

Definition handle_RoundVote (sender : PublicHash) (msg : RoundVoteMessage) : obM unit :=
  let v := rvm_RoundVote msg in
  let reply_to_sender := negb (rv_IsReply v) && negb (bool_decide (sender = me)) in
  check_signer (hash_RoundVote v) (rvm_Signature msg) sender ;;
  check_height (rv_TargetHeight v) (rv_IsReply v) sender ;;
  check_turn (rv_ChainID v) (rv_LastHash v) (rv_TimeoutCount v) (rv_Formulator v) (rv_FormulatorPublicHash v) ;;
  r ← the_round;
  if negb (vr_RoundState r =? RoundVoteState) then
    (if reply_to_sender then
       sendRoundBlockVoteTo (rv_TargetHeight v) sender ;;
       ignore (sendRoundVoteTo me key_Sign env sender)
     else mret tt) ;;
    fail ErrInvalidRoundState
  else if match vr_RoundVoteMessageMap r !! sender with
          | Some old => rv_Timestamp v <=? rv_Timestamp (rvm_RoundVote old)
          | None => false
          end then
    (if reply_to_sender then ignore (sendRoundVoteTo me key_Sign env sender) else mret tt) ;;
    fail ErrAlreadyVoted
  else
    on_round (λ r, set_RoundVotes (<[sender := msg]> (vr_RoundVoteMessageMap r)) r) ;;
    (if reply_to_sender then ignore (sendRoundVoteTo me key_Sign env sender) else mret tt) ;;
    r ← the_round;
    keys ← observerKeyMap;
    if (size keys / 2 + 2 <=? size (vr_RoundVoteMessageMap r))%nat then
      on_round (set_RoundState RoundVoteAckState) ;;
      ob ← get;
      (if ob_roundFirstTime ob =? 0 then
         t ← now env;
         height ← lift (oc_Height (ob_chain ob));
         modify (upd_first (u64 t) height)
       else mret tt) ;;
      ignore (sendRoundVoteAck me key_Sign env) ;;
      r ← the_round;
      push_all MRoundVoteAck (env_range env _ (vr_RoundVoteAckMessageWaitMap r))
    else mret tt.

(** ** RoundVoteAckMessage *)

(** The loop over the acks, in the order of the map: the first one at which
    the count of its timeouts and the count of its public hash both reach the
    majority. *)
Fixpoint choose_ack (majority : nat) (tc : gmap Z nat) (pc : gmap PublicHash nat) (l : list RoundVoteAck)
    : option RoundVoteAck :=
  match l with
  | [] => None
  | vt :: l =>
      let TimeoutCount := S (default O (tc !! ra_TimeoutCount vt)) in
      let PublicHashCount := S (default O (pc !! ra_PublicHash vt)) in
      if ((majority <=? TimeoutCount) && (majority <=? PublicHashCount))%nat then Some vt
      else choose_ack majority (<[ra_TimeoutCount vt := TimeoutCount]> tc) (<[ra_PublicHash vt := PublicHashCount]> pc) l
  end.

(** Rounds beyond the turn of the formulator go, and so do waiting blocks of
    another generator. *)
Definition trim_rounds (bound : Z) (formulator : Address) (m : gmap Z (BlockRound T X)) : gmap Z (BlockRound T X) :=
  (λ br, match br_BlockGenMessageWait br with
         | Some w => if negb (bool_decide (Generator (BHeader (bg_Block w)) = formulator))
                     then set_br_genwait None br else br
         | None => br
         end) <$> filter (λ e, ¬ bound ≤ e.1) m.

Definition start_block_wait (ack : RoundVoteAck) : obM unit :=
  on_round (λ r, set_FailCount 0 (set_MinAck (Some ack) (set_RoundState BlockWaitState r))) ;;
  ch ← the_chain;
  let cs := oc_cs ch in
  let RemainBlocks := if ra_TimeoutCount ack =? 0 then u32 (cs_max cs - cs_blocks cs) else cs_max cs in
  on_round (λ r, set_BlockRounds (trim_rounds (u32 (vr_TargetHeight r + RemainBlocks)) (ra_Formulator ack) (vr_BlockRoundMap r)) r) ;;
  (if bool_decide (ra_PublicHash ack = me) then
     sendMessage (ra_Formulator ack) (FBlockReq (mkBlockReq (ra_LastHash ack) (ra_TargetHeight ack) (ra_TimeoutCount ack)
                                                   (ra_Formulator ack) (ra_FormulatorPublicHash ack)))
   else mret tt) ;;
  r ← the_round;
  match vr_BlockRoundMap r !! vr_TargetHeight r with
  | Some br =>
      match br_BlockGenMessageWait br, br_BlockGenMessage br with
      | Some w, None =>
          (if bool_decide (Generator (BHeader (bg_Block w)) = ra_Formulator ack)
           then push (mkItem [] (MBlockGen w) []) else mret tt) ;;
          on_br (vr_TargetHeight r) (set_br_genwait None)
      | _, _ => mret tt
      end
  | None => mret tt
  end.

Definition handle_RoundVoteAck (sender : PublicHash) (msg : RoundVoteAckMessage) : obM unit :=
  let v := ram_RoundVoteAck msg in
  let reply_to_sender := negb (ra_IsReply v) && negb (bool_decide (sender = me)) in
  check_signer (hash_RoundVoteAck v) (ram_Signature msg) sender ;;
  check_height (ra_TargetHeight v) (ra_IsReply v) sender ;;
  check_turn (ra_ChainID v) (ra_LastHash v) (ra_TimeoutCount v) (ra_Formulator v) (ra_FormulatorPublicHash v) ;;
  r ← the_round;
  if negb (vr_RoundState r =? RoundVoteAckState) then
    (if vr_RoundState r <? RoundVoteAckState then
       on_round (λ r, set_AckWaits (<[sender := msg]> (vr_RoundVoteAckMessageWaitMap r)) r)
     else if reply_to_sender then
       sendRoundBlockVoteTo (ra_TargetHeight v) sender ;;
       ignore (sendRoundVoteAckTo me key_Sign env sender)
     else mret tt) ;;
    fail ErrInvalidRoundState
  else if match vr_RoundVoteAckMessageMap r !! sender with
          | Some old => ra_Timestamp v <=? ra_Timestamp (ram_RoundVoteAck old)
          | None => false
          end then
    (if negb (ra_IsReply v) then ignore (sendRoundVoteAckTo me key_Sign env sender) else mret tt) ;;
    fail ErrAlreadyVoted
  else
    on_round (λ r, set_Acks (<[sender := msg]> (vr_RoundVoteAckMessageMap r)) r) ;;
    (if reply_to_sender then ignore (sendRoundVoteAckTo me key_Sign env sender) else mret tt) ;;
    r ← the_round;
    keys ← observerKeyMap;
    if (size keys / 2 + 1 <=? size (vr_RoundVoteAckMessageMap r))%nat then
      match choose_ack (size keys / 2 + 1) ∅ ∅
              ((ram_RoundVoteAck ∘ snd) <$> env_range env _ (vr_RoundVoteAckMessageMap r)) with
      | Some ack => start_block_wait ack
      | None => mret tt
      end
    else mret tt.

(** ** BlockGenMessage *)

(** The observer farthest from the one that asked for the block. *)
Fixpoint farthest (base : Z) (leader : PublicHash) (ids : list bytes) (MaxValue : Z) (MaxID : bytes) : res bytes :=
  match ids with
  | [] => Ok MaxID
  | ID :: ids =>
      if bool_decide (ID = leader) then farthest base leader ids MaxValue MaxID
      else
        value ← LittleEndian_Uint64 ID;
        let diff := if value <? base then base - value else value - base in
        if MaxValue <? diff then farthest base leader ids diff ID else farthest base leader ids MaxValue MaxID
  end.

(** The next formulator in line among those that are connected. *)
Definition next_top (m : gmap Address bool) : obM (option Rank) :=
  if (0 <? size m)%nat then
    rt ← rank_table;
    '(r, _) ← lift (TopRankInMap m rt);
    mret (Some r)
  else mret None.

(** A block from outside is passed on by the observer that asked for it, and
    to the next formulator by the one farthest from it. *)
Definition relay_gen (raw : bytes) : obM unit :=
  r ← the_round;
  match vr_MinRoundVoteAck r with
  | None => mret tt
  | Some ack =>
      if (length raw =? 0)%nat then mret tt
      else if bool_decide (ra_PublicHash ack = me) then emit (OBroadcastPacket raw)
      else
        base ← lift (LittleEndian_Uint64 (ra_PublicHash ack));
        MaxID ← lift (farthest base (ra_PublicHash ack) (env_peers env ++ [me]) 0 []);
        if bool_decide (me = Common.copy (replicate PublicHashSize 0) MaxID) then
          m ← adjustFormulatorMap env;
          NextTop ← next_top (delete (ra_Formulator ack) m);
          match NextTop with
          | Some top => sendMessage (rk_Address top) (FPacket raw)
          | None => mret tt
          end
        else mret tt
  end.

(** The generated block is the one the round waits for. *)
Definition check_gen (msg : BlockGenMessage T) (wait : option (BlockGenMessage T)) : obM unit :=
  let bh := BHeader (bg_Block msg) in
  TimeoutCount ← lift (DecodeConsensusData (ConsensusData bh));
  rt ← rank_table;
  Top ← lift (TopRank (Z.to_nat TimeoutCount) rt);
  guard_err (negb (bool_decide (Generator bh = rk_Address Top))) ErrInvalidVote ;;
  r ← the_round;
  ack ← lift (of_option (vr_MinRoundVoteAck r));
  guard_err (negb (bool_decide (Generator bh = ra_Formulator ack))) ErrInvalidVote ;;
  guard_err (match wait with
             | Some w => negb (bool_decide (header_Hash bh = header_Hash (BHeader (bg_Block w))))
             | None => false
             end) ErrFoundForkedBlockGen ;;
  match recover_signer (header_Hash bh) (bg_GeneratorSignature msg) with
  | None => fail (ErrExternal 1)
  | Some Signer =>
      guard_err (negb (bool_decide (Signer = rk_PublicHash Top))) ErrInvalidTopSignature ;;
      guard_err (negb (bool_decide (Signer = ra_FormulatorPublicHash ack))) ErrInvalidVote
  end ;;
  ch ← the_chain;
  lift (oc_ValidateHeader bh ch).

Definition handle_BlockGen (msg : BlockGenMessage T) (raw : bytes) : obM unit :=
  let bh := BHeader (bg_Block msg) in
  r ← the_round;
  match vr_BlockRoundMap r !! HHeight bh with
  | None => fail ErrInvalidVote
  | Some br =>
      guard_err (match br_BlockGenMessage br with Some _ => true | None => false end) ErrInvalidVote ;;
      relay_gen raw ;;
      if negb (HHeight bh =? vr_TargetHeight r) then
        (if vr_TargetHeight r <? HHeight bh then on_br (HHeight bh) (set_br_genwait (Some msg)) else mret tt) ;;
        fail ErrInvalidVote
      else if negb (vr_RoundState r =? BlockWaitState) then
        (if vr_RoundState r <? BlockWaitState then on_br (HHeight bh) (set_br_genwait (Some msg)) else mret tt) ;;
        fail ErrInvalidVote
      else
        check_gen msg (br_BlockGenMessageWait br) ;;
        t ← now env;
        guard_err (u64 (u64 t + 10000000000) <? HTimestamp bh) ErrInvalidVote ;;
        ch ← the_chain;
        '(ctx, h) ← lift (oc_Execute (bg_Block msg) ch);
        guard_err (negb (bool_decide (ContextHash bh = h))) ErrInvalidContextHash ;;
        on_round (set_RoundState BlockVoteState) ;;
        on_br (HHeight bh) (set_br_gen msg ctx) ;;
        ignore (sendBlockVote me key_Sign msg) ;;
        push_all MBlockVote (env_range env _ (br_BlockVoteMessageWaitMap br))
  end.

(** ** BlockGenRequestMessage *)

Definition handle_BlockGenRequest (sender : PublicHash) (msg : BlockGenRequestMessage) : obM unit :=
  let v := grm_BlockGenRequest msg in
  check_signer (hash_BlockGenRequest v) (grm_Signature msg) sender ;;
  r ← the_round;
  match vr_BlockRoundMap r !! gr_TargetHeight v with
  | None => fail ErrInvalidVote
  | Some br =>
      check_height (gr_TargetHeight v) false sender ;;
      check_turn (gr_ChainID v) (gr_LastHash v) (gr_TimeoutCount v) (gr_Formulator v) (gr_FormulatorPublicHash v) ;;
      if vr_RoundState r =? BlockVoteState then
        gen ← lift (of_option (br_BlockGenMessage br));
        (if bool_decide (is_Some (br_BlockVoteMap br !! sender)) then mret tt
         else ignore (sendBlockGenTo me env gen sender)) ;;
        ignore (sendBlockVoteTo me key_Sign env gen sender)
      else mret tt
  end.

(** ** BlockVoteMessage *)

(** The checks of a vote for the block [gen] of the round. *)
Definition check_BlockVote (sender : PublicHash) (v : BlockVote) (gen : option (BlockGenMessage T)) : obM unit :=
  let bh := bv_Header v in
  TimeoutCount ← lift (DecodeConsensusData (ConsensusData bh));
  rt ← rank_table;
  Top ← lift (TopRank (Z.to_nat TimeoutCount) rt);
  guard_err (negb (bool_decide (Generator bh = rk_Address Top))) ErrInvalidVote ;;
  match recover_signer (header_Hash bh) (bv_GeneratorSignature v) with
  | None => fail (ErrExternal 1)
  | Some Signer =>
      guard_err (negb (bool_decide (Signer = rk_PublicHash Top))) ErrInvalidTopSignature ;;
      r ← the_round;
      ack ← lift (of_option (vr_MinRoundVoteAck r));
      guard_err (negb (bool_decide (Generator bh = ra_Formulator ack))) ErrInvalidVote ;;
      guard_err (negb (bool_decide (Signer = ra_FormulatorPublicHash ack))) ErrInvalidVote
  end ;;
  ch ← the_chain;
  lastHash ← lift (oc_LastHash ch);
  guard_err (negb (bool_decide (PrevHash bh = lastHash))) ErrInvalidVote ;;
  gen ← lift (of_option gen);
  guard_err (negb (bool_decide (header_Hash bh = header_Hash (BHeader (bg_Block gen))))) ErrInvalidVote ;;
  lift (oc_ValidateHeader bh ch) ;;
  match recover_signer (hash_BlockSign (header_Hash bh) (bv_GeneratorSignature v)) (bv_ObserverSignature v) with
  | None => fail (ErrExternal 1)
  | Some p => guard_err (negb (bool_decide (sender = p))) ErrInvalidVote
  end.

(** The pace of a round: half a second per block. *)
Definition pace (height : Z) : obM unit :=
  ob ← get;
  t ← now env;
  let PastTime := u64 (u64 t - ob_roundFirstTime ob) in
  let ExpectedTime := u64 (u32 (height - ob_roundFirstHeight ob) * 500000000) in
  if PastTime <? ExpectedTime then emit (OSleep (Z.min (ExpectedTime - PastTime) 500000000)) else mret tt.

(** The block with the generator signature and the votes. *)
Definition signed_block (gen : BlockGenMessage T) (sigs : list Signature) : Block T :=
  let b := bg_Block gen in
  mkBlock (BHeader b) (TransactionTypes b) (Transactions b) (TransactionSignatures b) (bg_GeneratorSignature gen :: sigs).

(** [ConnectBlockWithContext] on the context of the round, which it may
    change. *)
Definition connect_round (h : Z) (b : Block T) : obM unit := λ ob,
  match vr_BlockRoundMap (ob_round ob) !! h ≫= br_Context with
  | None => (Panic, ob)
  | Some x =>
      let '(r, (ch, x)) := oc_ConnectBlockWithContext b (ob_chain ob, x) in
      (r, upd_round (λ r, set_BlockRounds (alter (set_br_context (Some x)) h (vr_BlockRoundMap r)) r) (upd_chain ch ob))
  end.

(** The formulators are told of the block. *)
Definition tell_formulators (ack : RoundVoteAck) (v : BlockVote) (b : Block T) (sigs : list Signature) : obM unit :=
  m ← adjustFormulatorMap env;
  let m := delete (ra_Formulator ack) m in
  NextTop ← next_top m;
  if bool_decide (ra_PublicHash ack = me) then
    let nm := FObSign (mkBlockObSign (HHeight (bv_Header v)) (header_Hash (bv_Header v)) (bv_GeneratorSignature v) sigs) in
    sendMessage (ra_Formulator ack) nm ;;
    match NextTop with Some top => sendMessage (rk_Address top) nm | None => mret tt end
  else
    let m := match NextTop with Some top => delete (rk_Address top) m | None => m end in
    if (0 <? size m)%nat then
      rt ← rank_table;
      match RanksInMap m 3 rt with
      | Ok ranks => for_each (λ r, sendMessage (rk_Address r)
                       (FStatus (mkStatus (Version (BHeader b)) (HHeight (BHeader b)) (header_Hash (bv_Header v))))) ranks
      | Err _ => mret tt
      | Panic => panic
      end
    else mret tt.

(** The same formulator goes on with the next height, or a new round starts. *)
Definition next_round (ack : RoundVoteAck) : obM unit :=
  r ← the_round;
  let NextHeight := u32 (vr_TargetHeight r + 1) in
  rt ← rank_table;
  Top ← lift (TopRank 0 rt);
  match vr_BlockRoundMap r !! NextHeight with
  | Some brNext =>
      if bool_decide (rk_Address Top = ra_Formulator ack) then
        on_round (λ r, set_TargetHeight (u32 (vr_TargetHeight r + 1)) (set_FailCount 0 (set_RoundState BlockWaitState r))) ;;
        match br_BlockGenMessageWait brNext, br_BlockGenMessage brNext with
        | Some w, None => push (mkItem [] (MBlockGen w) [])
        | _, Some _ => ignore (sendBlockGenRequest key_Sign env NextHeight)
        | None, None => mret tt
        end
      else resetVoteRound false
  | None => resetVoteRound false
  end.

(** The votes are enough. *)
Definition finish_block (h : Z) (gen : BlockGenMessage T) (v : BlockVote) (votes : gmap PublicHash BlockVote) : obM unit :=
  let sigs := (bv_ObserverSignature ∘ snd) <$> env_range env _ votes in
  pace (HHeight (bv_Header v)) ;;
  let b := signed_block gen sigs in
  connect_round h b ;;
  ignore broadcastStatus ;;
  r ← the_round;
  ack ← lift (of_option (vr_MinRoundVoteAck r));
  modify (upd_ignore (delete (ra_Formulator ack))) ;;
  tell_formulators ack v b sigs ;;
  next_round ack.

Definition handle_BlockVote (sender : PublicHash) (msg : BlockVoteMessage) : obM unit :=
  let v := bvm_BlockVote msg in
  let h := HHeight (bv_Header v) in
  check_signer (hash_BlockVote v) (bvm_Signature msg) sender ;;
  r ← the_round;
  match vr_BlockRoundMap r !! h with
  | None => fail ErrInvalidVote
  | Some br =>
      if negb (h =? vr_TargetHeight r) then
        (if h <? vr_TargetHeight r then ignore (sendStatusTo me env sender)
         else on_br h (set_br_waits (<[sender := msg]> (br_BlockVoteMessageWaitMap br)))) ;;
        fail ErrInvalidVote
      else if negb (vr_RoundState r =? BlockVoteState) then
        (if vr_RoundState r <? BlockVoteState then
           ob ← get;
           (if bool_decide (is_Some (ob_ignoreMap ob !! Generator (bv_Header v))) then
              modify (upd_ignore (delete (Generator (bv_Header v)))) ;; on_round (set_FailCount 0)
            else mret tt) ;;
           on_br h (set_br_waits (<[sender := msg]> (br_BlockVoteMessageWaitMap br))) ;;
           match br_BlockGenMessageWait br, br_BlockGenMessage br with
           | None, None => if vr_RoundState r =? BlockWaitState then ignore (sendBlockGenRequest key_Sign env h) else mret tt
           | _, _ => mret tt
           end
         else mret tt) ;;
        fail ErrInvalidVote
      else
        check_BlockVote sender v (br_BlockGenMessage br) ;;
        gen ← lift (of_option (br_BlockGenMessage br));
        if bool_decide (is_Some (br_BlockVoteMap br !! sender)) then
          (if negb (bv_IsReply v) then ignore (sendBlockVoteTo me key_Sign env gen sender) else mret tt) ;;
          fail ErrAlreadyVoted
        else
          let votes := <[sender := v]> (br_BlockVoteMap br) in
          on_br h (set_br_votes votes) ;;
          (if negb (bv_IsReply v) && negb (bool_decide (sender = me))
           then ignore (sendBlockVoteTo me key_Sign env gen sender) else mret tt) ;;
          keys ← observerKeyMap;
          if (size keys / 2 + 1 <=? size votes)%nat then finish_block h gen v votes else mret tt
  end.

(** ** Messages about blocks *)

Definition clamp_count (c : Z) : Z := let c := if c =? 0 then 1 else c in if 10 <? c then 10 else c.

Definition handle_Request (sender : PublicHash) (m : RequestMessage) : obM unit :=
  let m := mkRequestMessage (rm_Height m) (clamp_count (rm_Count m)) in
  ch ← the_chain;
  Height ← lift (oc_Height ch);
  if Height <? rm_Height m then mret tt
  else
    bs ← lift (env_packet env m);
    if env_reach env sender then emit (OPacketTo sender bs) else fail ErrNotExistObserverPeer.

(** [for i := base+1; i <= base+10 && i <= height; i++]. *)
Fixpoint take_while {V} (f : V → bool) (l : list V) : list V :=
  match l with [] => [] | x :: l => if f x then x :: take_while f l else [] end.
Definition next_ten (base height : Z) : list Z :=
  take_while (λ i, (i <=? u32 (base + 10)) && (i <=? height)) ((λ k, u32 (base + 1 + k)) <$> seqZ 0 10).

(** One round of the loop: ask for ten blocks at once when none of them was
    asked for, else one by one.  The answer tells whether the loop goes on. *)
Definition request_ten (sender : PublicHash) (height BaseHeight : Z) : obM bool :=
  if height <? BaseHeight then mret false
  else
    ob ← get;
    let missing := filter (λ i, rt_Exist i (ob_requestTimer ob) = false) (next_ten BaseHeight height) in
    (if (length missing =? 10)%nat then ignore (sendRequestBlockTo me env sender (u32 (BaseHeight + 1)) 10)
     else if (0 <? length missing)%nat then
       for_each (λ i, ob ← get;
         if rt_Exist i (ob_requestTimer ob) then mret tt else ignore (sendRequestBlockTo me env sender i 1))
         (next_ten BaseHeight height)
     else mret tt) ;;
    mret true.

Fixpoint request_loop (sender : PublicHash) (Height height : Z) (qs : list Z) : obM unit :=
  match qs with
  | [] => mret tt
  | q :: qs =>
      go ← request_ten sender height (u32 (Height + q * 10));
      if (go : bool) then request_loop sender Height height qs else mret tt
  end.

Definition handle_Status (sender : PublicHash) (m : StatusMessage) : obM unit :=
  ch ← the_chain;
  Height ← lift (oc_Height ch);
  if Height <? sm_Height m then request_loop sender Height (sm_Height m) (seqZ 0 10)
  else
    h ← lift (oc_Hash (sm_Height m) ch);
    if bool_decide (h = sm_LastHash m) then mret tt else panic.

(** A forked block ends the program. *)
Definition handle_Block (Blocks : list (Block T)) : obM unit :=
  for_each (λ b, r ← try (addBlock b); match r with inl _ => mret tt | inr _ => panic end) Blocks.

Definition handleObserverMessage (sender : PublicHash) (m : obmsg T) (raw : bytes) : obM unit :=
  match m with
  | MRoundVote msg => handle_RoundVote sender msg
  | MRoundVoteAck msg => handle_RoundVoteAck sender msg
  | MBlockGen msg => handle_BlockGen msg raw
  | MBlockGenRequest msg => handle_BlockGenRequest sender msg
  | MBlockVote msg => handle_BlockVote sender msg
  | MRequest msg => handle_Request sender msg
  | MStatus msg => handle_Status sender msg
  | MBlock bs => handle_Block bs
  | MBlockGenRequestPtr _ | MOther => fail ErrUnknownMessage
  end.

(** [onObserverRecv]: a block is queued with its packet and without its
    sender, anything else with its sender. *)
Definition onObserverRecv (sender : PublicHash) (m : obmsg T) (packet : bytes) : obM unit :=
  match m with
  | MBlockGen _ => push (mkItem [] m packet)
  | _ => push (mkItem sender m [])
  end.

(** ** Formulators *)

Definition OnFormulatorConnected (p : Address) : obM unit :=
  modify (upd_status (<[p := 0]>)) ;;
  ch ← the_chain;
  '(height, lastHash) ← lift (oc_LastStatus ch);
  sendMessage p (FStatus (mkStatus (oc_Version ch) height lastHash)).
Definition OnFormulatorDisconnected (p : Address) : obM unit := modify (upd_status (delete p)).

(** A packet of a formulator: a block that it generated is queued, a request
    or a status waits in a channel until [handleFormulatorMessage] gets it,
    and any other message ends the program. *)
Definition onFormulatorRecv (m : obmsg T) (packet : bytes) : obM unit :=
  match m with
  | MBlockGen _ => push (mkItem [] m packet)
  | MRequest _ | MStatus _ => mret tt
  | _ => panic
  end.

(** A formulator asks for blocks: those it has already are not sent, and when
    three formulators have them, only the five in front are served. *)
Definition handle_FormulatorRequest (p : Address) (m : RequestMessage) : obM unit :=
  ob ← get;
  let known := ob_statusMap ob !! p in
  let from := match known with
              | Some h =>
                  if (rm_Height m <? h) && (u32 (rm_Height m + rm_Count m) <=? h) then None
                  else Some (if rm_Height m <? h then h else rm_Height m)
              | None => Some (rm_Height m)
              end in
  match from with
  | None => mret tt
  | Some from =>
      let hasCount := size (filter (λ e : Address * Z, from ≤ e.2) (ob_statusMap ob)) in
      enable ← (if (hasCount <? 3)%nat then mret true
                else
                  fm ← adjustFormulatorMap env;
                  rt ← rank_table;
                  ranks ← lift (RanksInMap fm 5 rt);
                  mret (existsb (λ r, bool_decide (rk_Address r = p)) ranks));
      if (enable : bool) then
        let m := mkRequestMessage from (clamp_count (rm_Count m)) in
        ch ← the_chain;
        Height ← lift (oc_Height ch);
        if Height <? rm_Height m then mret tt
        else bs ← lift (env_packet env m); sendMessage p (FPacket bs)
      else mret tt
  end.

Definition handle_FormulatorStatus (p : Address) (m : StatusMessage) : obM unit :=
  modify (upd_status (alter (λ h, if h <? sm_Height m then sm_Height m else h) p)) ;;
  ch ← the_chain;
  Height ← lift (oc_Height ch);
  if sm_Height m <=? Height then
    h ← lift (oc_Hash (sm_Height m) ch);
    if bool_decide (h = sm_LastHash m) then mret tt else emit (ORemovePeer p)
  else mret tt.

Definition handleFormulatorMessage (p : Address) (m : obmsg T) : obM unit :=
  match m with
  | MRequest m => handle_FormulatorRequest p m
  | MStatus m => handle_FormulatorStatus p m
  | _ => panic
  end.

(** A message from the channel: a formulator whose message fails is
    removed. *)
Definition recv_step (p : Address) (m : obmsg T) : obM unit :=
  r ← try (handleFormulatorMessage p m);
  match r with inl _ => mret tt | inr _ => emit (ORemovePeer p) end.

(** ** Timers *)

(** The queue of messages: one is taken and handled, its error dropped. *)
Definition queue_step : obM unit :=
  ob ← get;
  match ob_messageQueue ob with
  | [] => mret tt
  | it :: q =>
      modify (upd_queue (λ _, q)) ;;
      ignore (handleObserverMessage (it_PublicHash it) (it_Message it) (it_Packet it))
  end.

(** The blocks that wait in the queue are connected, at most 101 of them; a
    block that can not be connected ends the program.  The answer is
    [hasItem]. *)
Fixpoint connect_loop (fuel : nat) (TargetHeight : Z) (item : option (Block T)) (hasItem : bool) : obM bool :=
  match item with
  | None => mret hasItem
  | Some b =>
      (λ ob, let '(r, ch) := oc_ConnectBlock b (ob_chain ob) in
             (match r with Ok _ => Ok tt | _ => Panic end, upd_chain ch ob)) ;;
      match fuel with
      | O => mret hasItem
      | S fuel =>
          ob ← get;
          let '(item, q) := PopUntil (TargetHeight + 1) (ob_blockQ ob) in
          modify (upd_blockQ q) ;;
          connect_loop fuel (TargetHeight + 1) item true
      end
  end.

Definition block_tick : obM unit :=
  ob ← get;
  height ← lift (oc_Height (ob_chain ob));
  let '(item, q) := PopUntil (u32 (height + 1)) (ob_blockQ ob) in
  modify (upd_blockQ q) ;;
  hasItem ← connect_loop 100 (u32 (height + 1)) item false;
  if (hasItem : bool) then ignore broadcastStatus else mret tt.

(** A round that does not get anywhere for more than 30 ticks is given up, and
    its formulator is ignored for a while. *)
Definition count_failure : obM unit :=
  on_round (λ r, set_FailCount (vr_VoteFailCount r + 1) r) ;;
  r ← the_round;
  if 30 <? vr_VoteFailCount r then
    match vr_MinRoundVoteAck r with
    | Some ack =>
        let addr := ra_Formulator ack in
        ob ← get;
        if bool_decide (is_Some (ob_ignoreMap ob !! addr)) then
          emit (ORemovePeer addr) ;;
          t ← now env; modify (upd_ignore (<[addr := t + 120000000000]>))
        else t ← now env; modify (upd_ignore (<[addr := t + 30000000000]>))
    | None => mret tt
    end ;;
    resetVoteRound true
  else mret tt.

Definition vote_tick : obM unit :=
  syncVoteRound ;;
  m ← adjustFormulatorMap env;
  if (0 <? size m)%nat then
    r ← the_round;
    failable ← (if vr_RoundState r =? RoundVoteState then
                  ignore (sendRoundVote me key_Sign env) ;; ignore broadcastStatus ;; mret true
                else if vr_RoundState r =? BlockVoteState then
                  match vr_BlockRoundMap r !! vr_TargetHeight r with
                  | Some br =>
                      gen ← lift (of_option (br_BlockGenMessage br));
                      ignore (sendBlockVote me key_Sign gen) ;; mret false
                  | None => mret true
                  end
                else mret true);
    if (failable : bool) then count_failure else mret tt
  else mret tt.

(** [OnTimerExpired]: the block is asked from another observer. *)
Definition OnTimerExpired (height : Z) (value : bytes) : obM unit :=
  ch ← the_chain;
  Height ← lift (oc_Height ch);
  if Height <? height then
    let other p := negb (bool_decide (p = me)) && negb (bool_decide (p = Common.copy (replicate PublicHashSize 0) value)) in
    match filter other ((λ id, Common.copy (replicate PublicHashSize 0) id) <$> env_peers env) with
    | p :: _ => ignore (sendRequestBlockTo me env p height 1)
    | [] => mret tt
    end
  else mret tt.

(** ** Steps *)

Inductive event :=
  | EvRecv (sender : PublicHash) (m : obmsg T) (packet : bytes)
  | EvFormulatorRecv (m : obmsg T) (packet : bytes)
  | EvConnected (p : Address)
  | EvDisconnected (p : Address)
  | EvFormulatorMessage (p : Address) (m : obmsg T)
  | EvExpired (height : Z) (value : bytes)
  | EvQueue
  | EvBlockTick
  | EvVoteTick.

Definition run_event (ev : event) : obM unit :=
  match ev with
  | EvRecv sender m packet => onObserverRecv sender m packet
  | EvFormulatorRecv m packet => onFormulatorRecv m packet
  | EvConnected p => OnFormulatorConnected p
  | EvDisconnected p => OnFormulatorDisconnected p
  | EvFormulatorMessage p m => recv_step p m
  | EvExpired h v => OnTimerExpired h v
  | EvQueue => queue_step
  | EvBlockTick => block_tick
  | EvVoteTick => vote_tick
  end.

End ObserverHandle.
