(* ===== verification/ObserverChoice.v ===== *)
(** * The choice of the leader

    The loop over the acks takes the first one, in the order of a Go map, at
    which two counters have reached the majority.  The leader does not depend
    on the order; whether there is one does. *)

From S2P Require Import Prelude Tokens Common Context Block Store Chain Rank Pof RequestTimer Observer ObserverHandle.

Section Choice.
Implicit Types (l : list RoundVoteAck) (a : RoundVoteAck).

Definition timeouts_of (n : Z) l : nat := length (filter (λ a, ra_TimeoutCount a = n) l).
Definition leaders_of (p : PublicHash) l : nat := length (filter (λ a, ra_PublicHash a = p) l).

Lemma filter_count_app {V} (P : V → Prop) `{∀ x, Decision (P x)} (l1 l2 : list V) :
  length (filter P (l1 ++ l2)) = (length (filter P l1) + length (filter P l2))%nat.
Proof. by rewrite filter_app, length_app. Qed.

(** The counters count what was seen. *)
Definition counting (seen : list RoundVoteAck) (tc : gmap Z nat) (pc : gmap PublicHash nat) : Prop :=
  (∀ n, default O (tc !! n) = timeouts_of n seen) ∧ (∀ p, default O (pc !! p) = leaders_of p seen).

Lemma counting_snoc seen tc pc a :
  counting seen tc pc →
  counting (seen ++ [a]) (<[ra_TimeoutCount a := S (default O (tc !! ra_TimeoutCount a))]> tc)
    (<[ra_PublicHash a := S (default O (pc !! ra_PublicHash a))]> pc).
Proof.
  intros [Ht Hp]. split.
  - intros n. unfold timeouts_of. rewrite filter_count_app, filter_cons, filter_nil. destruct (decide (n = ra_TimeoutCount a)) as [->|Hne].
    + rewrite lookup_insert_eq, decide_True by done. cbn. rewrite Ht. unfold timeouts_of. lia.
    + rewrite lookup_insert_ne, decide_False by done. cbn. rewrite Ht. unfold timeouts_of. lia.
  - intros p. unfold leaders_of. rewrite filter_count_app, filter_cons, filter_nil. destruct (decide (p = ra_PublicHash a)) as [->|Hne].
    + rewrite lookup_insert_eq, decide_True by done. cbn. rewrite Hp. unfold leaders_of. lia.
    + rewrite lookup_insert_ne, decide_False by done. cbn. rewrite Hp. unfold leaders_of. lia.
Qed.

(** What is chosen has the majority in both respects. *)
Lemma choose_ack_majority m seen tc pc l a :
  counting seen tc pc → choose_ack m tc pc l = Some a →
  a ∈ l ∧ (m ≤ timeouts_of (ra_TimeoutCount a) (seen ++ l))%nat ∧ (m ≤ leaders_of (ra_PublicHash a) (seen ++ l))%nat.
Proof.
  revert seen tc pc. induction l as [|b l IH]; intros seen tc pc Hc; cbn [choose_ack]; [done|].
  pose proof (counting_snoc seen tc pc b Hc) as Hc'. destruct Hc as [Ht Hp]. rewrite Ht, Hp in *.
  replace (seen ++ b :: l) with ((seen ++ [b]) ++ l) by by rewrite <- (assoc_L (++)).
  destruct ((m <=? _)%nat && (m <=? _)%nat) eqn:Hm; [|intros Ha; destruct (IH _ _ _ Hc' Ha) as (? & ? & ?); split_and!; [by right|done..]].
  intros [= <-]. apply andb_true_iff in Hm as [H1%Nat.leb_le H2%Nat.leb_le].
  unfold timeouts_of, leaders_of in *. rewrite !filter_count_app, !(filter_cons _ b), !decide_True, !filter_nil by done.
  split_and!; [by left|cbn; lia|cbn; lia].
Qed.

(** Two values that a majority has are one. *)
Lemma majority_unique {V W} `{EqDecision W} (f : V → W) (x y : W) (l : list V) m :
  (length l < 2 * m)%nat → (m ≤ length (filter (λ e, f e = x) l))%nat → (m ≤ length (filter (λ e, f e = y) l))%nat → x = y.
Proof.
  intros Hl Hx Hy. destruct (decide (x = y)) as [|Hne]; [done|]. exfalso.
  assert (length (filter (λ e, f e = x) l) + length (filter (λ e, f e = y) l) ≤ length l)%nat; [|lia]. clear Hl Hx Hy.
  induction l as [|a l IH]; [done|]. rewrite !filter_cons.
  destruct (decide (f a = x)), (decide (f a = y)); cbn in *; first [congruence|lia].
Qed.

Lemma count_perm (P : RoundVoteAck → Prop) `{∀ x, Decision (P x)} l1 l2 : l1 ≡ₚ l2 → length (filter P l1) = length (filter P l2).
Proof. intros Hp. by rewrite Hp. Qed.

(** The leader does not depend on the order of the map.  When two
    observers, or one observer twice, go over the same acks in whatever
    orders and both settle on one, the two acks have the same timeout count
    and name the same observer to ask for the block; and a majority of the
    acks has each of the two. *)
Theorem choose_ack_agrees m l1 l2 a1 a2 :
  l1 ≡ₚ l2 → (length l1 < 2 * m)%nat →
  choose_ack m ∅ ∅ l1 = Some a1 → choose_ack m ∅ ∅ l2 = Some a2 →
  ra_TimeoutCount a1 = ra_TimeoutCount a2 ∧ ra_PublicHash a1 = ra_PublicHash a2 ∧
  (m ≤ timeouts_of (ra_TimeoutCount a1) l1)%nat ∧ (m ≤ leaders_of (ra_PublicHash a1) l1)%nat.
Proof.
  intros Hp Hm H1 H2. assert (H0 : counting [] ∅ ∅) by done.
  destruct (choose_ack_majority m [] ∅ ∅ l1 a1 H0 H1) as (_ & T1 & P1).
  destruct (choose_ack_majority m [] ∅ ∅ l2 a2 H0 H2) as (_ & T2 & P2). cbn [app] in *.
  unfold timeouts_of, leaders_of in *. rewrite <- (count_perm _ l1 l2 Hp) in T2. rewrite <- (count_perm _ l1 l2 Hp) in P2.
  split_and!; [by eapply (majority_unique ra_TimeoutCount _ _ l1 m)|by eapply (majority_unique ra_PublicHash _ _ l1 m)|done..].
Qed.
End Choice.

(** Four acks of five observers: timeout 0 has a majority, and so has the
    observer [1], but in one order there is no ack at which both counters have
    reached it, so that the round ends without a leader. *)
Definition ack_of (timeouts : Z) (leader : PublicHash) : RoundVoteAck := mkRoundVoteAck 0 [] 1 timeouts [] [] leader 0 false.

Definition four_acks : list RoundVoteAck := [ack_of 1 [1]; ack_of 0 [2]; ack_of 0 [1]; ack_of 0 [1]].

Lemma choose_ack_agrees_witness :
  ra_TimeoutCount (ack_of 0 [1]) = ra_TimeoutCount (ack_of 0 [1]) ∧ ra_PublicHash (ack_of 0 [1]) = ra_PublicHash (ack_of 0 [1]) ∧
  (3 ≤ timeouts_of 0%Z four_acks)%nat ∧ (3 ≤ leaders_of [1%Z] four_acks)%nat.
Proof.
  apply (choose_ack_agrees 3 four_acks
           [ack_of 0 [2]; ack_of 1 [1]; ack_of 0 [1]; ack_of 0 [1]] (ack_of 0 [1]) (ack_of 0 [1])).
  - by apply perm_swap.
  - cbn. lia.
  - vm_compute. reflexivity.
  - vm_compute. reflexivity.
Defined.

Example choice_needs_order :
  choose_ack 3 ∅ ∅ [ack_of 0 [1]; ack_of 0 [1]; ack_of 1 [1]; ack_of 0 [2]] = None ∧
  choose_ack 3 ∅ ∅ four_acks = Some (ack_of 0 [1]).
Proof. by vm_compute. Qed.
