(* ===== verification/ObserverSpec.v ===== *)
(** * The observer as a voting protocol

    The handlers of the observer node refine a small state machine: the chain,
    the state of the round, the blocks the node has accepted for a vote, and
    the votes it has sent.  The invariant of the machine gives the safety of
    the protocol: a node votes for one block per height. *)

From S2P Require Import Prelude Tokens Common Context Block Store Chain Search SortedQueue Rank Pof RequestTimer Observer ObserverHandle.

(** ** What the observer relies on

    A header passes only at the next height; connecting a block moves the
    chain to the height of the block or leaves it. *)
Class ObserverChainLaws (CH X T : Type) `{OC : !ObserverChain CH X T} : Prop := {
  header_next bh ch n : oc_Height ch = Ok n → oc_ValidateHeader bh ch = Ok tt → HHeight bh = u32 (n + 1);
  connect_height (b : Block T) ch n : oc_Height ch = Ok n →
    match (oc_ConnectBlock b ch).1 with
    | Ok _ => oc_Height (oc_ConnectBlock b ch).2 = Ok (HHeight (BHeader b)) ∧ HHeight (BHeader b) = u32 (n + 1)
    | _ => oc_Height (oc_ConnectBlock b ch).2 = Ok n
    end;
  context_height (b : Block T) ch x :
    match (oc_ConnectBlockWithContext b (ch, x)).1 with
    | Ok _ => oc_Height (oc_ConnectBlockWithContext b (ch, x)).2.1 = Ok (HHeight (BHeader b))
    | _ => oc_Height (oc_ConnectBlockWithContext b (ch, x)).2.1 = oc_Height ch
    end;
}.

(** ** The machine *)

Section Machine.
Context {CH X T : Type} `{OC : !ObserverChain CH X T}.

Abbreviation accepted := (option (BlockGenMessage T) * option X)%type.

(** What matters of a node. *)
Record core := mkCore {
  c_queue : SortedQueue (V:=Block T);
  c_chain : CH;
  c_state : Z;
  c_target : Z;
  c_ack : option RoundVoteAck;
  c_gens : gmap Z accepted;
  c_votes : list BlockVote;
}.

(** The vote in an output. *)
Definition said (m : obmsg T) : list BlockVote := match m with MBlockVote v => [bvm_BlockVote v] | _ => [] end.
Definition vote_of (o : output T) : list BlockVote :=
  match o with OSendTo _ m | OBroadcast m | OSendAnyone m => said m | _ => [] end.
Definition votes_of (out : list (output T)) : list BlockVote := out ≫= vote_of.

Definition gen_of (br : BlockRound T X) : accepted := (br_BlockGenMessage br, br_Context br).
Definition core_of (ob : ObserverNode CH X T) : core :=
  let r := ob_round ob in
  mkCore (ob_blockQ ob) (ob_chain ob) (vr_RoundState r) (vr_TargetHeight r) (vr_MinRoundVoteAck r) (gen_of <$> vr_BlockRoundMap r)
    (votes_of (ob_out ob)).

Definition gen_header (g : BlockGenMessage T) : Header := BHeader (bg_Block g).
(** The block the node votes for. *)
Definition current (g : BlockGenMessage T) (c : core) : Prop :=
  c_state c = BlockVoteState ∧ ∃ x, c_gens c !! c_target c = Some (Some g, x).
Definition vote_for (g : BlockGenMessage T) (v : BlockVote) : Prop :=
  bv_Header v = gen_header g ∧ bv_GeneratorSignature v = bg_GeneratorSignature g.
Definition fresh_round (n Max : Z) (c : core) : core :=
  mkCore (c_queue c) (c_chain c) RoundVoteState (u32 (n + 1)) None
    (list_to_map ((λ i, (i, (None, None))) <$> round_heights (u32 (n + 1)) Max)) (c_votes c).

Inductive pstep (c : core) : core → Prop :=
  (* enough round votes *)
  | p_acks : c_state c = RoundVoteState →
      pstep c (mkCore (c_queue c) (c_chain c) RoundVoteAckState (c_target c) (c_ack c) (c_gens c) (c_votes c))
  (* enough acks for a generator *)
  | p_wait ack : c_state c = RoundVoteAckState →
      pstep c (mkCore (c_queue c) (c_chain c) BlockWaitState (c_target c) (Some ack) (c_gens c) (c_votes c))
  (* the heights beyond its turn go *)
  | p_trim gens : c_state c = BlockWaitState → gens ⊆ c_gens c →
      pstep c (mkCore (c_queue c) (c_chain c) (c_state c) (c_target c) (c_ack c) gens (c_votes c))
  (* a valid block of the generator *)
  | p_gen ack g x y : c_state c = BlockWaitState → c_ack c = Some ack → c_gens c !! c_target c = Some (None, y) →
      HHeight (gen_header g) = c_target c → Generator (gen_header g) = ra_Formulator ack →
      oc_ValidateHeader (gen_header g) (c_chain c) = Ok tt →
      pstep c (mkCore (c_queue c) (c_chain c) BlockVoteState (c_target c) (c_ack c) (<[c_target c := (Some g, Some x)]> (c_gens c)) (c_votes c))
  (* a vote for it *)
  | p_vote g v : current g c → vote_for g v →
      pstep c (mkCore (c_queue c) (c_chain c) (c_state c) (c_target c) (c_ack c) (c_gens c) (c_votes c ++ [v]))
  (* the block gets connected, or not *)
  | p_connect g sigs n x : c_state c = BlockVoteState → c_gens c !! c_target c = Some (Some g, Some x) →
      oc_Height (c_chain c) = Ok n → c_target c = u32 (n + 1) →
      pstep c (let '(ch, x) := (oc_ConnectBlockWithContext (signed_block g sigs) (c_chain c, x)).2 in
               mkCore (c_queue c) ch (c_state c) (c_target c) (c_ack c) (<[c_target c := (Some g, Some x)]> (c_gens c)) (c_votes c))
  (* a block of another observer gets connected, or not *)
  | p_block b : 0 < HHeight (BHeader b) →
      pstep c (mkCore (c_queue c) (oc_ConnectBlock b (c_chain c)).2 (c_state c) (c_target c) (c_ack c) (c_gens c) (c_votes c))
  (* blocks of other observers wait in the queue *)
  | p_insert b n : oc_Height (c_chain c) = Ok n → n < HHeight (BHeader b) →
      pstep c (mkCore (FindOrInsert (Some b) (HHeight (BHeader b)) (c_queue c)).2 (c_chain c) (c_state c) (c_target c)
                 (c_ack c) (c_gens c) (c_votes c))
  | p_pop h :
      pstep c (mkCore (PopUntil h (c_queue c)).2 (c_chain c) (c_state c) (c_target c) (c_ack c) (c_gens c) (c_votes c))
  (* the generator goes on with the next height *)
  | p_next g : current g c → oc_Height (c_chain c) = Ok (HHeight (gen_header g)) → c_target c + 1 < 2 ^ 32 →
      pstep c (mkCore (c_queue c) (c_chain c) BlockWaitState (u32 (c_target c + 1)) (c_ack c) (c_gens c) (c_votes c))
  | p_sync n : oc_Height (c_chain c) = Ok n → n + 1 < 2 ^ 32 → c_target c < u32 (n + 1) → is_Some (c_ack c) →
      pstep c (mkCore (c_queue c) (c_chain c) BlockWaitState (u32 (n + 1)) (c_ack c) (c_gens c) (c_votes c))
  (* a new round: behind the chain, or given up without a block to vote for *)
  | p_reset n Max : oc_Height (c_chain c) = Ok n → n + 1 < 2 ^ 32 →
      c_target c < u32 (n + 1) ∨ c_state c ≠ BlockVoteState ∨ c_gens c !! c_target c = None →
      pstep c (fresh_round n Max c)
  (* a new round after the block *)
  | p_done g Max : current g c → oc_Height (c_chain c) = Ok (HHeight (gen_header g)) → c_target c + 1 < 2 ^ 32 →
      pstep c (fresh_round (HHeight (gen_header g)) Max c).
End Machine.
Arguments core : clear implicits.

(** ** The invariant of the machine *)

Section Invariant.
Context {CH X T : Type} `{OC : !ObserverChain CH X T} `{OL : !ObserverChainLaws CH X T}.
Implicit Types (c : core CH X T) (g : BlockGenMessage T) (v : BlockVote).

(** The vote is for a height the round has left, or for the current block. *)
Definition settled c v : Prop :=
  HHeight (bv_Header v) < c_target c ∨
  ∃ g, current g c ∧ vote_for g v ∧ HHeight (gen_header g) = c_target c.

(** No block of height 0 waits in the queue. *)
Definition queue_ok (q : SortedQueue (V:=Block T)) : Prop :=
  ∃ l, sq_holds q l ∧ Forall (λ e, 0 < HHeight (BHeader e.1)) l.

Record protocol_inv c : Prop := {
  pi_queue : queue_ok (c_queue c);
  pi_height : ∃ n, oc_Height (c_chain c) = Ok n ∧ is_u32 n ∧ 1 ≤ c_target c ≤ n + 1;
  pi_gens : ∀ h g x, c_gens c !! h = Some (Some g, x) → h < c_target c ∨ h = c_target c ∧ c_state c = BlockVoteState;
  pi_current : c_state c = BlockVoteState → ∃ g x, c_gens c !! c_target c = Some (Some g, Some x) ∧ HHeight (gen_header g) = c_target c;
  pi_ack : BlockWaitState ≤ c_state c → is_Some (c_ack c);
  pi_settled : ∀ v, v ∈ c_votes c → settled c v;
  pi_unique : ∀ v1 v2, v1 ∈ c_votes c → v2 ∈ c_votes c → HHeight (bv_Header v1) = HHeight (bv_Header v2) →
    bv_Header v1 = bv_Header v2 ∧ bv_GeneratorSignature v1 = bv_GeneratorSignature v2;
}.

Lemma settled_le c v : settled c v → HHeight (bv_Header v) ≤ c_target c.
Proof. intros [H|(g & _ & [E _] & H)]; [lia|]. rewrite E. lia. Qed.

(** Outside of the vote on a block, every vote is for a height that was left. *)
Lemma settled_before c v : settled c v → c_state c ≠ BlockVoteState → HHeight (bv_Header v) < c_target c.
Proof. by intros [H|(g & [E _] & _)]. Qed.

Lemma u32_next n : 0 ≤ n → n + 1 < 2 ^ 32 → u32 (n + 1) = n + 1.
Proof. intros H1 H2. apply u32_small. split; lia. Qed.

(** A round that starts at a later height, or at the same one when there is no
    block to vote for. *)
Lemma fresh_inv c n Max :
  protocol_inv c → oc_Height (c_chain c) = Ok n → n + 1 < 2 ^ 32 →
  (∀ v, v ∈ c_votes c → HHeight (bv_Header v) < n + 1) → protocol_inv (fresh_round n Max c).
Proof using OL.
  intros [Hq (m & Hm & Hr & Ht) _ _ _ _ Hu] Hn Hb Hv. rewrite Hn in Hm. injection Hm as <-.
  assert (0 ≤ n) by apply Hr. split; cbn.
  - done.
  - exists n. rewrite u32_next by lia. split_and!; [done..|lia|lia].
  - intros h g x Hl. exfalso. apply elem_of_list_to_map_2 in Hl.
    apply list_elem_of_fmap in Hl as (i & [=] & _).
  - done.
  - by unfold BlockWaitState, RoundVoteState.
  - intros v Hin. left. cbn. rewrite u32_next by lia. by apply Hv.
  - done.
Qed.

(** The same block is voted for when the chain changes and the height stays or
    grows. *)
Lemma chain_inv c ch gens n :
  protocol_inv c → oc_Height ch = Ok n → is_u32 n → c_target c ≤ n + 1 →
  (∀ h g x, gens !! h = Some (Some g, x) → ∃ y, c_gens c !! h = Some (Some g, y)) →
  (c_state c = BlockVoteState → ∀ g x, c_gens c !! c_target c = Some (Some g, Some x) →
     ∃ y, gens !! c_target c = Some (Some g, Some y)) →
  protocol_inv (mkCore (c_queue c) ch (c_state c) (c_target c) (c_ack c) gens (c_votes c)).
Proof.
  intros [Hq (m & Hm & Hr & Ht) Hg Hc Ha Hs Hu] Hn Hr' Hle H1 H2. split; cbn; try done.
  - exists n. split_and!; [done..|lia|lia].
  - intros h g x (y & Hl)%H1. by apply (Hg h g y).
  - intros E. destruct (Hc E) as (g & x & Hl & Hh). destruct (H2 E g x Hl) as (y & ?). by exists g, y.
  - intros v [Hlt|(g & (E & x & Hl) & Hvf & Hh)]%Hs; [by left|]. right. exists g. split_and!; [|done..].
    split; [done|]. cbn. destruct (Hc E) as (g' & x' & Hl' & _). rewrite Hl in Hl'. injection Hl' as <- ->.
    destruct (H2 E g x' Hl) as (y & ?). by exists (Some y).
Qed.

Lemma settled_target c c' v :
  settled c v → c_target c < c_target c' → settled c' v.
Proof. intros H%settled_le ?. left. lia. Qed.

(** The round moves to a later height and waits for a block. *)
Lemma wait_inv c t :
  protocol_inv c → (∃ n, oc_Height (c_chain c) = Ok n ∧ is_u32 n ∧ t ≤ n + 1) → c_target c < t → is_Some (c_ack c) →
  protocol_inv (mkCore (c_queue c) (c_chain c) BlockWaitState t (c_ack c) (c_gens c) (c_votes c)).
Proof.
  intros [Hq (m & Hm & Hr & Ht) Hg Hc Ha Hs Hu] (n & Hn & Hr' & Hle) Hlt Hack. split; cbn; try done.
  - exists n. split_and!; [done..|lia|lia].
  - intros h g x Hl. left. destruct (Hg h g x Hl) as [|[-> _]]; lia.
  - intros v Hv. by eapply settled_target; [apply Hs|].
Qed.
Lemma vote_inv c g v :
  protocol_inv c → current g c → vote_for g v →
  protocol_inv (mkCore (c_queue c) (c_chain c) (c_state c) (c_target c) (c_ack c) (c_gens c) (c_votes c ++ [v])).
Proof.
  intros [Hq (m & Hm & Hr & Ht) Hg Hc Ha Hs Hu] Hcur [Eh Es]. pose proof Hcur as (E & x & Hl).
  destruct (Hc E) as (g' & x' & Hl' & Hh). rewrite Hl in Hl'. injection Hl' as <- ->.
  assert (Hnew : ∀ w, w ∈ c_votes c → HHeight (bv_Header w) = HHeight (bv_Header v) →
    bv_Header w = bv_Header v ∧ bv_GeneratorSignature w = bv_GeneratorSignature v).
  { intros w Hw He. rewrite Eh, Hh in He. destruct (Hs w Hw) as [|(g2 & (_ & y & Hl2) & [E2 S2] & _)]; [lia|].
    rewrite Hl in Hl2. injection Hl2 as <- _. by rewrite E2, Eh, S2, Es. }
  split; cbn; try done.
  - by exists m.
  - intros w [Hw|Hw%list_elem_of_singleton]%elem_of_app; [by apply Hs|]. subst w. right. by exists g.
  - intros v1 v2 [H1|H1%list_elem_of_singleton]%elem_of_app [H2|H2%list_elem_of_singleton]%elem_of_app He; subst; auto.
    by destruct (Hnew v2 H2) as [-> ->].
Qed.

Lemma gen_inv c g x y :
  protocol_inv c → c_state c = BlockWaitState → c_gens c !! c_target c = Some (None, y) →
  HHeight (gen_header g) = c_target c →
  protocol_inv (mkCore (c_queue c) (c_chain c) BlockVoteState (c_target c) (c_ack c) (<[c_target c := (Some g, Some x)]> (c_gens c)) (c_votes c)).
Proof.
  intros [Hq (m & Hm & Hr & Ht) Hg Hc Ha Hs Hu] E Hl Hh. split; cbn; try done.
  - by exists m.
  - intros h g' x' Hl'. destruct (decide (h = c_target c)) as [->|Hne]; [by right|].
    rewrite lookup_insert_ne in Hl' by done. destruct (Hg h g' x' Hl') as [|[]]; [by left|done].
  - intros _. exists g, x. by rewrite lookup_insert_eq.
  - intros _. apply Ha. by rewrite E.
  - intros v Hv. left. apply (settled_before c v); [by apply Hs|by rewrite E].
Qed.

Lemma phase_inv c st ack gens :
  protocol_inv c → c_state c ≠ BlockVoteState → st ≠ BlockVoteState → (BlockWaitState ≤ st → is_Some ack) →
  gens ⊆ c_gens c → protocol_inv (mkCore (c_queue c) (c_chain c) st (c_target c) ack gens (c_votes c)).
Proof.
  intros [Hq Hn Hg Hc Ha Hs Hu] E E' Hack Hsub. split; cbn; try done.
  - intros h g x Hl. destruct (Hg h g x) as [|[_ ?]]; [by eapply lookup_weaken|by left|done].
  - intros v Hv. left. apply (settled_before c v); [by apply Hs|done].
Qed.

Lemma queue_inv c q :
  protocol_inv c → queue_ok q →
  protocol_inv (mkCore q (c_chain c) (c_state c) (c_target c) (c_ack c) (c_gens c) (c_votes c)).
Proof. intros [Hq Hn Hg Hc Ha Hs Hu] Hq'. by split. Qed.

Lemma Forall_filtered {V} (Q P : V → Prop) `{∀ x, Decision (P x)} (l : list V) : Forall Q l → Forall Q (filter P l).
Proof. rewrite !Forall_forall. intros Hl x [_ Hx]%list_elem_of_filter. by apply Hl. Qed.

Lemma queue_insert q (b : Block T) :
  queue_ok q → 0 < HHeight (BHeader b) → queue_ok (FindOrInsert (Some b) (HHeight (BHeader b)) q).2.
Proof.
  intros (l & Hl & Hf) Hb. unfold FindOrInsert. rewrite (find_holds q l _ Hl). case_match; [by exists l|].
  exists (spec_insert b (HHeight (BHeader b)) l). split; [by apply insert_holds|]. unfold spec_insert.
  apply Forall_app. split; [|constructor; [done|]]; by apply Forall_filtered.
Qed.

(** What is taken out of the queue was in it. *)
Lemma pop_until_in p (l : list (Block T * Z)) (Q : Block T * Z → Prop) :
  Forall Q l → Forall Q (spec_pop_until p l).2 ∧ ∀ b, (spec_pop_until p l).1 = Some b → ∃ k, Q (b, k).
Proof.
  intros Hf. unfold spec_pop_until. pose proof (Forall_filtered Q (λ e, p ≤ e.2) l Hf) as Hk.
  destruct (filter (λ e, p ≤ e.2) l) as [|[b k] l']; [done|]. inversion Hk as [|? ? H1 H2]; subst.
  case_match; cbn; [split; [done|intros b' [= <-]; by exists k]|by split].
Qed.

Lemma queue_pop q h : queue_ok q → queue_ok (PopUntil h q).2.
Proof.
  intros (l & Hl & Hf). pose proof (popuntil_holds (sq_size q) q l h Hl (Nat.eq_le_incl _ _ (eq_sym (sh_size _ _ Hl)))) as [_ Hp].
  exists (spec_pop_until h l).2. split; [done|by apply pop_until_in].
Qed.

Lemma queue_popped q h b : queue_ok q → (PopUntil h q).1 = Some b → 0 < HHeight (BHeader b).
Proof.
  intros (l & Hl & Hf) Hb. pose proof (popuntil_holds (sq_size q) q l h Hl (Nat.eq_le_incl _ _ (eq_sym (sh_size _ _ Hl)))) as [Hp _].
  unfold PopUntil in Hb. rewrite Hp in Hb. by apply (pop_until_in h l _ Hf) in Hb as [k Hk].
Qed.

(** The invariant of the protocol.  Every step keeps it: the round is at
    most one height ahead of the chain; a block is accepted only for the
    height of the round, and one is while the node votes; a leader was chosen
    before blocks are waited for; and all votes for one height are for the
    same block with the same signature of its generator. *)
Lemma pstep_inv c c' : protocol_inv c → pstep c c' → protocol_inv c'.
Proof using OL.
  intros I Hst. pose proof I as [Hq (n & Hn & [Hn0 Hn1] & Ht) Hg Hc Ha Hs Hu].
  destruct Hst as [E|ack E|gens E Hsub|ack g x y E Hack Hl Hh _ _|g v Hcur Hv|g sigs n' x E Hl Hn' Ht'|b Hb
    |b n' Hn' Hb|h|g Hcur Hh Hb|n' Hn' Hb Hlt Hack|n' Max Hn' Hb Hw|g Max Hcur Hh Hb].
  - apply (phase_inv c); [done|by rewrite E|done|by unfold BlockWaitState, RoundVoteAckState|done].
  - apply (phase_inv c); [done|by rewrite E|done|by eexists|done].
  - apply (phase_inv c); [done|by rewrite E|by rewrite E|done|done].
  - by eapply gen_inv.
  - by eapply vote_inv.
  - rewrite Hn in Hn'. injection Hn' as <-. destruct (Hc E) as (g' & x' & Hl' & Hh).
    rewrite Hl in Hl'. injection Hl' as <- <-.
    pose proof (context_height (signed_block g sigs) (c_chain c) x) as Hx.
    destruct (oc_ConnectBlockWithContext _ _) as [r [ch x2]]. cbn in Hx |- *.
    apply (chain_inv c ch _ (match r with Ok _ => c_target c | _ => n end)); [done| |by destruct r; [rewrite Ht'; apply u32_range|..]|by destruct r; lia| |].
    + destruct r; [|by rewrite Hx..]. rewrite Hx. unfold gen_header in Hh. by rewrite Hh.
    + intros h g' y. destruct (decide (h = c_target c)) as [->|]; [|rewrite lookup_insert_ne by done; eauto].
      rewrite lookup_insert_eq. intros [= <- <-]. eauto.
    + intros _ g' y Hl'. rewrite Hl in Hl'. injection Hl' as <- <-. exists x2. by rewrite lookup_insert_eq.
  - pose proof (connect_height b _ _ Hn) as Hx. destruct (oc_ConnectBlock b (c_chain c)) as [r ch]. cbn in Hx |- *.
    apply (chain_inv c ch _ (match r with Ok _ => HHeight (BHeader b) | _ => n end)); [done|by destruct r; [apply Hx|..]| | |eauto|eauto].
    + destruct r; [|done..]. rewrite (proj2 Hx). apply u32_range.
    + destruct r; [|lia..]. destruct Hx as [_ Hx]. rewrite Hx in Hb |- *.
      destruct (decide (n + 1 = 2 ^ 32)) as [E|]; [by rewrite E in Hb|]. rewrite u32_next by lia. lia.
  - rewrite Hn in Hn'. injection Hn' as <-. apply queue_inv; [done|]. apply queue_insert; [done|lia].
  - apply queue_inv; [done|]. by apply queue_pop.
  - destruct Hcur as (E & x & Hl). destruct (Hc E) as (g' & x' & Hl' & Hh'). rewrite Hl in Hl'. injection Hl' as <- ->.
    rewrite u32_next by lia. apply wait_inv; [done|eexists; split_and!; [exact Hh|split; lia|lia]|lia|apply Ha; rewrite E; done].
  - rewrite Hn in Hn'. injection Hn' as <-. apply wait_inv; [done|exists n; split_and!; [done..|]|done|done].
    rewrite u32_next by lia. lia.
  - rewrite Hn in Hn'. injection Hn' as <-. apply fresh_inv; [done..|]. intros v Hv. rewrite u32_next in Hw by lia.
    destruct Hw as [Hw|Hw]; [apply Hs, settled_le in Hv; lia|].
    assert (E : c_state c ≠ BlockVoteState) by (intros E; destruct Hw as [|Hw]; [done|];
      destruct (Hc E) as (? & ? & Hl & _); by rewrite Hw in Hl).
    pose proof (settled_before c v (Hs v Hv) E). lia.
  - destruct Hcur as (E & x & Hl). destruct (Hc E) as (g' & x' & Hl' & Hh'). rewrite Hl in Hl'. injection Hl' as <- ->.
    apply fresh_inv; [done..|rewrite Hh'; lia|]. intros v Hv. apply Hs, settled_le in Hv. lia.
Qed.
End Invariant.
