(* ===== verification/ObserverQuiet.v ===== *)
(** * Reasoning about the steps of an observer node

    Triples for computations of the node whose effect is a sequence of steps of
    the protocol, and the computations the protocol does not see: they change
    neither the chain nor the accepted blocks, and send no vote. *)

From S2P Require Import Prelude Tokens Common Context Block Store Chain Search SortedQueue Rank Pof RequestTimer Observer ObserverHandle ObserverSpec.

Section Refines.
Context {CH X T : Type} `{OC : !ObserverChain CH X T} (env : Env).

Abbreviation node := (ObserverNode CH X T).
Abbreviation obM := (M (ObserverNode CH X T)).
Implicit Types (ob : node).

(** ** Computations the protocol does not see *)

Definition quiet {V} (m : obM V) : Prop := ∀ c, keeps (λ ob, core_of ob = c) m.

(** [tr P m Q]: from a node that satisfies [P], the run is a sequence of steps
    whatever comes out, and [Q] holds when it is a value. *)
Definition tr {V} (P : node → Prop) (m : obM V) (Q : V → node → Prop) : Prop := ∀ ob, P ob →
  rtc pstep (core_of ob) (core_of (m ob).2) ∧ match (m ob).1 with Ok a => Q a (m ob).2 | _ => True end.

Lemma tr_bind {V W} P (m : obM V) Q (f : V → obM W) R :
  tr P m Q → (∀ a, tr (Q a) (f a) R) → tr P (m ≫= f) R.
Proof.
  intros Hm Hf ob HP. destruct (Hm ob HP) as [H1 H2]. unfold mbind, M_bind.
  destruct (m ob) as [[a|e|] ob1]; cbn in *; [|done..]. destruct (Hf a ob1 H2) as [H3 H4].
  split; [by etrans|done].
Qed.

Lemma tr_conseq {V} (P P' : node → Prop) (m : obM V) (Q Q' : V → node → Prop) :
  tr P m Q → (∀ ob, P' ob → P ob) → (∀ a ob, Q a ob → Q' a ob) → tr P' m Q'.
Proof.
  intros H1 H2 H3 ob HP. destruct (H1 ob (H2 _ HP)) as [? H4]. split; [done|].
  destruct (m ob) as [[a|e|] ob1]; cbn in *; auto.
Qed.

Lemma tr_ret {V} (Q : V → node → Prop) (a : V) : tr (Q a) (mret a) Q.
Proof. by intros ob HP. Qed.
Lemma tr_fail {V} P (Q : V → node → Prop) e : tr P (fail e) Q.
Proof. by intros ob HP. Qed.
Lemma tr_panic {V} P (Q : V → node → Prop) : tr P panic Q.
Proof. by intros ob HP. Qed.
Lemma tr_lift {V} P (r : res V) : tr P (lift r) (λ a ob, P ob ∧ r = Ok a).
Proof. intros ob HP. cbn. by destruct r. Qed.
Lemma tr_gets {V} P (f : node → V) : tr P (gets f) (λ a ob, P ob ∧ f ob = a).
Proof. by intros ob HP. Qed.
Lemma tr_get P : tr P get (λ a ob, P ob ∧ ob = a).
Proof. by intros ob HP. Qed.
Lemma tr_guard P b e : tr P (guard_err b e) (λ _ ob, P ob ∧ b = false).
Proof. intros ob HP. by destruct b. Qed.

Lemma tr_ignore {V} P (m : obM V) : tr P m (λ _ _, True) → tr P (ignore m) (λ _ _, True).
Proof.
  intros Hm ob HP. destruct (Hm ob HP) as [H1 _]. unfold ignore, try, mbind, M_bind.
  by destruct (m ob) as [[a|e|] ob1].
Qed.

(** What a quiet computation keeps. *)
Lemma tr_quiet {V} (P : core CH X T → Prop) (m : obM V) :
  quiet m → tr (λ ob, P (core_of ob)) m (λ _ ob, P (core_of ob)).
Proof.
  intros Hm ob HP. pose proof (Hm (core_of ob) ob eq_refl) as HE. split; [by rewrite HE|].
  destruct (m ob) as [[a|e|] ob1]; cbn in *; [|done..]. by rewrite HE.
Qed.

Lemma quiet_bind {V W} (m : obM V) (f : V → obM W) : quiet m → (∀ a, quiet (f a)) → quiet (m ≫= f).
Proof. intros Hm Hf c. apply keeps_bind; [done|intros a; apply Hf]. Qed.
Lemma quiet_ret {V} (a : V) : quiet (mret a). Proof. intros c. apply keeps_ret. Qed.
Lemma quiet_guard b e : quiet (guard_err b e). Proof. intros c. apply keeps_guard. Qed.
Lemma quiet_fail {V} e : quiet (fail e : obM V). Proof. intros c. apply keeps_fail. Qed.
Lemma quiet_lift {V} (r : res V) : quiet (lift r). Proof. intros c. apply keeps_lift. Qed.
Lemma quiet_panic {V} : quiet (panic : obM V). Proof. intros c. apply keeps_panic. Qed.
Lemma quiet_gets {V} (f : node → V) : quiet (gets f). Proof. intros c. apply keeps_gets. Qed.
Lemma quiet_get : quiet get. Proof. by intros c ob. Qed.
Lemma quiet_try {V} (m : obM V) : quiet m → quiet (try m).
Proof. intros Hm c. by apply keeps_try. Qed.
Lemma quiet_ignore {V} (m : obM V) : quiet m → quiet (ignore m).
Proof. intros Hm. apply quiet_bind; [intros c; by apply keeps_try|intros; apply quiet_ret]. Qed.
Lemma quiet_for_each {V} (f : V → obM unit) l : (∀ a, quiet (f a)) → quiet (for_each f l).
Proof. intros Hf c. apply keeps_for_each. intros a. apply Hf. Qed.
Lemma quiet_modify (f : node → node) : (∀ ob, core_of (f ob) = core_of ob) → quiet (modify f).
Proof. intros Hf c ob <-. apply Hf. Qed.

Lemma votes_snoc (out : list (output T)) o : votes_of (out ++ [o]) = votes_of out ++ vote_of o.
Proof. unfold votes_of. rewrite bind_app. cbn. by rewrite app_nil_r. Qed.

Lemma quiet_emit o : vote_of o = [] → quiet (emit o : obM unit).
Proof.
  intros Ho. apply quiet_modify. intros ob. unfold core_of. cbn [upd_out ob_round ob_chain ob_out ob_blockQ].
  by rewrite votes_snoc, Ho, app_nil_r.
Qed.

Lemma quiet_now : quiet (now env). Proof. by intros c ob. Qed.

(** A change of the round of a height that leaves the accepted block. *)
Lemma gen_of_alter (f : BlockRound T X → BlockRound T X) h (m : gmap Z (BlockRound T X)) :
  (∀ br, gen_of (f br) = gen_of br) → gen_of <$> alter f h m = gen_of <$> m.
Proof.
  intros Hf. apply map_eq. intros i. rewrite !lookup_fmap. destruct (decide (i = h)) as [->|].
  - rewrite lookup_alter_eq. destruct (m !! h); cbn; [by rewrite Hf|done].
  - by rewrite lookup_alter_ne.
Qed.

Lemma quiet_br h (f : BlockRound T X → BlockRound T X) : (∀ br, gen_of (f br) = gen_of br) → quiet (on_br h f).
Proof. intros Hf. apply quiet_modify. intros ob. unfold core_of. cbn. by rewrite gen_of_alter. Qed.

Lemma quiet_round (f : VoteRound T X → VoteRound T X) :
  (∀ r, vr_RoundState (f r) = vr_RoundState r ∧ vr_TargetHeight (f r) = vr_TargetHeight r ∧
        vr_MinRoundVoteAck (f r) = vr_MinRoundVoteAck r ∧ vr_BlockRoundMap (f r) = vr_BlockRoundMap r) →
  quiet (on_round f).
Proof.
  intros Hf. apply quiet_modify. intros ob. unfold core_of. cbn.
  by destruct (Hf (ob_round ob)) as (-> & -> & -> & ->).
Qed.
End Refines.

Create HintDb quiet.
#[export] Hint Resolve quiet_ret quiet_guard quiet_fail quiet_lift quiet_panic quiet_gets quiet_get quiet_ignore
  quiet_for_each quiet_now : quiet.
#[export] Hint Extern 1 (quiet (emit _)) => apply quiet_emit; reflexivity : quiet.
#[export] Hint Extern 1 (quiet (modify _)) => apply quiet_modify; reflexivity : quiet.
#[export] Hint Extern 1 (quiet (push _)) => apply quiet_modify; reflexivity : quiet.
#[export] Hint Extern 1 (quiet (on_br _ _)) => apply quiet_br; reflexivity : quiet.
#[export] Hint Extern 1 (quiet (on_round _)) => apply quiet_round; done : quiet.

(** Binds and cases down to quiet parts. *)
Ltac quiet_steps :=
  repeat first
    [ progress intros
    | solve [eauto 2 with quiet]
    | apply quiet_ignore
    | apply quiet_try
    | apply quiet_bind
    | apply quiet_for_each
    | case_match ].

Section Quiet.
Context {CH X T A E : Type} `{OC : !ObserverChain CH X T} `{MH : MessageHash} `{RC : Recover}.
Context `{SC : !StoreCodec A E T} `{TK : TokenCodec}.
Context (me : PublicHash) (key_Sign : Hash256 → res Signature) (env : Env).
Abbreviation quietly m := (quiet (CH:=CH) (X:=X) (T:=T) m).

Lemma quiet_the_chain : quietly the_chain. Proof. apply quiet_gets. Qed.
Lemma quiet_the_round : quietly the_round. Proof. apply quiet_gets. Qed.
Lemma quiet_rank_table : quietly rank_table. Proof. apply quiet_gets. Qed.
Lemma quiet_observerKeyMap : quietly observerKeyMap. Proof. apply quiet_gets. Qed.
Hint Resolve quiet_the_chain quiet_the_round quiet_rank_table quiet_observerKeyMap : quiet.

Lemma quiet_adjust : quietly (adjustFormulatorMap env).
Proof. unfold adjustFormulatorMap. quiet_steps. Qed.
Hint Resolve quiet_adjust : quiet.

Lemma quiet_sendMessage to m : quietly (sendMessage to m).
Proof. unfold sendMessage. quiet_steps. Qed.
Lemma quiet_SendTo to m : said m = [] → quietly (ms_SendTo env to m).
Proof. intros Hm. unfold ms_SendTo. case_match; [by apply quiet_emit|apply quiet_fail]. Qed.
Hint Resolve quiet_sendMessage : quiet.
Hint Extern 1 (quiet (ms_SendTo _ _ _)) => apply quiet_SendTo; reflexivity : quiet.

Lemma quiet_sendRoundVote : quietly (sendRoundVote me key_Sign env).
Proof. unfold sendRoundVote. quiet_steps. Qed.
Lemma quiet_sendRoundVoteTo to : quietly (sendRoundVoteTo me key_Sign env to).
Proof. unfold sendRoundVoteTo. quiet_steps. Qed.
Lemma quiet_sendRoundVoteAck : quietly (sendRoundVoteAck me key_Sign env).
Proof. unfold sendRoundVoteAck. quiet_steps. Qed.
Lemma quiet_sendRoundVoteAckTo to : quietly (sendRoundVoteAckTo me key_Sign env to).
Proof. unfold sendRoundVoteAckTo. quiet_steps. Qed.
Lemma quiet_sendBlockGenTo g to : quietly (sendBlockGenTo me env g to).
Proof. unfold sendBlockGenTo. quiet_steps. Qed.
Lemma quiet_sendBlockGenRequest h : quietly (sendBlockGenRequest key_Sign env h).
Proof. unfold sendBlockGenRequest. quiet_steps. Qed.
Lemma quiet_broadcastStatus : quietly broadcastStatus.
Proof.
  unfold broadcastStatus, status_message. intros c ob Hob. unfold mbind, M_bind, the_chain, gets, lift.
  destruct (oc_LastStatus (ob_chain ob)) as [[height last]|e|]; [|done..].
  by apply (quiet_emit (OBroadcast (MStatus (mkStatus (oc_Version (ob_chain ob)) height last))) eq_refl c).
Qed.
Lemma quiet_sendStatusTo to : quietly (sendStatusTo me env to).
Proof.
  unfold sendStatusTo, status_message. case_match; [apply quiet_ret|].
  intros c ob Hob. unfold mbind, M_bind, the_chain, gets, lift.
  destruct (oc_LastStatus (ob_chain ob)) as [[height last]|e|]; [|done..].
  by apply (quiet_ignore _ (quiet_SendTo to (MStatus (mkStatus (oc_Version (ob_chain ob)) height last)) eq_refl) c).
Qed.
Lemma quiet_timer_Add h v : quietly (timer_Add env h v).
Proof. unfold timer_Add. quiet_steps. Qed.
Hint Resolve quiet_timer_Add quiet_sendStatusTo quiet_broadcastStatus : quiet.
Lemma quiet_sendRequestBlockTo to h n : quietly (sendRequestBlockTo me env to h n).
Proof. unfold sendRequestBlockTo. quiet_steps. Qed.
Hint Resolve quiet_sendRequestBlockTo : quiet.

Lemma quiet_check_signer h sig sender : quietly (check_signer h sig sender).
Proof. unfold check_signer. quiet_steps. Qed.
Lemma quiet_check_turn cid last n f p : quietly (check_turn cid last n f p).
Proof. unfold check_turn. quiet_steps. Qed.
Lemma quiet_check_height h reply sender : quietly (check_height me env h reply sender).
Proof. unfold check_height. quiet_steps. Qed.
Lemma quiet_push_all {V} (f : V → obmsg T) l : quietly (push_all f l).
Proof. unfold push_all. quiet_steps. Qed.
Lemma quiet_next_top m : quietly (next_top m).
Proof. unfold next_top. quiet_steps. Qed.
Hint Resolve quiet_next_top : quiet.
Lemma quiet_relay_gen raw : quietly (relay_gen me env raw).
Proof. unfold relay_gen. quiet_steps. Qed.
Lemma quiet_check_gen msg wait : quietly (check_gen msg wait).
Proof. unfold check_gen. quiet_steps. Qed.
Lemma quiet_check_BlockVote sender v gen : quietly (check_BlockVote sender v gen).
Proof. unfold check_BlockVote. quiet_steps. Qed.
Lemma quiet_pace h : quietly (pace env h).
Proof. unfold pace. quiet_steps. Qed.
Lemma quiet_tell_formulators ack v b sigs : quietly (tell_formulators me env ack v b sigs).
Proof. unfold tell_formulators. quiet_steps. Qed.
Lemma quiet_handle_Request sender m : quietly (handle_Request env sender m).
Proof. unfold handle_Request. quiet_steps. Qed.
Lemma quiet_request_ten sender h b : quietly (request_ten me env sender h b).
Proof. unfold request_ten. quiet_steps. Qed.
Hint Resolve quiet_request_ten : quiet.
Lemma quiet_request_loop sender H h qs : quietly (request_loop me env sender H h qs).
Proof. induction qs as [|q qs IH]; cbn [request_loop]; quiet_steps. Qed.
Hint Resolve quiet_request_loop : quiet.
Lemma quiet_handle_Status sender m : quietly (handle_Status me env sender m).
Proof. unfold handle_Status. quiet_steps. Qed.
Lemma quiet_formulator_request p m : quietly (handle_FormulatorRequest env p m).
Proof. unfold handle_FormulatorRequest. quiet_steps. Qed.
Lemma quiet_formulator_status p m : quietly (handle_FormulatorStatus p m).
Proof. unfold handle_FormulatorStatus. quiet_steps. Qed.
Hint Resolve quiet_formulator_request quiet_formulator_status : quiet.
Lemma quiet_recv_step p m : quietly (recv_step env p m).
Proof. unfold recv_step, handleFormulatorMessage. quiet_steps. Qed.
Lemma quiet_OnTimerExpired h v : quietly (OnTimerExpired me env h v).
Proof. unfold OnTimerExpired. quiet_steps. Qed.
End Quiet.

#[export] Hint Resolve quiet_the_chain quiet_the_round quiet_rank_table quiet_observerKeyMap quiet_adjust quiet_sendMessage
  quiet_sendRoundVote quiet_sendRoundVoteTo quiet_sendRoundVoteAck quiet_sendRoundVoteAckTo quiet_sendBlockGenTo
  quiet_sendBlockGenRequest quiet_broadcastStatus quiet_sendStatusTo quiet_sendRequestBlockTo quiet_check_signer
  quiet_check_turn quiet_check_height quiet_push_all quiet_next_top quiet_relay_gen quiet_check_gen
  quiet_check_BlockVote quiet_pace quiet_tell_formulators quiet_handle_Request quiet_handle_Status
  quiet_formulator_request quiet_formulator_status quiet_recv_step quiet_OnTimerExpired : quiet.
