(* ===== verification/ObserverRefines.v ===== *)
(** * The observer node refines the protocol

    Every event of the node is a sequence of steps of the protocol; so the
    invariant holds in every run, and a node sends votes for one block per
    height. *)

From S2P Require Import Prelude Tokens Common Context Block Store Chain Search SortedQueue Rank Pof RequestTimer Observer ObserverHandle ObserverSpec ObserverQuiet.

Section Triples.
Context {CH X T : Type} `{OC : !ObserverChain CH X T}.
Abbreviation node := (ObserverNode CH X T).
Abbreviation obM := (M (ObserverNode CH X T)).
Implicit Types (P : core CH X T → Prop).

(** An assertion about the protocol state of the node. *)
Definition on P (ob : node) : Prop := P (core_of ob).

(** ** Sequences *)

Lemma tr_quiet_bind {V W} P (m : obM V) (f : V → obM W) R :
  quiet m → (∀ a, tr (on P) (f a) R) → tr (on P) (m ≫= f) R.
Proof. intros Hm. apply tr_bind. by apply tr_quiet. Qed.

Lemma tr_bind_quiet {V W} (P : node → Prop) (m : obM V) (f : V → obM W) :
  tr P m (λ _ _, True) → (∀ a, quiet (f a)) → tr P (m ≫= f) (λ _ _, True).
Proof.
  intros Hm Hf. eapply tr_bind; [exact Hm|]. intros a. eapply tr_conseq; [apply (tr_quiet (λ _, True)), Hf|done|done].
Qed.

Lemma tr_any {V} (P : node → Prop) (m : obM V) : quiet m → tr P m (λ _ _, True).
Proof. intros Hm. eapply tr_conseq; [by apply (tr_quiet (λ _, True))|done|done]. Qed.

Lemma tr_lift_bind {V W} P (r : res V) (f : V → obM W) R :
  (∀ a, r = Ok a → tr (on P) (f a) R) → tr (on P) (lift r ≫= f) R.
Proof. intros Hf ob HP. unfold mbind, M_bind, lift. destruct r as [a|e|]; [|done..]. by apply Hf. Qed.

Lemma tr_guard_bind {W} P b e (f : unit → obM W) R :
  (b = false → tr (on P) (f tt) R) → tr (on P) (guard_err b e ≫= f) R.
Proof. intros Hf ob HP. unfold mbind, M_bind, guard_err. destruct b; [done|]. by apply Hf. Qed.

(** What the round says about the protocol. *)
Definition sees (r : VoteRound T X) (c : core CH X T) : Prop :=
  vr_RoundState r = c_state c ∧ vr_TargetHeight r = c_target c ∧ vr_MinRoundVoteAck r = c_ack c ∧
  gen_of <$> vr_BlockRoundMap r = c_gens c.

Lemma tr_round {W} P (f : VoteRound T X → obM W) R :
  (∀ r, tr (on (λ c, P c ∧ sees r c)) (f r) R) → tr (on P) (the_round ≫= f) R.
Proof. intros Hf ob HP. unfold mbind, M_bind, the_round, gets. by apply (Hf (ob_round ob)). Qed.

Lemma tr_chain {W} P (f : CH → obM W) R :
  (∀ ch, tr (on (λ c, P c ∧ c_chain c = ch)) (f ch) R) → tr (on P) (the_chain ≫= f) R.
Proof. intros Hf ob HP. unfold mbind, M_bind, the_chain, gets. by apply (Hf (ob_chain ob)). Qed.

Lemma tr_modify (P : node → Prop) (f : node → node) (Q : unit → node → Prop) :
  (∀ ob, P ob → pstep (core_of ob) (core_of (f ob)) ∧ Q tt (f ob)) → tr P (modify f) Q.
Proof. intros Hf ob HP. destruct (Hf ob HP). split; [by apply rtc_once|done]. Qed.

(** Two writes that make one step. *)
Lemma tr_modify2 {W} (P : node → Prop) (f g : node → node) (Q : node → Prop) (k : unit → obM W) R :
  (∀ ob, P ob → pstep (core_of ob) (core_of (g (f ob))) ∧ Q (g (f ob))) → tr Q (k tt) R →
  tr P (modify f ;; (modify g ≫= k)) R.
Proof.
  intros Hf Hk. apply (tr_bind _ (modify (λ ob, g (f ob))) (λ _, Q)); [by apply tr_modify|by intros []].
Qed.

Lemma tr_imp {V} P P' (m : obM V) R : tr (on P) m R → (∀ c, P' c → P c) → tr (on P') m R.
Proof. intros Hm Hi. eapply tr_conseq; [exact Hm|intros ob; apply Hi|done]. Qed.

(** ** Votes *)

Definition add_votes (vs : list BlockVote) (c : core CH X T) : core CH X T :=
  mkCore (c_queue c) (c_chain c) (c_state c) (c_target c) (c_ack c) (c_gens c) (c_votes c ++ vs).

(** The computation does nothing but vote for [g]. *)
Definition says {V} (g : BlockGenMessage T) (m : obM V) : Prop :=
  ∀ ob, ∃ vs, Forall (vote_for g) vs ∧ core_of (m ob).2 = add_votes vs (core_of ob).

Lemma says_quiet {V} g (m : obM V) : quiet m → says g m.
Proof.
  intros Hm ob. exists []. split; [constructor|]. rewrite (Hm (core_of ob) ob eq_refl).
  unfold add_votes. rewrite app_nil_r. by destruct (core_of ob).
Qed.

Lemma says_bind {V W} g (m : obM V) (f : V → obM W) : says g m → (∀ a, says g (f a)) → says g (m ≫= f).
Proof.
  intros Hm Hf ob. destruct (Hm ob) as (vs & Hvs & E1). unfold mbind, M_bind.
  destruct (m ob) as [[a|e|] ob1]; cbn in *; [|by exists vs..].
  destruct (Hf a ob1) as (ws & Hws & E2). exists (vs ++ ws). split; [by apply Forall_app|].
  rewrite E2, E1. unfold add_votes. cbn. by rewrite (assoc_L (++)).
Qed.

Lemma says_ignore {V} g (m : obM V) : says g m → says g (ignore m).
Proof.
  intros Hm ob. destruct (Hm ob) as (vs & Hvs & E1). exists vs. split; [done|]. unfold ignore, try, mbind, M_bind.
  by destruct (m ob) as [[a|e|] ob1].
Qed.

Lemma says_emit g o : Forall (vote_for g) (vote_of o) → says g (emit o : obM unit).
Proof.
  intros Ho ob. exists (vote_of o). split; [done|]. unfold core_of, add_votes. cbn [emit modify snd upd_out ob_round ob_chain ob_out ob_blockQ c_votes].
  by rewrite votes_snoc.
Qed.

Lemma says_steps g vs c : current g c → Forall (vote_for g) vs → rtc pstep c (add_votes vs c).
Proof.
  intros Hc Hvs. revert c Hc. induction Hvs as [|v vs Hv _ IH]; intros c Hc.
  - unfold add_votes. rewrite app_nil_r. by destruct c.
  - eapply rtc_l; [by apply (p_vote c g v)|].
    replace (add_votes (v :: vs) c) with
      (add_votes vs (mkCore (c_queue c) (c_chain c) (c_state c) (c_target c) (c_ack c) (c_gens c) (c_votes c ++ [v])))
      by (unfold add_votes; cbn; by rewrite <- (assoc_L (++))).
    by apply IH.
Qed.

Lemma tr_says {V} g P (m : obM V) :
  says g m → (∀ c, P c → current g c) → (∀ vs c, P c → P (add_votes vs c)) → tr (on P) m (λ _, on P).
Proof.
  intros Hm Hc Hs ob HP. destruct (Hm ob) as (vs & Hvs & Eq).
  split; [rewrite Eq; apply (says_steps g); auto|].
  destruct (m ob) as [[a|e|] ob1]; cbn [fst snd] in *; [|done..]. unfold on. rewrite Eq. by apply Hs.
Qed.
End Triples.

(** The case at the head of a computation. *)
Ltac tr_case :=
  match goal with |- tr _ ?m _ =>
    let m := eval cbv beta in m in
    match m with match ?x with _ => _ end => destruct x eqn:? end
  end.

Section Handlers.
Context {CH X T A E : Type} `{OC : !ObserverChain CH X T} `{OL : !ObserverChainLaws CH X T} `{MH : MessageHash} `{RC : Recover}.
Context `{SC : !StoreCodec A E T} `{TK : TokenCodec}.
Context (me : PublicHash) (key_Sign : Hash256 → res Signature) (env : Env).
Abbreviation node := (ObserverNode CH X T).
Implicit Types (P : core CH X T → Prop) (c : core CH X T).

(** ** Voting *)

Lemma says_sendBlockVote g : says (CH:=CH) (X:=X) g (sendBlockVote me key_Sign g).
Proof.
  unfold sendBlockVote, block_vote. intros ob. unfold mbind, M_bind, lift, mret, M_ret.
  destruct (key_Sign _) as [s1|e|]; [|by apply (says_quiet g (fail e)), quiet_fail|by apply (says_quiet g panic), quiet_panic].
  destruct (key_Sign _) as [s2|e|]; [|by apply (says_quiet g (fail e)), quiet_fail|by apply (says_quiet g panic), quiet_panic].
  apply (says_bind g (push _)); [apply says_quiet; eauto with quiet|intros _]. apply says_emit. by repeat constructor.
Qed.

Lemma says_sendBlockVoteTo g to : says (CH:=CH) (X:=X) g (sendBlockVoteTo me key_Sign env g to).
Proof.
  unfold sendBlockVoteTo. case_match; [apply says_quiet; eauto with quiet|]. unfold block_vote. intros ob.
  unfold mbind, M_bind, lift, mret, M_ret.
  destruct (key_Sign _) as [s1|e|]; [|by apply (says_quiet g (fail e)), quiet_fail|by apply (says_quiet g panic), quiet_panic].
  destruct (key_Sign _) as [s2|e|]; [|by apply (says_quiet g (fail e)), quiet_fail|by apply (says_quiet g panic), quiet_panic].
  apply (says_ignore g (ms_SendTo env to _)). unfold ms_SendTo.
  case_match; [apply says_emit; by repeat constructor|apply says_quiet; eauto with quiet].
Qed.

(** Cases of a lookup in the rounds. *)
Lemma sees_lookup (r : VoteRound T X) c h br :
  sees r c → vr_BlockRoundMap r !! h = Some br → c_gens c !! h = Some (br_BlockGenMessage br, br_Context br).
Proof. intros (_ & _ & _ & <-) Hl. by rewrite lookup_fmap, Hl. Qed.

Lemma sees_current (r : VoteRound T X) c h br g :
  sees r c → vr_BlockRoundMap r !! h = Some br → br_BlockGenMessage br = Some g → c_target c = h →
  vr_RoundState r = BlockVoteState → current g c.
Proof.
  intros Hs Hl Hg <- Hst. split; [by rewrite <- (proj1 Hs)|]. exists (br_Context br).
  rewrite (sees_lookup r c _ br Hs Hl). by rewrite Hg.
Qed.

Lemma of_option_Ok {V} (o : option V) a : of_option o = Ok a → o = Some a.
Proof. destruct o; by intros [= ->]. Qed.

Lemma tr_round_vote h to : tr (on (λ c, c_target c = h)) (sendRoundBlockVoteTo me key_Sign env h to) (λ _ _, True).
Proof.
  unfold sendRoundBlockVoteTo. apply tr_round. intros r. destruct (Z.eqb_spec (vr_RoundState r) BlockVoteState) as [Hst|]; [|apply tr_any; eauto with quiet].
  destruct (vr_BlockRoundMap r !! h) as [br|] eqn:Hl; [|apply tr_any; eauto with quiet].
  apply tr_lift_bind. intros g Hg%of_option_Ok.
  eapply tr_conseq; [apply (tr_says g (current g)); [apply says_ignore, says_sendBlockVoteTo|done|done]| |done].
  intros ob [Ht Hs]. by eapply sees_current.
Qed.

Lemma tr_check_height P h reply sender :
  tr (on P) (check_height me env h reply sender) (λ _, on (λ c, P c ∧ c_target c = h)).
Proof.
  unfold check_height. apply tr_round. intros r. destruct (Z.eqb_spec h (vr_TargetHeight r)) as [->|]; cbn [negb].
  - intros ob [HP (_ & Ht & _)]. by split.
  - apply tr_quiet_bind; [quiet_steps|intros a; apply tr_fail].
Qed.

(** ** Round votes and acks *)

Lemma tr_set_state P x Q :
  (∀ c, P c → pstep c (mkCore (c_queue c) (c_chain c) x (c_target c) (c_ack c) (c_gens c) (c_votes c)) ∧
              Q (mkCore (c_queue c) (c_chain c) x (c_target c) (c_ack c) (c_gens c) (c_votes c))) →
  tr (on P) (on_round (set_RoundState x)) (λ _, on Q).
Proof. intros HP. apply tr_modify. intros ob H. by apply (HP (core_of ob)). Qed.

Lemma tr_handle_RoundVote sender msg :
  tr (λ _, True) (handle_RoundVote me key_Sign env sender msg) (λ _ _, True).
Proof.
  unfold handle_RoundVote. apply (tr_quiet_bind (λ _, True)); [eauto with quiet|intros ?].
  eapply tr_bind; [apply (tr_check_height (λ _, True))|intros ?].
  apply (tr_quiet_bind (λ c, True ∧ c_target c = _)); [eauto with quiet|intros ?]. apply tr_round. intros r.
  destruct (Z.eqb_spec (vr_RoundState r) RoundVoteState) as [Hst|]; cbn [negb].
  - tr_case; [apply tr_any; quiet_steps|].
    apply tr_quiet_bind; [eauto with quiet|intros ?]. apply tr_quiet_bind; [quiet_steps|intros ?].
    apply tr_quiet_bind; [eauto with quiet|intros r']. apply tr_quiet_bind; [eauto with quiet|intros keys].
    tr_case; [|apply tr_any; quiet_steps]. eapply (tr_bind _ _ (λ _, on (λ _, True))); [|intros ?; apply tr_any; quiet_steps].
    apply tr_set_state. intros c [_ (Hs & _)]. split; [|done]. apply p_acks. by rewrite <- Hs.
  - apply tr_bind_quiet; [|quiet_steps]. tr_case; [|apply tr_any; quiet_steps].
    apply tr_bind_quiet; [|quiet_steps]. eapply tr_conseq; [apply tr_round_vote| |done]. by intros ob [[_ ?] _].
Qed.

Lemma trim_rounds_gens bound f (m : gmap Z (BlockRound T X)) : gen_of <$> trim_rounds bound f m ⊆ gen_of <$> m.
Proof.
  unfold trim_rounds. rewrite <- map_fmap_compose. apply map_subseteq_spec. intros h a.
  rewrite !lookup_fmap, fmap_Some. intros (br & Hl & ->). apply map_lookup_filter_Some in Hl as [Hl _]. rewrite Hl. cbn.
  repeat case_match; by destruct br.
Qed.

Lemma tr_start_block_wait ack :
  tr (on (λ c, c_state c = RoundVoteAckState)) (start_block_wait me ack) (λ _ _, True).
Proof.
  unfold start_block_wait. eapply tr_bind.
  { apply (tr_modify _ _ (λ _, on (λ c, c_state c = BlockWaitState))). intros ob Hob. split; [|done]. by apply (p_wait (core_of ob) ack). }
  intros ?. apply tr_chain. intros ch. eapply (tr_bind _ _ (λ _ _, True)); [|intros ?; apply tr_any; quiet_steps].
  apply tr_modify. intros ob [Hob _]. split; [|done]. apply (p_trim (core_of ob) _ Hob (trim_rounds_gens _ _ _)).
Qed.

Lemma tr_handle_RoundVoteAck sender msg :
  tr (λ _, True) (handle_RoundVoteAck me key_Sign env sender msg) (λ _ _, True).
Proof.
  unfold handle_RoundVoteAck. apply (tr_quiet_bind (λ _, True)); [eauto with quiet|intros ?].
  eapply tr_bind; [apply (tr_check_height (λ _, True))|intros ?].
  apply (tr_quiet_bind (λ c, True ∧ c_target c = _)); [eauto with quiet|intros ?]. apply tr_round. intros r.
  destruct (Z.eqb_spec (vr_RoundState r) RoundVoteAckState) as [Hst|]; cbn [negb].
  - tr_case; [apply tr_any; quiet_steps|].
    apply tr_quiet_bind; [eauto with quiet|intros ?]. apply tr_quiet_bind; [quiet_steps|intros ?].
    apply tr_quiet_bind; [eauto with quiet|intros r']. apply tr_quiet_bind; [eauto with quiet|intros keys].
    tr_case; [|apply tr_any; quiet_steps]. tr_case; [|apply tr_any; quiet_steps].
    eapply tr_conseq; [apply tr_start_block_wait| |done]. intros ob [_ (Hs & _)]. unfold on. by rewrite <- Hs.
  - apply tr_bind_quiet; [|quiet_steps]. tr_case; [apply tr_any; quiet_steps|]. tr_case; [|apply tr_any; quiet_steps].
    apply tr_bind_quiet; [|quiet_steps]. eapply tr_conseq; [apply tr_round_vote| |done]. by intros ob [[_ ?] _].
Qed.

(** ** The block of the generator *)

(** What the checks of a generated block leave. *)
Lemma tr_check_gen P msg wait :
  tr (on P) (check_gen msg wait) (λ _, on (λ c, P c ∧ oc_ValidateHeader (gen_header msg) (c_chain c) = Ok tt ∧
    ∃ ack, c_ack c = Some ack ∧ Generator (gen_header msg) = ra_Formulator ack)).
Proof.
  unfold check_gen. apply tr_lift_bind. intros n _. apply tr_quiet_bind; [eauto with quiet|intros rt].
  apply tr_lift_bind. intros Top _. apply tr_guard_bind. intros _. apply tr_round. intros r.
  apply tr_lift_bind. intros ack Hack%of_option_Ok. apply tr_guard_bind. intros Hg%negb_false_iff%bool_decide_eq_true.
  apply tr_guard_bind. intros _. apply tr_quiet_bind; [quiet_steps|intros ?]. apply tr_chain. intros ch ob [[HP Hs] Hch].
  cbn [lift fst snd]. split; [done|]. destruct (oc_ValidateHeader _ ch) as [[]|e|] eqn:Hv; [|done..].
  split; [done|]. unfold on in Hch. rewrite Hch. split; [done|]. exists ack. split; [|done].
  destruct Hs as (_ & _ & Ha & _). by rewrite <- Ha.
Qed.

Lemma gen_of_set h (m : gmap Z (BlockRound T X)) br f g :
  m !! h = Some br → gen_of (f br) = g → gen_of <$> alter f h m = <[h := g]> (gen_of <$> m).
Proof.
  intros Hl <-. apply map_eq. intros i. rewrite lookup_fmap. destruct (decide (i = h)) as [->|].
  - by rewrite lookup_alter_eq, lookup_insert_eq, Hl.
  - by rewrite lookup_alter_ne, lookup_insert_ne, lookup_fmap.
Qed.

Lemma tr_handle_BlockGen msg raw : tr (λ _, True) (handle_BlockGen me key_Sign env msg raw) (λ _ _, True).
Proof.
  unfold handle_BlockGen. apply (tr_round (λ _, True)). intros r.
  destruct (vr_BlockRoundMap r !! HHeight (BHeader (bg_Block msg))) as [br|] eqn:Hl; [|apply tr_fail].
  apply tr_guard_bind. intros Hbg. destruct (br_BlockGenMessage br) as [|] eqn:Hno; [done|].
  apply tr_quiet_bind; [eauto with quiet|intros ?].
  destruct (Z.eqb_spec (HHeight (BHeader (bg_Block msg))) (vr_TargetHeight r)) as [Ht|]; cbn [negb]; [|apply tr_any; quiet_steps].
  destruct (Z.eqb_spec (vr_RoundState r) BlockWaitState) as [Hst|]; cbn [negb]; [|apply tr_any; quiet_steps].
  eapply tr_bind; [apply tr_check_gen|intros ?].
  apply tr_quiet_bind; [eauto with quiet|intros t]. apply tr_guard_bind. intros _.
  apply tr_quiet_bind; [eauto with quiet|intros ch]. apply tr_lift_bind. intros [ctx h] _. apply tr_guard_bind. intros _.
  apply (tr_modify2 _ _ _ (on (current msg))).
  - intros ob [[_ Hs] (Hv & ack & Hack & Hgen)]. pose proof Hs as (S1 & S2 & S3 & S4).
    assert (Hl' : c_gens (core_of ob) !! HHeight (BHeader (bg_Block msg)) = Some (None, br_Context br))
      by (rewrite (sees_lookup r _ _ br Hs Hl); by rewrite Hno).
    assert (∃ br', vr_BlockRoundMap (ob_round ob) !! HHeight (BHeader (bg_Block msg)) = Some br') as [br' Hbr'].
    { cbn in Hl'. rewrite lookup_fmap in Hl'. destruct (vr_BlockRoundMap (ob_round ob) !! _); [by eexists|done]. }
    assert (Hc : core_of (upd_round (λ r, set_BlockRounds (alter (set_br_gen msg ctx) (HHeight (BHeader (bg_Block msg)))
                   (vr_BlockRoundMap r)) r) (upd_round (set_RoundState BlockVoteState) ob)) =
      mkCore (c_queue (core_of ob)) (c_chain (core_of ob)) BlockVoteState (c_target (core_of ob)) (c_ack (core_of ob))
        (<[c_target (core_of ob) := (Some msg, Some ctx)]> (c_gens (core_of ob))) (c_votes (core_of ob))).
    { unfold core_of. cbn [upd_round ob_round ob_chain ob_out ob_blockQ set_BlockRounds set_RoundState vr_BlockRoundMap vr_RoundState
        vr_TargetHeight vr_MinRoundVoteAck c_chain c_target c_ack c_gens c_votes]. f_equal.
      rewrite (gen_of_set _ _ br' _ (Some msg, Some ctx)); [|done..]. by rewrite Ht, S2. }
    rewrite S2 in Ht. unfold on. rewrite Hc. split; [|split; [done|]; exists (Some ctx); cbn [c_gens c_target]; by rewrite lookup_insert_eq].
    apply (p_gen (core_of ob) ack msg ctx (br_Context br)); [by rewrite <- S1|done|by rewrite <- Ht|done..].
  - apply tr_bind_quiet; [|intros ?; eauto with quiet].
    eapply tr_conseq; [apply (tr_says msg (current msg)); [apply says_ignore, says_sendBlockVote|done|done]|done|done].
Qed.

Lemma tr_handle_BlockGenRequest sender msg :
  tr (λ _, True) (handle_BlockGenRequest me key_Sign env sender msg) (λ _ _, True).
Proof.
  unfold handle_BlockGenRequest. apply (tr_quiet_bind (λ _, True)); [eauto with quiet|intros ?].
  apply tr_round. intros r. destruct (vr_BlockRoundMap r !! gr_TargetHeight (grm_BlockGenRequest msg)) as [br|] eqn:Hl; [|apply tr_fail].
  eapply tr_bind; [apply tr_check_height|intros ?].
  apply tr_quiet_bind; [eauto with quiet|intros ?].
  destruct (Z.eqb_spec (vr_RoundState r) BlockVoteState) as [Hst|]; [|apply tr_any; quiet_steps].
  apply tr_lift_bind. intros g Hg%of_option_Ok. apply tr_quiet_bind; [quiet_steps|intros ?].
  eapply tr_conseq; [apply (tr_says g (current g)); [apply says_ignore, says_sendBlockVoteTo|done|done]| |done].
  intros ob [[_ Hs] Ht]. by eapply sees_current.
Qed.

(** ** Rounds *)

Lemma fresh_round_core (ob : node) n Max :
  core_of (upd_round (λ _, NewVoteRound (u32 (n + 1)) Max) ob) = fresh_round n Max (core_of ob).
Proof.
  unfold core_of, fresh_round. cbn [upd_round ob_round ob_chain ob_out ob_blockQ NewVoteRound vr_BlockRoundMap vr_RoundState
    vr_TargetHeight vr_MinRoundVoteAck c_chain c_votes]. f_equal.
  rewrite <- list_to_map_fmap, <- list_fmap_compose. done.
Qed.

Lemma tr_reset P n reset Q :
  (∀ c, P c → oc_Height (c_chain c) = Ok n ∧ ∀ Max, pstep c (fresh_round n Max c) ∧ Q (fresh_round n Max c)) →
  tr (on P) (resetVoteRound reset) (λ _, on Q).
Proof.
  intros HP. unfold resetVoteRound. apply tr_chain. intros ch. apply tr_lift_bind. intros m Hm.
  eapply (tr_bind _ _ (λ _, on Q)); [|intros ?; destruct reset; [apply tr_quiet; eauto with quiet|apply tr_quiet; eauto with quiet]].
  apply tr_modify. intros ob [Hob Hch]. destruct (HP _ Hob) as [Hn Hst]. rewrite Hch, Hm in Hn. injection Hn as ->.
  unfold on. rewrite fresh_round_core. apply Hst.
Qed.

(** The block of the round is the last one of the chain. *)
Definition connected (g : BlockGenMessage T) c : Prop :=
  current g c ∧ oc_Height (c_chain c) = Ok (HHeight (gen_header g)) ∧ c_target c + 1 < 2 ^ 32.

Lemma tr_next_round g ack : tr (on (connected g)) (next_round key_Sign env ack) (λ _ _, True).
Proof.
  assert (Hreset : tr (on (connected g)) (resetVoteRound false) (λ _ _, True)).
  { eapply tr_conseq; [apply (tr_reset (connected g) (HHeight (gen_header g)) _ (λ _, True))|done|done].
    intros c (Hc & Hn & Hb). split; [done|]. intros Max. split; [by apply p_done|done]. }
  unfold next_round. apply tr_round. intros r. apply tr_quiet_bind; [eauto with quiet|intros rt].
  apply tr_lift_bind. intros Top _.
  destruct (vr_BlockRoundMap r !! _) as [brNext|]; [case_bool_decide|]; try by (eapply tr_imp; [exact Hreset|intros c []]).
  apply tr_bind_quiet; [|quiet_steps]. apply tr_modify. intros ob [(Hc & Hn & Hb) _]. split; [|done].
  by apply (p_next (core_of ob) g).
Qed.

(** The block can be connected now. *)
Definition ready_block (g : BlockGenMessage T) (h : Z) c : Prop :=
  current g c ∧ c_target c = h ∧ ∃ n, oc_Height (c_chain c) = Ok n ∧ h = u32 (n + 1) ∧ 0 ≤ n ∧ n + 2 < 2 ^ 32.

Lemma tr_connect_round g h sigs :
  tr (on (ready_block g h)) (connect_round h (signed_block g sigs)) (λ _, on (connected g)).
Proof using OL.
  intros ob ((Hst & y & Hl) & Ht & n & Hn & Hh & Hn0 & Hb). unfold connect_round.
  destruct (vr_BlockRoundMap (ob_round ob) !! h) as [br|] eqn:Hbr; [|done]. cbn [mbind option_bind].
  destruct (br_Context br) as [x|] eqn:Hx; [|done].
  assert (Hg : c_gens (core_of ob) !! h = Some (Some g, Some x)).
  { rewrite Ht in Hl. rewrite Hl. cbn in Hl. rewrite lookup_fmap, Hbr in Hl. cbn in Hl. injection Hl as Hg <-. by rewrite Hx. }
  pose proof (context_height (signed_block g sigs) (ob_chain ob) x) as Hlaw.
  pose proof (p_connect (core_of ob) g sigs n x Hst) as Hp. rewrite Ht in Hp. specialize (Hp Hg Hn Hh).
  change (c_chain (core_of ob)) with (ob_chain ob) in Hp.
  destruct (oc_ConnectBlockWithContext _ (ob_chain ob, x)) as [r [ch x2]]. cbn [fst snd] in *.
  assert (Hc : core_of (upd_round (λ r, set_BlockRounds (alter (set_br_context (Some x2)) h (vr_BlockRoundMap r)) r) (upd_chain ch ob)) =
    mkCore (c_queue (core_of ob)) ch (c_state (core_of ob)) h (c_ack (core_of ob)) (<[h := (Some g, Some x2)]> (c_gens (core_of ob))) (c_votes (core_of ob))).
  { unfold core_of at 1. cbn [upd_chain upd_round ob_round ob_chain ob_out ob_blockQ set_BlockRounds vr_BlockRoundMap vr_RoundState
      vr_TargetHeight vr_MinRoundVoteAck]. f_equal; [by rewrite <- Ht|].
    apply (gen_of_set h _ br); [done|]. cbn in Hg. rewrite lookup_fmap, Hbr in Hg. injection Hg as Hg _.
    unfold gen_of. cbn. by rewrite Hg. }
  rewrite Hc. split; [by apply rtc_once|]. destruct r as [u|e|]; [|done..]. unfold on. rewrite Hc.
  split_and!; cbn [c_chain c_target c_state c_gens].
  - split; [done|]. exists (Some x2). cbn. by rewrite lookup_insert_eq.
  - exact Hlaw.
  - rewrite Hh, u32_next by lia. lia.
Qed.

Lemma tr_finish_block g h v votes :
  tr (on (ready_block g h)) (finish_block me key_Sign env h g v votes) (λ _ _, True).
Proof using OL.
  unfold finish_block. apply tr_quiet_bind; [eauto with quiet|intros ?].
  eapply tr_bind; [apply tr_connect_round|intros ?]. apply tr_quiet_bind; [eauto with quiet|intros ?].
  apply tr_quiet_bind; [eauto with quiet|intros r]. apply tr_lift_bind. intros ack _.
  apply tr_quiet_bind; [eauto with quiet|intros ?]. apply tr_quiet_bind; [eauto with quiet|intros ?].
  apply tr_next_round.
Qed.

(** ** Block votes *)

(** The chain is not at its last height. *)
Definition roomy c : Prop := ∃ n, oc_Height (c_chain c) = Ok n ∧ 0 ≤ n ∧ n + 2 < 2 ^ 32.

Lemma tr_check_BlockVote P sender v gen :
  tr (on P) (check_BlockVote sender v gen) (λ _, on (λ c, P c ∧ oc_ValidateHeader (bv_Header v) (c_chain c) = Ok tt)).
Proof.
  unfold check_BlockVote. apply tr_lift_bind. intros n _. apply tr_quiet_bind; [eauto with quiet|intros rt].
  apply tr_lift_bind. intros Top _. apply tr_guard_bind. intros _. apply tr_quiet_bind; [quiet_steps|intros ?].
  apply tr_chain. intros ch. apply tr_lift_bind. intros last _. apply tr_guard_bind. intros _.
  apply tr_lift_bind. intros g _. apply tr_guard_bind. intros _. apply tr_lift_bind. intros [] Hv.
  eapply tr_conseq; [apply (tr_quiet (λ c, P c ∧ c_chain c = ch)); quiet_steps|done|].
  intros _ ob [HP Hch]. split; [done|]. by rewrite Hch.
Qed.

Lemma tr_handle_BlockVote sender msg :
  tr (on roomy) (handle_BlockVote me key_Sign env sender msg) (λ _ _, True).
Proof using OL.
  unfold handle_BlockVote. apply tr_quiet_bind; [eauto with quiet|intros ?]. apply tr_round. intros r.
  set (v := bvm_BlockVote msg). set (h := HHeight (bv_Header v)).
  destruct (vr_BlockRoundMap r !! h) as [br|] eqn:Hl; [|apply tr_fail].
  destruct (Z.eqb_spec h (vr_TargetHeight r)) as [Ht|]; cbn [negb]; [|apply tr_any; quiet_steps].
  destruct (Z.eqb_spec (vr_RoundState r) BlockVoteState) as [Hst|]; cbn [negb]; [|apply tr_any; quiet_steps].
  eapply tr_bind; [apply tr_check_BlockVote|intros ?]. apply tr_lift_bind. intros g Hg%of_option_Ok.
  apply (tr_imp (ready_block g h)).
  - tr_case; [apply tr_bind_quiet; [|quiet_steps]; tr_case; [|apply tr_any; quiet_steps]|].
    + eapply tr_conseq; [apply (tr_says g (ready_block g h)); [apply says_ignore, says_sendBlockVoteTo|by intros c []|done]|done|done].
    + apply tr_quiet_bind; [eauto with quiet|intros ?]. eapply (tr_bind _ _ (λ _, on (ready_block g h))).
      * tr_case; [apply (tr_says g); [apply says_ignore, says_sendBlockVoteTo|by intros c []|done]|apply tr_quiet; eauto with quiet].
      * intros ?. apply tr_quiet_bind; [eauto with quiet|intros keys]. tr_case; [apply tr_finish_block|apply tr_any; quiet_steps].
  - intros c [[(n & Hn & Hn0 & Hb) Hs] Hv]. pose proof Hs as (S1 & S2 & _). rewrite S2 in Ht. split_and!; [|done|].
    + by eapply sees_current.
    + exists n. split_and!; [done| |done..]. by apply (header_next _ (c_chain c)).
Qed.
End Handlers.
