(* ===== verification/ObserverSafety.v ===== *)
(** * Runs of an observer node

    The timers and the whole event loop refine the protocol; every run keeps
    its invariant; a node sends votes for one block per height; and blocks
    with the signatures of a majority of such nodes do not fork. *)

From S2P Require Import Prelude Tokens Common Context Block Store Chain Search SortedQueue Rank Pof PofSpec.
From S2P Require Import RequestTimer Observer ObserverHandle ObserverSpec ObserverQuiet ObserverRefines.

Section Events.
Context {CH X T A E : Type} `{OC : !ObserverChain CH X T} `{OL : !ObserverChainLaws CH X T} `{MH : MessageHash} `{RC : Recover}.
Context `{SC : !StoreCodec A E T} `{TK : TokenCodec}.
Context (me : PublicHash) (key_Sign : Hash256 → res Signature) (env : Env).
Abbreviation node := (ObserverNode CH X T).
Implicit Types (P : core CH X T → Prop) (c : core CH X T) (ob : node).

(** ** The queue of blocks *)

Abbreviation queued := (λ c : core CH X T, queue_ok (c_queue c)).

Lemma tr_addBlock b : tr (λ _, True) (addBlock b) (λ _ _, True).
Proof.
  unfold addBlock. eapply tr_bind; [apply tr_get|]. intros ob0. cbv beta.
  eapply tr_bind; [apply tr_lift|]. intros n. cbv beta.
  destruct (Z.leb_spec (HHeight (BHeader b)) n) as [|Hlt]; [apply tr_any; quiet_steps|].
  destruct (FindOrInsert (Some b) (HHeight (BHeader b)) (ob_blockQ ob0)) as [item q] eqn:Hq.
  apply tr_bind_quiet; [|quiet_steps]. apply tr_modify. intros ob [[_ ->] Hn]. split; [|done].
  pose proof (p_insert (core_of ob0) b n Hn Hlt) as Hp. cbn [c_queue core_of] in Hp. by rewrite Hq in Hp.
Qed.

Lemma tr_handle_Block bs : tr (λ _, True) (handle_Block bs) (λ _ _, True).
Proof.
  unfold handle_Block. induction bs as [|b bs IH]; cbn [for_each]; [by intros ob _|].
  eapply (tr_bind _ _ (λ _ _, True)); [|by intros _]. apply tr_bind_quiet; [|quiet_steps].
  intros ob HP. destruct (tr_addBlock b ob HP) as [H1 _]. unfold try. by destruct (addBlock b ob) as [[a|e|] ob1].
Qed.

(** What comes out of the queue has a height above 0. *)
Definition above_genesis (item : option (Block T)) : Prop := ∀ b, item = Some b → 0 < HHeight (BHeader b).

Lemma tr_pop {W} h ob0 (f : option (Block T) → M node W) R :
  (∀ item, above_genesis item → tr (on queued) (f item) R) →
  tr (λ ob, on queued ob ∧ ob = ob0) (let '(item, q) := PopUntil h (ob_blockQ ob0) in modify (upd_blockQ q) ;; f item) R.
Proof.
  intros Hf. destruct (PopUntil h (ob_blockQ ob0)) as [item q] eqn:Hp.
  apply (tr_bind _ _ (λ _ ob, on queued ob ∧ above_genesis item)).
  - apply tr_modify. intros ob [Hq ->]. split; [|split].
    + pose proof (p_pop (core_of ob0) h) as Hs. cbn [c_queue core_of] in Hs. by rewrite Hp in Hs.
    + unfold on. cbn. pose proof (queue_pop _ h Hq) as Hq'. cbn [c_queue core_of] in Hq'. by rewrite Hp in Hq'.
    + intros b ->. apply (queue_popped (ob_blockQ ob0) h); [done|by rewrite Hp].
  - intros _ ob [Hq Hg]. by apply (Hf item Hg).
Qed.

Lemma tr_connect_loop fuel t item has :
  above_genesis item → tr (on queued) (connect_loop fuel t item has) (λ _ _, True).
Proof.
  revert t item has. induction fuel as [|fuel IH]; intros t item has Hi; (destruct item as [b|]; [|apply tr_any, quiet_ret]);
    cbn [connect_loop]; (eapply (tr_bind _ _ (λ _, on queued));
      [intros ob Hq; pose proof (p_block (core_of ob) b (Hi b eq_refl)) as Hp; cbn [c_chain core_of] in Hp;
       destruct (oc_ConnectBlock b (ob_chain ob)) as [r ch]; split; [by apply rtc_once|by destruct r]|intros ?]).
  - apply tr_any, quiet_ret.
  - eapply tr_bind; [apply tr_get|]. intros ob0. cbv beta. apply tr_pop. intros item Hitem. by apply IH.
Qed.

Lemma tr_block_tick : tr (on queued) block_tick (λ _ _, True).
Proof.
  unfold block_tick. eapply tr_bind; [apply tr_get|]. intros ob0. cbv beta.
  eapply (tr_bind _ _ (λ _ ob, on queued ob ∧ ob = ob0)).
  { intros ob [Hq ->]. cbn. split; [done|]. by destruct (oc_Height (ob_chain ob0)). }
  intros n. apply tr_pop. intros item Hi. apply tr_bind_quiet; [by apply tr_connect_loop|quiet_steps].
Qed.

(** ** The timer of votes *)

Lemma tr_sync : tr (on roomy) syncVoteRound (λ _, on roomy).
Proof.
  unfold syncVoteRound. apply tr_chain. intros ch. apply tr_lift_bind. intros n Hn. apply tr_round. intros r.
  destruct (Z.ltb_spec (vr_TargetHeight r) (u32 (n + 1))) as [Hlt|]; [|by intros ob [[HP _] _]].
  apply tr_quiet_bind.
  { intros c ob <-. by destruct (TopRank 0 (cs_rt (oc_cs ch))). }
  intros Top. tr_case.
  - assert (Hack : is_Some (vr_MinRoundVoteAck r)).
    { destruct (vr_MinRoundVoteAck r); [by eexists|done]. }
    eapply (tr_bind _ _ (λ _, on roomy)); [|intros ?; apply tr_quiet; quiet_steps].
    apply tr_modify. intros ob [[(m & Hm & Hm0 & Hb) Hch] (S1 & S2 & S3 & S4)]. rewrite Hch, Hn in Hm. injection Hm as <-.
    split; [|exists n; by rewrite <- Hch in Hn].
    apply (p_sync (core_of ob) n); [by rewrite Hch|lia|by rewrite <- S2|by rewrite <- S3].
  - eapply tr_imp; [apply (tr_reset (λ c, (roomy c ∧ c_chain c = ch) ∧ sees r c) n _ roomy)|intros c HP; apply HP].
    intros c [[(m & Hm & Hm0 & Hb) Hch] (S1 & S2 & S3 & S4)]. rewrite Hch, Hn in Hm. injection Hm as <-.
    split; [by rewrite Hch|]. intros Max. split; [|exists n; cbn; by rewrite Hch].
    apply p_reset; [by rewrite Hch|lia|left; by rewrite <- S2].
Qed.

(** Nothing to vote for. *)
Definition idle c : Prop := c_state c ≠ BlockVoteState ∨ c_gens c !! c_target c = None.

Lemma tr_count_failure : tr (on (λ c, roomy c ∧ idle c)) (count_failure env) (λ _ _, True).
Proof.
  unfold count_failure. apply tr_quiet_bind; [eauto with quiet|intros ?]. apply tr_quiet_bind; [eauto with quiet|intros r].
  tr_case; [|apply tr_any; quiet_steps]. apply tr_quiet_bind; [quiet_steps|intros ?].
  intros ob [(n & Hn & Hn0 & Hb) Hi].
  assert (Ht : tr (on (λ c, oc_Height (c_chain c) = Ok n ∧ idle c)) (resetVoteRound true) (λ _, on (λ _, True))).
  { apply (tr_reset _ n). intros c [Hc Hi']. split; [done|]. intros Max. split; [|done]. apply p_reset; [done|lia|by right]. }
  destruct (Ht ob) as [H1 _]; [done|]. split; [done|]. by destruct (resetVoteRound true ob) as [[]].
Qed.

Lemma tr_vote_tick : tr (on roomy) (vote_tick me key_Sign env) (λ _ _, True).
Proof.
  unfold vote_tick. eapply tr_bind; [apply tr_sync|intros ?]. apply tr_quiet_bind; [eauto with quiet|intros m].
  tr_case; [|apply tr_any; quiet_steps]. apply tr_round. intros r.
  assert (Hidle : ∀ (b : bool) ob, on (λ c, roomy c ∧ sees r c) ob → vr_RoundState r ≠ BlockVoteState →
    on (λ c, roomy c ∧ (b = true → idle c)) ob).
  { intros b ob [Hr (S1 & _)] Hne. split; [done|]. intros _. left. by rewrite <- S1. }
  eapply (tr_bind _ _ (λ b : bool, on (λ c, roomy c ∧ (b = true → idle c)))).
  - destruct (Z.eqb_spec (vr_RoundState r) RoundVoteState) as [Hst|].
    + eapply tr_conseq; [apply (tr_quiet (λ c, roomy c ∧ sees r c)); quiet_steps|done|].
      intros b ob HP. apply Hidle; [done|by rewrite Hst].
    + destruct (Z.eqb_spec (vr_RoundState r) BlockVoteState) as [Hst|Hne]; [|by intros ob HP; split; [|apply Hidle]].
      destruct (vr_BlockRoundMap r !! vr_TargetHeight r) as [br|] eqn:Hl.
      * apply tr_lift_bind. intros g Hg%of_option_Ok.
        eapply (tr_bind _ _ (λ _, on (λ c, roomy c ∧ sees r c))); [|intros ? ob [HP _]; by split].
        apply (tr_says g); [apply says_ignore, says_sendBlockVote|intros c [_ Hs]|done].
        eapply sees_current; [done..| |done]. symmetry. apply Hs.
      * intros ob [HP (S1 & S2 & S3 & S4)]. split; [done|]. split; [done|]. intros _. right.
        change (c_gens (core_of ob) !! c_target (core_of ob) = None). by rewrite <- S2, <- S4, lookup_fmap, Hl.
  - intros [|]; [|apply tr_any; quiet_steps]. eapply tr_imp; [apply tr_count_failure|]. intros c [? Hi]. split; [done|by apply Hi].
Qed.

(** ** Events *)

Lemma tr_handle sender m raw :
  tr (on roomy) (handleObserverMessage me key_Sign env sender m raw) (λ _ _, True).
Proof using OL.
  assert (Hany : ∀ k : M node unit, tr (λ _, True) k (λ _ _, True) → tr (on roomy) k (λ _ _, True))
    by (intros k Hk; by eapply tr_conseq).
  destruct m; cbn [handleObserverMessage]; try (apply tr_any; solve [eauto with quiet]).
  - apply Hany, tr_handle_RoundVote.
  - apply Hany, tr_handle_RoundVoteAck.
  - apply Hany, tr_handle_BlockGen.
  - apply Hany, tr_handle_BlockGenRequest.
  - apply tr_handle_BlockVote.
  - apply Hany, tr_handle_Block.
Qed.

Lemma event_steps ev ob :
  roomy (core_of ob) → queue_ok (ob_blockQ ob) →
  rtc pstep (core_of ob) (core_of (run_event me key_Sign env ev ob).2).
Proof using OL.
  intros Hr Hq.
  assert (Hq' : ∀ m : M node unit, quiet m → rtc pstep (core_of ob) (core_of (m ob).2))
    by (intros m Hm; by rewrite (Hm (core_of ob) ob eq_refl)).
  destruct ev; cbn [run_event].
  - apply Hq'. unfold onObserverRecv. quiet_steps.
  - apply Hq'. unfold onFormulatorRecv. quiet_steps.
  - apply Hq'. unfold OnFormulatorConnected. quiet_steps.
  - apply Hq'. unfold OnFormulatorDisconnected. quiet_steps.
  - apply Hq'. eauto with quiet.
  - apply Hq'. eauto with quiet.
  - unfold queue_step, mbind, M_bind, get, modify. destruct (ob_messageQueue ob) as [|it q]; [done|].
    by apply (tr_ignore (on roomy) _ (tr_handle (it_PublicHash it) (it_Message it) (it_Packet it)) (upd_queue (λ _, q) ob)).
  - by apply tr_block_tick.
  - by apply tr_vote_tick.
Qed.
End Events.

(** ** Runs *)

Section Runs.
Context {CH X T A E : Type} `{OC : !ObserverChain CH X T} `{OL : !ObserverChainLaws CH X T} `{MH : MessageHash} `{RC : Recover}.
Context `{SC : !StoreCodec A E T} `{TK : TokenCodec}.

(** A node that was started on its chain and has handled events, each in an
    environment of its own, on a chain that is not at its last height. *)
Inductive observer_run (me : PublicHash) (key_Sign : Hash256 → res Signature) : ObserverNode CH X T → Prop :=
  | run_start ch ob : NewObserverNode ch = Ok ob → roomy (core_of ob) → observer_run me key_Sign ob
  | run_handle ob env ev : observer_run me key_Sign ob → roomy (core_of ob) →
      observer_run me key_Sign (run_event me key_Sign env ev ob).2.

Lemma start_inv ch (ob : ObserverNode CH X T) : NewObserverNode ch = Ok ob → roomy (core_of ob) → protocol_inv (core_of ob).
Proof using OL.
  unfold NewObserverNode. destruct (oc_Height ch) as [n|e|] eqn:Hn; [|done..]. cbn [mbind res_bind mret res_ret].
  intros [= <-] (m & Hm & Hm0 & Hb). cbn in Hm. rewrite Hn in Hm. injection Hm as <-.
  split; cbn.
  - exists []. split; [apply NewSortedQueue_holds|constructor].
  - exists n. rewrite u32_next by lia. split_and!; [done|split; lia|lia|lia].
  - intros h g x Hl. exfalso. rewrite lookup_fmap, fmap_Some in Hl. destruct Hl as (br & Hl & [= Hg _]).
    apply elem_of_list_to_map_2, list_elem_of_fmap in Hl as (i & [= -> ->] & _). done.
  - done.
  - by unfold BlockWaitState, RoundVoteState.
  - intros v Hv. by apply elem_of_nil in Hv.
  - intros v1 v2 Hv. by apply elem_of_nil in Hv.
Qed.

Lemma steps_inv (c c' : core CH X T) : rtc pstep c c' → protocol_inv c → protocol_inv c'.
Proof using OL. induction 1 as [|c1 c2 c3 H12 _ IH]; [done|]. intros H1. apply IH. by apply (pstep_inv c1). Qed.

Lemma run_inv me key_Sign ob : observer_run me key_Sign ob → protocol_inv (core_of ob).
Proof using OL.
  induction 1 as [ch ob Hnew Hr|ob env ev _ IH Hr]; [by eapply start_inv|].
  by apply (steps_inv _ _ (event_steps me key_Sign env ev ob Hr (pi_queue _ IH))).
Qed.

(** A run is a run of the protocol, from the start of the node. *)
Lemma run_steps me key_Sign ob :
  observer_run me key_Sign ob →
  ∃ ch (ob0 : ObserverNode CH X T), NewObserverNode ch = Ok ob0 ∧ rtc pstep (core_of ob0) (core_of ob).
Proof using OL.
  induction 1 as [ch ob Hnew _|ob env ev Hrun (ch & ob0 & Hnew & Hs) Hr]; [by exists ch, ob|].
  exists ch, ob0. split; [done|]. etrans; [exact Hs|].
  exact (event_steps me key_Sign env ev ob Hr (pi_queue _ (run_inv _ _ _ Hrun))).
Qed.

(** C11. The observer implements the protocol.  Take a node that was started
    on its chain and has handled any events (messages of anyone, timers),
    however they ended, while the height of the chain was below 2^32 - 2.  What the run did to the queue of blocks, to the chain, to
    the round and to the votes that left the node is a sequence of steps of
    the protocol, from the start of the node; no block of height 0 waits in
    the queue that the node connects from; and the next event, whatever it
    is, again takes steps of the protocol only, unless the chain has reached
    that height. *)
Theorem observer_refines me key_Sign ob :
  observer_run me key_Sign ob →
  (∃ ch (ob0 : ObserverNode CH X T), NewObserverNode ch = Ok ob0 ∧ rtc pstep (core_of ob0) (core_of ob)) ∧
  queue_ok (ob_blockQ ob) ∧
  (∀ env ev, roomy (core_of ob) → rtc pstep (core_of ob) (core_of (run_event me key_Sign env ev ob).2)).
Proof using OL.
  intros Hrun. pose proof (pi_queue _ (run_inv _ _ _ Hrun)) as Hq. split_and!; [by eapply run_steps|done|].
  intros env ev Hr. by apply event_steps.
Qed.

(** C17. The invariant of an observer.  At every point of a run: the round is
    at most one height ahead of the chain; when the node waits for a block it
    has chosen the round vote it waits for; and when it votes, the round of
    the target height has the block, of that height, and the context of its
    execution, so that the pointers the handlers follow are set. *)
Theorem observer_invariant me key_Sign ob :
  observer_run me key_Sign ob →
  (∃ n, oc_Height (ob_chain ob) = Ok n ∧ 1 ≤ vr_TargetHeight (ob_round ob) ≤ n + 1) ∧
  (BlockWaitState ≤ vr_RoundState (ob_round ob) → is_Some (vr_MinRoundVoteAck (ob_round ob))) ∧
  (vr_RoundState (ob_round ob) = BlockVoteState →
     ∃ br g x, vr_BlockRoundMap (ob_round ob) !! vr_TargetHeight (ob_round ob) = Some br ∧
       br_BlockGenMessage br = Some g ∧ br_Context br = Some x ∧
       HHeight (BHeader (bg_Block g)) = vr_TargetHeight (ob_round ob)).
Proof using OL.
  intros [_ Hn _ Hc Ha _ _]%run_inv. split_and!; [destruct Hn as (n & ? & _ & ?); by exists n|done|]. intros (g & x & Hl & Hh)%Hc.
  cbn in Hl. rewrite lookup_fmap, fmap_Some in Hl. destruct Hl as (br & Hl & [= Hg Hx]). by exists br, g, x.
Qed.

(** C10. An observer votes for one block per height.  Whatever messages a node
    receives from other observers and from formulators, in whatever order, any
    two votes it has sent for one height are for the same header and the same
    signature of the generator. *)
Theorem one_vote_per_height me key_Sign ob v1 v2 :
  observer_run me key_Sign ob →
  v1 ∈ votes_of (ob_out ob) → v2 ∈ votes_of (ob_out ob) →
  HHeight (bv_Header v1) = HHeight (bv_Header v2) →
  bv_Header v1 = bv_Header v2 ∧ bv_GeneratorSignature v1 = bv_GeneratorSignature v2.
Proof using OL. intros Hrun%run_inv. apply Hrun. Qed.

(** C9. Honest observers do not fork.  When every observer runs the node, and
    a signature of an observer on one of the two blocks exists only if the
    observer sent a vote for it, two blocks of one height whose signatures the
    consensus accepts have the same header, which holds the root of the
    transactions, and the same signature of the generator. *)
Theorem no_fork (node_of : PublicHash → ObserverNode CH X T) (sign_of : PublicHash → Hash256 → res Signature)
    bh1 sigs1 s1 bh2 sigs2 s2 :
  (∀ p, p ∈ dom (cs_observers s1) → observer_run p (sign_of p) (node_of p)) →
  (∀ p bh gs sig, p ∈ dom (cs_observers s1) → bh ∈ [bh1; bh2] →
     recover_signer (hash_BlockSign (header_Hash bh) gs) sig = Some p →
     ∃ v, v ∈ votes_of (ob_out (node_of p)) ∧ bv_Header v = bh ∧ bv_GeneratorSignature v = gs) →
  cs_observers s1 = cs_observers s2 →
  pof_ValidateSignature hash_BlockSign bh1 sigs1 s1 = Ok tt →
  pof_ValidateSignature hash_BlockSign bh2 sigs2 s2 = Ok tt →
  HHeight bh1 = HHeight bh2 →
  bh1 = bh2 ∧ head sigs1 = head sigs2.
Proof using OL.
  intros Hrun Hsig Hobs
    (n1 & g1 & sig1 & obs1 & -> & _ & _ & _ & _ & V1)%ValidateSignature_inv
    (n2 & g2 & sig2 & obs2 & -> & _ & _ & _ & _ & V2)%ValidateSignature_inv Hh.
  rewrite <- Hobs in V2. destruct (accepted_share _ _ _ _ _ V1 V2) as (p & Hp & (t1 & _ & R1) & (t2 & _ & R2)).
  destruct (Hsig p bh1 sig1 t1 Hp) as (v1 & I1 & <- & <-); [by left|done|].
  destruct (Hsig p bh2 sig2 t2 Hp) as (v2 & I2 & <- & <-); [by right; left|done|].
  destruct (run_inv p (sign_of p) (node_of p) (Hrun p Hp)) as [_ _ _ _ _ _ Hu].
  destruct (Hu v1 v2 I1 I2 Hh) as [-> ->]. done.
Qed.
End Runs.
