(* ===== verification/ObserverOnChain.v ===== *)
(** * The chain of the nodes is a chain for the observer

    The provider and the committer of core/chain, with the consensus of pof,
    keep what the observer relies on. *)

From S2P Require Import Prelude Tokens Common Context ContextSpec Block Store StoreSpec Chain ChainSpec ChainConnect Rank Pof PofSpec.
From S2P Require Import Observer ObserverSpec.

Section OnChain.
Context {A E T P : Type} `{AI : AccountI A} `{EI : EventI E} `{B58 : Base58} `{HF : HashFn}.
Context `{EH : !EncodingHash A E} `{SC : !StoreCodec A E T} `{PI : !PileI P} `{TC : !TxCodec T}.
Context `{TX : !TransactionI T A E} `{RC : Recover} `{FI : FormulatorI A} `{TK : TokenCodec}.
Context (BlockSign_Hash : Hash256 → Signature → Hash256) (cn : Chain A E T) (cpus : nat) (pick : error → list error → error).

Abbreviation cons := (pof_Consensus BlockSign_Hash).

(** commiter.go: [ConnectBlockWithContext] connects without the checks of
    [ConnectBlock]; the context is the one of the caller. *)
Definition ConnectBlockWithContext (b : Block T) : M (Node T P CState * Ctx A E) unit := λ '(nd, ctx),
  let '(r, nd') := connectBlockWithContext cons cn b ctx nd in (r, (nd', (seal cons cn b (nd_cs nd) ctx).2)).

(** A new context, the block executed on it and the hash of the context. *)
Definition ExecuteBlock (b : Block T) (nd : Node T P CState) : res (Ctx A E * Hash256) :=
  let '(r, ctx) := executeBlockOnContext cpus pick cn (st_chainID (nd_store nd)) b None (NewContext (store_loader (nd_store nd))) in
  _ ← r;
  let '(h, ctx) := Ctx_Hash ctx in
  h ← h;
  mret (ctx, h).

#[export] Instance chain_ObserverChain : ObserverChain (Node T P CState) (Ctx A E) T := {
  oc_ChainID nd := st_chainID (nd_store nd);
  oc_Version nd := st_version (nd_store nd);
  oc_Height nd := st_Height (nd_store nd);
  oc_LastHash nd := st_LastHash (nd_store nd);
  oc_LastStatus nd := st_LastStatus (nd_store nd);
  oc_Hash height nd := st_Hash height (nd_store nd);
  oc_cs := nd_cs;
  oc_ValidateHeader bh nd := validateHeader bh (nd_store nd);
  oc_Execute := ExecuteBlock;
  oc_ConnectBlockWithContext := ConnectBlockWithContext;
  oc_ConnectBlock b := ConnectBlock cpus pick cons cn b None;
}.

Implicit Types (st : Store T P).

Lemma st_Height_cached st b : st_isClose st = false →
  st_cache st = mkStoreCache true (HHeight (BHeader b)) (header_Hash (BHeader b)) (Some b) → st_Height st = Ok (HHeight (BHeader b)).
Proof. intros H1 H2. unfold st_Height. by rewrite H1, H2. Qed.

Lemma st_Height_same st st' :
  st_isClose st' = st_isClose st → st_db st' = st_db st → st_cache st' = st_cache st → st_Height st' = st_Height st.
Proof. intros H1 H2 H3. unfold st_Height. by rewrite H1, H2, H3. Qed.

(** Storing a block never closes the store. *)
Lemma StoreBlock_open b (ctd : ContextData A E) v : keeps (λ st, st_isClose st = v) (StoreBlock b ctd).
Proof.
  assert (Hm : ∀ f : Store T P → Store T P, (∀ st, st_isClose (f st) = st_isClose st) → keeps (λ st, st_isClose st = v) (modify f))
    by (intros f Hf st <-; apply Hf).
  unfold StoreBlock. apply keeps_bind; [by intros st|intros s0]. apply keeps_bind; [apply keeps_guard|intros _].
  apply keeps_bind; [apply keeps_lift|intros d0]. apply keeps_bind; [apply keeps_lift|intros d1].
  apply keeps_bind; [case_match; [apply keeps_panic|apply keeps_ret]|intros d2].
  apply keeps_bind; [case_match; [apply keeps_bind; [apply keeps_lift|intros; apply keeps_ret]|apply keeps_ret]|intros evs].
  apply keeps_bind; [unfold ignoring; apply keeps_bind; [apply keeps_try|intros [|]; [apply keeps_ret|apply keeps_guard]]|intros _].
  { intros st Hst. unfold on_pile. by destruct (pile_AppendData _ _ _ _). }
  apply keeps_bind; [|intros _; apply keeps_bind; [by apply Hm|intros _; by apply Hm]].
  intros st Hst. unfold db_Update. by case_match; case_match.
Qed.

(** A context that is connected: the chain gets the height of the block, or
    keeps its own. *)
Lemma connected_height b ctx (nd : Node T P CState) :
  match (connectBlockWithContext cons cn b ctx nd).1 with
  | Ok _ => st_Height (nd_store (connectBlockWithContext cons cn b ctx nd).2) = Ok (HHeight (BHeader b))
  | _ => st_Height (nd_store (connectBlockWithContext cons cn b ctx nd).2) = st_Height (nd_store nd)
  end.
Proof.
  unfold connectBlockWithContext. destruct (seal _ _ _ _ _).1 as [[s [top|e]]|e|]; [|done..].
  pose proof (StoreBlock_open b top (st_isClose (nd_store nd)) (nd_store nd) eq_refl) as Ho.
  destruct (StoreBlock b top (nd_store nd)) as [r st'] eqn:Hs. cbn in Ho |- *.
  assert (Hno : r ≠ Ok tt → st_Height st' = st_Height (nd_store nd)).
  { intros Hr. destruct (StoreBlock_refused _ _ _ _ _ Hs Hr) as (Hd & _ & Hc). by apply st_Height_same. }
  destruct r as [[]|e|]; [|by apply Hno..]. apply StoreBlock_stored in Hs.
  apply st_Height_cached; [apply (sd_open' _ _ _ _ Hs)|apply (sd_cache _ _ _ _ Hs)].
Qed.

Lemma st_LastStatus_height st height last : st_LastStatus st = Ok (height, last) → st_Height st = Ok height.
Proof.
  unfold st_LastStatus. destruct (st_Height st) as [n|e|]; [|done..]. cbn [mbind res_bind].
  destruct (st_Hash n st) as [h|e|]; [|done..]. intros [= <- _]. by destruct (Z.eqb_spec n 0) as [->|].
Qed.

Lemma validateHeader_height bh st n : st_Height st = Ok n → validateHeader bh st = Ok tt → HHeight bh = u32 (n + 1).
Proof.
  intros Hn Hv. destruct (st_LastStatus st) as [[m last]|e|] eqn:Hl; [|by unfold validateHeader in Hv; rewrite Hl in Hv..].
  pose proof (st_LastStatus_height _ _ _ Hl) as Hm. rewrite Hn in Hm. injection Hm as ->.
  by destruct (validateHeader_links _ _ _ _ Hv Hl) as (_ & _ & ?).
Qed.

(** The laws of the observer hold for every chain. *)
#[export] Instance chain_ObserverChainLaws : ObserverChainLaws (Node T P CState) (Ctx A E) T.
Proof.
  split; cbn [oc_Height oc_ValidateHeader oc_ConnectBlock oc_ConnectBlockWithContext chain_ObserverChain].
  - intros bh nd n. apply validateHeader_height.
  - intros b nd n Hn. unfold ConnectBlock.
    destruct (validateHeader (BHeader b) (nd_store nd)) as [[]|e|] eqn:Hv; [|done..].
    destruct (cs_ValidateSignature _ _ _ _) as [[]|e|]; [|done..].
    destruct (executeBlockOnContext _ _ _ _ _ _ _) as [[[]|e|] ctx]; [|done..].
    pose proof (connected_height b ctx nd) as Hc. destruct (connectBlockWithContext cons cn b ctx nd) as [[u|e|] nd'].
    + split; [done|]. by apply (validateHeader_height _ (nd_store nd)).
    + by rewrite <- Hn.
    + by rewrite <- Hn.
  - intros b nd ctx. unfold ConnectBlockWithContext. pose proof (connected_height b ctx nd) as Hc.
    by destruct (connectBlockWithContext cons cn b ctx nd) as [[u|e|] nd'].
Qed.
End OnChain.
