(* ===== verification/ObserverExamples.v ===== *)
(** * Three observers at work

    A chain of at most one block, three observers and one formulator: the runs
    in which each observer votes for the block of the formulator, the run in
    which it connects it, and the witnesses of the theorems on observers. *)

From S2P Require Import Prelude Tokens Common Context Block Store Chain Search SortedQueue Rank Pof PofSpec.
From S2P Require Import RequestTimer Observer ObserverHandle ObserverSpec ObserverQuiet ObserverRefines ObserverSafety.

Module ObserverExamples.
#[local] Existing Instance ToyTokens.toy_tokens.

Definition key (n : Z) : PublicHash := n :: replicate 30 0.
Definition formulator : Address := replicate AddressSize 7.
Definition generator : PublicHash := key 70.
Definition state0 : CState :=
  mkCState 3 0 {[key 1 := true; key 2 := true; key 3 := true]}
    (mkTable 0 [NewRank formulator generator 1 (replicate 32 1)] {[formulator := generator]}).

#[local] Instance codec : StoreCodec unit unit unit := {|
  acc_TypeOf _ := Ok 1; acc_Marshal _ := Ok []; acc_Unmarshal _ _ := Ok tt;
  txout_Marshal _ := Ok []; txout_Unmarshal _ := Err ErrNotExistKey;
  header_Marshal _ := Ok []; header_Unmarshal _ := Err ErrNotExistKey; header_Hash bh := [0; HTimestamp bh];
  block_Marshal _ := Ok []; block_Unmarshal _ := Err ErrNotExistKey;
  enc_ArrayLen _ := []; enc_Uint16 _ := []; ev_TypeOf _ := Ok 1; ev_Encode _ := Ok [];
|}.

Definition header : Header :=
  mkHeader 1 1 1 [0; 0] [] [] 50 formulator (encodeConsensusData 0).
Definition gen_block : BlockGenMessage unit := mkBlockGen (mkBlock header [] [] [] []) generator false.

#[local] Instance hashes : MessageHash := {|
  hash_RoundVote _ := [1]; hash_RoundVoteAck _ := [2]; hash_BlockVote _ := [3]; hash_BlockGenRequest _ := [4];
  hash_BlockSign h gs := 9 :: h ++ gs;
|}.

(** A signature is its signer; a block can only be signed when it is the one
    of the formulator. *)
#[local] Instance signer : Recover := λ h sig,
  match h with
  | 9 :: r => if bool_decide (r = header_Hash header ++ generator) then Some sig else None
  | _ => Some sig
  end.

(** The chain has the block or not. *)
Definition chain_height (connected : bool) : Z := if connected then 1 else 0.
#[local] Instance one_block : ObserverChain bool unit unit := {|
  oc_ChainID _ := 1;
  oc_Version _ := 1;
  oc_Height ch := Ok (chain_height ch);
  oc_LastHash ch := Ok (if ch then header_Hash header else [0; 0]);
  oc_LastStatus ch := Ok (chain_height ch, if ch then header_Hash header else [0; 0]);
  oc_Hash _ _ := Ok [0; 0];
  oc_cs _ := state0;
  oc_ValidateHeader bh ch := if HHeight bh =? chain_height ch + 1 then Ok tt else Err ErrInvalidHeight;
  oc_Execute b _ := Ok (tt, []);
  oc_ConnectBlockWithContext b := λ '(ch, x),
    if negb ch && (HHeight (BHeader b) =? 1) then (Ok tt, (true, x)) else (Err ErrInvalidHeight, (ch, x));
  oc_ConnectBlock b := λ ch, if negb ch && (HHeight (BHeader b) =? 1) then (Ok tt, true) else (Err ErrInvalidHeight, ch);
|}.

#[local] Instance one_block_laws : ObserverChainLaws bool unit unit.
Proof.
  split; cbn.
  - intros bh ch n [= <-]. destruct (Z.eqb_spec (HHeight bh) (chain_height ch + 1)) as [->|]; [|done]. by destruct ch.
  - intros b ch n [= <-]. destruct ch; [done|]. cbn. destruct (Z.eqb_spec (HHeight (BHeader b)) 1) as [E|]; [|done].
    cbn. by rewrite E.
  - intros b ch x. destruct ch; [done|]. cbn. destruct (Z.eqb_spec (HHeight (BHeader b)) 1) as [E|]; [|done].
    cbn. by rewrite E.
Qed.

Definition env0 : Env := mkEnv (λ n, 1000 + Z.of_nat n) {[formulator := true]} [] (λ _, true)
  (λ _, Err ErrNotExistKey) (λ V m, map_to_list m).

Definition round_vote_of (p : PublicHash) : obmsg unit :=
  MRoundVote (mkRoundVoteMessage (mkRoundVote 1 [0; 0] 1 0 formulator generator 900 true) p).
Definition ack_of_node (p : PublicHash) : obmsg unit :=
  MRoundVoteAck (mkRoundVoteAckMessage (mkRoundVoteAck 1 [0; 0] 1 0 formulator generator (key 1) 950 true) p).
Definition vote_of_node (p : PublicHash) : obmsg unit :=
  MBlockVote (mkBlockVoteMessage (mkBlockVote 1 header generator p true) p).

(** A round in which the node votes: its own round vote and those of [p] and
    [q], the acks, and the block. *)
Definition voting_events (p q : PublicHash) : list (event (T:=unit)) :=
  [EvVoteTick; EvRecv p (round_vote_of p) []; EvRecv q (round_vote_of q) []; EvQueue; EvQueue; EvQueue;
   EvRecv p (ack_of_node p) []; EvQueue; EvQueue; EvFormulatorRecv (MBlockGen gen_block) []; EvQueue].
(** The votes on the block. *)
Definition finishing_events (p : PublicHash) : list (event (T:=unit)) := [EvRecv p (vote_of_node p) []; EvQueue; EvQueue].

Definition node0 : ObserverNode bool unit unit :=
  match NewObserverNode false with Ok ob => ob | _ => mkObserver false (NewVoteRound 1 3) 0 0 ∅ ∅ NewRequestTimer NewSortedQueue [] 0 [] end.
Definition run_all (me : PublicHash) (evs : list (event (T:=unit))) (ob : ObserverNode bool unit unit) : ObserverNode bool unit unit :=
  foldl (λ ob ev, (run_event me (λ _, Ok me) env0 ev ob).2) ob evs.

Definition others (me : PublicHash) : PublicHash * PublicHash :=
  if bool_decide (me = key 1) then (key 2, key 3) else if bool_decide (me = key 2) then (key 3, key 1) else (key 1, key 2).
Definition voted (me : PublicHash) : ObserverNode bool unit unit :=
  run_all me (voting_events (others me).1 (others me).2) node0.
Definition finished (me : PublicHash) : ObserverNode bool unit unit := run_all me (finishing_events (others me).1) (voted me).

(** The three of them send their vote, and with the vote of one other
    observer the block is connected. *)
Example votes_are_sent :
  Forall (λ me, (bv_Header <$> votes_of (ob_out (voted me))) = [header] ∧ ob_chain (finished me) = true) [key 1; key 2; key 3].
Proof. repeat constructor; vm_compute; reflexivity. Qed.

(** ** Witnesses *)

Lemma always_roomy (ob : ObserverNode bool unit unit) : roomy (core_of ob).
Proof. exists (chain_height (ob_chain ob)). split; [done|]. by destruct (ob_chain ob). Qed.

Lemma run_all_run me evs ob : observer_run me (λ _, Ok me) ob → observer_run me (λ _, Ok me) (run_all me evs ob).
Proof.
  revert ob. induction evs as [|ev evs IH]; intros ob Hob; [done|].
  apply IH. apply run_handle; [done|apply always_roomy].
Qed.

Lemma voted_run me : observer_run me (λ _, Ok me) (voted me).
Proof. apply run_all_run. apply (run_start me _ false); [done|apply always_roomy]. Qed.

Lemma finished_run me : observer_run me (λ _, Ok me) (finished me).
Proof. apply run_all_run, voted_run. Qed.

(** The node before it takes the block of the generator from its queue. *)
Definition waiting (me : PublicHash) : ObserverNode bool unit unit :=
  run_all me (take 10 (voting_events (others me).1 (others me).2)) node0.

(** The whole run, which connects a block, takes the steps of the protocol,
    and so does the one event that moves the node from waiting for a block to
    its vote. *)
Lemma observer_refines_witness :
  (ob_chain (finished (key 1)) = true ∧
   ∃ ch (ob0 : ObserverNode bool unit unit), NewObserverNode ch = Ok ob0 ∧ rtc pstep (core_of ob0) (core_of (finished (key 1)))) ∧
  (vr_RoundState (ob_round (waiting (key 1))) = BlockWaitState ∧
   (run_event (key 1) (λ _, Ok (key 1)) env0 EvQueue (waiting (key 1))).2 = voted (key 1) ∧
   vr_RoundState (ob_round (voted (key 1))) = BlockVoteState ∧
   rtc pstep (core_of (waiting (key 1))) (core_of (run_event (key 1) (λ _, Ok (key 1)) env0 EvQueue (waiting (key 1))).2)).
Proof.
  split; [split; [vm_compute; reflexivity|]|split_and!].
  - exact (proj1 (observer_refines (key 1) (λ _, Ok (key 1)) (finished (key 1)) (finished_run (key 1)))).
  - vm_compute. reflexivity.
  - reflexivity.
  - vm_compute. reflexivity.
  - assert (Hrun : observer_run (key 1) (λ _, Ok (key 1)) (waiting (key 1))).
    { apply run_all_run. apply (run_start (key 1) _ false); [done|apply always_roomy]. }
    destruct (observer_refines (key 1) (λ _, Ok (key 1)) (waiting (key 1)) Hrun) as (_ & _ & H).
    exact (H env0 EvQueue (always_roomy (waiting (key 1)))).
Defined.

Lemma observer_invariant_witness :
  vr_RoundState (ob_round (voted (key 1))) = BlockVoteState ∧
  ∃ br g x, vr_BlockRoundMap (ob_round (voted (key 1))) !! vr_TargetHeight (ob_round (voted (key 1))) = Some br ∧
    br_BlockGenMessage br = Some g ∧ br_Context br = Some x ∧
    HHeight (BHeader (bg_Block g)) = vr_TargetHeight (ob_round (voted (key 1))).
Proof.
  assert (Hst : vr_RoundState (ob_round (voted (key 1))) = BlockVoteState) by (vm_compute; reflexivity).
  split; [exact Hst|].
  exact (proj2 (proj2 (observer_invariant (key 1) (λ _, Ok (key 1)) (voted (key 1)) (voted_run (key 1)))) Hst).
Defined.

(** The vote that the node sent. *)
Definition the_vote (me : PublicHash) : BlockVote :=
  mkBlockVote 1 header generator me false.

Lemma votes_1 : votes_of (ob_out (voted (key 1))) = [the_vote (key 1)].
Proof. vm_compute. reflexivity. Qed.
Lemma votes_2 : votes_of (ob_out (voted (key 2))) = [the_vote (key 2)].
Proof. vm_compute. reflexivity. Qed.
Lemma votes_3 : votes_of (ob_out (voted (key 3))) = [the_vote (key 3)].
Proof. vm_compute. reflexivity. Qed.

Lemma the_vote_sent me : me ∈ [key 1; key 2; key 3] → the_vote me ∈ votes_of (ob_out (voted me)).
Proof.
  rewrite !elem_of_cons, elem_of_nil. intros [->|[->|[->|[]]]]; [rewrite votes_1|rewrite votes_2|rewrite votes_3]; by left.
Qed.

Lemma one_vote_per_height_witness :
  bv_Header (the_vote (key 1)) = bv_Header (the_vote (key 1)) ∧
  bv_GeneratorSignature (the_vote (key 1)) = bv_GeneratorSignature (the_vote (key 1)).
Proof.
  apply (one_vote_per_height (key 1) (λ _, Ok (key 1)) (voted (key 1))).
  - apply voted_run.
  - apply the_vote_sent. by left.
  - apply the_vote_sent. by left.
  - reflexivity.
Defined.

(** Two observers sign, and two others. *)
Lemma no_fork_witness : header = header ∧ head [generator; key 1; key 2] = head [generator; key 2; key 3].
Proof.
  apply (no_fork voted (λ p _, Ok p) header [generator; key 1; key 2] state0 header [generator; key 2; key 3] state0).
  - intros p _. apply voted_run.
  - intros p bh gs sig Hp Hbh Hsig. exists (the_vote p).
    assert (Hin : p ∈ [key 1; key 2; key 3]).
    { apply elem_of_dom in Hp as [b Hb]. unfold state0 in Hb. cbn [cs_observers] in Hb.
      rewrite !lookup_insert_Some, lookup_singleton_Some in Hb. set_solver. }
    pose proof (the_vote_sent p Hin) as Hv.
    assert (bh = header) as ->.
    { clear -Hbh. rewrite !elem_of_cons, elem_of_nil in Hbh. by destruct Hbh as [->|[->|[]]]. }
    split; [exact Hv|]. split; [reflexivity|].
    unfold recover_signer, signer in Hsig. cbn [hash_BlockSign hashes] in Hsig. case_bool_decide as He; [|done].
    apply app_inv_head in He. by rewrite He.
  - reflexivity.
  - vm_compute. reflexivity.
  - vm_compute. reflexivity.
  - reflexivity.
Defined.
End ObserverExamples.
