(* ===== verification/FormulatorNode.v ===== *)
(** * pof: the formulator node

    formulator_node.go, formulator_node_peer.go and formulator_node_send.go:
    the state of a node that generates blocks, its transactions, the blocks it
    receives and asks for.  The handlers take the locks of the node, so each
    of them is one step; what a handler starts with [go] is a task that runs
    as a step of its own later.  Printing is left out; the meshes that move
    packets are outside the model. *)

From S2P Require Import Prelude Tokens Common Context Block Store Chain Search SortedQueue LinkedQueue ExpireQueue TxPool Rank Pof RequestTimer Observer ObserverOnChain.

(** ** Data *)

(** The entries of [lastGenItemMap] are pointers: an entry is known by its
    height.  A context is shared between the entries and the goroutine that
    generates blocks: it is an index into the contexts of the node. *)
Record genItem (T : Type) := mkGenItem {
  ge_BlockGen : option (BlockGenMessage T);
  ge_ObSign : option BlockObSignMessage;
  ge_Context : option nat;
  ge_Recv : bool;
}.
Arguments mkGenItem {T} _ _ _ _.
Arguments ge_BlockGen {T} _.
Arguments ge_ObSign {T} _.
Arguments ge_Context {T} _.
Arguments ge_Recv {T} _.

Record TxMsgItem (T : Type) := mkTxMsg {
  tm_TxHash : Hash256;
  tm_Type : Z;
  tm_Tx : T;
  tm_Sigs : list Signature;
  tm_PeerID : bytes;
}.
Arguments mkTxMsg {T} _ _ _ _ _.
Arguments tm_TxHash {T} _.
Arguments tm_Type {T} _.
Arguments tm_Tx {T} _.
Arguments tm_Sigs {T} _.
Arguments tm_PeerID {T} _.

(** A transaction that came in a message, with the bytes it was decoded from. *)
Record TransactionMessage (T : Type) := mkTxMessage {
  xm_ChainID : Z; xm_Type : Z; xm_Tx : T; xm_Signatures : list Signature; xm_raw : bytes }.
Arguments mkTxMessage {T} _ _ _ _ _.
Arguments xm_ChainID {T} _.
Arguments xm_Type {T} _.
Arguments xm_Tx {T} _.
Arguments xm_Signatures {T} _.
Arguments xm_raw {T} _.

(** What observers and nodes say to a formulator. *)
Inductive frmsg (T : Type) :=
  | MReq (m : BlockReqMessage)
  | MGen (m : BlockGenMessage T)
  | MObSign (m : BlockObSignMessage)
  | MBlocks (Blocks : list (Block T))
  | MState (m : StatusMessage)
  | MAsk (m : RequestMessage)
  | MTxs (l : list (TransactionMessage T))
  | MPeerList (Ips Hashs : list bytes)
  | MRequestPeerList
  | MUnknown.
Arguments MReq {T} _.
Arguments MGen {T} _.
Arguments MObSign {T} _.
Arguments MBlocks {T} _.
Arguments MState {T} _.
Arguments MAsk {T} _.
Arguments MTxs {T} _.
Arguments MPeerList {T} _ _.
Arguments MRequestPeerList {T}.
Arguments MUnknown {T}.

(** What leaves the node: to an observer or to all of them, to a node or to
    all of them, a packet of blocks; and what is told to the mesh of nodes and
    to the services. *)
Inductive frout (T : Type) :=
  | FoObserver (ID : bytes) (m : frmsg T)
  | FoObservers (m : frmsg T)
  | FoNode (to : PublicHash) (m : frmsg T)
  | FoNodes (m : frmsg T)
  | FoBlocks (to : PublicHash) (packet : bytes)
  | FoBlocksAll (packet : bytes)
  | FoRemovePeer (ID : bytes)
  | FoBadPoint (ID : bytes)
  | FoAddPeerList (Ips Hashs : list bytes)
  | FoSendPeerList (ID : bytes)
  | FoExpired (txs : list T).
Arguments FoObserver {T} _ _.
Arguments FoObservers {T} _.
Arguments FoNode {T} _ _.
Arguments FoNodes {T} _.
Arguments FoBlocks {T} _ _.
Arguments FoBlocksAll {T} _.
Arguments FoRemovePeer {T} _.
Arguments FoBadPoint {T} _.
Arguments FoAddPeerList {T} _ _.
Arguments FoSendPeerList {T} _.
Arguments FoExpired {T} _.

(** The goroutine of [genBlock] between two blocks. *)
Record Generation := mkGeneration {
  gs_ID : bytes;
  gs_req : BlockReqMessage;
  gs_i : Z;
  gs_Remain : Z;
  gs_Start : Z;
  gs_End : Z;
  gs_MaxTx : Z;
  gs_HalfTx : Z;
  gs_ctx : nat;
  gs_last : option Header;
}.

(** What was started with [go] and has not run yet. *)
Inductive task :=
  | TRetry (ID : bytes) (m : BlockReqMessage) (RetryCount : nat)
  | TGen (ID : bytes) (req : BlockReqMessage)
  | TGenNext (g : Generation)
  | TUpdate
  | TRequestBlocks
  | TRequestNext.

Record FormulatorConfig := mkFrConfig { fc_Formulator : Address; fc_MaxTransactionsPerBlock : Z }.

(** The queue that sends transactions is first in, first out. *)
Record FormulatorNode (A E T P : Type) := mkFormulator {
  fr_node : Node T P CState;
  fr_heap : list (Ctx A E);               (* the contexts *)
  fr_gens : gmap Z (genItem T);
  fr_lastReq : option BlockReqMessage;
  fr_lastGenHeight : Z;
  fr_lastGenTime : Z;
  fr_status : gmap (list Z) Z;
  fr_obStatus : gmap (list Z) Z;
  fr_timer : RequestTimer;
  fr_blockQ : SortedQueue (V:=Block T);
  fr_blockWait : gmap Z bool;
  fr_pool : TransactionPool (T:=T) (Q:=LinkedQueue Hash256 (PoolItem (T:=T)));
  fr_txQ : ExpireQueue (TxMsgItem T);
  fr_txWaitQ : LinkedQueue Hash256 (TxMsgItem T);
  fr_txSendQ : list (TxMsgItem T);
  fr_generating : bool;                   (* genLock *)
  fr_tasks : list task;
  fr_reads : nat;
  fr_out : list (frout T);
}.
Arguments mkFormulator {A E T P} _ _ _ _ _ _ _ _ _ _ _ _ _ _ _ _ _ _ _.
Arguments fr_node {A E T P} _.
Arguments fr_heap {A E T P} _.
Arguments fr_gens {A E T P} _.
Arguments fr_lastReq {A E T P} _.
Arguments fr_lastGenHeight {A E T P} _.
Arguments fr_lastGenTime {A E T P} _.
Arguments fr_status {A E T P} _.
Arguments fr_obStatus {A E T P} _.
Arguments fr_timer {A E T P} _.
Arguments fr_blockQ {A E T P} _.
Arguments fr_blockWait {A E T P} _.
Arguments fr_pool {A E T P} _.
Arguments fr_txQ {A E T P} _.
Arguments fr_txWaitQ {A E T P} _.
Arguments fr_txSendQ {A E T P} _.
Arguments fr_generating {A E T P} _.
Arguments fr_tasks {A E T P} _.
Arguments fr_reads {A E T P} _.
Arguments fr_out {A E T P} _.

(** What a step finds outside: the clock, random numbers, the packets of
    blocks, the order of Go's maps, whether there is a peer, the product of
    floating point numbers that spreads the transactions over the blocks, and
    how many transactions a block gets until its timer fires. *)
Record FEnv := mkFEnv {
  fe_now : nat → Z;
  fe_rand : nat → nat → nat;
  fe_packet : RequestMessage → res bytes;
  fe_range : gmap (list Z) Z → list (list Z * Z);
  fe_slots : ∀ Q, gmap Z Q → list Z;
  fe_hasPeer : bool;
  fe_even : Z → Z → Z;
  fe_loop : nat;
}.

Section FormulatorNode.
Context {A E T P : Type} `{AI : AccountI A} `{EI : EventI E} `{B58 : Base58} `{HF : HashFn}.
Context `{EH : !EncodingHash A E} `{SC : !StoreCodec A E T} `{PI : !PileI P} `{TC : !TxCodec T}.
Context `{TX : !TransactionI T A E} `{RC : Recover} `{FI : FormulatorI A} `{TK : TokenCodec}.
Context (BlockSign_Hash : Hash256 → Signature → Hash256) (cn : Chain A E T) (cpus : nat) (pick : error → list error → error).
(** The configuration, the public hashes of the keys and the key itself. *)
Context (config : FormulatorConfig) (myPublicHash frPublicHash : PublicHash) (key_Sign : Hash256 → res Signature).
Context (env : FEnv).

Abbreviation fnode := (FormulatorNode A E T P).
Abbreviation frM := (M (FormulatorNode A E T P)).
Abbreviation cons := (pof_Consensus BlockSign_Hash).
Implicit Types (fr : fnode).

(** ** Parts of the state *)

Definition upd_node x fr : fnode := mkFormulator x (fr_heap fr) (fr_gens fr) (fr_lastReq fr) (fr_lastGenHeight fr) (fr_lastGenTime fr)
  (fr_status fr) (fr_obStatus fr) (fr_timer fr) (fr_blockQ fr) (fr_blockWait fr) (fr_pool fr) (fr_txQ fr) (fr_txWaitQ fr)
  (fr_txSendQ fr) (fr_generating fr) (fr_tasks fr) (fr_reads fr) (fr_out fr).
Definition upd_gens (f : gmap Z (genItem T) → gmap Z (genItem T)) fr : fnode := mkFormulator (fr_node fr) (fr_heap fr)
  (f (fr_gens fr)) (fr_lastReq fr) (fr_lastGenHeight fr) (fr_lastGenTime fr) (fr_status fr) (fr_obStatus fr) (fr_timer fr)
  (fr_blockQ fr) (fr_blockWait fr) (fr_pool fr) (fr_txQ fr) (fr_txWaitQ fr) (fr_txSendQ fr) (fr_generating fr) (fr_tasks fr)
  (fr_reads fr) (fr_out fr).
Definition upd_heap (f : list (Ctx A E) → list (Ctx A E)) fr : fnode := mkFormulator (fr_node fr) (f (fr_heap fr)) (fr_gens fr)
  (fr_lastReq fr) (fr_lastGenHeight fr) (fr_lastGenTime fr) (fr_status fr) (fr_obStatus fr) (fr_timer fr) (fr_blockQ fr)
  (fr_blockWait fr) (fr_pool fr) (fr_txQ fr) (fr_txWaitQ fr) (fr_txSendQ fr) (fr_generating fr) (fr_tasks fr) (fr_reads fr)
  (fr_out fr).
Definition upd_lastReq x fr : fnode := mkFormulator (fr_node fr) (fr_heap fr) (fr_gens fr) x (fr_lastGenHeight fr) (fr_lastGenTime fr)
  (fr_status fr) (fr_obStatus fr) (fr_timer fr) (fr_blockQ fr) (fr_blockWait fr) (fr_pool fr) (fr_txQ fr) (fr_txWaitQ fr)
  (fr_txSendQ fr) (fr_generating fr) (fr_tasks fr) (fr_reads fr) (fr_out fr).
Definition upd_lastGen (height time : Z) fr : fnode := mkFormulator (fr_node fr) (fr_heap fr) (fr_gens fr) (fr_lastReq fr) height time
  (fr_status fr) (fr_obStatus fr) (fr_timer fr) (fr_blockQ fr) (fr_blockWait fr) (fr_pool fr) (fr_txQ fr) (fr_txWaitQ fr)
  (fr_txSendQ fr) (fr_generating fr) (fr_tasks fr) (fr_reads fr) (fr_out fr).
Definition upd_nodeStatus (f : gmap (list Z) Z → gmap (list Z) Z) fr : fnode := mkFormulator (fr_node fr) (fr_heap fr) (fr_gens fr)
  (fr_lastReq fr) (fr_lastGenHeight fr) (fr_lastGenTime fr) (f (fr_status fr)) (fr_obStatus fr) (fr_timer fr) (fr_blockQ fr)
  (fr_blockWait fr) (fr_pool fr) (fr_txQ fr) (fr_txWaitQ fr) (fr_txSendQ fr) (fr_generating fr) (fr_tasks fr) (fr_reads fr)
  (fr_out fr).
Definition upd_obStatus (f : gmap (list Z) Z → gmap (list Z) Z) fr : fnode := mkFormulator (fr_node fr) (fr_heap fr) (fr_gens fr)
  (fr_lastReq fr) (fr_lastGenHeight fr) (fr_lastGenTime fr) (fr_status fr) (f (fr_obStatus fr)) (fr_timer fr) (fr_blockQ fr)
  (fr_blockWait fr) (fr_pool fr) (fr_txQ fr) (fr_txWaitQ fr) (fr_txSendQ fr) (fr_generating fr) (fr_tasks fr) (fr_reads fr)
  (fr_out fr).
Definition upd_fr_timer x fr : fnode := mkFormulator (fr_node fr) (fr_heap fr) (fr_gens fr) (fr_lastReq fr) (fr_lastGenHeight fr)
  (fr_lastGenTime fr) (fr_status fr) (fr_obStatus fr) x (fr_blockQ fr) (fr_blockWait fr) (fr_pool fr) (fr_txQ fr)
  (fr_txWaitQ fr) (fr_txSendQ fr) (fr_generating fr) (fr_tasks fr) (fr_reads fr) (fr_out fr).
Definition upd_blocks q (f : gmap Z bool → gmap Z bool) fr : fnode := mkFormulator (fr_node fr) (fr_heap fr) (fr_gens fr) (fr_lastReq fr)
  (fr_lastGenHeight fr) (fr_lastGenTime fr) (fr_status fr) (fr_obStatus fr) (fr_timer fr) q (f (fr_blockWait fr)) (fr_pool fr)
  (fr_txQ fr) (fr_txWaitQ fr) (fr_txSendQ fr) (fr_generating fr) (fr_tasks fr) (fr_reads fr) (fr_out fr).
Definition upd_txs pool q wait send fr : fnode := mkFormulator (fr_node fr) (fr_heap fr) (fr_gens fr) (fr_lastReq fr) (fr_lastGenHeight fr)
  (fr_lastGenTime fr) (fr_status fr) (fr_obStatus fr) (fr_timer fr) (fr_blockQ fr) (fr_blockWait fr) pool q wait send
  (fr_generating fr) (fr_tasks fr) (fr_reads fr) (fr_out fr).
Definition upd_tasks (generating : bool) (f : list task → list task) fr : fnode := mkFormulator (fr_node fr) (fr_heap fr)
  (fr_gens fr) (fr_lastReq fr) (fr_lastGenHeight fr) (fr_lastGenTime fr) (fr_status fr) (fr_obStatus fr) (fr_timer fr)
  (fr_blockQ fr) (fr_blockWait fr) (fr_pool fr) (fr_txQ fr) (fr_txWaitQ fr) (fr_txSendQ fr) generating (f (fr_tasks fr))
  (fr_reads fr) (fr_out fr).
Definition upd_io (reads : nat) (f : list (frout T) → list (frout T)) fr : fnode := mkFormulator (fr_node fr) (fr_heap fr) (fr_gens fr)
  (fr_lastReq fr) (fr_lastGenHeight fr) (fr_lastGenTime fr) (fr_status fr) (fr_obStatus fr) (fr_timer fr) (fr_blockQ fr)
  (fr_blockWait fr) (fr_pool fr) (fr_txQ fr) (fr_txWaitQ fr) (fr_txSendQ fr) (fr_generating fr) (fr_tasks fr) reads
  (f (fr_out fr)).

Definition fr_now : frM Z := λ fr, (Ok (fe_now env (fr_reads fr)), upd_io (S (fr_reads fr)) id fr).
Definition fr_random (n : nat) : frM nat := λ fr, (Ok (fe_rand env (fr_reads fr) n), upd_io (S (fr_reads fr)) id fr).
Definition fr_emit (o : frout T) : frM unit := modify (λ fr, upd_io (fr_reads fr) (.++ [o]) fr).
(** [go]. *)
Definition spawn (t : task) : frM unit := modify (λ fr, upd_tasks (fr_generating fr) (.++ [t]) fr).
(** Contexts: a new one, a call on one, and the context of the next block,
    which reads the one before it as it is now and takes the mark off its top
    layer. *)
Definition new_ctx (x : Ctx A E) : frM nat := λ fr, (Ok (length (fr_heap fr)), upd_heap (.++ [x]) fr).
Definition on_ptr {V} (p : nat) (m : M (Ctx A E) V) : frM V := λ fr,
  match fr_heap fr !! p with
  | None => (Panic, fr)
  | Some x => let '(r, x) := m x in (r, upd_heap <[p := x]> fr)
  end.
Definition retire (x : Ctx A E) : Ctx A E :=
  match stack x with [] => x | d :: st => set_stack (set_isTop false d :: st) x end.
Definition next_ctx (p : nat) (bh : Header) : frM nat :=
  x ← on_ptr p get;
  on_ptr p (modify retire) ;;
  new_ctx (NextContext (header_Hash bh) (HTimestamp bh) x).
Definition NewContext_now : frM nat := fr ← get; new_ctx (NewContext (store_loader (nd_store (fr_node fr)))).
(** A call of the pool, of the queue of waiting transactions and of the expire
    queue. *)
Definition on_pool {V} (m : M TransactionPool V) : frM V := λ fr,
  let '(r, p) := m (fr_pool fr) in (r, upd_txs p (fr_txQ fr) (fr_txWaitQ fr) (fr_txSendQ fr) fr).
Definition on_wait {V} (m : M (LinkedQueue Hash256 (TxMsgItem T)) V) : frM V := λ fr,
  let '(r, q) := m (fr_txWaitQ fr) in (r, upd_txs (fr_pool fr) (fr_txQ fr) q (fr_txSendQ fr) fr).
Definition set_txQ (q : ExpireQueue (TxMsgItem T)) : frM unit :=
  modify (λ fr, upd_txs (fr_pool fr) q (fr_txWaitQ fr) (fr_txSendQ fr) fr).
Definition set_sendQ (f : list (TxMsgItem T) → list (TxMsgItem T)) : frM unit :=
  modify (λ fr, upd_txs (fr_pool fr) (fr_txQ fr) (fr_txWaitQ fr) (f (fr_txSendQ fr)) fr).
Definition the_store : frM (Store T P) := gets (nd_store ∘ fr_node).
Definition fr_Height : frM Z := st ← the_store; lift (st_Height st).
Definition the_cs : frM CState := gets (nd_cs ∘ fr_node).
(** The pool as the provider of known signers. *)
Definition signers_of fr : SignerProvider := λ h, GetSigners h (fr_pool fr).

(** The status of a peer grows. *)
Definition bump (ID : bytes) (h : Z) : gmap (list Z) Z → gmap (list Z) Z := alter (λ old, if old <? h then h else old) ID.

(** [NewFormulatorNode] on a chain. *)
Definition default_config (c : FormulatorConfig) : FormulatorConfig :=
  mkFrConfig (fc_Formulator c) (if fc_MaxTransactionsPerBlock c =? 0 then 7000 else fc_MaxTransactionsPerBlock c).
Definition NewFormulatorNode (nd : Node T P CState) : fnode :=
  mkFormulator nd [] ∅ None 0 0 ∅ ∅ NewRequestTimer NewSortedQueue ∅ NewTransactionPool
    (eq_AddGroup 3600000000000 (eq_AddGroup 600000000000 (eq_AddGroup 60000000000 NewExpireQueue)))
    NewLinkedQueue [] false [] 0 [].

(** ** formulator_node_send.go *)

(** The loop over [sendChan]: a message to the empty hash goes to all. *)
Definition deliver (Target : PublicHash) (m : frmsg T) : frM unit :=
  if bool_decide (Target = replicate PublicHashSize 0) then fr_emit (FoNodes m) else fr_emit (FoNode Target m).
Definition deliver_packet (Target : PublicHash) (bs : bytes) : frM unit :=
  if bool_decide (Target = replicate PublicHashSize 0) then fr_emit (FoBlocksAll bs) else fr_emit (FoBlocks Target bs).
Definition fr_broadcastMessage (m : frmsg T) : frM unit := deliver (replicate PublicHashSize 0) m.

Definition status_now : frM (frmsg T) :=
  st ← the_store;
  '(height, lastHash) ← lift (st_LastStatus st);
  mret (MState (mkStatus (st_version st) height lastHash)).

Definition fr_sendStatusTo (Target : PublicHash) : frM unit :=
  if bool_decide (Target = myPublicHash) then mret tt else m ← status_now; deliver Target m.
Definition fr_broadcastStatus : frM unit :=
  m ← status_now; fr_emit (FoObservers m) ;; fr_broadcastMessage m.

Definition fr_timer_Add (height : Z) (value : bytes) : frM bool :=
  t ← fr_now;
  fr ← get;
  let '(r, rt) := rt_Add height 5000000000 value (u64 t) (fr_timer fr) in
  modify (upd_fr_timer rt) ;; mret r.

Definition fr_sendRequestBlockTo (ID : bytes) (Height Count : Z) : frM unit :=
  fr_emit (FoObserver ID (MAsk (mkRequestMessage Height Count))) ;;
  for_each (λ i, fr_timer_Add (u32 (Height + i)) ID ;; mret tt) (seqZ 0 Count).

Definition sendRequestBlockToNode (Target : PublicHash) (Height Count : Z) : frM unit :=
  if bool_decide (Target = myPublicHash) then mret tt
  else
    h ← fr_Height;
    fr ← get;
    if (Height <=? h) || bool_decide (is_Some (fr_blockWait fr !! Height)) then mret tt
    else for_each (λ i, new ← fr_timer_Add (u32 (Height + i)) Target;
           if (new : bool) then deliver Target (MAsk (mkRequestMessage Height Count)) else mret tt) (seqZ 0 Count).

(** ** Asking for blocks *)

(** The nodes that have the block, one of them at random. *)
Definition tryRequestBlocks : frM unit :=
  h ← fr_Height;
  for_each (λ i,
    let TargetHeight := u32 (u32 (h + 1) + i) in
    fr ← get;
    if rt_Exist TargetHeight (fr_timer fr) then mret tt
    else
      match (filter (λ e, TargetHeight ≤ e.2) (fe_range env (fr_status fr))).*1 with
      | [] => mret tt
      | enables =>
          idx ← fr_random (length enables);
          ID ← lift (of_option (enables !! idx));
          sendRequestBlockToNode (Common.copy (replicate PublicHashSize 0) ID) TargetHeight 1
      end) (seqZ 0 10).

(** The first observer that has the next block, unless the block is here. *)
Definition tryRequestNext : frM unit :=
  h ← fr_Height;
  let TargetHeight := u32 (h + 1) in
  fr ← get;
  if match fr_gens fr !! TargetHeight with
     | Some item => ge_Recv item && bool_decide (is_Some (ge_BlockGen item))
     | None => false
     end then mret tt
  else if rt_Exist TargetHeight (fr_timer fr) then mret tt
  else match sq_Find TargetHeight (fr_blockQ fr) with
       | Some _ => mret tt
       | None =>
           match filter (λ e : list Z * Z, TargetHeight ≤ e.2) (fe_range env (fr_obStatus fr)) with
           | [] => mret tt
           | (ID, _) :: _ => if (0 <? length ID)%nat then fr_sendRequestBlockTo ID TargetHeight 1 else mret tt
           end
       end.
End FormulatorNode.
