(* ===== verification/FormulatorHandle.v ===== *)
(** * pof: what a formulator does

    The transactions that are checked and passed on, the blocks that are
    connected, the generation of blocks and one handler per kind of message:
    formulator_node.go, formulator_node_observer.go and
    formulator_node_peer.go. *)

From S2P Require Import Prelude Tokens Common Context Block Store Chain Search SortedQueue LinkedQueue ExpireQueue TxPool Rank Pof RequestTimer Observer ObserverHandle ObserverOnChain FormulatorNode.

Section FormulatorHandle.
Context {A E T P : Type} `{AI : AccountI A} `{EI : EventI E} `{B58 : Base58} `{HF : HashFn}.
Context `{EH : !EncodingHash A E} `{SC : !StoreCodec A E T} `{PI : !PileI P} `{TC : !TxCodec T}.
Context `{TX : !TransactionI T A E} `{RC : Recover} `{FI : FormulatorI A} `{TK : TokenCodec}.
Context (BlockSign_Hash : Hash256 → Signature → Hash256) (cn : Chain A E T) (cpus : nat) (pick : error → list error → error).
Context (config : FormulatorConfig) (myPublicHash frPublicHash : PublicHash) (key_Sign : Hash256 → res Signature).
Context (env : FEnv).

Abbreviation fnode := (FormulatorNode A E T P).
Abbreviation frM := (M (FormulatorNode A E T P)).
Abbreviation cons := (pof_Consensus BlockSign_Hash).
Implicit Types (fr : fnode).

(** ** Transactions *)

(** [slot < currentSlot-1] or [slot > currentSlot+10], once there is a block. *)
Definition out_of_window (currentSlot slot : Z) : bool :=
  (0 <? currentSlot) && ((slot <? u32 (currentSlot - 1)) || (u32 (currentSlot + 10) <? slot)).
Definition slot_of_tx (tx : T) : Z := ToTimeSlot (tx_Timestamp tx).
Definition last_slot : frM Z := st ← the_store; t ← lift (st_LastTimestamp st); mret (ToTimeSlot t).

(** The item of the expire queue has no hash. *)
Definition addTx (TxHash : Hash256) (t : Z) (tx : T) (sigs : list Signature) : frM unit :=
  fr ← get;
  guard_err (IsExist TxHash (fr_pool fr)) ErrExistTransaction ;;
  signers ← lift (recover_all TxHash sigs);
  lift (getProcess cn (pid_of t)) ;;
  lift (tx_Validate tx (pid_of t) signers (NewContext (store_loader (nd_store (fr_node fr))))).1 ;;
  on_pool (tp_Push tx_Timestamp t TxHash tx sigs signers) ;;
  now ← fr_now env;
  fr ← get;
  q ← lift (eq_Push now TxHash (mkTxMsg (replicate Hash256Size 0) t tx sigs []) (fr_txQ fr));
  set_txQ q.

Definition fr_AddTx (tx : T) (sigs : list Signature) : frM unit :=
  currentSlot ← last_slot;
  guard_err (out_of_window currentSlot (slot_of_tx tx)) ErrInvalidTransactionTimeSlot ;;
  t ← lift (tx_TypeOf tx);
  st ← the_store;
  TxHash ← lift (HashTransactionByType (st_chainID st) t tx);
  guard_err (st_HasTimeSlot (slot_of_tx tx) TxHash st) ErrUsedTimeSlot ;;
  addTx TxHash t tx sigs ;;
  set_sendQ (.++ [mkTxMsg TxHash t tx sigs []]).

(** The errors that are not the fault of the peer. *)
Definition forgiven (e : error) : bool :=
  bool_decide (e ∈ [ErrInvalidUTXO; ErrExistTransaction; ErrTransactionPoolOverflowed; ErrUsedTimeSlot; ErrInvalidTransactionTimeSlot]).

Definition work_item (currentSlot : Z) (item : TxMsgItem T) : frM unit :=
  let slot := slot_of_tx (tm_Tx item) in
  if out_of_window currentSlot slot then mret tt
  else
    st ← the_store;
    if st_HasTimeSlot slot (tm_TxHash item) st then mret tt
    else
      r ← try (addTx (tm_TxHash item) (tm_Type item) (tm_Tx item) (tm_Sigs item));
      match r with
      | inl _ => set_sendQ (.++ [item])
      | inr e => if negb (forgiven e) && (0 <? length (tm_PeerID item))%nat then fr_emit (FoBadPoint (tm_PeerID item)) else mret tt
      end.

(** One round of a worker: [count] is what is left of it; the item at which
    the count ends the round is taken from the queue before. *)
Fixpoint work_loop (count : nat) (currentSlot : Z) : frM unit :=
  v ← on_wait lq_Pop;
  match v with
  | None => mret tt
  | Some item =>
      match count with
      | O => mret tt
      | S count => work_item currentSlot item ;; work_loop count currentSlot
      end
  end.
Definition tx_worker : frM unit := currentSlot ← last_slot; work_loop 500 currentSlot.

(** The transactions of one message to the nodes. *)
Fixpoint collect_txs (cid currentSlot : Z) (msg : list (TransactionMessage T)) (l : list (TxMsgItem T))
    : list (TransactionMessage T) * list (TxMsgItem T) :=
  match l with
  | [] => (msg, [])
  | m :: l =>
      if out_of_window currentSlot (slot_of_tx (tm_Tx m)) then collect_txs cid currentSlot msg l
      else
        let msg := msg ++ [mkTxMessage cid (tm_Type m) (tm_Tx m) (tm_Sigs m) []] in
        if (800 <=? length msg)%nat then (msg, l) else collect_txs cid currentSlot msg l
  end.
Definition tx_sender : frM unit :=
  if fe_hasPeer env then
    st ← the_store;
    currentSlot ← last_slot;
    fr ← get;
    let '(msg, rest) := collect_txs (st_chainID st) currentSlot [] (fr_txSendQ fr) in
    set_sendQ (λ _, rest) ;;
    if (0 <? length msg)%nat then fr_broadcastMessage (MTxs msg) else mret tt
  else mret tt.

Definition OnItemExpired (item : TxMsgItem T) (IsLast : bool) : frM unit :=
  currentSlot ← last_slot;
  if out_of_window currentSlot (slot_of_tx (tm_Tx item)) then mret tt
  else
    set_sendQ (.++ [item]) ;;
    if IsLast then on_pool (tp_Remove tx_Timestamp (tm_TxHash item) (tm_Tx item)) else mret tt.

(** A message with transactions: those that are neither known nor waiting. *)
Definition take_txs (PeerID : bytes) (ms : list (TransactionMessage T)) : frM unit :=
  st ← the_store;
  for_each (λ v : TransactionMessage T,
    TxHash ← (if (0 <? length (xm_raw v))%nat then mret (Hash (xm_raw v))
              else lift (HashTransactionByType (st_chainID st) (xm_Type v) (xm_Tx v)));
    fr ← get;
    if lq_Has TxHash (fr_txWaitQ fr) || IsExist TxHash (fr_pool fr) then mret tt
    else on_wait (lq_Push TxHash (mkTxMsg TxHash (xm_Type v) (xm_Tx v) (xm_Signatures v) PeerID)) ;; mret tt) ms.

(** ** Blocks *)

Definition fr_addBlock (b : Block T) : frM unit :=
  fr ← get;
  let st := nd_store (fr_node fr) in
  height ← lift (st_Height st);
  if HHeight (BHeader b) <=? height then
    h ← lift (st_Hash (HHeight (BHeader b)) st);
    guard_err (negb (bool_decide (h = header_Hash (BHeader b)))) ErrFoundForkedBlock
  else
    let '(item, q) := FindOrInsert (Some b) (HHeight (BHeader b)) (fr_blockQ fr) in
    modify (upd_blocks q id) ;;
    match item with
    | Some old => guard_err (negb (bool_decide (header_Hash (BHeader old) = header_Hash (BHeader b)))) ErrFoundForkedBlock
    | None => mret tt
    end ;;
    modify (upd_blocks q <[HHeight (BHeader b) := true]>).

Definition cleanPool (b : Block T) : frM unit :=
  st ← the_store;
  for_each (λ e : nat * T,
    t ← lift (of_option (TransactionTypes b !! e.1));
    TxHash ← lift (HashTransactionByType (st_chainID st) t e.2);
    on_pool (tp_Remove tx_Timestamp TxHash e.2) ;;
    fr ← get;
    set_txQ (eq_Remove TxHash (fr_txQ fr))) (imap pair (Transactions b)).

(** The transactions of slots that are over leave the pool. *)
Definition expirePool (b : Block T) : frM unit :=
  txs ← on_pool (λ p, let '(txs, p') := Clean (fe_slots env _ (tp_slotMap p)) (ToTimeSlot (HTimestamp (BHeader b))) p in (Ok txs, p'));
  fr_emit (FoExpired txs).

Definition fr_ConnectBlock (b : Block T) : frM unit := λ fr,
  let '(r, nd) := ConnectBlock cpus pick cons cn b (Some (signers_of fr)) (fr_node fr) in (r, upd_node nd fr).

Definition set_ge_context (p : option nat) (item : genItem T) : genItem T :=
  mkGenItem (ge_BlockGen item) (ge_ObSign item) p (ge_Recv item).

(** On a context, which it changes. *)
Definition fr_ConnectWithContext (p : nat) (b : Block T) : frM unit := λ fr,
  match fr_heap fr !! p with
  | None => (Panic, fr)
  | Some x =>
      let '(r, (nd, x)) := ConnectBlockWithContext BlockSign_Hash cn b (fr_node fr, x) in
      (r, upd_heap <[p := x]> (upd_node nd fr))
  end.
Definition fr_Execute (b : Block T) (p : nat) : frM unit :=
  fr ← get;
  on_ptr p (executeBlockOnContext cpus pick cn (st_chainID (nd_store (fr_node fr))) b (Some (signers_of fr))).

(** *** The loop over the queue of blocks *)

(** With the context of the entry when the generator is the same; if that
    fails, or there is none, in full. *)
Definition connect_queued (b : Block T) : frM unit :=
  let h := HHeight (BHeader b) in
  fr ← get;
  connected ← (match fr_gens fr !! h with
               | Some gi =>
                   match ge_BlockGen gi, ge_Context gi with
                   | Some g, Some p =>
                       if bool_decide (Generator (BHeader (bg_Block g)) = Generator (BHeader b)) then
                         r ← try (fr_ConnectWithContext p b);
                         match r with inl _ => mret true | inr _ => mret false end
                       else mret false
                   | _, _ => mret false
                   end
               | None => mret false
               end);
  if (connected : bool) then mret tt else fr_ConnectBlock b.

Definition forget_request (b : Block T) : frM unit :=
  fr ← get;
  match fr_lastReq fr with
  | Some r =>
      if (HHeight (BHeader b) <=? u32 (bq_TargetHeight r + cs_max (nd_cs (fr_node fr)))) &&
         negb (bool_decide (Generator (BHeader b) = fc_Formulator config))
      then modify (upd_lastReq None) else mret tt
  | None => mret tt
  end.

(** At most eleven blocks; a block that can not be connected is dropped and
    ends the loop. *)
Fixpoint queue_loop (fuel : nat) (TargetHeight : Z) (item : option (Block T)) (hasItem : bool) : frM bool :=
  match item with
  | None => mret hasItem
  | Some b =>
      r ← try (connect_queued b);
      match r with
      | inr _ => mret hasItem
      | inl _ =>
          modify (λ fr, upd_blocks (fr_blockQ fr) (delete (HHeight (BHeader b))) fr) ;;
          cleanPool b ;;
          expirePool b ;;
          forget_request b ;;
          modify (upd_gens (delete (HHeight (BHeader b)))) ;;
          match fuel with
          | O => mret hasItem
          | S fuel =>
              fr ← get;
              let '(item, q) := PopUntil (TargetHeight + 1) (fr_blockQ fr) in
              modify (upd_blocks q id) ;;
              queue_loop fuel (TargetHeight + 1) item true
          end
      end
  end.

Definition run_round : frM unit :=
  h ← fr_Height;
  fr ← get;
  let '(item, q) := PopUntil (u32 (h + 1)) (fr_blockQ fr) in
  modify (upd_blocks q id) ;;
  hasItem ← queue_loop 10 (u32 (h + 1)) item false;
  if (hasItem : bool) then fr_broadcastStatus ;; tryRequestBlocks myPublicHash env else mret tt.

(** *** updateByGenItem *)

(** The context for the entry of the height [h], when there is one. *)
Definition follow_ctx (h : Z) (p : nat) (bh : Header) (ctx : option nat) : frM (option nat) :=
  fr ← get;
  if bool_decide (is_Some (fr_gens fr !! h)) then p ← next_ctx p bh; mret (Some p) else mret ctx.

(** Contexts are prepared for the blocks that wait for their signatures: on
    every context that is made, the block [first] of the first entry is
    executed. *)
Fixpoint prepare (fuel : nat) (first : BlockGenMessage T) (h : Z) (ctx : option nat) : frM unit :=
  match fuel with
  | O => mret tt
  | S fuel =>
      fr ← get;
      match fr_gens fr !! h with
      | None => mret tt
      | Some target =>
          match ge_BlockGen target with
          | None => mret tt
          | Some g =>
              match ge_Context target with
              | Some p =>
                  ctx ← follow_ctx (u32 (h + 1)) p (BHeader (bg_Block g)) ctx;
                  prepare fuel first (u32 (h + 1)) ctx
              | None =>
                  p ← (match ctx with Some p => mret p | None => NewContext_now end);
                  r ← try (fr_Execute (bg_Block first) p);
                  match r with
                  | inr _ => mret tt
                  | inl _ =>
                      modify (upd_gens (alter (set_ge_context (Some p)) h)) ;;
                      ctx ← follow_ctx (u32 (h + 1)) p (BHeader (bg_Block g)) (Some p);
                      prepare fuel first (u32 (h + 1)) ctx
                  end
              end
          end
      end
  end.

Definition fr_signed_block (g : BlockGenMessage T) (s : BlockObSignMessage) : Block T :=
  signed_block g (bo_ObserverSignatures s).

(** The blocks that have their signatures are connected one after the other. *)
Fixpoint update_loop (fuel : nat) (TargetHeight : Z) : frM unit :=
  match fuel with
  | O => mret tt
  | S fuel =>
      fr ← get;
      match fr_gens fr !! TargetHeight with
      | None => mret tt
      | Some item =>
          match ge_BlockGen item, ge_ObSign item with
          | None, _ => mret tt
          | Some g, None => prepare (S (size (fr_gens fr))) g TargetHeight None
          | Some g, Some s =>
              let b := fr_signed_block g s in
              r ← try (match ge_Context item with Some p => fr_ConnectWithContext p b | None => fr_ConnectBlock b end);
              match r with
              | inr _ => modify (upd_gens (delete (HHeight (BHeader b)))) ;; spawn TRequestBlocks
              | inl _ =>
                  fr_broadcastStatus ;;
                  cleanPool b ;;
                  modify (upd_gens (delete (HHeight (BHeader b)))) ;;
                  expirePool b ;;
                  update_loop fuel (u32 (TargetHeight + 1))
              end
          end
      end
  end.
Definition updateByGenItem : frM unit :=
  h ← fr_Height;
  fr ← get;
  update_loop (S (size (fr_gens fr))) (u32 (h + 1)).
End FormulatorHandle.
