(* ===== verification/FormulatorEvents.v ===== *)
(** * pof: the generation of blocks and the steps of a formulator

    formulator_node_observer.go and formulator_node_peer.go: [genBlock], the
    handlers of the messages of observers and of nodes, the tasks and the
    events of a node. *)

From S2P Require Import Prelude Tokens Common Context Block Store Chain Search SortedQueue LinkedQueue ExpireQueue TxPool Rank Pof RequestTimer Observer ObserverHandle ObserverOnChain FormulatorNode FormulatorHandle.

Section FormulatorEvents.
Context {A E T P : Type} `{AI : AccountI A} `{EI : EventI E} `{B58 : Base58} `{HF : HashFn}.
Context `{EH : !EncodingHash A E} `{SC : !StoreCodec A E T} `{PI : !PileI P} `{TC : !TxCodec T}.
Context `{TX : !TransactionI T A E} `{RC : Recover} `{FI : FormulatorI A} `{TK : TokenCodec}.
Context (BlockSign_Hash : Hash256 → Signature → Hash256) (cn : Chain A E T) (cpus : nat) (pick : error → list error → error).
Context (config : FormulatorConfig) (myPublicHash frPublicHash : PublicHash) (key_Sign : Hash256 → res Signature).
Context (env : FEnv).

Abbreviation fnode := (FormulatorNode A E T P).
Abbreviation frM := (M (FormulatorNode A E T P)).
Implicit Types (fr : fnode).

(** ** genBlock *)

(** The limit of the machine on the transactions of a block. *)
Definition cpu_limit (MaxTx : Z) : Z :=
  match cpus with
  | 4%nat | 5%nat => Z.min MaxTx 3000
  | 6%nat | 7%nat => Z.min MaxTx 3500
  | 8%nat => Z.min MaxTx 4300
  | _ => MaxTx
  end.

(** What [genBlock] fixes before its loop. *)
Definition start_generation (ID : bytes) (req : BlockReqMessage) : frM Generation :=
  cs ← the_cs;
  let RemainBlocks := if bq_TimeoutCount req =? 0 then u32 (cs_max cs - cs_blocks cs) else cs_max cs in
  fr_now env ;;
  t ← fr_now env;
  let Now := u64 t in
  let EndBlockTime := u64 (Now + u64 (500000000 * RemainBlocks)) in
  st ← the_store;
  LastTimestamp ← lift (st_LastTimestamp st);
  let StartBlockTime := if Now <? LastTimestamp then u64 (LastTimestamp + 1000000) else Now in
  fr ← get;
  let EvenTxPerBlock := fe_even env (Z.of_nat (tp_Size (fr_pool fr))) RemainBlocks in
  let MaxTxPerBlock := cpu_limit (Z.min (fc_MaxTransactionsPerBlock config) EvenTxPerBlock) in
  p ← NewContext_now;
  mret (mkGeneration ID req 0 RemainBlocks StartBlockTime EndBlockTime MaxTxPerBlock (MaxTxPerBlock `quot` 2) p None).

(** The time of the block: after the last block of its context. *)
Definition block_time (g : Generation) (x : Ctx A E) : Z :=
  let Timestamp := u64 (gs_Start g + u64 (gs_i g * 500000000)) in
  let Timestamp := if gs_End g <? Timestamp then gs_End g else Timestamp in
  if Timestamp <=? genTimestamp x then u64 (genTimestamp x + 1) else Timestamp.

(** The creator works on a shared context. *)
Definition on_creator {V} (p : nat) (hashes : list Hash256) (b : Block T) (m : M (BlockCreator A E T) V)
    : frM (V * (list Hash256 * Block T)) := λ fr,
  match fr_heap fr !! p with
  | None => (Panic, fr)
  | Some x =>
      let '(r, bc) := m (mkCreator x hashes b) in
      (match r with Ok v => Ok (v, (bc_txHashes bc, bc_b bc)) | Err e => Err e | Panic => Panic end,
       upd_heap <[p := bc_ctx bc]> fr)
  end.

(** Transactions out of the pool into the block, until the timer fires, the
    pool has no more, or the block has more than [MaxTx]. *)
Fixpoint tx_loop (fuel : nat) (p : nat) (currentSlot MaxTx Count : Z) (hb : list Hash256 * Block T)
    : frM (list Hash256 * Block T) :=
  match fuel with
  | O => mret hb
  | S fuel =>
      sn ← on_ptr p Snapshot;
      item ← on_pool (UnsafePop currentSlot);
      on_ptr p (Revert sn) ;;
      match item with
      | None => mret hb
      | Some it =>
          let add := UnsafeAddTx cn (fc_Formulator config) (pi_TxType it) (pi_TxHash it) (pi_Transaction it) (pi_Signatures it) (pi_Signers it) in
          r ← on_creator p hb.1 hb.2 (try add);
          match r with
          | (inr _, hb) => tx_loop fuel p currentSlot MaxTx Count hb
          | (inl _, hb) => if MaxTx <? Count + 1 then mret hb else tx_loop fuel p currentSlot MaxTx (Count + 1) hb
          end
      end
  end.

(** One block: its context, its time, its transactions, its signature; it goes
    to the observer that asked and into the map. *)
Definition gen_one (g : Generation) : frM Generation :=
  let req := gs_req g in
  p ← (if gs_i g =? 0 then mret (gs_ctx g)
       else bh ← lift (of_option (gs_last g)); next_ctx (gs_ctx g) bh);
  let TimeoutCount := if gs_i g =? 0 then bq_TimeoutCount req else 0 in
  x ← on_ptr p get;
  let Timestamp := block_time g x in
  let bc := NewBlockCreator x (bq_Formulator req) (encodeConsensusData TimeoutCount) Timestamp in
  r ← on_creator p (bc_txHashes bc) (bc_b bc) (BC_Init cn);
  let MaxTx := if u32 (gs_Remain g - 2) <=? gs_i g then gs_HalfTx g else gs_MaxTx g in
  hb ← tx_loop (fe_loop env) p (ToTimeSlot Timestamp) MaxTx 0 r.2;
  r ← on_creator p hb.1 hb.2 (Finalize cn);
  let b := r.1 in
  sig ← lift (key_Sign (header_Hash (BHeader b)));
  let sm := mkBlockGen b sig false in
  fr_emit (FoObserver (gs_ID g) (MGen sm)) ;;
  modify (upd_gens <[HHeight (BHeader b) := mkGenItem (Some sm) None (Some p) false]>) ;;
  x ← on_ptr p get;
  t ← fr_now env;
  modify (upd_lastGen (genTargetHeight x) t) ;;
  mret (mkGeneration (gs_ID g) req (gs_i g + 1) (gs_Remain g) (gs_Start g) (gs_End g) MaxTx (gs_HalfTx g) p (Some (BHeader b))).

Definition set_generating (b : bool) : frM unit := modify (upd_tasks b id).

(** The loop: one block, then the locks are given up and the goroutine waits
    for the time of the next one. *)
Definition gen_step (g : Generation) : frM unit :=
  if gs_i g <? gs_Remain g then
    r ← try (gen_one g);
    match r with
    | inl g => spawn (TGenNext g)
    | inr e => set_generating false ;; fail e
    end
  else set_generating false.

Definition genBlock (ID : bytes) (req : BlockReqMessage) : frM unit :=
  set_generating true ;;
  r ← try (start_generation ID req);
  match r with
  | inl g => gen_step g
  | inr e => set_generating false ;; fail e
  end.

(** ** Messages of observers *)

(** [BlockReqMessage]: the request is for the next block, or soon will be. *)
Definition handle_BlockReq (ID : bytes) (msg : BlockReqMessage) (RetryCount : nat) : frM unit :=
  h ← fr_Height;
  let TargetHeight := u32 (h + 1) in
  if bq_TargetHeight msg <? TargetHeight then mret tt
  else
    fr ← get;
    recent ← (if bq_TargetHeight msg <=? fr_lastGenHeight fr then
                t ← fr_now env;
                if t <? i64 (fr_lastGenTime fr + 30000000000) then mret true else modify (upd_lastReq None) ;; mret false
              else mret false);
    if (recent : bool) then mret tt
    else
      fr ← get;
      if match fr_lastReq fr with Some r => bq_TargetHeight msg <=? bq_TargetHeight r | None => false end then mret tt
      else if TargetHeight <? bq_TargetHeight msg then
        if (u32 (TargetHeight + 10) <? bq_TargetHeight msg) || (10 <=? RetryCount)%nat then mret tt
        else
          (if (RetryCount =? 0)%nat then
             fr_emit (FoObserver ID (MAsk (mkRequestMessage TargetHeight (Z.min (u8 (bq_TargetHeight msg - TargetHeight)) 10))))
           else mret tt) ;;
          spawn (TRetry ID msg (S RetryCount))
      else
        guard_err (negb (bool_decide (bq_Formulator msg = fc_Formulator config))) ErrInvalidRequest ;;
        guard_err (negb (bool_decide (bq_FormulatorPublicHash msg = frPublicHash))) ErrInvalidRequest ;;
        st ← the_store;
        last ← lift (st_LastHash st);
        guard_err (negb (bool_decide (bq_PrevHash msg = last))) ErrInvalidRequest ;;
        cs ← the_cs;
        Top ← lift (TopRank (Z.to_nat (bq_TimeoutCount msg)) (cs_rt cs));
        guard_err (negb (bool_decide (bq_Formulator msg = rk_Address Top))) ErrInvalidRequest ;;
        modify (upd_lastReq (Some msg)) ;;
        spawn (TGen ID msg).

(** A block that another formulator, or this one, has generated. *)
Definition handle_Gen (msg : BlockGenMessage T) : frM unit :=
  let bh := BHeader (bg_Block msg) in
  h ← fr_Height;
  if HHeight bh <? u32 (h + 1) then mret tt
  else
    (if bool_decide (Generator bh = fc_Formulator config) then mret tt else modify (upd_lastReq None)) ;;
    fr ← get;
    match fr_gens fr !! HHeight bh with
    | Some item =>
        guard_err (match ge_ObSign item with
                   | Some s => negb (bool_decide (bo_HeaderHash s = header_Hash bh))
                   | None => false
                   end) ErrInvalidRequest ;;
        modify (upd_gens <[HHeight bh := mkGenItem (Some msg) (ge_ObSign item) (ge_Context item) true]>)
    | None => modify (upd_gens <[HHeight bh := mkGenItem (Some msg) None None true]>)
    end ;;
    spawn TUpdate.

(** The signatures of the observers for a block. *)
Definition handle_ObSign (ID : bytes) (msg : BlockObSignMessage) : frM unit :=
  h ← fr_Height;
  if bo_TargetHeight msg <? u32 (h + 1) then mret tt
  else
    fr ← get;
    modify (upd_gens <[bo_TargetHeight msg :=
      match fr_gens fr !! bo_TargetHeight msg with
      | Some item =>
          match ge_BlockGen item with
          | Some g => if bool_decide (bo_HeaderHash msg = header_Hash (BHeader (bg_Block g)))
                      then mkGenItem (ge_BlockGen item) (Some msg) (ge_Context item) (ge_Recv item)
                      else mkGenItem None (Some msg) None (ge_Recv item)
          | None => mkGenItem None (Some msg) (ge_Context item) (ge_Recv item)
          end
      | None => mkGenItem None (Some msg) None false
      end]>) ;;
    modify (upd_obStatus (bump ID (bo_TargetHeight msg))) ;;
    spawn TUpdate.

(** The first block of the message is read before anything else. *)
Definition handle_ObBlocks (ID : bytes) (Blocks : list (Block T)) : frM unit :=
  match Blocks with
  | [] => panic
  | _ =>
      for_each (λ b, r ← try (fr_addBlock b);
        match r with
        | inl _ => mret tt
        | inr e => if bool_decide (e = ErrFoundForkedBlock) then panic else fail e
        end) Blocks ;;
      modify (upd_obStatus (match last Blocks with Some b => bump ID (HHeight (BHeader b)) | None => id end)) ;;
      tryRequestNext env
  end.

Definition fr_handleObserverMessage (ID : bytes) (m : frmsg T) (RetryCount : nat) : frM unit :=
  match m with
  | MReq msg => handle_BlockReq ID msg RetryCount
  | MGen msg => handle_Gen msg
  | MObSign msg => handle_ObSign ID msg
  | MBlocks Blocks => handle_ObBlocks ID Blocks
  | MState msg => modify (upd_obStatus (bump ID (sm_Height msg))) ;; tryRequestNext env
  | MTxs ms => take_txs [] ms
  | MAsk _ | MPeerList _ _ | MRequestPeerList | MUnknown => panic
  end.

(** ** Messages of nodes *)

Definition handle_PeerRequest (ID : bytes) (msg : RequestMessage) : frM unit :=
  fr ← get;
  let from := match fr_status fr !! ID with
              | Some h =>
                  if (rm_Height msg <? h) && (u32 (rm_Height msg + rm_Count msg) <=? h) then None
                  else Some (if rm_Height msg <? h then h else rm_Height msg)
              | None => Some (rm_Height msg)
              end in
  match from with
  | None => mret tt
  | Some from =>
      let m := mkRequestMessage from (clamp_count (rm_Count msg)) in
      h ← fr_Height;
      if h <? rm_Height m then mret tt
      else
        bs ← lift (fe_packet env m);
        deliver_packet (Common.copy (replicate PublicHashSize 0) ID) bs
  end.

Definition handle_PeerStatus (ID : bytes) (msg : StatusMessage) : frM unit :=
  modify (upd_nodeStatus (bump ID (sm_Height msg))) ;;
  h ← fr_Height;
  if h <? sm_Height msg then tryRequestBlocks myPublicHash env
  else
    st ← the_store;
    hash ← lift (st_Hash (sm_Height msg) st);
    if bool_decide (hash = sm_LastHash msg) then mret tt else fr_emit (FoRemovePeer ID).

Definition handle_PeerBlocks (ID : bytes) (Blocks : list (Block T)) : frM unit :=
  match Blocks with
  | [] => panic
  | _ =>
      for_each (λ b, r ← try (fr_addBlock b);
        match r with
        | inl _ => mret tt
        | inr e => (if bool_decide (e = ErrFoundForkedBlock) then fr_emit (FoRemovePeer ID) else mret tt) ;; fail e
        end) Blocks ;;
      modify (upd_nodeStatus (match last Blocks with Some b => bump ID (HHeight (BHeader b)) | None => id end))
  end.

Definition handle_PeerTxs (ID : bytes) (ms : list (TransactionMessage T)) : frM unit :=
  guard_err (800 <? length ms)%nat ErrTooManyTrasactionInMessage ;;
  currentSlot ← last_slot;
  take_txs ID (filter (λ v, out_of_window currentSlot (slot_of_tx (xm_Tx v)) = false) ms).

Definition handlePeerMessage (ID : bytes) (m : frmsg T) : frM unit :=
  match m with
  | MAsk msg => handle_PeerRequest ID msg
  | MState msg => handle_PeerStatus ID msg
  | MBlocks Blocks => handle_PeerBlocks ID Blocks
  | MTxs ms => handle_PeerTxs ID ms
  | MPeerList Ips Hashs => fr_emit (FoAddPeerList Ips Hashs)
  | MRequestPeerList => fr_emit (FoSendPeerList ID)
  | MReq _ | MGen _ | MObSign _ | MUnknown => panic
  end.

(** ** Steps *)

Definition status_to (ID : bytes) : frM unit := m ← status_now; fr_emit (FoObserver ID m).
Definition OnObserverConnected (ID : bytes) : frM unit :=
  modify (upd_obStatus <[ID := 0]>) ;; status_to ID.
Definition OnObserverDisconnected (ID : bytes) : frM unit :=
  modify (upd_obStatus (delete ID)) ;;
  modify (λ fr, upd_fr_timer (rt_RemovesByValue ID (fr_timer fr)) fr) ;;
  spawn TRequestNext.
Definition OnConnected (ID : bytes) : frM unit :=
  modify (upd_nodeStatus <[ID := 0]>) ;;
  m ← status_now; fr_emit (FoNode (Common.copy (replicate PublicHashSize 0) ID) m).
Definition OnDisconnected (ID : bytes) : frM unit :=
  modify (upd_nodeStatus (delete ID)) ;;
  modify (λ fr, upd_fr_timer (rt_RemovesByValue ID (fr_timer fr)) fr) ;;
  spawn TRequestBlocks.

(** The timer of requests of a formulator is made without a handler, so that
    nothing calls this. *)
Definition fr_OnTimerExpired : frM unit := spawn TRequestBlocks.

(** The goroutine that generates holds [genLock]: another one waits. *)
Definition run_gen (ID : bytes) (req : BlockReqMessage) : frM unit :=
  fr ← get;
  if fr_generating fr then spawn (TGen ID req)
  else
    h ← fr_Height;
    if bq_TargetHeight req <? u32 (h + 1) then mret tt
    else if match fr_lastReq fr with Some r => bq_TargetHeight req <? bq_TargetHeight r | None => false end then mret tt
    else genBlock ID req.

Definition run_task (t : task) : frM unit :=
  match t with
  | TRetry ID m n => handle_BlockReq ID m n
  | TGen ID req => run_gen ID req
  | TGenNext g =>
      fr ← get;
      match fr_lastReq fr with
      | None => set_generating false
      | Some _ => gen_step g
      end
  | TUpdate => updateByGenItem BlockSign_Hash cn cpus pick env
  | TRequestBlocks => tryRequestBlocks myPublicHash env
  | TRequestNext => tryRequestNext env
  end.

Inductive fr_event :=
  | FvObserver (ID : bytes) (m : frmsg T)
  | FvPeer (ID : bytes) (m : frmsg T)
  | FvObserverUp (ID : bytes) | FvObserverDown (ID : bytes)
  | FvPeerUp (ID : bytes) | FvPeerDown (ID : bytes)
  | FvTask (i : nat)
  | FvWorker | FvSender | FvRequests | FvRound
  | FvAddTx (tx : T) (sigs : list Signature)
  | FvExpired (item : TxMsgItem T) (IsLast : bool)
  | FvTimer.

(** A peer whose message fails is dropped. *)
Definition fr_run (ev : fr_event) : frM unit :=
  match ev with
  | FvObserver ID m => r ← try (fr_handleObserverMessage ID m 0); mret tt
  | FvPeer ID m =>
      r ← try (handlePeerMessage ID m);
      match r with inl _ => mret tt | inr _ => fr_emit (FoRemovePeer ID) end
  | FvObserverUp ID => OnObserverConnected ID
  | FvObserverDown ID => OnObserverDisconnected ID
  | FvPeerUp ID => OnConnected ID
  | FvPeerDown ID => OnDisconnected ID
  | FvTask i =>
      fr ← get;
      match fr_tasks fr !! i with
      | Some t => modify (upd_tasks (fr_generating fr) (delete i)) ;; r ← try (run_task t); mret tt
      | None => mret tt
      end
  | FvWorker => tx_worker cn env
  | FvSender => tx_sender env
  | FvRequests => tryRequestBlocks myPublicHash env ;; tryRequestNext env
  | FvRound => run_round BlockSign_Hash cn cpus pick config myPublicHash env
  | FvAddTx tx sigs => fr_AddTx cn env tx sigs
  | FvExpired item IsLast => OnItemExpired item IsLast
  | FvTimer => fr_OnTimerExpired
  end.
End FormulatorEvents.
