(* ===== verification/FormulatorGrows.v ===== *)
(** * pof: the contexts of a formulator keep their place in the chain

    The height, the hash and the time a context builds on are fixed when it is
    made: nothing that is done to a context changes them.  So no step of a
    formulator changes them for any of the contexts the node holds, the ones
    shared with the goroutine that generates blocks included. *)

From S2P Require Import Prelude Tokens Common Context Block Store Chain Search SortedQueue LinkedQueue ExpireQueue TxPool Rank Pof RequestTimer Observer ObserverHandle ObserverOnChain FormulatorNode FormulatorHandle FormulatorEvents.

Section Grows.
Context {A E T P : Type} `{AI : AccountI A} `{EI : EventI E} `{B58 : Base58} `{HF : HashFn}.
Context `{EH : !EncodingHash A E} `{SC : !StoreCodec A E T} `{PI : !PileI P} `{TC : !TxCodec T}.
Context `{TX : !TransactionI T A E} `{RC : Recover} `{FI : FormulatorI A} `{TK : TokenCodec}.

(** ** One context *)

(** What a context builds on. *)
Definition base (x : Ctx A E) : Z * Hash256 * Z := (genTargetHeight x, genLastHash x, genTimestamp x).
Definition steady {V} (m : M (Ctx A E) V) : Prop := ∀ v, keeps (λ x, base x = v) m.

Lemma steady_step {V} (m : M (Ctx A E) V) : (∀ x, base (m x).2 = base x) → steady m.
Proof. intros H v x <-. apply H. Qed.
Lemma steady_eq {V} (m : M (Ctx A E) V) x : steady m → base (m x).2 = base x.
Proof. intros H. by apply (H (base x) x). Qed.
Lemma steady_ret {V} (v : V) : steady (mret v).
Proof. intros w. apply keeps_ret. Qed.
Lemma steady_bind {V W} (m : M (Ctx A E) V) (f : V → M (Ctx A E) W) : steady m → (∀ v, steady (f v)) → steady (m ≫= f).
Proof. intros Hm Hf w. apply keeps_bind; [apply Hm|]. intros v. apply Hf. Qed.
Lemma steady_try {V} (m : M (Ctx A E) V) : steady m → steady (try m).
Proof. intros Hm w. apply keeps_try, Hm. Qed.
Lemma steady_for_each {V} (f : V → M (Ctx A E) unit) l : (∀ v, steady (f v)) → steady (for_each f l).
Proof. intros Hf w. apply keeps_for_each. intros v. apply Hf. Qed.
Lemma steady_lift {V} (r : res V) : steady (lift r).
Proof. intros w. apply keeps_lift. Qed.
Lemma steady_guard b e : steady (guard_err b e).
Proof. intros w. apply keeps_guard. Qed.
Lemma steady_fail {V} e : steady (fail e : M (Ctx A E) V).
Proof. intros w. apply keeps_fail. Qed.
Lemma steady_panic {V} : steady (panic : M (Ctx A E) V).
Proof. intros w. apply keeps_panic. Qed.
Lemma steady_gets {V} (f : Ctx A E → V) : steady (gets f).
Proof. intros w. apply keeps_gets. Qed.
Lemma steady_get : steady get.
Proof. intros w x. done. Qed.

Lemma steady_Snapshot : steady Snapshot.
Proof. apply steady_step. intros x. unfold Snapshot. by case_match. Qed.
Lemma steady_Revert sn : steady (Revert sn).
Proof. apply steady_step. intros x. unfold Revert. case_match; [done|]. by case_match. Qed.
Lemma steady_Commit sn : steady (Commit sn).
Proof. apply steady_step. intros x. unfold Commit. repeat (case_match; try done). Qed.
Lemma steady_with_top f : steady (with_top f).
Proof. apply steady_step. intros x. unfold with_top. by case_match. Qed.
Lemma steady_dirty : steady (modify dirty).
Proof. by apply steady_step. Qed.
Lemma steady_Hash : steady Ctx_Hash.
Proof. apply steady_step. intros x. unfold Ctx_Hash. case_match; [done|]. by case_match. Qed.
Lemma steady_HasAccount addr : steady (HasAccount addr).
Proof. by apply steady_step. Qed.
Lemma steady_StackSize : steady StackSize.
Proof. apply steady_gets. Qed.
Lemma steady_UseTimeSlot slot key : steady (UseTimeSlot slot key).
Proof.
  apply steady_step. intros x. unfold UseTimeSlot, ctd_UseTimeSlot. case_match; [done|]. case_match; [done|].
  destruct (cc_HasTimeSlot _ _ _ _) as [[] ?]; done.
Qed.
End Grows.

Create HintDb steady.
#[export] Hint Resolve steady_ret steady_bind steady_try steady_for_each steady_lift steady_guard steady_fail steady_panic
  steady_gets steady_get steady_Snapshot steady_Revert steady_Commit steady_with_top steady_dirty steady_Hash
  steady_HasAccount steady_StackSize steady_UseTimeSlot : steady.

Section GrowsNode.
Context {A E T P : Type} `{AI : AccountI A} `{EI : EventI E} `{B58 : Base58} `{HF : HashFn}.
Context `{EH : !EncodingHash A E} `{SC : !StoreCodec A E T} `{PI : !PileI P} `{TC : !TxCodec T}.
Context `{TX : !TransactionI T A E} `{RC : Recover} `{FI : FormulatorI A} `{TK : TokenCodec}.

(** Transactions and the hooks of processes have only the methods of a
    context, whose fields are not exported. *)
Record process_steady (p : Process A E T) : Prop := {
  ps_before pid : steady (p_BeforeExecuteTransactions p pid);
  ps_after pid b : steady (p_AfterExecuteTransactions p pid b);
  ps_save pid b : steady (p_OnSaveData p pid b);
}.
Record chain_steady (cn : Chain A E T) : Prop := {
  cst_processes : Forall process_steady (cn_processes cn);
  cst_app : process_steady (cn_app cn);
  cst_validate (tx : T) pid signers : steady (tx_Validate tx pid signers);
  cst_execute (tx : T) pid index : steady (tx_Execute tx pid index);
}.

Context (BlockSign_Hash : Hash256 → Signature → Hash256) (cn : Chain A E T) (Hcn : chain_steady cn).
Context (cpus : nat) (pick : error → list error → error).

Lemma steady_clean : steady (clean : M (Ctx A E) unit).
Proof. unfold clean. eauto with steady. Qed.
Hint Resolve steady_clean : steady.

Lemma steady_run_hooks (f : Process A E T → Z → M (Ctx A E) unit) :
  (∀ p pid, process_steady p → steady (f p pid)) → steady (run_hooks f cn).
Proof using Hcn.
  intros Hf. unfold run_hooks. destruct Hcn as [Hl Ha _ _].
  apply steady_bind; [|intros _; apply steady_bind; eauto with steady].
  assert (Hin : ∀ ip, ip ∈ imap pair (cn_processes cn) → process_steady ip.2).
  { intros ip (i & y & -> & Hi)%elem_of_lookup_imap. by eapply Forall_lookup_1. }
  induction (imap pair (cn_processes cn)) as [|ip l IH]; simpl; [apply steady_ret|].
  apply steady_bind; [|intros _; apply IH; set_solver].
  apply steady_bind; [apply Hf, Hin; set_solver|intros _; apply steady_clean].
Qed.
Lemma steady_before : steady (before_hooks cn).
Proof using Hcn. apply steady_run_hooks. by intros p pid []. Qed.
Lemma steady_after b : steady (after_hooks b cn).
Proof using Hcn. apply steady_run_hooks. by intros p pid []. Qed.
Lemma steady_save b : steady (save_hooks b cn).
Proof using Hcn. apply steady_run_hooks. by intros p pid []. Qed.
Hint Resolve steady_before steady_after steady_save : steady.

Lemma steady_or_revert {V} sn (m : M (Ctx A E) V) : steady m → steady (or_revert sn m).
Proof. intros Hm. unfold or_revert. apply steady_bind; [eauto with steady|intros [v|e]]; eauto with steady. Qed.
Hint Resolve steady_or_revert : steady.

Lemma steady_execute_tx gen pid slot index h (tx : T) signers : steady (execute_tx gen pid slot index h tx signers).
Proof using Hcn.
  destruct Hcn as [_ _ Hv He]. unfold execute_tx. apply steady_bind; [apply steady_Snapshot|intros sn].
  do 3 (apply steady_bind; [eauto with steady|intros ?]). apply steady_bind; [|intros ?; apply steady_Commit].
  apply steady_or_revert. unfold generator_alive.
  apply steady_bind; [apply steady_try, steady_HasAccount|intros [has|e]; eauto with steady].
Qed.

Lemma steady_executeBlock cid b sp : steady (executeBlockOnContext cpus pick cn cid b sp).
Proof using Hcn.
  unfold executeBlockOnContext. do 2 (apply steady_bind; [eauto with steady|intros ?]).
  apply steady_bind; [|intros ?; apply steady_bind; eauto with steady].
  unfold execute_txs. apply steady_for_each. intros it. unfold execute_at.
  do 5 (apply steady_bind; [eauto with steady|intros ?]). apply steady_execute_tx.
Qed.

Lemma steady_seal b s : steady (seal (pof_Consensus BlockSign_Hash) cn b s).
Proof using Hcn.
  unfold seal. do 4 (apply steady_bind; [eauto with steady|intros ?]).
  apply steady_bind.
  - cbn. unfold pof_OnSaveData, save_state. do 2 (apply steady_bind; [apply steady_gets|intros ?]).
    case_match; [apply steady_panic|]. destruct (advance _ _ _ _) as [[] ?]; eauto with steady.
  - intros [s' [e|]]; [apply steady_ret|]. apply steady_bind; [apply steady_StackSize|intros n].
    case_match; [apply steady_ret|]. apply steady_bind; [apply steady_get|intros c]. case_match; eauto with steady.
Qed.

(** ** The contexts of a node *)

Abbreviation fnode := (FormulatorNode A E T P).
Abbreviation frM := (M (FormulatorNode A E T P)).
Implicit Types (fr : fnode).

(** The contexts keep their place, and an entry of the map of generated blocks
    is at the height of its block. *)
Definition bases fr : list (Z * Hash256 * Z) := base <$> fr_heap fr.
Definition kept (l : list (Z * Hash256 * Z)) fr : Prop := l `prefix_of` bases fr.
Definition of_height (k : Z) (it : genItem T) : Prop := ∀ g, ge_BlockGen it = Some g → HHeight (BHeader (bg_Block g)) = k.
Definition keyed fr : Prop := map_Forall of_height (fr_gens fr).
Definition grows {V} (m : frM V) : Prop := (∀ l, keeps (kept l) m) ∧ keeps keyed m.

Lemma grows_ret {V} (v : V) : grows (mret v).
Proof. split; [intros l|]; apply keeps_ret. Qed.
Lemma grows_bind {V W} (m : frM V) (f : V → frM W) : grows m → (∀ v, grows (f v)) → grows (m ≫= f).
Proof. intros [Hm1 Hm2] Hf. split; [intros l|]; (apply keeps_bind; [done|]); intros v; apply Hf. Qed.
Lemma grows_try {V} (m : frM V) : grows m → grows (try m).
Proof. intros [Hm1 Hm2]. split; [intros l|]; by apply keeps_try. Qed.
Lemma grows_for_each {V} (f : V → frM unit) l : (∀ v, grows (f v)) → grows (for_each f l).
Proof. intros Hf. split; [intros w|]; apply keeps_for_each; intros v; apply Hf. Qed.
Lemma grows_same {V} (m : frM V) : (∀ fr, fr_heap (m fr).2 = fr_heap fr ∧ fr_gens (m fr).2 = fr_gens fr) → grows m.
Proof.
  intros H. split; [intros l|]; intros fr Hl; destruct (H fr) as [H1 H2]; unfold kept, bases, keyed; by rewrite ?H1, ?H2.
Qed.
Lemma grows_modify (f : fnode → fnode) : (∀ fr, fr_heap (f fr) = fr_heap fr ∧ fr_gens (f fr) = fr_gens fr) → grows (modify f).
Proof. intros H. by apply grows_same. Qed.
Lemma grows_lift {V} (r : res V) : grows (lift r).
Proof. by apply grows_same. Qed.
Lemma grows_guard b e : grows (guard_err b e).
Proof. apply grows_same. by destruct b. Qed.
Lemma grows_fail {V} e : grows (fail e : frM V).
Proof. by apply grows_same. Qed.
Lemma grows_panic {V} : grows (panic : frM V).
Proof. by apply grows_same. Qed.
Lemma grows_gets {V} (f : fnode → V) : grows (gets f).
Proof. by apply grows_same. Qed.
Lemma grows_get : grows get.
Proof. by apply grows_same. Qed.
Lemma grows_put k it : of_height k it → grows (modify (upd_gens <[k := it]>)).
Proof. intros Hk. split; [by intros l fr|]. intros fr Hf. by apply map_Forall_insert_2. Qed.
Lemma grows_get_put {V} k (it : fnode → genItem T) (m : frM V) :
  (∀ fr, keyed fr → of_height k (it fr)) → grows m → grows (fr ← get; modify (upd_gens <[k := it fr]>) ;; m).
Proof.
  intros Hk [Hm1 Hm2]. split; [intros l|]; intros fr Hf; unfold mbind, M_bind, get, modify; [by apply Hm1|].
  apply Hm2. apply map_Forall_insert_2; [by apply Hk|done].
Qed.
Lemma grows_delete k : grows (modify (upd_gens (delete k))).
Proof. split; [by intros l fr|]. intros fr Hf. by apply map_Forall_delete. Qed.
Lemma grows_set_context k p : grows (modify (upd_gens (alter (set_ge_context p) k))).
Proof.
  split; [by intros l fr|]. intros fr Hf. unfold keyed. cbn. intros k' it Hit.
  rewrite lookup_alter in Hit. case_decide; [|by apply Hf]. subst k'.
  destruct (fr_gens fr !! k) as [it0|] eqn:Hk; [|done]. injection Hit as <-. exact (Hf k it0 Hk).
Qed.

(** A context at [p] is replaced by one on the same base. *)
Lemma bases_insert fr p x y :
  fr_heap fr !! p = Some x → base y = base x → base <$> <[p := y]> (fr_heap fr) = bases fr.
Proof. intros Hp Hb. unfold bases. rewrite list_fmap_insert, Hb. apply list_insert_id. by rewrite list_lookup_fmap, Hp. Qed.

Lemma grows_on_ptr {V} p (m : M (Ctx A E) V) : steady m → grows (on_ptr p m).
Proof.
  intros Hm. split; [intros l|]; intros fr Hl; unfold on_ptr; destruct (fr_heap fr !! p) as [x|] eqn:Hp; [|done| |done].
  all: pose proof (steady_eq m x Hm) as Hx; destruct (m x) as [r y]; unfold kept, bases, keyed; cbn;
    first [by erewrite bases_insert|done].
Qed.
Lemma grows_new_ctx x : grows (new_ctx x).
Proof.
  split; [intros l|]; intros fr Hl; [|done]. unfold kept, bases, new_ctx. cbn. rewrite fmap_app. by apply prefix_app_r.
Qed.
Lemma steady_retire : steady (modify retire : M (Ctx A E) unit).
Proof. apply steady_step. intros x. unfold modify, retire. cbn. by destruct (stack x). Qed.
Lemma grows_next_ctx p bh : grows (next_ctx p bh).
Proof.
  unfold next_ctx. apply grows_bind; [apply grows_on_ptr, steady_get|intros x].
  apply grows_bind; [apply grows_on_ptr, steady_retire|intros _; apply grows_new_ctx].
Qed.
Lemma grows_on_pool {V} (m : M TransactionPool V) : grows (on_pool m).
Proof. apply grows_same. intros fr. unfold on_pool. by destruct (m _). Qed.
Lemma grows_on_wait {V} (m : M (LinkedQueue Hash256 (TxMsgItem T)) V) : grows (on_wait m).
Proof. apply grows_same. intros fr. unfold on_wait. by destruct (m _). Qed.
End GrowsNode.

Create HintDb grows.
#[export] Hint Resolve grows_ret grows_lift grows_guard grows_fail grows_panic grows_gets
  grows_get grows_new_ctx grows_next_ctx grows_on_pool grows_on_wait grows_delete grows_set_context : grows.
#[export] Hint Extern 1 (grows (modify _)) => apply grows_modify; intros ?; split; reflexivity : grows.
#[export] Hint Extern 1 (grows (modify _)) => apply grows_put; intros ? [= <-]; reflexivity : grows.

(** One constructor of a computation at a time. *)
Ltac grow := repeat (first
  [ solve [auto 1 with grows nocore]
  | apply grows_bind; [|intros ?]
  | apply grows_try
  | apply grows_for_each; intros ?
  | progress cbn beta iota
  | case_match ]).

Section GrowsEvents.
Context {A E T P : Type} `{AI : AccountI A} `{EI : EventI E} `{B58 : Base58} `{HF : HashFn}.
Context `{EH : !EncodingHash A E} `{SC : !StoreCodec A E T} `{PI : !PileI P} `{TC : !TxCodec T}.
Context `{TX : !TransactionI T A E} `{RC : Recover} `{FI : FormulatorI A} `{TK : TokenCodec}.
Context (BlockSign_Hash : Hash256 → Signature → Hash256) (cn : Chain A E T) (Hcn : chain_steady cn).
Context (cpus : nat) (pick : error → list error → error).
Context (config : FormulatorConfig) (myPublicHash frPublicHash : PublicHash) (key_Sign : Hash256 → res Signature).
Context (env : FEnv).

Abbreviation fnode := (FormulatorNode A E T P).
Abbreviation frM := (M (FormulatorNode A E T P)).
Implicit Types (fr : fnode).

(** ** Sending and asking *)

Lemma grows_now : grows (fr_now env : frM Z).
Proof. by apply grows_same. Qed.
Lemma grows_random n : grows (fr_random env n : frM nat).
Proof. by apply grows_same. Qed.
Lemma grows_NewContext : grows (NewContext_now : frM nat).
Proof. unfold NewContext_now. grow. Qed.
Lemma grows_emit o : grows (fr_emit o : frM unit).
Proof. unfold fr_emit. grow. Qed.
Lemma grows_spawn t : grows (spawn t : frM unit).
Proof. unfold spawn. grow. Qed.
Lemma grows_set_txQ q : grows (set_txQ q : frM unit).
Proof. unfold set_txQ. grow. Qed.
Lemma grows_set_sendQ f : grows (set_sendQ f : frM unit).
Proof. unfold set_sendQ. grow. Qed.
Hint Resolve grows_now grows_random grows_NewContext grows_emit grows_spawn grows_set_txQ grows_set_sendQ : grows.
Lemma grows_Height : grows (fr_Height : frM Z).
Proof. unfold fr_Height, the_store. grow. Qed.
Lemma grows_deliver Target m : grows (deliver Target m : frM unit).
Proof. unfold deliver. grow. Qed.
Lemma grows_deliver_packet Target m : grows (deliver_packet Target m : frM unit).
Proof. unfold deliver_packet. grow. Qed.
Hint Resolve grows_Height grows_deliver grows_deliver_packet : grows.
Lemma grows_status_now : grows (status_now : frM (frmsg T)).
Proof. unfold status_now, the_store. grow. Qed.
Hint Resolve grows_status_now : grows.
Lemma grows_broadcastStatus : grows (fr_broadcastStatus : frM unit).
Proof. unfold fr_broadcastStatus, fr_broadcastMessage. grow. Qed.
Lemma grows_timer_Add height value : grows (fr_timer_Add env height value : frM bool).
Proof. unfold fr_timer_Add. grow. Qed.
Hint Resolve grows_broadcastStatus grows_timer_Add : grows.
Lemma grows_sendRequest ID h n : grows (fr_sendRequestBlockTo env ID h n : frM unit).
Proof. unfold fr_sendRequestBlockTo. grow. Qed.
Lemma grows_sendRequestToNode Target h n : grows (sendRequestBlockToNode myPublicHash env Target h n : frM unit).
Proof. unfold sendRequestBlockToNode. grow. Qed.
Hint Resolve grows_sendRequest grows_sendRequestToNode : grows.
Lemma grows_tryRequestBlocks : grows (tryRequestBlocks myPublicHash env : frM unit).
Proof. unfold tryRequestBlocks. grow. Qed.
Lemma grows_tryRequestNext : grows (tryRequestNext env : frM unit).
Proof. unfold tryRequestNext. grow. Qed.
Hint Resolve grows_tryRequestBlocks grows_tryRequestNext : grows.

(** ** Transactions and blocks *)

Lemma grows_last_slot : grows (last_slot : frM Z).
Proof. unfold last_slot, the_store. grow. Qed.
Lemma grows_addTx h t tx sigs : grows (addTx cn env h t tx sigs : frM unit).
Proof. unfold addTx. grow. Qed.
Hint Resolve grows_last_slot grows_addTx : grows.
Lemma grows_AddTx tx sigs : grows (fr_AddTx cn env tx sigs : frM unit).
Proof. unfold fr_AddTx, the_store. grow. Qed.
Lemma grows_work_item slot item : grows (work_item cn env slot item : frM unit).
Proof. unfold work_item, the_store. grow. Qed.
Hint Resolve grows_AddTx grows_work_item : grows.
Lemma grows_work_loop n slot : grows (work_loop cn env n slot : frM unit).
Proof. induction n as [|n IH]; cbn [work_loop]; grow. Qed.
Hint Resolve grows_work_loop : grows.
Lemma grows_worker : grows (tx_worker cn env : frM unit).
Proof. unfold tx_worker. grow. Qed.
Lemma grows_sender : grows (tx_sender env : frM unit).
Proof. unfold tx_sender, the_store, fr_broadcastMessage. grow. Qed.
Lemma grows_OnItemExpired item last : grows (OnItemExpired item last : frM unit).
Proof. unfold OnItemExpired. grow. Qed.
Lemma grows_take_txs ID ms : grows (take_txs ID ms : frM unit).
Proof. unfold take_txs, the_store. grow. Qed.
Hint Resolve grows_worker grows_sender grows_OnItemExpired grows_take_txs : grows.

Lemma grows_addBlock b : grows (fr_addBlock b : frM unit).
Proof. unfold fr_addBlock. grow. Qed.
Lemma grows_cleanPool b : grows (cleanPool b : frM unit).
Proof. unfold cleanPool, the_store. grow. Qed.
Lemma grows_expirePool b : grows (expirePool env b : frM unit).
Proof. unfold expirePool. grow. Qed.
Lemma grows_ConnectBlock b : grows (fr_ConnectBlock BlockSign_Hash cn cpus pick b : frM unit).
Proof. apply grows_same. intros fr. unfold fr_ConnectBlock. by destruct (ConnectBlock _ _ _ _ _ _ _). Qed.
Lemma grows_ConnectWithContext p b : grows (fr_ConnectWithContext BlockSign_Hash cn p b : frM unit).
Proof using Hcn.
  split; [intros l|]; intros fr Hl; unfold fr_ConnectWithContext; destruct (fr_heap fr !! p) as [x|] eqn:Hp; [|done| |done].
  all: unfold ConnectBlockWithContext; destruct (connectBlockWithContext _ _ _ _ _) as [r nd]; try done.
  unfold kept, bases. cbn. erewrite (bases_insert fr); [done..|]. apply steady_eq, steady_seal, Hcn.
Qed.
Lemma grows_Execute b p : grows (fr_Execute cn cpus pick b p : frM unit).
Proof using Hcn. unfold fr_Execute. apply grows_bind; [apply grows_get|]. intros fr. by apply grows_on_ptr, steady_executeBlock. Qed.
Hint Resolve grows_addBlock grows_cleanPool grows_expirePool grows_ConnectBlock grows_ConnectWithContext grows_Execute : grows.
Lemma grows_connect_queued b : grows (connect_queued BlockSign_Hash cn cpus pick b : frM unit).
Proof using Hcn env. unfold connect_queued. grow. Qed.
Lemma grows_forget_request b : grows (forget_request config b : frM unit).
Proof. unfold forget_request. grow. Qed.
Hint Resolve grows_connect_queued grows_forget_request : grows.
Lemma grows_queue_loop n h item has : grows (queue_loop BlockSign_Hash cn cpus pick config env n h item has : frM bool).
Proof using Hcn env. revert h item has. induction n as [|n IH]; intros h item has; cbn [queue_loop]; grow. Qed.
Hint Resolve grows_queue_loop : grows.
Lemma grows_run_round : grows (run_round BlockSign_Hash cn cpus pick config myPublicHash env : frM unit).
Proof using Hcn env. unfold run_round. grow. Qed.
Lemma grows_follow_ctx h p bh ctx : grows (follow_ctx h p bh ctx : frM (option nat)).
Proof. unfold follow_ctx. grow. Qed.
Hint Resolve grows_run_round grows_follow_ctx : grows.
Lemma grows_prepare n first h ctx : grows (prepare cn cpus pick n first h ctx : frM unit).
Proof using Hcn env. revert h ctx. induction n as [|n IH]; intros h ctx; cbn [prepare]; grow. Qed.
Hint Resolve grows_prepare : grows.
Lemma grows_update_loop n h : grows (update_loop BlockSign_Hash cn cpus pick env n h : frM unit).
Proof using Hcn env. revert h. induction n as [|n IH]; intros h; cbn [update_loop]; grow. Qed.
Hint Resolve grows_update_loop : grows.
Lemma grows_updateByGenItem : grows (updateByGenItem BlockSign_Hash cn cpus pick env : frM unit).
Proof using Hcn env. unfold updateByGenItem. grow. Qed.
Hint Resolve grows_updateByGenItem : grows.

(** ** The generation of a block *)

(** The fields of a header that are fixed when its creator is made. *)
Definition outline (bh : Header) : Z * Hash256 * Z * Address * bytes :=
  (HHeight bh, PrevHash bh, HTimestamp bh, Generator bh, ConsensusData bh).
Definition holds_place v o (bc : BlockCreator A E T) : Prop := base (bc_ctx bc) = v ∧ outline (BHeader (bc_b bc)) = o.
Definition places {V} (m : M (BlockCreator A E T) V) : Prop := ∀ v o, keeps (holds_place v o) m.

Lemma places_on_ctx {V} (m : M (Ctx A E) V) : steady m → places (on_ctx m).
Proof.
  intros Hm v o bc [Hb Ho]. unfold on_ctx. pose proof (steady_eq m (bc_ctx bc) Hm) as Hx.
  destruct (m (bc_ctx bc)) as [r x]. split; [|done]. cbn in *. by rewrite Hx.
Qed.
Lemma places_Init : places (BC_Init cn).
Proof using Hcn. by apply places_on_ctx, steady_before. Qed.
Lemma places_AddTx gen t h tx sigs signers : places (UnsafeAddTx cn gen t h tx sigs signers).
Proof using Hcn.
  intros v o. unfold UnsafeAddTx. apply keeps_bind; [apply keeps_lift|intros p]. apply keeps_bind; [by intros bc|intros bc].
  apply keeps_bind; [apply keeps_guard|intros _]. apply keeps_bind; [by apply places_on_ctx, (steady_execute_tx cn)|intros _].
  by intros bc'.
Qed.
Lemma places_Finalize : places (Finalize cn).
Proof using Hcn.
  intros v o. unfold Finalize. apply keeps_bind; [by intros bc|intros bc]. apply keeps_bind; [apply keeps_lift|intros root].
  apply keeps_bind; [by intros bc'|intros _]. apply keeps_bind; [apply places_on_ctx, steady_clean|intros _].
  apply keeps_bind; [by intros bc'|intros bc']. apply keeps_bind; [by apply places_on_ctx, steady_after|intros _].
  apply keeps_bind; [apply places_on_ctx, steady_Hash|intros h]. apply keeps_bind; [by intros bc''|intros _]. by intros bc''.
Qed.

Lemma grows_on_creator {V} p hashes b (m : M (BlockCreator A E T) V) : places m → grows (on_creator p hashes b m : frM _).
Proof.
  intros Hm. split; [intros l|]; intros fr Hl; unfold on_creator; destruct (fr_heap fr !! p) as [x|] eqn:Hp; [|done| |done].
  all: pose proof (Hm (base x) (outline (BHeader b)) (mkCreator x hashes b) (conj eq_refl eq_refl)) as [Hb _].
  all: destruct (m _) as [r bc]; try done. unfold kept, bases. cbn in *. by erewrite (bases_insert fr).
Qed.
Lemma grows_tx_loop n p slot max count hb : grows (tx_loop cn config n p slot max count hb : frM _).
Proof using Hcn env.
  revert count hb. induction n as [|n IH]; intros count hb; cbn [tx_loop]; [grow|].
  apply grows_bind; [apply grows_on_ptr, steady_Snapshot|intros sn]. apply grows_bind; [grow|intros item].
  apply grows_bind; [apply grows_on_ptr, steady_Revert|intros _]. destruct item as [it|]; [|grow].
  apply grows_bind; [apply grows_on_creator|intros [[] hb']; grow].
  intros v o. by apply keeps_try, places_AddTx.
Qed.
Hint Resolve grows_tx_loop : grows.
Lemma grows_gen_one g : grows (gen_one cn config key_Sign env g : frM _).
Proof using Hcn env.
  unfold gen_one. apply grows_bind; [grow|intros p].
  apply grows_bind; [apply grows_on_ptr, steady_get|intros x].
  apply grows_bind; [by apply grows_on_creator, places_Init|intros r].
  apply grows_bind; [grow|intros hb]. apply grows_bind; [by apply grows_on_creator, places_Finalize|intros r'].
  do 3 (apply grows_bind; [grow|intros ?]). apply grows_bind; [apply grows_on_ptr, steady_get|intros x']. grow.
Qed.
Lemma grows_start ID req : grows (start_generation cpus config env ID req : frM _).
Proof. unfold start_generation, the_cs, the_store. grow. Qed.
Lemma grows_set_generating b : grows (set_generating b : frM _).
Proof. unfold set_generating. grow. Qed.
Hint Resolve grows_gen_one grows_start grows_set_generating : grows.
Lemma grows_gen_step g : grows (gen_step cn config key_Sign env g : frM _).
Proof using Hcn env. unfold gen_step. grow. Qed.
Hint Resolve grows_gen_step : grows.
Lemma grows_genBlock ID req : grows (genBlock cn cpus config key_Sign env ID req : frM _).
Proof using Hcn env. unfold genBlock. grow. Qed.
Hint Resolve grows_genBlock : grows.

(** ** Every step *)

Lemma grows_BlockReq ID msg n : grows (handle_BlockReq config frPublicHash env ID msg n : frM unit).
Proof. unfold handle_BlockReq, the_cs, the_store. grow. Qed.
Lemma grows_Gen msg : grows (handle_Gen config msg : frM unit).
Proof. unfold handle_Gen. grow. Qed.
Lemma grows_ObSign ID msg : grows (handle_ObSign ID msg : frM unit).
Proof.
  unfold handle_ObSign. apply grows_bind; [grow|intros h]. case_match; [grow|].
  apply (grows_get_put (bo_TargetHeight msg) (λ fr, match fr_gens fr !! bo_TargetHeight msg with Some item => _ | None => _ end)); [|grow].
  intros fr Hf g. destruct (fr_gens fr !! bo_TargetHeight msg) as [it|] eqn:Hk; [|done].
  destruct (ge_BlockGen it) eqn:Hg; [|done]. case_bool_decide; [|done]. intros [= <-]. exact (Hf _ _ Hk _ Hg).
Qed.
Lemma grows_ObBlocks ID Blocks : grows (handle_ObBlocks env ID Blocks : frM unit).
Proof. unfold handle_ObBlocks. grow. Qed.
Hint Resolve grows_BlockReq grows_Gen grows_ObSign grows_ObBlocks : grows.
Lemma grows_observer ID m n : grows (fr_handleObserverMessage config frPublicHash env ID m n : frM unit).
Proof. unfold fr_handleObserverMessage. grow. Qed.
Lemma grows_PeerRequest ID msg : grows (handle_PeerRequest env ID msg : frM unit).
Proof. unfold handle_PeerRequest. grow. Qed.
Lemma grows_PeerStatus ID msg : grows (handle_PeerStatus myPublicHash env ID msg : frM unit).
Proof. unfold handle_PeerStatus, the_store. grow. Qed.
Lemma grows_PeerBlocks ID Blocks : grows (handle_PeerBlocks ID Blocks : frM unit).
Proof. unfold handle_PeerBlocks. grow. Qed.
Lemma grows_PeerTxs ID ms : grows (handle_PeerTxs ID ms : frM unit).
Proof. unfold handle_PeerTxs. grow. Qed.
Hint Resolve grows_observer grows_PeerRequest grows_PeerStatus grows_PeerBlocks grows_PeerTxs : grows.
Lemma grows_peer ID m : grows (handlePeerMessage myPublicHash env ID m : frM unit).
Proof. unfold handlePeerMessage. grow. Qed.
Lemma grows_run_gen ID req : grows (run_gen cn cpus config key_Sign env ID req : frM unit).
Proof using Hcn env. unfold run_gen. grow. Qed.
Hint Resolve grows_peer grows_run_gen : grows.
Lemma grows_task t : grows (run_task BlockSign_Hash cn cpus pick config myPublicHash frPublicHash key_Sign env t : frM unit).
Proof using Hcn env. unfold run_task. grow. Qed.
Hint Resolve grows_task : grows.

Lemma grows_event ev : grows (fr_run BlockSign_Hash cn cpus pick config myPublicHash frPublicHash key_Sign env ev : frM unit).
Proof using Hcn env.
  unfold fr_run, OnObserverConnected, OnObserverDisconnected, OnConnected, OnDisconnected, status_to, fr_OnTimerExpired. grow.
Qed.
End GrowsEvents.
