(* ===== verification/VaultSteady.v ===== *)
(** * The vault keeps the place of a context

    The processes and transactions of a chain have the methods of a context
    only, so that they do not change what a context builds on: here for the
    vault. *)

From S2P Require Import Prelude Amount Common Context Block Chain ChainAgree Vault VaultTame FormulatorGrows.

(** One constructor of a computation at a time. *)
Ltac stay := repeat (first
  [ solve [auto 1 with steady nocore]
  | apply steady_bind; [|intros ?]
  | apply steady_try
  | apply steady_for_each; intros ?
  | progress cbn beta iota zeta
  | case_match ]).

Section VaultSteady.
Context {A E : Type} `{AI : AccountI A} `{EI : EventI E} `{B58 : Base58}.
Context `{VA : !VaultAccounts A} `{PC : PolicyCodec}.
Context (pid admin_pid magic : Z) (range : gmap Address Z → list (Address * Z)).

Lemma steady_run_read {V} hit fill clone keep load : steady (run_read (V:=V) hit fill clone keep load : M (Ctx A E) V).
Proof. apply steady_step. intros x. unfold run_read. by destruct (read_through _ _ _ _ _ _ _) as [[]]. Qed.
Lemma steady_HasAccountName n : steady (HasAccountName n : M (Ctx A E) bool).
Proof. by apply steady_step. Qed.
Lemma steady_HasUTXO n : steady (HasUTXO n : M (Ctx A E) bool).
Proof. by apply steady_step. Qed.
Lemma steady_modify_stack f : steady (modify (λ x : Ctx A E, set_stack (f x) x)).
Proof. by apply steady_step. Qed.
Lemma steady_fold {V W} (f : V → W → M (Ctx A E) V) l v : (∀ v w, steady (f v w)) → steady (fold_m f v l).
Proof. intros Hf. revert v. induction l as [|w l IH]; intros v; cbn [fold_m]; [apply steady_ret|]. by apply steady_bind. Qed.
Hint Resolve steady_run_read steady_HasAccountName steady_HasUTXO steady_modify_stack : steady.

Lemma steady_Account a : steady (ctd_Account a : M (Ctx A E) A).
Proof. apply steady_run_read. Qed.
Lemma steady_AccountData a p n : steady (AccountData a p n : M (Ctx A E) bytes).
Proof. apply steady_run_read. Qed.
Lemma steady_ProcessData p n : steady (ProcessData p n : M (Ctx A E) bytes).
Proof. apply steady_run_read. Qed.
Lemma steady_UTXO u : steady (ctd_UTXO u : M (Ctx A E) UTXO).
Proof. apply steady_run_read. Qed.
Lemma steady_ctd_SetAccountData a p n v : steady (ctd_SetAccountData a p n v : M (Ctx A E) unit).
Proof. apply steady_with_top. Qed.
Lemma steady_SetAccountData a p n v : steady (SetAccountData a p n v : M (Ctx A E) unit).
Proof. stay. apply steady_ctd_SetAccountData. Qed.
Lemma steady_SetProcessData p n v : steady (SetProcessData p n v : M (Ctx A E) unit).
Proof. apply steady_with_top. Qed.
Lemma steady_TargetHeight : steady (TargetHeight : M (Ctx A E) Z).
Proof. apply steady_gets. Qed.
Lemma steady_must_be_new ignored r dup : steady (must_be_new ignored r dup : M (Ctx A E) unit).
Proof. unfold must_be_new. stay. Qed.
Hint Resolve steady_TargetHeight steady_must_be_new steady_Account steady_AccountData steady_ProcessData steady_UTXO steady_SetAccountData steady_ctd_SetAccountData
  steady_SetProcessData : steady.

Lemma steady_vault_Validate tx signers : steady (vault_Validate pid admin_pid tx signers : M (Ctx A E) unit).
Proof. unfold vault_Validate. destruct tx; stay. Qed.
Lemma steady_vault_Execute tx index : steady (vault_Execute pid magic tx index : M (Ctx A E) unit).
Proof. unfold vault_Execute. destruct tx; stay. Qed.
Lemma steady_vault_After h : steady (AfterExecuteTransactions pid range h : M (Ctx A E) unit).
Proof.
  unfold AfterExecuteTransactions, flushLockedBalanceMap.
  apply steady_bind; [|intros m; apply steady_for_each; intros [a am]; unfold settle; stay].
  apply steady_bind; [stay|intros bs]. case_match; [|stay]. apply steady_bind; [stay|intros n].
  apply steady_bind; [|intros m; stay]. apply steady_fold. intros m j. unfold flush_step. stay.
Qed.

(** A chain with the vault as its only process. *)
Lemma vault_chain_steady (cn : Chain A E vault_tx) :
  cn_processes cn = [vault_Process pid range] → cn_app cn = base_app →
  chain_steady (TX := vault_TransactionI pid admin_pid magic) cn.
Proof.
  intros Hp Ha. split; [rewrite Hp; repeat constructor|rewrite Ha; split|..]; intros; cbn; try apply steady_ret.
  - apply steady_vault_After.
  - apply steady_vault_Validate.
  - apply steady_vault_Execute.
Qed.
End VaultSteady.
