(* ===== verification/FormulatorChain.v ===== *)
(** * pof: the blocks of a formulator form a chain

    [genBlock] gives up the locks of the node after each block: other messages
    are handled, blocks are connected and contexts are used before the next
    block is made.  Whatever happens in between, the blocks of one generation
    extend the chain the generation started on, one after the other. *)

From S2P Require Import Prelude Tokens Common Context Block Store Chain Search SortedQueue LinkedQueue ExpireQueue TxPool Rank Pof RequestTimer Observer ObserverHandle ObserverOnChain FormulatorNode FormulatorHandle FormulatorEvents FormulatorGrows.

Section GeneratedChain.
Context {A E T P : Type} `{AI : AccountI A} `{EI : EventI E} `{B58 : Base58} `{HF : HashFn}.
Context `{EH : !EncodingHash A E} `{SC : !StoreCodec A E T} `{PI : !PileI P} `{TC : !TxCodec T}.
Context `{TX : !TransactionI T A E} `{RC : Recover} `{FI : FormulatorI A} `{TK : TokenCodec}.
Context (BlockSign_Hash : Hash256 → Signature → Hash256) (cn : Chain A E T).
Context (cpus : nat) (pick : error → list error → error).
Context (config : FormulatorConfig) (myPublicHash frPublicHash : PublicHash) (key_Sign : Hash256 → res Signature).

Abbreviation fnode := (FormulatorNode A E T P).
Implicit Types (fr : fnode).

(** A step of the node, whatever it finds outside. *)
Definition node_step fr fr' : Prop :=
  ∃ env ev, fr' = (fr_run BlockSign_Hash cn cpus pick config myPublicHash frPublicHash key_Sign env ev fr).2.

(** The blocks a generation sends: each made by [gen_one], with any steps of
    the node after it. *)
Inductive generates : Generation → fnode → list (Block T) → Prop :=
  | generates_end g fr : generates g fr []
  | generates_block env g fr g1 fr1 fr2 out b sig bs :
      gen_one cn config key_Sign env g fr = (Ok g1, fr1) →
      fr_out fr1 = out ++ [FoObserver (gs_ID g) (MGen (mkBlockGen b sig false))] →
      rtc node_step fr1 fr2 →
      generates g1 fr2 bs →
      generates g fr (b :: bs).

(** A list of blocks of the formulator [F] on top of a block at height
    [h - 1] with the hash [prev] and the time [t]; the times grow as long as
    they fit in 64 bits. *)
Fixpoint extends (F : Address) (h : Z) (prev : Hash256) (t : Z) (bs : list (Block T)) : Prop :=
  match bs with
  | [] => True
  | b :: bs =>
      HHeight (BHeader b) = h ∧ PrevHash (BHeader b) = prev ∧ Generator (BHeader b) = F ∧
      (0 ≤ t < 2 ^ 64 - 1 → t < HTimestamp (BHeader b)) ∧
      extends F (u32 (h + 1)) (header_Hash (BHeader b)) (HTimestamp (BHeader b)) bs
  end.

(** ** One block *)

Lemma on_ptr_get p fr x fr' : on_ptr p get fr = (Ok x, fr') → fr_heap fr !! p = Some x ∧ fr_heap fr' = fr_heap fr ∧ fr_out fr' = fr_out fr.
Proof.
  unfold on_ptr. destruct (fr_heap fr !! p) as [y|] eqn:Hp; [|done]. intros [= -> <-]. split; [done|]. split; [|done].
  by apply list_insert_id.
Qed.

Lemma on_creator_Ok {V} p hashes b (m : M (BlockCreator A E T) V) fr r fr' :
  on_creator p hashes b m fr = (Ok r, fr') → ∃ x bc, fr_heap fr !! p = Some x ∧ m (mkCreator x hashes b) = (Ok r.1, bc) ∧
    r.2 = (bc_txHashes bc, bc_b bc).
Proof.
  unfold on_creator. destruct (fr_heap fr !! p) as [x|]; [|done]. destruct (m _) as [[v|e|] bc] eqn:Hm; [|done..].
  intros [= <- <-]. eauto 6.
Qed.

Lemma on_creator_outline {V} p hashes b (m : M (BlockCreator A E T) V) fr r fr' :
  places m → on_creator p hashes b m fr = (Ok r, fr') → outline (BHeader r.2.2) = outline (BHeader b).
Proof.
  intros Hm (x & bc & _ & Hr & ->)%on_creator_Ok.
  pose proof (Hm _ _ (mkCreator x hashes b) (conj eq_refl eq_refl)) as [_ Ho]. rewrite Hr in Ho. apply Ho.
Qed.

Lemma bases_kept {V} (m : M fnode V) fr r fr' p v :
  grows m → m fr = (r, fr') → bases fr !! p = Some v → bases fr' !! p = Some v.
Proof.
  intros Hm Hr Hp. pose proof (proj1 Hm (bases fr) fr (reflexivity _)) as Hk. rewrite Hr in Hk.
  by eapply prefix_lookup_Some.
Qed.

Context (Hcn : chain_steady cn).

Lemma tx_loop_outline n p slot max count hb fr hb' fr' :
  tx_loop cn config n p slot max count hb fr = (Ok hb', fr') → outline (BHeader hb'.2) = outline (BHeader hb.2).
Proof using Hcn.
  revert count hb fr. induction n as [|n IH]; intros count hb fr; cbn [tx_loop]; [by intros [= <- _]|].
  intros (sn & fr1 & _ & H)%bind_inv_Ok. apply bind_inv_Ok in H as (item & fr2 & _ & H).
  apply bind_inv_Ok in H as (u & fr3 & _ & H). destruct item as [it|]; [|by injection H as <- _].
  apply bind_inv_Ok in H as ([r hb1] & fr4 & Hr & H).
  apply on_creator_outline in Hr as Ho; [|intros v o; by apply keeps_try, places_AddTx]. cbn in Ho. rewrite <- Ho.
  destruct r as [u'|e]; [|by eapply IH]. case_match; [by injection H as <- _|by eapply IH].
Qed.

(** Where the next block of a generation goes: on the block before the first
    context, then on the last block. *)
Definition place (g : Generation) fr (v : Z * Hash256 * Z) : Prop :=
  0 ≤ gs_i g ∧
  if gs_i g =? 0 then bases fr !! gs_ctx g = Some v
  else ∃ h prev t bh, bases fr !! gs_ctx g = Some (h, prev, t) ∧ gs_last g = Some bh ∧
         v = (u32 (h + 1), header_Hash bh, HTimestamp bh).

Lemma next_ctx_base p bh fr q fr' h prev t :
  bases fr !! p = Some (h, prev, t) → next_ctx p bh fr = (Ok q, fr') →
  bases fr' !! q = Some (u32 (h + 1), header_Hash bh, HTimestamp bh).
Proof.
  unfold bases. rewrite list_lookup_fmap. destruct (fr_heap fr !! p) as [x|] eqn:Hp; [|done]. intros [= Hb1 Hb2 Hb3].
  unfold next_ctx, on_ptr, mbind, M_bind. rewrite Hp. cbn. rewrite list_lookup_insert_eq by by eapply lookup_lt_Some.
  cbn. unfold new_ctx. intros [= <- <-]. cbn. rewrite list_lookup_fmap.
  rewrite lookup_app_r by lia. rewrite Nat.sub_diag. unfold base, NextContext. cbn. repeat f_equal. rewrite <- Hb1.
  by destruct (stack x).
Qed.

Lemma Finalize_returns (bc : BlockCreator A E T) b bc' : Finalize cn bc = (Ok b, bc') → bc_b bc' = b.
Proof.
  unfold Finalize. do 8 (intros (? & ? & ? & H)%bind_inv_Ok; revert H). by intros [= <- <-].
Qed.

Lemma gen_one_place env g fr g' fr' out b sig v :
  place g fr v → gen_one cn config key_Sign env g fr = (Ok g', fr') →
  fr_out fr' = out ++ [FoObserver (gs_ID g) (MGen (mkBlockGen b sig false))] →
  (∃ x : Ctx A E, base x = v ∧ outline (BHeader b) = (v.1.1, v.1.2, block_time g x, bq_Formulator (gs_req g),
          encodeConsensusData (if gs_i g =? 0 then bq_TimeoutCount (gs_req g) else 0))) ∧
  place g' fr' (u32 (v.1.1 + 1), header_Hash (BHeader b), HTimestamp (BHeader b)) ∧ gs_req g' = gs_req g.
Proof using Hcn.
  intros [Hi Hpl]. unfold gen_one. intros (p & fr1 & H1 & H)%bind_inv_Ok Hout.
  assert (Hp : bases fr1 !! p = Some v).
  { destruct (gs_i g =? 0); [by injection H1 as <- <-|]. destruct Hpl as (h & prev & t & bh & Hb & Hl & ->).
    rewrite Hl in H1. by eapply next_ctx_base. }
  clear Hpl H1. apply bind_inv_Ok in H as (x & fr2 & H2 & H).
  apply on_ptr_get in H2 as (Hx & Hh2 & _). assert (Hb : base x = v).
  { unfold bases in Hp. rewrite list_lookup_fmap, Hx in Hp. by injection Hp. }
  assert (Hp2 : bases fr2 !! p = Some v) by (unfold bases; by rewrite Hh2).
  apply bind_inv_Ok in H as (r & fr3 & H3 & H). apply on_creator_outline in H3 as Ho1; [|by apply places_Init].
  eapply bases_kept in H3; [|by apply grows_on_creator, places_Init|exact Hp2].
  apply bind_inv_Ok in H as (hb & fr4 & H4 & H). apply tx_loop_outline in H4 as Ho2.
  eapply bases_kept in H4; [|by eapply grows_tx_loop|exact H3].
  apply bind_inv_Ok in H as (r2 & fr5 & H5 & H). apply on_creator_outline in H5 as Ho3; [|by apply places_Finalize].
  eapply bases_kept in H5 as Hp5; [|by apply grows_on_creator, places_Finalize|exact H4].
  apply on_creator_Ok in H5 as (y0 & bc & _ & HF5 & HF6). apply Finalize_returns in HF5.
  unfold bases in Hp5. rewrite list_lookup_fmap in Hp5. destruct (fr_heap fr5 !! p) as [y|] eqn:Hy; [|done].
  apply bind_inv_Ok in H as (sig0 & fr6 & H6 & H). injection H6 as _ <-.
  unfold fr_emit, on_ptr, modify, mbind, M_bind in H. cbn in H. rewrite Hy in H. cbn in H. injection H as <- <-.
  cbn in Hout. apply app_inj_tail in Hout as [_ [= <- <-]]. rewrite HF6 in Ho3. cbn in Ho3. rewrite HF5, Ho2, Ho1 in Ho3.
  assert (Hv : base y = v) by by injection Hp5. split.
  - exists x. split; [done|]. by rewrite Ho3, <- Hb.
  - split; [|done]. split; [cbn; lia|]. cbn. rewrite (proj2 (Z.eqb_neq _ _)) by lia.
    exists v.1.1, v.1.2, v.2, (BHeader r2.1). split; [|done].
    unfold bases. cbn. rewrite list_insert_id by done. rewrite list_lookup_fmap, Hy. cbn. rewrite Hv. by destruct v as [[]].
Qed.

Lemma place_kept g fr fr' v : rtc node_step fr fr' → place g fr v → place g fr' v.
Proof using Hcn.
  intros Hr Hp. induction Hr as [fr|fr fr1 fr2 (env & ev & ->) _ IH]; [done|]. apply IH. destruct Hp as [Hi Hp].
  split; [done|]. destruct (fr_run _ _ _ _ _ _ _ _ _ _ _) as [r fr1] eqn:Hrun.
  assert (Hk : ∀ p w, bases fr !! p = Some w → bases fr1 !! p = Some w)
    by (intros p w; eapply bases_kept; [by apply grows_event|exact Hrun]).
  cbn. case_match; [by apply Hk|]. destruct Hp as (h & prev & t & bh & Hb & Hl). exists h, prev, t, bh. auto.
Qed.

Lemma block_time_later g (x : Ctx A E) : 0 ≤ genTimestamp x < 2 ^ 64 - 1 → genTimestamp x < block_time g x.
Proof.
  intros Ht. unfold block_time. case_match eqn:Hle; [|lia]. rewrite u64_small by (unfold is_u64; lia). lia.
Qed.

Lemma generates_extends g fr bs h prev t :
  generates g fr bs → place g fr (h, prev, t) → extends (bq_Formulator (gs_req g)) h prev t bs.
Proof using Hcn.
  intros Hg. revert h prev t. induction Hg as [|env g fr g1 fr1 fr2 out b sig bs H1 Hout Hr Hg IH]; intros h prev t Hp; [done|].
  destruct (gen_one_place _ _ _ _ _ _ _ _ _ Hp H1 Hout) as ((x & Hx & Ho) & Hp1 & Hreq). cbn in Ho, Hp1.
  apply (place_kept _ _ _ _ Hr) in Hp1. apply IH in Hp1. rewrite Hreq in Hp1.
  injection Ho as Hh Hpv Ht Hgn _. injection Hx as _ _ <-. cbn [extends].
  do 3 (split; [done|]). split; [|done]. rewrite Ht. apply block_time_later.
Qed.
End GeneratedChain.

(** ** The size of a block *)

Section BlockSize.
Context {A E T P : Type} `{AI : AccountI A} `{EI : EventI E} `{B58 : Base58} `{HF : HashFn}.
Context `{EH : !EncodingHash A E} `{SC : !StoreCodec A E T} `{PI : !PileI P} `{TC : !TxCodec T}.
Context `{TX : !TransactionI T A E} `{RC : Recover} `{FI : FormulatorI A} `{TK : TokenCodec}.
Context (cn : Chain A E T) (config : FormulatorConfig) (key_Sign : Hash256 → res Signature).

Definition tx_count (b : Block T) : Z := Z.of_nat (length (Transactions b)).
Definition counts (n : Z) (bc : BlockCreator A E T) : Prop := tx_count (bc_b bc) = n.

Lemma counts_on_ctx {V} n (m : M (Ctx A E) V) : keeps (counts n) (on_ctx m).
Proof. intros bc Hn. unfold on_ctx. by destruct (m _). Qed.

(** A transaction is in the block when [UnsafeAddTx] succeeds, and only then. *)
Lemma UnsafeAddTx_count gen t h tx sigs signers bc r bc' :
  UnsafeAddTx cn gen t h tx sigs signers bc = (r, bc') →
  tx_count (bc_b bc') = tx_count (bc_b bc) + match r with Ok _ => 1 | _ => 0 end.
Proof.
  unfold UnsafeAddTx, lift, get, guard_err, on_ctx, modify, mbind, M_bind.
  destruct (getProcess cn (pid_of t)); cbn; [|intros [= <- <-]; lia..].
  destruct (bad_slot _ _); cbn; [intros [= <- <-]; lia|].
  destruct (execute_tx _ _ _ _ _ _ _ _) as [[] c']; cbn; intros [= <- <-]; cbn; [|lia..].
  unfold tx_count. cbn. rewrite length_app. cbn. lia.
Qed.

Lemma Finalize_count n : keeps (counts n) (Finalize cn).
Proof.
  unfold Finalize. apply keeps_bind; [by intros bc|intros bc0]. apply keeps_bind; [apply keeps_lift|intros root].
  apply keeps_bind; [by intros bc|intros _]. apply keeps_bind; [apply counts_on_ctx|intros _].
  apply keeps_bind; [by intros bc|intros bc]. do 2 (apply keeps_bind; [apply counts_on_ctx|intros ?]).
  apply keeps_bind; [by intros bc'|intros _]. by intros bc'.
Qed.

Lemma on_creator_count {V} p hashes b (m : M (BlockCreator A E T) V) (fr : FormulatorNode A E T P) r fr' n :
  keeps (counts n) m → on_creator p hashes b m fr = (Ok r, fr') → tx_count b = n → tx_count r.2.2 = n.
Proof.
  intros Hm (x & bc & _ & Hr & ->)%on_creator_Ok Hn. specialize (Hm (mkCreator x hashes b) Hn). by rewrite Hr in Hm.
Qed.

(** The loop looks at the count after it has added. *)
Lemma tx_loop_count n p slot max count hb (fr : FormulatorNode A E T P) hb' fr' :
  tx_loop cn config n p slot max count hb fr = (Ok hb', fr') → tx_count hb.2 = count → count ≤ Z.max 0 max →
  tx_count hb'.2 ≤ Z.max 0 max + 1.
Proof.
  revert count hb fr. induction n as [|n IH]; intros count hb fr; cbn [tx_loop]; [intros [= <- _]; lia|].
  intros (sn & fr1 & _ & H)%bind_inv_Ok Hc Hm. apply bind_inv_Ok in H as (item & fr2 & _ & H).
  apply bind_inv_Ok in H as (u & fr3 & _ & H). destruct item as [it|]; [|injection H as <- _; lia].
  apply bind_inv_Ok in H as ([r hb1] & fr4 & Hr & H). apply on_creator_Ok in Hr as (x & bc & _ & Hr & Hb).
  cbn in Hb. subst hb1. unfold try in Hr. destruct (UnsafeAddTx _ _ _ _ _ _ _ _) as [[v|e|] bc1] eqn:Hadd; [| |done].
  all: apply UnsafeAddTx_count in Hadd; cbn in Hr, Hadd; injection Hr as <- <-.
  - case_match; [injection H as <- _; cbn; lia|]. eapply IH in H; [done|cbn; lia|lia].
  - eapply IH in H; [done|cbn; lia|done].
Qed.

Lemma gen_one_count env g (fr : FormulatorNode A E T P) g' fr' out b sig m :
  gen_one cn config key_Sign env g fr = (Ok g', fr') →
  fr_out fr' = out ++ [FoObserver (gs_ID g) (MGen (mkBlockGen b sig false))] →
  gs_MaxTx g ≤ m → gs_HalfTx g ≤ m → tx_count b ≤ Z.max 0 m + 1 ∧ gs_MaxTx g' ≤ m ∧ gs_HalfTx g' ≤ m.
Proof.
  unfold gen_one. intros (p & fr1 & _ & H)%bind_inv_Ok Hout Hm Hh.
  apply bind_inv_Ok in H as (x & fr2 & _ & H). apply bind_inv_Ok in H as (r & fr3 & H3 & H).
  eapply (on_creator_count _ _ _ _ _ _ _ 0) in H3; [|apply counts_on_ctx|done].
  apply bind_inv_Ok in H as (hb & fr4 & H4 & H). apply tx_loop_count in H4; [|done|lia].
  apply bind_inv_Ok in H as (r2 & fr5 & H5 & H). eapply on_creator_count in H5 as Hc; [|apply Finalize_count|done].
  apply on_creator_Ok in H5 as (y0 & bc & _ & HF5 & HF6). apply Finalize_returns in HF5. rewrite HF6 in Hc. cbn in Hc.
  rewrite HF5 in Hc. clear HF5 HF6 H3. apply bind_inv_Ok in H as (sig0 & fr6 & H6 & H). injection H6 as _ <-.
  unfold fr_emit, on_ptr, modify, mbind, M_bind in H. cbn in H. destruct (fr_heap fr5 !! p) as [y|]; [|done]. cbn in H.
  injection H as <- <-. cbn in Hout. apply app_inj_tail in Hout as [_ [= <- <-]]. cbn. rewrite Hc.
  by repeat split; case_match; lia.
Qed.
End BlockSize.

(** ** The theorem *)

Section Theorems.
Context {A E T P : Type} `{AI : AccountI A} `{EI : EventI E} `{B58 : Base58} `{HF : HashFn}.
Context `{EH : !EncodingHash A E} `{SC : !StoreCodec A E T} `{PI : !PileI P} `{TC : !TxCodec T}.
Context `{TX : !TransactionI T A E} `{RC : Recover} `{FI : FormulatorI A} `{TK : TokenCodec}.

Lemma start_place cpus config env ID req (fr : FormulatorNode A E T P) g fr0 :
  start_generation cpus config env ID req fr = (Ok g, fr0) →
  place g fr0 (or_zero (st_TargetHeight (nd_store (fr_node fr))),
    match st_LastHash (nd_store (fr_node fr)) with Ok h => h | _ => replicate Hash256Size 0 end,
    or_zero (st_LastTimestamp (nd_store (fr_node fr)))) ∧ gs_req g = req.
Proof.
  unfold start_generation, the_cs, the_store. cbn. unfold mbind, M_bind, gets, fr_now, lift. cbn.
  destruct (st_LastTimestamp (nd_store (fr_node fr))) as [ts|e|] eqn:Ht; [|done..]. cbn. intros [= <- <-]. split; [|done].
  split; [done|]. cbn. unfold bases. cbn. rewrite list_lookup_fmap, lookup_app_r by lia. rewrite Nat.sub_diag. unfold base. cbn. by rewrite Ht.
Qed.

(** C12. The blocks a formulator sends for one request, with any messages,
    blocks, transactions and goroutines handled between them, extend the chain
    as it was when the generation began: the first one is the next block of
    that chain, each further one follows the block sent before it, all are of
    the formulator that was asked, and their times grow. *)
Theorem generation_extends_chain BlockSign_Hash (cn : Chain A E T) cpus pick config me frPub key_Sign env ID req
    (fr : FormulatorNode A E T P) g fr0 bs height last ts :
  chain_steady cn →
  st_Height (nd_store (fr_node fr)) = Ok height → st_LastHash (nd_store (fr_node fr)) = Ok last →
  st_LastTimestamp (nd_store (fr_node fr)) = Ok ts →
  start_generation cpus config env ID req fr = (Ok g, fr0) →
  generates BlockSign_Hash cn cpus pick config me frPub key_Sign g fr0 bs →
  extends (bq_Formulator req) (u32 (height + 1)) last ts bs.
Proof.
  intros Hcn Hh Hl Ht [Hp Hq]%start_place Hg. eapply generates_extends in Hg; [|done|exact Hp].
  unfold st_TargetHeight in Hg. by rewrite Hq, Hh, Hl, Ht in Hg.
Qed.

Lemma cpu_limit_le cpus max : cpu_limit cpus max ≤ max.
Proof. unfold cpu_limit. do 9 (destruct cpus as [|cpus]; [lia|]). lia. Qed.

(** C39. No block that a formulator sends has more transactions than the
    configuration allows, and one: the count is compared after a transaction
    was added. *)
Theorem generated_block_size BlockSign_Hash (cn : Chain A E T) cpus pick config me frPub key_Sign env ID req
    (fr : FormulatorNode A E T P) g fr0 bs :
  start_generation cpus config env ID req fr = (Ok g, fr0) →
  generates BlockSign_Hash cn cpus pick config me frPub key_Sign g fr0 bs →
  Forall (λ b, tx_count b ≤ Z.max 0 (fc_MaxTransactionsPerBlock config) + 1) bs.
Proof.
  intros Hs Hg. assert (Hm : gs_MaxTx g ≤ Z.max 0 (fc_MaxTransactionsPerBlock config) ∧ gs_HalfTx g ≤ Z.max 0 (fc_MaxTransactionsPerBlock config)).
  { unfold start_generation, the_cs, the_store, mbind, M_bind, gets, fr_now, lift in Hs. cbn in Hs.
    destruct (st_LastTimestamp _); [|done..]. cbn in Hs. injection Hs as <- <-. cbn.
    set (m := Z.min _ _). assert (m ≤ fc_MaxTransactionsPerBlock config) by (subst m; lia). clearbody m.
    pose proof (cpu_limit_le cpus m). set (n := cpu_limit cpus m) in *. clearbody n. split; [lia|].
    destruct (decide (0 ≤ n)); [pose proof (Z.quot_le_upper_bound n 2 n); lia|pose proof (Z.quot_opp_l (-n) 2); pose proof (Z.quot_pos (-n) 2); rewrite Z.opp_involutive in *; lia]. }
  clear fr Hs. induction Hg as [|env' g fr g1 fr1 fr2 out b sig bs H1 Hout Hr Hg IH]; [constructor|].
  destruct (gen_one_count _ _ _ _ _ _ _ _ _ _ _ _ H1 Hout (proj1 Hm) (proj2 Hm)) as (? & ? & ?).
  constructor; [lia|auto].
Qed.
End Theorems.
