(* ===== verification/FormulatorLost.v ===== *)
(** * pof: a block that a formulator can not connect

    A block that waits in the queue is marked in [blockWaitMap], and a marked
    height is not asked for.  The mark is taken off when a block of that
    height is connected from the queue, and only then: no other event touches
    the marks, except to set them. *)

From S2P Require Import Prelude Tokens Common Context Block Store Chain Search SortedQueue LinkedQueue ExpireQueue TxPool Rank Pof RequestTimer Observer ObserverHandle ObserverSpec ObserverOnChain FormulatorNode FormulatorHandle FormulatorEvents.

Section Lost.
Context {A E T P : Type} `{AI : AccountI A} `{EI : EventI E} `{B58 : Base58} `{HF : HashFn}.
Context `{EH : !EncodingHash A E} `{SC : !StoreCodec A E T} `{PI : !PileI P} `{TC : !TxCodec T}.
Context `{TX : !TransactionI T A E} `{RC : Recover} `{FI : FormulatorI A} `{TK : TokenCodec}.

Abbreviation fnode := (FormulatorNode A E T P).
Abbreviation frM := (M (FormulatorNode A E T P)).
Implicit Types (fr : fnode) (q : SortedQueue (V:=Block T)).

(** ** Marks and requests *)

(** A request for blocks from height [h] on, to a node or to all nodes. *)
Definition asks (h : Z) (o : frout T) : bool :=
  match o with FoNode _ (MAsk m) | FoNodes (MAsk m) => rm_Height m =? h | _ => false end.
Definition asked (h : Z) fr : list (frout T) := filter (λ o, asks h o = true) (fr_out fr).

(** A marked height, and the requests for it. *)
Definition marked (h : Z) (l : list (frout T)) fr : Prop := fr_blockWait fr !! h = Some true ∧ asked h fr = l.

(** The blocks of the queue wait at their height. *)
Definition queue_keyed q : Prop := ∃ l, sq_holds q l ∧ Forall (λ e : Block T * Z, HHeight (BHeader e.1) = e.2) l.
Definition keyed_queue fr : Prop := queue_keyed (fr_blockQ fr).

Lemma queue_keyed_insert q (b : Block T) : queue_keyed q → queue_keyed (FindOrInsert (Some b) (HHeight (BHeader b)) q).2.
Proof.
  intros (l & Hl & Hf). unfold FindOrInsert. rewrite (find_holds q l _ Hl). case_match; [by exists l|].
  exists (spec_insert b (HHeight (BHeader b)) l). split; [by apply insert_holds|]. unfold spec_insert.
  apply Forall_app. split; [|constructor; [done|]]; by apply Forall_filtered.
Qed.
Lemma queue_keyed_pop q h : queue_keyed q → queue_keyed (PopUntil h q).2 ∧
  ∀ b, (PopUntil h q).1 = Some b → HHeight (BHeader b) = h.
Proof.
  intros (l & Hl & Hf). pose proof (popuntil_holds (sq_size q) q l h Hl (Nat.eq_le_incl _ _ (eq_sym (sh_size _ _ Hl)))) as [Hp1 Hp2].
  split; [exists (spec_pop_until h l).2; split; [done|by apply pop_until_in]|].
  intros b Hb. unfold PopUntil in Hb. rewrite Hp1 in Hb. unfold spec_pop_until in Hb.
  pose proof (Forall_filtered _ (λ e : Block T * Z, h ≤ e.2) l Hf) as Hk.
  destruct (filter (λ e, h ≤ e.2) l) as [|[b' k] l']; [done|]. inversion Hk as [|? ? H1 H2]; subst.
  destruct (Z.eqb_spec k h); [|done]. cbn in *. by injection Hb as <-; subst.
Qed.

(** *** Programs that keep both *)

Definition stays {V} (m : frM V) : Prop := (∀ h l, keeps (marked h l) m) ∧ keeps keyed_queue m.

Lemma stays_same {V} (m : frM V) :
  (∀ fr, fr_blockWait (m fr).2 = fr_blockWait fr ∧ fr_out (m fr).2 = fr_out fr ∧ fr_blockQ (m fr).2 = fr_blockQ fr) → stays m.
Proof.
  intros Hm. split; [intros h l|]; intros fr; destruct (Hm fr) as (E1 & E2 & E3).
  - intros [H1 H2]. unfold marked, asked. by rewrite E1, E2.
  - unfold keyed_queue. by rewrite E3.
Qed.
Lemma stays_bind {V W} (m : frM V) (f : V → frM W) : stays m → (∀ v, stays (f v)) → stays (m ≫= f).
Proof. intros [Hm1 Hm2] Hf. split; [intros h l|]; (apply keeps_bind; [done|]); intros v; apply Hf. Qed.
Lemma stays_try {V} (m : frM V) : stays m → stays (try m).
Proof. intros [Hm1 Hm2]. split; [intros h l|]; by apply keeps_try. Qed.
Lemma stays_for_each {V} (f : V → frM unit) l : (∀ v, stays (f v)) → stays (for_each f l).
Proof. intros Hf. split; [intros h k|]; apply keeps_for_each; intros v; apply Hf. Qed.
Lemma stays_ret {V} (v : V) : stays (mret v).
Proof. by apply stays_same. Qed.
Lemma stays_lift {V} (r : res V) : stays (lift r).
Proof. by apply stays_same. Qed.
Lemma stays_guard b e : stays (guard_err b e).
Proof. apply stays_same. by destruct b. Qed.
Lemma stays_fail {V} e : stays (fail e : frM V).
Proof. by apply stays_same. Qed.
Lemma stays_panic {V} : stays (panic : frM V).
Proof. by apply stays_same. Qed.
Lemma stays_gets {V} (f : fnode → V) : stays (gets f).
Proof. by apply stays_same. Qed.
Lemma stays_get : stays get.
Proof. by apply stays_same. Qed.
Lemma stays_modify (f : fnode → fnode) :
  (∀ fr, fr_blockWait (f fr) = fr_blockWait fr ∧ fr_out (f fr) = fr_out fr ∧ fr_blockQ (f fr) = fr_blockQ fr) → stays (modify f).
Proof. intros H. by apply stays_same. Qed.

(** What leaves the node is no request. *)
Lemma asked_emit h o fr : asks h o = false → asked h ((fr_emit o : frM unit) fr).2 = asked h fr.
Proof.
  intros Ho. unfold asked. cbn. rewrite filter_app, filter_cons, decide_False, filter_nil, app_nil_r; [done|]. by rewrite Ho.
Qed.
Lemma stays_emit o : (∀ h, asks h o = false) → stays (fr_emit o : frM unit).
Proof. intros Ho. split; [|by intros fr]. intros h l fr [H1 H2]. split; [done|]. by rewrite asked_emit. Qed.
Lemma stays_deliver Target m : (∀ h, asks h (FoNodes m) = false) → stays (deliver Target m : frM unit).
Proof. intros Hm. unfold deliver. case_bool_decide; by apply stays_emit. Qed.
Lemma stays_status {V} (f : frmsg T → frM V) : (∀ st, stays (f (MState st))) → stays (status_now ≫= f).
Proof.
  intros Hf. assert (Hs : ∀ fr, (status_now ≫= f) fr = match st_LastStatus (nd_store (fr_node fr)) with
    | Ok (height, lastHash) => f (MState (mkStatus (st_version (nd_store (fr_node fr))) height lastHash)) fr
    | Err e => (Err e, fr) | Panic => (Panic, fr) end).
  { intros fr. unfold status_now, the_store, mbind, M_bind, gets, lift. by destruct (st_LastStatus _) as [[]|e|]. }
  split; [intros h l|]; intros fr Hfr; rewrite Hs; destruct (st_LastStatus _) as [[]|e|]; try done; by apply Hf.
Qed.
Lemma stays_on_ptr {V} p (m : M (Ctx A E) V) : stays (on_ptr p m : frM V).
Proof. apply stays_same. intros fr. unfold on_ptr. destruct (fr_heap fr !! p) as [x|]; [|done]. by destruct (m x). Qed.
Lemma stays_new_ctx x : stays (new_ctx x : frM nat).
Proof. by apply stays_same. Qed.
Lemma stays_on_pool {V} (m : M TransactionPool V) : stays (on_pool m : frM V).
Proof. apply stays_same. intros fr. unfold on_pool. by destruct (m _). Qed.
Lemma stays_on_wait {V} (m : M (LinkedQueue Hash256 (TxMsgItem T)) V) : stays (on_wait m : frM V).
Proof. apply stays_same. intros fr. unfold on_wait. by destruct (m _). Qed.
End Lost.

Create HintDb stays.
#[export] Hint Resolve stays_ret stays_lift stays_guard stays_fail stays_panic stays_gets stays_get stays_on_ptr stays_new_ctx
  stays_on_pool stays_on_wait : stays.
#[export] Hint Extern 1 (stays (modify _)) => apply stays_modify; intros ?; split_and!; reflexivity : stays.
#[export] Hint Extern 1 (stays (fr_emit _)) => apply stays_emit; intros ?; reflexivity : stays.
#[export] Hint Extern 1 (stays (deliver _ _)) => apply stays_deliver; intros ?; reflexivity : stays.

Ltac stay := repeat (first
  [ solve [auto 1 with stays nocore]
  | apply stays_status; intros ?
  | apply stays_bind; [|intros ?]
  | apply stays_try
  | apply stays_for_each; intros ?
  | progress cbn beta iota
  | case_match ]).

Section LostEvents.
Context {A E T P : Type} `{AI : AccountI A} `{EI : EventI E} `{B58 : Base58} `{HF : HashFn}.
Context `{EH : !EncodingHash A E} `{SC : !StoreCodec A E T} `{PI : !PileI P} `{TC : !TxCodec T}.
Context `{TX : !TransactionI T A E} `{RC : Recover} `{FI : FormulatorI A} `{TK : TokenCodec}.
Context (BSH : Hash256 → Signature → Hash256) (cn : Chain A E T) (cpus : nat) (pick : error → list error → error).
Context (config : FormulatorConfig) (me frPub : PublicHash) (key_Sign : Hash256 → res Signature).
Implicit Types (fr : FormulatorNode A E T P) (q : SortedQueue (V:=Block T)) (env : FEnv).
Abbreviation frM := (M (FormulatorNode A E T P)).

(** ** Asking for blocks *)

Lemma stays_now env : stays (fr_now env : frM Z).
Proof. by apply stays_same. Qed.
Lemma stays_random env n : stays (fr_random env n : frM nat).
Proof. by apply stays_same. Qed.
Hint Resolve stays_now stays_random : stays.
Lemma stays_timer_Add env height value : stays (fr_timer_Add env height value : frM bool).
Proof. unfold fr_timer_Add. stay. Qed.
Hint Resolve stays_timer_Add : stays.

(** A request for a height above the chain that is not marked changes what is
    asked for that height only. *)
Lemma asked_deliver h Target height n fr :
  height ≠ h → asked h ((deliver Target (MAsk (mkRequestMessage height n)) : frM unit) fr).2 = asked h fr.
Proof. intros Hne. unfold deliver. case_bool_decide; apply asked_emit; cbn; by apply Z.eqb_neq. Qed.

Lemma frHeight_bind {V} (k : Z → frM V) fr :
  (fr_Height ≫= k) fr = match st_Height (nd_store (fr_node fr)) with
                        | Ok h => k h fr | Err e => (Err e, fr) | Panic => (Panic, fr) end.
Proof. unfold fr_Height, the_store, mbind, M_bind, gets, lift. cbn. by destruct (st_Height _). Qed.
Lemma bind_get {V} (k : FormulatorNode A E T P → frM V) fr : (get ≫= k) fr = k fr fr.
Proof. done. Qed.

(** Nobody is asked for a height that is marked or that the chain has. *)
Definition quiet_at (h : Z) (l : list (frout T)) (w : gmap Z bool) q nd fr : Prop :=
  (fr_blockWait fr = w ∧ fr_blockQ fr = q ∧ fr_node fr = nd) ∧ asked h fr = l.
Lemma quiet_request h l w q nd env Target height n :
  (is_Some (w !! h) ∨ ∃ top, st_Height (nd_store nd) = Ok top ∧ h ≤ top) →
  keeps (quiet_at h l w q nd) (sendRequestBlockToNode me env Target height n : frM unit).
Proof.
  intros Hw. unfold sendRequestBlockToNode. case_bool_decide; [apply keeps_ret|].
  intros fr Hq. rewrite frHeight_bind. destruct (st_Height (nd_store (fr_node fr))) as [top|e|] eqn:Htop; [|done..]. rewrite bind_get.
  assert (Hq' := Hq). destruct Hq' as [(E1 & E2 & E3) E4]. rewrite E3 in Htop. rewrite E1.
  destruct (Z.leb_spec height top) as [|Hgt]; [done|]. cbn [orb]. case_bool_decide as Hm; [done|].
  assert (Hne : height ≠ h).
  { intros ->. destruct Hw as [Hw|(top' & Ht & Hle)]; [done|]. rewrite Htop in Ht. injection Ht as <-. lia. }
  clear Hm E1 E2 E3 E4. revert fr Hq. apply keeps_for_each. intros i.
  apply keeps_bind; [|intros [|]; [|apply keeps_ret]].
  - intros fr ((? & ? & ?) & ?). unfold fr_timer_Add, fr_now, mbind, M_bind, get, modify. cbn.
    by destruct (rt_Add _ _ _ _ _) as [r rt].
  - intros fr [(? & ? & ?) Hl]. split; [|by rewrite asked_deliver]. unfold deliver. by case_bool_decide.
Qed.
Lemma quiet_tryRequestBlocks h l w q nd env :
  (is_Some (w !! h) ∨ ∃ top, st_Height (nd_store nd) = Ok top ∧ h ≤ top) →
  keeps (quiet_at h l w q nd) (tryRequestBlocks me env : frM unit).
Proof.
  intros Hw. unfold tryRequestBlocks. apply keeps_bind; [apply keeps_bind; [apply keeps_gets|intros st; apply keeps_lift]|intros top].
  apply keeps_for_each. intros i. apply keeps_bind; [by intros fr|intros fr].
  case_match; [apply keeps_ret|]. case_match; [apply keeps_ret|].
  apply keeps_bind; [by intros fr'|intros idx]. apply keeps_bind; [apply keeps_lift|intros ID]. by apply quiet_request.
Qed.
Lemma keyed_deliver Target m : keeps keyed_queue (deliver Target m : frM unit).
Proof. intros fr Hk. unfold deliver. by case_bool_decide. Qed.
Lemma keyed_tryRequestBlocks env : keeps keyed_queue (tryRequestBlocks me env : frM unit).
Proof.
  unfold tryRequestBlocks. apply keeps_bind; [apply keeps_bind; [apply keeps_gets|intros st; apply keeps_lift]|intros top].
  apply keeps_for_each. intros i. apply keeps_bind; [by intros fr|intros fr].
  case_match; [apply keeps_ret|]. case_match; [apply keeps_ret|].
  apply keeps_bind; [by intros fr'|intros idx]. apply keeps_bind; [apply keeps_lift|intros ID].
  unfold sendRequestBlockToNode. case_bool_decide; [apply keeps_ret|].
  apply keeps_bind; [apply keeps_bind; [apply keeps_gets|intros st; apply keeps_lift]|intros top'].
  apply keeps_bind; [by intros fr'|intros fr']. case_match; [apply keeps_ret|]. apply keeps_for_each. intros j.
  apply keeps_bind; [apply stays_timer_Add|intros [|]; [|apply keeps_ret]]. apply keyed_deliver.
Qed.
Lemma stays_tryRequestBlocks env : stays (tryRequestBlocks me env : frM unit).
Proof.
  split.
  - intros h l fr [Hw Hl].
    destruct (quiet_tryRequestBlocks h l (fr_blockWait fr) (fr_blockQ fr) (fr_node fr) env (or_introl (ex_intro _ _ Hw)) fr)
      as [(E1 & _) E2]; [done|]. split; [by rewrite E1|done].
  - apply keyed_tryRequestBlocks.
Qed.
Hint Resolve stays_tryRequestBlocks : stays.

(** ** The other programs *)

Lemma stays_Height : stays (fr_Height : frM Z).
Proof. unfold fr_Height, the_store. stay. Qed.
Lemma stays_store : stays (the_store : frM (Store T P)).
Proof. unfold the_store. stay. Qed.
Lemma stays_cs : stays (the_cs : frM CState).
Proof. unfold the_cs. stay. Qed.
Lemma stays_spawn t : stays (spawn t : frM unit).
Proof. unfold spawn. stay. Qed.
Lemma stays_set_txQ Q : stays (set_txQ Q : frM unit).
Proof. unfold set_txQ. stay. Qed.
Lemma stays_set_sendQ f : stays (set_sendQ f : frM unit).
Proof. unfold set_sendQ. stay. Qed.
Lemma stays_deliver_packet Target m : stays (deliver_packet Target m : frM unit).
Proof. unfold deliver_packet. stay. Qed.
Hint Resolve stays_Height stays_store stays_cs stays_spawn stays_set_txQ stays_set_sendQ stays_deliver_packet : stays.
Lemma stays_broadcastStatus : stays (fr_broadcastStatus : frM unit).
Proof. unfold fr_broadcastStatus, fr_broadcastMessage. stay. Qed.
Lemma stays_sendRequest env ID h n : stays (fr_sendRequestBlockTo env ID h n : frM unit).
Proof. unfold fr_sendRequestBlockTo. stay. Qed.
Hint Resolve stays_broadcastStatus stays_sendRequest : stays.
Lemma stays_tryRequestNext env : stays (tryRequestNext env : frM unit).
Proof. unfold tryRequestNext. stay. Qed.
Lemma stays_last_slot : stays (last_slot : frM Z).
Proof. unfold last_slot. stay. Qed.
Hint Resolve stays_tryRequestNext stays_last_slot : stays.
Lemma stays_addTx env h t tx sigs : stays (addTx cn env h t tx sigs : frM unit).
Proof. unfold addTx. stay. Qed.
Hint Resolve stays_addTx : stays.
Lemma stays_AddTx env tx sigs : stays (fr_AddTx cn env tx sigs : frM unit).
Proof. unfold fr_AddTx. stay. Qed.
Lemma stays_work_item env slot item : stays (work_item cn env slot item : frM unit).
Proof. unfold work_item. stay. Qed.
Hint Resolve stays_AddTx stays_work_item : stays.
Lemma stays_work_loop env n slot : stays (work_loop cn env n slot : frM unit).
Proof. induction n as [|n IH]; cbn [work_loop]; stay. Qed.
Hint Resolve stays_work_loop : stays.
Lemma stays_worker env : stays (tx_worker cn env : frM unit).
Proof. unfold tx_worker. stay. Qed.
Lemma stays_sender env : stays (tx_sender env : frM unit).
Proof. unfold tx_sender, fr_broadcastMessage. stay. Qed.
Lemma stays_OnItemExpired item last : stays (OnItemExpired item last : frM unit).
Proof. unfold OnItemExpired. stay. Qed.
Lemma stays_take_txs ID ms : stays (take_txs ID ms : frM unit).
Proof. unfold take_txs. stay. Qed.
Hint Resolve stays_worker stays_sender stays_OnItemExpired stays_take_txs : stays.

Lemma marked_blocks h l q (f : gmap Z bool → gmap Z bool) :
  (∀ w, w !! h = Some true → f w !! h = Some true) → keeps (marked h l) (modify (upd_blocks q f) : frM unit).
Proof. intros Hf fr [Hw Hl]. split; [by apply Hf|done]. Qed.
Lemma keyed_blocks q (f : gmap Z bool → gmap Z bool) : queue_keyed q → keeps keyed_queue (modify (upd_blocks q f) : frM unit).
Proof. by intros Hq fr _. Qed.
Lemma stays_addBlock b : stays (fr_addBlock b : frM unit).
Proof.
  assert (Hi : ∀ h (w : gmap Z bool), w !! h = Some true → <[HHeight (BHeader b) := true]> w !! h = Some true).
  { intros h w Hw. destruct (decide (HHeight (BHeader b) = h)) as [->|]; by simplify_map_eq. }
  assert (Hall : ∀ Q : FormulatorNode A E T P → Prop, (∀ fr, Q fr → ∀ f, f = id ∨ f = <[HHeight (BHeader b) := true]> →
    keeps Q (modify (upd_blocks (FindOrInsert (Some b) (HHeight (BHeader b)) (fr_blockQ fr)).2 f) : frM unit)) →
    keeps Q (fr_addBlock b : frM unit)).
  { intros Q HQ fr Hfr. unfold fr_addBlock. rewrite bind_get. pose proof (HQ fr Hfr) as Hm.
    destruct (FindOrInsert _ _ _) as [item q]. generalize (nd_store (fr_node fr)). intros st. revert fr Hfr Hm. cbn [snd].
    intros fr Hfr Hm. revert fr Hfr.
    apply keeps_bind; [apply keeps_lift|intros top]. case_match.
    - apply keeps_bind; [apply keeps_lift|intros h]. apply keeps_guard.
    - apply keeps_bind; [apply Hm; by left|intros _]. apply keeps_bind; [|intros _; apply Hm; by right].
      case_match; [apply keeps_guard|apply keeps_ret]. }
  split; [intros h l|]; apply Hall.
  - intros fr _ f [-> | ->]; apply marked_blocks; [done|apply Hi].
  - intros fr Hk f _. apply keyed_blocks. by apply queue_keyed_insert.
Qed.
Lemma stays_cleanPool b : stays (cleanPool b : frM unit).
Proof. unfold cleanPool. stay. Qed.
Lemma stays_expirePool env b : stays (expirePool env b : frM unit).
Proof. unfold expirePool. stay. Qed.
Lemma stays_ConnectBlock b : stays (fr_ConnectBlock BSH cn cpus pick b : frM unit).
Proof. apply stays_same. intros fr. unfold fr_ConnectBlock. by destruct (ConnectBlock _ _ _ _ _ _ _). Qed.
Lemma stays_ConnectWithContext p b : stays (fr_ConnectWithContext BSH cn p b : frM unit).
Proof.
  apply stays_same. intros fr. unfold fr_ConnectWithContext. destruct (fr_heap fr !! p); [|done].
  by destruct (ConnectBlockWithContext _ _ _ _) as [r [nd x]].
Qed.
Lemma stays_Execute b p : stays (fr_Execute cn cpus pick b p : frM unit).
Proof. unfold fr_Execute. stay. Qed.
Lemma stays_next_ctx p bh : stays (next_ctx p bh : frM nat).
Proof. unfold next_ctx. stay. Qed.
Lemma stays_NewContext : stays (NewContext_now : frM nat).
Proof. unfold NewContext_now. stay. Qed.
Hint Resolve stays_addBlock stays_cleanPool stays_expirePool stays_ConnectBlock stays_ConnectWithContext stays_Execute
  stays_next_ctx stays_NewContext : stays.
Lemma stays_connect_queued b : stays (connect_queued BSH cn cpus pick b : frM unit).
Proof. unfold connect_queued. stay. Qed.
Lemma stays_forget_request b : stays (forget_request config b : frM unit).
Proof. unfold forget_request. stay. Qed.
Lemma stays_follow_ctx h p bh ctx : stays (follow_ctx h p bh ctx : frM (option nat)).
Proof. unfold follow_ctx. stay. Qed.
Hint Resolve stays_connect_queued stays_forget_request stays_follow_ctx : stays.
Lemma stays_prepare n first h ctx : stays (prepare cn cpus pick n first h ctx : frM unit).
Proof. revert h ctx. induction n as [|n IH]; intros h ctx; cbn [prepare]; stay. Qed.
Hint Resolve stays_prepare : stays.
Lemma stays_update_loop env n h : stays (update_loop BSH cn cpus pick env n h : frM unit).
Proof. revert h. induction n as [|n IH]; intros h; cbn [update_loop]; stay. Qed.
Hint Resolve stays_update_loop : stays.
Lemma stays_updateByGenItem env : stays (updateByGenItem BSH cn cpus pick env : frM unit).
Proof. unfold updateByGenItem. stay. Qed.
Hint Resolve stays_updateByGenItem : stays.

Lemma stays_on_creator {V} p hashes b (m : M (BlockCreator A E T) V) : stays (on_creator p hashes b m : frM _).
Proof. apply stays_same. intros fr. unfold on_creator. destruct (fr_heap fr !! p); [|done]. by destruct (m _). Qed.
Hint Resolve stays_on_creator : stays.
Lemma stays_tx_loop n p slot max count hb : stays (tx_loop cn config n p slot max count hb : frM _).
Proof. revert count hb. induction n as [|n IH]; intros count hb; cbn [tx_loop]; stay. Qed.
Hint Resolve stays_tx_loop : stays.
Lemma stays_gen_one env g : stays (gen_one cn config key_Sign env g : frM _).
Proof. unfold gen_one. stay. Qed.
Lemma stays_start env ID req : stays (start_generation cpus config env ID req : frM _).
Proof. unfold start_generation. stay. Qed.
Lemma stays_set_generating b : stays (set_generating b : frM _).
Proof. unfold set_generating. stay. Qed.
Hint Resolve stays_gen_one stays_start stays_set_generating : stays.
Lemma stays_gen_step env g : stays (gen_step cn config key_Sign env g : frM _).
Proof. unfold gen_step. stay. Qed.
Hint Resolve stays_gen_step : stays.
Lemma stays_genBlock env ID req : stays (genBlock cn cpus config key_Sign env ID req : frM _).
Proof. unfold genBlock. stay. Qed.
Hint Resolve stays_genBlock : stays.

Lemma stays_BlockReq env ID msg n : stays (handle_BlockReq config frPub env ID msg n : frM unit).
Proof. unfold handle_BlockReq. stay. Qed.
Lemma stays_Gen msg : stays (handle_Gen config msg : frM unit).
Proof. unfold handle_Gen. stay. Qed.
Lemma stays_ObSign ID msg : stays (handle_ObSign ID msg : frM unit).
Proof. unfold handle_ObSign. stay. Qed.
Lemma stays_ObBlocks env ID Blocks : stays (handle_ObBlocks env ID Blocks : frM unit).
Proof. unfold handle_ObBlocks. stay. Qed.
Hint Resolve stays_BlockReq stays_Gen stays_ObSign stays_ObBlocks : stays.
Lemma stays_observer env ID m n : stays (fr_handleObserverMessage config frPub env ID m n : frM unit).
Proof. unfold fr_handleObserverMessage. stay. Qed.
Lemma stays_PeerRequest env ID msg : stays (handle_PeerRequest env ID msg : frM unit).
Proof. unfold handle_PeerRequest. stay. Qed.
Lemma stays_PeerStatus env ID msg : stays (handle_PeerStatus me env ID msg : frM unit).
Proof. unfold handle_PeerStatus. stay. Qed.
Lemma stays_PeerBlocks ID Blocks : stays (handle_PeerBlocks ID Blocks : frM unit).
Proof. unfold handle_PeerBlocks. stay. Qed.
Lemma stays_PeerTxs ID ms : stays (handle_PeerTxs ID ms : frM unit).
Proof. unfold handle_PeerTxs. stay. Qed.
Hint Resolve stays_observer stays_PeerRequest stays_PeerStatus stays_PeerBlocks stays_PeerTxs : stays.
Lemma stays_peer env ID m : stays (handlePeerMessage me env ID m : frM unit).
Proof. unfold handlePeerMessage. stay. Qed.
Lemma stays_run_gen env ID req : stays (run_gen cn cpus config key_Sign env ID req : frM unit).
Proof. unfold run_gen. stay. Qed.
Hint Resolve stays_peer stays_run_gen : stays.
Lemma stays_task env t : stays (run_task BSH cn cpus pick config me frPub key_Sign env t : frM unit).
Proof. unfold run_task. stay. Qed.
Hint Resolve stays_task : stays.

(** Only a round over the queue can take a mark off. *)
Lemma stays_event env ev :
  ev ≠ FvRound → stays (fr_run BSH cn cpus pick config me frPub key_Sign env ev : frM unit).
Proof.
  intros Hev. destruct ev; try done; cbn [fr_run];
    unfold OnObserverConnected, OnObserverDisconnected, OnConnected, OnDisconnected, status_to, fr_OnTimerExpired; stay.
Qed.

(** ** The round over the queue *)

(** An attempt to connect a block: the chain gets its height or keeps its own,
    and neither the queue nor the marks change. *)
Definition queued (q : SortedQueue (V:=Block T)) (w : gmap Z bool) (out : list (frout T)) fr : Prop :=
  fr_blockQ fr = q ∧ fr_blockWait fr = w ∧ fr_out fr = out.
Lemma queued_ConnectWithContext q w out p b : keeps (queued q w out) (fr_ConnectWithContext BSH cn p b : frM unit).
Proof.
  intros fr Hq. unfold fr_ConnectWithContext. destruct (fr_heap fr !! p); [|done].
  by destruct (ConnectBlockWithContext _ _ _ _) as [r [nd x]].
Qed.
Lemma queued_connect q w out b : keeps (queued q w out) (connect_queued BSH cn cpus pick b : frM unit).
Proof.
  unfold connect_queued. apply keeps_bind; [by intros fr|intros fr]. apply keeps_bind.
  - repeat (case_match; try apply keeps_ret).
    apply keeps_bind; [apply keeps_try, queued_ConnectWithContext|intros [|]; apply keeps_ret].
  - intros [|]; [apply keeps_ret|]. intros fr' Hq. unfold fr_ConnectBlock. by destruct (ConnectBlock _ _ _ _ _ _ _).
Qed.

Definition grown {V} (b : Block T) fr (r : res V * FormulatorNode A E T P) : Prop :=
  st_Height (nd_store (fr_node r.2)) = match r.1 with
    | Ok _ => Ok (HHeight (BHeader b))
    | _ => st_Height (nd_store (fr_node fr))
    end.
Lemma grown_ConnectWithContext p b fr : grown b fr ((fr_ConnectWithContext BSH cn p b : frM unit) fr).
Proof.
  unfold grown, fr_ConnectWithContext. destruct (fr_heap fr !! p) as [x|]; [|done]. unfold ConnectBlockWithContext.
  pose proof (connected_height BSH cn b x (fr_node fr)) as H.
  by destruct (connectBlockWithContext _ _ _ _ _) as [[u|e|] nd].
Qed.
Lemma grown_ConnectBlock b fr : grown b fr ((fr_ConnectBlock BSH cn cpus pick b : frM unit) fr).
Proof.
  unfold grown, fr_ConnectBlock, ConnectBlock.
  destruct (validateHeader _ _) as [[]|e|]; [|done..]. destruct (cs_ValidateSignature _ _ _ _) as [[]|e|]; [|done..].
  destruct (executeBlockOnContext _ _ _ _ _ _ _) as [[[]|e|] ctx]; [|done..].
  pose proof (connected_height BSH cn b ctx (fr_node fr)) as H.
  by destruct (connectBlockWithContext _ _ _ _ _) as [[u|e|] nd].
Qed.
Lemma grown_connect b fr : grown b fr ((connect_queued BSH cn cpus pick b : frM unit) fr).
Proof.
  unfold connect_queued. rewrite bind_get.
  assert (Hno : grown b fr (((mret false : frM bool) ≫= λ c : bool, if c then mret tt else (fr_ConnectBlock BSH cn cpus pick b : frM unit)) fr))
    by apply grown_ConnectBlock.
  destruct (fr_gens fr !! _) as [[[g|] s [p|] r]|]; cbn [ge_BlockGen ge_Context]; try exact Hno.
  destruct (bool_decide _); [|exact Hno]. clear Hno. rewrite bind_assoc. unfold try, mbind at 1, M_bind at 1.
  pose proof (grown_ConnectWithContext p b fr) as Hg. destruct (fr_ConnectWithContext _ _ _ _ _) as [[u|e|] fr1]; [done| |done].
  cbn. pose proof (grown_ConnectBlock b fr1) as Hc. unfold grown in *. cbn in Hg. by rewrite Hg in Hc.
Qed.

(** What follows a block that was connected touches neither the queue, nor the
    marks, nor the chain, and asks nobody. *)
Lemma quiet_on_pool h l w q nd {V} (m : M TransactionPool V) : keeps (quiet_at h l w q nd) (on_pool m : frM V).
Proof. intros fr Hq. unfold on_pool. by destruct (m _). Qed.
Lemma quiet_frEmit h l w q nd o : asks h o = false → keeps (quiet_at h l w q nd) (fr_emit o : frM unit).
Proof. intros Ho fr [(? & ? & ?) Hl]. split; [done|]. by rewrite asked_emit. Qed.
Lemma quiet_cleanPool h l w q nd b : keeps (quiet_at h l w q nd) (cleanPool b : frM unit).
Proof.
  unfold cleanPool. apply keeps_bind; [apply keeps_gets|intros st]. apply keeps_for_each. intros v.
  apply keeps_bind; [apply keeps_lift|intros t]. apply keeps_bind; [apply keeps_lift|intros TxHash].
  apply keeps_bind; [apply quiet_on_pool|intros _]. by apply keeps_bind; [intros fr|intros fr' fr].
Qed.
Lemma quiet_expirePool h l w q nd env b : keeps (quiet_at h l w q nd) (expirePool env b : frM unit).
Proof. unfold expirePool. apply keeps_bind; [apply quiet_on_pool|intros txs]. by apply quiet_frEmit. Qed.
Lemma quiet_forget_request h l w q nd b : keeps (quiet_at h l w q nd) (forget_request config b : frM unit).
Proof.
  unfold forget_request. apply keeps_bind; [by intros fr|intros fr']. case_match; [|apply keeps_ret].
  case_match; [by intros fr|apply keeps_ret].
Qed.
Lemma quiet_frStatus h l w q nd : keeps (quiet_at h l w q nd) (fr_broadcastStatus : frM unit).
Proof.
  assert (Hs : ∀ st, keeps (quiet_at h l w q nd) (fr_emit (FoObservers (MState st)) ;; fr_broadcastMessage (MState st) : frM unit)).
  { intros st. apply keeps_bind; [by apply quiet_frEmit|intros _]. unfold fr_broadcastMessage, deliver. case_bool_decide; by apply quiet_frEmit. }
  intros fr Hq. unfold fr_broadcastStatus, status_now. rewrite bind_assoc. unfold the_store, mbind at 1, M_bind at 1, gets.
  rewrite bind_assoc. unfold mbind at 1, M_bind at 1, lift. cbn.
  destruct (st_LastStatus _) as [[height last]|e|]; [by apply Hs|done..].
Qed.
Lemma then_quiet {V} (Q : FormulatorNode A E T P → Prop) h l w q nd (m : frM unit) (k : unit → frM V) fr :
  keeps (quiet_at h l w q nd) m → quiet_at h l w q nd fr →
  (∀ fr', quiet_at h l w q nd fr' → Q fr' ∧ Q (k tt fr').2) → Q ((m ≫= k) fr).2.
Proof.
  intros Hm Hfr Hk. specialize (Hm fr Hfr). unfold mbind, M_bind.
  destruct (m fr) as [[[]|e|] fr1]; by apply Hk.
Qed.

(** A height that is marked, or that the chain has come to, below [Top]. *)
Definition settled (h : Z) (l : list (frout T)) (Top : option Z) fr : Prop :=
  asked h fr = l ∧ keyed_queue fr ∧
  (fr_blockWait fr !! h = Some true ∨
   ∃ n, st_Height (nd_store (fr_node fr)) = Ok n ∧ h ≤ n ∧ match Top with Some t => n < t | None => True end).
Lemma settled_weaken h l Top fr : settled h l Top fr → settled h l None fr.
Proof. intros (H1 & H2 & H3). split_and!; [done..|]. destruct H3 as [|(n & ? & ? & ?)]; [by left|right; by exists n]. Qed.
Lemma settled_quiet h l Top w q nd fr fr' :
  quiet_at h l w q nd fr → quiet_at h l w q nd fr' → settled h l Top fr → settled h l Top fr'.
Proof.
  intros [(E1 & E2 & E3) E4] [(E1' & E2' & E3') E4'] (_ & H2 & H3). unfold settled, keyed_queue in *.
  by rewrite E1', E2', E3', E4', <- E1, <- E2, <- E3.
Qed.

(** One block of the loop. *)
Lemma settled_connect h l t b fr : HHeight (BHeader b) = t → settled h l (Some t) fr →
  let r := connect_queued BSH cn cpus pick b fr in
  settled h l None r.2 ∧ ∀ u, r.1 = Ok u → settled h l (Some (t + 1)) (upd_blocks (fr_blockQ r.2) (delete t) r.2).
Proof.
  intros Hb (H1 & H2 & H3). cbv zeta. pose proof (grown_connect b fr) as Hg.
  pose proof (queued_connect (fr_blockQ fr) (fr_blockWait fr) (fr_out fr) b fr) as Hq.
  destruct (connect_queued _ _ _ _ _ _) as [r fr1]. destruct Hq as (Q1 & Q2 & Q3); [done|]. cbn in Q1, Q2, Q3, Hg |- *.
  assert (Ha : asked h fr1 = l) by (unfold asked; by rewrite Q3). assert (Hk : keyed_queue fr1) by (unfold keyed_queue; by rewrite Q1).
  unfold grown in Hg. cbn in Hg. split.
  - split_and!; [done..|]. rewrite Q2. destruct H3 as [|(n & Hn & ? & ?)]; [by left|right].
    destruct r; [exists t; split_and!; [by rewrite Hg, Hb|lia|done]|exists n; by rewrite Hg..].
  - intros u ->. split_and!; [done..|]. cbn. rewrite Q2. destruct (decide (h = t)) as [->|Hne].
    + right. exists t. rewrite Hg, Hb. split_and!; [done|lia..].
    + destruct H3 as [Hw|(n & Hn & ? & ?)]; [left; by rewrite lookup_delete_ne|right].
      exists t. rewrite Hg, Hb. split_and!; [done|lia..].
Qed.

Lemma settled_pop h l t fr item q : settled h l (Some t) fr → PopUntil t (fr_blockQ fr) = (item, q) →
  settled h l (Some t) (upd_blocks q id fr) ∧ ∀ b, item = Some b → HHeight (BHeader b) = t.
Proof.
  intros (H1 & H2 & H3) Hp. destruct (queue_keyed_pop _ t H2) as [Hk Hi]. rewrite Hp in Hk, Hi. by split.
Qed.
Lemma settled_loop h l env fuel t item hasItem fr :
  (∀ b, item = Some b → HHeight (BHeader b) = t) → settled h l (Some t) fr →
  settled h l None (queue_loop BSH cn cpus pick config env fuel t item hasItem fr).2.
Proof.
  revert t item hasItem fr. induction fuel as [|fuel IH]; intros t [b|] hasItem fr Hi Hs; cbn [queue_loop];
    try by eapply settled_weaken.
  all: specialize (Hi b eq_refl); destruct (settled_connect h l t b fr Hi Hs) as [Hf Hok]; unfold try, mbind at 1, M_bind at 1.
  all: destruct (connect_queued _ _ _ _ _ _) as [[u|e|] fr1]; [|done..]; specialize (Hok u eq_refl); cbn [snd] in Hok.
  all: unfold modify at 1, mbind at 1, M_bind at 1; rewrite Hi; set (fr2 := upd_blocks _ _ _) in *.
  all: set (w := fr_blockWait fr2); set (q := fr_blockQ fr2); set (nd := fr_node fr2).
  all: assert (Hq : quiet_at h l w q nd fr2) by (split; [done|apply Hok]).
  all: assert (Hw : ∀ fr', quiet_at h l w q nd fr' → settled h l (Some (t + 1)) fr')
    by (intros fr' Hq'; by apply (settled_quiet h l _ w q nd fr2)).
  all: apply (then_quiet _ h l w q nd); [apply quiet_cleanPool|done|]; intros fr3 Hq3; split; [by eapply settled_weaken, Hw|].
  all: apply (then_quiet _ h l w q nd); [apply quiet_expirePool|done|]; intros fr4 Hq4; split; [by eapply settled_weaken, Hw|].
  all: apply (then_quiet _ h l w q nd); [apply quiet_forget_request|done|]; intros fr5 Hq5; split; [by eapply settled_weaken, Hw|].
  all: apply (then_quiet _ h l w q nd); [by intros ?|done|]; intros fr6 Hq6; split; [by eapply settled_weaken, Hw|].
  - by eapply settled_weaken, Hw.
  - rewrite bind_get. destruct (PopUntil (t + 1) (fr_blockQ fr6)) as [item q'] eqn:Hp.
    destruct (settled_pop h l (t + 1) fr6 item q' (Hw _ Hq6) Hp) as [Hs' Hi']. by apply IH.
Qed.
Lemma settled_round h l env fr : marked h l fr → keyed_queue fr →
  settled h l None (run_round BSH cn cpus pick config me env fr).2.
Proof.
  intros [Hw Hl] Hk. unfold run_round. rewrite frHeight_bind.
  assert (Hs : ∀ Top, settled h l Top fr) by (intros Top; split_and!; [done..|by left]).
  destruct (st_Height _) as [top|e|]; [|done..]. rewrite bind_get.
  destruct (PopUntil _ _) as [item q] eqn:Hp. destruct (settled_pop h l _ fr item q (Hs _) Hp) as [Hs' Hi].
  pose proof (settled_loop h l env 10 _ item false (upd_blocks q id fr) Hi Hs') as H1. unfold modify, mbind at 1, M_bind at 1.
  unfold mbind at 1, M_bind at 1. destruct (queue_loop _ _ _ _ _ _ _ _ _ _ _) as [[[|]|e|] fr1]; [|done..]. cbn [snd] in H1.
  assert (Hq : quiet_at h l (fr_blockWait fr1) (fr_blockQ fr1) (fr_node fr1) fr1) by (split; [done|apply H1]).
  refine (settled_quiet h l None _ _ _ fr1 _ Hq _ H1).
  refine (keeps_bind _ _ _ (quiet_frStatus _ _ _ _ _) (λ _, quiet_tryRequestBlocks _ _ _ _ _ env _) fr1 Hq).
  destruct H1 as (_ & _ & [H|(n & ? & ? & _)]); [left; by eexists|right; by exists n].
Qed.

(** ** Runs of a node *)

Lemma keyed_loop env fuel t item hasItem : keeps keyed_queue (queue_loop BSH cn cpus pick config env fuel t item hasItem : frM bool).
Proof.
  revert t item hasItem. induction fuel as [|fuel IH]; intros t [b|] hasItem; cbn [queue_loop]; try apply keeps_ret.
  all: apply keeps_bind; [apply keeps_try, stays_connect_queued|intros [|]; [|apply keeps_ret]].
  all: apply keeps_bind; [by intros fr|intros _]; apply keeps_bind; [apply stays_cleanPool|intros _].
  all: apply keeps_bind; [apply stays_expirePool|intros _]; apply keeps_bind; [apply stays_forget_request|intros _].
  all: apply keeps_bind; [by intros fr|intros _].
  { apply keeps_ret. }
  intros fr Hk. rewrite bind_get. destruct (queue_keyed_pop _ (t + 1) Hk) as [Hk' _].
  destruct (PopUntil _ _) as [item q]. refine (keeps_bind _ _ _ _ (λ _, IH _ _ _) fr Hk). by apply keyed_blocks.
Qed.
Lemma keyed_event env ev : keeps keyed_queue (fr_run BSH cn cpus pick config me frPub key_Sign env ev : frM unit).
Proof.
  assert (Hev : ev = FvRound ∨ ev ≠ FvRound) by (destruct ev; auto; by right). destruct Hev as [->|Hne]; [|by apply stays_event].
  cbn [fr_run]. unfold run_round. apply keeps_bind; [apply stays_Height|intros top].
  intros fr Hk. rewrite bind_get. destruct (queue_keyed_pop _ (u32 (top + 1)) Hk) as [Hk' _].
  destruct (PopUntil _ _) as [item q]. refine (keeps_bind _ _ _ _ (λ _, _) fr Hk); [by apply keyed_blocks|].
  apply keeps_bind; [apply keyed_loop|intros [|]; [|apply keeps_ret]].
  apply keeps_bind; [apply stays_broadcastStatus|intros _; apply keyed_tryRequestBlocks].
Qed.

(** The node after a run of events, each with what it finds outside. *)
Definition after_runs (runs : list (FEnv * fr_event (T:=T))) fr : FormulatorNode A E T P :=
  foldl (λ fr r, (fr_run BSH cn cpus pick config me frPub key_Sign r.1 r.2 fr).2) fr runs.
Lemma keyed_runs runs fr : keyed_queue fr → keyed_queue (after_runs runs fr).
Proof. revert fr. induction runs as [|[env ev] runs IH]; intros fr Hk; [done|]. by apply IH, keyed_event. Qed.
Lemma keyed_new nd : keyed_queue (NewFormulatorNode nd : FormulatorNode A E T P).
Proof. exists []. split; [apply NewSortedQueue_holds|constructor]. Qed.

(** A run asks nobody for a marked height, and keeps the mark, up to a round
    that brings the chain to that height. *)
Definition silent (h : Z) (l : list (frout T)) (runs : list (FEnv * fr_event (T:=T))) fr : Prop :=
  marked h l (after_runs runs fr) ∨
  ∃ pre env post n, runs = pre ++ (env, FvRound) :: post ∧ marked h l (after_runs pre fr) ∧
    let fr1 := after_runs (pre ++ [(env, FvRound)]) fr in
    st_Height (nd_store (fr_node fr1)) = Ok n ∧ h ≤ n ∧ asked h fr1 = l.
Lemma silent_runs h l runs fr : marked h l fr → keyed_queue fr → silent h l runs fr.
Proof.
  intros Hm Hk. induction runs as [|[env ev] runs IH] using rev_ind; [by left|].
  destruct IH as [IH|(pre & env' & post & n & -> & IH)].
  - assert (Hev : ev = FvRound ∨ ev ≠ FvRound) by (destruct ev; auto; by right). unfold silent, after_runs. rewrite foldl_snoc.
    destruct Hev as [->|Hne]; [|left; by apply stays_event].
    destruct (settled_round h l env (after_runs runs fr) IH (keyed_runs _ _ Hk)) as (Ha & _ & [Hw|(n & Hn & Hle & _)]); [by left|].
    right. exists runs, env, [], n. rewrite foldl_snoc. by split_and!.
  - right. exists pre, env', (post ++ [(env, ev)]), n. split; [by rewrite <- app_assoc|done].
Qed.

(** C40. A node that was started and has run for any time takes the block of
    the next height from its queue, where the height is marked as waiting, and
    the block can not be connected.  The round drops the block and leaves the
    mark.  In any run of further events, whatever they are, the mark stays and
    no node is asked for blocks from that height on, up to a round over
    the queue after which the chain has a block of that height: that round, too,
    came without such a request.  (Observers are asked by another path.) *)
Theorem dropped_block_not_requested nd runs0 env height b q e :
  let fr := after_runs runs0 (NewFormulatorNode nd) in
  let h := HHeight (BHeader b) in
  st_Height (nd_store (fr_node fr)) = Ok height →
  PopUntil (u32 (height + 1)) (fr_blockQ fr) = (Some b, q) →
  fr_blockWait fr !! h = Some true →
  (connect_queued BSH cn cpus pick b (upd_blocks q id fr)).1 = Err e →
  let fr' := after_runs [(env, FvRound)] fr in
  fr_blockQ fr' = q ∧
  ∀ runs,
    (fr_blockWait (after_runs runs fr') !! h = Some true ∧ asked h (after_runs runs fr') = asked h fr) ∨
    ∃ pre env' post n, runs = pre ++ (env', FvRound) :: post ∧
      (fr_blockWait (after_runs pre fr') !! h = Some true ∧ asked h (after_runs pre fr') = asked h fr) ∧
      let fr1 := after_runs (pre ++ [(env', FvRound)]) fr' in
      st_Height (nd_store (fr_node fr1)) = Ok n ∧ h ≤ n ∧ asked h fr1 = asked h fr.
Proof.
  intros fr h Hh Hp Hw He fr'. assert (Hk : keyed_queue fr) by apply keyed_runs, keyed_new.
  assert (Hk' : keyed_queue fr') by by apply keyed_runs.
  pose proof (queued_connect q (fr_blockWait fr) (fr_out fr) b (upd_blocks q id fr)) as Hq.
  destruct (connect_queued _ _ _ _ _ _) as [r fr1] eqn:Hc. cbn in He. subst r.
  assert (Hrun : fr' = fr1).
  { subst fr'. cbn. unfold run_round, fr_Height, the_store, mbind, M_bind, gets, lift, get, modify. cbn. rewrite Hh, Hp. cbn.
    unfold mbind, M_bind, try. by rewrite Hc. }
  destruct Hq as (Hq1 & Hq2 & Hq3); [by split_and!|]. cbn in Hq1, Hq2, Hq3. split; [by rewrite Hrun|].
  intros runs. apply silent_runs; [|done]. rewrite Hrun. split; [by rewrite Hq2|]. unfold asked. by rewrite Hq3.
Qed.
End LostEvents.
