(* ===== verification/FormulatorFuel.v ===== *)
(** * pof: the loops of updateByGenItem end

    [update_loop] and [prepare] take the number of steps they may run.  A
    block that is connected leaves the map of generated blocks, and every
    context that is prepared is for an entry of its own: the number of entries
    is enough, and more steps change nothing. *)

From S2P Require Import Prelude Tokens Common Context Block Store Chain Search SortedQueue LinkedQueue ExpireQueue TxPool Rank Pof RequestTimer Observer ObserverHandle ObserverOnChain FormulatorNode FormulatorHandle FormulatorEvents FormulatorGrows.

Lemma bind_ext {S V W} (m : M S V) (f g : V → M S W) s :
  (∀ v s', m s = (Ok v, s') → f v s' = g v s') → (m ≫= f) s = (m ≫= g) s.
Proof. intros H. unfold mbind, M_bind. destruct (m s) as [[v|e|] s']; auto. Qed.

(** [k] successive heights, modulo [2 ^ 32], in a set. *)
Lemma heights_bound (D : gset Z) h k :
  (Z.of_nat k ≤ 2 ^ 32) → (∀ i, (i < k)%nat → u32 (h + Z.of_nat i) ∈ D) → (k ≤ size D)%nat.
Proof.
  intros Hk Hin. set (l := (λ i, u32 (h + Z.of_nat i)) <$> seq 0 k).
  assert (Hl : length l = k) by (unfold l; by rewrite length_fmap, length_seq).
  assert (Hnd : NoDup l).
  { unfold l. apply NoDup_fmap_2_strong; [|apply NoDup_seq]. intros x y Hx Hy Hxy. apply elem_of_seq in Hx, Hy.
    unfold u32 in Hxy. assert (Hd : (Z.of_nat x - Z.of_nat y) `mod` 2 ^ 32 = 0).
    { replace (Z.of_nat x - Z.of_nat y) with ((h + Z.of_nat x) - (h + Z.of_nat y)) by lia.
      by rewrite Zminus_mod, Hxy, Z.sub_diag. }
    apply Z.mod_divide in Hd as [q Hq]; [|lia]. assert (q = 0) by lia. lia. }
  rewrite <- Hl, <- (size_list_to_set (C:=gset Z) l) by done. apply subseteq_size. intros z Hz%elem_of_list_to_set.
  apply list_elem_of_fmap in Hz as (i & -> & Hi%elem_of_seq). apply Hin. lia.
Qed.

Section Fuel.
Context {A E T P : Type} `{AI : AccountI A} `{EI : EventI E} `{B58 : Base58} `{HF : HashFn}.
Context `{EH : !EncodingHash A E} `{SC : !StoreCodec A E T} `{PI : !PileI P} `{TC : !TxCodec T}.
Context `{TX : !TransactionI T A E} `{RC : Recover} `{FI : FormulatorI A} `{TK : TokenCodec}.
Context (BlockSign_Hash : Hash256 → Signature → Hash256) (cn : Chain A E T).
Context (cpus : nat) (pick : error → list error → error) (env : FEnv).

Abbreviation fnode := (FormulatorNode A E T P).
Abbreviation frM := (M (FormulatorNode A E T P)).
Implicit Types (fr : fnode).

(** ** What leaves the map alone *)

Definition spares {V} (m : frM V) : Prop := ∀ G, keeps (λ fr, fr_gens fr = G) m.

Lemma spares_eq {V} (m : frM V) fr r fr' : spares m → m fr = (r, fr') → fr_gens fr' = fr_gens fr.
Proof. intros Hm Hr. pose proof (Hm (fr_gens fr) fr eq_refl) as H. by rewrite Hr in H. Qed.
Lemma spares_step {V} (m : frM V) : (∀ fr, fr_gens (m fr).2 = fr_gens fr) → spares m.
Proof. intros H G fr <-. apply H. Qed.
Lemma spares_bind {V W} (m : frM V) (f : V → frM W) : spares m → (∀ v, spares (f v)) → spares (m ≫= f).
Proof. intros Hm Hf G. apply keeps_bind; [apply Hm|]. intros v. apply Hf. Qed.
Lemma spares_try {V} (m : frM V) : spares m → spares (try m).
Proof. intros Hm G. by apply keeps_try. Qed.
Lemma spares_for_each {V} (f : V → frM unit) l : (∀ v, spares (f v)) → spares (for_each f l).
Proof. intros Hf G. apply keeps_for_each. intros v. apply Hf. Qed.

Lemma spares_on_ptr {V} p (m : M (Ctx A E) V) : spares (on_ptr p m).
Proof. apply spares_step. intros fr. unfold on_ptr. destruct (fr_heap fr !! p) as [x|]; [|done]. by destruct (m x). Qed.
Lemma spares_new x : spares (new_ctx x).
Proof. by apply spares_step. Qed.
Lemma spares_NewContext : spares NewContext_now.
Proof. unfold NewContext_now. apply spares_bind; [by apply spares_step|intros fr; apply spares_new]. Qed.
Lemma spares_follow h p bh ctx : spares (follow_ctx h p bh ctx).
Proof.
  unfold follow_ctx, next_ctx. apply spares_bind; [by apply spares_step|intros fr]. case_match; [|by apply spares_step].
  apply spares_bind; [|by intros q; apply spares_step].
  do 2 (apply spares_bind; [apply spares_on_ptr|intros ?]). apply spares_new.
Qed.
Lemma spares_Execute b p : spares (fr_Execute cn cpus pick b p).
Proof. unfold fr_Execute. apply spares_bind; [by apply spares_step|intros fr; apply spares_on_ptr]. Qed.

(** ** Preparing contexts *)

Lemma u32_after h k : u32 (u32 (h + Z.of_nat k) + 1) = u32 (h + Z.of_nat (S k)).
Proof. unfold u32. rewrite Zplus_mod_idemp_l. f_equal. lia. Qed.

Lemma dom_set_context k p (G : gmap Z (genItem T)) : dom (alter (set_ge_context p) k G) = dom G.
Proof. apply set_eq. intros i. rewrite !elem_of_dom. apply lookup_alter_is_Some. Qed.

Lemma prepare_fuel_from n m first h0 k ctx fr :
  (n ≤ m)%nat → Z.of_nat (size (dom (fr_gens fr))) < 2 ^ 32 → Z.of_nat k ≤ 2 ^ 32 →
  (∀ i, (i < k)%nat → u32 (h0 + Z.of_nat i) ∈ dom (fr_gens fr)) → (size (dom (fr_gens fr)) < n + k)%nat →
  prepare cn cpus pick n first (u32 (h0 + Z.of_nat k)) ctx fr = prepare cn cpus pick m first (u32 (h0 + Z.of_nat k)) ctx fr.
Proof.
  revert m k ctx fr. induction n as [|n IH]; intros m k ctx fr Hnm Hsz Hk Hin Hn.
  { pose proof (heights_bound _ _ _ Hk Hin). lia. }
  destruct m as [|m]; [lia|]. cbn [prepare]. apply bind_ext. intros v s [= <- <-].
  destruct (fr_gens fr !! u32 (h0 + Z.of_nat k)) as [target|] eqn:Ht; [|done].
  destruct (ge_BlockGen target) as [g|]; [|done].
  assert (Hin' : ∀ i, (i < S k)%nat → u32 (h0 + Z.of_nat i) ∈ dom (fr_gens fr)).
  { intros i Hi. destruct (decide (i = k)) as [->|]; [apply elem_of_dom; eauto|apply Hin; lia]. }
  assert (Hk' : Z.of_nat (S k) ≤ 2 ^ 32).
  { destruct (decide (Z.of_nat k = 2 ^ 32)) as [Hek|]; [|lia]. pose proof (heights_bound _ _ _ Hk Hin). lia. }
  assert (Hgo : ∀ ctx fr', dom (fr_gens fr') = dom (fr_gens fr) →
    prepare cn cpus pick n first (u32 (u32 (h0 + Z.of_nat k) + 1)) ctx fr' =
    prepare cn cpus pick m first (u32 (u32 (h0 + Z.of_nat k) + 1)) ctx fr').
  { intros ctx' fr' Hd. rewrite u32_after. apply IH; rewrite ?Hd; try done; lia. }
  destruct (ge_Context target) as [p|].
  - apply bind_ext. intros c s Hs. apply Hgo. by rewrite (spares_eq _ _ _ _ (spares_follow _ _ _ _) Hs).
  - apply bind_ext. intros p s1 H1. apply bind_ext. intros r s2 H2. destruct r as [u|e]; [|done].
    apply bind_ext. intros [] s3 [= <-]. apply bind_ext. intros c s4 H4. apply Hgo.
    rewrite (spares_eq _ _ _ _ (spares_follow _ _ _ _) H4). cbn. rewrite dom_set_context.
    rewrite (spares_eq _ _ _ _ (spares_try _ (spares_Execute _ _)) H2).
    destruct ctx as [q|]; [by injection H1 as <- <-|]. by rewrite (spares_eq _ _ _ _ spares_NewContext H1).
Qed.

(** ** Connecting blocks *)

Lemma spares_connect (item : genItem T) b :
  spares (match ge_Context item with
          | Some p => fr_ConnectWithContext BlockSign_Hash cn p b
          | None => fr_ConnectBlock BlockSign_Hash cn cpus pick b
          end).
Proof.
  destruct (ge_Context item) as [p|]; apply spares_step; intros fr.
  - unfold fr_ConnectWithContext. destruct (fr_heap fr !! p); [|done].
    by destruct (ConnectBlockWithContext _ _ _ _) as [r [nd x]].
  - unfold fr_ConnectBlock. by destruct (ConnectBlock _ _ _ _ _ _ _).
Qed.
Lemma spares_status : spares fr_broadcastStatus.
Proof.
  unfold fr_broadcastStatus, status_now, the_store. apply spares_bind; [|intros m].
  - apply spares_bind; [by apply spares_step|intros st]. apply spares_bind; [by apply spares_step|intros [h l]].
    by apply spares_step.
  - apply spares_bind; [by apply spares_step|intros ?]. unfold fr_broadcastMessage, deliver.
    case_match; by apply spares_step.
Qed.
Lemma spares_on_pool {V} (m : M TransactionPool V) : spares (on_pool m).
Proof. apply spares_step. intros fr. unfold on_pool. by destruct (m _). Qed.
Lemma spares_cleanPool b : spares (cleanPool b).
Proof.
  unfold cleanPool, the_store. apply spares_bind; [by apply spares_step|intros st]. apply spares_for_each. intros e.
  do 2 (apply spares_bind; [by apply spares_step|intros ?]). apply spares_bind; [apply spares_on_pool|intros ?].
  apply spares_bind; by intros; apply spares_step.
Qed.
Lemma spares_expirePool b : spares (expirePool env b).
Proof. unfold expirePool. apply spares_bind; [apply spares_on_pool|intros txs; by apply spares_step]. Qed.

Abbreviation update := (update_loop BlockSign_Hash cn cpus pick env).

Lemma update_fuel n m h fr :
  (n ≤ m)%nat → keyed fr → (size (fr_gens fr) < n)%nat → update n h fr = update m h fr.
Proof.
  revert m h fr. induction n as [|n IH]; intros m h fr Hnm Hf Hn; [lia|]. destruct m as [|m]; [lia|].
  cbn [update_loop]. apply bind_ext. intros v s [= <- <-].
  destruct (fr_gens fr !! h) as [item|] eqn:Hi; [|done]. destruct (ge_BlockGen item) as [g|] eqn:Hg; [|done].
  destruct (ge_ObSign item) as [sg|]; [|done]. apply bind_ext. intros r s1 H1. destruct r as [u|e]; [|done].
  apply bind_ext. intros u2 s2 H2. apply bind_ext. intros u3 s3 H3. apply bind_ext. intros u4 s4 [= <- <-].
  apply bind_ext. intros u5 s5 H5.
  assert (Hs : fr_gens s5 = delete h (fr_gens fr)).
  { rewrite (spares_eq _ _ _ _ (spares_expirePool _) H5). cbn.
    rewrite (spares_eq _ _ _ _ (spares_cleanPool _) H3), (spares_eq _ _ _ _ spares_status H2).
    rewrite (spares_eq _ _ _ _ (spares_try _ (spares_connect _ _)) H1). f_equal. exact (Hf _ _ Hi g Hg). }
  apply IH; [lia| |].
  - unfold keyed. rewrite Hs. by apply map_Forall_delete.
  - rewrite Hs. pose proof (map_size_delete_Some h (fr_gens fr) (ex_intro _ _ Hi)).
    assert (size (fr_gens fr) ≠ 0%nat) by (apply map_size_ne_0_lookup; eauto). lia.
Qed.
End Fuel.

(** ** The theorems *)

Section FuelTheorems.
Context {A E T P : Type} `{AI : AccountI A} `{EI : EventI E} `{B58 : Base58} `{HF : HashFn}.
Context `{EH : !EncodingHash A E} `{SC : !StoreCodec A E T} `{PI : !PileI P} `{TC : !TxCodec T}.
Context `{TX : !TransactionI T A E} `{RC : Recover} `{FI : FormulatorI A} `{TK : TokenCodec}.

Lemma prepare_fuel (cn : Chain A E T) cpus pick n first h ctx (fr : FormulatorNode A E T P) :
  is_u32 h → Z.of_nat (size (fr_gens fr)) < 2 ^ 32 → (size (fr_gens fr) < n)%nat →
  prepare cn cpus pick n first h ctx fr = prepare cn cpus pick (S (size (fr_gens fr))) first h ctx fr.
Proof.
  intros Hh Hsz Hn. pose proof (prepare_fuel_from cn cpus pick (S (size (fr_gens fr))) n first h 0 ctx fr) as H.
  rewrite size_dom, Z.add_0_r, u32_small in H by done. symmetry. apply H; lia.
Qed.

(** C23. The loops of [updateByGenItem] end, on every run of a node: from a new
    node, whatever the messages and the schedule, as many steps as there are
    generated blocks are enough for the loop that connects them and for the
    one that prepares contexts, and more steps give the same result. *)
Theorem update_terminates BlockSign_Hash (cn : Chain A E T) cpus pick config me frPub key_Sign
    (nd : Node T P CState) (runs : list (FEnv * fr_event (T:=T))) :
  chain_steady cn →
  let fr := foldl (λ fr r, (fr_run BlockSign_Hash cn cpus pick config me frPub key_Sign r.1 r.2 fr).2) (NewFormulatorNode nd) runs in
  (∀ env h n, (size (fr_gens fr) < n)%nat →
     update_loop BlockSign_Hash cn cpus pick env n h fr = update_loop BlockSign_Hash cn cpus pick env (S (size (fr_gens fr))) h fr) ∧
  (∀ first h ctx n, is_u32 h → Z.of_nat (size (fr_gens fr)) < 2 ^ 32 → (size (fr_gens fr) < n)%nat →
     prepare cn cpus pick n first h ctx fr = prepare cn cpus pick (S (size (fr_gens fr))) first h ctx fr).
Proof.
  intros Hcn fr. assert (Hk : keyed fr).
  { subst fr. assert (H0 : keyed (NewFormulatorNode nd : FormulatorNode A E T P)) by apply map_Forall_empty.
    revert H0. generalize (NewFormulatorNode nd : FormulatorNode A E T P).
    induction runs as [|[env ev] runs IH]; intros fr Hf; [done|]. cbn. apply IH.
    by apply (proj2 (grows_event BlockSign_Hash cn Hcn cpus pick config me frPub key_Sign env ev)). }
  split; [|intros; by apply prepare_fuel]. intros env h n Hn. symmetry. by apply update_fuel; [lia| |lia].
Qed.
End FuelTheorems.
