(* ===== verification/P2PNode.v ===== *)
(** * service/p2p: the node

    node.go and node_send.go: a node that follows the chain.  It checks and
    passes on transactions, asks its peers for blocks, connects them in order
    and answers requests.  Every handler is one step; the mesh that moves the
    packets is outside the model, and printing is left out. *)

From S2P Require Import Prelude Common Context Block Store Chain Search SortedQueue LinkedQueue ExpireQueue TxPool Rank Pof RequestTimer Observer ObserverHandle FormulatorNode FormulatorHandle.

(** [pn_receivers] goroutines take messages from the channel, [pn_pending] runs
    of [tryRequestBlocks] were started with [go]. *)
Record P2PNode (T P CS : Type) := mkP2P {
  pn_node : Node T P CS;
  pn_status : gmap (list Z) Z;
  pn_timer : RequestTimer;
  pn_blockQ : SortedQueue (V:=Block T);
  pn_pool : TransactionPool (T:=T) (Q:=LinkedQueue Hash256 (PoolItem (T:=T)));
  pn_txQ : ExpireQueue (TxMsgItem T);
  pn_txWaitQ : LinkedQueue Hash256 (TxMsgItem T);
  pn_txMySendQ : list (TxMsgItem T);
  pn_txSendQ : list (TxMsgItem T);
  pn_receivers : nat;
  pn_pending : nat;
  pn_reads : nat;
  pn_out : list (frout T);
}.
Arguments mkP2P {T P CS} _ _ _ _ _ _ _ _ _ _ _ _ _.
Arguments pn_node {T P CS} _.
Arguments pn_status {T P CS} _.
Arguments pn_timer {T P CS} _.
Arguments pn_blockQ {T P CS} _.
Arguments pn_pool {T P CS} _.
Arguments pn_txQ {T P CS} _.
Arguments pn_txWaitQ {T P CS} _.
Arguments pn_txMySendQ {T P CS} _.
Arguments pn_txSendQ {T P CS} _.
Arguments pn_receivers {T P CS} _.
Arguments pn_pending {T P CS} _.
Arguments pn_reads {T P CS} _.
Arguments pn_out {T P CS} _.

Section P2PNode.
Context {A E T P CS : Type} `{AI : AccountI A} `{EI : EventI E} `{B58 : Base58} `{HF : HashFn}.
Context `{EH : !EncodingHash A E} `{SC : !StoreCodec A E T} `{PI : !PileI P} `{TC : !TxCodec T}.
Context `{TX : !TransactionI T A E} `{RC : Recover}.
Context (cs : Consensus A E T CS) (cn : Chain A E T) (cpus : nat) (pick : error → list error → error).
Context (myPublicHash : PublicHash) (env : FEnv).

Abbreviation pnode := (P2PNode T P CS).
Abbreviation pnM := (M (P2PNode T P CS)).
Implicit Types (pn : pnode).

(** ** Parts of the state *)

Definition pn_set_node x pn : pnode := mkP2P x (pn_status pn) (pn_timer pn) (pn_blockQ pn) (pn_pool pn) (pn_txQ pn) (pn_txWaitQ pn)
  (pn_txMySendQ pn) (pn_txSendQ pn) (pn_receivers pn) (pn_pending pn) (pn_reads pn) (pn_out pn).
Definition pn_set_status (f : gmap (list Z) Z → gmap (list Z) Z) pn : pnode := mkP2P (pn_node pn) (f (pn_status pn)) (pn_timer pn)
  (pn_blockQ pn) (pn_pool pn) (pn_txQ pn) (pn_txWaitQ pn) (pn_txMySendQ pn) (pn_txSendQ pn) (pn_receivers pn) (pn_pending pn)
  (pn_reads pn) (pn_out pn).
Definition pn_set_timer x pn : pnode := mkP2P (pn_node pn) (pn_status pn) x (pn_blockQ pn) (pn_pool pn) (pn_txQ pn) (pn_txWaitQ pn)
  (pn_txMySendQ pn) (pn_txSendQ pn) (pn_receivers pn) (pn_pending pn) (pn_reads pn) (pn_out pn).
Definition pn_set_blockQ x pn : pnode := mkP2P (pn_node pn) (pn_status pn) (pn_timer pn) x (pn_pool pn) (pn_txQ pn) (pn_txWaitQ pn)
  (pn_txMySendQ pn) (pn_txSendQ pn) (pn_receivers pn) (pn_pending pn) (pn_reads pn) (pn_out pn).
Definition pn_set_txs pool q wait my send pn : pnode := mkP2P (pn_node pn) (pn_status pn) (pn_timer pn) (pn_blockQ pn) pool q wait my send
  (pn_receivers pn) (pn_pending pn) (pn_reads pn) (pn_out pn).
Definition pn_set_go (receivers pending : nat) pn : pnode := mkP2P (pn_node pn) (pn_status pn) (pn_timer pn) (pn_blockQ pn) (pn_pool pn)
  (pn_txQ pn) (pn_txWaitQ pn) (pn_txMySendQ pn) (pn_txSendQ pn) receivers pending (pn_reads pn) (pn_out pn).
Definition pn_set_io (reads : nat) (f : list (frout T) → list (frout T)) pn : pnode := mkP2P (pn_node pn) (pn_status pn) (pn_timer pn)
  (pn_blockQ pn) (pn_pool pn) (pn_txQ pn) (pn_txWaitQ pn) (pn_txMySendQ pn) (pn_txSendQ pn) (pn_receivers pn) (pn_pending pn)
  reads (f (pn_out pn)).

Definition pn_now : pnM Z := λ pn, (Ok (fe_now env (pn_reads pn)), pn_set_io (S (pn_reads pn)) id pn).
Definition pn_emit (o : frout T) : pnM unit := modify (λ pn, pn_set_io (pn_reads pn) (.++ [o]) pn).
Definition pn_on_pool {V} (m : M TransactionPool V) : pnM V := λ pn,
  let '(r, p) := m (pn_pool pn) in (r, pn_set_txs p (pn_txQ pn) (pn_txWaitQ pn) (pn_txMySendQ pn) (pn_txSendQ pn) pn).
Definition pn_on_wait {V} (m : M (LinkedQueue Hash256 (TxMsgItem T)) V) : pnM V := λ pn,
  let '(r, q) := m (pn_txWaitQ pn) in (r, pn_set_txs (pn_pool pn) (pn_txQ pn) q (pn_txMySendQ pn) (pn_txSendQ pn) pn).
Definition pn_set_txQ (q : ExpireQueue (TxMsgItem T)) : pnM unit :=
  modify (λ pn, pn_set_txs (pn_pool pn) q (pn_txWaitQ pn) (pn_txMySendQ pn) (pn_txSendQ pn) pn).
Definition pn_set_mySendQ (f : list (TxMsgItem T) → list (TxMsgItem T)) : pnM unit :=
  modify (λ pn, pn_set_txs (pn_pool pn) (pn_txQ pn) (pn_txWaitQ pn) (f (pn_txMySendQ pn)) (pn_txSendQ pn) pn).
Definition pn_set_sendQ (f : list (TxMsgItem T) → list (TxMsgItem T)) : pnM unit :=
  modify (λ pn, pn_set_txs (pn_pool pn) (pn_txQ pn) (pn_txWaitQ pn) (pn_txMySendQ pn) (f (pn_txSendQ pn)) pn).
Definition pn_store : pnM (Store T P) := gets (nd_store ∘ pn_node).
Definition pn_Height : pnM Z := st ← pn_store; lift (st_Height st).
Definition pn_last_slot : pnM Z := st ← pn_store; t ← lift (st_LastTimestamp st); mret (ToTimeSlot t).
Definition pn_signers pn : SignerProvider := λ h, GetSigners h (pn_pool pn).

Definition NewNode (nd : Node T P CS) : pnode :=
  mkP2P nd ∅ NewRequestTimer NewSortedQueue NewTransactionPool
    (eq_AddGroup 3600000000000 (eq_AddGroup 600000000000 (eq_AddGroup 60000000000 NewExpireQueue)))
    NewLinkedQueue [] [] 2 0 0 [].

(** ** node_send.go *)

Definition pn_deliver (Target : PublicHash) (m : frmsg T) : pnM unit :=
  if bool_decide (Target = replicate PublicHashSize 0) then pn_emit (FoNodes m) else pn_emit (FoNode Target m).
Definition pn_deliver_packet (Target : PublicHash) (bs : bytes) : pnM unit :=
  if bool_decide (Target = replicate PublicHashSize 0) then pn_emit (FoBlocksAll bs) else pn_emit (FoBlocks Target bs).
Definition pn_broadcastMessage (m : frmsg T) : pnM unit := pn_deliver (replicate PublicHashSize 0) m.
Definition pn_status_now : pnM (frmsg T) :=
  st ← pn_store;
  '(height, lastHash) ← lift (st_LastStatus st);
  mret (MState (mkStatus (st_version st) height lastHash)).
Definition pn_sendStatusTo (Target : PublicHash) : pnM unit :=
  if bool_decide (Target = myPublicHash) then mret tt else m ← pn_status_now; pn_deliver Target m.
Definition pn_broadcastStatus : pnM unit := m ← pn_status_now; pn_emit (FoNodes m).
Definition pn_timer_Add (height : Z) (value : bytes) : pnM unit :=
  t ← pn_now;
  modify (λ pn, pn_set_timer (rt_Add height 2000000000 value (u64 t) (pn_timer pn)).2 pn).
Definition pn_sendRequestBlockTo (Target : PublicHash) (Height Count : Z) : pnM unit :=
  if bool_decide (Target = myPublicHash) then mret tt
  else
    pn_deliver Target (MAsk (mkRequestMessage Height Count)) ;;
    for_each (λ i, pn_timer_Add (u32 (Height + i)) Target) (seqZ 0 Count).

(** ** Asking for blocks *)

(** [for i := base + 1; i <= base + 10 && i <= limit; i++]: ten heights at most,
    except that the loop of the source does not end when [base + 10] and
    [limit] are both the largest number of 32 bits. *)
Fixpoint up_to (fuel : nat) (i last limit : Z) : list Z :=
  match fuel with
  | O => []
  | S fuel => if (i <=? last) && (i <=? limit) then i :: up_to fuel (u32 (i + 1)) last limit else []
  end.
Definition ten_after (base limit : Z) : list Z := up_to 10 (u32 (base + 1)) (u32 (base + 10)) limit.
Definition not_asked (pn : pnode) (hs : list Z) : list Z := filter (λ i, rt_Exist i (pn_timer pn) = false) hs.

(** The first peer that has ten more blocks, or the one that has most. *)
Fixpoint choose_peer (base : Z) (peers : list (list Z * Z)) (MaxHeight : Z) (maxPubHash : bytes) : bytes * Z :=
  match peers with
  | [] => (maxPubHash, MaxHeight)
  | (pubhash, h) :: peers =>
      let '(maxPubHash, MaxHeight) := if MaxHeight <? h then (pubhash, h) else (maxPubHash, MaxHeight) in
      if u32 (base + 10) <=? h then if h =? 0 then (maxPubHash, MaxHeight) else (pubhash, h)
      else choose_peer base peers MaxHeight maxPubHash
  end.

Definition ask_each (Target : PublicHash) (hs : list Z) : pnM unit :=
  for_each (λ i, pn ← get; if rt_Exist i (pn_timer pn) then mret tt else pn_sendRequestBlockTo Target i 1) hs.

Fixpoint request_rounds (Height : Z) (qs : list Z) : pnM unit :=
  match qs with
  | [] => mret tt
  | q :: qs =>
      let BaseHeight := u32 (Height + u32 (q * 10)) in
      pn ← get;
      let '(selected, LimitHeight) := choose_peer BaseHeight (fe_range env (pn_status pn)) 0 [] in
      if (length selected =? 0)%nat then mret tt
      else
        let hs := ten_after BaseHeight LimitHeight in
        let enableCount := length (not_asked pn hs) in
        let Target := Common.copy (replicate PublicHashSize 0) selected in
        (if (enableCount =? 10)%nat then pn_sendRequestBlockTo Target (u32 (BaseHeight + 1)) 10
         else if (0 <? enableCount)%nat then ask_each Target hs else mret tt) ;;
        request_rounds Height qs
  end.
Definition pn_tryRequestBlocks : pnM unit := h ← pn_Height; request_rounds h (seqZ 0 10).

(** ** Transactions *)

Definition pn_addTx (TxHash : Hash256) (t : Z) (tx : T) (sigs : list Signature) : pnM unit :=
  pn ← get;
  guard_err (IsExist TxHash (pn_pool pn)) ErrExistTransaction ;;
  signers ← lift (recover_all TxHash sigs);
  lift (getProcess cn (pid_of t)) ;;
  lift (tx_Validate tx (pid_of t) signers (NewContext (store_loader (nd_store (pn_node pn))))).1 ;;
  pn_on_pool (tp_Push tx_Timestamp t TxHash tx sigs signers) ;;
  now ← pn_now;
  pn ← get;
  q ← lift (eq_Push now TxHash (mkTxMsg (replicate Hash256Size 0) t tx sigs []) (pn_txQ pn));
  pn_set_txQ q.

Definition pn_AddTx (tx : T) (sigs : list Signature) : pnM unit :=
  currentSlot ← pn_last_slot;
  guard_err (out_of_window currentSlot (slot_of_tx tx)) ErrInvalidTransactionTimeSlot ;;
  t ← lift (tx_TypeOf tx);
  st ← pn_store;
  TxHash ← lift (HashTransactionByType (st_chainID st) t tx);
  guard_err (st_HasTimeSlot (slot_of_tx tx) TxHash st) ErrUsedTimeSlot ;;
  pn_addTx TxHash t tx sigs ;;
  pn_set_mySendQ (.++ [mkTxMsg TxHash t tx sigs []]).

Definition pn_work_item (currentSlot : Z) (item : TxMsgItem T) : pnM unit :=
  let slot := slot_of_tx (tm_Tx item) in
  if out_of_window currentSlot slot then mret tt
  else
    st ← pn_store;
    if st_HasTimeSlot slot (tm_TxHash item) st then mret tt
    else
      r ← try (pn_addTx (tm_TxHash item) (tm_Type item) (tm_Tx item) (tm_Sigs item));
      match r with
      | inl _ => pn_set_sendQ (.++ [item])
      | inr e => if negb (forgiven e) && (0 <? length (tm_PeerID item))%nat then pn_emit (FoBadPoint (tm_PeerID item)) else mret tt
      end.
Fixpoint pn_work_loop (count : nat) (currentSlot : Z) : pnM unit :=
  v ← pn_on_wait lq_Pop;
  match v with
  | None => mret tt
  | Some item =>
      match count with
      | O => mret tt
      | S count => pn_work_item currentSlot item ;; pn_work_loop count currentSlot
      end
  end.
Definition pn_worker : pnM unit := currentSlot ← pn_last_slot; pn_work_loop 500 currentSlot.

(** The two goroutines that send: the transactions of the node itself, and
    the ones it passes on. *)
Definition pn_sender (my : bool) : pnM unit :=
  if fe_hasPeer env then
    st ← pn_store;
    currentSlot ← pn_last_slot;
    pn ← get;
    let '(msg, rest) := collect_txs (st_chainID st) currentSlot [] (if my then pn_txMySendQ pn else pn_txSendQ pn) in
    (if my then pn_set_mySendQ (λ _, rest) else pn_set_sendQ (λ _, rest)) ;;
    if (0 <? length msg)%nat then pn_broadcastMessage (MTxs msg) else mret tt
  else mret tt.

Definition pn_OnItemExpired (item : TxMsgItem T) (IsLast : bool) : pnM unit :=
  currentSlot ← pn_last_slot;
  if out_of_window currentSlot (slot_of_tx (tm_Tx item)) then mret tt
  else
    pn_set_sendQ (.++ [item]) ;;
    if IsLast then pn_on_pool (tp_Remove tx_Timestamp (tm_TxHash item) (tm_Tx item)) else mret tt.

(** ** Blocks *)

Definition pn_addBlock (b : Block T) : pnM unit :=
  pn ← get;
  let st := nd_store (pn_node pn) in
  height ← lift (st_Height st);
  if HHeight (BHeader b) <=? height then
    h ← lift (st_Hash (HHeight (BHeader b)) st);
    guard_err (negb (bool_decide (h = header_Hash (BHeader b)))) ErrFoundForkedBlock
  else
    let '(item, q) := FindOrInsert (Some b) (HHeight (BHeader b)) (pn_blockQ pn) in
    modify (pn_set_blockQ q) ;;
    match item with
    | Some old => guard_err (negb (bool_decide (header_Hash (BHeader old) = header_Hash (BHeader b)))) ErrFoundForkedBlock
    | None => mret tt
    end.

Definition pn_cleanPool (b : Block T) : pnM unit :=
  st ← pn_store;
  for_each (λ e : nat * T,
    t ← lift (of_option (TransactionTypes b !! e.1));
    TxHash ← lift (HashTransactionByType (st_chainID st) t e.2);
    pn_on_pool (tp_Remove tx_Timestamp TxHash e.2) ;;
    pn ← get;
    pn_set_txQ (eq_Remove TxHash (pn_txQ pn))) (imap pair (Transactions b)).
Definition pn_expirePool (b : Block T) : pnM unit :=
  txs ← pn_on_pool (λ p, let '(txs, p') := Clean (fe_slots env _ (tp_slotMap p)) (ToTimeSlot (HTimestamp (BHeader b))) p in (Ok txs, p'));
  pn_emit (FoExpired txs).
Definition pn_ConnectBlock (b : Block T) : pnM unit := λ pn,
  let '(r, nd) := ConnectBlock cpus pick cs cn b (Some (pn_signers pn)) (pn_node pn) in (r, pn_set_node nd pn).

(** At most eleven blocks; a block that can not be connected ends the
    program. *)
Fixpoint pn_queue_loop (fuel : nat) (TargetHeight : Z) (item : option (Block T)) (hasItem : bool) : pnM bool :=
  match item with
  | None => mret hasItem
  | Some b =>
      r ← try (pn_ConnectBlock b);
      match r with
      | inr _ => panic
      | inl _ =>
          pn_cleanPool b ;;
          pn_expirePool b ;;
          match fuel with
          | O => mret hasItem
          | S fuel =>
              pn ← get;
              let '(item, q) := PopUntil (TargetHeight + 1) (pn_blockQ pn) in
              modify (pn_set_blockQ q) ;;
              pn_queue_loop fuel (TargetHeight + 1) item true
          end
      end
  end.
Definition pn_round : pnM unit :=
  h ← pn_Height;
  pn ← get;
  let '(item, q) := PopUntil (u32 (h + 1)) (pn_blockQ pn) in
  modify (pn_set_blockQ q) ;;
  hasItem ← pn_queue_loop 10 (u32 (h + 1)) item false;
  if (hasItem : bool) then pn_broadcastStatus ;; pn_tryRequestBlocks else mret tt.

(** ** Messages *)

Definition pn_RequestMessage (ID : bytes) (msg : RequestMessage) : pnM unit :=
  pn ← get;
  let from := match pn_status pn !! ID with
              | Some h =>
                  if (rm_Height msg <? h) && (u32 (rm_Height msg + rm_Count msg) <=? h) then None
                  else Some (if rm_Height msg <? h then h else rm_Height msg)
              | None => Some (rm_Height msg)
              end in
  match from with
  | None => mret tt
  | Some from =>
      let m := mkRequestMessage from (clamp_count (rm_Count msg)) in
      h ← pn_Height;
      if h <? rm_Height m then mret tt
      else
        bs ← lift (fe_packet env m);
        pn_deliver_packet (Common.copy (replicate PublicHashSize 0) ID) bs
  end.

(** Ten blocks at once from a multiple of ten, or each one that was not asked
    for. *)
Definition pn_StatusMessage (ID : bytes) (msg : StatusMessage) : pnM unit :=
  modify (pn_set_status (bump ID (sm_Height msg))) ;;
  let Sender := Common.copy (replicate PublicHashSize 0) ID in
  h ← pn_Height;
  if h <? sm_Height msg then
    pn ← get;
    let hs := ten_after h (sm_Height msg) in
    if (h mod 10 =? 0) && (length (not_asked pn hs) =? 10)%nat then pn_sendRequestBlockTo Sender (u32 (h + 1)) 10
    else ask_each Sender hs
  else
    st ← pn_store;
    hash ← lift (st_Hash (sm_Height msg) st);
    if bool_decide (hash = sm_LastHash msg) then mret tt else pn_emit (FoRemovePeer ID).

Definition pn_BlockMessage (ID : bytes) (Blocks : list (Block T)) : pnM unit :=
  for_each (λ b, r ← try (pn_addBlock b);
    match r with
    | inl _ => mret tt
    | inr e => (if bool_decide (e = ErrFoundForkedBlock) then pn_emit (FoRemovePeer ID) else mret tt) ;; fail e
    end) Blocks ;;
  modify (pn_set_status (match last Blocks with Some b => bump ID (HHeight (BHeader b)) | None => id end)).

Definition pn_TransactionMessage (ID : bytes) (ms : list (TransactionMessage T)) : pnM unit :=
  guard_err (800 <? length ms)%nat ErrTooManyTrasactionInMessage ;;
  st ← pn_store;
  currentSlot ← pn_last_slot;
  for_each (λ v : TransactionMessage T,
    if out_of_window currentSlot (slot_of_tx (xm_Tx v)) then mret tt
    else
      TxHash ← (if (0 <? length (xm_raw v))%nat then mret (Hash (xm_raw v))
                else lift (HashTransactionByType (st_chainID st) (xm_Type v) (xm_Tx v)));
      pn ← get;
      if lq_Has TxHash (pn_txWaitQ pn) || IsExist TxHash (pn_pool pn) then mret tt
      else pn_on_wait (lq_Push TxHash (mkTxMsg TxHash (xm_Type v) (xm_Tx v) (xm_Signatures v) ID)) ;; mret tt) ms.

Definition pn_handlePeerMessage (ID : bytes) (m : frmsg T) : pnM unit :=
  match m with
  | MAsk msg => pn_RequestMessage ID msg
  | MState msg => pn_StatusMessage ID msg
  | MBlocks Blocks => pn_BlockMessage ID Blocks
  | MTxs ms => pn_TransactionMessage ID ms
  | MPeerList Ips Hashs => pn_emit (FoAddPeerList Ips Hashs)
  | MRequestPeerList => pn_emit (FoSendPeerList ID)
  | MReq _ | MGen _ | MObSign _ | MUnknown => panic
  end.

(** ** Steps *)

Definition pn_OnConnected (ID : bytes) : pnM unit :=
  modify (pn_set_status <[ID := 0]>) ;;
  m ← pn_status_now; pn_emit (FoNode (Common.copy (replicate PublicHashSize 0) ID) m).
Definition pn_OnDisconnected (ID : bytes) : pnM unit :=
  modify (pn_set_status (delete ID)) ;;
  modify (λ pn, pn_set_timer (rt_RemovesByValue ID (pn_timer pn)) pn) ;;
  modify (λ pn, pn_set_go (pn_receivers pn) (S (pn_pending pn)) pn).
Definition pn_OnTimerExpired : pnM unit := pn_tryRequestBlocks.

(** A goroutine takes a packet: one that can not be decoded, or a message that
    fails, costs the peer its connection and ends the goroutine. *)
Definition drop_peer (ID : bytes) : pnM unit :=
  pn_emit (FoRemovePeer ID) ;; modify (λ pn, pn_set_go (pred (pn_receivers pn)) (pn_pending pn) pn).
Definition pn_receive (ID : bytes) (packet : option (frmsg T)) : pnM unit :=
  pn ← get;
  if (pn_receivers pn =? 0)%nat then mret tt
  else
    match packet with
    | None => drop_peer ID
    | Some m =>
        r ← try (pn_handlePeerMessage ID m);
        match r with inl _ => mret tt | inr _ => drop_peer ID end
    end.

Inductive pn_event :=
  | PvRecv (ID : bytes) (packet : option (frmsg T))
  | PvUp (ID : bytes) | PvDown (ID : bytes)
  | PvWorker | PvSender (my : bool) | PvRequests | PvPending | PvRound | PvTimer
  | PvAddTx (tx : T) (sigs : list Signature)
  | PvExpired (item : TxMsgItem T) (IsLast : bool).

Definition pn_run (ev : pn_event) : pnM unit :=
  match ev with
  | PvRecv ID packet => pn_receive ID packet
  | PvUp ID => pn_OnConnected ID
  | PvDown ID => pn_OnDisconnected ID
  | PvWorker => pn_worker
  | PvSender my => pn_sender my
  | PvRequests => pn_tryRequestBlocks
  | PvPending =>
      pn ← get;
      if (pn_pending pn =? 0)%nat then mret tt
      else modify (λ pn, pn_set_go (pn_receivers pn) (pred (pn_pending pn)) pn) ;; pn_tryRequestBlocks
  | PvRound => pn_round
  | PvTimer => pn_OnTimerExpired
  | PvAddTx tx sigs => pn_AddTx tx sigs
  | PvExpired item IsLast => pn_OnItemExpired item IsLast
  end.
End P2PNode.
