(* ===== verification/P2PSpec.v ===== *)
(** * service/p2p: what a node asks for, and what stops it

    The requests of one round do not ask for a block twice; a block that can
    not be connected ends the program; and two messages that fail end the
    goroutines that receive. *)

From S2P Require Import Prelude Common Context Block Store Chain Search SortedQueue LinkedQueue ExpireQueue TxPool Rank Pof RequestTimer Observer ObserverHandle FormulatorNode FormulatorHandle P2PNode.

Section Requests.
Context {A E T P CS : Type} `{AI : AccountI A} `{EI : EventI E} `{B58 : Base58} `{HF : HashFn}.
Context `{EH : !EncodingHash A E} `{SC : !StoreCodec A E T} `{PI : !PileI P} `{TC : !TxCodec T}.
Context `{TX : !TransactionI T A E} `{RC : Recover}.

Abbreviation pnode := (P2PNode T P CS).
Abbreviation pnM := (M (P2PNode T P CS)).
Implicit Types (pn : pnode).

(** ** Requests *)

(** The heights that the requests among the messages cover. *)
Definition covers (o : frout T) : list Z :=
  match o with
  | FoNode _ (MAsk m) | FoNodes (MAsk m) => (λ i, u32 (rm_Height m + i)) <$> seqZ 0 (rm_Count m)
  | _ => []
  end.
Definition covered pn : list Z := concat (covers <$> pn_out pn).

(** From a node with the timer [t0] that has asked for [c0]: every further
    height was not under way, is asked for once and is under way now. *)
Record tracked (t0 : RequestTimer) (c0 : list Z) pn : Prop := {
  tk_new : ∃ c, covered pn = c0 ++ c ∧ NoDup c ∧ ∀ i, i ∈ c → rt_Exist i t0 = false ∧ rt_Exist i (pn_timer pn) = true;
  tk_old : ∀ i, rt_Exist i t0 = true → rt_Exist i (pn_timer pn) = true;
}.

Lemma Exist_Add h t value now rm i : rt_Exist i (rt_Add h t value now rm).2 = true ↔ i = h ∨ rt_Exist i rm = true.
Proof.
  unfold rt_Exist, rt_Add. destruct (bool_decide (is_Some (timerMap rm !! h))) eqn:Hh; cbn; rewrite !bool_decide_eq_true.
  - apply bool_decide_eq_true in Hh. split; [by right|]. by intros [->|].
  - rewrite lookup_insert_is_Some'. split; intros [Hi|Hi]; auto.
Qed.

Lemma timer_adds env (Target : PublicHash) (f : Z → Z) l pn :
  let pn' := (for_each (λ i, pn_timer_Add env (f i) Target) l pn).2 in
  (for_each (λ i, pn_timer_Add env (f i) Target) l pn).1 = Ok tt ∧ pn_out pn' = pn_out pn ∧
  ∀ i, rt_Exist i (pn_timer pn') = true ↔ i ∈ f <$> l ∨ rt_Exist i (pn_timer pn) = true.
Proof.
  revert pn. induction l as [|a l IH]; intros pn; [split_and!; [done..|]; set_solver|]. cbn [for_each].
  unfold mbind, M_bind, pn_timer_Add, mbind, M_bind, pn_now, modify. cbn.
  match goal with |- context [for_each _ l ?p] => destruct (IH p) as (H1 & H2 & H3) end.
  split; [exact H1|]. split; [exact H2|]. intros i. etrans; [apply H3|]. cbn. rewrite Exist_Add, elem_of_cons. tauto.
Qed.

Lemma covered_emit pn o : covered (pn_set_io (pn_reads pn) (.++ [o]) pn) = covered pn ++ covers o.
Proof. unfold covered. cbn. rewrite fmap_app, concat_app. cbn. by rewrite app_nil_r. Qed.

(** A request for heights that are not under way. *)
Lemma tracked_request me env Target h n t0 c0 pn :
  NoDup ((λ i, u32 (h + i)) <$> seqZ 0 n) → (∀ i, i ∈ (λ i, u32 (h + i)) <$> seqZ 0 n → rt_Exist i (pn_timer pn) = false) →
  tracked t0 c0 pn → tracked t0 c0 (pn_sendRequestBlockTo me env Target h n pn).2.
Proof.
  intros Hnd Hnew [(c & Hc & Hcd & Hci) Hold]. unfold pn_sendRequestBlockTo. case_bool_decide; [by split; eauto|].
  assert (Hd : ∃ o, (pn_deliver Target (MAsk (mkRequestMessage h n)) pn) = (Ok tt, pn_set_io (pn_reads pn) (.++ [o]) pn) ∧
    covers o = (λ i, u32 (h + i)) <$> seqZ 0 n).
  { unfold pn_deliver. case_bool_decide; [exists (FoNodes (MAsk (mkRequestMessage h n)))|exists (FoNode Target (MAsk (mkRequestMessage h n)))]; done. }
  destruct Hd as (o & Hd & Ho). rewrite (bind_Ok _ _ _ _ _ Hd).
  match goal with |- tracked _ _ (for_each (λ i, pn_timer_Add _ (@?f i) _) ?l ?p).2 => destruct (timer_adds env Target f l p) as (_ & H2 & H3) end.
  cbn in H3. split.
  - exists (c ++ covers o). split.
    { unfold covered. rewrite H2. fold (covered (pn_set_io (pn_reads pn) (.++ [o]) pn)). by rewrite covered_emit, Hc, app_assoc. }
    rewrite Ho. split.
    + apply NoDup_app. split; [done|]. split; [|done]. intros i Hi1 Hi2. apply Hci in Hi1 as [_ Hi1].
      by rewrite (Hnew _ Hi2) in Hi1.
    + intros i [Hi|Hi]%elem_of_app.
      * split; [by apply Hci|]. apply H3. right. by apply Hci.
      * split; [|by apply H3; left]. destruct (rt_Exist i t0) eqn:Hi0; [|done]. apply Hold in Hi0. by rewrite (Hnew _ Hi) in Hi0.
  - intros i Hi. apply H3. right. by apply Hold.
Qed.

Lemma successive_NoDup h n : 0 ≤ n ≤ 2 ^ 32 → NoDup ((λ i, u32 (h + i)) <$> seqZ 0 n).
Proof.
  intros Hn. apply NoDup_fmap_2_strong; [|apply NoDup_seqZ]. intros x y Hx%elem_of_seqZ Hy%elem_of_seqZ Hxy. unfold u32 in Hxy.
  assert (Hd : (x - y) `mod` 2 ^ 32 = 0).
  { replace (x - y) with ((h + x) - (h + y)) by lia. by rewrite Zminus_mod, Hxy, Z.sub_diag. }
  apply Z.mod_divide in Hd as [q Hq]; [|lia]. assert (q = 0) by lia. lia.
Qed.

Lemma up_to_u32 n i last limit : is_u32 i → Forall is_u32 (up_to n i last limit).
Proof. revert i. induction n as [|n IH]; intros i Hi; cbn; [done|]. case_match; [|done]. constructor; [done|apply IH, u32_range]. Qed.
Lemma up_to_length n i last limit : (length (up_to n i last limit) ≤ n)%nat.
Proof. revert i. induction n as [|n IH]; intros i; cbn; [done|]. case_match; cbn; [specialize (IH (u32 (i + 1)))|]; lia. Qed.
Lemma up_to_full n i last limit : is_u32 i → length (up_to n i last limit) = n →
  up_to n i last limit = (λ j, u32 (i + j)) <$> seqZ 0 (Z.of_nat n).
Proof.
  revert i. induction n as [|n IH]; intros i Hi; [done|]. cbn [up_to]. case_match; [|done]. intros [= Hl].
  rewrite seqZ_cons by lia. rewrite fmap_cons. f_equal; [by rewrite Z.add_0_r, u32_small|].
  rewrite IH by (done || apply u32_range). replace (Z.pred (Z.of_nat (S n))) with (Z.of_nat n) by lia.
  change (Z.succ 0) with (1 + 0). rewrite <- (fmap_add_seqZ 1 0), <- list_fmap_compose. apply list_fmap_ext. intros k j _. cbn. unfold u32.
  rewrite Zplus_mod_idemp_l. f_equal. lia.
Qed.

Lemma tracked_ask_each me env Target hs t0 c0 :
  Forall is_u32 hs → keeps (tracked t0 c0) (ask_each me env Target hs : pnM unit).
Proof.
  intros Hu. unfold ask_each. induction hs as [|i hs IH]; [apply keeps_ret|]. cbn [for_each].
  apply Forall_cons in Hu as [Hi Hu]. apply keeps_bind; [|intros _; by apply IH].
  intros pn Ht. unfold mbind, M_bind, get. destruct (rt_Exist i (pn_timer pn)) eqn:He; [done|].
  apply tracked_request; [by apply successive_NoDup| |done]. cbn. intros j [->|[]%not_elem_of_nil]%elem_of_cons.
  by rewrite Z.add_0_r, u32_small.
Qed.

Lemma tracked_ten me env Target base limit t0 c0 pn :
  length (not_asked pn (ten_after base limit)) = 10%nat → tracked t0 c0 pn →
  tracked t0 c0 (pn_sendRequestBlockTo me env Target (u32 (base + 1)) 10 pn).2.
Proof.
  intros Hl. unfold not_asked, ten_after in *. set (hs := up_to _ _ _ _) in *.
  assert (Hf : Forall (λ i, rt_Exist i (pn_timer pn) = false) hs ∧ length hs = 10%nat).
  { pose proof (up_to_length 10 (u32 (base + 1)) (u32 (base + 10)) limit) as Hle. fold hs in Hle.
    pose proof (length_filter (λ i, rt_Exist i (pn_timer pn) = false) hs) as Hlf.
    split; [|lia]. clear -Hl Hle. revert Hl Hle. generalize 10%nat. induction hs as [|a hs IH]; intros n Hl Hle; [done|].
    rewrite filter_cons in Hl. case_decide.
    - constructor; [done|]. cbn in Hl, Hle. apply (IH (pred n)); lia.
    - pose proof (length_filter (λ i, rt_Exist i (pn_timer pn) = false) hs). cbn in Hle. lia. }
  destruct Hf as [Hf Hh]. apply tracked_request; [by apply successive_NoDup|].
  intros i Hi. rewrite Forall_forall in Hf. apply Hf. unfold hs in *. rewrite up_to_full; [done|apply u32_range|done].
Qed.

Lemma tracked_rounds me env height qs t0 c0 : keeps (tracked t0 c0) (request_rounds me env height qs : pnM unit).
Proof.
  induction qs as [|q qs IH]; [apply keeps_ret|]. intros pn Ht. cbn [request_rounds]. unfold mbind at 1, M_bind at 1, get.
  destruct (choose_peer _ _ _ _) as [sel limit]. case_match; [done|].
  unfold mbind, M_bind. match goal with |- tracked _ _ (let (_, _) := ?m in _).2 => assert (Hm : tracked t0 c0 m.2) end.
  { destruct (length _ =? 10)%nat eqn:He; [apply tracked_ten with limit; [by apply Nat.eqb_eq|done]|].
    case_match; [|done]. apply tracked_ask_each; [apply up_to_u32, u32_range|done]. }
  match goal with |- tracked _ _ (let (_, _) := ?m in _).2 => destruct m as [[] pn1] end; [by apply IH|done..].
Qed.

(** C24. A round of requests does not ask for a block twice: whatever the peers
    have said, the heights that the requests of one round cover are different
    from each other and from all heights that are already under way. *)
Theorem requests_disjoint me env pn :
  ∃ c, covered (pn_tryRequestBlocks me env pn).2 = covered pn ++ c ∧ NoDup c ∧ ∀ i, i ∈ c → rt_Exist i (pn_timer pn) = false.
Proof.
  assert (H : tracked (pn_timer pn) (covered pn) (pn_tryRequestBlocks me env pn).2).
  { assert (H0 : tracked (pn_timer pn) (covered pn) pn).
    { split; [|done]. exists []. rewrite app_nil_r. split; [done|]. split; [constructor|]. intros i []%not_elem_of_nil. }
    revert H0. generalize (pn_timer pn) (covered pn). intros t0 c0 H0. unfold pn_tryRequestBlocks.
    apply keeps_bind; [|intros h; apply tracked_rounds|done].
    apply keeps_bind; [apply keeps_gets|intros st; apply keeps_lift]. }
  destruct H as [(c & H1 & H2 & H3) _]. exists c. split; [done|]. split; [done|]. intros i Hi. by apply H3.
Qed.

(** ** A block that can not be connected *)

Lemma pop_inserted (b : Block T) p l : spec_find p l = None → (spec_pop_until p (spec_insert b p l)).1 = Some b.
Proof.
  unfold spec_find, spec_pop_until, spec_insert. intros Hf.
  assert (Hn : filter (λ e : Block T * Z, p ≤ e.2) (filter (λ e, e.2 ≤ p) l) = []).
  { rewrite list_filter_filter. apply fmap_None, head_None in Hf.
    rewrite <- Hf. apply list_filter_iff. intros e. cbn. lia. }
  rewrite filter_app, Hn, filter_cons. cbn. rewrite decide_True by (cbn; lia). by rewrite Z.eqb_refl.
Qed.

Lemma queue_then_pop q l (b : Block T) p : sq_holds q l → spec_find p l = None →
  (FindOrInsert (Some b) p q).1 = None ∧ (PopUntil p (FindOrInsert (Some b) p q).2).1 = Some b.
Proof.
  intros Hq Hf. unfold FindOrInsert. rewrite (find_holds q l p Hq), Hf. cbn. split; [done|].
  pose proof (insert_holds q l b p Hq) as Hi. unfold PopUntil.
  destruct (popuntil_holds (sq_size (sq_insert (Some b) p q)) _ _ p Hi) as [-> _]; [by rewrite (sh_size _ _ Hi)|].
  by apply pop_inserted.
Qed.

(** C25. One message of one peer ends the program: a block of the next height
    that does not connect is put into the queue unchecked, and the round that
    takes it out panics. *)
Theorem unconnectable_block_panics (cs : Consensus A E T CS) (cn : Chain A E T) cpus pick me env env' ID b l height e pn :
  (0 < pn_receivers pn)%nat → sq_holds (pn_blockQ pn) l → spec_find (height + 1) l = None →
  st_Height (nd_store (pn_node pn)) = Ok height → 0 ≤ height < 2 ^ 32 - 1 → HHeight (BHeader b) = height + 1 →
  (ConnectBlock cpus pick cs cn b (Some (pn_signers pn)) (pn_node pn)).1 = Err e →
  let pn' := (pn_run cs cn cpus pick me env (PvRecv ID (Some (MBlocks [b]))) pn).2 in
  (pn_run cs cn cpus pick me env' PvRound pn').1 = Panic.
Proof.
  intros Hr Hq Hf Hh Hlt Hb He pn'. assert (Hu : u32 (height + 1) = height + 1) by (apply u32_small; unfold is_u32; lia).
  destruct (queue_then_pop _ _ b _ Hq Hf) as [H1 H2].
  destruct (FindOrInsert (Some b) (height + 1) (pn_blockQ pn)) as [item q] eqn:HI. cbn in H1, H2. subst item.
  assert (Hadd : pn_addBlock b pn = (Ok tt, pn_set_blockQ q pn)).
  { unfold pn_addBlock, mbind, M_bind, get, lift. rewrite Hh, Hb. cbn. rewrite (proj2 (Z.leb_gt _ _)) by lia. by rewrite HI. }
  assert (Hpn : pn' = pn_set_status (bump ID (HHeight (BHeader b))) (pn_set_blockQ q pn)).
  { subst pn'. cbn [pn_run]. unfold pn_receive. unfold mbind at 1, M_bind at 1, get.
    rewrite (proj2 (Nat.eqb_neq _ _)) by lia. unfold pn_handlePeerMessage, pn_BlockMessage. cbn [for_each].
    unfold mbind, M_bind, try. rewrite Hadd. cbn. done. }
  rewrite Hpn. clear pn' Hpn. cbn [pn_run]. unfold pn_round, pn_Height, pn_store, mbind, M_bind, gets, lift, get. cbn.
  rewrite Hh, Hu. cbn. destruct (PopUntil (height + 1) q) as [item q']. cbn in H2. subst item. cbn.
  unfold mbind, M_bind, try, pn_ConnectBlock. cbn. unfold pn_signers in *. cbn.
  destruct (ConnectBlock _ _ _ _ _ _ _) as [r nd]. cbn in He. subst r. done.
Qed.
End Requests.

(** ** A node without receivers *)

Ltac hush := repeat (first
  [ solve [eauto 1 with mute nocore]
  | apply keeps_bind; [|intros ?]
  | apply keeps_try
  | apply keeps_for_each; intros ?
  | progress cbn beta iota
  | case_match ]).

Section Silence.
Context {A E T P CS : Type} `{AI : AccountI A} `{EI : EventI E} `{B58 : Base58} `{HF : HashFn}.
Context `{EH : !EncodingHash A E} `{SC : !StoreCodec A E T} `{PI : !PileI P} `{TC : !TxCodec T}.
Context `{TX : !TransactionI T A E} `{RC : Recover}.
Context (cs : Consensus A E T CS) (cn : Chain A E T) (cpus : nat) (pick : error → list error → error) (me : PublicHash).

Abbreviation pnode := (P2PNode T P CS).
Abbreviation pnM := (M (P2PNode T P CS)).
Implicit Types (pn : pnode).

Definition mute pn : Prop := pn_receivers pn = 0%nat.
Create HintDb mute.
Hint Resolve keeps_ret keeps_lift keeps_guard keeps_fail keeps_panic keeps_gets : mute.
Lemma mute_step {V} (m : pnM V) : (∀ pn, pn_receivers (m pn).2 = pn_receivers pn) → keeps mute m.
Proof. intros H pn Hm. unfold mute. by rewrite H. Qed.
Lemma mute_get : keeps mute get.
Proof. by apply mute_step. Qed.
Lemma mute_emit o : keeps mute (pn_emit o : pnM unit).
Proof. by apply mute_step. Qed.
Lemma mute_on_pool {V} (m : M TransactionPool V) : keeps mute (pn_on_pool m : pnM V).
Proof. apply mute_step. intros pn. unfold pn_on_pool. by destruct (m _). Qed.
Lemma mute_on_wait {V} (m : M (LinkedQueue Hash256 (TxMsgItem T)) V) : keeps mute (pn_on_wait m : pnM V).
Proof. apply mute_step. intros pn. unfold pn_on_wait. by destruct (m _). Qed.
Lemma mute_ConnectBlock b : keeps mute (pn_ConnectBlock cs cn cpus pick b).
Proof. apply mute_step. intros pn. unfold pn_ConnectBlock. by destruct (ConnectBlock _ _ _ _ _ _ _). Qed.
Hint Resolve mute_get mute_emit mute_on_pool mute_on_wait mute_ConnectBlock : mute.
Hint Extern 1 (keeps mute (modify _)) => apply mute_step; intros ?; reflexivity : mute.

Context (env : FEnv).
Lemma mute_now : keeps mute (pn_now env : pnM Z).
Proof. by apply mute_step. Qed.
Hint Resolve mute_now : mute.
Lemma mute_deliver t m : keeps mute (pn_deliver t m : pnM unit).
Proof. unfold pn_deliver. hush. Qed.
Lemma mute_Height : keeps mute (pn_Height : pnM Z).
Proof. unfold pn_Height, pn_store. hush. Qed.
Lemma mute_slot : keeps mute (pn_last_slot : pnM Z).
Proof. unfold pn_last_slot, pn_store. hush. Qed.
Lemma mute_status_now : keeps mute (pn_status_now : pnM (frmsg T)).
Proof. unfold pn_status_now, pn_store. hush. Qed.
Hint Resolve mute_deliver mute_Height mute_slot mute_status_now : mute.
Lemma mute_request t h n : keeps mute (pn_sendRequestBlockTo me env t h n : pnM unit).
Proof. unfold pn_sendRequestBlockTo, pn_timer_Add. hush. Qed.
Hint Resolve mute_request : mute.
Lemma mute_ask_each t hs : keeps mute (ask_each me env t hs : pnM unit).
Proof. unfold ask_each. hush. Qed.
Hint Resolve mute_ask_each : mute.
Lemma mute_rounds h qs : keeps mute (request_rounds me env h qs : pnM unit).
Proof. induction qs as [|q qs IH]; cbn [request_rounds]; hush. Qed.
Hint Resolve mute_rounds : mute.
Lemma mute_tryRequest : keeps mute (pn_tryRequestBlocks me env : pnM unit).
Proof. unfold pn_tryRequestBlocks. hush. Qed.
Lemma mute_addTx h t tx sigs : keeps mute (pn_addTx cn env h t tx sigs : pnM unit).
Proof. unfold pn_addTx, pn_set_txQ. hush. Qed.
Hint Resolve mute_tryRequest mute_addTx : mute.
Lemma mute_work n slot : keeps mute (pn_work_loop cn env n slot : pnM unit).
Proof. induction n as [|n IH]; cbn [pn_work_loop]; unfold pn_work_item, pn_store, pn_set_sendQ; hush. Qed.
Lemma mute_clean b : keeps mute (pn_cleanPool b : pnM unit).
Proof. unfold pn_cleanPool, pn_store, pn_set_txQ. hush. Qed.
Lemma mute_expire b : keeps mute (pn_expirePool env b : pnM unit).
Proof. unfold pn_expirePool. hush. Qed.
Hint Resolve mute_work mute_clean mute_expire : mute.
Lemma mute_loop n h item has : keeps mute (pn_queue_loop cs cn cpus pick env n h item has : pnM bool).
Proof. revert h item has. induction n as [|n IH]; intros h item has; cbn [pn_queue_loop]; hush. Qed.
Hint Resolve mute_loop : mute.

(** Nothing starts a receiver again. *)
Lemma mute_run ev : keeps mute (pn_run cs cn cpus pick me env ev).
Proof.
  destruct ev; cbn [pn_run]; unfold pn_OnConnected, pn_OnDisconnected, pn_OnTimerExpired, pn_worker, pn_sender, pn_round,
    pn_AddTx, pn_OnItemExpired, pn_broadcastStatus, pn_broadcastMessage, pn_set_mySendQ, pn_set_sendQ, pn_store; try solve [hush].
  intros pn Hm. unfold pn_receive, mbind, M_bind, get. by rewrite Hm.
Qed.
End Silence.

Section SilenceTheorem.
Context {A E T P CS : Type} `{AI : AccountI A} `{EI : EventI E} `{B58 : Base58} `{HF : HashFn}.
Context `{EH : !EncodingHash A E} `{SC : !StoreCodec A E T} `{PI : !PileI P} `{TC : !TxCodec T}.
Context `{TX : !TransactionI T A E} `{RC : Recover}.

(** A message with too many transactions. *)
Lemma oversized_ends_receiver (cs : Consensus A E T CS) (cn : Chain A E T) cpus pick me env ID ms (pn : P2PNode T P CS) :
  (800 < length ms)%nat →
  pn_receivers (pn_run cs cn cpus pick me env (PvRecv ID (Some (MTxs ms))) pn).2 = pred (pn_receivers pn).
Proof.
  intros Hl. cbn [pn_run]. unfold pn_receive. unfold mbind at 1, M_bind at 1, get.
  destruct (pn_receivers pn =? 0)%nat eqn:Hr; [apply Nat.eqb_eq in Hr; cbn; lia|].
  unfold pn_handlePeerMessage, pn_TransactionMessage, guard_err. by rewrite (proj2 (Nat.ltb_lt _ _) Hl).
Qed.

(** C26. A node has two goroutines that receive, and a message that fails ends
    the one that handles it: after two messages with more than 800
    transactions, from any peers, the node handles no message of any peer any
    more, whatever else happens. *)
Theorem two_failures_silence (cs : Consensus A E T CS) (cn : Chain A E T) cpus pick me (nd : Node T P CS)
    (before after : list (FEnv * pn_event (T:=T))) env1 env2 ID1 ID2 ms1 ms2 :
  let run := foldl (λ pn r, (pn_run cs cn cpus pick me r.1 r.2 pn).2) in
  (800 < length ms1)%nat → (800 < length ms2)%nat →
  pn_receivers (run (NewNode nd) before) = 2%nat →
  let pn := run (NewNode nd) (before ++ [(env1, PvRecv ID1 (Some (MTxs ms1))); (env2, PvRecv ID2 (Some (MTxs ms2)))] ++ after) in
  ∀ env ID packet, pn_run cs cn cpus pick me env (PvRecv ID packet) pn = (Ok tt, pn).
Proof.
  intros run H1 H2 Hr pn. assert (Hm : mute pn).
  { subst pn. unfold run in *. rewrite foldl_app. cbn [app foldl]. set (pn0 := foldl _ _ before) in *. cbn [fst snd].
    set (pn2 := (pn_run _ _ _ _ _ env2 _ _).2). assert (H0 : mute pn2).
    { unfold mute, pn2. rewrite oversized_ends_receiver by done. rewrite oversized_ends_receiver by done. by rewrite Hr. }
    clearbody pn2. revert pn2 H0. induction after as [|[env ev] evs IH]; intros pn2 H0; [done|]. cbn. by apply IH, mute_run. }
  intros env ID packet. cbn [pn_run]. unfold pn_receive, mbind, M_bind, get. by rewrite Hm.
Qed.
End SilenceTheorem.
