(* ===== verification/ChainExamples.v ===== *)
(** * The chain at work

    A chain with the vault as its only process: a genesis with two accounts,
    blocks created and connected.  The witnesses instantiate the theorems of
    the store and of the chain here; the examples run what they are about. *)

From S2P Require Import Prelude Amount Common Context ContextSpec ContextBisim LevelRoot Block Store StoreSpec.
From S2P Require Import Chain ChainSpec ChainAgree ChainConnect Vault VaultTame.

Module ChainExamples.

Lemma fst_eta {A B} (p : A * B) a : p.1 = a → p = (a, p.2).
Proof. by destruct p; intros <-. Qed.

Lemma default_eta {A} (x : option A) (d : A) : (if x then true else false) = true → x = Some (default d x).
Proof. by destruct x. Qed.

(** ** Instances *)

#[local] Instance number_event : EventI Z.
Proof. by refine {| ev_N e := e; ev_SetN n _ := n |}. Defined.
#[local] Existing Instance toy_base58.
#[local] Instance short_hash : HashFn := λ d, take 32 (d ++ replicate 32 0).
#[local] Instance signature_is_signer : Recover := λ _ sig, Some sig.

#[local] Instance toy_policy : PolicyCodec := {|
  marshal_policy p := match p with Some p => Ok (7 :: Amount.Bytes (AccountCreationAmount p)) | None => Ok [0] end;
  unmarshal_policy bs :=
    match bs with
    | 7 :: bs => Ok (Some (mkPolicy (Amount.NewAmountFromBytes bs)))
    | [0] => Ok None
    | _ => Err (ErrExternal 1)
    end |}.

#[local] Instance size_hash : EncodingHash account Z := {|
  eh_accounts m := [Z.of_nat (size m)]; eh_names m := [Z.of_nat (size m)]; eh_data m := [Z.of_nat (size m)];
  eh_utxos m := [Z.of_nat (size m)]; eh_txouts m := [Z.of_nat (size m)]; eh_event e := [e] |}.

(** A pile: the genesis hash and the data of the blocks. *)
Definition toy_pile : Type := option Hash256 * list (Hash256 * list bytes).
#[local] Instance toy_pile_I : PileI toy_pile := {|
  pile_Init h p := match p.1 with Some _ => (Err ErrAlreadyInitialized, p) | None => (Ok tt, (Some h, [])) end;
  pile_AppendData height h ds p :=
    if height =? Z.of_nat (length p.2) + 1 then (Ok tt, (p.1, p.2 ++ [(h, ds)])) else (Err ErrInvalidAppendHeight, p);
  pile_GetHash height p :=
    if height =? 0 then match p.1 with Some h => Ok h | None => Err ErrPileInvalidHeight end
    else match p.2 !! Z.to_nat (height - 1) with Some d => Ok d.1 | None => Err ErrPileInvalidHeight end;
  pile_GetData height i p :=
    match p.2 !! Z.to_nat (height - 1) with
    | Some d => match d.2 !! i with Some bs => Ok bs | None => Err ErrInvalidDataIndex end
    | None => Err ErrPileInvalidHeight
    end;
  pile_GetDatas height from count p :=
    match p.2 !! Z.to_nat (height - 1) with
    | Some d => Ok (concat (take count (drop from d.2)))
    | None => Err ErrPileInvalidHeight
    end;
|}.

(** Accounts are written with the lengths of their parts. *)
Definition put (l : bytes) : bytes := Z.of_nat (length l) :: l.
Definition take_part (bs : bytes) : bytes * bytes :=
  match bs with [] => ([], []) | n :: bs => (take (Z.to_nat n) bs, drop (Z.to_nat n) bs) end.
Fixpoint take_parts (n : nat) (bs : bytes) : list bytes * bytes :=
  match n with
  | O => ([], bs)
  | S n => let '(x, bs) := take_part bs in let '(xs, bs) := take_parts n bs in (x :: xs, bs)
  end.
Definition put_parts (ls : list bytes) : bytes := concat (put <$> ls).

Lemma take_part_put x bs : take_part (put x ++ bs) = (x, bs).
Proof.
  unfold put, take_part. cbn [app]. rewrite Nat2Z.id. by rewrite take_app_length, drop_app_length.
Qed.

Lemma take_parts_put ls bs : take_parts (length ls) (put_parts ls ++ bs) = (ls, bs).
Proof.
  induction ls as [|x ls IH]; [done|]. unfold put_parts. rewrite fmap_cons.
  cbn [length take_parts concat]. rewrite <- app_assoc, take_part_put. unfold put_parts in IH. by rewrite IH.
Qed.

#[local] Instance toy_store_codec : StoreCodec account Z vault_tx := {|
  acc_TypeOf a := match a with ASingle _ => Ok 1 | AMulti _ => Ok 2 end;
  acc_Marshal a :=
    match a with
    | ASingle s => Ok (put_parts [single_Address s; single_Name s; single_KeyHash s])
    | AMulti m => Ok (multi_Required m :: Z.of_nat (length (multi_KeyHashes m)) ::
                        put_parts (multi_Address m :: multi_Name m :: multi_KeyHashes m))
    end;
  acc_Unmarshal t bs :=
    if t =? 1 then
      match take_parts 3 bs with ([a; n; k], _) => Ok (ASingle (mkSingle a n k)) | _ => Err (ErrExternal 1) end
    else
      match bs with
      | r :: n :: bs =>
          match take_parts (2 + Z.to_nat n) bs with
          | (a :: nm :: ks, _) => Ok (AMulti (mkMulti a nm r ks))
          | _ => Err (ErrExternal 1)
          end
      | _ => Err (ErrExternal 1)
      end;
  txout_Marshal o := Ok (out_Amount o :: out_PublicHash o);
  txout_Unmarshal bs := match bs with a :: h => Ok (mkTxOut a h) | [] => Err (ErrExternal 1) end;
  header_Marshal h := Ok [HHeight h];
  header_Unmarshal _ := Err (ErrExternal 1);
  header_Hash h := Hash (HHeight h :: PrevHash h ++ LevelRootHash h);
  block_Marshal b := Ok [HHeight (BHeader b); 2];
  block_Unmarshal bs :=
    match bs with
    | h :: _ => Ok (mkBlock (mkHeader 1 1 h [] [] [] 0 [] []) [] [] [] [])
    | [] => Err (ErrExternal 1)
    end;
  enc_ArrayLen n := [Z.of_nat n];
  enc_Uint16 n := [n];
  ev_TypeOf _ := Ok 1;
  ev_Encode e := Ok [e];
|}.

#[local] Instance toy_store_laws : StoreCodecLaws account Z vault_tx.
Proof.
  split.
  - intros [[a n k]|[a n r ks]] t bs [= <-] [= <-]; (split; [by vm_compute|]).
    + cbn [acc_Unmarshal toy_store_codec]. rewrite <- (app_nil_r (put_parts _)).
      change 3%nat with (length [a; n; k]). by rewrite take_parts_put.
    + cbn [acc_Unmarshal toy_store_codec]. rewrite Nat2Z.id. rewrite <- (app_nil_r (put_parts _)).
      change (2 + length ks)%nat with (length (a :: n :: ks)). by rewrite take_parts_put.
  - intros [a h] bs [= <-]. done.
Qed.

(** Transfers are the transactions of the examples: type 0x0101. *)
#[local] Instance toy_tx_codec : TxCodec vault_tx := {|
  tx_TypeOf tx := match tx with Transfer _ _ _ _ => Ok 257 | _ => Err (ErrExternal 1) end;
  EncodeTransaction cid t tx :=
    match tx with
    | Transfer ts from to am => Ok ([cid; t; ts; am] ++ from ++ to)
    | _ => Err (ErrExternal 1)
    end |}.

Definition pid1 : valid_pid 1 := conj (bool_decide_unpack (0 ≤ 1) I) (bool_decide_unpack (1 < 256) I).
Definition pid2 : valid_pid 2 := conj (bool_decide_unpack (0 ≤ 2) I) (bool_decide_unpack (2 < 256) I).
Definition magic : Z := 77.
#[local] Instance vault_txs : TransactionI vault_tx account Z := vault_TransactionI 1 2 magic.

(** ** The chain *)

Definition vp : Process account Z vault_tx := vault_Process 1 map_to_list.
Definition cn : Chain account Z vault_tx :=
  match NewChain (base_app (A := account) (E := Z)) with
  | Ok cn => match MustAddProcess vp cn with Ok cn => cn | _ => cn end
  | _ => mkChain false base_app [] ∅ ∅
  end.
Definition cs : Consensus account Z vault_tx unit :=
  mkConsensus (λ _ _ _, Ok tt) (λ _ s, mret (s, None)).

Lemma cn_tame : chain_tame vault_tx_ok cn.
Proof. by apply (vault_is_tame 1 2 magic pid1 pid2 map_to_list (λ m, reflexivity _)). Qed.

Lemma cn_saves : chain_saves vault_tx_ok cn cs.
Proof.
  split; [apply cn_tame| |intros; apply tame_ret].
  intros p i b [Hin| ->]; [|apply tame_ret]. apply list_elem_of_singleton in Hin as ->. apply tame_ret.
Qed.

Lemma cn_registry : registry_ok cn.
Proof. by eapply (MustAddProcess_registry vp); [by eapply (NewChain_registry base_app)|]. Qed.

Lemma registry_dispatch_witness : getProcess cn 1 = Ok vp ∧ ProcessByName cn vault_Name = Ok vp ∧ idOf cn 0 = 1.
Proof. apply (registry_dispatch cn 0 vp cn_registry). reflexivity. Defined.

Lemma vault_chain_tame_witness : chain_tame vault_tx_ok cn.
Proof.
  apply (vault_chain_tame 1 2 magic pid1 pid2 map_to_list (λ m, reflexivity _) cn).
  - reflexivity.
  - reflexivity.
Defined.

(** ** Genesis: alice with ten coins, bob who generates blocks *)

Definition alice : Address := NewAddress 0 0 magic.
Definition bob : Address := NewAddress 0 1 magic.
Definition genesis_program : M (Ctx account Z) unit :=
  CreateAccount (ASingle (mkSingle alice (str "alice.account") [1])) ;;
  CreateAccount (ASingle (mkSingle bob (str "bob.account") [2])) ;;
  SetAccountData alice 1 tagBalance (Amount.Bytes (10 * Amount.COIN)).
Definition top_of (c : Ctx account Z) : ContextData account Z :=
  match stack c with d :: _ => d | [] => NewContextData None end.
Definition st0 : Store vault_tx toy_pile :=
  match NewStore ∅ (None, []) 1 (str "FLETA") (str "Testnet") 1 with
  | Ok st => (StoreGenesis (replicate 32 9) (top_of (genesis_program NewEmptyContext).2) st).2
  | _ => mkStore ∅ (None, []) 0 [] [] 0 0 (mkStoreCache false 0 [] None) false ∅
  end.
Definition nd0 : Node vault_tx toy_pile unit := mkNode st0 tt.

(** The two conditions of [store_ok] as a test. *)
Definition names_check (d : db) : bool :=
  forallb (λ e, negb (bool_decide (tag e.1 = tagAccountName)) || bool_decide (ParseAddress (drop 2 e.1) = None))
    (map_to_list d).
Lemma store_ok_check (st : Store vault_tx toy_pile) :
  st_isClose st = false → names_check (st_db st) = true → store_ok st.
Proof.
  intros Hc Hn. split; [done|]. intros n Hp. apply eq_None_not_Some. intros [v Hv].
  unfold names_check in Hn. rewrite forallb_forall in Hn.
  specialize (Hn (toAccountNameKey n, v)). rewrite <- list_elem_of_In, elem_of_map_to_list in Hn.
  specialize (Hn Hv). cbn [fst] in Hn. rewrite tag_name in Hn. rewrite bool_decide_eq_true_2 in Hn by done.
  cbn [negb orb] in Hn. apply bool_decide_eq_true in Hn. unfold toAccountNameKey in Hn. simpl in Hn.
  rewrite drop_0 in Hn. rewrite Hn in Hp. by destruct Hp.
Qed.

Lemma st0_ok : store_ok st0.
Proof. apply store_ok_check; vm_compute; reflexivity. Qed.

(** ** The first block: alice pays bob one coin *)

Definition pay (ts n : Z) : vault_tx := Transfer ts alice bob (n * Amount.COIN).
Definition ctx1 : Ctx account Z := NewContext (store_loader st0).
Definition bc1 : BlockCreator account Z vault_tx := (BC_Init cn (NewBlockCreator ctx1 bob [] 10000000000)).2.
Definition reqs1 : list (vault_tx * list Signature) :=
  [(pay 10000000000 1, [[1]]); (pay 10000000000 50, [[1]]); (pay 10000000000 2, [[3]])].
Definition bc2 : BlockCreator account Z vault_tx := default bc1 (add_all 1 cn bob reqs1 bc1).
Definition b1 : Block vault_tx := match (Finalize cn bc2).1 with Ok b => b | _ => bc_b bc2 end.
Definition nd1 : Node vault_tx toy_pile unit := (ConnectBlock 4 (λ e _, e) cs cn b1 None nd0).2.

(** The payment of fifty coins and the one signed by somebody else were
    skipped; the block is connected and bob has his coin. *)
Example b1_transactions : Transactions b1 = [pay 10000000000 1].
Proof. vm_compute. reflexivity. Qed.
Example b1_connected : (ConnectBlock 4 (λ e _, e) cs cn b1 None nd0).1 = Ok tt.
Proof. vm_compute. reflexivity. Qed.
Example bob_paid : amount_of (st_AccountData bob 1 tagBalance (nd_store nd1)) = Amount.COIN.
Proof. vm_compute. reflexivity. Qed.

Lemma ctx1_same : same ctx1 ctx1.
Proof. apply same_refl; [apply store_context_wf, st0_ok|done]. Qed.

Lemma bc1_init : BC_Init cn (NewBlockCreator ctx1 bob [] 10000000000) = (Ok tt, bc1).
Proof. apply fst_eta. vm_compute. reflexivity. Qed.

Lemma bc2_added : add_all 1 cn bob reqs1 bc1 = Some bc2.
Proof. apply default_eta. vm_compute. reflexivity. Qed.

Lemma b1_finalized : Finalize cn bc2 = (Ok b1, (Finalize cn bc2).2).
Proof. apply fst_eta. vm_compute. reflexivity. Qed.

Lemma ctx1_active : active ctx1.
Proof. vm_compute. reflexivity. Qed.

Lemma faithful_none : faithful None.
Proof. intros h sigs sg. done. Qed.

Lemma creator_block_accepted_witness :
  ∃ v1, executeBlockOnContext 4 (λ e _, e) cn 1 (sign [[1; 2; 3]] b1) None ctx1 = (Ok tt, v1) ∧
    (Ctx_Hash v1).1 = Ok (ContextHash (BHeader b1)) ∧
    stack v1 = stack (bc_ctx (Finalize cn bc2).2) ∧ (length (stack v1) ≤ 1)%nat.
Proof.
  apply (creator_block_accepted 1 vault_tx_ok cn ctx1 ctx1 bob [] 10000000000 reqs1 bc1 bc2 b1
    (Finalize cn bc2).2 [[1; 2; 3]] None 4 (λ e _, e)).
  - exact cn_tame.
  - exact ctx1_same.
  - exact ctx1_active.
  - exact bc1_init.
  - by repeat constructor.
  - exact bc2_added.
  - exact b1_finalized.
  - exact faithful_none.
  - lia.
Defined.

(** ** Storing the first block *)

Definition h1 : Hash256 :=
  match HashTransactionByType 1 257 (pay 10000000000 1) with Ok h => h | _ => [] end.
Definition v1 : Ctx account Z := (executeBlockOnContext 4 (λ e _, e) cn 1 b1 None ctx1).2.
Definition st1 : Store vault_tx toy_pile := (StoreBlock b1 (top_of v1) st0).2.

Definition keys_check {K V} `{Countable K} (P : K → V → bool) (m : gmap K V) : bool :=
  forallb (λ e, P e.1 e.2) (map_to_list m).
Lemma keys_check_spec {K V} `{Countable K} (P : K → V → bool) (m : gmap K V) :
  keys_check P m = true → ∀ k v, m !! k = Some v → P k v = true.
Proof.
  unfold keys_check. rewrite forallb_forall. intros Hall k v Hk. apply (Hall (k, v)).
  by rewrite <- list_elem_of_In, elem_of_map_to_list.
Qed.

Definition addr_check (a : Address) : bool := (length a =? AddressSize)%nat.
Definition u64_check (id : Z) : bool := (0 <=? id) && (id <? 2 ^ 64).
Definition layer_check (ctd : ContextData account Z) : bool :=
  keys_check (λ a acc, addr_check a && bool_decide (ParseAddress (acc_Name acc) = None)) (AccountMap ctd) &&
  keys_check (λ a _, addr_check a) (DeletedAccountMap ctd) &&
  keys_check (λ id u, u64_check id && bool_decide (utxo_TxIn u = NewTxIn id)) (UTXOMap ctd) &&
  keys_check (λ id _, u64_check id) (CreatedUTXOMap ctd) &&
  keys_check (λ id _, u64_check id) (DeletedUTXOMap ctd).

Lemma layer_ok_check ctd : layer_check ctd = true → layer_ok ctd.
Proof.
  unfold layer_check. rewrite !andb_true_iff. intros ((((H1 & H2) & H3) & H4) & H5).
  pose proof (keys_check_spec _ _ H1) as A1. pose proof (keys_check_spec _ _ H2) as A2.
  pose proof (keys_check_spec _ _ H3) as A3. pose proof (keys_check_spec _ _ H4) as A4.
  pose proof (keys_check_spec _ _ H5) as A5. cbv beta in A1, A2, A3, A4, A5.
  unfold addr_check, u64_check in *. unfold valid_addr.
  split.
  - intros a [acc Ha]. apply A1, andb_true_iff in Ha as [Ha _]. by apply Nat.eqb_eq.
  - intros a [u Ha]. apply A2 in Ha. by apply Nat.eqb_eq.
  - intros id [u Hu]. apply A3, andb_true_iff in Hu as [Hu _]. unfold is_u64. lia.
  - intros id [u Hu]. apply A4 in Hu. unfold is_u64. lia.
  - intros id [u Hu]. apply A5 in Hu. unfold is_u64. lia.
  - intros id u Hu. apply A3, andb_true_iff in Hu as [_ Hu]. by apply bool_decide_eq_true in Hu.
  - intros a acc Ha. apply A1, andb_true_iff in Ha as [_ Ha]. by apply bool_decide_eq_true in Ha.
Qed.

Lemma st1_stored : StoreBlock b1 (top_of v1) st0 = (Ok tt, st1).
Proof. unfold st1. apply fst_eta. vm_compute. reflexivity. Qed.
Lemma v1_one_layer : stack v1 = [top_of v1].
Proof. vm_compute. reflexivity. Qed.
Lemma b1_height : 1 ≤ HHeight (BHeader b1).
Proof. vm_compute. intros [=]. Qed.
Lemma v1_executed : executeBlockOnContext 4 (λ e _, e) cn 1 b1 None ctx1 = (Ok tt, v1).
Proof. unfold v1. apply fst_eta. vm_compute. reflexivity. Qed.
Lemma b1_tx : has_tx 1 b1 (pay 10000000000 1) h1.
Proof. exists 0%nat, 257. split_and!; vm_compute; reflexivity. Qed.
Lemma ctx1_ready : ready ctx1.
Proof. split; [apply store_context_wf, st0_ok|apply ctx1_active|done]. Qed.
Lemma b1_ok : Forall vault_tx_ok (Transactions b1).
Proof. rewrite b1_transactions. by repeat constructor. Qed.
Lemma pick_four : (1 ≤ 4 ≤ 32)%nat.
Proof. lia. Qed.
Lemma v1_loader : loader v1 = store_loader st0.
Proof.
  destruct (executeBlock_done vault_tx_ok cn cs 4 (λ e _, e) cn_saves pick_four 1 b1 None ctx1 v1
    (pay 10000000000 1) h1 ctx1_ready b1_ok v1_executed b1_tx) as (_ & -> & _). unfold ctx1. reflexivity.
Qed.

Lemma StoreBlock_views_witness :
  store_ok st1 ∧ st_Block (HHeight (BHeader b1)) st1 = Ok b1 ∧
  (∀ a, valid_addr a → st_Account a st1 = view_Account v1 a).
Proof.
  destruct (StoreBlock_views b1 v1 (top_of v1) st0 st1) as (H1 & _ & _ & H4 & H5 & _).
  - exact v1_one_layer.
  - exact v1_loader.
  - apply layer_ok_check. vm_compute. reflexivity.
  - exact st0_ok.
  - exact b1_height.
  - exact st1_stored.
  - by split_and!.
Defined.

(** ** Connecting blocks *)

Definition pick1 : error → list error → error := λ e _, e.
Definition connect (b : Block vault_tx) (nd : Node vault_tx toy_pile unit) :=
  ConnectBlock 4 pick1 cs cn b None nd.

Definition bc2' : BlockCreator account Z vault_tx :=
  let bc := (BC_Init cn (NewBlockCreator (NewContext (store_loader (nd_store nd1))) bob [] 15000000000)).2 in
  default bc (add_all 1 cn bob [(pay 15000000000 1, [[1]])] bc).
Definition b2 : Block vault_tx := match (Finalize cn bc2').1 with Ok b => b | _ => bc_b bc2' end.
Definition nd2 : Node vault_tx toy_pile unit := (connect b2 nd1).2.

Lemma nd1_connected : connect b1 nd0 = (Ok tt, nd1).
Proof. unfold nd1, connect, pick1. apply fst_eta. vm_compute. reflexivity. Qed.
Lemma nd2_connected : connect b2 nd1 = (Ok tt, nd2).
Proof. unfold nd2. apply fst_eta. vm_compute. reflexivity. Qed.
Lemma nd1_ok : store_ok (nd_store nd1).
Proof. apply store_ok_check; vm_compute; reflexivity. Qed.
Lemma b1_timely : timely b1.
Proof. vm_compute. repeat split; intros [=]. Qed.
Lemma b2_timely : timely b2.
Proof. vm_compute. repeat split; intros [=]. Qed.
Example b2_transactions : Transactions b2 = [pay 15000000000 1].
Proof. vm_compute. reflexivity. Qed.
Lemma b2_ok : Forall vault_tx_ok (Transactions b2).
Proof. rewrite b2_transactions. by repeat constructor. Qed.

Lemma two_blocks : connects vault_tx_ok cn cs 4 pick1 [b1; b2] nd0 nd2.
Proof.
  eapply connects_cons with (sp := None); [exact st0_ok|exact b1_ok|exact b1_timely|exact nd1_connected|].
  eapply connects_cons with (sp := None); [exact nd1_ok|exact b2_ok|exact b2_timely|exact nd2_connected|].
  constructor.
Qed.
Lemma nd0_chain : st_chainID (nd_store nd0) = 1.
Proof. vm_compute. reflexivity. Qed.

Lemma no_replay_across_blocks_witness : Forall (λ b, ¬ has_tx 1 b (pay 10000000000 1) h1) [b2].
Proof.
  rewrite <- nd0_chain.
  apply (no_replay_across_blocks vault_tx_ok cn cs 4 pick1 b1 [b2] nd0 nd2 (pay 10000000000 1) h1).
  - exact cn_saves.
  - exact pick_four.
  - exact two_blocks.
  - rewrite nd0_chain. exact b1_tx.
Defined.

Definition last0 : Hash256 := replicate 32 9.
Lemma st0_last : st_LastStatus (nd_store nd0) = Ok (0, last0).
Proof. vm_compute. reflexivity. Qed.

Lemma ConnectBlock_extends_witness :
  PrevHash (BHeader b1) = last0 ∧ st_Block (HHeight (BHeader b1)) (nd_store nd1) = Ok b1.
Proof.
  destruct (ConnectBlock_extends cn cs 4 pick1 b1 None nd0 nd1 0 last0) as (H1 & _ & _ & _ & _ & _ & H7).
  - exact b1_timely.
  - exact st0_last.
  - exact nd1_connected.
  - by split.
Defined.

(** The first block again is refused: its parent is not the last block. *)
Definition nd1' : Node vault_tx toy_pile unit := (connect b1 nd1).2.
Lemma b1_again : connect b1 nd1 = (Err ErrInvalidPrevHash, nd1').
Proof. unfold nd1'. apply fst_eta. vm_compute. reflexivity. Qed.

Lemma ConnectBlock_refused_witness :
  st_db (nd_store nd1') = st_db (nd_store nd1) ∧ st_timeSlotMap (nd_store nd1') = st_timeSlotMap (nd_store nd1) ∧
  st_cache (nd_store nd1') = st_cache (nd_store nd1).
Proof.
  apply (ConnectBlock_refused cn cs 4 pick1 b1 None nd1 nd1' (Err ErrInvalidPrevHash)).
  - exact b1_again.
  - intros [=].
Defined.

Lemma st1_last : st_LastStatus (nd_store nd1) = Ok (1, header_Hash (BHeader b1)).
Proof. vm_compute. reflexivity. Qed.
Lemma st1_time : st_LastTimestamp (nd_store nd1) = Ok 10000000000.
Proof. vm_compute. reflexivity. Qed.
Lemma st1_header : ∃ target, st_Header 1 (nd_store nd1) = Ok target.
Proof. exists (BHeader b1). vm_compute. reflexivity. Qed.

Lemma validateHeader_iff_witness : Generator (BHeader b2) ≠ emptyAddr ∧ HHeight (BHeader b2) = 2.
Proof.
  destruct (validateHeader_iff (BHeader b2) (nd_store nd1) 1 (header_Hash (BHeader b1)) 10000000000) as [Hv _].
  - exact st1_last.
  - exact st1_time.
  - exact st1_header.
  - destruct Hv as (_ & _ & _ & H4 & H5 & _); [vm_compute; reflexivity|]. by split.
Defined.

(** ** A transaction that was used before stops the block creator *)

Definition bc3 : BlockCreator account Z vault_tx :=
  NewBlockCreator (NewContext (store_loader (nd_store nd1))) bob [] 14000000000.

Lemma bc3_ready : ready (bc_ctx bc3).
Proof. split; [apply store_context_wf, nd1_ok|vm_compute; reflexivity|done]. Qed.

Lemma used_slot_blocks_Finalize_witness :
  ∃ bc', UnsafeAddTx cn bob 257 h1 (pay 10000000000 1) [[1]] [[1]] bc3 = (Err ErrUsedTimeSlot, bc') ∧
    ∀ reqs bc2 b bc4, Forall (λ r, vault_tx_ok r.1) reqs → add_all 1 cn bob reqs bc' = Some bc2 →
      Finalize cn bc2 ≠ (Ok b, bc4).
Proof.
  apply (used_slot_blocks_Finalize vault_tx_ok cn 1 bob 257 h1 (pay 10000000000 1) [[1]] [[1]] bc3 vp).
  - exact cn_tame.
  - done.
  - exact bc3_ready.
  - reflexivity.
  - vm_compute. reflexivity.
  - vm_compute. reflexivity.
Defined.

(** Within one block nothing stops it: the snapshot around the second
    execution has a layer of its own, and the slot of the first is not looked
    up.  The same signed payment twice in a block pays twice. *)
Definition bc4 : BlockCreator account Z vault_tx :=
  default bc1 (add_all 1 cn bob [(pay 10000000000 1, [[1]]); (pay 10000000000 1, [[1]])] bc1).
Definition b1_twice : Block vault_tx := match (Finalize cn bc4).1 with Ok b => b | _ => bc_b bc4 end.
Example pays_twice :
  Transactions b1_twice = [pay 10000000000 1; pay 10000000000 1] ∧
  (connect b1_twice nd0).1 = Ok tt ∧
  amount_of (st_AccountData bob 1 tagBalance (nd_store (connect b1_twice nd0).2)) = 2 * Amount.COIN.
Proof. vm_compute. by split_and!. Qed.

(** ** Restart and signature checks *)

Lemma b1_hashable : hashable 1 (TransactionTypes b1) (Transactions b1).
Proof.
  assert (Ht : TransactionTypes b1 = [257]) by (vm_compute; reflexivity).
  rewrite b1_transactions, Ht. repeat constructor. exists h1. vm_compute. reflexivity.
Qed.
Lemma b1_slot : slot_of b1 = 2.
Proof. vm_compute. reflexivity. Qed.
Lemma nd1_block : st_Block (Z.of_nat 1) (nd_store nd1) = Ok b1.
Proof. vm_compute. reflexivity. Qed.
Lemma nd1_chain : st_chainID (nd_store nd1) = 1.
Proof. vm_compute. reflexivity. Qed.

Lemma restart_slots_witness :
  ∃ m', rebuild_slots Vault.tx_Timestamp 2 1 (nd_store nd1) ∅ = (Ok tt, m') ∧ slot_has m' 2 h1 = true.
Proof.
  destruct (restart_slots Vault.tx_Timestamp (nd_store nd1) (λ _, b1) 1 2 ∅) as (m' & H1 & _ & H3).
  - intros h Hh. assert (h = 1%nat) as -> by lia. rewrite nd1_chain.
    split; [exact nd1_block|exact b1_hashable].
  - intros. lia.
  - intros. rewrite b1_slot. lia.
  - lia.
  - exists m'. split; [exact H1|]. specialize (H3 1%nat (pay 10000000000 1) h1).
    rewrite nd1_chain, b1_slot in H3. apply H3; [lia|exact b1_tx|vm_compute; split; intros [=]].
Defined.

(** A node that stopped after the pile has the first block and before the
    database has it. *)
Definition st_crashed : Store vault_tx toy_pile := st_set_cdb (st_cdb (nd_store nd1)) st0.

(** The block that the codec of the example reads back. *)
Definition b1_read : Block vault_tx := match piled (st_cdb (nd_store nd1)) 1 with Ok b => b | _ => b1 end.

Lemma st_cdb_set (p : toy_pile) (st : Store vault_tx toy_pile) : st_cdb (st_set_cdb p st) = p.
Proof. reflexivity. Qed.

Lemma replay_terminates_witness :
  replay_blocks (λ b, StoreBlock b (top_of v1)) 5 (0 + 1) st_crashed = StoreBlock b1_read (top_of v1) st_crashed.
Proof.
  assert (Hs : for_each (λ b, StoreBlock b (top_of v1)) [b1_read] st_crashed = StoreBlock b1_read (top_of v1) st_crashed)
    by (vm_compute; reflexivity).
  rewrite <- Hs. apply (replay_terminates (st_cdb (nd_store nd1)) (λ b, StoreBlock b (top_of v1)) [b1_read] 0 st_crashed 5).
  - intros b s s' ->%list_elem_of_singleton Hb H. eapply StoreBlock_behind; [exact Hb| |exact H].
    intros ds. vm_compute. reflexivity.
  - intros [|i] b Hi; [apply (inj Some) in Hi; rewrite <- Hi|discriminate Hi]. split; vm_compute; reflexivity.
  - vm_compute. reflexivity.
  - split; [vm_compute; reflexivity|]. split; [unfold st_crashed; apply st_cdb_set|]. intros _. vm_compute. intros [=].
  - lia.
  - vm_compute. reflexivity.
  - simpl. lia.
Defined.

Lemma check_all_sequential_witness :
  check_all 4 pick1 1 None b1 = Ok [(h1, [[1]])] ↔
  check_range 1 None b1 0 (Transactions b1) = Ok [(h1, [[1]])].
Proof.
  apply (check_all_sequential 1 None b1 4 pick1 [(h1, [[1]])]).
  - lia.
  - rewrite b1_transactions. vm_compute. lia.
Defined.
Example b1_checked : check_all 4 pick1 1 None b1 = Ok [(h1, [[1]])].
Proof. vm_compute. reflexivity. Qed.
End ChainExamples.
