(* ===== verification/PofExamples.v ===== *)
(** * The consensus at work

    A table of two formulators and three observers; the witnesses of the
    theorems on the consensus. *)

From S2P Require Import Prelude Tokens Common Context ContextSpec Block Store Chain Search Rank RankSpec Pof PofSpec.
From S2P Require Import Vault ChainExamples.

Module PofExamples.
Import ChainExamples.

#[local] Existing Instance number_event.
#[local] Existing Instance toy_base58.
#[local] Existing Instance toy_store_codec.
#[local] Instance byte_hash : HashFn := λ d, (λ x, x `mod` 256) <$> take 32 (d ++ replicate 32 0).
#[local] Instance any_signature : Recover := λ _ sig, Some sig.

Lemma byte_hash_bytes d : Forall is_byte (sha256 d).
Proof.
  unfold sha256, byte_hash. apply Forall_fmap, Forall_forall. intros x _. unfold is_byte, compose.
  apply Z.mod_pos_bound. lia.
Qed.

(** Multi accounts play the formulators; their first key is the generator. *)
#[local] Instance multi_formulator : FormulatorI account := {|
  fa_is a := match a with AMulti _ => true | ASingle _ => false end;
  fa_GeneratorHash a := match a with AMulti m => default [] (head (multi_KeyHashes m)) | ASingle _ => [] end;
  fa_IsActivated a := match a with AMulti m => negb (multi_Required m =? 0) | ASingle _ => false end;
|}.

#[local] Existing Instance ToyTokens.toy_tokens.

Definition key (n : Z) : PublicHash := n :: replicate 30 0.
Definition addr (h n : Z) : Address := NewAddress h n 0.
Definition rank (a : Address) (k ph : Z) : Rank := NewRank a (key k) ph (DoubleHash a).
Definition rs0 : list Rank := [rank (addr 1 1) 11 2; rank (addr 1 2) 12 2].
Definition s0 : CState :=
  mkCState 2 1 {[key 1 := true; key 2 := true; key 3 := true]} (RankExamples.table rs0).
Definition config : CState := NewConsensus 2 [key 1; key 2; key 3].

Definition BSH (h : Hash256) (sig : Signature) : Hash256 := Hash (h ++ sig).

Lemma s0_table : rt_ok (cs_rt s0).
Proof. apply RankExamples.table_ok. reflexivity. Qed.
Lemma s0_room n : 0 ≤ n ≤ 1000 → room n (rt_candidates (cs_rt s0)).
Proof.
  intros Hn r Hr. cbn [cs_rt s0 RankExamples.table rt_candidates] in Hr. unfold rs0 in Hr.
  rewrite !elem_of_cons, elem_of_nil in Hr. destruct Hr as [->|[->|[]]]; cbn [rank NewRank rk_update rk_phase]; lia.
Qed.

Lemma OnLoadChain_restores_witness : pof_OnLoadChain (buildSaveData s0) config = Ok s0.
Proof.
  apply (OnLoadChain_restores s0 config).
  - exact ToyTokens.toy_tokens_laws.
  - exact s0_table.
  - by repeat constructor.
  - intros k [v Hk]. unfold s0 in Hk. cbn [cs_observers] in Hk.
    rewrite !lookup_insert_Some, lookup_singleton_Some in Hk.
    destruct Hk as [[<- _]|(_ & [[<- _]|(_ & [<- _])])]; reflexivity.
  - reflexivity.
  - vm_compute. reflexivity.
Defined.

(** A block of height 2 after one timeout: the second candidate generates it;
    a new formulator appears and the first one is revoked. *)
Definition newcomer : account := AMulti (mkMulti (addr 2 7) (str "newcomer") 1 [key 17]).
Definition revoked : account := AMulti (mkMulti (addr 1 1) (str "revoked") 0 [key 11]).
Definition layer : ContextData account Z :=
  set_AccountMap {[addr 2 7 := newcomer; addr 1 1 := revoked]} (NewContextData None).
Definition ctx2 : Ctx account Z :=
  mkCtx emptyLoader 2 (replicate 32 0) 0 newContextCache [layer] false (replicate 32 0).
Definition header2 : Header :=
  mkHeader 1 1 2 (replicate 32 0) (replicate 32 0) (replicate 32 0) 10 (addr 1 2) (encodeConsensusData 1).
Definition block2 : Block vault_tx := mkBlock header2 [] [] [] [].

Lemma ctx2_is_wf : wf ctx2.
Proof. split; [by exists layer, []|apply newContextCache_ok|by split]. Qed.

Lemma s0_ok : cs_ok 2 s0.
Proof.
  split; [exact s0_table|by vm_compute|]. intros b Hb. apply elem_of_dom in Hb. revert b Hb.
  apply (bool_decide_unpack (set_Forall (λ b, Height b < 2) (dom (rt_rankMap (cs_rt s0))))). vm_compute. exact I.
Qed.

Lemma layer_is_keyed : layer_keyed layer 2.
Proof.
  split; intros b a Ha; unfold layer, set_AccountMap in Ha; cbn [AccountMap DeletedAccountMap NewContextData] in Ha.
  - rewrite lookup_insert_Some, lookup_singleton_Some in Ha. destruct Ha as [[<- <-]|(_ & <- & <-)]; reflexivity.
  - done.
  - rewrite lookup_insert_Some, lookup_singleton_Some in Ha. by destruct Ha as [[<- _]|(_ & <- & _)]; vm_compute.
Qed.

Lemma header2_hash : Forall is_byte (header_Hash (BHeader block2)).
Proof. apply (bool_decide_unpack (Forall is_byte (header_Hash (BHeader block2)))). vm_compute. exact I. Qed.

Lemma OnSaveData_members_witness :
  ∃ s' e c', pof_OnSaveData block2 s0 ctx2 = (Ok (s', e), c') ∧
    rt_rankMap (cs_rt s') !! addr 2 7 = Some (key 17) ∧ rt_rankMap (cs_rt s') !! addr 1 1 = None ∧
    rt_rankMap (cs_rt s') !! addr 1 2 = Some (key 12).
Proof.
  destruct (OnSaveData_members byte_hash_bytes block2 ctx2 s0 layer [] 1) as (s' & e & c' & H1 & _ & _ & H2 & _).
  - exact ctx2_is_wf.
  - reflexivity.
  - exact s0_ok.
  - exact layer_is_keyed.
  - vm_compute. reflexivity.
  - vm_compute. lia.
  - exact header2_hash.
  - apply s0_room. vm_compute. split; intros [=].
  - exists s', e, c'. split; [exact H1|]. rewrite !H2. vm_compute. by split_and!.
Defined.

(** The block of the second candidate after one timeout, signed by it and by
    two observers, and a block of the first one without timeouts. *)
Definition header1 : Header :=
  mkHeader 1 1 2 (replicate 32 0) (replicate 32 0) (replicate 32 0) 10 (addr 1 1) (encodeConsensusData 0).

Lemma accepted_blocks_share_observer_witness :
  ∃ p, p ∈ dom (cs_observers s0) ∧ signed_by (BSH (header_Hash header2) (key 12)) [key 1; key 2] p ∧
    signed_by (BSH (header_Hash header1) (key 11)) [key 2; key 3] p.
Proof.
  destruct (accepted_blocks_share_observer BSH header2 [key 12; key 1; key 2] header1 [key 11; key 2; key 3] s0)
    as (sig1 & sig2 & obs1 & obs2 & E1 & E2 & _ & _ & H).
  - vm_compute. reflexivity.
  - vm_compute. reflexivity.
  - injection E1 as <- <-. injection E2 as <- <-. exact H.
Defined.
End PofExamples.
