(* ===== verification/FormulatorNodeExamples.v ===== *)
(** * A formulator at work

    A formulator on a chain with the vault: it is asked for blocks, generates
    two of them with an answer of an observer handled in between, and the
    witnesses of the theorems on formulators. *)

From S2P Require Import Prelude Tokens Amount Common Context ContextSpec LevelRoot Block Store Chain Search SortedQueue LinkedQueue ExpireQueue TxPool Rank Pof.
From S2P Require Import Vault VaultTame ChainExamples RequestTimer Observer ObserverHandle ObserverOnChain.
From S2P Require Import FormulatorNode FormulatorHandle FormulatorEvents FormulatorGrows VaultSteady FormulatorChain FormulatorLost FormulatorFuel.

Module FormulatorNodeExamples.
Import ChainExamples.

#[local] Existing Instance number_event.
#[local] Existing Instance toy_base58.
#[local] Existing Instance short_hash.
#[local] Existing Instance signature_is_signer.
#[local] Existing Instance toy_policy.
#[local] Existing Instance size_hash.
#[local] Existing Instance toy_pile_I.
#[local] Existing Instance toy_store_codec.
#[local] Existing Instance toy_tx_codec.
#[local] Existing Instance vault_txs.
#[local] Existing Instance ToyTokens.toy_tokens.
#[local] Instance no_formulators : FormulatorI account :=
  {| fa_is _ := false; fa_GeneratorHash _ := []; fa_IsActivated _ := false |}.

Definition key (n : Z) : PublicHash := n :: replicate 30 0.
Definition state0 : CState :=
  mkCState 3 0 {[key 1 := true; key 2 := true; key 3 := true]}
    (mkTable 0 [NewRank bob (key 70) 1 (replicate 32 1)] {[bob := key 70]}).
Definition BSH (h : Hash256) (sig : Signature) : Hash256 := Hash (h ++ sig).
Definition config : FormulatorConfig := mkFrConfig bob 1.
Definition me : PublicHash := key 80.
Definition sign_as (h : Hash256) : res Signature := Ok (key 70).
Definition pick (e : error) (_ : list error) : error := e.

(** The clock stands at ten seconds; every block gets what the pool has. *)
Definition env0 : FEnv :=
  mkFEnv (λ n, 10000000000 + Z.of_nat n) (λ _ _, O) (λ _, Ok []) map_to_list (λ Q m, (map_to_list m).*1) true
    (λ txs blocks, txs) 10.

Abbreviation fnode := (FormulatorNode account Z vault_tx toy_pile).
Definition fr_start : fnode := NewFormulatorNode (Chain.mkNode st0 state0).
(** Three payments arrive. *)
Definition fr_paid : fnode :=
  (for_each (λ n, fr_AddTx cn env0 (pay 10000000000 n) [[1]]) [1; 2; 3] fr_start).2.

Example three_wait : tp_Size (fr_pool fr_paid) = 3%nat.
Proof. vm_compute. reflexivity. Qed.

Definition req : BlockReqMessage := mkBlockReq (replicate 32 9) 1 0 bob (key 70).

(** An observer asks, the goroutine starts and makes the first block. *)
Definition fr_asked : fnode :=
  (fr_run BSH cn 2 pick config me (key 70) sign_as env0 (FvObserver (key 1) (MReq req)) fr_paid).2.
Definition g0 : Generation :=
  match (start_generation 2 config env0 (key 1) req fr_asked).1 with
  | Ok g => g
  | _ => mkGeneration [] req 0 0 0 0 0 0 0 None
  end.
Definition fr0 : fnode := (start_generation 2 config env0 (key 1) req fr_asked).2.
Definition next (g : Generation) (fr : fnode) : Generation :=
  match (gen_one cn config sign_as env0 g fr).1 with Ok g => g | _ => g end.
Definition after (g : Generation) (fr : fnode) : fnode := (gen_one cn config sign_as env0 g fr).2.
Definition sent (fr : fnode) : Block vault_tx :=
  match last (fr_out fr) with Some (FoObserver _ (MGen m)) => bg_Block m | _ => b1 end.

Definition g1 : Generation := next g0 fr0.
Definition fr1 : fnode := after g0 fr0.
(** The observer sends the block back, and the node looks at it. *)
Definition fr2 : fnode :=
  (fr_run BSH cn 2 pick config me (key 70) sign_as env0
     (FvObserver (key 1) (MGen (mkBlockGen (sent fr1) (key 70) false))) fr1).2.
Definition fr3 : fnode := (fr_run BSH cn 2 pick config me (key 70) sign_as env0 (FvTask 1) fr2).2.
Definition g2 : Generation := next g1 fr3.
Definition fr4 : fnode := after g1 fr3.

Example asked_to_generate : fr_tasks fr_asked = [TGen (key 1) req].
Proof. vm_compute. reflexivity. Qed.
(** The configuration allows one transaction per block: the first block has two. *)
Example blocks_of_the_run : Transactions (sent fr1) = [pay 10000000000 1; pay 10000000000 2] ∧ Transactions (sent fr4) = [pay 10000000000 3] ∧
  HHeight (BHeader (sent fr1)) = 1 ∧ HHeight (BHeader (sent fr4)) = 2 ∧ fr_tasks fr2 = [TGen (key 1) req; TUpdate].
Proof. vm_compute. by split_and!. Qed.

Lemma started : start_generation 2 config env0 (key 1) req fr_asked = (Ok g0, fr0).
Proof. unfold fr0. apply fst_eta. vm_compute. reflexivity. Qed.
Lemma first_made : gen_one cn config sign_as env0 g0 fr0 = (Ok g1, fr1).
Proof. unfold fr1, after. apply fst_eta. vm_compute. reflexivity. Qed.
Lemma second_made : gen_one cn config sign_as env0 g1 fr3 = (Ok g2, fr4).
Proof. unfold fr4, after. apply fst_eta. vm_compute. reflexivity. Qed.
Lemma first_sent : fr_out fr1 = removelast (fr_out fr1) ++ [FoObserver (gs_ID g0) (MGen (mkBlockGen (sent fr1) (key 70) false))].
Proof. vm_compute. reflexivity. Qed.
Lemma second_sent : fr_out fr4 = removelast (fr_out fr4) ++ [FoObserver (gs_ID g1) (MGen (mkBlockGen (sent fr4) (key 70) false))].
Proof. vm_compute. reflexivity. Qed.

Lemma generates_two : generates BSH cn 2 pick config me (key 70) sign_as g0 fr0 [sent fr1; sent fr4].
Proof.
  eapply generates_block; [exact first_made|exact first_sent| |].
  - apply (rtc_l _ _ fr2); [by eexists _, _|]. apply (rtc_l _ _ fr3); [by eexists _, _|]. apply rtc_refl.
  - eapply generates_block; [exact second_made|exact second_sent|apply rtc_refl|apply generates_end].
Qed.

Lemma cn_is_steady : chain_steady cn.
Proof. by apply (vault_chain_steady 1 2 magic map_to_list). Qed.

Lemma generation_extends_chain_witness : extends bob 1 (replicate 32 9) 0 [sent fr1; sent fr4].
Proof.
  apply (generation_extends_chain BSH cn 2 pick config me (key 70) sign_as env0 (key 1) req fr_asked g0 fr0
    [sent fr1; sent fr4] 0 (replicate 32 9) 0).
  - exact cn_is_steady.
  - vm_compute. reflexivity.
  - vm_compute. reflexivity.
  - vm_compute. reflexivity.
  - exact started.
  - exact generates_two.
Defined.

Lemma generated_block_size_witness : tx_count (sent fr1) ≤ 2.
Proof.
  pose proof (generated_block_size BSH cn 2 pick config me (key 70) sign_as env0 (key 1) req fr_asked g0 fr0
    [sent fr1; sent fr4] started generates_two) as H.
  exact (Forall_inv H).
Defined.

(** ** A node that holds a generated block *)

Definition runs : list (FEnv * fr_event (T:=vault_tx)) :=
  [(env0, FvObserver (key 1) (MGen (mkBlockGen (sent fr1) (key 70) false)))].
Definition fr_told : fnode :=
  foldl (λ fr r, (fr_run BSH cn 2 pick config me (key 70) sign_as r.1 r.2 fr).2) fr_start runs.

Lemma update_terminates_witness : size (fr_gens fr_told) = 1%nat ∧
  update_loop BSH cn 2 pick env0 9 1 fr_told = update_loop BSH cn 2 pick env0 (S (size (fr_gens fr_told))) 1 fr_told.
Proof.
  assert (Hs : size (fr_gens fr_told) = 1%nat) by (vm_compute; reflexivity). split; [exact Hs|].
  unfold fr_told, fr_start in *.
  destruct (update_terminates BSH cn 2 pick config me (key 70) sign_as (Chain.mkNode st0 state0) runs cn_is_steady) as [H _].
  cbv beta zeta in H. refine (H env0 1 9%nat _). rewrite Hs. lia.
Defined.

(** ** A block of the wrong generator *)

Definition wrong : Block vault_tx :=
  mkBlock (mkHeader 1 1 1 (replicate 32 9) [] [] 10000000000 alice (encodeConsensusData 0)) [] [] [] [[1]].
Definition arrives : list (FEnv * fr_event (T:=vault_tx)) :=
  [(env0, FvPeerUp (key 5)); (env0, FvPeer (key 5) (MBlocks [wrong]))].
Definition fr_queued : fnode := after_runs BSH cn 2 pick config me (key 70) sign_as arrives fr_start.
Definition q_left : SortedQueue := (PopUntil 1 (fr_blockQ fr_queued)).2.
(** A peer comes that has the block of height 1, the node looks for blocks and
    at its queue again. *)
Definition later : list (FEnv * fr_event (T:=vault_tx)) :=
  [(env0, FvPeerUp (key 6)); (env0, FvPeer (key 6) (MState (mkStatus 1 1 (replicate 32 7)))); (env0, FvRequests); (env0, FvRound)].

Definition fr_dropped : fnode := after_runs BSH cn 2 pick config me (key 70) sign_as [(env0, FvRound)] fr_queued.
Definition fr_later (runs : list (FEnv * fr_event (T:=vault_tx))) : fnode :=
  after_runs BSH cn 2 pick config me (key 70) sign_as runs fr_dropped.

Lemma at_zero : st_Height (nd_store (fr_node fr_queued)) = Ok 0.
Proof. vm_compute. reflexivity. Qed.
Lemma wrong_first : PopUntil (u32 (0 + 1)) (fr_blockQ fr_queued) = (Some wrong, q_left).
Proof. vm_compute. reflexivity. Qed.
Lemma wrong_marked : fr_blockWait fr_queued !! HHeight (BHeader wrong) = Some true.
Proof. vm_compute. reflexivity. Qed.
Lemma wrong_refused : (connect_queued BSH cn 2 pick wrong (upd_blocks q_left id fr_queued)).1 = Err ErrInvalidTopAddress.
Proof. vm_compute. reflexivity. Qed.
(** No round of [later] brings the chain to height 1. *)
Lemma later_low pre env' post n : later = pre ++ (env', FvRound) :: post →
  st_Height (nd_store (fr_node (fr_later (pre ++ [(env', FvRound)])))) = Ok n → n = 0.
Proof.
  intros E. assert (Hpre : pre = take 3 later ∧ env' = env0).
  { unfold later in E. destruct pre as [|? [|? [|? [|? pre]]]]; simplify_eq/=; try done. by destruct pre. }
  destruct Hpre as [-> ->]. vm_compute. by intros [= <-].
Qed.

Lemma dropped_block_not_requested_witness :
  fr_blockQ fr_dropped = q_left ∧ fr_blockWait (fr_later later) !! 1 = Some true ∧ asked 1 (fr_later later) = asked 1 fr_queued.
Proof.
  pose proof (dropped_block_not_requested BSH cn 2 pick config me (key 70) sign_as (Chain.mkNode st0 state0) arrives env0 0 wrong q_left
    ErrInvalidTopAddress at_zero wrong_first wrong_marked wrong_refused) as [Hq Hr].
  split; [exact Hq|]. destruct (Hr later) as [H|(pre & env' & post & n & E & _ & Hn & Hle & _)]; [exact H|exfalso].
  pose proof (later_low pre env' post n E Hn) as H0. rewrite H0 in Hle. exact (Hle eq_refl).
Defined.

(** Without the mark the node would ask: a peer that has the block is asked
    for it in the state before the block arrived. *)
Definition ready (fr : fnode) : fnode :=
  (fr_run BSH cn 2 pick config me (key 70) sign_as env0
     (FvPeer (key 5) (MState (mkStatus 1 1 (replicate 32 7))))
     (fr_run BSH cn 2 pick config me (key 70) sign_as env0 (FvPeerUp (key 5)) fr).2).2.
Example unmarked_is_asked : length (asked 1 (ready fr_start)) = 1%nat ∧
  length (asked 1 (ready (run_round BSH cn 2 pick config me env0 fr_queued).2)) = 0%nat.
Proof. vm_compute. by split. Qed.

(** ** A worker whose round is over *)

(** The transaction at which the count ends the round is taken from the queue
    and forgotten: here a round of one, with two transactions waiting. *)
Definition fr_txs : fnode :=
  (handle_PeerTxs (key 5)
    [mkTxMessage 1 257 (pay 10000000000 1) [[1]] []; mkTxMessage 1 257 (pay 10000000000 2) [[1]] []] fr_start).2.
Example worker_forgets :
  lq_Size (fr_txWaitQ fr_txs) = 2%nat ∧
  let fr' := (work_loop cn env0 1 0 fr_txs).2 in
  lq_Size (fr_txWaitQ fr') = 0%nat ∧ tp_Size (fr_pool fr') = 1%nat ∧ length (fr_txSendQ fr') = 1%nat.
Proof. vm_compute. by split_and!. Qed.

(** An empty list of blocks ends the program. *)
Example no_blocks_panics : (handlePeerMessage me env0 (key 5) (MBlocks []) fr_start).1 = Panic.
Proof. reflexivity. Qed.
End FormulatorNodeExamples.
