(* ===== verification/P2PExamples.v ===== *)
(** * A node of the network at work

    A node on a chain with the vault: it asks its peers, connects a block, is
    stopped by a bad one and falls silent; the witnesses of the theorems on
    nodes. *)

From S2P Require Import Prelude Amount Common Context ContextSpec LevelRoot Block Store Chain Search SortedQueue LinkedQueue ExpireQueue TxPool Rank Pof.
From S2P Require Import Vault VaultTame ChainExamples RequestTimer Observer ObserverHandle FormulatorNode FormulatorHandle P2PNode P2PSpec.

Module P2PExamples.
Import ChainExamples.

#[local] Existing Instance number_event.
#[local] Existing Instance toy_base58.
#[local] Existing Instance short_hash.
#[local] Existing Instance signature_is_signer.
#[local] Existing Instance toy_policy.
#[local] Existing Instance size_hash.
#[local] Existing Instance toy_pile_I.
#[local] Existing Instance toy_store_codec.
#[local] Existing Instance toy_tx_codec.
#[local] Existing Instance vault_txs.

Definition key (n : Z) : PublicHash := n :: replicate 30 0.
Definition me : PublicHash := key 80.
Definition pick (e : error) (_ : list error) : error := e.
Definition env0 : FEnv :=
  mkFEnv (λ n, 10000000000 + Z.of_nat n) (λ _ _, O) (λ _, Ok []) map_to_list (λ Q m, (map_to_list m).*1) true
    (λ txs blocks, txs) 10.

Abbreviation pnode := (P2PNode vault_tx toy_pile unit).
Definition pn0 : pnode := NewNode nd0.
Definition step (pn : pnode) (ev : pn_event) : pnode := (pn_run cs cn 2 pick me env0 ev pn).2.

(** A peer at height twelve: ten blocks in one request, the others one by one. *)
Definition pn_asked : pnode :=
  step (step (step pn0 (PvUp (key 5))) (PvRecv (key 5) (Some (MState (mkStatus 1 12 (replicate 32 7)))))) PvRequests.
Example asks_for_twelve : covered pn_asked = seqZ 1 12.
Proof. vm_compute. reflexivity. Qed.

(** The block of the examples of the chain arrives and is connected. *)
Definition pn_synced : pnode := step (step pn0 (PvRecv (key 5) (Some (MBlocks [b1])))) PvRound.
Example synced : st_Height (nd_store (pn_node pn_synced)) = Ok 1.
Proof. vm_compute. reflexivity. Qed.

(** A block of another chain identifier. *)
Definition wrong : Block vault_tx :=
  mkBlock (mkHeader 9 1 1 (replicate 32 9) [] [] 10000000000 alice []) [] [] [] [].

Lemma unconnectable_block_panics_witness :
  (pn_run cs cn 2 pick me env0 PvRound (pn_run cs cn 2 pick me env0 (PvRecv (key 5) (Some (MBlocks [wrong]))) pn0).2).1 = Panic.
Proof.
  apply (unconnectable_block_panics cs cn 2 pick me env0 env0 (key 5) wrong [] 0 ErrInvalidChainID pn0).
  - cbn. lia.
  - exact NewSortedQueue_holds.
  - reflexivity.
  - vm_compute. reflexivity.
  - lia.
  - reflexivity.
  - vm_compute. reflexivity.
Defined.

Definition many : list (TransactionMessage vault_tx) := replicate 801 (mkTxMessage 1 257 (pay 10000000000 1) [[1]] []).
Definition pn_silent : pnode :=
  foldl (λ pn r, (pn_run cs cn 2 pick me r.1 r.2 pn).2) pn0
    ([] ++ [(env0, PvRecv (key 5) (Some (MTxs many))); (env0, PvRecv (key 6) (Some (MTxs many)))] ++ [(env0, PvRound)]).

Lemma two_failures_silence_witness :
  pn_run cs cn 2 pick me env0 (PvRecv (key 7) (Some (MBlocks [b1]))) pn_silent = (Ok tt, pn_silent).
Proof.
  unfold pn_silent, pn0.
  refine (two_failures_silence cs cn 2 pick me nd0 [] [(env0, PvRound)] env0 env0 (key 5) (key 6) many many _ _ _ env0 (key 7) (Some (MBlocks [b1]))).
  - unfold many. rewrite length_replicate. lia.
  - unfold many. rewrite length_replicate. lia.
  - reflexivity.
Defined.
End P2PExamples.
